(* ===== verification/_CoqProject ===== *)
-Q . S2P
Prelude.v
Text.v
Utf8.v
Effects.v
Owners.v
RepoPaths.v
RateLimit.v
GenerationGate.v
ScheduleTime.v
Glob.v
ReadRequests.v
Edits.v
Transaction.v
Workspace.v
Apply.v
WriteGate.v
Registry.v
Executor.v
RepoLoop.v
LoopClone.v
Compaction.v
WebLedger.v
Sessions.v
Tables.v
Memory.v
MemoryRuns.v
MemoryStore.v
MemoryRecall.v
MemorySuggest.v
NetScope.v
PublicAddr.v
WebPolicy.v
WebRules.v
WebFetch.v
LoopRunner.v
Jobs.v
Notifications.v
Schedules.v
ToolBroker.v
Ranking.v
Jail.v
Multipart.v
Attachments.v
Fence.v
RunLifecycle.v
RunDecision.v
OpenAiStream.v
Authn.v
Accounts.v
Routes.v
Gate.v
AccountRoutes.v
