(* ===== verification/Prelude.v ===== *)
(** * CGagentHarness: the repository agent and the stores around it

    CGagentHarness is a Rust program: a loopback HTTP console ([src/server])
    and an agentic child process ([src/agentic]) that clones a repository,
    asks a planner model for changes, verifies them in a sandbox and, after a
    person has decided, commits, pushes and publishes them.  This development
    models the parts that decide what the program may do to a repository, to
    GitHub and to its own durable state, and proves the promises that the
    program makes about them.  Paths below are relative to [src/].

    ** How the parts interact

    A run starts with the loop ([agentic/real_repo_loop.rs], [RepoLoop]).  The
    loop passes its setup gates, collects bounded file snapshots ([Edits]),
    asks the planner, takes READ requests out of the answer ([ReadRequests],
    [Glob]), parses the proposal ([Edits]), scans it, applies it to the clone
    ([Workspace] admits it, [Transaction] installs it, [Apply] puts the two
    together and [LoopClone] puts them into the loop), runs the checks
    ([Executor]) and decides.  Every path on the way passes the jail of
    [RepoPaths].  A finished run is a record on disk; the commands decide,
    push, publish and discard ([RunLifecycle]) move it, and the decision calls
    the loop's finalisation ([RunDecision] puts the two together).  Everything
    that changes the world passes the policy gate of [WriteGate], which also
    owns the one GitHub write, a draft pull request, and of the skill registry
    ([Registry]), a file that processes update under a lock directory.

    A request to the server passes the guards of [Gate] and reaches a handler of
    the table of [Routes] as an account that [Authn] and [Accounts] know;
    [AccountRoutes] are the handlers that change accounts.  On the server side
    [Jobs] keeps the background runs, [Schedules] (with the calendar of
    [ScheduleTime]) starts them again on time, [Notifications] delivers their
    completions to webhooks, [GenerationGate] admits one model generation at a
    time, [LoopRunner] runs a goal turn after turn in a chat session,
    [Sessions] stores the chats of each owner, [Compaction] keeps the history of
    a session within its budget, [WebLedger] the web reads it may build on,
    [OpenAiStream] decodes a streamed answer, [RateLimit] bounds the requests,
    [ToolBroker] gates tool names, and [Ranking] cuts and selects retrieved
    text.  The structured memory keeps the facts of an owner that a person has
    reviewed: [Memory] has the rows and the decisions on proposals,
    [MemoryRuns] the runs of the consolidator that proposes, [MemoryStore] all
    operations as one history, [MemoryRecall] what reaches a prompt, a search
    or an export, and [MemorySuggest] the queue and worker that ask a model for
    proposals while the chat has no use for it.  The files that an account
    uploads come as a request that [Multipart] reads, are kept by [Attachments]
    in the directory of [Jail], and reach a prompt inside the block that
    [Fence] puts around them.  The web is read under the URL policy of
    [WebPolicy], which an administrator changes through [WebRules]; [WebFetch]
    reads a page under it, at addresses that [PublicAddr] calls public.  The
    LAN observation looks only at networks of [NetScope].

    ** Files

    - [Prelude]: automation, [result] (Rust's [Result]) and its monad, the
      typed error envelope ([common/errors.rs]).
    - [Text]: Rust strings as lists of Unicode scalar values, and the string
      operations of the standard library that the program calls; [Utf8]: the
      decoding of bytes, strict and lossy.
    - [Effects]: the monad [eff W F E] of code that changes a world [W], leaves
      a trace of effects [F] and may fail with [E]; predicates on what a
      computation may add to the trace ([quiet], [emits], [at_most]) and on
      what it preserves ([keeps]); JSON values and audit events.
    - [RepoPaths]: [canonical_repo_relative_path] (common/repo_paths.rs), the
      name folds and [validate_write_path] (agentic/workspace.rs),
      [lexical_normalize] (agentic/config.rs).
    - [Glob], [ReadRequests]: [star_glob], [extract_read_requests],
      [apply_model_read_request], [matches_protected_path]
      (agentic/real_repo_loop.rs).
    - [Edits]: [collect_checked], [parse], [parse_file_blocks], exact edits
      (agentic/edits.rs, agentic/real_repo_loop.rs).
    - [Workspace]: [read_file] and the admission part of [apply_proposal];
      [Transaction]: [StagedReplacement] and the batch part of
      [apply_proposal]; [Apply]: [apply_proposal] as a whole, on a clone with
      directories and links (agentic/workspace.rs); [LoopClone]: the loop with
      [Apply] in place of its parameter.
    - [WriteGate]: [current_repository_policy], [plan_write], [execute_write]
      (agentic/writer.rs), branch names (common/identity.rs).
    - [Executor]: the acceptance manifest, the disposable copy and
      [run_verification] (agentic/executor/).
    - [RepoLoop]: [run_real_repo_loop], [decide_real_repo_candidate],
      [finalize_real_repo_change] (agentic/real_repo_loop.rs).
    - [RunLifecycle]: [RealRepoRunRecord] and its storage
      (agentic/run_store.rs), [cmd_real_repo_run_decide], [.._push],
      [.._publish], [.._discard] (agentic/commands.rs), [push_approved] and
      the source checks (agentic/workspace.rs); [RunDecision]: the decide
      command with [finalize_real_repo_change] in its place.
    - [Owners]: [valid_owner] and identifiers (common/mod.rs,
      server/structured_memory.rs).
    - [Jobs]: [AgentJobStore] (server/agent_jobs.rs); [ScheduleTime],
      [Schedules]: server/schedule_time.rs and server/agent_schedules.rs;
      [Notifications]: server/notifications.rs, server/notification_outbox.rs.
    - [Registry]: the skill registry and its lock (agentic/registry.rs).
    - [Compaction]: history, budget and compaction of a chat session
      (server/compaction.rs); [Sessions]: the session files, their cache, goals
      and prompts (server/sessions.rs); [WebLedger]: server/web_ledger.rs;
      [OpenAiStream]: llm/openai_stream.rs; [LoopRunner]: the run of a goal and
      its manager (server/loop_runner.rs).
    - [Tables]: rows and their counts, for the next five.  [Memory],
      [MemoryRuns], [MemoryStore], [MemoryRecall]:
      server/structured_memory.rs, server/structured_memory_fts.rs,
      server/structured_memory_consolidate.rs, server/structured_memory_auto.rs
      and [prompt_memory] of server/routes/structured_memory.rs;
      [MemorySuggest]: server/structured_memory_suggest.rs.
    - [Jail], [Multipart], [Attachments]: server/attachments.rs (the store's
      directory and atomic writes; the request of an upload; the store and its
      clean-up); [Fence]: the rest of it, server/passage_index.rs and
      server/attachment_index.rs.
    - [Authn], [Accounts]: common/authn.rs, common/auth_store.rs,
      common/auth_sqlite.rs; [Routes], [Gate]: server/routes/mod.rs,
      server/guards.rs, server/headers.rs; [AccountRoutes]:
      server/routes/auth.rs.
    - [PublicAddr], [WebPolicy], [WebRules]: server/web_policy.rs;
      [WebFetch]: the page reader of server/web_search.rs; [NetScope]:
      netconnect/scope.rs.
    - [GenerationGate], [RateLimit], [ToolBroker], [Ranking]:
      server/generation_gate.rs, common/ratelimit.rs, common/tool_broker.rs,
      server/retrieval_ranking.rs.

    A definition has the name of the Rust item it models.  A struct is a
    Record with its fields, an enum an Inductive with its constructors.  A
    handler that only computes is a function to [result]; one that reads or
    changes shared state is a computation of [eff], its early returns and
    audit lines in the source's order.  A lock that an operation holds from
    its first to its last statement makes the operation one step; where the
    source releases the lock in between ([GenerationGate]), or other processes
    may interfere ([Transaction]), the steps are separate.

    ** What the theorems show

    - The agent writes only what it may: a write path lands in the clone and
      outside of [.git] ([validate_write_path_jail]); an admitted proposal is
      jailed, unprotected, fresh and bounded ([admitted_proposal_is_safe]) and
      bound to what the planner was shown ([proposal_bound_to_snapshots]); a
      batch is installed completely or not at all ([write_batch_atomic]), and
      under interference no original is lost ([recovery_copy_survives]).
    - The loop is honest: it applies nothing that a scan rejected and commits
      nothing ([loop_writes_only_what_passed]), accepts only what it verified
      ([loop_accepts_only_verified]), and reports what it changed
      ([changed_files_complete]); a commit needs an approval, every gate of the policy and a
      manifest that still describes the tree ([approve_commits_only_verified],
      [verified_manifest_pins_content], [verification_report_honest]).
    - A run moves only along its life cycle, over any sequence of commands
      ([run_lifecycle]); a push takes exactly the approved commit to the
      recorded remote ([push_only_approved]); the GitHub write runs the
      vector of the reviewed plan and no other
      ([execute_write_runs_only_reviewed]); the policy fails
      closed ([policy_fails_closed]).
    - Durable state: no occurrence of a schedule starts twice, whatever fails
      ([dispatch_at_most_once], [dispatch_contract],
      [recovery_dispatches_nothing], [activation_bound_to_preview],
      [changes_atomic_and_isolated]); a job settles once and survives a restart
      ([job_lifecycle], [registration_evicts_oldest], [restart_round_trip]).
    - Completions: a delivery is posted a bounded number of times whatever
      crashes ([posts_bounded]), only where its owner's grant allows
      ([posts_only_granted], [bearers_isolated]), and is settled in the end
      ([deliveries_settle]); the outbox always reopens
      ([outbox_always_reopens]).
    - Accounts and requests: a handler runs only for whom the gate admits
      ([handlers_run_for_the_admitted]), accounts change only for an
      administrator who proved it ([account_changes_authorized]) and stay valid
      through failures ([accounts_stay_valid]), sessions are authentic
      ([live_session_authentic]) and guessing is bounded
      ([brute_force_bounded]).
    - Chats: an owner sees and changes only the own sessions
      ([session_views_isolated]), stored ones stay sound
      ([stored_sessions_stay_sound], [cached_list_exact],
      [recalled_prompt_redacted], [goal_stage_claimed_once]), as does the web
      ledger ([web_ledger_sound], [carried_rows_sealed]); the stream decoder
      does not depend on how the bytes arrive ([chunking_is_irrelevant],
      [sse_round_trip]).
    - Structured memory: the store stays sound through every history
      ([memory_history_sound]; the full-text index is left open only by the
      purge of an owner with a deactivated fact, [purge_opens_index] in [MemoryStore]), owners
      are isolated
      ([memory_owners_isolated]), a fact changes only as reviewed
      ([facts_change_only_as_reviewed]), a decision is final
      ([decision_is_final]), what a proposal cites survives
      ([cited_episodes_survive], [prune_exact]); the consolidator's output is
      bound to the rows it names ([consolidator_output_is_bound]); a prompt
      shows current facts only, exactly those it reports, and loses no
      selection unsaid ([prompt_facts_are_current]), exports and search
      queries are inert ([export_is_bounded_and_inert], [fts_query_is_inert]),
      gates survive a save ([gates_round_trip]).  The suggestion worker is
      sound under every interleaving ([suggestion_queue_sound]), only proposes
      ([suggestions_await_review], [suggestions_refine_memory]), respects a
      cleared chat ([cleared_chat_is_not_suggested]) and gives the model back
      ([worker_turn_ends]).
    - Uploads: a multipart body is read as it was sent
      ([multipart_round_trip]); whatever system call fails and wherever the
      process dies, each operation of the store is one step on its rows
      ([attachments_refine_rows]), its quotas and digests hold
      ([attachment_store_sound]), an answered upload reads back
      ([uploads_read_back]) to its owner only ([reads_owned_and_verified]), and
      nothing of a deleted account is left
      ([deleted_account_leaves_nothing]); no uploaded text leaves its fence
      ([upload_cannot_close_fence]).
    - Skill registry: the lock excludes as long as it is held briefly
      ([registry_lock_exclusive]; [slow_holder_clashes] shows that the
      condition is needed), no change is lost ([registry_updates_never_lost]),
      the gates are exact ([apply_gates_exact]).
    - Refinement: on a clone with links and directories [apply_proposal] does
      what its specification says ([apply_files_refines]), and the loop on
      that clone changes nothing that was not admitted
      ([loop_touches_only_admitted], [accepted_run_leaves_proposal]).
    - Web reading: the policy permits exactly the URLs of its rules
      ([authorize_read_exact], [canonical_url_safe], [canonical_escapes]), its
      changes keep it well formed and never widen it by themselves
      ([policy_changes_safe]); a read asks it for every URL on the way and
      connects to public addresses only ([fetch_asks_policy],
      [public_addresses_exact]).
    - Chat sessions: the stored history is sound and fits the window
      ([session_history_sound], [summary_input_bounded_and_sealed],
      [compaction_keeps_longest_tail]); a goal's run ends
      ([loop_run_terminates], [stall_detector_exact],
      [manager_one_run_per_session]).
    - Admission and limits: [gate_exclusive_no_lost_wakeup],
      [sliding_window_bound], [retry_after_exact], [tool_gate_exact],
      [model_reads_bounded_and_jailed], [collect_bounded_and_honest],
      [read_file_jailed], [scope_is_private].
    - Parsing and selection: [file_blocks_lossless], [blocks_are_transparent],
      [canonical_path_characterised], [leading_dash_survives_dot_slash],
      [star_glob_is_wildcard], [interval_next_exact],
      [cron_never_repeats_wall_time], [weekday_ranges_exact],
      [chunk_text_covers], [select_diverse_spec].

    ** Fuel and bounds

    Most definitions are structurally recursive.  Fuel is used where the
    source's loop restarts or jumps: [star_glob] gets
    [(|name|+1) * (|pattern|+1) + |pattern| + 2] steps, and
    [star_glob_is_wildcard] proves its answer correct, so the fuel never runs
    out; [scan_blocks], [chunk_from], [split_sub] and [count_from] consume at
    least one character per step and get the length of the text (plus one),
    which their lemmas use as the hypothesis; [dec_digits] gets one step per
    binary digit ([show_nat_parses]).  The loop of a run recurses on the iterations that are left.
    [run_turns] gets more than [max_turns * max_failures] turns, which
    [loop_run_terminates] proves enough; a page read follows its list of
    permitted redirects.  [deliveries_settle] runs the worker for as long as it
    takes and proves that the number of steps is finite.
    [prune_owner_episodes] gets one round per episode row, which [prune_exact]
    shows to be enough.
    [parse_parts] gets one round per byte of the body and one more, which
    [parse_multipart_total] shows to be enough.
    [take 4096] and every named bound are the source's constants.

    ** What is not modelled

    Third-party code (SHA-256, serde_json, the normalisation and lower-casing
    of Unicode, cron and time zone tables, the sandbox, git and gh), the
    operating system and the planner are parameters, and the trace records
    what is asked of them.  Where a theorem needs their behaviour it is a named
    record of laws ([UrlLaws] for [http] and [https] URLs, [JsonLaws] for the
    lengths of printed values, [Ids] and [Laws] of the upload store), which an
    instance satisfies.  Deadlines of single computations are not modelled.  Times are [f64] seconds in the source and exact
    integers here.  Byte strings that are not UTF-8 are
    modelled for uploads and streams only.  Of the
    repository commands the one that starts a run and the listings are left
    out.  Partly modelled, as the files say: web reading (policy, page reads
    and ledger, not search providers, robots and pacing), notifications (not
    the status view and the disabling of an owner), accounts (not the command
    line and the hashing of passwords), the HTTP gate (not the transport),
    structured memory (SQLite is rows and transactions, the full-text engine a
    parameter; the parsing of a model's JSON and most HTTP handlers around the
    store are left out).  Whole parts left out: configuration parsing, the
    remaining HTTP handlers and views, the notes corpus, the text of a
    .docx file (a parameter), the slash grammar
    and the composition of prompts, credentials and key rings, the spend
    ledger, MCP, most of the LAN observation, model backends, the sandbox and
    git edge, and the desktop shell; most are glue, network, file formats or
    operating system calls.

    ** Plan

    What would add most next: the commit ([commit_accepted]) and the command
    that starts a run; the notes corpus, on [Jail] and [Fence]; the slash
    grammar; the spend ledger; robots and pacing of the web search. *)

From stdpp Require Export base list gmap strings option sorting.
From Stdlib Require Export ZArith Lia.

(** ** Automation shared by every component *)

Create HintDb harness.

(** Split every conjunction, disjunction of booleans and option/bool case
    that a handler's guard produced, then close the absurd branches. *)
Ltac guard_step :=
  match goal with
  | H : Some _ = Some _ |- _ => injection H as H; subst
  | H : None = Some _ |- _ => discriminate H
  | H : Some _ = None |- _ => discriminate H
  | H : true = false |- _ => discriminate H
  | H : false = true |- _ => discriminate H
  | H : _ /\ _ |- _ => destruct H
  | H : _ && _ = true |- _ => apply andb_true_iff in H
  | H : _ || _ = false |- _ => apply orb_false_iff in H
  | H : negb _ = true |- _ => apply negb_true_iff in H
  | H : negb _ = false |- _ => apply negb_false_iff in H
  | H : bool_decide _ = true |- _ => apply bool_decide_eq_true in H
  | H : bool_decide _ = false |- _ => apply bool_decide_eq_false in H
  | H : (_ <=? _)%Z = true |- _ => apply Z.leb_le in H
  | H : (_ <=? _)%Z = false |- _ => apply Z.leb_gt in H
  | H : (_ <? _)%Z = true |- _ => apply Z.ltb_lt in H
  | H : (_ <? _)%Z = false |- _ => apply Z.ltb_ge in H
  | H : (_ =? _)%Z = true |- _ => apply Z.eqb_eq in H
  | H : (_ =? _)%Z = false |- _ => apply Z.eqb_neq in H
  | H : (_ <=? _)%nat = true |- _ => apply Nat.leb_le in H
  | H : (_ <=? _)%nat = false |- _ => apply Nat.leb_gt in H
  | H : (_ <? _)%nat = true |- _ => apply Nat.ltb_lt in H
  | H : (_ <? _)%nat = false |- _ => apply Nat.ltb_ge in H
  | H : (_ =? _)%nat = true |- _ => apply Nat.eqb_eq in H
  | H : (_ =? _)%nat = false |- _ => apply Nat.eqb_neq in H
  end.

Ltac guards := repeat guard_step.

(** Case analysis on the scrutinee of the first [match] or [if] of [H]. *)
Ltac split_match_in H :=
  match type of H with
  | context [match ?x with _ => _ end] => destruct x eqn:?; simpl in H
  end.

Ltac split_match :=
  match goal with
  | |- context [match ?x with _ => _ end] => destruct x eqn:?; simpl
  end.

(** ** Fallible code: Rust's [Result] *)

Inductive result (E A : Type) : Type :=
| Ok (a : A)
| Err (e : E).
Arguments Ok {E A} _.
Arguments Err {E A} _.

#[export] Instance result_ret {E} : MRet (result E) := fun A a => Ok a.
#[export] Instance result_bind {E} : MBind (result E) :=
  fun A B f m => match m with Ok a => f a | Err e => Err e end.
#[export] Instance result_fmap {E} : FMap (result E) :=
  fun A B f m => match m with Ok a => Ok (f a) | Err e => Err e end.

Definition is_ok {E A} (r : result E A) : bool :=
  match r with Ok _ => true | Err _ => false end.

(** [Option::ok_or] *)
Definition ok_or {E A} (o : option A) (e : E) : result E A :=
  match o with Some a => Ok a | None => Err e end.

(** [Result::map_err] *)
Definition map_err {E E' A} (f : E -> E') (r : result E A) : result E' A :=
  match r with Ok a => Ok a | Err e => Err (f e) end.

(** An early [return Err(e)] guarded by a condition. *)
Definition refuse_if {E} (c : bool) (e : E) : result E unit :=
  if c then Err e else Ok tt.

Section ResultLemmas.
Context {E A B : Type}.

Lemma Ok_inj (a b : A) : Ok a = Ok b :> result E A -> a = b.
Proof. congruence. Qed.

Lemma bind_Ok_inv (m : result E A) (f : A -> result E B) b :
  m ≫= f = Ok b -> exists a, m = Ok a /\ f a = Ok b.
Proof. destruct m; simpl; intros H; [eauto | discriminate]. Qed.

Lemma bind_Err_inv (m : result E A) (f : A -> result E B) e :
  m ≫= f = Err e -> m = Err e \/ exists a, m = Ok a /\ f a = Err e.
Proof. destruct m; simpl; intros H; [eauto | left; congruence]. Qed.

Lemma refuse_if_Ok c (e : E) u : refuse_if c e = Ok u <-> c = false.
Proof. destruct c, u; simpl; split; congruence. Qed.

Lemma refuse_if_Err c (e e' : E) : refuse_if c e = Err e' <-> c = true /\ e = e'.
Proof. destruct c; simpl; split; [intros [=]; auto | intros [_ ->] | discriminate | intros [[=] _]]; done. Qed.

Lemma ok_or_Ok (o : option A) (e : E) a : ok_or o e = Ok a <-> o = Some a.
Proof. destruct o; simpl; split; congruence. Qed.
End ResultLemmas.

(** Take a monadic success apart, one step at a time. *)
Ltac result_step :=
  match goal with
  | H : Ok _ = Ok _ |- _ => injection H as H; subst
  | H : Err _ = Err _ |- _ => injection H as H; subst
  | H : Ok _ = Err _ |- _ => discriminate H
  | H : Err _ = Ok _ |- _ => discriminate H
  | H : refuse_if _ _ = Ok _ |- _ => apply refuse_if_Ok in H
  | H : ok_or _ _ = Ok _ |- _ => apply ok_or_Ok in H
  | H : _ ≫= _ = Ok _ |- _ =>
      let a := fresh "a" in let Ha := fresh "Hb" in
      apply bind_Ok_inv in H as (a & Ha & H)
  end.

Ltac results := repeat (result_step || guard_step).

(** The one error envelope of the crate ([common/errors.rs]).  Of the
    [details] object this keeps the [failed_gate] entry ([gate]) and the names
    of the entries that are set to [true] ([marks]: [indeterminate],
    [quarantine]); messages are not modelled. *)
Record harness_error := HarnessError {
  code : string;
  gate : option string;
  marks : list string;
}.

#[export] Instance harness_error_eq_dec : EqDecision harness_error.
Proof. solve_decision. Defined.

Definition err_code (c : string) : harness_error := HarnessError c None [].
Definition err_agentic : harness_error := err_code "AGENTIC_ERROR".
Definition err_config : harness_error := err_code "CONFIG_ERROR".
Definition err_write_refused : harness_error := err_code "AGENTIC_WRITE_REFUSED".
Definition err_harness_config : harness_error := err_code "HARNESS_CONFIG_ERROR".
Definition err_tool_denied : harness_error := err_code "TOOL_DENIED".
Definition err_gate (g : string) : harness_error := HarnessError "AGENTIC_WRITE_REFUSED" (Some g) [].
