(* ===== verification/Text.v ===== *)
(** Rust strings.

    A Rust [str] is a sequence of Unicode scalar values; [text] is that
    sequence, each scalar value a [Z].  Byte offsets of the source become
    positions in this sequence, which is the same comparison wherever the
    source only compares offsets of the same string, and [byte_len] is the
    UTF-8 length where the source bounds [len()].  The operations below are
    the ones of Rust's standard library that the modelled files call:
    [split], [split_inclusive], [join], [trim], [contains], [find], [rfind],
    [replacen], [split_once], [rsplit_once], and the ASCII classes.  Code point order is
    the byte order of UTF-8, so a [BTreeMap<String, _>] is iterated in the
    order [text_leb]. *)

From S2P Require Import Prelude.
Local Open Scope Z_scope.

Abbreviation char := Z (only parsing).
Abbreviation text := (list Z).

(** An ASCII literal. *)
Definition T (s : string) : text :=
  map (fun a => Z.of_N (Ascii.N_of_ascii a)) (String.list_ascii_of_string s).
Arguments T _%_string.

Definition teqb (a b : text) : bool := bool_decide (a = b).

Lemma teqb_eq a b : teqb a b = true <-> a = b.
Proof. apply bool_decide_eq_true. Qed.
Lemma teqb_neq a b : teqb a b = false <-> a <> b.
Proof. apply bool_decide_eq_false. Qed.
Lemma teqb_refl a : teqb a a = true.
Proof. by apply teqb_eq. Qed.

(** ** Character classes *)

Definition c_slash : char := 47.
Definition c_backslash : char := 92.
Definition c_dash : char := 45.
Definition c_colon : char := 58.
Definition c_dot : char := 46.
Definition c_space : char := 32.
Definition c_newline : char := 10.
Definition c_cr : char := 13.

Definition in_range (lo hi c : Z) : bool := (lo <=? c) && (c <=? hi).

Definition is_ascii_digit (c : char) : bool := in_range 48 57 c.
Definition is_ascii_lower (c : char) : bool := in_range 97 122 c.
Definition is_ascii_upper (c : char) : bool := in_range 65 90 c.
Definition is_ascii_alphabetic (c : char) : bool := is_ascii_lower c || is_ascii_upper c.
Definition is_ascii_alphanumeric (c : char) : bool := is_ascii_alphabetic c || is_ascii_digit c.
Definition to_ascii_lower (c : char) : char := if is_ascii_upper c then c + 32 else c.
Definition to_ascii_upper (c : char) : char := if is_ascii_lower c then c - 32 else c.

(** [char::is_control]: the general category Cc. *)
Definition is_control (c : char) : bool := in_range 0 31 c || in_range 127 159 c.

(** [char::is_whitespace]: the property White_Space. *)
Definition is_whitespace (c : char) : bool :=
  in_range 9 13 c || (c =? 32) || (c =? 133) || (c =? 160) || (c =? 5760)
  || in_range 8192 8202 c || (c =? 8232) || (c =? 8233) || (c =? 8239)
  || (c =? 8287) || (c =? 12288).

(** UTF-8 width of a scalar value and the byte length [str::len]. *)
Definition utf8_width (c : char) : Z :=
  if c <? 128 then 1 else if c <? 2048 then 2 else if c <? 65536 then 3 else 4.
Fixpoint byte_len (s : text) : Z :=
  match s with [] => 0 | c :: s' => utf8_width c + byte_len s' end.

Lemma utf8_width_pos c : 1 <= utf8_width c <= 4.
Proof. unfold utf8_width. repeat case_match; lia. Qed.

Lemma byte_len_ge s : Z.of_nat (length s) <= byte_len s.
Proof. induction s as [|c s IH]; simpl; [lia | pose proof (utf8_width_pos c); lia]. Qed.

Lemma byte_len_app s t : byte_len (s ++ t) = byte_len s + byte_len t.
Proof. induction s; simpl; lia. Qed.

(** ** Prefixes, search and replacement *)

Fixpoint starts_with (p s : text) : bool :=
  match p, s with
  | [], _ => true
  | a :: p', b :: s' => (a =? b) && starts_with p' s'
  | _ :: _, [] => false
  end.

Definition ends_with (p s : text) : bool := starts_with (rev p) (rev s).

Lemma starts_with_spec p s : starts_with p s = true <-> exists r, s = p ++ r.
Proof.
  revert s. induction p as [|a p IH]; intros s; simpl.
  - split; eauto.
  - destruct s as [|b s]; simpl.
    + split; [discriminate | intros [r [=]]].
    + rewrite andb_true_iff, Z.eqb_eq, IH. split.
      * intros [-> [r ->]]. eauto.
      * intros [r [= -> ->]]. eauto.
Qed.

Lemma starts_with_app p r : starts_with p (p ++ r) = true.
Proof. apply starts_with_spec. eauto. Qed.

Lemma ends_with_spec p s : ends_with p s = true <-> exists r, s = r ++ p.
Proof.
  unfold ends_with. rewrite starts_with_spec. split; intros [r H].
  - exists (rev r). rewrite <- (rev_involutive s), H, rev_app_distr, rev_involutive. done.
  - exists (rev r). rewrite H. apply rev_app_distr.
Qed.

(** First position at which [p] occurs ([str::find]). *)
Fixpoint find_sub (p s : text) : option nat :=
  if starts_with p s then Some O
  else match s with
       | [] => None
       | _ :: s' => match find_sub p s' with Some n => Some (S n) | None => None end
       end.

(** Last position at which [p] occurs ([str::rfind]). *)
Fixpoint rfind_sub (p s : text) : option nat :=
  match s with
  | [] => if starts_with p [] then Some O else None
  | _ :: s' =>
      match rfind_sub p s' with
      | Some n => Some (S n)
      | None => if starts_with p s then Some O else None
      end
  end.

Definition contains (p s : text) : bool :=
  match find_sub p s with Some _ => true | None => false end.

Definition occurs_at (p s : text) (n : nat) : Prop := exists r, drop n s = p ++ r.

Lemma find_sub_spec p s n :
  find_sub p s = Some n ->
  s = take n s ++ p ++ drop (n + length p) s
  /\ (forall m, (m < n)%nat -> ~ occurs_at p s m).
Proof.
  revert n. induction s as [|c s IH]; intros n; simpl.
  - destruct (starts_with p []) eqn:Hp; [|done]. intros [= <-].
    apply starts_with_spec in Hp as [r Hr].
    symmetry in Hr. apply app_nil in Hr as [-> ->]. split; [done | lia].
  - destruct (starts_with p (c :: s)) eqn:Hp.
    + intros [= <-]. apply starts_with_spec in Hp as [r Hr]. split; [|lia].
      rewrite Hr. simpl. by rewrite drop_app_length.
    + destruct (find_sub p s) as [k|] eqn:Hk; [|done]. intros [= <-].
      destruct (IH k eq_refl) as [Heq Hmin]. split.
      * simpl. f_equal. exact Heq.
      * intros [|m] Hm [r Hr].
        -- simpl in Hr. rewrite Hr, starts_with_app in Hp. done.
        -- apply (Hmin m); [lia | exists r; exact Hr].
Qed.

Lemma find_sub_None p s : find_sub p s = None -> forall m, (m <= length s)%nat -> ~ occurs_at p s m.
Proof.
  induction s as [|c s IH]; simpl; intros H m Hm [r Hr].
  - destruct m; [|lia]. simpl in Hr. rewrite Hr, starts_with_app in H. done.
  - destruct (starts_with p (c :: s)) eqn:Hp; [done|].
    destruct (find_sub p s) eqn:Hk; [done|]. destruct m as [|m].
    + simpl in Hr. rewrite Hr, starts_with_app in Hp. done.
    + apply (IH eq_refl m); [lia | by exists r].
Qed.

Lemma rfind_sub_spec p s n :
  rfind_sub p s = Some n ->
  occurs_at p s n /\ (forall m, (n < m <= length s)%nat -> ~ occurs_at p s m).
Proof.
  revert n. induction s as [|c s IH]; intros n; simpl.
  - destruct (starts_with p []) eqn:Hp; [|done]. intros [= <-].
    apply starts_with_spec in Hp. split; [exact Hp | lia].
  - destruct (rfind_sub p s) as [k|] eqn:Hk.
    + intros [= <-]. destruct (IH k eq_refl) as [Hocc Hmax]. split; [exact Hocc|].
      intros [|m] Hm; [lia|]. intros Ho. apply (Hmax m); [lia | exact Ho].
    + destruct (starts_with p (c :: s)) eqn:Hp; [|done]. intros [= <-].
      apply starts_with_spec in Hp. split; [exact Hp|].
      intros [|m] Hm Ho; [lia|]. clear IH Hp.
      revert m Hm Ho. induction s as [|d s IH]; intros m Hm [r Hr]; simpl in *.
      * destruct m; [|lia]. simpl in Hr. rewrite Hr, starts_with_app in Hk. done.
      * destruct (rfind_sub p s) eqn:Hs; [done|].
        destruct (starts_with p (d :: s)) eqn:Hp; [done|].
        destruct m as [|m]; simpl in Hr.
        -- rewrite Hr, starts_with_app in Hp. done.
        -- apply (IH eq_refl m); [lia | by exists r].
Qed.

Lemma find_sub_bound p s n : find_sub p s = Some n -> (n + length p <= length s)%nat.
Proof.
  revert n. induction s as [|c s IH]; intros n; simpl.
  - destruct (starts_with p []) eqn:Hp; [|done]. intros [= <-].
    apply starts_with_spec in Hp as [r Hr]. symmetry in Hr. by apply app_nil in Hr as [-> _].
  - destruct (starts_with p (c :: s)) eqn:Hp.
    + intros [= <-]. apply starts_with_spec in Hp as [r Hr].
      apply (f_equal length) in Hr. rewrite length_app in Hr. simpl in *. lia.
    + destruct (find_sub p s) as [k|]; [|done]. intros [= <-]. specialize (IH k eq_refl). lia.
Qed.

(** [s.find(p) == s.rfind(p)] for a [p] that occurs: the only occurrence. *)
Lemma find_eq_rfind_unique p s n :
  find_sub p s = Some n -> rfind_sub p s = Some n ->
  forall m, (m <= length s)%nat -> occurs_at p s m -> m = n.
Proof.
  intros Hf Hr m Hm Ho.
  destruct (lt_eq_lt_dec m n) as [[Hlt | ->] | Hgt]; [| done |].
  - by apply find_sub_spec in Hf as [_ Hmin]; destruct (Hmin m Hlt).
  - by apply rfind_sub_spec in Hr as [_ Hmax]; destruct (Hmax m (conj Hgt Hm)).
Qed.

Lemma contains_spec p s : contains p s = true <-> exists a b, s = a ++ p ++ b.
Proof.
  unfold contains. destruct (find_sub p s) as [n|] eqn:H.
  - split; [|done]. intros _. apply find_sub_spec in H as [H _]. eauto.
  - split; [done|]. intros (a & b & ->).
    destruct (find_sub_None _ _ H (length a)).
    + rewrite length_app. lia.
    + exists b. by rewrite drop_app_length.
Qed.

(** [str::split_once] and [str::rsplit_once] on a non-empty pattern. *)
Definition split_once (p s : text) : option (text * text) :=
  match find_sub p s with
  | Some n => Some (take n s, drop (n + length p) s)
  | None => None
  end.
Definition rsplit_once (p s : text) : option (text * text) :=
  match rfind_sub p s with
  | Some n => Some (take n s, drop (n + length p) s)
  | None => None
  end.

Lemma split_once_spec p s a b : split_once p s = Some (a, b) -> s = a ++ p ++ b.
Proof.
  unfold split_once. destruct (find_sub p s) eqn:H; [|done]. intros [= <- <-].
  by apply find_sub_spec in H as [H _].
Qed.

(** [str::replacen(p, new, 1)]. *)
Definition replace_first (p new s : text) : text :=
  match find_sub p s with
  | Some n => take n s ++ new ++ drop (n + length p) s
  | None => s
  end.

(** Non-overlapping occurrences, as [str::matches(p).count()]; [p] is never
    empty in the source. *)
Fixpoint count_from (fuel : nat) (p s : text) : nat :=
  match fuel with
  | O => O
  | S fuel' =>
      match find_sub p s with
      | Some n => S (count_from fuel' p (drop (n + length p) s))
      | None => O
      end
  end.
Definition count_matches (p s : text) : nat := count_from (S (length s)) p s.

(** ** Splitting and joining on one character *)

Fixpoint split_on (c : char) (s : text) : list text :=
  match s with
  | [] => [[]]
  | x :: s' =>
      if x =? c then [] :: split_on c s'
      else match split_on c s' with
           | w :: ws => (x :: w) :: ws
           | [] => [[x]]
           end
  end.

(** [split_inclusive(c)]: every piece but the last ends with [c]. *)
Fixpoint split_inclusive (c : char) (s : text) : list text :=
  match s with
  | [] => []
  | x :: s' =>
      if x =? c then [x] :: split_inclusive c s'
      else match split_inclusive c s' with
           | w :: ws => (x :: w) :: ws
           | [] => [[x]]
           end
  end.

Fixpoint join (sep : text) (ws : list text) : text :=
  match ws with
  | [] => []
  | [w] => w
  | w :: ws' => w ++ sep ++ join sep ws'
  end.

Lemma split_on_not_nil c s : split_on c s <> [].
Proof. destruct s; simpl; [done|]. repeat case_match; done. Qed.

Lemma split_on_no_sep c s : Forall (fun w => c ∉ w) (split_on c s).
Proof.
  induction s as [|x s IH]; simpl.
  - constructor; [apply not_elem_of_nil | constructor].
  - destruct (Z.eqb_spec x c) as [->|Hne].
    + constructor; [apply not_elem_of_nil | done].
    + destruct (split_on c s) as [|w ws] eqn:E; [by destruct (split_on_not_nil c s)|].
      inversion IH; subst. constructor; [|done].
      rewrite not_elem_of_cons. auto.
Qed.

Lemma join_split_on c s : join [c] (split_on c s) = s.
Proof.
  induction s as [|x s IH]; [done|]. simpl.
  destruct (split_on c s) as [|w ws] eqn:E; [by destruct (split_on_not_nil c s)|].
  destruct (Z.eqb_spec x c) as [->|Hne].
  - simpl. f_equal. exact IH.
  - destruct ws; simpl in *; f_equal; exact IH.
Qed.

Lemma split_on_app_sep c w s :
  c ∉ w -> split_on c (w ++ c :: s) = w :: split_on c s.
Proof.
  induction w as [|x w IH]; simpl; intros Hw.
  - by rewrite Z.eqb_refl.
  - apply not_elem_of_cons in Hw as [Hx Hw]. rewrite (IH Hw).
    destruct (Z.eqb_spec x c); [congruence | done].
Qed.

Lemma split_on_no_occ c w : c ∉ w -> split_on c w = [w].
Proof.
  induction w as [|x w IH]; simpl; intros Hw; [done|].
  apply not_elem_of_cons in Hw as [Hx Hw]. rewrite (IH Hw).
  destruct (Z.eqb_spec x c); [congruence | done].
Qed.

Lemma split_on_join c ws :
  ws <> [] -> Forall (fun w => c ∉ w) ws -> split_on c (join [c] ws) = ws.
Proof.
  induction ws as [|w ws IH]; [done|]. intros _ H. inversion H as [|? ? Hw Hws]; subst.
  destruct ws as [|w' ws]; simpl.
  - by apply split_on_no_occ.
  - rewrite split_on_app_sep by done. f_equal. apply IH; done.
Qed.

Lemma concat_split_inclusive c s : concat (split_inclusive c s) = s.
Proof.
  induction s as [|x s IH]; [done|]. simpl. destruct (Z.eqb_spec x c); simpl.
  - by rewrite IH.
  - destruct (split_inclusive c s) as [|w ws] eqn:E; simpl in *; by rewrite IH.
Qed.

(** ** Trimming *)

Fixpoint trim_start (f : char -> bool) (s : text) : text :=
  match s with
  | [] => []
  | c :: s' => if f c then trim_start f s' else s
  end.
Definition trim_end (f : char -> bool) (s : text) : text := rev (trim_start f (rev s)).
Definition trim (s : text) : text := trim_end is_whitespace (trim_start is_whitespace s).

Lemma trim_start_id f c s : f c = false -> trim_start f (c :: s) = c :: s.
Proof. intros H. simpl. by rewrite H. Qed.

Lemma trim_start_nil f s : trim_start f s = [] <-> Forall (fun c => f c = true) s.
Proof.
  induction s as [|c s IH]; simpl; [split; auto|].
  destruct (f c) eqn:H.
  - rewrite IH. split; [auto | by inversion 1].
  - split; [done|]. inversion 1. congruence.
Qed.

Lemma trim_end_snoc_id f c s : f c = false -> trim_end f (s ++ [c]) = s ++ [c].
Proof.
  intros H. unfold trim_end. rewrite rev_app_distr. simpl. rewrite H.
  simpl. by rewrite rev_involutive.
Qed.

Lemma trim_end_snoc_drop f c s : f c = true -> trim_end f (s ++ [c]) = trim_end f s.
Proof. intros H. unfold trim_end. rewrite rev_app_distr. simpl. by rewrite H. Qed.

Lemma trim_plain s : Forall (fun c => is_whitespace c = false) s -> trim s = s.
Proof.
  intros H. assert (Hs : forall l, Forall (fun c => is_whitespace c = false) l -> trim_start is_whitespace l = l).
  { intros l [|c l' Hc _]; [done | by apply trim_start_id]. }
  unfold trim, trim_end. rewrite (Hs s H), Hs by by apply Forall_rev. apply rev_involutive.
Qed.

(** ** Order of a [BTreeMap<String, _>] *)

Fixpoint text_leb (a b : text) : bool :=
  match a, b with
  | [], _ => true
  | _ :: _, [] => false
  | x :: a', y :: b' => (x <? y) || ((x =? y) && text_leb a' b')
  end.

Definition text_le (a b : text) : Prop := text_leb a b = true.
#[export] Instance text_le_dec a b : Decision (text_le a b) := decide (text_leb a b = true).

#[export] Instance text_le_total : Total text_le.
Proof.
  intros a. unfold text_le. induction a as [|x a IH]; intros [|y b]; simpl; auto.
  destruct (Z.ltb_spec x y), (Z.eqb_spec x y), (Z.ltb_spec y x), (Z.eqb_spec y x);
    simpl; auto; try lia.
Qed.

#[export] Instance text_le_trans : Transitive text_le.
Proof.
  intros a. unfold text_le. induction a as [|x a IH]; intros [|y b] [|z c]; simpl; try done.
  destruct (Z.ltb_spec x y), (Z.eqb_spec x y), (Z.ltb_spec y z), (Z.eqb_spec y z),
    (Z.ltb_spec x z), (Z.eqb_spec x z); simpl; try done; try lia; eauto.
Qed.

(** Keys in iteration order. *)
Definition sorted_keys {A} (m : gmap text A) : list text :=
  merge_sort text_le (elements (dom m)).

Lemma elem_of_sorted_keys {A} (m : gmap text A) k : k ∈ sorted_keys m <-> is_Some (m !! k).
Proof.
  unfold sorted_keys. rewrite <- elem_of_dom, <- elem_of_elements.
  split; intros H; eapply elem_of_Permutation_proper; try exact H;
    (apply merge_sort_Permutation || symmetry; apply merge_sort_Permutation).
Qed.

(** The decimal digits of a natural number, as [format!("{n}")]. *)
Fixpoint dec_digits (fuel : nat) (n : Z) : text :=
  match fuel with
  | O => []
  | S f => if n <? 10 then [48 + n] else dec_digits f (n / 10) ++ [48 + n mod 10]
  end.
Definition show_nat (n : Z) : text := dec_digits (S (Z.to_nat (Z.log2 n))) n.

Lemma dec_digits_digits fuel n : (0 <= n)%Z -> Forall (fun c => is_ascii_digit c = true) (dec_digits fuel n).
Proof.
  unfold is_ascii_digit, in_range. revert n. induction fuel as [|f IH]; intros n Hn; simpl; [constructor|].
  destruct (n <? 10)%Z eqn:E.
  - apply Z.ltb_lt in E. repeat constructor. apply andb_true_iff. rewrite !Z.leb_le. lia.
  - apply Forall_app. split; [apply IH, Z.div_pos; lia|]. repeat constructor.
    pose proof (Z.mod_pos_bound n 10). apply andb_true_iff. rewrite !Z.leb_le. lia.
Qed.
Lemma show_nat_digits n : (0 <= n)%Z -> Forall (fun c => is_ascii_digit c = true) (show_nat n).
Proof. apply dec_digits_digits. Qed.

(** [str::parse::<usize>()]: ASCII digits, an optional leading [+], no
    overflow of 64 bits. *)
Fixpoint parse_digits (acc : Z) (s : text) : option Z :=
  match s with
  | [] => Some acc
  | c :: s' => if is_ascii_digit c then parse_digits (acc * 10 + (c - 48)) s' else None
  end.
Definition parse_uint (bound : Z) (s : text) : option Z :=
  let digits := match s with c :: s' => if c =? 43 then s' else s | [] => s end in
  match digits with
  | [] => None
  | _ => match parse_digits 0 digits with
         | Some n => if n <=? bound then Some n else None
         | None => None
         end
  end.
Definition usize_max : Z := 2 ^ 64 - 1.
Definition u32_max : Z := 2 ^ 32 - 1.

Lemma parse_digits_nonneg acc s n : 0 <= acc -> parse_digits acc s = Some n -> 0 <= n.
Proof.
  revert acc. induction s as [|c s IH]; simpl; intros acc Ha; [by intros [= <-]|].
  destruct (is_ascii_digit c) eqn:E; [|done]. unfold is_ascii_digit, in_range in E. guards.
  apply IH. lia.
Qed.

Lemma parse_uint_bounds bound s n : parse_uint bound s = Some n -> 0 <= n <= bound.
Proof.
  unfold parse_uint. destruct (match s with [] => _ | _ => _ end) as [|c d]; [done|].
  destruct (parse_digits 0 (c :: d)) as [m|] eqn:E; [|done]. case_match; [|done].
  intros [= <-]. guards. split; [|done]. by eapply parse_digits_nonneg, E.
Qed.

Lemma parse_digits_app acc s s' :
  parse_digits acc (s ++ s') = parse_digits acc s ≫= fun a => parse_digits a s'.
Proof. revert acc. induction s as [|c s IH]; intros acc; simpl; [done|]. by destruct (is_ascii_digit c). Qed.

Lemma parse_dec_digits fuel n :
  0 <= n < 2 ^ Z.of_nat fuel -> (0 < fuel)%nat -> parse_digits 0 (dec_digits fuel n) = Some n.
Proof.
  revert n. induction fuel as [|f IH]; intros n Hn Hf; [lia|]. simpl.
  assert (Hd : forall d, 0 <= d < 10 -> is_ascii_digit (48 + d) = true).
  { intros d ?. unfold is_ascii_digit, in_range. apply andb_true_iff. rewrite !Z.leb_le. lia. }
  destruct (n <? 10) eqn:E.
  - apply Z.ltb_lt in E. simpl. rewrite Hd by lia. f_equal. lia.
  - apply Z.ltb_ge in E. pose proof (Z.div_mod n 10). pose proof (Z.mod_pos_bound n 10).
    rewrite Nat2Z.inj_succ, Z.pow_succ_r in Hn by lia.
    assert (0 < f)%nat by (destruct f; [simpl in Hn; lia | lia]).
    rewrite parse_digits_app, IH; [|split; [apply Z.div_pos; lia | apply Z.div_lt_upper_bound; lia] | done].
    simpl. rewrite Hd by lia. f_equal. lia.
Qed.

(** Printing a natural number loses nothing. *)
Lemma show_nat_parses n : 0 <= n -> parse_digits 0 (show_nat n) = Some n.
Proof.
  intros Hn. apply parse_dec_digits; [|lia]. split; [done|].
  rewrite Nat2Z.inj_succ, Z2Nat.id by apply Z.log2_nonneg.
  destruct (Z.eq_dec n 0) as [->|]; [done|]. by apply Z.log2_spec; lia.
Qed.

(** How many digits are printed. *)
Lemma dec_digits_bounds fuel n :
  0 <= n < 2 ^ Z.of_nat fuel -> (0 < fuel)%nat ->
  let len := Z.of_nat (length (dec_digits fuel n)) in
  1 <= len /\ n < 10 ^ len /\ (len = 1 \/ 10 ^ (len - 1) <= n).
Proof.
  revert n. induction fuel as [|f IH]; intros n Hn Hf; [lia|]. simpl.
  destruct (n <? 10) eqn:E; [apply Z.ltb_lt in E; simpl; lia|]. apply Z.ltb_ge in E.
  pose proof (Z.div_mod n 10). pose proof (Z.mod_pos_bound n 10).
  rewrite Nat2Z.inj_succ, Z.pow_succ_r in Hn by lia.
  assert (0 < f)%nat by (destruct f; [simpl in Hn; lia | lia]).
  assert (Hq : 0 <= n / 10 < 2 ^ Z.of_nat f) by (split; [apply Z.div_pos; lia | apply Z.div_lt_upper_bound; lia]).
  destruct (IH (n / 10) Hq ltac:(done)) as (Hl1 & Hl2 & Hl3). rewrite length_app. simpl length.
  set (len := Z.of_nat (length (dec_digits f (n / 10)))) in *.
  replace (Z.of_nat (length (dec_digits f (n / 10)) + 1)) with (Z.succ len) by lia.
  rewrite Z.pow_succ_r by lia. split; [lia|]. split; [lia|]. right. unfold Z.succ. rewrite Z.add_simpl_r.
  destruct Hl3 as [Hl3|Hl3]; [rewrite Hl3; lia|].
  replace len with (Z.succ (len - 1)) by lia. rewrite Z.pow_succ_r by lia. lia.
Qed.

Lemma show_nat_length_mono a b : 0 <= a <= b -> (length (show_nat a) <= length (show_nat b))%nat.
Proof.
  intros Hab. assert (Hf : forall n, 0 <= n -> 0 <= n < 2 ^ Z.of_nat (S (Z.to_nat (Z.log2 n)))).
  { intros n Hn. split; [done|]. rewrite Nat2Z.inj_succ, Z2Nat.id by apply Z.log2_nonneg.
    destruct (Z.eq_dec n 0) as [->|]; [done|]. by apply Z.log2_spec; lia. }
  destruct (dec_digits_bounds _ a (Hf a ltac:(lia)) ltac:(lia)) as (Ha1 & _ & Ha).
  destruct (dec_digits_bounds _ b (Hf b ltac:(lia)) ltac:(lia)) as (Hb1 & Hb & _).
  fold (show_nat a) in Ha, Ha1. fold (show_nat b) in Hb, Hb1.
  destruct (le_gt_dec (length (show_nat a)) (length (show_nat b))) as [|Hlt]; [done|]. exfalso.
  destruct Ha as [Ha|Ha]; [lia|].
  assert (10 ^ Z.of_nat (length (show_nat b)) <= 10 ^ (Z.of_nat (length (show_nat a)) - 1)) by (apply Z.pow_le_mono_r; lia).
  lia.
Qed.

Lemma byte_len_ascii s : Forall (fun c => c < 128) s -> byte_len s = Z.of_nat (length s).
Proof.
  induction 1 as [|c s Hc _ IH]; [done|]. simpl. rewrite IH. unfold utf8_width.
  destruct (Z.ltb_spec c 128); lia.
Qed.

Lemma show_nat_bytes n : 0 <= n -> byte_len (show_nat n) = Z.of_nat (length (show_nat n)).
Proof.
  intros Hn. apply byte_len_ascii. eapply Forall_impl; [by apply show_nat_digits|].
  intros c Hc. unfold is_ascii_digit, in_range in Hc. apply andb_true_iff in Hc as [_ Hc]. apply Z.leb_le in Hc. lia.
Qed.

(** [str::replace]: every occurrence, left to right, without overlap.  The
    pieces between them; [p] is not empty. *)
Fixpoint split_sub (fuel : nat) (p s : text) : list text :=
  match fuel with
  | O => [s]
  | S f => match find_sub p s with
           | Some n => take n s :: split_sub f p (drop (n + length p) s)
           | None => [s]
           end
  end.
Definition replace_all (p new s : text) : text := join new (split_sub (S (length s)) p s).

(** *** [replace_all], one character at a time *)

Lemma contains_cons q c s : contains q (c :: s) = starts_with q (c :: s) || contains q s.
Proof. unfold contains. simpl. destruct (_ q (c :: s)); [done|]. by destruct (find_sub q s). Qed.

Lemma contains_nil q : contains q [] = starts_with q [].
Proof. unfold contains. simpl. by destruct (starts_with q []). Qed.

Lemma split_sub_fuel p s f g :
  p <> [] -> (length s < f)%nat -> (length s < g)%nat -> split_sub f p s = split_sub g p s.
Proof.
  intros Hp. revert s g. induction f as [|f IH]; intros s [|g] Hf Hg; [lia..|]. simpl.
  destruct (find_sub p s) as [n|] eqn:E; [|done]. f_equal. apply find_sub_bound in E.
  assert (0 < length p)%nat by (destruct p; [done | simpl; lia]).
  apply IH; rewrite length_drop; lia.
Qed.

Lemma split_sub_S f p s :
  split_sub (S f) p s = match find_sub p s with
                        | Some n => take n s :: split_sub f p (drop (n + length p) s)
                        | None => [s]
                        end.
Proof. done. Qed.

Lemma split_sub_not_nil f p s : split_sub f p s <> [].
Proof. destruct f; simpl; [done|]. by destruct (find_sub p s). Qed.

Lemma join_cons sep w ws : ws <> [] -> join sep (w :: ws) = w ++ sep ++ join sep ws.
Proof. by destruct ws. Qed.

Section ReplaceAll.
Context (p new : text) (Hp : p <> []).

Lemma replace_all_nil : replace_all p new [] = [].
Proof using Hp. unfold replace_all. by destruct p. Qed.

Lemma replace_all_hit s : replace_all p new (p ++ s) = new ++ replace_all p new s.
Proof using Hp.
  unfold replace_all. rewrite (split_sub_S (length (p ++ s))).
  assert (E : find_sub p (p ++ s) = Some O).
  { destruct (p ++ s) eqn:Es; simpl; rewrite <- Es, starts_with_app; done. }
  rewrite E. cbn [take]. rewrite join_cons by apply split_sub_not_nil. rewrite app_nil_l. f_equal. cbn [Nat.add].
  rewrite drop_app_length. f_equal. apply split_sub_fuel; [exact Hp | | lia].
  rewrite length_app. destruct p; [done | simpl; lia].
Qed.

Lemma replace_all_miss c s : starts_with p (c :: s) = false -> replace_all p new (c :: s) = c :: replace_all p new s.
Proof using Hp.
  intros E. unfold replace_all. cbn [length]. set (f := S (length s)).
  rewrite (split_sub_fuel p s f (S f)) by (done || (subst f; lia)). rewrite !split_sub_S. cbn [find_sub]. rewrite E.
  destruct (find_sub p s) as [n|] eqn:En; [|done]. cbn [take Nat.add drop].
  rewrite !join_cons by apply split_sub_not_nil. done.
Qed.

(** Induction along the scan. *)
Lemma replace_all_ind (P : text -> text -> Prop) :
  P [] [] ->
  (forall s, P s (replace_all p new s) -> P (p ++ s) (new ++ replace_all p new s)) ->
  (forall c s, starts_with p (c :: s) = false -> P s (replace_all p new s) -> P (c :: s) (c :: replace_all p new s)) ->
  forall s, P s (replace_all p new s).
Proof using Hp.
  intros H0 H1 H2 s. induction s as [s IH] using (well_founded_induction (well_founded_ltof _ (@length char))).
  unfold ltof in IH. destruct s as [|c s]; [by rewrite replace_all_nil|].
  destruct (starts_with p (c :: s)) eqn:E.
  - apply starts_with_spec in E as [r E]. rewrite E, replace_all_hit. apply H1, IH. rewrite E, length_app.
    destruct p; [done | simpl; lia].
  - rewrite replace_all_miss by done. apply H2; [done|]. apply IH. simpl. lia.
Qed.
End ReplaceAll.

(** Tags that open with [a], have [a] nowhere else, and a second character. *)
Definition tag_like (a b : char) (t : text) : Prop := exists t', t = a :: b :: t' /\ a ∉ b :: t'.

Lemma starts_with_no_a a q r s : a ∉ q -> starts_with q (r ++ a :: s) = true -> starts_with q r = true.
Proof.
  revert r. induction q as [|x q IH]; intros r Ha H; [done|]. apply not_elem_of_cons in Ha as [Hx Ha].
  destruct r as [|y r]; simpl in H |- *; apply andb_true_iff in H as [E H].
  - apply Z.eqb_eq in E. congruence.
  - rewrite E. simpl. eauto.
Qed.

Lemma contains_app_no_a a q r s : a ∉ r -> contains (a :: q) (r ++ s) = contains (a :: q) s.
Proof.
  induction r as [|x r IH]; intros Ha; [done|]. apply not_elem_of_cons in Ha as [Hx Ha].
  simpl app. rewrite contains_cons, (IH Ha). simpl. destruct (Z.eqb_spec a x); [congruence | done].
Qed.

(** Replacing a tag by another text with the same first and a different second
    character creates no tag and leaves none of the replaced one. *)
Lemma replace_all_tags a b b' p q new s :
  tag_like a b p -> tag_like a b q -> tag_like a b' new -> b <> b' ->
  contains q (replace_all p new s) = true -> contains q s = true /\ q <> p.
Proof.
  intros (p' & -> & Hp) (q' & -> & Hq) (new' & -> & Hn) Hb.
  assert (Hstart : forall s, starts_with (b :: q') (replace_all (a :: b :: p') (a :: b' :: new') s) = true ->
                     starts_with (b :: q') s = true).
  { clear s. intros s. generalize (b :: q') as q, Hq. revert s.
    apply (replace_all_ind (a :: b :: p') (a :: b' :: new') ltac:(done) (fun s out => forall q, a ∉ q -> starts_with q out = true -> starts_with q s = true)).
    - auto.
    - intros s IH [|x q] Ha; [done|]. simpl. apply not_elem_of_cons in Ha as [Hx _].
      destruct (Z.eqb_spec x a); [congruence | done].
    - intros c s _ IH [|x q] Ha; [done|]. apply not_elem_of_cons in Ha as [_ Ha]. simpl.
      destruct (x =? c); [by apply IH | done]. }
  pattern s, (replace_all (a :: b :: p') (a :: b' :: new') s).
  apply (replace_all_ind (a :: b :: p') (a :: b' :: new') ltac:(done)); clear s.
  - rewrite contains_nil. done.
  - intros s IH H. simpl app in H. rewrite contains_cons in H. simpl starts_with in H.
    rewrite Z.eqb_refl in H. destruct (Z.eqb_spec b b'); [congruence|]. simpl in H.
    change (b' :: new' ++ ?x) with ((b' :: new') ++ x) in H. rewrite contains_app_no_a in H by done.
    destruct (IH H) as [Hc Hne]. split; [|done]. apply contains_spec in Hc as (x & y & ->).
    apply contains_spec. exists ((a :: b :: p') ++ x), y. by rewrite <- app_assoc.
  - intros c s Hs IH H. rewrite contains_cons in H |- *. apply orb_true_iff in H as [H|H].
    + assert (Hc : starts_with (a :: b :: q') (c :: s) = true).
      { change (starts_with (a :: b :: q') ?l) with (match l with x :: l' => (a =? x) && starts_with (b :: q') l' | [] => false end) in H |- *.
        simpl in H. apply andb_true_iff in H as [-> H]. apply Hstart in H. by rewrite H. }
      rewrite Hc. split; [done|]. intros E. rewrite E in Hc. congruence.
    + destruct (IH H) as [-> ?]. by rewrite orb_true_r.
Qed.

(** A pattern does not cross a character that it does not have. *)
Lemma contains_apart q c a b : c ∉ q -> contains q (a ++ c :: b) = true -> contains q a = true \/ contains q b = true.
Proof.
  intros Hn. induction a as [|x a IH]; simpl; intros H.
  - rewrite contains_cons in H. apply orb_true_iff in H as [H|H]; [|by right].
    left. rewrite contains_nil. by apply (starts_with_no_a c q [] b).
  - rewrite contains_cons in H |- *. apply orb_true_iff in H as [H|H].
    + left. apply orb_true_iff. left. by apply (starts_with_no_a c q (x :: a) b).
    + destruct (IH H) as [Ha|Hb]; [left; by rewrite Ha, orb_true_r | by right].
Qed.

(** Replacing a pattern by a text without any of its characters creates nothing
    and leaves none of it. *)
Lemma replace_all_gone p q new s :
  p <> [] -> q <> [] -> new <> [] -> (forall c, c ∈ new -> c ∉ q) -> contains q (replace_all p new s) = true -> contains q s = true /\ q <> p.
Proof.
  intros Hp Hq Hnew Hdis.
  assert (Hstart : forall s q, (forall c, c ∈ new -> c ∉ q) -> starts_with q (replace_all p new s) = true -> starts_with q s = true).
  { clear s. intros s. apply (replace_all_ind p new Hp (fun s out => forall q, (forall c, c ∈ new -> c ∉ q) -> starts_with q out = true -> starts_with q s = true)).
    - auto.
    - intros u IH [|x r] Hr H; [done|]. destruct new as [|n new']; [done|]. simpl in H. apply andb_true_iff in H as [H _]. apply Z.eqb_eq in H as ->.
      exfalso. by apply (Hr n); left.
    - intros c u _ IH [|x r] Hr H; [done|]. simpl in H |- *. apply andb_true_iff in H as [-> H]. apply IH; [|done].
      intros d Hd Hin. apply (Hr d Hd). by right. }
  assert (Hskip : forall w r, (forall c, c ∈ w -> c ∉ q) -> contains q (w ++ r) = contains q r).
  { intros w r. induction w as [|c w IH]; intros H; [done|]. cbn [app]. rewrite contains_cons, IH by (intros d Hd; apply H; by right).
    destruct q as [|x q']; [done|]. simpl. destruct (Z.eqb_spec x c) as [->|]; [|done]. exfalso. by apply (H c); left. }
  pattern s, (replace_all p new s). apply (replace_all_ind p new Hp); clear s.
  - rewrite contains_nil. by destruct q.
  - intros s IH H. rewrite Hskip in H by done. destruct (IH H) as [Hc Hne]. split; [|done].
    apply contains_spec in Hc as (x & y & ->). apply contains_spec. exists (p ++ x), y. by rewrite <- app_assoc.
  - intros c s Hs IH H. rewrite contains_cons in H |- *. apply orb_true_iff in H as [H|H].
    + assert (Hc : starts_with q (c :: s) = true).
      { destruct q as [|x q']; [done|]. simpl in H |- *. apply andb_true_iff in H as [-> H]. apply Hstart in H; [done|].
        intros d Hd Hin. apply (Hdis d Hd). by right. }
      rewrite Hc. split; [done|]. intros ->. congruence.
    + destruct (IH H) as [-> ?]. by rewrite orb_true_r.
Qed.

(** [tail_chars] *)
Definition tail_chars (s : text) (max : Z) : text := drop (length s - Z.to_nat max) s.

(** ** [strip_prefix], [strip_suffix] *)

Definition strip_prefix (p s : text) : option text :=
  if starts_with p s then Some (drop (length p) s) else None.
Definition strip_suffix (p s : text) : option text :=
  if ends_with p s then Some (take (length s - length p) s) else None.

Lemma strip_prefix_spec p s r : strip_prefix p s = Some r <-> s = p ++ r.
Proof.
  unfold strip_prefix. destruct (starts_with p s) eqn:E.
  - apply starts_with_spec in E as [r' ->]. rewrite drop_app_length.
    split; [by intros [= ->] | intros H%app_inv_head; congruence].
  - split; [done|]. intros ->. by rewrite starts_with_app in E.
Qed.

Lemma strip_suffix_spec p s r : strip_suffix p s = Some r <-> s = r ++ p.
Proof.
  unfold strip_suffix. destruct (ends_with p s) eqn:E.
  - apply ends_with_spec in E as [r' ->]. rewrite length_app, Nat.add_sub, take_app_length.
    split; [by intros [= ->] | intros H%app_inv_tail; congruence].
  - split; [done|]. intros ->. assert (ends_with p (r ++ p) = true) by (apply ends_with_spec; eauto).
    congruence.
Qed.

(** Search past characters that cannot start a match. *)
Lemma find_sub_skip c p w s :
  c ∉ w -> find_sub (c :: p) (w ++ s) = (fun n => (length w + n)%nat) <$> find_sub (c :: p) s.
Proof.
  induction w as [|x w IH]; intros Hc; [cbn [app length]; by destruct (find_sub (c :: p) s)|]. apply not_elem_of_cons in Hc as [Hx Hc].
  cbn [app find_sub starts_with]. destruct (Z.eqb_spec c x); [congruence|]. cbn [andb]. rewrite IH by done.
  by destruct (find_sub (c :: p) s).
Qed.

Lemma find_sub_here p s : find_sub p (p ++ s) = Some 0%nat.
Proof. pose proof (starts_with_app p s) as E. by destruct (p ++ s); cbn [find_sub]; rewrite E. Qed.

Lemma split_once_first c a b : c ∉ a -> split_once [c] (a ++ c :: b) = Some (a, b).
Proof.
  intros Hc. unfold split_once. rewrite find_sub_skip by done. change (c :: b) with ([c] ++ b). rewrite find_sub_here. cbn [fmap option_fmap option_map length].
  rewrite Nat.add_0_r, take_app_length, drop_app_add. done.
Qed.

Lemma split_once_char c s a b : split_once [c] s = Some (a, b) -> s = a ++ c :: b /\ c ∉ a.
Proof.
  intros H. pose proof (split_once_spec _ _ _ _ H) as ->. split; [done|].
  unfold split_once in H. destruct (find_sub [c] (a ++ [c] ++ b)) as [n|] eqn:E; [|done].
  assert (Ha : take n (a ++ [c] ++ b) = a) by congruence.
  apply find_sub_spec in E as [_ Hmin]. intros Hin.
  apply list_elem_of_lookup in Hin as (m & Hm).
  pose proof (lookup_lt_Some _ _ _ Hm) as Hlt.
  apply (Hmin m).
  - rewrite <- Ha, length_take in Hlt. lia.
  - exists (drop (S m) (a ++ [c] ++ b)). simpl. apply drop_S. by rewrite lookup_app_l.
Qed.

#[export] Hint Resolve starts_with_app teqb_refl : harness.
Create Rewrite HintDb harness.
#[export] Hint Rewrite join_split_on concat_split_inclusive byte_len_app : harness.

(** [split_whitespace] *)
Fixpoint words_of (cur : text) (s : text) : list text :=
  match s with
  | [] => if bool_decide (cur = []) then [] else [cur]
  | c :: s' =>
      if is_whitespace c
      then (if bool_decide (cur = []) then [] else [cur]) ++ words_of [] s'
      else words_of (cur ++ [c]) s'
  end.
Definition split_whitespace (s : text) : list text := words_of [] s.

(** [str::lines]: pieces between newlines, a final empty piece dropped, one
    trailing carriage return removed from each. *)
Definition strip_cr (s : text) : text :=
  match rev s with c :: r => if c =? c_cr then rev r else s | [] => s end.
Definition drop_last_empty (ws : list text) : list text :=
  match rev ws with [] :: r => rev r | _ => ws end.
(** A piece ends a line when a newline follows it; only then is its carriage
    return part of the line ending. *)
Fixpoint strip_terminated (ws : list text) : list text :=
  match ws with
  | [] => []
  | [w] => [w]
  | w :: ws' => strip_cr w :: strip_terminated ws'
  end.
Definition lines (s : text) : list text :=
  drop_last_empty (strip_terminated (split_on c_newline s)).
