(* ===== verification/Utf8.v ===== *)
(** UTF-8.

    Bytes are integers from 0 to 255.  [from_utf8] and [from_utf8_lossy] are
    the decoders of the standard library; [as_bytes] is the encoder.  The lossy
    decoder puts one replacement character in the place of each maximal prefix
    of a sequence that no valid sequence completes. *)

From S2P Require Import Prelude Text.
Local Open Scope Z_scope.


Definition cont (b : Z) : bool := in_range 128 191 b.

(** [std::str::from_utf8] *)
Fixpoint from_utf8 (bytes : list Z) : option text :=
  match bytes with
  | [] => Some []
  | a :: s1 =>
      if in_range 0 127 a then cons a <$> from_utf8 s1
      else match s1 with
      | [] => None
      | b :: s2 =>
          if in_range 194 223 a then (if cont b then cons ((a - 192) * 64 + (b - 128)) <$> from_utf8 s2 else None)
          else match s2 with
          | [] => None
          | c :: s3 =>
              if in_range 224 239 a then
                (if in_range (if a =? 224 then 160 else 128) (if a =? 237 then 159 else 191) b && cont c
                 then cons ((a - 224) * 4096 + (b - 128) * 64 + (c - 128)) <$> from_utf8 s3 else None)
              else match s3 with
              | [] => None
              | d :: s4 =>
                  if in_range 240 244 a && in_range (if a =? 240 then 144 else 128) (if a =? 244 then 143 else 191) b && cont c && cont d
                  then cons ((a - 240) * 262144 + (b - 128) * 4096 + (c - 128) * 64 + (d - 128)) <$> from_utf8 s4 else None
              end
          end
      end
  end.

(** The encoding of a scalar value. *)
Definition encode_char (c : char) : list Z :=
  if c <? 128 then [c]
  else if c <? 2048 then [192 + c / 64; 128 + c mod 64]
  else if c <? 65536 then [224 + c / 4096; 128 + c / 64 mod 64; 128 + c mod 64]
  else [240 + c / 262144; 128 + c / 4096 mod 64; 128 + c / 64 mod 64; 128 + c mod 64].
Definition as_bytes (s : text) : list Z := flat_map encode_char s.

(** A Rust [char]: no surrogate. *)
Definition is_scalar (c : char) : bool := in_range 0 55295 c || in_range 57344 1114111 c.

(** [String::from_utf8_lossy] *)
Definition replacement : char := 65533.
Fixpoint from_utf8_lossy (bytes : list Z) : text :=
  match bytes with
  | [] => []
  | a :: s1 =>
      if in_range 0 127 a then a :: from_utf8_lossy s1
      else if in_range 194 223 a then
        match s1 with
        | b :: s2 => if cont b then (a - 192) * 64 + (b - 128) :: from_utf8_lossy s2 else replacement :: from_utf8_lossy s1
        | [] => [replacement]
        end
      else if in_range 224 239 a then
        match s1 with
        | b :: s2 =>
            if in_range (if a =? 224 then 160 else 128) (if a =? 237 then 159 else 191) b then
              match s2 with
              | c :: s3 =>
                  if cont c then (a - 224) * 4096 + (b - 128) * 64 + (c - 128) :: from_utf8_lossy s3 else replacement :: from_utf8_lossy s2
              | [] => [replacement]
              end
            else replacement :: from_utf8_lossy s1
        | [] => [replacement]
        end
      else if in_range 240 244 a then
        match s1 with
        | b :: s2 =>
            if in_range (if a =? 240 then 144 else 128) (if a =? 244 then 143 else 191) b then
              match s2 with
              | c :: s3 =>
                  if cont c then
                    match s3 with
                    | d :: s4 =>
                        if cont d then
                          (a - 240) * 262144 + (b - 128) * 4096 + (c - 128) * 64 + (d - 128) :: from_utf8_lossy s4
                        else replacement :: from_utf8_lossy s3
                    | [] => [replacement]
                    end
                  else replacement :: from_utf8_lossy s2
              | [] => [replacement]
              end
            else replacement :: from_utf8_lossy s1
        | [] => [replacement]
        end
      else replacement :: from_utf8_lossy s1
  end.

(** ** The decoder inverts the encoder *)


Lemma is_scalar_range c : is_scalar c = true -> 0 <= c <= 55295 \/ 57344 <= c <= 1114111.
Proof. unfold is_scalar, in_range. rewrite orb_true_iff, !andb_true_iff, !Z.leb_le. lia. Qed.

Lemma in_range_true lo hi c : lo <= c <= hi -> in_range lo hi c = true.
Proof. unfold in_range. rewrite andb_true_iff, !Z.leb_le. lia. Qed.
Lemma in_range_false lo hi c : c < lo \/ hi < c -> in_range lo hi c = false.
Proof. unfold in_range. rewrite andb_false_iff, !Z.leb_gt. lia. Qed.

Lemma cont_mod c : 0 <= c -> cont (128 + c mod 64) = true.
Proof. intros Hc. apply in_range_true. pose proof (Z.mod_pos_bound c 64 eq_refl). lia. Qed.

Lemma from_utf8_char c s : is_scalar c = true -> from_utf8 (encode_char c ++ s) = cons c <$> from_utf8 s.
Proof.
  intros Hc%is_scalar_range. unfold encode_char.
  pose proof (Z.div_mod c 64 ltac:(lia)) as H1. pose proof (Z.mod_pos_bound c 64 eq_refl) as B1.
  destruct (Z.ltb_spec c 128); [cbn [app from_utf8]; by rewrite in_range_true by lia|].
  destruct (Z.ltb_spec c 2048).
  { cbn [app from_utf8]. rewrite in_range_false, in_range_true by lia. rewrite cont_mod by lia.
    replace ((192 + c / 64 - 192) * 64 + (128 + c mod 64 - 128)) with c by lia. done. }
  pose proof (Z.div_mod (c / 64) 64 ltac:(lia)) as H2. pose proof (Z.mod_pos_bound (c / 64) 64 eq_refl) as B2.
  rewrite Zdiv.Zdiv_Zdiv in H2 by lia. change (64 * 64) with 4096 in H2.
  destruct (Z.ltb_spec c 65536).
  { cbn [app from_utf8]. rewrite !(in_range_false _ _ (224 + c / 4096)) by lia. rewrite (in_range_true 224 239) by lia.
    assert (E : in_range (if 224 + c / 4096 =? 224 then 160 else 128) (if 224 + c / 4096 =? 237 then 159 else 191) (128 + c / 64 mod 64) = true).
    { apply in_range_true. destruct (Z.eqb_spec (224 + c / 4096) 224), (Z.eqb_spec (224 + c / 4096) 237); lia. }
    rewrite E, cont_mod by lia. cbn [andb].
    replace ((224 + c / 4096 - 224) * 4096 + (128 + c / 64 mod 64 - 128) * 64 + (128 + c mod 64 - 128)) with c by lia. done. }
  pose proof (Z.div_mod (c / 4096) 64 ltac:(lia)) as D3. pose proof (Z.mod_pos_bound (c / 4096) 64 eq_refl) as B3.
  rewrite Zdiv.Zdiv_Zdiv in D3 by lia. change (4096 * 64) with 262144 in D3.
  cbn [app from_utf8]. rewrite !(in_range_false _ _ (240 + c / 262144)) by lia. rewrite (in_range_true 240 244) by lia.
  assert (E : in_range (if 240 + c / 262144 =? 240 then 144 else 128) (if 240 + c / 262144 =? 244 then 143 else 191) (128 + c / 4096 mod 64) = true).
  { apply in_range_true. destruct (Z.eqb_spec (240 + c / 262144) 240), (Z.eqb_spec (240 + c / 262144) 244); lia. }
  rewrite E, !cont_mod by lia. cbn [andb].
  replace ((240 + c / 262144 - 240) * 262144 + (128 + c / 4096 mod 64 - 128) * 4096 + (128 + c / 64 mod 64 - 128) * 64 + (128 + c mod 64 - 128))
    with c by lia. done.
Qed.
Lemma from_utf8_bytes s : Forall (fun c => is_scalar c = true) s -> from_utf8 (as_bytes s) = Some s.
Proof.
  induction 1 as [|c s Hc _ IH]; [done|]. unfold as_bytes in *. cbn [flat_map]. by rewrite from_utf8_char, IH.
Qed.

(** The encoding of another character has no byte of an ASCII character. *)
Lemma encode_absent a c : a < 128 -> c <> a -> a ∉ encode_char c.
Proof.
  intros Ha Hn. unfold encode_char. destruct (Z.ltb_spec c 128); [by rewrite list_elem_of_singleton|].
  pose proof (Z.mod_pos_bound c 64 eq_refl). pose proof (Z.mod_pos_bound (c / 64) 64 eq_refl). pose proof (Z.mod_pos_bound (c / 4096) 64 eq_refl).
  assert (0 <= c / 64 /\ 0 <= c / 4096 /\ 0 <= c / 262144) by (repeat split; apply Z.div_pos; lia).
  destruct (c <? 2048), (c <? 65536); rewrite !not_elem_of_cons; repeat split; try lia; apply not_elem_of_nil.
Qed.
Lemma bytes_absent a s : a < 128 -> a ∉ s -> a ∉ as_bytes s.
Proof.
  intros Ha. induction s as [|c s IH]; intros Hn; [done|]. apply not_elem_of_cons in Hn as [Hne Hn]. unfold as_bytes in *. cbn [flat_map].
  rewrite elem_of_app. intros [H|H]; [by eapply encode_absent in H | by apply IH].
Qed.
Lemma bytes_newline s : c_newline ∉ s -> c_newline ∉ as_bytes s.
Proof. by apply bytes_absent. Qed.

Lemma as_bytes_app s u : as_bytes (s ++ u) = as_bytes s ++ as_bytes u.
Proof. apply flat_map_app. Qed.

(** Valid bytes decode to the same text either way. *)
Lemma from_utf8_lossy_valid bytes t : from_utf8 bytes = Some t -> from_utf8_lossy bytes = t.
Proof.
  revert t. induction bytes as [bytes IH] using (induction_ltof1 _ (@length Z)). unfold ltof in IH.
  intros t H. destruct bytes as [|a s1]; [by injection H|]. cbn [from_utf8] in H. cbn [from_utf8_lossy].
  assert (Hrec : forall s c t, (length s < S (length s1))%nat -> cons c <$> from_utf8 s = Some t -> c :: from_utf8_lossy s = t).
  { intros s c u Hs Hu. destruct (from_utf8 s) eqn:E; [|done]. injection Hu as <-. f_equal. by apply IH. }
  repeat match goal with
  | H : (if ?b then _ else _) = Some _ |- _ => destruct b eqn:?
  | H : (match ?s with [] => _ | _ => _ end) = Some _ |- _ => destruct s as [|? ?]
  end; try done;
  repeat match goal with H : _ && _ = true |- _ => apply andb_true_iff in H as [? ?] end;
  repeat match goal with
  | H : in_range ?a ?b ?c = _ |- context [in_range ?a ?b ?c] => rewrite H
  | H : cont ?c = _ |- context [cont ?c] => rewrite H
  end;
  try (apply Hrec; [simpl; lia | done]).
Qed.
