(* ===== verification/Effects.v ===== *)
(** Effectful code: a world, the ordered trace of what was done to it, and a
    typed error.  [serde_json] values and the audit log ([common/audit.rs])
    that most components write to are here too. *)

From S2P Require Import Prelude Text.

(** ** [serde_json::Value] *)

Inductive json :=
| JNull
| JBool (b : bool)
| JInt (n : Z)
| JFloat (repr : text)
| JStr (s : text)
| JArr (l : list json)
| JObj (fields : list (text * json)).

#[export] Instance json_eq_dec : EqDecision json.
Proof.
  refine (fix go (a b : json) : {a = b} + {a <> b} :=
    match a, b with
    | JNull, JNull => left eq_refl
    | JBool x, JBool y => cast_if (decide (x = y))
    | JInt x, JInt y => cast_if (decide (x = y))
    | JFloat x, JFloat y => cast_if (decide (x = y))
    | JStr x, JStr y => cast_if (decide (x = y))
    | JArr x, JArr y => cast_if (@list_eq_dec json go x y)
    | JObj x, JObj y => cast_if (@list_eq_dec (text * json) (@prod_eq_dec _ _ _ go) x y)
    | _, _ => right _
    end); clear go; congruence.
Defined.

Fixpoint field (key : text) (fields : list (text * json)) : option json :=
  match fields with
  | [] => None
  | (k, v) :: rest => if teqb k key then Some v else field key rest
  end.

(** [insert] of an object's map *)
Fixpoint set_field (key : text) (v : json) (fields : list (text * json)) : list (text * json) :=
  match fields with
  | [] => [(key, v)]
  | (k, x) :: fields => if teqb k key then (k, v) :: fields else (k, x) :: set_field key v fields
  end.

(** [Value::get] with a string index *)
Definition get (j : json) (key : text) : option json :=
  match j with JObj fields => field key fields | _ => None end.

(** [value[key]]: [Null] when absent. *)
Definition index (j : json) (key : text) : json := from_option id JNull (get j key).

Definition as_str (j : json) : option text := match j with JStr s => Some s | _ => None end.
Definition as_array (j : json) : option (list json) := match j with JArr l => Some l | _ => None end.
Definition as_i64 (j : json) : option Z :=
  match j with
  | JInt n => if ((- 2 ^ 63 <=? n) && (n <? 2 ^ 63))%Z then Some n else None
  | _ => None
  end.
Definition as_u64 (j : json) : option Z :=
  match j with JInt n => if ((0 <=? n) && (n <? 2 ^ 64))%Z then Some n else None | _ => None end.
Definition as_bool (j : json) : option bool := match j with JBool b => Some b | _ => None end.
Definition is_null (j : json) : bool := match j with JNull => true | _ => false end.

Definition show_Z (n : Z) : text := if (n <? 0)%Z then c_dash :: show_nat (- n) else show_nat n.

Lemma field_set_field key k v l : field k (set_field key v l) = if teqb key k then Some v else field k l.
Proof.
  induction l as [|[k' x] l IH]; cbn [set_field field]; [by destruct (teqb key k)|].
  destruct (teqb k' key) eqn:E; cbn [field]; [apply teqb_eq in E as ->; by destruct (teqb key k)|]. rewrite IH.
  destruct (teqb k' k) eqn:E1; [|done]. apply teqb_eq in E1 as ->. destruct (teqb key k) eqn:E2; [|done].
  apply teqb_eq in E2 as ->. by rewrite teqb_refl in E.
Qed.

(** ** The trace *)

(** A line of the audit log: the value of its [event] key and the rest. *)
Record audit_event := Event { event : string; fields : list (string * json) }.

Inductive effect (F : Type) :=
| Audited (e : audit_event)
| Did (f : F).
Arguments Audited {F} _.
Arguments Did {F} _.

(** What happened to the world, oldest first. *)
Record st (W F : Type) := St { world : W; trace : list (effect F) }.
Arguments St {W F} _ _.
Arguments world {W F} _.
Arguments trace {W F} _.

Definition eff (W F E A : Type) : Type := st W F -> st W F * result E A.

#[export] Instance eff_ret {W F E} : MRet (eff W F E) := fun A a s => (s, Ok a).
#[export] Instance eff_bind {W F E} : MBind (eff W F E) :=
  fun A B f m s => match m s with (s', Ok a) => f a s' | (s', Err e) => (s', Err e) end.

Section Operations.
Context {W F E : Type}.

Definition fail {A} (e : E) : eff W F E A := fun s => (s, Err e).
Definition lift {A} (r : result E A) : eff W F E A := fun s => (s, r).
Definition log (e : audit_event) : eff W F E unit :=
  fun s => (St (world s) (trace s ++ [Audited e]), Ok tt).
(** Read the world. *)
Definition asks {A} (f : W -> A) : eff W F E A := fun s => (s, Ok (f (world s))).
(** Change the world without an effect outside. *)
Definition update (f : W -> W) : eff W F E unit := fun s => (St (f (world s)) (trace s), Ok tt).
(** Call something outside: it is recorded, then it changes the world and answers. *)
Definition call {A} (f : F) (op : W -> W * result E A) : eff W F E A :=
  fun s => let '(w, r) := op (world s) in (St w (trace s ++ [Did f]), r).
(** Run [m] and hand its error on as a value. *)
Definition catch {A} (m : eff W F E A) : eff W F E (result E A) :=
  fun s => let '(s', r) := m s in (s', Ok r).
End Operations.

(** ** Reasoning *)

Section Laws.
Context {W F E : Type}.

Lemma eff_bind_inv {A B} (m : eff W F E A) (f : A -> eff W F E B) s s' r :
  (m ≫= f) s = (s', r) ->
  (exists e, m s = (s', Err e) /\ r = Err e) \/ (exists a s1, m s = (s1, Ok a) /\ f a s1 = (s', r)).
Proof.
  unfold mbind, eff_bind. destruct (m s) as [s1 [a|e]]; intros H; [right; eauto | left].
  simplify_eq. eauto.
Qed.

Definition only_audits (l : list (effect F)) : Prop :=
  Forall (fun e => match e with Audited _ => True | Did _ => False end) l.

(** [m] writes at most audit lines and does not touch the world. *)
Definition quiet {A} (m : eff W F E A) : Prop :=
  forall s, world (fst (m s)) = world s
            /\ exists l, trace (fst (m s)) = trace s ++ l /\ only_audits l.

Lemma quiet_refl {A} (m : eff W F E A) : (forall s, fst (m s) = s) -> quiet m.
Proof. intros H s. rewrite H. split; [done|]. exists []. rewrite app_nil_r. split; [done | constructor]. Qed.

Lemma quiet_ret {A} (a : A) : quiet (mret a : eff W F E A).
Proof. by apply quiet_refl. Qed.
Lemma quiet_fail {A} (e : E) : quiet (fail e : eff W F E A).
Proof. by apply quiet_refl. Qed.
Lemma quiet_lift {A} (r : result E A) : quiet (lift r : eff W F E A).
Proof. by apply quiet_refl. Qed.
Lemma quiet_asks {A} (f : W -> A) : quiet (asks f : eff W F E A).
Proof. by apply quiet_refl. Qed.
Lemma quiet_log (e : audit_event) : quiet (log e : eff W F E unit).
Proof.
  intros s. split; [done|]. exists [Audited e]. split; [done | by repeat constructor].
Qed.

Lemma quiet_bind {A B} (m : eff W F E A) (f : A -> eff W F E B) :
  quiet m -> (forall a, quiet (f a)) -> quiet (m ≫= f).
Proof.
  intros Hm Hf s. unfold mbind, eff_bind. specialize (Hm s).
  destruct (m s) as [s1 [a|e]]; [|done]. simpl in Hm. destruct Hm as (Hw & l & Hl & Ha).
  destruct (Hf a s1) as (Hw' & l' & Hl' & Ha'). split; [congruence|].
  exists (l ++ l'). rewrite Hl', Hl, app_assoc. split; [done | by apply Forall_app].
Qed.

Lemma quiet_result {A} (m : eff W F E A) s s' r :
  quiet m -> m s = (s', r) -> world s' = world s /\ exists l, trace s' = trace s ++ l /\ only_audits l.
Proof. intros H Hr. specialize (H s). by rewrite Hr in H. Qed.

Lemma only_audits_no_did l f : only_audits l -> Did f ∉ l.
Proof. unfold only_audits. rewrite Forall_forall. intros H Hf. exact (H _ Hf). Qed.

Lemma only_audits_app l l' : only_audits (l ++ l') <-> only_audits l /\ only_audits l'.
Proof. apply Forall_app. Qed.
End Laws.

(** ** What a computation may do *)

Section Emits.
Context {W F E : Type}.

(** Every event that [m] adds to the trace satisfies [P]. *)
Definition emits {A} (P : effect F -> Prop) (m : eff W F E A) : Prop :=
  forall s, exists l, trace (fst (m s)) = trace s ++ l /\ Forall P l.

(** [m] adds at most [n] events of the kind [k]. *)
Definition at_most {A} (k : effect F -> bool) (n : nat) (m : eff W F E A) : Prop :=
  forall s, exists l, trace (fst (m s)) = trace s ++ l /\ (length (List.filter k l) <= n)%nat.

Lemma emits_quiet {A} P (m : eff W F E A) : (forall e, P (Audited e)) -> quiet m -> emits P m.
Proof.
  intros HP Hm s. destruct (Hm s) as (_ & l & Hl & Ha). exists l. split; [done|].
  eapply Forall_impl; [exact Ha|]. by intros [e|f].
Qed.

Lemma emits_bind {A B} P (m : eff W F E A) (f : A -> eff W F E B) :
  emits P m -> (forall a, emits P (f a)) -> emits P (m ≫= f).
Proof.
  intros Hm Hf s. unfold mbind, eff_bind. specialize (Hm s).
  destruct (m s) as [s1 [a|e]]; [|done]. destruct Hm as (l & Hl & Ha).
  destruct (Hf a s1) as (l' & Hl' & Ha'). exists (l ++ l'). simpl in Hl. rewrite Hl', Hl, app_assoc.
  split; [done | by apply Forall_app].
Qed.

Lemma emits_call {A} (P : effect F -> Prop) f (op : W -> W * result E A) : P (Did f) -> emits P (call f op).
Proof.
  intros HP s. unfold call. destruct (op (world s)) as [w r]. exists [Did f]. by repeat constructor.
Qed.

Lemma emits_catch {A} P (m : eff W F E A) : emits P m -> emits P (catch m : eff W F E (result E A)).
Proof. intros Hm s. unfold catch. specialize (Hm s). by destruct (m s) as [s1 r]. Qed.

Lemma emits_update P f : emits P (update f : eff W F E unit).
Proof. intros s. exists []. rewrite app_nil_r. split; [done | constructor]. Qed.

Lemma emits_result {A} P (m : eff W F E A) s s' r :
  emits P m -> m s = (s', r) -> exists l, trace s' = trace s ++ l /\ Forall P l.
Proof. intros H Hr. specialize (H s). by rewrite Hr in H. Qed.

Lemma at_most_quiet {A} k n (m : eff W F E A) : (forall e, k (Audited e) = false) -> quiet m -> at_most k n m.
Proof.
  intros Hk Hm s. destruct (Hm s) as (_ & l & Hl & Ha). exists l. split; [done|].
  clear Hl. induction Ha as [|[e|f] l He Ha IH]; simpl; [lia | by rewrite Hk | done].
Qed.

Lemma at_most_bind {A B} k n n' (m : eff W F E A) (f : A -> eff W F E B) :
  at_most k n m -> (forall a, at_most k n' (f a)) -> at_most k (n + n') (m ≫= f).
Proof.
  intros Hm Hf s. unfold mbind, eff_bind. specialize (Hm s).
  destruct (m s) as [s1 [a|e]]; destruct Hm as (l & Hl & Ha); simpl in Hl; [|exists l; split; [done|lia]].
  destruct (Hf a s1) as (l' & Hl' & Ha'). exists (l ++ l'). rewrite Hl', Hl, app_assoc.
  rewrite List.filter_app, length_app. split; [done | lia].
Qed.

Lemma at_most_le {A} k n n' (m : eff W F E A) : (n <= n')%nat -> at_most k n m -> at_most k n' m.
Proof. intros Hn Hm s. destruct (Hm s) as (l & Hl & Ha). exists l. split; [done|lia]. Qed.

Lemma at_most_emits {A} k (m : eff W F E A) : emits (fun e => k e = false) m -> at_most k 0 m.
Proof.
  intros Hm s. destruct (Hm s) as (l & Hl & Ha). exists l. split; [done|].
  clear Hl. induction Ha as [|e l He Ha IH]; simpl; [lia | by rewrite He].
Qed.

Lemma at_most_call {A} k f (op : W -> W * result E A) : at_most k 1 (call f op).
Proof.
  intros s. unfold call. destruct (op (world s)) as [w r]. exists [Did f]. split; [done|].
  simpl. destruct (k (Did f)); simpl; lia.
Qed.
End Emits.

(** ** What a computation leaves alone *)

Section Keeps.
Context {W F E B : Type} (f : W -> B).

(** [m] does not change this part of the world. *)
Definition keeps {A} (m : eff W F E A) : Prop := forall s, f (world (fst (m s))) = f (world s).

Lemma keeps_quiet {A} (m : eff W F E A) : quiet m -> keeps m.
Proof. intros H s. by destruct (H s) as [-> _]. Qed.

Lemma keeps_bind {A C} (m : eff W F E A) (g : A -> eff W F E C) : keeps m -> (forall a, keeps (g a)) -> keeps (m ≫= g).
Proof.
  intros Hm Hg s. unfold mbind, eff_bind. specialize (Hm s). destruct (m s) as [s1 [a|e]]; [|done].
  simpl in Hm. by rewrite Hg.
Qed.

Lemma keeps_call {A} a (op : W -> W * result E A) : (forall w, f (fst (op w)) = f w) -> keeps (call a op).
Proof. intros H s. unfold call. specialize (H (world s)). by destruct (op (world s)). Qed.

Lemma keeps_update (g : W -> W) : (forall w, f (g w) = f w) -> keeps (update g).
Proof. intros H s. apply H. Qed.

Lemma keeps_catch {A} (m : eff W F E A) : keeps m -> keeps (catch m : eff W F E (result E A)).
Proof. intros H s. unfold catch. specialize (H s). by destruct (m s). Qed.

Lemma keeps_result {A} (m : eff W F E A) s s' r : keeps m -> m s = (s', r) -> f (world s') = f (world s).
Proof. intros H Hr. specialize (H s). by rewrite Hr in H. Qed.
End Keeps.

(** ** How the world and the trace move together *)

(** A relation between the events that were added and the worlds before and
    after them, closed under silence and composition. *)
Class Composes {W F} (R : list (effect F) -> W -> W -> Prop) : Prop := {
  composes_quiet l w : only_audits l -> R l w w;
  composes_app l1 l2 w1 w2 w3 : R l1 w1 w2 -> R l2 w2 w3 -> R (l1 ++ l2) w1 w3;
}.

Section Tracks.
Context {W F E : Type} (R : list (effect F) -> W -> W -> Prop) `{!Composes R}.

Definition tracks {A} (m : eff W F E A) : Prop :=
  forall s, exists l, trace (fst (m s)) = trace s ++ l /\ R l (world s) (world (fst (m s))).

Lemma tracks_quiet {A} (m : eff W F E A) : quiet m -> tracks m.
Proof. intros H s. destruct (H s) as (-> & l & Hl & Ha). exists l. split; [done | by apply composes_quiet]. Qed.

Lemma tracks_bind {A B} (m : eff W F E A) (f : A -> eff W F E B) : tracks m -> (forall a, tracks (f a)) -> tracks (m ≫= f).
Proof.
  intros Hm Hf s. unfold mbind, eff_bind. specialize (Hm s). destruct (m s) as [s1 [a|e]]; [|exact Hm].
  destruct Hm as (l & Hl & Hr), (Hf a s1) as (l' & Hl' & Hr'). exists (l ++ l'). simpl in Hl, Hr.
  rewrite Hl', Hl, app_assoc. split; [done | by eapply composes_app].
Qed.

Lemma tracks_call {A} f (op : W -> W * result E A) : (forall w, R [Did f] w (fst (op w))) -> tracks (call f op).
Proof. intros H s. unfold call. specialize (H (world s)). destruct (op (world s)) as [w r]. by exists [Did f]. Qed.

Lemma tracks_silent {A} (m : eff W F E A) (op : W -> W) :
  (forall s, fst (m s) = St (op (world s)) (trace s)) -> (forall w, R [] w (op w)) -> tracks m.
Proof. intros Hm H s. exists []. rewrite Hm, app_nil_r. by split. Qed.

Lemma tracks_catch {A} (m : eff W F E A) : tracks m -> tracks (catch m : eff W F E (result E A)).
Proof. intros Hm s. unfold catch. specialize (Hm s). by destruct (m s) as [s1 r]. Qed.

Lemma tracks_result {A} (m : eff W F E A) s s' r :
  tracks m -> m s = (s', r) -> exists l, trace s' = trace s ++ l /\ R l (world s) (world s').
Proof. intros H Hr. specialize (H s). by rewrite Hr in H. Qed.
End Tracks.

#[export] Hint Resolve quiet_ret quiet_fail quiet_lift quiet_asks quiet_log : harness.

(** Prove [quiet] by following the code. *)
Ltac quiet_step :=
  match goal with
  | |- quiet (_ ≫= _) => apply quiet_bind; [|intro]
  | |- quiet (match ?x with _ => _ end) => destruct x
  | |- quiet _ => solve [auto with harness]
  end.
Ltac quiet := repeat quiet_step.

(** Take one effectful step of [H : (m ≫= f) s = (s', r)] apart: it failed,
    or it answered and the rest ran. *)
Ltac eff_step H :=
  let a := fresh "a" in let s := fresh "s" in let e := fresh "e" in
  let H1 := fresh "H" in
  apply eff_bind_inv in H as [(e & H1 & H) | (a & s & H1 & H)]; [try discriminate H; try subst|].

(** Prove [emits] by following the code; the audit lines need [P] for all. *)
Ltac emits_step :=
  match goal with
  | |- emits _ (_ ≫= _) => apply emits_bind; [|intro]
  | |- emits _ (match ?x with _ => _ end) => destruct x eqn:?
  | |- emits _ (call _ _) => apply emits_call
  | |- emits _ (catch _) => apply emits_catch
  | |- emits _ (update _) => apply emits_update
  | |- emits _ _ => solve [apply emits_quiet; [done | auto with harness]]
  end.
Ltac emits := repeat emits_step.

(** Prove [keeps] by following the code; what is left are the calls. *)
Ltac keeps_step :=
  match goal with
  | |- keeps _ (_ ≫= _) => apply keeps_bind; [|intro]
  | |- keeps _ (match ?x with _ => _ end) => destruct x
  | |- keeps _ (call _ _) => apply keeps_call
  | |- keeps _ (update _) => apply keeps_update
  | |- keeps _ (catch _) => apply keeps_catch
  | |- keeps _ _ => solve [eauto with harness]
  | |- keeps _ _ => solve [apply keeps_quiet; auto with harness]
  end.
Ltac keeps := repeat keeps_step.

(** Prove [tracks] by following the code; what is left are the calls. *)
Ltac tracks_step :=
  match goal with
  | |- tracks _ (_ ≫= _) => apply tracks_bind; [done || exact _ | |intro]
  | |- tracks _ (match ?x with _ => _ end) => destruct x
  | |- tracks _ (call _ _) => apply tracks_call
  | |- tracks _ (catch _) => apply tracks_catch
  | |- tracks _ _ => solve [eauto with harness]
  | |- tracks _ _ => solve [apply tracks_quiet; [exact _ | auto with harness]]
  end.
Ltac tracks := repeat tracks_step.
