(* ===== verification/Owners.v ===== *)
(** Identifiers and account names: [is_lower_hex] of [common/mod.rs] and
    [valid_owner] of [server/structured_memory.rs]. *)

From S2P Require Import Prelude Text.
Local Open Scope Z_scope.

Definition is_lower_hex_char (c : char) : bool := is_ascii_digit c || in_range 97 102 c.
Definition is_hex_char (c : char) : bool := is_lower_hex_char c || in_range 65 70 c.
Definition is_lower_hex (value : text) (len : Z) : bool :=
  (byte_len value =? len) && forallb is_lower_hex_char value.

Definition labeled_owner (o : text) : bool :=
  match strip_prefix (T "user_") o with
  | Some rest =>
      (1 <=? byte_len rest) && (byte_len rest <=? 32)
      && forallb (fun c => is_ascii_lower c || is_ascii_digit c || (c =? 95) || (c =? c_dash)) rest
  | None => false
  end.
Definition valid_owner (o : text) : bool :=
  teqb o (T "local") || ((byte_len o =? 32) && forallb is_hex_char o) || labeled_owner o.
