(* ===== verification/RepoPaths.v ===== *)
(** Path safety of the clone jail: [common/repo_paths.rs], the
    name-equivalence folds of [agentic/workspace.rs], the lexical
    normalisation of [agentic/config.rs] and [validate_write_path], the check
    every proposed write passes before a byte is staged. *)

From S2P Require Import Prelude Text.
Local Open Scope Z_scope.

(** ** [canonical_repo_relative_path] *)

(** [target.replace('\\', "/")] *)
Definition normalize_slashes (s : text) : text :=
  map (fun c => if c =? c_backslash then c_slash else c) s.

Definition is_windows_absolute (target : text) : bool :=
  match target with
  | a :: b :: c :: _ =>
      is_ascii_alphabetic a && (b =? c_colon) && ((c =? c_backslash) || (c =? c_slash))
  | _ => false
  end
  || starts_with [c_backslash; c_backslash] target
  || starts_with [c_slash; c_slash] target.

Definition space_or_dot (c : char) : bool := (c =? c_space) || (c =? c_dot).

(** A segment the loop of [canonical_repo_relative_path] lets through. *)
Definition segment_ok (part : text) : bool :=
  negb (teqb part (T "..")) && negb (bool_decide (c_colon ∈ part))
  && teqb (trim_end space_or_dot part) part.

Definition kept_segment (p : text) : bool := negb (teqb p []) && negb (teqb p (T ".")).

Definition path_parts (normalized : text) : list text :=
  List.filter kept_segment (split_on c_slash normalized).

Definition canonical_repo_relative_path (target : text) : option text :=
  if teqb target [] || bool_decide (0 ∈ target) then None
  else
    let normalized := normalize_slashes target in
    if starts_with [c_slash] normalized || starts_with [c_dash] normalized
       || is_windows_absolute target then None
    else
      let parts := path_parts normalized in
      if bool_decide (parts = []) then None
      else if forallb segment_ok parts then Some (join [c_slash] parts) else None.


(** ** [.git] name equivalence and the protected-path fold

    [lower] is [str::to_lowercase] and [nfkc] the normalisation of the crate
    [unicode-normalization]; both are parameters. *)

(** [common::is_format_control] *)
Definition is_format_control (c : char) : bool :=
  (c =? 0xAD) || (c =? 0x34F) || in_range 0x600 0x605 c || (c =? 0x61C) || (c =? 0x6DD)
  || (c =? 0x70F) || in_range 0x890 0x891 c || (c =? 0x8E2) || in_range 0x115F 0x1160 c
  || in_range 0x17B4 0x17B5 c || in_range 0x180B 0x180F c || in_range 0x200B 0x200F c
  || in_range 0x202A 0x202E c || in_range 0x2060 0x206F c || (c =? 0x3164)
  || in_range 0xFE00 0xFE0F c || (c =? 0xFEFF) || (c =? 0xFFA0) || in_range 0xFFF0 0xFFFB c
  || (c =? 0x110BD) || (c =? 0x110CD) || in_range 0x13430 0x1343F c
  || in_range 0x1BCA0 0x1BCA3 c || in_range 0x1D173 0x1D17A c || in_range 0xE0000 0xE0FFF c.

(** [common::is_visibly_blank] *)
Definition is_visibly_blank (s : text) : bool :=
  forallb (fun c => is_whitespace c || is_format_control c) s.

Definition strip_format_controls (s : text) : text :=
  List.filter (fun c => negb (is_format_control c)) s.

(** The regular expression [(?i)\A\.?git~[0-9]+\z] of [is_dotgit_name]: an
    optional dot, [git~] in any ASCII case, at least one ASCII digit. *)
Definition git_tilde_digits (s : text) : bool :=
  let s := match s with c :: s' => if c =? c_dot then s' else s | [] => s end in
  starts_with (T "git~") (map to_ascii_lower s)
  && negb (teqb (drop 4 s) []) && forallb is_ascii_digit (drop 4 s).

Section NameEquivalence.
Context (lower nfkc : text -> text).

Definition is_dotgit_name (part : text) : bool :=
  let folded := lower (strip_format_controls (trim_end space_or_dot part)) in
  teqb folded (T ".git") || git_tilde_digits folded.

Definition fs_equiv_segment (part : text) : text :=
  lower (nfkc (strip_format_controls (trim_end space_or_dot part))).

Definition fs_equiv_path (path : text) : text :=
  join [c_slash] (map fs_equiv_segment (path_parts (normalize_slashes path))).
End NameEquivalence.

(** ** Absolute paths, links and the write check

    A [Path] is the list of its components after the root.  [canonicalize]
    ([dunce::canonicalize]) and [read_link] ask the operating system, so they
    are parameters. *)

Inductive component := Normal (name : text) | ParentDir | CurDir.
#[export] Instance component_eq_dec : EqDecision component.
Proof. solve_decision. Defined.

Record link_target := { link_absolute : bool; link_components : list component }.

(** [PathBuf::pop] *)
Definition path_pop (out : list component) : option (list component) :=
  match rev out with [] => None | _ :: r => Some (rev r) end.

(** [agentic::config::lexical_normalize], on the components after the root. *)
Fixpoint lexical_from (out path : list component) : list component :=
  match path with
  | [] => out
  | CurDir :: path' => lexical_from out path'
  | ParentDir :: path' =>
      match path_pop out with
      | Some out' => lexical_from out' path'
      | None => lexical_from (out ++ [ParentDir]) path'
      end
  | Normal n :: path' => lexical_from (out ++ [Normal n]) path'
  end.
Definition lexical_normalize (path : list component) : list component := lexical_from [] path.

(** [Path::starts_with], [Path::strip_prefix], component-wise. *)
Fixpoint strip_path_prefix (base path : list component) : option (list component) :=
  match base, path with
  | [], _ => Some path
  | b :: base', p :: path' => if decide (b = p) then strip_path_prefix base' path' else None
  | _ :: _, [] => None
  end.
Definition path_starts_with (path base : list component) : bool :=
  match strip_path_prefix base path with Some _ => true | None => false end.

Definition component_text (c : component) : text :=
  match c with Normal n => n | ParentDir => T ".." | CurDir => T "." end.

Section WritePath.
Context (lower : text -> text).
Context (canonicalize : list component -> option (list component)).
Context (read_link : list component -> option link_target).

(** The loop that walks up to the nearest existing ancestor; [up] is the
    ancestor's components, last first, [tail] the names already left. *)
Fixpoint nearest_ancestor (up tail : list component) : option (list component) :=
  match canonicalize (rev up) with
  | Some r => Some (r ++ tail)
  | None => match up with
            | [] => None
            | name :: up' => nearest_ancestor up' (name :: tail)
            end
  end.

(** Where a write to [candidate] lands when the leaf may not exist yet. *)
Definition resolve_new (candidate : list component) : option (list component) :=
  match canonicalize candidate with
  | Some r => Some r
  | None =>
      match read_link candidate with
      | Some link =>
          let base := rev (tail (rev candidate)) in
          Some (lexical_normalize
                  (if link_absolute link then link_components link
                   else base ++ link_components link))
      | None => nearest_ancestor (rev candidate) []
      end
  end.

Inductive path_denial :=
| DenyNotString | DenyUnsafe | DenyDotGit | DenyMissing | DenyEscaped.

(** [RepoWorkspace::validate_write_path]; [dest] is the clone's directory
    as [dest_resolved] has it. *)
Definition validate_write_path (dest : list component) (target : text) (must_exist : bool)
  : result path_denial text :=
  if teqb target [] || bool_decide (0 ∈ target) then Err DenyNotString else
  match canonical_repo_relative_path target with
  | None => Err DenyUnsafe
  | Some canonical =>
      let parts := split_on c_slash canonical in
      if existsb (is_dotgit_name lower) parts then Err DenyDotGit else
      let candidate := dest ++ map Normal parts in
      let resolved :=
        if must_exist then ok_or (canonicalize candidate) DenyMissing
        else ok_or (resolve_new candidate) DenyEscaped in
      resolved ≫= fun resolved =>
      match strip_path_prefix dest resolved with
      | None => Err DenyEscaped
      | Some landed =>
          let git_dir := default (dest ++ [Normal (T ".git")])
                                 (canonicalize (dest ++ [Normal (T ".git")])) in
          if path_starts_with resolved git_dir then Err DenyDotGit
          else Ok (if bool_decide (landed = []) then canonical
                   else join [c_slash] (map component_text landed))
      end
  end.
End WritePath.

(** ** Lemmas *)

(** What a segment of a repo-relative path the jail hands on looks like. *)
Record safe_segment (w : text) : Prop := {
  ss_nonempty : w <> [];
  ss_not_dot : w <> T ".";
  ss_not_dotdot : w <> T "..";
  ss_no_slash : c_slash ∉ w;
  ss_no_backslash : c_backslash ∉ w;
  ss_no_colon : c_colon ∉ w;
  ss_no_nul : 0 ∉ w;
  ss_no_trailing : trim_end space_or_dot w = w;
}.

Lemma normalize_slashes_no_backslash s : c_backslash ∉ normalize_slashes s.
Proof.
  unfold normalize_slashes. intros H. apply list_elem_of_In, in_map_iff in H as (c & Hc & _).
  revert Hc. unfold c_backslash, c_slash. case_match; guards; lia.
Qed.

Lemma normalize_slashes_zero s : 0 ∈ normalize_slashes s -> 0 ∈ s.
Proof.
  unfold normalize_slashes. intros H. apply list_elem_of_In, in_map_iff in H as (c & Hc & Hin).
  apply list_elem_of_In. revert Hc. unfold c_slash. case_match; guards; [lia | by intros ->].
Qed.

Lemma normalize_slashes_id s : c_backslash ∉ s -> normalize_slashes s = s.
Proof.
  induction s as [|c s IH]; [done|]. intros H. apply not_elem_of_cons in H as [Hc H].
  simpl. rewrite IH by done. destruct (Z.eqb_spec c c_backslash); [congruence | done].
Qed.

Lemma split_on_chars c s w x : w ∈ split_on c s -> x ∈ w -> x ∈ s.
Proof.
  revert w. induction s as [|y s IH]; simpl; intros w Hw Hx.
  - apply list_elem_of_singleton in Hw as ->. done.
  - destruct (y =? c) eqn:E.
    + apply elem_of_cons in Hw as [->|Hw]; [by apply not_elem_of_nil in Hx|].
      right. eauto.
    + destruct (split_on c s) as [|w0 ws] eqn:Es; [by destruct (split_on_not_nil c s)|].
      apply elem_of_cons in Hw as [->|Hw].
      * apply elem_of_cons in Hx as [->|Hx]; [left|]. right. apply (IH w0); [left | done].
      * right. apply (IH w); [by right | done].
Qed.

Lemma segment_ok_spec w :
  segment_ok w = true <->
  w <> T ".." /\ (c_colon ∉ w) /\ trim_end space_or_dot w = w.
Proof.
  unfold segment_ok, teqb. rewrite !andb_true_iff, !negb_true_iff, !bool_decide_eq_false,
    bool_decide_eq_true. tauto.
Qed.

Lemma kept_segment_spec w : kept_segment w = true <-> w <> [] /\ w <> T ".".
Proof.
  unfold kept_segment, teqb. rewrite andb_true_iff, !negb_true_iff, !bool_decide_eq_false. done.
Qed.

Lemma path_parts_elem s w :
  w ∈ path_parts (normalize_slashes s) ->
  w <> [] /\ w <> T "." /\ (c_slash ∉ w) /\ (c_backslash ∉ w) /\ (0 ∉ s -> 0 ∉ w).
Proof.
  unfold path_parts. rewrite list_elem_of_In, filter_In, <- list_elem_of_In, kept_segment_spec.
  intros [Hin [Hne Hdot]]. repeat split; try done.
  - pose proof (split_on_no_sep c_slash (normalize_slashes s)) as H.
    rewrite Forall_forall in H. by apply H.
  - intros Hb. apply (normalize_slashes_no_backslash s). by eapply split_on_chars.
  - intros H0 Hw. apply H0, normalize_slashes_zero. by eapply split_on_chars.
Qed.

Lemma canonical_segments p q :
  canonical_repo_relative_path p = Some q ->
  exists ws, q = join [c_slash] ws /\ ws <> [] /\ Forall safe_segment ws
             /\ ws = path_parts (normalize_slashes p).
Proof.
  unfold canonical_repo_relative_path. intros H.
  destruct (teqb p [] || _) eqn:E0 in H; [done|].
  destruct (starts_with [c_slash] _ || _ || _) in H; [done|].
  destruct (bool_decide (path_parts _ = [])) eqn:Ep in H; [done|].
  destruct (forallb segment_ok _) eqn:Ef in H; [|done].
  injection H as <-. guards. eexists. split; [done|]. split; [done|]. split; [|done].
  apply Forall_forall. intros w Hw.
  pose proof (path_parts_elem _ _ Hw) as (? & ? & ? & ? & ?).
  rewrite forallb_forall in Ef. apply list_elem_of_In, Ef, segment_ok_spec in Hw as (? & ? & ?).
  constructor; auto.
Qed.

Lemma path_parts_join ws :
  ws <> [] -> Forall safe_segment ws -> path_parts (join [c_slash] ws) = ws.
Proof.
  intros Hne Hs. unfold path_parts. rewrite split_on_join; [|done|].
  - clear Hne. induction Hs as [|w ws Hw _ IH]; [done|]. simpl.
    replace (kept_segment w) with true; [by rewrite IH|].
    symmetry. apply kept_segment_spec. split; apply Hw.
  - eapply Forall_impl; [exact Hs|]. intros w Hw. apply Hw.
Qed.

Lemma join_elem c (ws : list text) x :
  x ∈ join [c] ws -> x = c \/ exists w, w ∈ ws /\ x ∈ w.
Proof.
  induction ws as [|w ws IH]; simpl; intros H; [by apply not_elem_of_nil in H|].
  destruct ws as [|w' ws].
  - right. exists w. split; [left | done].
  - apply elem_of_app in H as [H|H]; [right; exists w; split; [left|done]|].
    simpl in H. apply elem_of_cons in H as [->|H]; [by left|].
    destruct (IH H) as [->|(v & Hv & Hx)]; [by left|]. right. exists v. split; [by right|done].
Qed.

Lemma join_safe_no ws x :
  Forall safe_segment ws -> x <> c_slash -> (forall w, safe_segment w -> x ∉ w) ->
  x ∉ join [c_slash] ws.
Proof.
  intros Hs Hx Hw Hin. apply join_elem in Hin as [->|(w & Hin & Hxw)]; [done|].
  rewrite Forall_forall in Hs. by apply (Hw w); [apply Hs|].
Qed.

Lemma join_safe_head ws :
  ws <> [] -> Forall safe_segment ws ->
  exists c rest, join [c_slash] ws = c :: rest /\ c <> c_slash.
Proof.
  intros Hne Hs. destruct ws as [|w ws]; [done|]. inversion Hs as [|? ? Hw _]; subst.
  destruct w as [|c w]; [by destruct (ss_nonempty _ Hw)|].
  assert (c <> c_slash) by (intros ->; destruct (ss_no_slash _ Hw); left).
  destruct ws; simpl; eauto.
Qed.

Lemma no_colon_not_windows q :
  c_colon ∉ q -> c_backslash ∉ q -> starts_with [c_slash] q = false -> is_windows_absolute q = false.
Proof.
  intros Hc Hb Hs. unfold is_windows_absolute. rewrite !orb_false_iff. repeat split.
  - destruct q as [|a [|b [|d r]]]; try done. rewrite !not_elem_of_cons in Hc.
    destruct (Z.eqb_spec b c_colon) as [->|]; [by destruct Hc as (_ & [] & _) | by rewrite andb_false_r].
  - destruct q as [|a r]; [done|]. rewrite not_elem_of_cons in Hb.
    cbn [starts_with]. destruct (Z.eqb_spec c_backslash a); [by destruct Hb as [[] _] | done].
  - destruct q as [|a r]; [done|]. cbn [starts_with] in *. by destruct (c_slash =? a).
Qed.

Lemma canonical_join ws :
  ws <> [] -> Forall safe_segment ws ->
  canonical_repo_relative_path (join [c_slash] ws)
  = if starts_with [c_dash] (join [c_slash] ws) then None else Some (join [c_slash] ws).
Proof.
  intros Hne Hs.
  destruct (join_safe_head ws Hne Hs) as (c & rest & Hj & Hcs).
  assert (Hb : c_backslash ∉ join [c_slash] ws) by (apply join_safe_no; [done | discriminate | by intros ? []]).
  assert (H0 : 0 ∉ join [c_slash] ws) by (apply join_safe_no; [done | discriminate | by intros ? []]).
  assert (Hc : c_colon ∉ join [c_slash] ws) by (apply join_safe_no; [done | discriminate | by intros ? []]).
  assert (Hsl : starts_with [c_slash] (join [c_slash] ws) = false).
  { rewrite Hj. cbn [starts_with]. destruct (Z.eqb_spec c_slash c); [congruence|done]. }
  unfold canonical_repo_relative_path.
  rewrite (normalize_slashes_id _ Hb), (path_parts_join ws Hne Hs).
  rewrite (no_colon_not_windows _ Hc Hb Hsl), Hsl.
  replace (teqb (join [c_slash] ws) []) with false by (rewrite Hj; done).
  rewrite (bool_decide_false _ H0), (bool_decide_false _ Hne). simpl. rewrite orb_false_r.
  replace (forallb segment_ok ws) with true; [done|].
  symmetry. apply forallb_forall. intros w Hw. apply list_elem_of_In in Hw.
  rewrite Forall_forall in Hs. destruct (Hs w Hw). by apply segment_ok_spec.
Qed.

Lemma strip_path_prefix_spec base path rest :
  strip_path_prefix base path = Some rest <-> path = base ++ rest.
Proof.
  revert path. induction base as [|b base IH]; intros [|p path]; simpl.
  - split; congruence.
  - split; congruence.
  - split; [done | intros [=]].
  - case_decide as Hd; subst.
    + rewrite IH. split; [by intros -> | by intros [= ->]].
    + split; [done | intros [= ->]]; done.
Qed.

Lemma path_starts_with_spec path base :
  path_starts_with path base = true <-> exists rest, path = base ++ rest.
Proof.
  unfold path_starts_with. destruct (strip_path_prefix base path) eqn:E.
  - split; [|done]. intros _. apply strip_path_prefix_spec in E. eauto.
  - split; [done|]. intros [rest H]. apply strip_path_prefix_spec in H. congruence.
Qed.

(** [lexical_normalize] leaves a [..] only where it would climb above the
    root, that is in first position. *)
Definition parents_only_first (p : list component) : Prop :=
  match p with
  | [] => True
  | c :: p' => c <> CurDir /\ Forall (fun c => exists n, c = Normal n) p'
  end.

Lemma parents_only_first_snoc p n :
  parents_only_first p -> parents_only_first (p ++ [Normal n]).
Proof.
  destruct p as [|c p]; simpl; [by split|]. intros [Hc Hp]. split; [done|].
  apply Forall_app. split; [done|]. constructor; [eauto | constructor].
Qed.

Lemma path_pop_snoc p c : path_pop (p ++ [c]) = Some p.
Proof. unfold path_pop. rewrite rev_app_distr. simpl. by rewrite rev_involutive. Qed.

Lemma path_pop_cases p :
  (p = [] /\ path_pop p = None) \/ (exists q c, p = q ++ [c] /\ path_pop p = Some q).
Proof.
  destruct p as [|c p _] using rev_ind; [by left|]. right. rewrite path_pop_snoc. eauto.
Qed.

Lemma lexical_from_parents path out :
  parents_only_first out -> parents_only_first (lexical_from out path).
Proof.
  revert out. induction path as [|[n| |] path IH]; simpl; intros out Ho; [done|..].
  - by apply IH, parents_only_first_snoc.
  - destruct (path_pop_cases out) as [[-> ->]|(q & c & -> & ->)].
    + apply IH. simpl. by split.
    + apply IH. destruct q as [|d q]; simpl in *; [done|].
      destruct Ho as [Hd Hq]. split; [done|]. by apply Forall_app in Hq as [Hq _].
  - by apply IH.
Qed.

Lemma path_parts_dot_slash q :
  path_parts (c_dot :: c_slash :: q) = path_parts q.
Proof. reflexivity. Qed.

Lemma canonical_dot_slash ws :
  ws <> [] -> Forall safe_segment ws ->
  canonical_repo_relative_path (c_dot :: c_slash :: join [c_slash] ws) = Some (join [c_slash] ws).
Proof.
  intros Hne Hs.
  assert (Hb : c_backslash ∉ join [c_slash] ws) by (apply join_safe_no; [exact Hs | discriminate | by intros ? []]).
  assert (H0 : 0 ∉ join [c_slash] ws) by (apply join_safe_no; [exact Hs | discriminate | by intros ? []]).
  unfold canonical_repo_relative_path.
  rewrite bool_decide_false by (by rewrite !not_elem_of_cons).
  rewrite normalize_slashes_id by (by rewrite !not_elem_of_cons).
  rewrite path_parts_dot_slash, (path_parts_join ws Hne Hs), (bool_decide_false _ Hne).
  replace (is_windows_absolute (c_dot :: c_slash :: join [c_slash] ws)) with false
    by (by destruct (join [c_slash] ws)).
  simpl. replace (forallb segment_ok ws) with true; [done|].
  symmetry. apply forallb_forall. intros w Hw. apply list_elem_of_In in Hw.
  rewrite Forall_forall in Hs. destruct (Hs w Hw). by apply segment_ok_spec.
Qed.

Lemma segments_of_canonical p q :
  canonical_repo_relative_path p = Some q ->
  Forall safe_segment (split_on c_slash q) /\ q = join [c_slash] (split_on c_slash q).
Proof.
  intros H. apply canonical_segments in H as (ws & -> & Hne & Hs & _).
  rewrite split_on_join; [done | done |].
  eapply Forall_impl; [exact Hs|]. intros w Hw. apply Hw.
Qed.

Section WritePathLemmas.
Context (canonicalize : list component -> option (list component)).
Context (read_link : list component -> option link_target).

(** [canonicalize] returns an absolute path without [.] and [..]. *)
Definition canonical_is_normal : Prop :=
  forall p r, canonicalize p = Some r -> Forall (fun c => exists n, c = Normal n) r.
Hypothesis Hcanon : canonical_is_normal.

Lemma nearest_ancestor_normal up tl r :
  Forall (fun c => exists n, c = Normal n) up ->
  Forall (fun c => exists n, c = Normal n) tl ->
  nearest_ancestor canonicalize up tl = Some r ->
  Forall (fun c => exists n, c = Normal n) r.
Proof.
  revert tl. induction up as [|c up IH]; intros tl Hu Ht; simpl.
  - destruct (canonicalize []) eqn:E; [|done]. intros [= <-]. apply Forall_app. eauto.
  - inversion Hu; subst. destruct (canonicalize _) eqn:E.
    + intros [= <-]. apply Forall_app. eauto.
    + intros H. eapply IH; [done | | exact H]. by constructor.
Qed.

Lemma normal_parents_first p :
  Forall (fun c => exists n, c = Normal n) p -> parents_only_first p.
Proof.
  destruct p as [|c p]; [done|]. intros H. inversion H as [|? ? [n ->] Hp]; subst.
  by split.
Qed.

Lemma resolve_new_parents_first candidate r :
  Forall (fun c => exists n, c = Normal n) candidate ->
  resolve_new canonicalize read_link candidate = Some r -> parents_only_first r.
Proof.
  intros Hcand. unfold resolve_new. destruct (canonicalize candidate) eqn:E.
  - intros [= <-]. apply normal_parents_first. by eapply Hcanon.
  - destruct (read_link candidate).
    + intros [= <-]. by apply lexical_from_parents.
    + intros H. apply normal_parents_first. eapply nearest_ancestor_normal; [| |exact H].
      * by apply Forall_rev.
      * constructor.
Qed.

Lemma parents_first_tail p q :
  p <> [] -> parents_only_first (p ++ q) -> Forall (fun c => exists n, c = Normal n) q.
Proof. destruct p as [|c p]; [done|]. intros _ [_ H]. by apply Forall_app in H as [_ H]. Qed.
End WritePathLemmas.

(** ** Properties *)

(** The paths [canonical_repo_relative_path] can return are exactly the
    slash-joined non-empty sequences of safe segments (no empty, [.] or [..]
    segment, no slash, backslash, colon or NUL inside one, no trailing space
    or dot), and it returns such a path unchanged unless the path starts with
    a dash. *)
Theorem canonical_path_characterised :
  (forall q, (exists p, canonical_repo_relative_path p = Some q) <->
             exists ws, ws <> [] /\ Forall safe_segment ws /\ q = join [c_slash] ws)
  /\ (forall q, canonical_repo_relative_path q = Some q <->
                starts_with [c_dash] q = false /\
                exists ws, ws <> [] /\ Forall safe_segment ws /\ q = join [c_slash] ws).
Proof.
  split; intros q; split.
  - intros [p H]. apply canonical_segments in H as (ws & -> & ? & ? & _). eauto.
  - intros (ws & Hne & Hs & ->). exists (c_dot :: c_slash :: join [c_slash] ws).
    by apply canonical_dot_slash.
  - intros H. pose proof H as H'. apply canonical_segments in H as (ws & -> & Hne & Hs & _).
    rewrite canonical_join in H' by done. destruct (starts_with _ _); [done|]. eauto.
  - intros (Hd & ws & Hne & Hs & ->). rewrite canonical_join, Hd by done. done.
Qed.

(** A leading dash is refused only when it is the first character of the
    raw text: behind a [./] the same dash survives into the accepted path. *)
Theorem leading_dash_survives_dot_slash :
  canonical_repo_relative_path (T "-rf") = None
  /\ canonical_repo_relative_path (T "./-rf") = Some (T "-rf").
Proof. split; reflexivity. Qed.

(** The clone jail: when [validate_write_path] accepts a target, the
    resolved destination is the clone's directory followed by ordinary names
    (no [..] is left), it is not the clone's real [.git] directory nor inside
    it, no segment of the requested path is a name a filesystem could resolve
    to [.git], and the path returned is the landed one; links, dangling
    leaves and missing ancestors included. *)
Theorem validate_write_path_jail
    (lower : text -> text) (canonicalize : list component -> option (list component))
    (read_link : list component -> option link_target)
    (dest : list component) (target rel : text) (must_exist : bool)
    (Hcanon : canonical_is_normal canonicalize)
    (Hdest : dest <> [] /\ Forall (fun c => exists n, c = Normal n) dest)
    (Hok : validate_write_path lower canonicalize read_link dest target must_exist = Ok rel) :
  exists canonical names,
    canonical_repo_relative_path target = Some canonical
    /\ Forall (fun p => is_dotgit_name lower p = false) (split_on c_slash canonical)
    /\ (if must_exist then canonicalize (dest ++ map Normal (split_on c_slash canonical))
        else resolve_new canonicalize read_link (dest ++ map Normal (split_on c_slash canonical)))
       = Some (dest ++ map Normal names)
    /\ path_starts_with (dest ++ map Normal names)
         (default (dest ++ [Normal (T ".git")]) (canonicalize (dest ++ [Normal (T ".git")]))) = false
    /\ rel = (if bool_decide (names = []) then canonical else join [c_slash] names).
Proof.
  destruct Hdest as [Hdne Hdn]. unfold validate_write_path in Hok.
  destruct (teqb target [] || _); [done|].
  destruct (canonical_repo_relative_path target) as [canonical|]; [|done].
  destruct (existsb _ _) eqn:Hgit; [done|].
  apply bind_Ok_inv in Hok as (resolved & Hres & Hok).
  destruct (strip_path_prefix dest resolved) as [landed|] eqn:Hstrip; [|done].
  apply strip_path_prefix_spec in Hstrip as ->.
  destruct (path_starts_with _ _) eqn:Hin in Hok; [done|]. injection Hok as <-.
  set (cand := dest ++ map Normal (split_on c_slash canonical)) in *.
  assert (Hland : exists names, landed = map Normal names).
  { assert (Hf : Forall (fun c => exists n, c = Normal n) landed).
    { apply (parents_first_tail dest); [done|]. destruct must_exist; apply ok_or_Ok in Hres.
      - apply normal_parents_first. by eapply Hcanon.
      - eapply resolve_new_parents_first; [done | | exact Hres].
        apply Forall_app. split; [done|]. apply Forall_map, Forall_true. eauto. }
    clear -Hf. induction Hf as [|c l [n ->] _ [names ->]]; [by exists []|by exists (n :: names)]. }
  destruct Hland as [names ->]. exists canonical, names. split; [done|]. split.
  { apply Forall_forall. intros p Hp. apply list_elem_of_In in Hp.
    destruct (is_dotgit_name lower p) eqn:E; [|done].
    rewrite <- Hgit. symmetry. apply existsb_exists. eauto. }
  split; [by destruct must_exist; apply ok_or_Ok in Hres|]. split; [done|].
  destruct names; [done|]. simpl. rewrite map_map. simpl. by rewrite map_id.
Qed.

Definition jail_demo_canonicalize (p : list component) : option (list component) :=
  if decide (p = [Normal (T "w"); Normal (T "src")]) then Some p
  else if decide (p = [Normal (T "w"); Normal (T ".git")]) then Some p
  else if decide (p = [Normal (T "w")]) then Some p else None.

Lemma validate_write_path_jail_witness :
  canonical_is_normal jail_demo_canonicalize /\
  exists canonical names,
    canonical_repo_relative_path (T "src/../src/a.rs") = None
    /\ canonical_repo_relative_path (T "src/a.rs") = Some canonical
    /\ names = [T "src"; T "a.rs"]
    /\ T "src/a.rs" = join [c_slash] names.
Proof.
  assert (H : canonical_is_normal jail_demo_canonicalize).
  { intros p r. unfold jail_demo_canonicalize.
    repeat case_decide; intros [= <-]; subst; repeat constructor; eauto. }
  split; [exact H|].
  assert (Hd : [Normal (T "w")] <> [] /\ Forall (fun c => exists n, c = Normal n) [Normal (T "w")]).
  { split; [discriminate|]. constructor; [by exists (T "w") | constructor]. }
  assert (Hok : validate_write_path (map to_ascii_lower) jail_demo_canonicalize (fun _ => None)
                  [Normal (T "w")] (T "src/a.rs") false = Ok (T "src/a.rs"))
    by (vm_compute; reflexivity).
  destruct (validate_write_path_jail _ _ _ _ _ _ _ H Hd Hok)
    as (canonical & names & Hc & _ & Hr & _ & Hrel).
  exists canonical, names. split; [vm_compute; reflexivity|]. split; [exact Hc|].
  vm_compute in Hc. injection Hc as <-. vm_compute in Hr. injection Hr as Hr.
  destruct names as [|n1 [|n2 [|? ?]]]; try discriminate Hr.
  injection Hr as <- <-. split; reflexivity.
Defined.
