(* ===== verification/RateLimit.v ===== *)
(** The per-client sliding-window rate limiter, [common/ratelimit.rs].

    Every [/api] request crosses [allow_with_limits] with the live limits.
    Times are [f64] seconds in the source; here they are exact integers at an
    arbitrary fixed resolution (rounding of [f64] is not modelled), and
    [f64::INFINITY] is [None] in [retry_after_with_limits]. *)

From S2P Require Import Prelude Text.
Local Open Scope Z_scope.

Record State := MkState { hits : gmap text (list Z); last_sweep : Z }.
Definition initial : State := MkState ∅ 0.

(** [now - t < window_seconds] *)
Definition live (now window t : Z) : bool := now - t <? window.

Definition sweep (st : State) (now window : Z) : State :=
  if now - last_sweep st <? window then st
  else MkState (filter (fun kv => existsb (live now window) kv.2 = true) (hits st)) now.

(** [RateLimiter::record] on one client's hits. *)
Definition record (hs : list Z) (now : Z) (max_requests : nat) (window : Z) : list Z * bool :=
  let kept := List.filter (live now window) hs in
  if (max_requests <=? length kept)%nat then (kept, false) else (kept ++ [now], true).

Definition allow_with_limits (st : State) (now : Z) (client : text) (max_requests : nat)
    (window : Z) : State * bool :=
  let st := sweep st now window in
  let '(hs, ok) := record (default [] (hits st !! client)) now max_requests window in
  (MkState (<[client := hs]> (hits st)) (last_sweep st), ok).

(** [f64::max], [select_nth_unstable_by]: the [k]-th smallest. *)
Definition select_nth (k : nat) (l : list Z) : option Z := merge_sort Z.le l !! k.

Definition retry_after_with_limits (st : State) (now : Z) (client : text) (max_requests : nat)
    (window : Z) : option Z :=
  match hits st !! client with
  | None => Some 0
  | Some hs =>
      let retained := List.filter (live now window) hs in
      let in_window := length retained in
      if (in_window <? max_requests)%nat then Some 0
      else
        let oldest :=
          if (0 <? max_requests)%nat && (max_requests <? in_window)%nat
          then select_nth (in_window - max_requests) retained
          else foldr (fun t acc => Some (match acc with Some a => Z.min a t | None => t end))
                     None retained in
        match oldest with
        | Some t => Some (Z.max (window - (now - t)) 0)
        | None => None
        end
  end.

(** A run of the limiter: requests [(now, client)] under fixed limits, with
    the decision taken for each. *)
Fixpoint run (st : State) (max_requests : nat) (window : Z) (reqs : list (Z * text))
    : State * list bool :=
  match reqs with
  | [] => (st, [])
  | (now, client) :: reqs' =>
      let '(st, ok) := allow_with_limits st now client max_requests window in
      let '(st, oks) := run st max_requests window reqs' in
      (st, ok :: oks)
  end.

(** The accepted requests of one client. *)
Definition accepted (client : text) (reqs : list (Z * text)) (oks : list bool) : list Z :=
  map (fun x => x.1.1)
    (List.filter (fun x => x.2 && teqb (x.1.2) client) (combine reqs oks)).

(** ** Lemmas *)

Definition client_hits (st : State) (client : text) : list Z := default [] (hits st !! client).
Definition in_window (now window : Z) (l : list Z) : list Z := List.filter (live now window) l.

Lemma filter_none {A} (f : A -> bool) l :
  existsb f l = false -> List.filter f l = [].
Proof.
  induction l as [|x l IH]; simpl; [done|]. intros H. apply orb_false_iff in H as [-> H]. auto.
Qed.

Lemma filter_sub {A} (f g : A -> bool) l :
  (forall x, In x l -> g x = true -> f x = true) -> List.filter g (List.filter f l) = List.filter g l.
Proof.
  induction l as [|x l IH]; simpl; intros H; [done|]. rewrite <- IH by auto.
  destruct (f x) eqn:E; simpl; [done|].
  destruct (g x) eqn:E'; [|done]. rewrite H in E by auto. done.
Qed.

Lemma live_mono now now' window t : now <= now' -> live now' window t = true -> live now window t = true.
Proof. unfold live. intros. guards. apply Z.ltb_lt. lia. Qed.

(** Sweeping never drops a hit that is still inside the window. *)
Lemma sweep_in_window st now window client :
  in_window now window (client_hits (sweep st now window) client)
  = in_window now window (client_hits st client).
Proof.
  unfold sweep, client_hits, in_window. case_match; [done|]. simpl.
  destruct (hits st !! client) as [hs|] eqn:E.
  - destruct (existsb (live now window) hs) eqn:Ex.
    + rewrite (map_lookup_filter_Some_2 _ _ _ hs); done.
    + rewrite (proj2 (map_lookup_filter_None _ _ _)); simpl.
      * by rewrite filter_none.
      * right. intros x Hx Hp. simpl in Hp. congruence.
  - rewrite (proj2 (map_lookup_filter_None _ _ _)); [done | by left].
Qed.

Lemma allow_decision st now client max_requests window :
  snd (allow_with_limits st now client max_requests window)
  = negb (max_requests <=? length (in_window now window (client_hits st client)))%nat.
Proof.
  unfold allow_with_limits. rewrite <- sweep_in_window.
  unfold record, in_window, client_hits. by destruct (max_requests <=? _)%nat.
Qed.

Lemma allow_hits_same st now client max_requests window :
  client_hits (fst (allow_with_limits st now client max_requests window)) client
  = in_window now window (client_hits st client)
    ++ (if snd (allow_with_limits st now client max_requests window) then [now] else []).
Proof.
  unfold allow_with_limits. rewrite <- sweep_in_window. unfold client_hits, record, in_window.
  destruct (max_requests <=? _)%nat; simpl; rewrite lookup_insert_eq; simpl;
    [by rewrite app_nil_r | done].
Qed.

Lemma allow_hits_other st now client other max_requests window :
  client <> other ->
  in_window now window
    (client_hits (fst (allow_with_limits st now client max_requests window)) other)
  = in_window now window (client_hits st other).
Proof.
  intros Hne. rewrite <- (sweep_in_window st). unfold allow_with_limits, client_hits.
  destruct (record _ _ _ _). simpl. by rewrite lookup_insert_ne.
Qed.

(** Hits of [l] in the window that ends at [t]. *)
Definition window_count (t window : Z) (l : list Z) : nat :=
  length (List.filter (fun a => live t window a && (a <=? t)) l).

Lemma in_window_app now window l l' : in_window now window (l ++ l') = in_window now window l ++ in_window now window l'.
Proof. apply List.filter_app. Qed.

Lemma in_window_idem now now' window l :
  now <= now' -> in_window now' window (in_window now window l) = in_window now' window l.
Proof. intros H. apply filter_sub. intros x _. by apply live_mono. Qed.

Section Run.
Context (max_requests : nat) (window : Z) (client : text).

(** The state's hits and the accepted requests agree on every later window. *)
Definition tracks (st : State) (acc : list Z) (now0 : Z) : Prop :=
  (forall t, now0 <= t -> in_window t window (client_hits st client) = in_window t window acc)
  /\ Forall (fun a => a <= now0) acc
  /\ (forall t, (window_count t window acc <= max_requests)%nat).

Lemma window_count_snoc_le t acc a :
  (window_count t window (acc ++ [a]) <= S (length (in_window t window acc)))%nat.
Proof.
  unfold window_count, in_window. rewrite List.filter_app, length_app. simpl.
  assert (length (List.filter (fun x => live t window x && (x <=? t)%Z) acc)
          <= length (List.filter (live t window) acc))%nat.
  { induction acc as [|x l IH]; simpl; [done|].
    destruct (live t window x), (x <=? t); simpl; lia. }
  case_match; simpl; lia.
Qed.

Lemma window_count_before t acc a :
  t < a -> window_count t window (acc ++ [a]) = window_count t window acc.
Proof.
  intros H. unfold window_count. rewrite List.filter_app, length_app. simpl.
  replace (a <=? t) with false by (symmetry; apply Z.leb_gt; lia).
  rewrite andb_false_r. simpl. lia.
Qed.

Lemma in_window_mono now t l :
  now <= t -> (length (in_window t window l) <= length (in_window now window l))%nat.
Proof.
  intros H. induction l as [|x l IH]; simpl; [done|].
  destruct (live t window x) eqn:E; [rewrite (live_mono _ _ _ _ H E); simpl; lia|].
  case_match; simpl; lia.
Qed.

Lemma tracks_step st acc now0 now c :
  now0 <= now -> tracks st acc now0 ->
  let '(st', ok) := allow_with_limits st now c max_requests window in
  tracks st' (acc ++ if ok && teqb c client then [now] else []) now.
Proof.
  intros Hle (Hh & Ha & Hw).
  destruct (allow_with_limits st now c max_requests window) as [st' ok] eqn:E.
  assert (Ha' : Forall (fun a => a <= now) acc) by (eapply Forall_impl; [exact Ha | simpl; lia]).
  destruct (teqb c client) eqn:Ec.
  - apply teqb_eq in Ec as ->. rewrite andb_true_r.
    pose proof (allow_hits_same st now client max_requests window) as Hs.
    pose proof (allow_decision st now client max_requests window) as Hd.
    rewrite E in Hs, Hd. simpl in Hs, Hd. rewrite (Hh now Hle) in Hs, Hd.
    split; [|split].
    + intros t Ht. rewrite Hs, !in_window_app, in_window_idem by done. by destruct ok.
    + apply Forall_app. split; [done|]. destruct ok; repeat constructor. lia.
    + intros t. destruct ok; [|by rewrite app_nil_r].
      symmetry in Hd. guards. destruct (Z.lt_ge_cases t now).
      * by rewrite window_count_before.
      * pose proof (window_count_snoc_le t acc now).
        pose proof (in_window_mono now t acc ltac:(lia)). lia.
  - apply teqb_neq in Ec. rewrite andb_false_r, app_nil_r.
    pose proof (allow_hits_other st now c client max_requests window Ec) as Ho.
    rewrite E in Ho. simpl in Ho. split; [|done].
    intros t Ht. rewrite <- (in_window_idem now t) by done. rewrite Ho.
    rewrite in_window_idem by done. apply Hh. lia.
Qed.

Lemma tracks_run reqs st acc now0 st' oks :
  Sorted Z.le (now0 :: map fst reqs) -> tracks st acc now0 ->
  run st max_requests window reqs = (st', oks) ->
  exists now1, tracks st' (acc ++ accepted client reqs oks) now1.
Proof.
  revert st acc now0 st' oks. induction reqs as [|[now c] reqs IH];
    intros st acc now0 st' oks Hs Ht; simpl; intros Hr.
  - injection Hr as <- <-. exists now0. unfold accepted. simpl. by rewrite app_nil_r.
  - apply Sorted_inv in Hs as [Hs Hh]. inversion Hh; subst.
    pose proof (tracks_step st acc now0 now c ltac:(done) Ht) as Hst.
    destruct (allow_with_limits _ _ _ _ _) as [st1 ok].
    destruct (run st1 max_requests window reqs) as [st2 oks1] eqn:Er. injection Hr as <- <-.
    destruct (IH _ _ _ _ _ Hs Hst Er) as [now1 H1]. exists now1.
    unfold accepted in *. simpl. destruct (ok && teqb c client); simpl; by rewrite <- ?app_assoc in *.
Qed.
End Run.

(** No burst: under fixed limits and a clock that does not go back, at
    most [max_requests] requests of one client are accepted in any window of
    [window] ticks, whatever the requests of other clients and however often
    the table was swept in between. *)
Theorem sliding_window_bound
    (max_requests : nat) (window : Z) (reqs : list (Z * text)) (st : State) (oks : list bool)
    (client : text) (t : Z)
    (Hclock : Sorted Z.le (map fst reqs))
    (Hrun : run initial max_requests window reqs = (st, oks)) :
  (window_count t window (accepted client reqs oks) <= max_requests)%nat.
Proof.
  destruct reqs as [|[now c] reqs].
  - simpl in Hrun. injection Hrun as <- <-. unfold window_count. simpl. lia.
  - assert (Hs : Sorted Z.le (now :: map fst ((now, c) :: reqs))) by (constructor; [done | by constructor]).
    assert (Ht : tracks max_requests window client initial [] now).
    { split; [done|]. split; [constructor|]. intros. unfold window_count. simpl. lia. }
    destruct (tracks_run max_requests window client _ _ _ _ _ _ Hs Ht Hrun) as (now1 & _ & _ & H).
    apply H.
Qed.

Definition demo_requests : list (Z * text) :=
  [(0, T "a"); (3, T "a"); (4, T "b"); (9, T "a"); (10, T "a")].

Lemma sliding_window_bound_witness :
  exists st oks,
    run initial 2 10 demo_requests = (st, oks)
    /\ oks = [true; true; true; false; true]
    /\ (window_count 10 10 (accepted (T "a") demo_requests oks) <= 2)%nat.
Proof.
  eexists _, _. split; [reflexivity|]. split; [reflexivity|].
  eapply (sliding_window_bound 2 10 _ _ _ (T "a") 10); [|reflexivity].
  repeat constructor; discriminate.
Defined.

(** *** The advertised wait is exact *)

(** Elements of a list above a threshold. *)
Definition above (theta : Z) (l : list Z) : nat := length (List.filter (fun t => theta <? t) l).

Lemma above_sorted l k o theta :
  StronglySorted Z.le l -> l !! k = Some o ->
  ((above theta l < length l - k)%nat <-> o <= theta).
Proof.
  intros Hs. revert k. induction Hs as [|x l Hs IH Hx]; intros k Hk; [done|].
  unfold above in *. simpl. rewrite Forall_forall in Hx. destruct k as [|k]; simpl in Hk.
  - injection Hk as ->. destruct (Z.ltb_spec theta o); simpl.
    + split; [|lia]. intros Hl.
      assert (Hall : List.filter (fun t => theta <? t) l = l).
      { clear -H Hx. induction l as [|y l IH]; [done|]. simpl.
        pose proof (Hx y ltac:(left)). destruct (Z.ltb_spec theta y); [|lia].
        f_equal. apply IH. intros z Hz. apply Hx. by right. }
      rewrite Hall in Hl. lia.
    + split; [done|]. intros _.
      pose proof (filter_length_le (fun t => theta <? t) l). lia.
  - assert (x <= o) by (apply Hx; by eapply list_elem_of_lookup_2).
    assert (k < length l)%nat by (by eapply lookup_lt_Some).
    specialize (IH k Hk). destruct (Z.ltb_spec theta x); simpl; [|exact IH].
    split; [|lia]. intros Hl. apply IH. lia.
Qed.

Lemma above_Permutation theta l l' : Permutation l l' -> above theta l = above theta l'.
Proof. unfold above. induction 1; simpl; repeat case_match; simpl; lia. Qed.

Lemma select_nth_above l k o theta :
  select_nth k l = Some o -> ((above theta l < length l - k)%nat <-> o <= theta).
Proof.
  unfold select_nth. intros H.
  rewrite <- (above_Permutation theta _ _ (merge_sort_Permutation Z.le l)).
  rewrite <- (Permutation_length (merge_sort_Permutation Z.le l)).
  apply above_sorted; [|exact H]. apply StronglySorted_merge_sort; tc_solve.
Qed.

(** The minimum the scan keeps is the first of the sorted hits. *)
Lemma fold_min_select l :
  foldr (fun t acc => Some (match acc with Some a => Z.min a t | None => t end)) None l
  = select_nth 0 l.
Proof.
  unfold select_nth.
  assert (Hmin : forall l m, foldr (fun t acc => Some (match acc with Some a => Z.min a t | None => t end)) None l = Some m ->
            m ∈ l /\ Forall (fun t => m <= t) l).
  { clear. induction l as [|x l IH]; simpl; intros m; [done|].
    destruct (foldr _ None l) as [a|] eqn:E; intros [= <-].
    - destruct (IH a eq_refl) as [Ha Hf]. split.
      + destruct (Z.min_spec a x) as [[? ->]|[? ->]]; [by right | by left].
      + constructor; [lia|]. eapply Forall_impl; [exact Hf|]. simpl. lia.
    - destruct l; [|simpl in E; by destruct (foldr _ None l)]. split; [by left|].
      constructor; [lia | constructor]. }
  destruct l as [|x l]; [done|].
  destruct (foldr _ None (x :: l)) as [m|] eqn:E; [|simpl in E; by destruct (foldr _ None l)].
  destruct (Hmin _ _ E) as [Hin Hall].
  pose proof (merge_sort_Permutation Z.le (x :: l)) as Hp.
  pose proof (StronglySorted_merge_sort Z.le (x :: l)) as Hs.
  destruct (merge_sort Z.le (x :: l)) as [|y s]; [by apply Permutation_nil_cons in Hp|].
  simpl. f_equal. apply Z.le_antisymm.
  - rewrite Forall_forall in Hall. apply Hall. rewrite <- Hp. left.
  - rewrite <- Hp in Hin. apply elem_of_cons in Hin as [->|Hin]; [lia|].
    inversion Hs as [|? ? _ Hy]; subst. rewrite Forall_forall in Hy. by apply Hy.
Qed.

Lemma live_above now window l : length (in_window now window l) = above (now - window) l.
Proof.
  unfold in_window, above, live. induction l as [|x l IH]; simpl; [done|].
  destruct (Z.ltb_spec (now - x) window), (Z.ltb_spec (now - window) x); simpl; lia.
Qed.

(** The advertised wait is exact: with a positive limit, a request after
    [e] more ticks is accepted if and only if [e] is at least the wait
    [retry_after_with_limits] reported, provided no request of the client
    comes in between.  This covers a limit tightened below the number of
    retained hits. *)
Theorem retry_after_exact
    (st : State) (now e : Z) (client : text) (max_requests : nat) (window wait : Z)
    (Hmax : (0 < max_requests)%nat) (Hwin : 0 < window) (He : 0 <= e)
    (Hpast : Forall (fun t => t <= now) (client_hits st client))
    (Hwait : retry_after_with_limits st now client max_requests window = Some wait) :
  snd (allow_with_limits st (now + e) client max_requests window) = (wait <=? e).
Proof.
  rewrite allow_decision. unfold retry_after_with_limits, client_hits in *.
  destruct (hits st !! client) as [hs|] eqn:Eh; simpl in *.
  2:{ injection Hwait as <-. destruct max_requests; [lia|]. symmetry. apply Z.leb_le. lia. }
  rewrite <- (in_window_idem now (now + e)) by lia.
  fold (in_window now window hs) in Hwait. set (R := in_window now window hs) in *.
  assert (HR : forall o, o ∈ R -> now - o < window /\ o <= now).
  { intros o Ho. unfold R, in_window in Ho. apply list_elem_of_In, filter_In in Ho as [Ho Hl].
    unfold live in Hl. guards. rewrite Forall_forall in Hpast.
    split; [done | by apply Hpast, list_elem_of_In]. }
  rewrite live_above. destruct (Nat.ltb_spec (length R) max_requests).
  - injection Hwait as <-.
    pose proof (filter_length_le (fun t => now + e - window <? t) R) as Hf. unfold above.
    replace (0 <=? e) with true by (symmetry; apply Z.leb_le; lia).
    apply negb_true_iff, Nat.leb_gt. lia.
  - assert (Hsel : exists o, select_nth (length R - max_requests) R = Some o
                             /\ wait = Z.max (window - (now - o)) 0).
    { destruct (Nat.ltb_spec 0 max_requests); [|lia]. simpl in Hwait.
      destruct (Nat.ltb_spec max_requests (length R)).
      - destruct (select_nth _ R); [|done]. injection Hwait as <-. eauto.
      - replace (length R - max_requests)%nat with 0%nat by lia. rewrite fold_min_select in Hwait.
        destruct (select_nth _ R); [|done]. injection Hwait as <-. eauto. }
    destruct Hsel as (o & Ho & ->).
    pose proof (select_nth_above R _ o (now + e - window) Ho) as Hab.
    replace (length R - (length R - max_requests))%nat with max_requests in Hab by lia.
    assert (o ∈ R) as Hin.
    { rewrite <- (merge_sort_Permutation Z.le R). by eapply list_elem_of_lookup_2. }
    apply HR in Hin as [Hlive _].
    destruct (Nat.leb_spec max_requests (above (now + e - window) R)) as [Hge|Hlt]; simpl; symmetry.
    + apply Z.leb_gt. assert (~ o <= now + e - window) by (rewrite <- Hab; lia). lia.
    + apply Z.leb_le. apply Hab in Hlt. lia.
Qed.

Lemma retry_after_exact_witness :
  let st := MkState {[ T "client" := [0; 10; 20] ]} 0 in
  retry_after_with_limits st 30 (T "client") 1 60 = Some 50
  /\ snd (allow_with_limits st (30 + 49) (T "client") 1 60) = (50 <=? 49)
  /\ snd (allow_with_limits st (30 + 50) (T "client") 1 60) = (50 <=? 50).
Proof.
  intros st.
  assert (Hw : retry_after_with_limits st 30 (T "client") 1 60 = Some 50) by (vm_compute; reflexivity).
  assert (Hp : Forall (fun t => t <= 30) (client_hits st (T "client"))).
  { replace (client_hits st (T "client")) with [0; 10; 20] by (vm_compute; reflexivity).
    repeat constructor; lia. }
  split; [exact Hw|]. split.
  - apply (retry_after_exact st 30 49 _ 1 60 50); [lia | lia | lia | exact Hp | exact Hw].
  - apply (retry_after_exact st 30 50 _ 1 60 50); [lia | lia | lia | exact Hp | exact Hw].
Defined.
