(* ===== verification/GenerationGate.v ===== *)
(** The single-generation gate, [server/generation_gate.rs].

    One mutex-protected [Inner { held, owner }], guards that release it when
    dropped, and callers of [claim_preempting] that wait for a release.  A
    caller is a small state machine whose atomic steps are the source's: it
    registers for the release notification ([enable]), then takes the lock to
    claim, then waits for the notification or the deadline.  Dropping a guard
    is two steps, as in the source: the locked update, then
    [notify_waiters]. *)

From S2P Require Import Prelude Text.
Local Open Scope nat_scope.

Record Inner := MkInner { held : bool; owner : text }.

(** [claim_or_busy_owner]: the new lock content, or the owner that holds it. *)
Definition claim_or_busy_owner (g : Inner) (who : text) : result text Inner :=
  if held g then Err (owner g) else Ok (MkInner true who).

(** The locked part of [GateGuard::drop]. *)
Definition release (g : Inner) : Inner := MkInner false [].

(** Where a caller of [claim_preempting] stands. *)
Inductive phase :=
| Registered (notified : bool)  (* after [enable], before the claim *)
| Waiting (notified : bool)     (* in [timeout_at(deadline, released)] *)
| Acquired                      (* returned [Ok(guard)] *)
| Refused (busy : text).        (* returned [Err(busy)] *)

Record caller := MkCaller {
  c_owner : text;
  c_yielding : text;
  c_phase : phase;
  c_asks : nat;  (* calls of [ask] so far *)
}.

Record world := MkWorld {
  inner : Inner;
  guards : list text;          (* owners of the live guards *)
  unnotified : nat;            (* drops between their two steps *)
  callers : list caller;
}.

Definition initial : world := MkWorld (MkInner false []) [] 0 [].

(** [notify_waiters] wakes every registered caller. *)
Definition notify (c : caller) : caller :=
  match c_phase c with
  | Registered _ => MkCaller (c_owner c) (c_yielding c) (Registered true) (c_asks c)
  | Waiting _ => MkCaller (c_owner c) (c_yielding c) (Waiting true) (c_asks c)
  | _ => c
  end.

(** The caller's claim at the loop head: [Ok] returns the guard, the yielding
    holder is asked and waited for, any other holder refuses at once. *)
Definition try_claim (g : Inner) (c : caller) (notified : bool) : Inner * caller :=
  match claim_or_busy_owner g (c_owner c) with
  | Ok g' => (g', MkCaller (c_owner c) (c_yielding c) Acquired (c_asks c))
  | Err busy =>
      if teqb busy (c_yielding c)
      then (g, MkCaller (c_owner c) (c_yielding c) (Waiting notified) (S (c_asks c)))
      else (g, MkCaller (c_owner c) (c_yielding c) (Refused busy) (c_asks c))
  end.

(** The last claim after the deadline passed. *)
Definition last_claim (g : Inner) (c : caller) : Inner * caller :=
  match claim_or_busy_owner g (c_owner c) with
  | Ok g' => (g', MkCaller (c_owner c) (c_yielding c) Acquired (c_asks c))
  | Err busy => (g, MkCaller (c_owner c) (c_yielding c) (Refused busy) (c_asks c))
  end.

Definition new_guard (c : caller) : list text :=
  match c_phase c with Acquired => [c_owner c] | _ => [] end.

Inductive step : world -> world -> Prop :=
| step_claim w who g' :
    claim_or_busy_owner (inner w) who = Ok g' ->
    step w (MkWorld g' (who :: guards w) (unnotified w) (callers w))
| step_release w l who r :
    guards w = l ++ who :: r ->
    step w (MkWorld (release (inner w)) (l ++ r) (S (unnotified w)) (callers w))
| step_notify w n :
    unnotified w = S n ->
    step w (MkWorld (inner w) (guards w) n (map notify (callers w)))
| step_call w who yielding :
    step w (MkWorld (inner w) (guards w) (unnotified w)
                    (MkCaller who yielding (Registered false) 0 :: callers w))
| step_try w l c r notified g' c' :
    callers w = l ++ c :: r -> c_phase c = Registered notified ->
    try_claim (inner w) c notified = (g', c') ->
    step w (MkWorld g' (new_guard c' ++ guards w) (unnotified w) (l ++ c' :: r))
| step_woken w l c r :
    callers w = l ++ c :: r -> c_phase c = Waiting true ->
    step w (MkWorld (inner w) (guards w) (unnotified w)
                    (l ++ MkCaller (c_owner c) (c_yielding c) (Registered false) (c_asks c) :: r))
| step_deadline w l c r b g' c' :
    callers w = l ++ c :: r -> c_phase c = Waiting b ->
    last_claim (inner w) c = (g', c') ->
    step w (MkWorld g' (new_guard c' ++ guards w) (unnotified w) (l ++ c' :: r))
(* the caller's future is dropped: its registration is gone, a guard it was
   given is dropped by [step_release] *)
| step_abandon w l c r :
    callers w = l ++ c :: r ->
    step w (MkWorld (inner w) (guards w) (unnotified w) (l ++ r)).

Definition reachable (w : world) : Prop := rtc step initial w.

(** ** Invariant *)

(** The lock content describes the live guards. *)
Definition lock_matches (w : world) : Prop :=
  (held (inner w) = true /\ guards w = [owner (inner w)])
  \/ (held (inner w) = false /\ owner (inner w) = [] /\ guards w = []).

(** A waiting caller has asked, and if it is not notified, its yielding
    holder still holds the gate or a release is about to notify it. *)
Definition caller_ok (w : world) (c : caller) : Prop :=
  match c_phase c with
  | Waiting b =>
      0 < c_asks c
      /\ (b = false -> 0 < unnotified w
                       \/ (held (inner w) = true /\ owner (inner w) = c_yielding c))
  | _ => True
  end.

Definition invariant (w : world) : Prop :=
  lock_matches w /\ Forall (caller_ok w) (callers w).

Lemma claim_Ok g who g' :
  claim_or_busy_owner g who = Ok g' <-> held g = false /\ g' = MkInner true who.
Proof. unfold claim_or_busy_owner. destruct (held g); split; intros H; destruct_and?; by simplify_eq. Qed.

Lemma claim_Err g who busy :
  claim_or_busy_owner g who = Err busy <-> held g = true /\ busy = owner g.
Proof. unfold claim_or_busy_owner. destruct (held g); split; intros H; destruct_and?; by simplify_eq. Qed.

(** Taking a free gate keeps both parts of the invariant. *)
Lemma invariant_take w who cs :
  invariant w -> held (inner w) = false -> Forall (caller_ok w) cs ->
  invariant (MkWorld (MkInner true who) (who :: guards w) (unnotified w) cs).
Proof.
  intros [[[Hh _]|(_ & _ & Hg)] _] Hf Hcs; [congruence|]. split.
  - left. simpl. by rewrite Hg.
  - eapply Forall_impl; [exact Hcs|]. intros c Hc. unfold caller_ok in *. destruct (c_phase c); try done.
    simpl in *. destruct Hc as [Ha Hw]. split; [done|]. intros Hb.
    destruct (Hw Hb) as [?|[? _]]; [by left | congruence].
Qed.

Lemma Forall_replace {A} (P : A -> Prop) l x y r :
  Forall P (l ++ x :: r) -> P y -> Forall P (l ++ y :: r).
Proof. rewrite !Forall_app, !Forall_cons. tauto. Qed.

Lemma invariant_step w w' : invariant w -> step w w' -> invariant w'.
Proof.
  intros Hinv Hs. pose proof Hinv as [Hl Hc]. destruct Hs as
    [w who g' Hcl | w l who r Hg | w n Hn | w who y
    | w l c r nt g' c' Hcs Hp Ht | w l c r Hcs Hp | w l c r b g' c' Hcs Hp Ht | w l c r Hcs].
  - apply claim_Ok in Hcl as [Hf ->]. by apply invariant_take.
  - destruct Hl as [[Hh Hg']|(_ & _ & Hg')]; rewrite Hg' in Hg.
    2:{ by apply app_cons_not_nil in Hg. }
    destruct l as [|? l]; [|destruct l; discriminate Hg]. injection Hg as <- <-.
    split; [by right|]. eapply Forall_impl; [exact Hc|]. intros c Hok. unfold caller_ok in *.
    destruct (c_phase c); try done. simpl. split; [apply Hok|]. left. lia.
  - split; [exact Hl|]. apply Forall_map. eapply Forall_impl; [exact Hc|]. intros c Hok. simpl.
    unfold caller_ok, notify in *. destruct (c_phase c) eqn:E; simpl; rewrite ?E; try done.
    split; [apply Hok | done].
  - split; [exact Hl|]. by constructor.
  - rewrite Hcs in Hc. unfold try_claim in Ht.
    destruct (claim_or_busy_owner (inner w) (c_owner c)) as [g1|busy] eqn:Hcl.
    + injection Ht as <- <-. apply claim_Ok in Hcl as [Hf ->]. simpl.
      apply invariant_take; [done | done |]. by eapply Forall_replace.
    + apply claim_Err in Hcl as [Hh ->].
      destruct (teqb (owner (inner w)) (c_yielding c)) eqn:Ey; injection Ht as <- <-; simpl.
      * apply teqb_eq in Ey. split; [exact Hl|]. eapply Forall_replace; [exact Hc|].
        simpl. unfold caller_ok. simpl. split; [lia | by right].
      * split; [exact Hl|]. by eapply Forall_replace.
  - rewrite Hcs in Hc. split; [exact Hl|]. by eapply Forall_replace.
  - rewrite Hcs in Hc. unfold last_claim in Ht.
    destruct (claim_or_busy_owner (inner w) (c_owner c)) as [g1|busy] eqn:Hcl;
      injection Ht as <- <-; simpl.
    + apply claim_Ok in Hcl as [Hf ->]. apply invariant_take; [done | done |]. by eapply Forall_replace.
    + split; [exact Hl|]. by eapply Forall_replace.
  - rewrite Hcs in Hc. split; [exact Hl|]. apply Forall_app in Hc as [? Hc%Forall_cons].
    apply Forall_app. tauto.
Qed.

Lemma invariant_reachable w : reachable w -> invariant w.
Proof.
  intros H. unfold reachable in H. remember initial as w0 eqn:E.
  assert (H0 : invariant w0) by (subst; split; [by right | constructor]).
  clear E. induction H; [done|]. eauto using invariant_step.
Qed.

(** C37. Mutual exclusion and no lost wake-up, for every interleaving of
    claims, drops, notifications and preempting callers, cancelled ones
    included: at most one guard is
    live, it is exactly the one the lock records, and a caller that waits
    without a pending notification has asked a holder named by its
    [yielding] argument that still holds the gate (or a release is already on
    its way to notify it). *)
Theorem gate_exclusive_no_lost_wakeup (w : world) (Hr : reachable w) :
  length (guards w) <= 1
  /\ (held (inner w) = true <-> guards w = [owner (inner w)])
  /\ forall c, c ∈ callers w -> c_phase c = Waiting false ->
       0 < c_asks c
       /\ (0 < unnotified w \/ (held (inner w) = true /\ owner (inner w) = c_yielding c)).
Proof.
  destruct (invariant_reachable w Hr) as [Hl Hc]. split; [|split].
  - destruct Hl as [[_ ->]|(_ & _ & ->)]; simpl; lia.
  - destruct Hl as [[Hh ->]|(Hh & Ho & ->)]; rewrite ?Hh; split; by intros ?.
  - intros c Hin Hp. rewrite Forall_forall in Hc. specialize (Hc c Hin).
    unfold caller_ok in Hc. rewrite Hp in Hc. destruct Hc as [Ha Hw]. auto.
Qed.

Lemma gate_exclusive_no_lost_wakeup_witness :
  let c := MkCaller (T "chat") (T "memory-suggestion") (Waiting false) 1 in
  let w := MkWorld (MkInner true (T "memory-suggestion")) [T "memory-suggestion"] 0 [c] in
  reachable w /\ owner (inner w) = c_yielding c.
Proof.
  intros c w.
  set (c0 := MkCaller (T "chat") (T "memory-suggestion") (Registered false) 0).
  set (w1 := MkWorld (MkInner true (T "memory-suggestion")) [T "memory-suggestion"] 0 []).
  set (w2 := MkWorld (MkInner true (T "memory-suggestion")) [T "memory-suggestion"] 0 [c0]).
  assert (Hr : reachable w).
  { apply rtc_l with w1; [apply (step_claim initial (T "memory-suggestion")); reflexivity|].
    apply rtc_l with w2; [apply (step_call w1 (T "chat") (T "memory-suggestion"))|].
    apply rtc_once. apply (step_try w2 [] c0 [] false (inner w) c); reflexivity. }
  split; [exact Hr|].
  destruct (gate_exclusive_no_lost_wakeup w Hr) as (_ & _ & H).
  destruct (H c ltac:(left) eq_refl) as [_ [Hu|[_ Ho]]]; [inversion Hu | exact Ho].
Defined.
