(* ===== verification/ScheduleTime.v ===== *)
(** Calendar arithmetic of the agent schedules, [server/schedule_time.rs].

    An interval is computed here in full; the cron calendar, the time zone
    database and the printed forms of a time are the crates [cron],
    [chrono-tz] and [chrono], collected in the record [Chrono].  Times are
    [f64] Unix seconds in the source and exact integers here, [tick] of them
    to the second; the finiteness tests are therefore vacuous and rounding is
    not modelled. *)

From S2P Require Import Prelude Text.
Local Open Scope Z_scope.

Definition MIN_INTERVAL_SECS : Z := 60.
Definition MAX_INTERVAL_SECS : Z := 7 * 24 * 60 * 60.

Inductive ScheduleSpec :=
| Interval (seconds : Z)
| Cron (expression timezone : text).

Inductive schedule_error := Invalid | Exhausted.

Record Occurrence := MkOccurrence { at_time : Z; identity : text; local_time : text }.

(** ** [weekday_field] *)

Definition day_names : list text :=
  [T "SUN"; T "MON"; T "TUE"; T "WED"; T "THU"; T "FRI"; T "SAT"].

Fixpoint position (f : text -> bool) (l : list text) : option nat :=
  match l with
  | [] => None
  | x :: l' => if f x then Some O else S <$> position f l'
  end.

Definition weekday_number (s : text) : result schedule_error Z :=
  match position (teqb s) day_names with
  | Some n => Ok (Z.of_nat n)
  | None =>
      match parse_uint u32_max s with
      | Some n => if n <=? 7 then Ok n else Err Invalid
      | None => Err Invalid
      end
  end.

(** [(first..=last).step_by(step)] *)
Definition stepped (first last step : Z) : list Z :=
  map (fun i => first + step * Z.of_nat i) (seq 0 (Z.to_nat ((last - first) / step + 1))).

(** One comma-separated part: the Unix days it names. *)
Definition weekday_part (part : text) : result schedule_error (list Z) :=
  match split_once (T "/") part with
  | Some (_, s) =>
      match parse_uint usize_max s with
      | Some n => if (1 <=? n) && (n <=? 7) then Ok n else Err Invalid
      | None => Err Invalid
      end
  | None => Ok 1
  end ≫= fun step =>
  let range := match split_once (T "/") part with Some (r, _) => r | None => part end in
  (if teqb range (T "*") then Ok (0, 6)
   else match split_once (T "-") range with
        | Some (a, b) =>
            weekday_number a ≫= fun first => weekday_number b ≫= fun last => Ok (first, last)
        | None =>
            weekday_number range ≫= fun n =>
            Ok (n, if contains (T "/") part then 7 else n)
        end) ≫= fun '(first, last) =>
  if last <? first then Err Invalid else Ok (stepped first last step).

Fixpoint weekday_parts (parts : list text) : result schedule_error (list Z) :=
  match parts with
  | [] => Ok []
  | p :: ps => weekday_part p ≫= fun ds => weekday_parts ps ≫= fun rest => Ok (ds ++ rest)
  end.

(** The [BTreeSet] of cron days, in order. *)
Definition day_set (days : list Z) : list Z :=
  List.filter (fun d => existsb (fun n => n mod 7 + 1 =? d) days) [1; 2; 3; 4; 5; 6; 7].

Definition weekday_days (field : text) : result schedule_error (list Z) :=
  weekday_parts (split_on 44 (map to_ascii_upper field)) ≫= fun days =>
  if bool_decide (day_set days = []) then Err Invalid else Ok (day_set days).

Definition weekday_field (field : text) : result schedule_error text :=
  weekday_days field ≫= fun days => Ok (join (T ",") (map show_nat days)).

(** ** [ScheduleSpec::calendar], [validate] and [next] *)

(** [chrono::LocalResult] *)
Inductive LocalResult := LNone | LSingle (t : Z) | LAmbiguous (a b : Z).

(** The calendar crates.  [to_wall] is the local wall time of a UTC second
    and [utc_rfc3339] its printed form, both [None] outside of the range of
    [DateTime::from_timestamp]; [calendar_after] lists the candidates strictly
    after a wall time, [from_local] the UTC seconds of a wall time;
    [wall_label] prints a wall time to the minute and [zone_rfc3339] a UTC
    second in a zone. *)
Record Chrono := MkChrono {
  cron_schedule : Type;
  zone : Type;
  cron_from_str : text -> option cron_schedule;
  zone_parse : text -> option zone;
  to_wall : zone -> Z -> option Z;
  calendar_after : cron_schedule -> Z -> list Z;
  from_local : zone -> Z -> LocalResult;
  wall_label : Z -> text;
  zone_rfc3339 : zone -> Z -> text;
  utc_rfc3339 : Z -> option text;
}.

Section Calendar.
Context (C : Chrono) (tick : Z).

Definition calendar (spec : ScheduleSpec) : result schedule_error (cron_schedule C * zone C) :=
  match spec with
  | Interval _ => Err Invalid
  | Cron expression timezone =>
      if (256 <? byte_len expression) || (64 <? byte_len timezone) then Err Invalid else
      match split_whitespace expression with
      | [f0; f1; f2; f3; f4] =>
          if negb (teqb f2 (T "*")) && negb (teqb f4 (T "*")) then Err Invalid else
          weekday_field f4 ≫= fun weekday =>
          ok_or (cron_from_str C (T "0 " ++ f0 ++ T " " ++ f1 ++ T " " ++ f2 ++ T " " ++ f3
                                ++ T " " ++ weekday ++ T " *")) Invalid ≫= fun cal =>
          ok_or (zone_parse C timezone) Invalid ≫= fun z => Ok (cal, z)
      | _ => Err Invalid
      end
  end.

Definition validate (spec : ScheduleSpec) : result schedule_error unit :=
  match spec with
  | Interval seconds =>
      if (MIN_INTERVAL_SECS <=? seconds) && (seconds <=? MAX_INTERVAL_SECS) then Ok tt
      else Err Invalid
  | Cron _ _ => calendar spec ≫= fun _ => Ok tt
  end.

(** The earlier UTC mapping of a candidate wall time. *)
Definition first_mapping (z : zone C) (candidate : Z) : option Z :=
  match from_local C z candidate with
  | LNone => None
  | LSingle t => Some t
  | LAmbiguous a b => Some (Z.min a b)
  end.

(** The bounded scan over the candidates. *)
Fixpoint first_after (z : zone C) (after : Z) (candidates : list Z) : option (Z * Z) :=
  match candidates with
  | [] => None
  | c :: cs =>
      match first_mapping z c with
      | None => first_after z after cs
      | Some t => if t * tick <=? after then first_after z after cs else Some (c, t * tick)
      end
  end.

Definition utc_time (at_ : Z) : result schedule_error text := ok_or (utc_rfc3339 C (at_ / tick)) Invalid.

Definition next (spec : ScheduleSpec) (after anchor : Z) : result schedule_error Occurrence :=
  validate spec ≫= fun _ =>
  if (after <? 0) || (anchor <? 0) then Err Invalid else
  match spec with
  | Interval seconds =>
      let step := seconds * tick in
      let ordinal := Z.max ((after - anchor) / step) 0 + 1 in
      let at_ := anchor + ordinal * step in
      if at_ <=? after then Err Invalid
      else utc_time at_ ≫= fun shown => Ok (MkOccurrence at_ (T "interval:" ++ show_nat ordinal) shown)
  | Cron _ timezone =>
      calendar spec ≫= fun '(cal, z) =>
      ok_or (to_wall C z (after / tick)) Invalid ≫= fun wall =>
      match first_after z after (take 4096 (calendar_after C cal wall)) with
      | Some (c, at_) => Ok (MkOccurrence at_ (T "cron:" ++ timezone ++ T ":" ++ wall_label C c)
                                          (zone_rfc3339 C z (at_ / tick)))
      | None => Err Exhausted
      end
  end.
End Calendar.

(** ** Lemmas *)

Lemma position_bound f l n : position f l = Some n -> (n < length l)%nat.
Proof.
  revert n. induction l as [|x l IH]; simpl; intros n; [done|].
  destruct (f x); [intros [= <-]; lia|].
  destruct (position f l); simpl; [|done]. intros [= <-]. specialize (IH _ eq_refl). lia.
Qed.

Lemma weekday_number_bounds s n : weekday_number s = Ok n -> 0 <= n <= 7.
Proof.
  unfold weekday_number. destruct (position _ _) as [k|] eqn:E.
  - intros [= <-]. apply position_bound in E. simpl in E. lia.
  - destruct (parse_uint _ _) eqn:Ep; [|done]. apply parse_uint_bounds in Ep.
    case_match; [|done]. intros [= <-]. guards. lia.
Qed.

Lemma stepped_elem first last step n :
  first <= last -> 0 < step ->
  (n ∈ stepped first last step <-> first <= n <= last /\ (n - first) mod step = 0).
Proof.
  intros Hfl Hs. unfold stepped. rewrite list_elem_of_In, in_map_iff.
  pose proof (Z.div_pos (last - first) step ltac:(lia) Hs) as Hd.
  split.
  - intros (i & <- & Hi). apply in_seq in Hi. split.
    + assert (Z.of_nat i <= (last - first) / step) by lia.
      assert (step * ((last - first) / step) <= last - first) by (apply Z.mul_div_le; lia). nia.
    + replace (first + step * Z.of_nat i - first) with (Z.of_nat i * step) by lia.
      apply Z.mod_mul. lia.
  - intros [Hn Hm]. exists (Z.to_nat ((n - first) / step)).
    pose proof (Z.div_mod (n - first) step ltac:(lia)) as Hdm.
    pose proof (Z.div_pos (n - first) step ltac:(lia) Hs).
    split; [lia|]. apply in_seq.
    assert ((n - first) / step <= (last - first) / step) by (apply Z.div_le_mono; lia). lia.
Qed.

Section CalendarLemmas.
Context (C : Chrono) (tick : Z).

Lemma first_after_spec (z : zone C) after cs c t :
  first_after C tick z after cs = Some (c, t) ->
  exists l r m, cs = l ++ c :: r /\ first_mapping C z c = Some m /\ t = m * tick /\ after < t
    /\ Forall (fun c' => forall m', first_mapping C z c' = Some m' -> m' * tick <= after) l.
Proof.
  induction cs as [|d cs IH]; simpl; [done|].
  destruct (first_mapping C z d) as [m|] eqn:E.
  - destruct (m * tick <=? after) eqn:Ele.
    + intros H. destruct (IH H) as (l & r & m' & -> & ? & ? & ? & Hf). exists (d :: l), r, m'.
      split; [done|]. split; [done|]. split; [done|]. split; [done|]. constructor; [|done].
      intros m2 Hm2. rewrite E in Hm2. guards. done.
    + intros [= <- <-]. guards. exists [], cs, m. repeat split; [done | lia | constructor].
  - intros H. destruct (IH H) as (l & r & m' & -> & ? & ? & ? & Hf). exists (d :: l), r, m'.
    split; [done|]. split; [done|]. split; [done|]. split; [done|]. constructor; [congruence | done].
Qed.

Lemma next_cron_inv expression timezone after anchor occ :
  next C tick (Cron expression timezone) after anchor = Ok occ ->
  exists cal z wall c m, calendar C (Cron expression timezone) = Ok (cal, z)
    /\ to_wall C z (after / tick) = Some wall
    /\ c ∈ calendar_after C cal wall /\ first_mapping C z c = Some m
    /\ occ = MkOccurrence (m * tick) (T "cron:" ++ timezone ++ T ":" ++ wall_label C c)
                          (zone_rfc3339 C z (m * tick / tick))
    /\ after < m * tick.
Proof.
  unfold next, validate. intros H. apply bind_Ok_inv in H as ([] & _ & H).
  destruct (_ || _); [done|]. apply bind_Ok_inv in H as ([cal z] & Hcal & H).
  apply bind_Ok_inv in H as (wall & Hw%ok_or_Ok & H).
  destruct (first_after _ _ _ _ _) as [[c t]|] eqn:E; [|done]. injection H as <-.
  apply first_after_spec in E as (l & r & m & Hcs & Hm & -> & Hgt & _).
  exists cal, z, wall, c, m. repeat split; try done.
  eapply (subseteq_take 4096). rewrite Hcs. apply elem_of_app. right. left.
Qed.
End CalendarLemmas.

(** The least multiple of a step after [anchor] that lies after [after]. *)
Lemma next_multiple step after anchor :
  0 < step ->
  let k := Z.max ((after - anchor) / step) 0 + 1 in
  1 <= k /\ after < anchor + k * step
  /\ forall k', 1 <= k' -> after < anchor + k' * step -> k <= k'.
Proof.
  intros Hstep. simpl. pose proof (Z.div_mod (after - anchor) step ltac:(lia)) as Hdm.
  pose proof (Z.mod_pos_bound (after - anchor) step Hstep) as Hm.
  set (q := (after - anchor) / step) in *. split; [lia|].
  destruct (Z.max_spec q 0) as [[Hq ->]|[Hq ->]]; (split; [nia|]); intros k' Hk Ha; [lia | nia].
Qed.

(** ** Properties *)

(** An interval schedule never drifts and never skips: for a valid
    interval and any past time and anchor, [next] yields the least time of
    the form [anchor + k * interval], [k >= 1], that lies strictly after
    [after], printed in UTC.  It refuses exactly an interval outside of
    60..604800 seconds and a time that the calendar cannot print. *)
Theorem interval_next_exact (C : Chrono) (tick seconds after anchor : Z)
    (Htick : 0 < tick) (Hafter : 0 <= after) (Hanchor : 0 <= anchor) :
  (~ (MIN_INTERVAL_SECS <= seconds <= MAX_INTERVAL_SECS)
   /\ next C tick (Interval seconds) after anchor = Err Invalid)
  \/ exists k,
      1 <= k /\ after < anchor + k * (seconds * tick)
      /\ (forall k', 1 <= k' -> after < anchor + k' * (seconds * tick) -> k <= k')
      /\ match next C tick (Interval seconds) after anchor with
         | Ok occ =>
             MIN_INTERVAL_SECS <= seconds <= MAX_INTERVAL_SECS
             /\ at_time occ = anchor + k * (seconds * tick)
             /\ identity occ = T "interval:" ++ show_nat k
             /\ utc_rfc3339 C (at_time occ / tick) = Some (local_time occ)
         | Err e =>
             e = Invalid
             /\ utc_rfc3339 C ((anchor + k * (seconds * tick)) / tick) = None
         end.
Proof.
  unfold next, validate, MIN_INTERVAL_SECS, MAX_INTERVAL_SECS.
  destruct ((60 <=? seconds) && (seconds <=? 7 * 24 * 60 * 60)) eqn:E.
  2:{ left. split; [|done]. apply andb_false_iff in E as [E|E]; guards; lia. }
  rewrite (proj2 (Z.ltb_ge after 0)), (proj2 (Z.ltb_ge anchor 0)) by lia. cbn -[Z.mul Z.add utc_time]. guards.
  pose proof (next_multiple (seconds * tick) after anchor ltac:(nia)) as (H1 & H2 & H3).
  set (k := Z.max ((after - anchor) / (seconds * tick)) 0 + 1) in *.
  right. exists k. split; [done|]. split; [done|]. split; [done|].
  rewrite (proj2 (Z.leb_gt _ _)) by done. unfold utc_time.
  destruct (utc_rfc3339 C ((anchor + k * (seconds * tick)) / tick)) eqn:Eu; simpl; [|done].
  split_and!; done || lia.
Qed.

(** Thousandths of a second, and no cron expression known. *)
Definition interval_chrono : Chrono :=
  MkChrono unit unit (fun _ => None) (fun _ => None) (fun _ t => Some t) (fun _ _ => []) (fun _ t => LSingle t)
           (fun _ => []) (fun _ _ => []) (fun t => Some (show_nat t)).

Lemma interval_next_exact_witness :
  0 < 1000 /\ 0 <= 130500 /\
  match next interval_chrono 1000 (Interval 60) 130500 10000 with
  | Ok occ => 130500 < at_time occ /\ at_time occ = 190000 | Err _ => False end.
Proof.
  split; [lia|]. split; [lia|].
  destruct (interval_next_exact interval_chrono 1000 60 130500 10000 ltac:(lia) ltac:(lia) ltac:(lia))
    as [[H _]|(k & _ & H & _ & Hm)].
  - exfalso. apply H. split; vm_compute; discriminate.
  - revert Hm H. vm_compute. intros (_ & <- & _) H. split; [exact H | reflexivity].
Defined.

(** A calendar schedule driven by its own occurrences never fires the
    same wall time twice, so the repeated hour of a clock change fires once:
    if [next] yields an occurrence and then, asked from that occurrence,
    another one, the second is later both as an instant and as a wall time.
    The zone database is assumed to map the instant of a wall time back to
    it, and the calendar to list candidates strictly after the wall time it
    is given. *)
Theorem cron_never_repeats_wall_time (C : Chrono)
    (tick : Z) (expression timezone : text) (after anchor : Z) (occ1 occ2 : Occurrence)
    (Htick : 0 < tick)
    (Hwall : forall z c t, first_mapping C z c = Some t -> to_wall C z t = Some c)
    (Hafter : forall cal wall c, c ∈ calendar_after C cal wall -> wall < c)
    (H1 : next C tick (Cron expression timezone) after anchor = Ok occ1)
    (H2 : next C tick (Cron expression timezone) (at_time occ1) anchor = Ok occ2) :
  after < at_time occ1 < at_time occ2
  /\ exists c1 c2, c1 < c2
       /\ identity occ1 = T "cron:" ++ timezone ++ T ":" ++ wall_label C c1
       /\ identity occ2 = T "cron:" ++ timezone ++ T ":" ++ wall_label C c2.
Proof.
  apply next_cron_inv in H1 as (cal & z & w1 & c1 & m1 & Hcal & Hw1 & Hin1 & Hm1 & -> & Hgt1).
  apply next_cron_inv in H2 as (cal' & z' & w2 & c2 & m2 & Hcal' & Hw2 & Hin2 & Hm2 & -> & Hgt2).
  rewrite Hcal in Hcal'. injection Hcal' as <- <-. cbn [at_time identity] in *.
  split; [done|]. exists c1, c2. split; [|done].
  rewrite Z.div_mul, (Hwall _ _ _ Hm1) in Hw2 by lia. injection Hw2 as <-. by eapply Hafter.
Qed.

(** A zone one hour ahead of UTC and a calendar that fires on every hour. *)
Definition hourly_chrono : Chrono :=
  MkChrono unit unit (fun _ => Some tt) (fun _ => Some tt) (fun _ t => Some (t + 3600))
           (fun _ w => [(w / 3600 + 1) * 3600]) (fun _ c => LSingle (c - 3600)) show_nat
           (fun _ t => show_nat t) (fun t => Some (show_nat t)).

Lemma cron_never_repeats_wall_time_witness :
  let nx := next hourly_chrono 1 (Cron (T "0 * * * 1-5") (T "X")) in
  exists occ1 occ2, nx 10 0 = Ok occ1 /\ nx (at_time occ1) 0 = Ok occ2
                    /\ at_time occ1 = 3600 /\ 10 < at_time occ1 < at_time occ2.
Proof.
  intros nx. eexists _, _.
  assert (H1 : nx 10 0 = Ok (MkOccurrence 3600 (T "cron:X:7200") (T "3600"))) by (vm_compute; reflexivity).
  assert (H2 : nx 3600 0 = Ok (MkOccurrence 7200 (T "cron:X:10800") (T "7200"))) by (vm_compute; reflexivity).
  split; [exact H1|]. split; [exact H2|]. split; [reflexivity|].
  subst nx. simple refine (proj1 (cron_never_repeats_wall_time hourly_chrono _ _ _ _ _ _ _ _ _ _ H1 H2)).
  - lia.
  - intros z c t [= <-]. simpl. f_equal. lia.
  - intros cal wall c Hc. apply list_elem_of_singleton in Hc as ->.
    pose proof (Z.div_mod wall 3600). pose proof (Z.mod_pos_bound wall 3600). lia.
Defined.

(** The weekday field reads Unix days (0 and 7 are Sunday) into the
    calendar's own numbering: every numeric range [a-b] with a step [s]
    yields exactly the days [n mod 7 + 1] of the [n] in [a..b] that the step
    selects, in increasing order, and a range that runs backwards is refused. *)
Theorem weekday_ranges_exact (a b s : Z) (Ha : 0 <= a <= 7) (Hb : 0 <= b <= 7) (Hs : 1 <= s <= 7) :
  weekday_days (show_nat a ++ T "-" ++ show_nat b ++ T "/" ++ show_nat s)
  = if b <? a then Err Invalid
    else Ok (List.filter (fun d => existsb (fun n => (a <=? n) && (n <=? b) && ((n - a) mod s =? 0)
                                                     && (n mod 7 + 1 =? d)) [0; 1; 2; 3; 4; 5; 6; 7])
                         [1; 2; 3; 4; 5; 6; 7]).
Proof.
  assert (Hx : forall x, 0 <= x <= 7 -> In x [0; 1; 2; 3; 4; 5; 6; 7]) by (intros; simpl; lia).
  pose proof (Hx a Ha) as Ia. pose proof (Hx b Hb) as Ib. pose proof (Hx s ltac:(lia)) as Is.
  clear Hx Ha Hb. simpl in Ia, Ib, Is.
  destruct Is as [<-|Is]; [lia|]. clear Hs.
  repeat (destruct Ia as [<-|Ia]; [|]); try done;
    repeat (destruct Ib as [<-|Ib]; [|]); try done;
    repeat (destruct Is as [<-|Is]; [vm_compute; reflexivity|]); done.
Qed.

Lemma weekday_ranges_exact_witness :
  0 <= 5 <= 7 /\ weekday_days (T "5-7/1") = Ok [1; 6; 7].
Proof.
  split; [lia|]. change (T "5-7/1") with (show_nat 5 ++ T "-" ++ show_nat 7 ++ T "/" ++ show_nat 1).
  rewrite (weekday_ranges_exact 5 7 1) by lia. vm_compute. reflexivity.
Defined.
