(* ===== verification/Glob.v ===== *)
(** The single-wildcard matcher of [agentic/real_repo_loop.rs]
    ([star_glob]) and the read deny-list built on it. *)

From S2P Require Import Prelude Text RepoPaths.
Local Open Scope Z_scope.

(** [str::as_bytes]: the UTF-8 encoding of a scalar value. *)
Definition utf8_char (c : char) : list Z :=
  if c <? 128 then [c]
  else if c <? 2048 then [192 + c / 64; 128 + c mod 64]
  else if c <? 65536 then [224 + c / 4096; 128 + (c / 64) mod 64; 128 + c mod 64]
  else [240 + c / 262144; 128 + (c / 4096) mod 64; 128 + (c / 64) mod 64; 128 + c mod 64].
Definition as_bytes (s : text) : list Z := concat (map utf8_char s).

Definition c_star : Z := 42.

(** The loop of [star_glob].  [n] and [p] are what is left of the name and of
    the pattern ([ni], [pi]); [star] holds the suffixes to restart from
    ([star_ni], [star_pi]). *)
Fixpoint star_glob_loop (fuel : nat) (n p : list Z) (star : option (list Z * list Z)) : option bool :=
  match fuel with
  | O => None
  | S fuel' =>
      match n with
      | [] => Some (forallb (fun c => c =? c_star) p)
      | c :: n' =>
          match p with
          | d :: p' =>
              if d =? c_star then star_glob_loop fuel' n p' (Some (n, p'))
              else if d =? c then star_glob_loop fuel' n' p' star
              else match star with
                   | Some (_ :: sn, sp) => star_glob_loop fuel' sn sp (Some (sn, sp))
                   | _ => Some false
                   end
          | [] =>
              match star with
              | Some (_ :: sn, sp) => star_glob_loop fuel' sn sp (Some (sn, sp))
              | _ => Some false
              end
          end
      end
  end.

Definition glob_fuel (name pattern : list Z) : nat :=
  (S (length name) * S (length pattern) + S (length pattern) + 1)%nat.

Definition star_glob (name pattern : list Z) : bool :=
  default false (star_glob_loop (glob_fuel name pattern) name pattern None).

(** What the pattern means: a star stands for any sequence. *)
Inductive matches : list Z -> list Z -> Prop :=
| m_nil : matches [] []
| m_lit c n p : c <> c_star -> matches n p -> matches (c :: n) (c :: p)
| m_star_none n p : matches n p -> matches n (c_star :: p)
| m_star_one c n p : matches n (c_star :: p) -> matches (c :: n) (c_star :: p).

(** ** Lemmas *)

Definition star_free (l : list Z) : Prop := Forall (fun c => c <> c_star) l.

Lemma matches_star_app m n p : matches n (c_star :: p) -> matches (m ++ n) (c_star :: p).
Proof. induction m; simpl; [done|]. intros. apply m_star_one. auto. Qed.

Lemma matches_star_inv n p : matches n (c_star :: p) -> exists m n', n = m ++ n' /\ matches n' p.
Proof.
  remember (c_star :: p) as q eqn:E. intros H. revert p E.
  induction H as [|c n p Hc Hm IH|n p Hm IH|c n p Hm IH]; intros q E; simplify_eq.
  - exists [], n. done.
  - destruct (IH _ eq_refl) as (m & n' & -> & ?). exists (c :: m), n'. done.
Qed.

Lemma matches_lit_inv lit n p :
  star_free lit -> matches n (lit ++ p) -> exists m, n = lit ++ m /\ matches m p.
Proof.
  intros Hl. revert n. induction Hl as [|c lit Hc Hl IH]; simpl; intros n H; [eauto|].
  inversion H; subst; try done. destruct (IH _ ltac:(eassumption)) as (m & -> & ?). eauto.
Qed.

Lemma matches_nil_l p : matches [] p <-> forallb (fun c => c =? c_star) p = true.
Proof.
  split.
  - remember [] as n eqn:E. intros H. induction H; simpl; simplify_eq; auto.
  - induction p as [|c p IH]; simpl; intros H; [constructor|].
    apply andb_true_iff in H as [Hc H]. apply Z.eqb_eq in Hc as ->. by apply m_star_none, IH.
Qed.

(** The restart point, and what was matched literally since. *)
Definition star_state (n p : list Z) (star : option (list Z * list Z)) : Prop :=
  match star with
  | None => True
  | Some (sn, sp) => exists lit, star_free lit /\ sp = lit ++ p /\ sn = lit ++ n
  end.

(** The matches still possible: from here, or from a later restart. *)
Definition possible (n p : list Z) (star : option (list Z * list Z)) : Prop :=
  matches n p
  \/ match star with
     | None => False
     | Some (sn, sp) => exists k, (1 <= k <= length sn)%nat /\ matches (drop k sn) sp
     end.

Definition glob_measure (bound : nat) (name : list Z) (p : list Z) (star : option (list Z * list Z)) : nat :=
  (match star with None => S (length name) | Some (sn, _) => length sn end * S bound + length p)%nat.

(** A new star makes every earlier restart unnecessary. *)
Lemma new_star_subsumes n p sn sp :
  star_state n (c_star :: p) (Some (sn, sp)) ->
  (exists k, (1 <= k <= length sn)%nat /\ matches (drop k sn) sp) -> matches n (c_star :: p).
Proof.
  intros (lit & Hl & -> & ->) (k & Hk & Hm).
  destruct (matches_lit_inv _ _ _ Hl Hm) as (m & Hd & Hm').
  assert (Hsuf : exists pre, n = pre ++ m).
  { rewrite length_app in Hk.
    assert (Hlen : length (drop k (lit ++ n)) = length (lit ++ m)) by congruence.
    rewrite length_drop, !length_app in Hlen.
    exists (take (length n - length m) n).
    rewrite <- (take_drop (length n - length m) n) at 1. f_equal.
    assert (drop (length lit) (drop k (lit ++ n)) = m) as <-.
    { rewrite Hd. apply drop_app_length. }
    rewrite drop_drop, drop_app.
    rewrite (drop_ge lit) by lia. simpl. f_equal. rewrite !length_drop, length_app in Hlen. rewrite length_drop. lia. }
  destruct Hsuf as [pre ->]. by apply matches_star_app.
Qed.

Lemma possible_restart n p c sn sp :
  star_state n p (Some (c :: sn, sp)) -> ~ matches n p ->
  (possible n p (Some (c :: sn, sp)) <-> possible sn sp (Some (sn, sp))).
Proof.
  intros _ Hn. unfold possible. simpl. split.
  - intros [?|(k & Hk & Hm)]; [done|]. destruct k as [|[|k]]; [lia | by left |].
    right. exists (S k). simpl in Hm. split; [lia | done].
  - intros [Hm|(k & Hk & Hm)]; right; [exists 1%nat; split; [lia|done]|].
    exists (S k). split; [lia | done].
Qed.

Lemma star_glob_loop_correct bound fuel name n p star :
  (length p <= bound)%nat ->
  match star with None => length n <= length name | Some (_, sp) => length sp <= bound end%nat ->
  star_state n p star ->
  (glob_measure bound name p star < fuel)%nat ->
  exists b, star_glob_loop fuel n p star = Some b /\ (b = true <-> possible n p star).
Proof.
  revert n p star. induction fuel as [|fuel IH]; intros n p star Hp Hs Hst Hf; [lia|].
  assert (Hrestart : ~ matches n p -> n <> [] ->
    exists b, match star with
              | Some (_ :: sn, sp) => star_glob_loop fuel sn sp (Some (sn, sp))
              | _ => Some false
              end = Some b /\ (b = true <-> possible n p star)).
  { intros Hn Hne. destruct star as [[[|c sn] sp]|].
    - destruct Hst as (lit & _ & _ & Happ). symmetry in Happ. by apply app_nil in Happ as [_ ->].
    - destruct (IH sn sp (Some (sn, sp))) as (b & Hb & Hiff); [done | done | | |].
      + exists []. split; [constructor | done].
      + unfold glob_measure in *. simpl in Hf. nia.
      + exists b. split; [done|]. rewrite Hiff. symmetry. by apply possible_restart.
    - exists false. split; [done|]. split; [done|]. intros [?|[]]; done. }
  simpl. destruct n as [|c n].
  - eexists. split; [done|]. rewrite <- matches_nil_l. split; [by left|]. intros [?|Hk]; [done|].
    destruct star as [[sn sp]|]; [|done].
    destruct Hst as (lit & Hl & -> & ->). destruct Hk as (k & Hk & Hm).
    rewrite app_nil_r in *. destruct (matches_lit_inv _ _ _ Hl Hm) as (m & Hd & _).
    assert (Hlen : length (drop k lit) = length (lit ++ m)) by congruence.
    rewrite length_drop, length_app in Hlen. lia.
  - destruct p as [|d p].
    + apply Hrestart; [inversion 1 | done].
    + destruct (Z.eqb_spec d c_star) as [->|Hd]; [|destruct (Z.eqb_spec d c) as [->|Hdc]].
      * destruct (IH (c :: n) p (Some (c :: n, p))) as (b & Hb & Hiff).
        -- simpl in Hp. lia.
        -- simpl in Hp. lia.
        -- exists []. split; [constructor | done].
        -- destruct star as [[sn sp]|]; unfold glob_measure in *; simpl in *.
           ++ destruct Hst as (lit & _ & -> & ->). rewrite length_app in Hf. simpl in Hf. nia.
           ++ nia.
        -- exists b. split; [done|]. rewrite Hiff. split.
           ++ intros Hpos. left. destruct Hpos as [Hm|(k & Hk & Hm)].
              ** by apply m_star_none.
              ** rewrite <- (take_drop k (c :: n)). by apply matches_star_app, m_star_none.
           ++ intros Hpos. assert (Hm : matches (c :: n) (c_star :: p)).
              { destruct Hpos as [Hm|Hk]; [done|]. destruct star as [[sn sp]|]; [|done].
                by eapply new_star_subsumes. }
              destruct (matches_star_inv _ _ Hm) as (m & n' & Heq & Hm').
              destruct m as [|e m]; [left; by rewrite Heq|]. right. exists (length (e :: m)).
              rewrite Heq, drop_app_length, length_app. simpl. split; [lia | done].
      * destruct (IH n p star) as (b & Hb & Hiff).
        -- simpl in Hp. lia.
        -- destruct star as [[? ?]|]; simpl in *; lia.
        -- destruct star as [[sn sp]|]; [|done]. destruct Hst as (lit & Hl & -> & ->).
           exists (lit ++ [c]). rewrite <- !app_assoc. split; [|done].
           apply Forall_app. split; [done|]. by constructor.
        -- unfold glob_measure in *. simpl in Hf. lia.
        -- exists b. split; [done|]. rewrite Hiff. unfold possible.
           assert (Hmm : matches (c :: n) (c :: p) <-> matches n p).
           { split; [by inversion 1|]. by apply m_lit. }
           by rewrite Hmm.
      * apply Hrestart; [by inversion 1 | done].
Qed.

(** The greedy matcher is the wildcard: for every name and pattern,
    [star_glob] terminates within its bound and answers true exactly when the
    pattern matches the whole name with each star standing for any sequence;
    forgetting all but the last star loses nothing. *)
Theorem star_glob_is_wildcard (name pattern : list Z) :
  star_glob name pattern = true <-> matches name pattern.
Proof.
  unfold star_glob, glob_fuel.
  destruct (star_glob_loop_correct (length pattern)
              (S (length name) * S (length pattern) + S (length pattern) + 1) name name pattern None)
    as (b & -> & Hiff); [done | done | done | unfold glob_measure; lia |].
  simpl. rewrite Hiff. unfold possible. tauto.
Qed.
