(* ===== verification/ReadRequests.v ===== *)
(** What a planner may ask to read, and what it may not write:
    [extract_read_requests], [denied_read_basename],
    [apply_model_read_request] and [matches_protected_path] of
    [agentic/real_repo_loop.rs]. *)

From S2P Require Import Prelude Text RepoPaths Glob.
Local Open Scope Z_scope.

Definition MAX_MODEL_READ_REQUESTS : nat := 6.

(** ** [extract_read_requests] *)

Inductive block_state := Top | InFile | InEdits.

Definition read_selector (trimmed : text) : option text :=
  match strip_prefix (T "=== READ ") trimmed with
  | None => None
  | Some s => match strip_suffix (T " ===") s with
              | None => None
              | Some sel => if teqb (trim sel) [] then None else Some (trim sel)
              end
  end.

(** One line: the next state, the line if it is kept, the selector if it is a
    read request. *)
Definition extract_line (st : block_state) (line : text) : block_state * option text * option text :=
  let trimmed := trim line in
  match st with
  | InFile => (if teqb trimmed (T "=== END FILE ===") then Top else InFile, Some line, None)
  | InEdits => (if teqb trimmed (T "=== END EDITS ===") then Top else InEdits, Some line, None)
  | Top =>
      if starts_with (T "=== FILE ") trimmed && ends_with (T " ===") trimmed then (InFile, Some line, None)
      else if teqb trimmed (T "=== EDITS ===") then (InEdits, Some line, None)
      else match read_selector trimmed with
           | Some sel => (Top, None, Some sel)
           | None => (Top, Some line, None)
           end
  end.

Fixpoint extract_lines (st : block_state) (ls : list text) : list text * list text :=
  match ls with
  | [] => ([], [])
  | l :: ls' =>
      let '(st', kept, sel) := extract_line st l in
      let '(ks, rs) := extract_lines st' ls' in
      ((match kept with Some k => k :: ks | None => ks end),
       (match sel with Some r => r :: rs | None => rs end))
  end.

Definition extract_read_requests (response : text) : text * list text :=
  let '(kept, reads) := extract_lines Top (lines response) in
  (join [c_newline] kept, reads).

(** ** Deny-list and protected paths *)

Definition last_segment (s : text) : text := default [] (last (split_on c_slash s)).

Definition selector_path_part (selector : text) : text :=
  match rsplit_once (T "#L") selector with Some (path, _) => path | None => selector end.

(** [prefix.trim_end_matches('/')] *)
Definition trim_slashes (s : text) : text := trim_end (fun c => c =? c_slash) s.

Section Policy.
Context (lower nfkc : text -> text).

Definition denied_read_basename (canonical_path : text) (patterns : list text) : bool :=
  if teqb canonical_path [] || bool_decide (patterns = []) then false
  else
    let basename := last_segment (fs_equiv_path lower nfkc canonical_path) in
    if teqb basename [] then false
    else existsb (fun pat =>
           if teqb pat [] then false
           else star_glob (as_bytes basename)
                          (as_bytes (last_segment (fs_equiv_path lower nfkc pat)))) patterns.

Definition matches_prefix (path_n prefix : text) : bool :=
  let is_dir := ends_with [c_slash] prefix in
  let pref_n := fs_equiv_path lower nfkc (if is_dir then trim_slashes prefix else prefix) in
  if teqb pref_n [] then false
  else if is_dir then teqb path_n pref_n || starts_with (pref_n ++ [c_slash]) path_n
  else teqb path_n pref_n || ends_with (c_slash :: pref_n) path_n.

Definition matches_protected_path (path : text) (protected_prefixes : list text) : bool :=
  let path_n := fs_equiv_path lower nfkc path in
  if teqb path_n [] then false else existsb (matches_prefix path_n) protected_prefixes.

Definition sensitive_read_reason (raw_selector : text) (denied : list text) : bool :=
  match canonical_repo_relative_path (selector_path_part raw_selector) with
  | Some canonical => denied_read_basename canonical denied
  | None => false
  end.

(** ** [apply_model_read_request] *)

Inductive refusal := CloudProposer | InvalidSelector | SensitiveBasename | OperatorSelector | Cap.
Inductive disposition :=
| Accepted (path : text) (replaced : bool)
| Ignored
| Refused (reason : refusal).

Definition selector_path (s : text) : option text :=
  canonical_repo_relative_path (selector_path_part s).

Fixpoint position_path (canonical : text) (paths : list text) : option nat :=
  match paths with
  | [] => None
  | p :: ps => if bool_decide (selector_path p = Some canonical) then Some O
               else S <$> position_path canonical ps
  end.

Definition apply_model_read_request (read_paths : list text) (operator_count : nat)
    (raw_selector : text) (allow_model_reads : bool) (denied : list text)
    : list text * disposition :=
  if negb allow_model_reads then (read_paths, Refused CloudProposer) else
  let path_part := selector_path_part raw_selector in
  match canonical_repo_relative_path path_part with
  | None => (read_paths, Refused InvalidSelector)
  | Some canonical =>
      if denied_read_basename canonical denied then (read_paths, Refused SensitiveBasename) else
      let selector := replace_first path_part canonical raw_selector in
      if bool_decide (selector ∈ read_paths) then (read_paths, Ignored) else
      match position_path canonical read_paths with
      | Some idx =>
          if (idx <? operator_count)%nat then (read_paths, Refused OperatorSelector)
          else (<[idx := selector]> read_paths, Accepted canonical true)
      | None =>
          if (MAX_MODEL_READ_REQUESTS <=? length read_paths - operator_count)%nat
          then (read_paths, Refused Cap)
          else (read_paths ++ [selector], Accepted canonical false)
      end
  end.

(** The requests of one or more responses, in order. *)
Fixpoint apply_requests (read_paths : list text) (operator_count : nat) (raws : list text)
    (allow_model_reads : bool) (denied : list text) : list text :=
  match raws with
  | [] => read_paths
  | r :: rs => apply_requests
                 (fst (apply_model_read_request read_paths operator_count r allow_model_reads denied))
                 operator_count rs allow_model_reads denied
  end.
End Policy.

(** ** Lemmas *)

(** In a block every line is kept until the closing marker. *)
Lemma extract_in_block st close body ls :
  (st = InFile /\ close = T "=== END FILE ===") \/ (st = InEdits /\ close = T "=== END EDITS ===") ->
  Forall (fun l => trim l <> close) body ->
  forall last, trim last = close ->
  extract_lines st (body ++ last :: ls)
  = (body ++ last :: fst (extract_lines Top ls), snd (extract_lines Top ls)).
Proof.
  intros Hst Hb last Hl. induction Hb as [|l body Hn Hb IH].
  - assert (Hone : extract_line st last = (Top, Some last, None)).
    { destruct Hst as [[-> ->]|[-> ->]]; simpl; by rewrite Hl, teqb_refl. }
    cbn [app extract_lines]. rewrite Hone. by destruct (extract_lines Top ls).
  - assert (Hone : extract_line st l = (st, Some l, None)).
    { destruct Hst as [[-> ->]|[-> ->]]; simpl; by rewrite (proj2 (teqb_neq _ _) Hn). }
    cbn [app extract_lines]. rewrite Hone, IH. done.
Qed.

Lemma position_path_Some canonical paths i :
  position_path canonical paths = Some i ->
  exists p, paths !! i = Some p /\ selector_path p = Some canonical.
Proof.
  revert i. induction paths as [|p paths IH]; simpl; intros i; [done|].
  case_bool_decide as Hp.
  - intros [= <-]. simpl. eauto.
  - destruct (position_path canonical paths) as [j|]; simpl; [|done].
    intros [= <-]. simpl. auto.
Qed.

(** The state the scan is in after some lines. *)
Definition state_after (st : block_state) (ls : list text) : block_state :=
  fold_left (fun st l => fst (fst (extract_line st l))) ls st.

Lemma extract_lines_app st ls ls' :
  extract_lines st (ls ++ ls')
  = (fst (extract_lines st ls) ++ fst (extract_lines (state_after st ls) ls'),
     snd (extract_lines st ls) ++ snd (extract_lines (state_after st ls) ls')).
Proof.
  revert st. induction ls as [|l ls IH]; intros st.
  - simpl. by destruct (extract_lines st ls').
  - cbn [app extract_lines]. destruct (extract_line st l) as [[st1 kept] sel] eqn:E.
    change (state_after st (l :: ls)) with (state_after (fst (fst (extract_line st l))) ls).
    rewrite E, IH. simpl. destruct (extract_lines st1 ls) as [ks rs]. simpl.
    by destruct kept, sel.
Qed.

Section RequestInvariant.
Context (lower nfkc : text -> text) (operator : list text) (denied : list text).

Definition model_selector (raws : list text) (s : text) : Prop :=
  exists raw c, raw ∈ raws /\ selector_path raw = Some c
                /\ denied_read_basename lower nfkc c denied = false
                /\ s = replace_first (selector_path_part raw) c raw.

Definition requests_ok (raws read_paths : list text) : Prop :=
  exists model, read_paths = operator ++ model /\ (length model <= MAX_MODEL_READ_REQUESTS)%nat
                /\ Forall (model_selector raws) model.

Lemma model_selector_weaken raws raws' s :
  raws ⊆ raws' -> model_selector raws s -> model_selector raws' s.
Proof. intros Hs (raw & c & Hin & H). exists raw, c. split; [by apply Hs | done]. Qed.

Lemma requests_ok_step raws read_paths raw allow :
  requests_ok raws read_paths ->
  requests_ok (raws ++ [raw])
    (fst (apply_model_read_request lower nfkc read_paths (length operator) raw allow denied)).
Proof.
  intros (model & -> & Hlen & Hm).
  assert (Hkeep : requests_ok (raws ++ [raw]) (operator ++ model)).
  { exists model. split; [done|]. split; [done|]. eapply Forall_impl; [exact Hm|].
    intros s. apply model_selector_weaken. set_solver. }
  unfold apply_model_read_request. destruct allow; [|done]. cbn [negb].
  destruct (canonical_repo_relative_path (selector_path_part raw)) as [c|] eqn:Hc; [|done].
  destruct (denied_read_basename _ _ c denied) eqn:Hd; [done|].
  case_bool_decide; [done|].
  set (sel := replace_first (selector_path_part raw) c raw).
  assert (Hsel : model_selector (raws ++ [raw]) sel) by (exists raw, c; set_solver).
  destruct Hkeep as (model' & Heq & _ & Hm'). apply app_inv_head in Heq as <-.
  destruct (position_path c (operator ++ model)) as [i|] eqn:Hi.
  - destruct (Nat.ltb_spec i (length operator)); simpl.
    + exists model. done.
    + rewrite insert_app_r_alt by done. eexists. split; [done|]. rewrite length_insert.
      split; [done|]. by apply Forall_insert.
  - rewrite length_app. replace (length operator + length model - length operator)%nat
      with (length model) by lia.
    destruct (Nat.leb_spec MAX_MODEL_READ_REQUESTS (length model)); simpl.
    + exists model. done.
    + rewrite <- app_assoc. eexists. split; [done|]. rewrite length_app. simpl.
      split; [lia|]. apply Forall_app. split; [done|]. by repeat constructor.
Qed.

Lemma requests_ok_all raws done_ read_paths allow :
  requests_ok done_ read_paths ->
  requests_ok (done_ ++ raws)
    (apply_requests lower nfkc read_paths (length operator) raws allow denied).
Proof.
  revert done_ read_paths. induction raws as [|raw raws IH]; intros dn rp H; simpl.
  - by rewrite app_nil_r.
  - change (raw :: raws) with ([raw] ++ raws). rewrite app_assoc. apply IH.
    by apply requests_ok_step.
Qed.

Lemma apply_requests_cloud raws read_paths :
  apply_requests lower nfkc read_paths (length operator) raws false denied = read_paths.
Proof. induction raws; simpl; done. Qed.
End RequestInvariant.

(** ** Properties *)

(** A proposal that documents the read protocol is applied as written:
    within a complete FILE or EDITS block every line is kept, READ markers
    included, none of them is taken for a request, and the lines around the
    block are treated as if the block were absent. *)
Theorem blocks_are_transparent (pre body post : list text) (header last : text) (file : bool)
    (Hpre : state_after Top pre = Top)
    (Hheader : fst (fst (extract_line Top header)) = if file then InFile else InEdits)
    (Hbody : Forall (fun l => trim l <> if file then T "=== END FILE ===" else T "=== END EDITS ===") body)
    (Hlast : trim last = if file then T "=== END FILE ===" else T "=== END EDITS ===") :
  extract_lines Top (pre ++ header :: body ++ last :: post)
  = (fst (extract_lines Top pre) ++ header :: body ++ last :: fst (extract_lines Top post),
     snd (extract_lines Top (pre ++ post))).
Proof.
  assert (Hone : extract_line Top header = (if file then InFile else InEdits, Some header, None)).
  { unfold extract_line in *. repeat case_match; simplify_eq/=; done. }
  assert (Hblock : extract_lines Top (header :: body ++ last :: post)
    = (header :: body ++ last :: fst (extract_lines Top post), snd (extract_lines Top post))).
  { cbn [extract_lines]. rewrite Hone.
    rewrite (extract_in_block _ (if file then T "=== END FILE ===" else T "=== END EDITS ===")); [done | | done..].
    destruct file; auto. }
  rewrite !extract_lines_app, Hpre, Hblock. reflexivity.
Qed.

Lemma blocks_are_transparent_witness :
  state_after Top [T "=== READ a ==="] = Top
  /\ extract_lines Top [T "=== READ a ==="; T "=== FILE d.md ==="; T "=== READ b ===";
                        T "=== END FILE ==="; T " === READ c === "]
     = ([T "=== FILE d.md ==="; T "=== READ b ==="; T "=== END FILE ==="], [T "a"; T "c"]).
Proof.
  split; [vm_compute; reflexivity|].
  pose proof (blocks_are_transparent [T "=== READ a ==="] [T "=== READ b ==="] [T " === READ c === "]
    (T "=== FILE d.md ===") (T "=== END FILE ===") true) as H.
  simpl app in H. rewrite H; [vm_compute; reflexivity | vm_compute; reflexivity | vm_compute; reflexivity
    | constructor; [vm_compute; discriminate | constructor] | vm_compute; reflexivity].
Defined.

(** Whatever a planner asks for over a whole run, the operator's own
    selectors stay first and unchanged, at most six model selectors follow
    them, each names a canonical path inside the clone whose basename is not
    denied, and a cloud proposer adds none. *)
Theorem model_reads_bounded_and_jailed
    (lower nfkc : text -> text) (operator raws denied : list text) (allow : bool) :
  let result := apply_requests lower nfkc operator (length operator) raws allow denied in
  (exists model, result = operator ++ model /\ (length model <= 6)%nat
     /\ Forall (fun s => exists raw c, raw ∈ raws /\ selector_path raw = Some c
                  /\ denied_read_basename lower nfkc c denied = false
                  /\ s = replace_first (selector_path_part raw) c raw) model)
  /\ (allow = false -> result = operator).
Proof.
  simpl. split; [|intros ->; apply apply_requests_cloud].
  apply (requests_ok_all lower nfkc operator denied raws [] operator allow).
  exists []. rewrite app_nil_r. simpl. split; [done|]. split; [lia | constructor].
Qed.
