(* ===== verification/Edits.v ===== *)
(** Bounded snapshots and proposals: [agentic/edits.rs] ([collect_checked],
    [parse]) and [parse_file_blocks] of [agentic/real_repo_loop.rs].

    Parameters: [sha256_hex] (the crate [sha2]), [parse_exact] ([serde_json]
    on the body of an EDITS response) and [read_file], the jailed read of the
    clone.  The regular expression of a FILE block is written out as the
    function [file_block_at]: the path is everything between the marker and
    the last [ ===] of its line, the body the shortest text before the closing
    marker. *)

From S2P Require Import Prelude Text RepoPaths ReadRequests.
Local Open Scope Z_scope.

Definition MAX_READ_FILE_CHARS : Z := 4000.
Definition MAX_TOTAL_READ_CHARS : Z := 12000.

Record Snapshot := MkSnapshot { original : text; visible : text; complete : bool }.
Record ReadContext := MkContext { rendered : text; snapshots : gmap text Snapshot }.
Record ExactEdit := MkEdit { e_path : text; e_sha256 : text; e_old : text; e_new : text }.
Record Proposal := MkProposal {
  files : gmap text text;
  originals : gmap text (option text);  (* [None]: the destination must still be absent *)
}.

(** [Iterator::take] and [skip] with a [usize] count. *)
Fixpoint ztake {A} (n : Z) (l : list A) : list A :=
  match l with [] => [] | x :: l' => if n <=? 0 then [] else x :: ztake (n - 1) l' end.
Fixpoint zskip {A} (n : Z) (l : list A) : list A :=
  match l with [] => [] | x :: l' => if n <=? 0 then l else zskip (n - 1) l' end.
Definition clip_chars (s : text) (max : Z) : text := ztake max s.

(** ** [collect_checked] *)

Definition select_lines (selector : text) : option (text * Z * Z) :=
  match rsplit_once (T "#L") selector with
  | Some (path, range) =>
      match split_once (T "-L") range with
      | Some (a, b) =>
          match parse_uint usize_max a, parse_uint usize_max b with
          | Some s, Some e => Some (path, s, e)
          | _, _ => None
          end
      | None => None
      end
  | None => Some (selector, 1, usize_max)
  end.

Definition selection (selector : text) : option (text * Z * Z) :=
  match select_lines selector with
  | Some (path, s, e) =>
      if (s =? 0) || (e <? s) then None
      else match canonical_repo_relative_path path with
           | Some p => Some (p, s, e)
           | None => None
           end
  | None => None
  end.

Section Edits.
Context (lower nfkc : text -> text) (sha256_hex : text -> text).
Context (read_file : text -> option text).
Context (parse_exact : text -> option (list ExactEdit)).

Definition omitted (selector why : text) : text := T "[" ++ selector ++ T " omitted: " ++ why ++ T "]".

Definition render_snapshot (path hash selector : text) (s : Snapshot) : text :=
  T "--- EXISTING FILE: " ++ path ++ T " ---" ++ [c_newline] ++ T "sha256: " ++ hash ++ [c_newline]
  ++ T "selection: " ++ selector ++ T "; complete: " ++ (if complete s then T "true" else T "false")
  ++ [c_newline] ++ visible s ++ [c_newline] ++ T "--- END EXISTING FILE ---"
  ++ (if complete s then [] else c_newline :: T "[omitted or truncated context: use exact edits only]").

(** One selector: what is rendered, the snapshot taken, the budget left. *)
Definition collect_one (expected : gmap text text) (remaining : Z) (snaps : gmap text Snapshot)
    (selector : text) : option text * option (text * Snapshot) * Z :=
  if remaining =? 0
  then (Some (omitted selector (T "total context budget reached")), None, remaining)
  else match selection selector with
  | None => (Some (omitted selector (T "invalid line selector")), None, remaining)
  | Some (path, s, e) =>
      if bool_decide (is_Some (snaps !! path))
      then (Some (omitted selector (T "select one window per file")), None, remaining)
      else match read_file path with
      | None => (Some (omitted selector (T "unreadable, unsafe, or larger than file-read ceiling")), None, remaining)
      | Some orig =>
          let hash := sha256_hex orig in
          if match expected !! path with Some h => negb (teqb h hash) | None => false end
          then (None, None, remaining)
          else
            let window := concat (ztake (e - s + 1) (zskip (s - 1) (split_inclusive c_newline orig))) in
            let vis := clip_chars window (Z.min MAX_READ_FILE_CHARS remaining) in
            if teqb vis [] && negb (teqb orig [])
            then (Some (omitted selector (T "selected lines are empty")), None, remaining)
            else
              let snap := MkSnapshot orig vis (teqb vis orig) in
              (Some (render_snapshot path hash selector snap), Some (path, snap),
               Z.max 0 (remaining - Z.of_nat (length vis)))
      end
  end.

Fixpoint collect_all (expected : gmap text text) (remaining : Z) (snaps : gmap text Snapshot)
    (selectors : list text) : list text * gmap text Snapshot :=
  match selectors with
  | [] => ([], snaps)
  | sel :: sels =>
      let '(out, snap, remaining') := collect_one expected remaining snaps sel in
      let snaps' := match snap with Some (p, s) => <[p := s]> snaps | None => snaps end in
      let '(outs, final) := collect_all expected remaining' snaps' sels in
      ((match out with Some o => o :: outs | None => outs end), final)
  end.

Definition collect_checked (selectors : list text) (expected : gmap text text) (max_chars : Z) : ReadContext :=
  let '(outs, snaps) := collect_all expected (Z.min max_chars MAX_TOTAL_READ_CHARS) ∅ selectors in
  MkContext (join [c_newline; c_newline] outs) snaps.

Definition collect (selectors : list text) : ReadContext :=
  collect_checked selectors ∅ MAX_TOTAL_READ_CHARS.

(** ** [parse_file_blocks] *)

Definition file_open : text := T "=== FILE ".
Definition file_close : text := T "=== END FILE ===".

(** A match of the block expression that starts here: the raw path, the
    body, and the text after the block. *)
Definition file_block_at (s : text) : option (text * text * text) :=
  match strip_prefix file_open s with
  | None => None
  | Some r =>
      match split_once [c_newline] r with
      | None => None
      | Some (line, rest) =>
          match strip_suffix (T " ===") line with
          | None => None
          | Some path =>
              if teqb path [] then None
              else match split_once (c_newline :: file_close) rest with
                   | None => None
                   | Some (body, after) => Some (path, body, after)
                   end
          end
      end
  end.

(** [captures_iter] with what [replace_all(_, "")] leaves. *)
Fixpoint scan_blocks (fuel : nat) (s : text) : list (text * text) * text :=
  match fuel with
  | O => ([], s)
  | S fuel' =>
      match s with
      | [] => ([], [])
      | c :: s' =>
          match file_block_at s with
          | Some (path, body, after) =>
              let '(bs, residue) := scan_blocks fuel' after in ((path, body) :: bs, residue)
          | None => let '(bs, residue) := scan_blocks fuel' s' in (bs, c :: residue)
          end
      end
  end.

(** [text.replace("\r\n", "\n")] *)
Fixpoint normalize_crlf (s : text) : text :=
  match s with
  | [] => []
  | c :: s' =>
      match s' with
      | d :: _ => if (c =? c_cr) && (d =? c_newline) then normalize_crlf s' else c :: normalize_crlf s'
      | [] => [c]
      end
  end.

Definition block_path (raw : text) : text :=
  let raw := trim raw in default raw (canonical_repo_relative_path raw).

Fixpoint add_blocks (blocks : gmap text text) (destinations : gset text) (bs : list (text * text))
    : result harness_error (gmap text text) :=
  match bs with
  | [] => Ok blocks
  | (raw, body) :: bs' =>
      let path := block_path raw in
      let destination := fs_equiv_path lower nfkc path in
      if bool_decide (destination ∈ destinations) then Err err_agentic
      else add_blocks (<[path := body]> blocks) ({[destination]} ∪ destinations) bs'
  end.

Definition parse_file_blocks (response : text) : result harness_error (gmap text text) :=
  let normalized := normalize_crlf response in
  let '(bs, residue) := scan_blocks (S (length normalized)) normalized in
  add_blocks ∅ ∅ bs ≫= fun blocks =>
  if negb (count_matches file_open normalized =? size blocks)%nat
     || negb (count_matches file_close normalized =? size blocks)%nat
     || contains (T "===") residue
  then Err err_agentic else Ok blocks.

(** ** [parse] *)

Definition edits_open : text := T "=== EDITS ===".
Definition edits_close : text := T "=== END EDITS ===".

Definition apply_edit (context : ReadContext) (destinations : gset text) (edit : ExactEdit)
    : result harness_error (text * text * text) :=
  match canonical_repo_relative_path (e_path edit) with
  | None => Err err_agentic
  | Some path =>
      if bool_decide (fs_equiv_path lower nfkc path ∈ destinations) then Err err_agentic else
      match snapshots context !! path with
      | None => Err err_agentic
      | Some snap =>
          if negb (teqb (e_sha256 edit) (sha256_hex (original snap))) then Err err_agentic
          else if teqb (e_old edit) [] || negb (contains (e_old edit) (visible snap)) then Err err_agentic
          else if negb (bool_decide (find_sub (e_old edit) (original snap)
                                     = rfind_sub (e_old edit) (original snap))) then Err err_agentic
          else Ok (path, replace_first (e_old edit) (e_new edit) (original snap), original snap)
      end
  end.

Fixpoint apply_edits (context : ReadContext) (destinations : gset text) (p : Proposal)
    (edits : list ExactEdit) : result harness_error Proposal :=
  match edits with
  | [] => Ok p
  | e :: es =>
      apply_edit context destinations e ≫= fun '(path, replacement, orig) =>
      apply_edits context ({[fs_equiv_path lower nfkc path]} ∪ destinations)
        (MkProposal (<[path := replacement]> (files p)) (<[path := Some orig]> (originals p))) es
  end.

(** The original each whole-file block must meet: an incomplete snapshot
    refuses the proposal. *)
Definition block_original (context : ReadContext) (path : text) : option (option text) :=
  match snapshots context !! path with
  | Some snap => if complete snap then Some (Some (original snap)) else None
  | None => Some None
  end.

Definition parse (response : text) (context : ReadContext) (max_bytes : Z)
    : result harness_error Proposal :=
  if max_bytes <? byte_len response then Err err_agentic
  else if contains (T "=== EDITS") response then
    if negb (count_matches edits_open response =? 1)%nat
       || negb (count_matches edits_close response =? 1)%nat
       || contains file_open response then Err err_agentic
    else match split_once edits_open response with
    | None => Err err_agentic
    | Some (before, body) =>
        match split_once edits_close body with
        | None => Err err_agentic
        | Some (body, after) =>
            if contains (T "===") before || contains (T "===") after then Err err_agentic
            else match parse_exact body with
                 | None => Err err_agentic
                 | Some edits => apply_edits context ∅ (MkProposal ∅ ∅) edits
                 end
        end
    end
  else
    parse_file_blocks response ≫= fun blocks =>
    if bool_decide (map_Forall (fun path _ => is_Some (block_original context path)) blocks)
    then Ok (MkProposal blocks (map_imap (fun path _ => block_original context path) blocks))
    else Err err_agentic.
End Edits.

(** ** Lemmas *)

(** How a response divides into blocks and the residue around them. *)
Inductive decomposes : text -> list (text * text) -> text -> Prop :=
| d_end : decomposes [] [] []
| d_block path body s bs residue :
    path <> [] -> c_newline ∉ path -> decomposes s bs residue ->
    decomposes (file_open ++ path ++ T " ===" ++ c_newline :: body ++ c_newline :: file_close ++ s)
               ((path, body) :: bs) residue
| d_char c s bs residue :
    decomposes s bs residue -> decomposes (c :: s) bs (c :: residue).

Lemma file_block_at_spec s path body after :
  file_block_at s = Some (path, body, after) ->
  s = file_open ++ path ++ T " ===" ++ c_newline :: body ++ c_newline :: file_close ++ after
  /\ path <> [] /\ c_newline ∉ path.
Proof.
  unfold file_block_at. intros H.
  destruct (strip_prefix file_open s) as [r|] eqn:E1; [|done].
  destruct (split_once [c_newline] r) as [[line rest]|] eqn:E2; [|done].
  destruct (strip_suffix (T " ===") line) as [p|] eqn:E3; [|done].
  destruct (teqb p []) eqn:E4; [done|].
  destruct (split_once (c_newline :: file_close) rest) as [[b a]|] eqn:E5; [|done].
  injection H as -> -> ->.
  apply strip_prefix_spec in E1 as ->. apply split_once_char in E2 as [-> Hn].
  apply strip_suffix_spec in E3 as ->. apply split_once_spec in E5 as ->. apply teqb_neq in E4.
  rewrite <- !app_assoc. split; [done|]. split; [done|]. intros Hin. apply Hn, elem_of_app. by left.
Qed.

Lemma scan_blocks_decomposes fuel s bs residue :
  (length s < fuel)%nat -> scan_blocks fuel s = (bs, residue) -> decomposes s bs residue.
Proof.
  revert s bs residue. induction fuel as [|fuel IH]; intros s bs residue Hl; [lia|].
  simpl. destruct s as [|c s]; [intros [= <- <-]; constructor|]. simpl in Hl.
  destruct (file_block_at (c :: s)) as [[[path body] after]|] eqn:E.
  - destruct (scan_blocks fuel after) as [bs' res'] eqn:Er. intros [= <- <-].
    apply file_block_at_spec in E as (Heq & Hne & Hn). rewrite Heq. constructor; [done | done |].
    apply IH; [|done]. apply (f_equal length) in Heq.
    repeat (cbn [length] in Heq; rewrite length_app in Heq). cbn [length] in Heq.
    unfold file_open in Heq. simpl in Heq. lia.
  - destruct (scan_blocks fuel s) as [bs' res'] eqn:Er. intros [= <- <-].
    constructor. apply IH; [lia | done].
Qed.

Section EditsLemmas.
Context (lower nfkc : text -> text) (sha256_hex : text -> text).
Context (read_file : text -> option text).
Context (parse_exact : text -> option (list ExactEdit)).

(** What [collect] guarantees of a context: the visible excerpt is part of
    the original, and all of it when marked complete. *)
Definition snapshot_wf (s : Snapshot) : Prop :=
  (exists a b, original s = a ++ visible s ++ b) /\ (complete s = true -> visible s = original s).
Definition context_wf (context : ReadContext) : Prop := map_Forall (fun _ s => snapshot_wf s) (snapshots context).

Definition dest_of (raw : text) : text := fs_equiv_path lower nfkc (block_path raw).

Lemma add_blocks_Ok bs blocks dests m :
  (forall k, is_Some (blocks !! k) -> fs_equiv_path lower nfkc k ∈ dests) ->
  add_blocks lower nfkc blocks dests bs = Ok m ->
  NoDup (map (fun b => dest_of b.1) bs)
  /\ (forall k, k ∈ dests -> k ∉ map (fun b => dest_of b.1) bs)
  /\ size m = (size blocks + length bs)%nat
  /\ (forall k v, m !! k = Some v <-> blocks !! k = Some v \/ exists raw, (raw, v) ∈ bs /\ block_path raw = k).
Proof using lower nfkc.
  clear sha256_hex read_file parse_exact.
  revert blocks dests. induction bs as [|[raw body] bs IH]; intros blocks dests Hd; simpl.
  - intros [= <-]. split; [constructor|]. split; [intros; apply not_elem_of_nil|].
    split; [lia|]. intros k v. split; [by left|]. intros [?|(? & ?%not_elem_of_nil & _)]; done.
  - case_bool_decide as Hin; [done|]. intros H.
    assert (Hfresh : blocks !! block_path raw = None).
    { destruct (blocks !! block_path raw) eqn:E; [|done]. destruct Hin. by apply Hd. }
    apply IH in H as (Hnd & Hout & Hsz & Hm).
    2:{ intros k. rewrite lookup_insert_is_Some. intros [<-|[_ Hk]]; [set_solver|].
        apply elem_of_union_r. by apply Hd. }
    split; [|split; [|split]].
    + constructor; [|done]. apply Hout. set_solver.
    + intros k Hk. rewrite not_elem_of_cons. split; [intros ->; done|]. apply Hout. set_solver.
    + rewrite Hsz, map_size_insert_None by done. lia.
    + intros k v. rewrite Hm, lookup_insert_Some. split.
      * intros [[[<- <-]|[_ Hk]]|(r & Hr & <-)]; [|by left|].
        -- right. exists raw. split; [left | done].
        -- right. exists r. split; [by right | done].
      * intros [Hk|(r & Hr & <-)].
        -- left. right. split; [intros <-; congruence | done].
        -- apply elem_of_cons in Hr as [[= -> ->]|Hr]; [by left; left|]. right. eauto.
Qed.

Lemma apply_edit_Ok context dests e path content orig :
  context_wf context ->
  apply_edit lower nfkc sha256_hex context dests e = Ok (path, content, orig) ->
  canonical_repo_relative_path (e_path e) = Some path
  /\ fs_equiv_path lower nfkc path ∉ dests
  /\ exists snap a b, snapshots context !! path = Some snap /\ orig = original snap
     /\ e_sha256 e = sha256_hex orig
     /\ e_old e <> [] /\ contains (e_old e) (visible snap) = true
     /\ orig = a ++ e_old e ++ b /\ content = a ++ e_new e ++ b
     /\ (forall m, (m <= length orig)%nat -> occurs_at (e_old e) orig m -> m = length a).
Proof.
  intros Hwf. unfold apply_edit. intros H.
  destruct (canonical_repo_relative_path (e_path e)) as [p|]; [|done].
  case_bool_decide as Hd; [done|].
  destruct (snapshots context !! p) as [snap|] eqn:Es; [|done].
  destruct (teqb (e_sha256 e) _) eqn:Eh in H; [|done]. simpl in H.
  destruct (teqb (e_old e) []) eqn:Eo in H; [done|]. simpl in H.
  destruct (contains (e_old e) (visible snap)) eqn:Ec in H; [|done]. simpl in H.
  case_bool_decide as Hu; [|done]. simpl in H. unfold replace_first in H.
  apply teqb_eq in Eh. apply teqb_neq in Eo.
  injection H as <- <- <-. split; [done|]. split; [done|].
  destruct (find_sub (e_old e) (original snap)) as [n|] eqn:Ef.
  - pose proof (find_sub_spec _ _ _ Ef) as [Heq _].
    pose proof (find_eq_rfind_unique _ _ _ Ef (eq_sym Hu)) as Huniq.
    exists snap, (take n (original snap)), (drop (n + length (e_old e)) (original snap)).
    repeat (split; [done|]). intros m Hm Ho. rewrite length_take_le; [by apply Huniq|].
    pose proof (find_sub_bound _ _ _ Ef). lia.
  - exfalso. destruct (Hwf _ _ Es) as [(va & vb & Hv) _].
    apply contains_spec in Ec as (ca & cb & Hc).
    assert (Hin : contains (e_old e) (original snap) = true).
    { apply contains_spec. exists (va ++ ca), (cb ++ vb). by rewrite Hv, Hc, <- !app_assoc. }
    unfold contains in Hin. by rewrite Ef in Hin.
Qed.

(** What an accepted proposal says of one destination. *)
Definition destination_ok (context : ReadContext) (edits : list ExactEdit) (p : Proposal)
    (path content : text) : Prop :=
  (snapshots context !! path = None /\ originals p !! path = Some None)
  \/ exists snap, snapshots context !! path = Some snap
       /\ originals p !! path = Some (Some (original snap))
       /\ (complete snap = true
           \/ exists e a b, e ∈ edits /\ canonical_repo_relative_path (e_path e) = Some path
                /\ e_sha256 e = sha256_hex (original snap)
                /\ e_old e <> [] /\ contains (e_old e) (visible snap) = true
                /\ original snap = a ++ e_old e ++ b /\ content = a ++ e_new e ++ b
                /\ (forall m, (m <= length (original snap))%nat ->
                      occurs_at (e_old e) (original snap) m -> m = length a)).

Lemma apply_edits_Ok context edits dests p p' :
  context_wf context ->
  (forall k, is_Some (files p !! k) -> fs_equiv_path lower nfkc k ∈ dests) ->
  dom (files p) = dom (originals p) ->
  apply_edits lower nfkc sha256_hex context dests p edits = Ok p' ->
  dom (files p') = dom (originals p')
  /\ (forall k, is_Some (files p !! k) -> files p' !! k = files p !! k /\ originals p' !! k = originals p !! k)
  /\ (forall k c, files p' !! k = Some c -> is_Some (files p !! k) \/ destination_ok context edits p' k c).
Proof using lower nfkc sha256_hex.
  clear read_file parse_exact.
  intros Hwf. revert dests p. induction edits as [|e edits IH]; intros dests p Hd Hdom; simpl.
  - intros [= <-]. split; [done|]. split; [done|]. intros k c Hk. left. by exists c.
  - intros H. apply bind_Ok_inv in H as ([[path content] orig] & He & H).
    apply apply_edit_Ok in He as (Hcan & Hfresh & snap & a & b & Hs & -> & Hh & Hne & Hc & Ho & Hct & Hu); [|done].
    assert (Hnone : files p !! path = None).
    { destruct (files p !! path) eqn:E; [|done]. destruct Hfresh. apply Hd. eauto. }
    apply IH in H as (Hdom' & Hkeep & Hok).
    2:{ intros k. simpl. rewrite lookup_insert_is_Some. intros [<-|[_ Hk]]; [set_solver|].
        apply elem_of_union_r. by apply Hd. }
    2:{ simpl. by rewrite !dom_insert_L, Hdom. }
    simpl in *. destruct (Hkeep path) as [Hkf Hko]; [rewrite lookup_insert_eq; eauto|].
    rewrite lookup_insert_eq in Hkf. rewrite lookup_insert_eq in Hko.
    split; [done|]. split.
    + intros k Hk. assert (path <> k) by (intros ->; rewrite Hnone in Hk; by destruct Hk).
      destruct (Hkeep k) as [H1 H2]; [by rewrite lookup_insert_ne|].
      rewrite lookup_insert_ne in H1 by done. by rewrite lookup_insert_ne in H2.
    + intros k c Hk. destruct (decide (path = k)) as [<-|Hpk].
      * right. right. exists snap. split; [done|]. split; [done|]. right. exists e, a, b.
        split; [left|]. repeat (split; [done|]). split; [congruence | done].
      * destruct (Hok k c Hk) as [Hold|Hdest]; [by left; rewrite lookup_insert_ne in Hold|].
        right. destruct Hdest as [?|(sn & ? & ? & [?|(e' & a' & b' & Hin & ?)])]; [by left| |].
        -- right. exists sn. auto.
        -- right. exists sn. split; [done|]. split; [done|]. right. exists e', a', b'.
           split; [by right | done].
Qed.

(** *** Budgets of [collect] *)

Definition visible_total (m : gmap text Snapshot) : Z :=
  map_fold (fun _ s acc => acc + Z.of_nat (length (visible s))) 0 m.

Lemma visible_total_insert m k s :
  m !! k = None -> visible_total (<[k := s]> m) = visible_total m + Z.of_nat (length (visible s)).
Proof. intros H. unfold visible_total. rewrite map_fold_insert_L; [done | intros; lia | done]. Qed.

Lemma ztake_length {A} n (l : list A) : Z.of_nat (length (ztake n l)) <= Z.max 0 n.
Proof.
  revert n. induction l as [|x l IH]; intros n; simpl; [lia|].
  destruct (Z.leb_spec n 0); simpl; [lia|]. specialize (IH (n - 1)). lia.
Qed.
Lemma ztake_prefix {A} n (l : list A) : exists r, l = ztake n l ++ r.
Proof.
  revert n. induction l as [|x l IH]; intros n; simpl; [by exists []|].
  destruct (n <=? 0); [by exists (x :: l)|]. destruct (IH (n - 1)) as [r Hr]. exists r. simpl. by f_equal.
Qed.
Lemma zskip_suffix {A} n (l : list A) : exists r, l = r ++ zskip n l.
Proof.
  revert n. induction l as [|x l IH]; intros n; simpl; [by exists []|].
  destruct (n <=? 0); [by exists []|]. destruct (IH (n - 1)) as [r Hr]. exists (x :: r). simpl. by f_equal.
Qed.

Definition collect_inv (expected : gmap text text) (total remaining : Z) (snaps : gmap text Snapshot) : Prop :=
  0 <= remaining /\ visible_total snaps + remaining <= total
  /\ map_Forall (fun path s => snapshot_wf s /\ Z.of_nat (length (visible s)) <= MAX_READ_FILE_CHARS
        /\ read_file path = Some (original s)
        /\ (forall h, expected !! path = Some h -> h = sha256_hex (original s))) snaps.

Lemma collect_one_inv expected total remaining snaps selector out snap remaining' :
  collect_inv expected total remaining snaps ->
  collect_one sha256_hex read_file expected remaining snaps selector = (out, snap, remaining') ->
  collect_inv expected total remaining'
    (match snap with Some (p, s) => <[p := s]> snaps | None => snaps end).
Proof.
  intros (Hr & Ht & Hm). unfold collect_one. intros H.
  destruct (remaining =? 0); [by simplify_eq|].
  destruct (selection selector) as [[[path s] e]|]; [|by simplify_eq].
  case_bool_decide as Hsome; [by simplify_eq|].
  destruct (read_file path) as [orig|] eqn:Eread; [|by simplify_eq].
  destruct (match expected !! path with Some _ => _ | None => _ end) eqn:Eh; [by simplify_eq|].
  set (window := concat _) in H. set (vis := clip_chars window _) in H.
  destruct (teqb vis [] && _); [by simplify_eq|]. injection H as <- <- <-.
  pose proof (ztake_length (Z.min MAX_READ_FILE_CHARS remaining) window) as Hlen.
  fold (clip_chars window (Z.min MAX_READ_FILE_CHARS remaining)) in Hlen. fold vis in Hlen.
  assert (Hnone : snaps !! path = None) by (destruct (snaps !! path) eqn:E; [destruct Hsome; eauto | done]).
  unfold MAX_READ_FILE_CHARS in *.
  split; [lia|]. split; [rewrite visible_total_insert by done; simpl; lia|].
  apply map_Forall_insert; [done|]. split; [|done]. simpl. split; [|split; [unfold MAX_READ_FILE_CHARS; lia|split; [done|]]].
  - split; simpl; [|intros Hv; by apply teqb_eq].
    destruct (zskip_suffix (s - 1) (split_inclusive c_newline orig)) as [pre Hpre].
    destruct (ztake_prefix (e - s + 1) (zskip (s - 1) (split_inclusive c_newline orig))) as [post Hpost].
    destruct (ztake_prefix (Z.min 4000 remaining) window) as [rest Hrest].
    exists (concat pre), (rest ++ concat post). unfold vis, clip_chars.
    rewrite (app_assoc _ rest), <- Hrest. unfold window.
    rewrite <- concat_app, <- Hpost, <- concat_app, <- Hpre. by rewrite concat_split_inclusive.
  - intros h Hh. rewrite Hh in Eh. guards. by apply teqb_eq.
Qed.

Lemma collect_all_inv expected total remaining snaps selectors outs final :
  collect_inv expected total remaining snaps ->
  collect_all sha256_hex read_file expected remaining snaps selectors = (outs, final) ->
  exists remaining', collect_inv expected total remaining' final.
Proof.
  revert remaining snaps outs final. induction selectors as [|sel sels IH];
    intros remaining snaps outs final Hinv; simpl.
  - intros [= <- <-]. eauto.
  - destruct (collect_one _ _ _ _ _ _) as [[out snap] remaining'] eqn:E1.
    destruct (collect_all _ _ _ _ _ _) as [outs' final'] eqn:E2. intros [= <- <-].
    eapply IH; [|exact E2]. by eapply collect_one_inv.
Qed.
End EditsLemmas.

(** ** Properties *)

(** FILE parsing hides nothing: when [parse_file_blocks] accepts, the
    CRLF-normalised response is exactly the accepted blocks interleaved with
    a residue that contains no [===] at all; every block's body is kept byte
    for byte under its canonical path, no two blocks share a destination up
    to filesystem name equivalence, and nothing else is in the result. *)
Theorem file_blocks_lossless (lower nfkc : text -> text) (response : text) (blocks : gmap text text)
    (Hok : parse_file_blocks lower nfkc response = Ok blocks) :
  exists bs residue,
    decomposes (normalize_crlf response) bs residue
    /\ contains (T "===") residue = false
    /\ NoDup (map (fun b => fs_equiv_path lower nfkc (block_path b.1)) bs)
    /\ size blocks = length bs
    /\ forall path body, blocks !! path = Some body <->
                         exists raw, (raw, body) ∈ bs /\ block_path raw = path.
Proof.
  unfold parse_file_blocks in Hok.
  destruct (scan_blocks _ _) as [bs residue] eqn:Escan.
  apply bind_Ok_inv in Hok as (m & Hadd & Hok).
  destruct (_ || contains (T "===") residue) eqn:Ec; [done|]. injection Hok as <-.
  apply orb_false_iff in Ec as [_ Ec].
  assert (H0 : forall k, is_Some ((∅ : gmap text text) !! k) -> fs_equiv_path lower nfkc k ∈ (∅ : gset text))
    by (intros k [v Hv]; by rewrite lookup_empty in Hv).
  destruct (add_blocks_Ok lower nfkc bs ∅ ∅ m H0 Hadd) as (Hnd & _ & Hsz & Hm).
  exists bs, residue. split; [eapply scan_blocks_decomposes; [|exact Escan]; lia|].
  split; [done|]. split; [done|]. split; [by rewrite Hsz, map_size_empty|].
  intros path body. rewrite Hm, lookup_empty.
  split; [intros [?|?]; [discriminate | done] | by right].
Qed.

Definition demo_response : text :=
  T "Adds a file." ++ [10] ++ T "=== FILE ./src/a.rs ===" ++ [13; 10] ++ T "fn a() {}" ++ [10]
  ++ T "=== END FILE ===" ++ [10].

Lemma file_blocks_lossless_witness :
  exists blocks bs residue,
    parse_file_blocks (map to_ascii_lower) id demo_response = Ok blocks
    /\ decomposes (normalize_crlf demo_response) bs residue
    /\ blocks !! T "src/a.rs" = Some (T "fn a() {}").
Proof.
  destruct (parse_file_blocks (map to_ascii_lower) id demo_response) as [blocks|] eqn:E;
    [|vm_compute in E; discriminate E].
  destruct (file_blocks_lossless _ _ _ _ E) as (bs & residue & Hd & _).
  exists blocks, bs, residue. split; [reflexivity|]. split; [exact Hd|].
  vm_compute in E. injection E as <-. vm_compute. reflexivity.
Defined.

(** C34. A proposal is bound to what was shown.  Over a context as [collect]
    builds it, every destination of an accepted proposal carries the original
    it must still have: either the file was not in the context and must be
    absent, or it was shown in full and may be replaced, or it is the target
    of one exact edit whose hash matches, whose old text was displayed, and
    whose replacement changes only the single place where that text occurs. *)
Theorem proposal_bound_to_snapshots
    (lower nfkc sha256_hex : text -> text) (parse_exact : text -> option (list ExactEdit))
    (response : text) (context : ReadContext) (max_bytes : Z) (p : Proposal)
    (Hwf : context_wf context)
    (Hok : parse lower nfkc sha256_hex parse_exact response context max_bytes = Ok p) :
  byte_len response <= max_bytes
  /\ dom (files p) = dom (originals p)
  /\ exists edits, forall path content, files p !! path = Some content ->
       destination_ok sha256_hex context edits p path content.
Proof.
  unfold parse in Hok. destruct (max_bytes <? byte_len response) eqn:Eb; [done|].
  split; [guards; lia|]. destruct (contains (T "=== EDITS") response).
  - destruct (_ || contains file_open response); [done|].
    destruct (split_once edits_open response) as [[before body]|]; [|done].
    destruct (split_once edits_close body) as [[body' after]|]; [|done].
    destruct (contains (T "===") before || _); [done|].
    destruct (parse_exact body') as [edits|]; [|done].
    eapply apply_edits_Ok in Hok as (Hdom & _ & Hall); [|exact Hwf| |done].
    + split; [done|]. exists edits. intros path content H.
      destruct (Hall _ _ H) as [[v Hv]|Hd]; [|done]. simpl in Hv. by rewrite lookup_empty in Hv.
    + intros k [v Hv]. simpl in Hv. by rewrite lookup_empty in Hv.
  - apply bind_Ok_inv in Hok as (blocks & _ & Hok).
    case_bool_decide as Hall; [|done]. injection Hok as <-. simpl.
    assert (Hor : forall k, map_imap (fun path _ => block_original context path) blocks !! k
                            = blocks !! k ≫= fun _ => block_original context k).
    { intros k. apply map_lookup_imap. }
    split.
    + apply set_eq. intros k. rewrite !elem_of_dom, Hor.
      destruct (blocks !! k) eqn:E; simpl; [|done].
      split; [intros _; by eapply Hall | eauto].
    + exists []. intros path content Hp. unfold destination_ok. simpl. rewrite Hor, Hp. simpl.
      pose proof (Hall _ _ Hp) as Hb. simpl in Hb. unfold block_original in *.
      destruct (snapshots context !! path) as [snap|]; [|by left].
      destruct (complete snap) eqn:Ec; [|by destruct Hb]. right. exists snap. auto.
Qed.

Definition demo_context : ReadContext :=
  collect id (fun p => if teqb p (T "a.rs") then Some (T "let x = 1; let y = 2;") else None) [T "a.rs"].

Lemma proposal_bound_to_snapshots_witness :
  context_wf demo_context /\
  exists p, parse id id id
    (fun _ => Some [MkEdit (T "a.rs") (T "let x = 1; let y = 2;") (T "x = 1") (T "x = 3")])
    (T "=== EDITS === {} === END EDITS ===") demo_context 100 = Ok p
  /\ dom (files p) = dom (originals p)
  /\ files p !! T "a.rs" = Some (T "let x = 3; let y = 2;").
Proof.
  assert (Hwf : context_wf demo_context).
  { unfold demo_context, collect, collect_checked.
    destruct (collect_all _ _ _ _ _ _) as [outs final] eqn:E.
    eapply collect_all_inv in E as (r & _ & _ & Hm).
    - intros k s Hs. by destruct (Hm k s Hs) as [? _].
    - split; [|split]; [by vm_compute | unfold visible_total; rewrite map_fold_empty; reflexivity
        | apply map_Forall_empty]. }
  split; [exact Hwf|].
  destruct (parse id id id _ (T "=== EDITS === {} === END EDITS ===") demo_context 100) as [p|] eqn:E;
    [|vm_compute in E; discriminate E].
  destruct (proposal_bound_to_snapshots _ _ _ _ _ _ _ _ Hwf E) as (_ & Hdom & _).
  exists p. split; [reflexivity|]. split; [exact Hdom|].
  vm_compute in E. injection E as <-. vm_compute. reflexivity.
Defined.

(** What a model is shown is bounded and honest: over any selectors and
    expected hashes, the visible excerpts together hold at most the smaller
    of the requested budget and 12000 characters, each at most 4000; each is
    a contiguous part of the file as the jailed read returned it, all of it
    when marked complete, and a file whose hash is not the expected one is
    not shown. *)
Theorem collect_bounded_and_honest
    (sha256_hex : text -> text) (read_file : text -> option text)
    (selectors : list text) (expected : gmap text text) (max_chars : Z)
    (Hmax : 0 <= max_chars) :
  let context := collect_checked sha256_hex read_file selectors expected max_chars in
  visible_total (snapshots context) <= Z.min max_chars 12000
  /\ map_Forall (fun path s =>
       read_file path = Some (original s)
       /\ Z.of_nat (length (visible s)) <= 4000
       /\ (exists a b, original s = a ++ visible s ++ b)
       /\ (complete s = true -> visible s = original s)
       /\ (forall h, expected !! path = Some h -> h = sha256_hex (original s))) (snapshots context).
Proof.
  intros context. unfold context, collect_checked.
  destruct (collect_all _ _ _ _ _ _) as [outs final] eqn:E. simpl.
  eapply (collect_all_inv sha256_hex read_file expected (Z.min max_chars 12000)) in E as (r & Hr & Ht & Hm).
  - split; [lia|]. intros k s Hs. destruct (Hm k s Hs) as ([Hp Hc] & Hl & Hread & Hh). auto.
  - unfold MAX_TOTAL_READ_CHARS. split; [lia|]. split; [|apply map_Forall_empty].
    unfold visible_total. rewrite map_fold_empty. lia.
Qed.

Lemma collect_bounded_and_honest_witness :
  0 <= 5 /\
  visible_total (snapshots (collect_checked id
     (fun p => if teqb p (T "a") then Some (T "abcdefgh") else None) [T "a"; T "a#L1-L1"] ∅ 5)) <= 5.
Proof.
  split; [lia|].
  destruct (collect_bounded_and_honest id (fun p => if teqb p (T "a") then Some (T "abcdefgh") else None)
              [T "a"; T "a#L1-L1"] ∅ 5 ltac:(lia)) as [H _].
  eapply Z.le_trans; [exact H | lia].
Defined.
