(* ===== verification/Transaction.v ===== *)
(** The write transaction of [agentic/workspace.rs]: [StagedReplacement]
    ([prepare], [current], [install], [rollback], [Drop]) and the part of
    [apply_proposal] that drives it.

    The clone is a map from paths to nodes; a path stands for the retained
    parent directory and the leaf together, and the directories that
    [proposal_parent] creates are not modelled.  [env i] is what other
    processes do to the clone before the [i]-th step of the batch, and
    [policy i] is the answer of [require_write] at that step, which reloads
    the configuration each time.  The two random names of a replacement are
    fields of its record.  What goes wrong is interference: a call on a node
    that is as it should be does not fail for reasons of the disk.  A step (check and rename) is atomic here; the
    source claims no atomicity inside one. *)

From S2P Require Import Prelude Text.
Local Open Scope nat_scope.

Inductive node := File (data : text) | Other.
#[export] Instance node_eq_dec : EqDecision node.
Proof. solve_decision. Defined.

Abbreviation fs := (gmap text node).

Record StagedReplacement := MkStaged {
  leaf : text;
  staged : text;
  backup : text;
  original : option text;
  replacement : text;
  installed : bool;
}.

Definition set_installed (s : StagedReplacement) (b : bool) : StagedReplacement :=
  MkStaged (leaf s) (staged s) (backup s) (original s) (replacement s) b.

Inductive apply_error := IoError | StaleFile | PolicyRevoked | ConcurrentChange | Quarantined.

(** ** File operations *)

(** [open_with] with [create_new], then [write_all]. *)
Definition create_new (f : fs) (name data : text) : result apply_error fs :=
  match f !! name with Some _ => Err IoError | None => Ok (<[name := File data]> f) end.

Definition rename (f : fs) (from to : text) : result apply_error fs :=
  match f !! from with
  | None => Err IoError
  | Some n => match f !! to with
              | Some Other => Err IoError
              | _ => Ok (<[to := n]> (delete from f))
              end
  end.

Definition remove_file (f : fs) (name : text) : result apply_error fs :=
  match f !! name with Some (File _) => Ok (delete name f) | _ => Err IoError end.

(** [let _ = remove_file(...)] *)
Definition remove_quiet (f : fs) (name : text) : fs :=
  match remove_file f name with Ok f' => f' | Err _ => f end.

(** [Drop for StagedReplacement] *)
Definition drop_staged (f : fs) (s : StagedReplacement) : fs :=
  let f := remove_quiet f (staged s) in
  if installed s then f else remove_quiet f (backup s).

(** ** [StagedReplacement] *)

(** [set_permissions(metadata(leaf)?)], asked only for an existing file. *)
Definition copy_permissions (f : fs) (s : StagedReplacement) : result apply_error unit :=
  match original s with
  | Some _ => match f !! leaf s with Some _ => Ok tt | None => Err IoError end
  | None => Ok tt
  end.

Definition prepare (f : fs) (s : StagedReplacement) : fs * option apply_error :=
  match create_new f (staged s) (replacement s) with
  | Err e => (drop_staged f s, Some e)
  | Ok f1 =>
      match copy_permissions f1 s with
      | Err e => (drop_staged f1 s, Some e)
      | Ok _ =>
          match original s with
          | None => (f1, None)
          | Some o =>
              match create_new f1 (backup s) o with
              | Err e => (drop_staged f1 s, Some e)
              | Ok f2 => (f2, None)
              end
          end
      end
  end.

(** The bounded read: at most one byte more than either version holds. *)
Definition current (f : fs) (s : StagedReplacement) : result apply_error (option text) :=
  match f !! leaf s with
  | None => Ok None
  | Some Other => Err IoError
  | Some (File data) =>
      let max_bytes := Nat.max (match original s with Some o => length o | None => 0 end)
                               (length (replacement s)) in
      Ok (Some (take (max_bytes + 1) data))
  end.

Definition install (f : fs) (s : StagedReplacement) : result apply_error fs :=
  current f s ≫= fun cur =>
  if bool_decide (cur = original s) then rename f (staged s) (leaf s) else Err StaleFile.

Definition rollback (f : fs) (s : StagedReplacement) : result apply_error fs :=
  if installed s then
    current f s ≫= fun cur =>
    if bool_decide (cur = Some (replacement s)) then
      match original s with
      | Some _ => rename f (backup s) (leaf s)
      | None => remove_file f (leaf s)
      end
    else Err ConcurrentChange
  else Ok f.

(** ** The batch of [apply_proposal] *)

Fixpoint prepare_all (f : fs) (ss done : list StagedReplacement) : fs * option apply_error :=
  match ss with
  | [] => (f, None)
  | s :: ss' =>
      match prepare f s with
      | (f', None) => prepare_all f' ss' (done ++ [s])
      | (f', Some e) => (foldl drop_staged f' done, Some e)
      end
  end.

Section Batch.
Context (env : nat -> fs -> fs) (policy : nat -> bool).

(** The install loop: the installed prefix (last first), what is left, and
    the error that stopped it. *)
Fixpoint install_all (i : nat) (f : fs) (done todo : list StagedReplacement)
    : fs * list StagedReplacement * list StagedReplacement * option apply_error :=
  match todo with
  | [] => (f, done, [], None)
  | s :: todo' =>
      let f := env i f in
      if policy i then
        match install f s with
        | Ok f' => install_all (S i) f' (set_installed s true :: done) todo'
        | Err e => (f, done, todo, Some e)
        end
      else (f, done, todo, Some PolicyRevoked)
  end.

(** Rollback, most recent first; the first failure stops it. *)
Fixpoint rollback_all (i : nat) (f : fs) (done : list StagedReplacement)
    : fs * list StagedReplacement * bool :=
  match done with
  | [] => (f, [], true)
  | s :: done' =>
      let f := env i f in
      match rollback f s with
      | Ok f' =>
          let '(f'', rest, ok) := rollback_all (S i) f' done' in
          (f'', set_installed s false :: rest, ok)
      | Err _ => (f, s :: done', false)
      end
  end.

(** The staged batch: the result, the final files, and the replacements as
    they are dropped. *)
Definition install_batch (f1 : fs) (ss : list StagedReplacement)
    : result apply_error unit * fs * list StagedReplacement :=
  match install_all 0 f1 [] ss with
  | (f2, done, _, None) =>
      let all := map (fun s => set_installed s false) done in
      (Ok tt, foldl drop_staged f2 all, all)
  | (f2, done, todo, Some e) =>
      match rollback_all (length ss) f2 done with
      | (f3, done', true) => (Err e, foldl drop_staged f3 (done' ++ todo), done' ++ todo)
      | (f3, done', false) => (Err Quarantined, foldl drop_staged f3 (done' ++ todo), done' ++ todo)
      end
  end.

Definition apply_batch (f : fs) (ss : list StagedReplacement)
    : result apply_error unit * fs * list StagedReplacement :=
  match prepare_all f ss [] with
  | (f1, Some e) => (Err e, f1, [])
  | (f1, None) => install_batch f1 ss
  end.
End Batch.

(** ** Lemmas *)

Definition names (s : StagedReplacement) : list text := [leaf s; staged s; backup s].
Definition all_names (ss : list StagedReplacement) : list text := concat (map names ss).

(** [f'] differs from [f] at most on the names of [s]. *)
Definition only (s : StagedReplacement) (f f' : fs) : Prop := forall p, p ∉ names s -> f' !! p = f !! p.

Lemma only_refl s f : only s f f.
Proof. done. Qed.
Lemma only_trans s f1 f2 f3 : only s f1 f2 -> only s f2 f3 -> only s f1 f3.
Proof. intros H1 H2 p Hp. rewrite H2, H1 by done. done. Qed.

Lemma only_insert s f n x : n ∈ names s -> only s f (<[n := x]> f).
Proof. intros H p Hp. rewrite lookup_insert_ne; [done | by intros ->]. Qed.
Lemma only_delete s f n : n ∈ names s -> only s f (delete n f).
Proof. intros H p Hp. rewrite lookup_delete_ne; [done | by intros ->]. Qed.

Lemma leaf_in s : leaf s ∈ names s. Proof. left. Qed.
Lemma staged_in s : staged s ∈ names s. Proof. right. left. Qed.
Lemma backup_in s : backup s ∈ names s. Proof. do 2 right. left. Qed.
#[local] Hint Resolve leaf_in staged_in backup_in only_refl only_insert only_delete : harness.

Lemma create_new_Ok f n d f' : create_new f n d = Ok f' -> f !! n = None /\ f' = <[n := File d]> f.
Proof. unfold create_new. destruct (f !! n); [done|]. by intros [= <-]. Qed.

Lemma rename_Ok f a b f' :
  rename f a b = Ok f' -> exists n, f !! a = Some n /\ f' = <[b := n]> (delete a f).
Proof.
  unfold rename. destruct (f !! a) as [n|]; [|done].
  destruct (f !! b) as [[d|]|]; intros H; simplify_eq; eauto.
Qed.

Lemma remove_quiet_only s f n : n ∈ names s -> only s f (remove_quiet f n).
Proof. intros H. unfold remove_quiet, remove_file. repeat case_match; simplify_eq; eauto with harness. Qed.

Lemma drop_staged_only s f : only s f (drop_staged f s).
Proof.
  unfold drop_staged. case_match; [apply remove_quiet_only, staged_in|].
  eapply only_trans; apply remove_quiet_only; [apply staged_in | apply backup_in].
Qed.

Lemma rename_only s f a b f' : a ∈ names s -> b ∈ names s -> rename f a b = Ok f' -> only s f f'.
Proof.
  intros Ha Hb H. apply rename_Ok in H as (n & _ & ->).
  apply (only_trans s f (delete a f)); [by apply only_delete | by apply only_insert].
Qed.

Lemma prepare_only s f : only s f (fst (prepare f s)).
Proof.
  unfold prepare. destruct (create_new f (staged s) (replacement s)) as [f1|] eqn:E1;
    [|apply drop_staged_only].
  apply create_new_Ok in E1 as [_ ->].
  assert (H1 : only s f (<[staged s := File (replacement s)]> f)) by eauto with harness.
  destruct (copy_permissions _ s); [|eapply only_trans; [exact H1 | apply drop_staged_only]].
  destruct (original s) as [o|]; [|exact H1].
  destruct (create_new _ (backup s) o) as [f2|] eqn:E2.
  - apply create_new_Ok in E2 as [_ ->]. eapply only_trans; [exact H1|]. simpl. eauto with harness.
  - eapply only_trans; [exact H1 | apply drop_staged_only].
Qed.

Lemma install_Ok f s f' :
  install f s = Ok f' ->
  current f s = Ok (original s) /\ rename f (staged s) (leaf s) = Ok f'.
Proof.
  unfold install. intros H. apply bind_Ok_inv in H as (cur & Hc & H).
  case_bool_decide; [|done]. subst. done.
Qed.

Lemma rollback_only f s f' : rollback f s = Ok f' -> only s f f'.
Proof.
  unfold rollback. destruct (installed s); [|intros [= <-]; apply only_refl].
  intros H. apply bind_Ok_inv in H as (cur & _ & H). case_bool_decide; [|done].
  destruct (original s).
  - eapply rename_only; [| |exact H]; eauto with harness.
  - unfold remove_file in H. repeat case_match; simplify_eq. eauto with harness.
Qed.

(** The bounded read decides equality with the original exactly. *)
Lemma current_eq f s (w : option text) :
  w = original s \/ w = Some (replacement s) ->
  (current f s = Ok w <-> f !! leaf s = File <$> w).
Proof.
  intros Hw. unfold current. destruct (f !! leaf s) as [[d|]|] eqn:E.
  - set (m := Nat.max _ _).
    assert (Hm : forall v, w = Some v -> length v <= m).
    { intros v ->. unfold m. destruct Hw as [Hw|[= ->]]; [rewrite <- Hw|]; lia. }
    split.
    + intros [= <-]. specialize (Hm _ eq_refl). rewrite length_take in Hm.
      simpl. rewrite take_ge by lia. done.
    + destruct w as [v|]; [|done]. intros [= ->]. specialize (Hm _ eq_refl).
      rewrite take_ge by lia. done.
  - split; [done|]. by destruct w.
  - split; [by intros [= <-] | by destruct w].
Qed.

Lemma not_in_names s p : p ∉ names s <-> p <> leaf s /\ p <> staged s /\ p <> backup s.
Proof. unfold names. rewrite !not_elem_of_cons. split; [intros (?&?&?&_) | intros (?&?&?)]; auto using not_elem_of_nil. Qed.

(** *** One replacement without interference *)

Section Single.
Context (f0 : fs).

(** Before [prepare] and after a clean end; prepared; installed. *)
Definition clean (f : fs) (s : StagedReplacement) : Prop :=
  f !! leaf s = f0 !! leaf s /\ f !! staged s = None /\ f !! backup s = None.
Definition prepared (f : fs) (s : StagedReplacement) : Prop :=
  f !! leaf s = f0 !! leaf s /\ f !! staged s = Some (File (replacement s))
  /\ f !! backup s = File <$> original s /\ installed s = false.
Definition in_place (f : fs) (s : StagedReplacement) : Prop :=
  f0 !! leaf s = File <$> original s /\ f !! leaf s = Some (File (replacement s))
  /\ f !! staged s = None /\ f !! backup s = File <$> original s /\ installed s = true.

Lemma remove_quiet_lookup f n : match f !! n with Some Other => True | _ => remove_quiet f n = delete n f end.
Proof.
  unfold remove_quiet, remove_file. destruct (f !! n) as [[d|]|] eqn:E; [done | done |].
  by rewrite delete_id.
Qed.

Lemma remove_quiet_file f n d : f !! n = File <$> d -> remove_quiet f n = delete n f.
Proof. intros H. pose proof (remove_quiet_lookup f n) as Hr. rewrite H in Hr. by destruct d. Qed.

Lemma drop_uninstalled f s d1 d2 :
  NoDup (names s) -> installed s = false ->
  f !! staged s = File <$> d1 -> f !! backup s = File <$> d2 ->
  drop_staged f s = delete (backup s) (delete (staged s) f).
Proof.
  intros Hnd Hi H1 H2. unfold drop_staged. rewrite Hi, (remove_quiet_file _ _ d1 H1).
  apply (remove_quiet_file _ _ d2). rewrite lookup_delete_ne; [done|].
  unfold names in Hnd. rewrite !NoDup_cons, !not_elem_of_cons in Hnd. tauto.
Qed.

Lemma names_distinct s : NoDup (names s) -> leaf s <> staged s /\ leaf s <> backup s /\ staged s <> backup s.
Proof. unfold names. rewrite !NoDup_cons, !not_elem_of_cons. tauto. Qed.

Lemma drop_prepared f s : NoDup (names s) -> prepared f s -> clean (drop_staged f s) s.
Proof.
  intros Hnd (Hl & Hs & Hb & Hi).
  rewrite (drop_uninstalled f s (Some (replacement s)) (original s)) by done.
  apply names_distinct in Hnd as (H1 & H2 & H3).
  split; [|split].
  - by rewrite !lookup_delete_ne.
  - rewrite lookup_delete_ne by done. apply lookup_delete_eq.
  - apply lookup_delete_eq.
Qed.

Lemma drop_clean f s : NoDup (names s) -> installed s = false -> clean f s -> clean (drop_staged f s) s.
Proof.
  intros Hnd Hi (Hl & Hs & Hb). rewrite (drop_uninstalled f s None None) by done.
  apply names_distinct in Hnd as (H1 & H2 & H3).
  split; [|split].
  - by rewrite !lookup_delete_ne.
  - rewrite lookup_delete_ne by done. apply lookup_delete_eq.
  - apply lookup_delete_eq.
Qed.

Lemma prepare_spec f s :
  NoDup (names s) -> installed s = false -> clean f s ->
  match prepare f s with
  | (f', None) => prepared f' s
  | (f', Some e) => clean f' s /\ e <> Quarantined /\ f0 !! leaf s <> File <$> original s
  end.
Proof.
  intros Hnd Hi (Hl & Hs & Hb). pose proof (names_distinct _ Hnd) as (H1 & H2 & H3).
  unfold prepare, create_new at 1. rewrite Hs.
  set (f1 := <[staged s := File (replacement s)]> f).
  assert (Hf1 : f1 !! leaf s = f0 !! leaf s /\ f1 !! staged s = Some (File (replacement s)) /\ f1 !! backup s = None).
  { unfold f1. rewrite lookup_insert_eq, !lookup_insert_ne by done. done. }
  destruct Hf1 as (Hl1 & Hs1 & Hb1). unfold copy_permissions. destruct (original s) as [o|] eqn:Eo.
  - rewrite Hl1. destruct (f0 !! leaf s) eqn:El.
    + unfold create_new. rewrite Hb1. unfold prepared.
      rewrite lookup_insert_eq, !lookup_insert_ne, Hl1, Hs1, Eo, El by done. done.
    + split; [|done].
      rewrite (drop_uninstalled f1 s (Some (replacement s)) None) by done.
      unfold clean. rewrite lookup_delete_eq, !lookup_delete_ne, lookup_delete_eq by done. by rewrite Hl1, El.
  - unfold prepared. by rewrite Hl1, Hs1, Hb1, Eo.
Qed.

Lemma install_spec f s :
  NoDup (names s) -> prepared f s ->
  match install f s with
  | Ok f' => in_place f' (set_installed s true) /\ only s f f'
  | Err e => e <> Quarantined /\ f0 !! leaf s <> File <$> original s
  end.
Proof.
  intros Hnd (Hl & Hs & Hb & Hi). pose proof (names_distinct _ Hnd) as (H1 & H2 & H3).
  destruct (install f s) as [f'|e] eqn:E.
  - apply install_Ok in E as [Hc Hr]. apply current_eq in Hc; [|by left].
    split; [|by eapply rename_only; [| |exact Hr]; eauto with harness].
    apply rename_Ok in Hr as (n & Hn & ->). rewrite Hs in Hn. injection Hn as <-.
    unfold in_place. simpl. rewrite <- Hl, Hc.
    rewrite lookup_insert_eq, !lookup_insert_ne, lookup_delete_eq, lookup_delete_ne by done. done.
  - unfold install in E. rewrite <- Hl. destruct (decide (f !! leaf s = File <$> original s)) as [Hd|Hd].
    + exfalso. pose proof (proj2 (current_eq f s (original s) (or_introl eq_refl)) Hd) as Hc.
      rewrite Hc in E. simpl in E. rewrite bool_decide_true in E by done.
      unfold rename in E. rewrite Hs, Hd in E. by destruct (original s).
    + split; [|done]. apply bind_Err_inv in E as [E|(cur & Hc & E)].
      * unfold current in E. repeat case_match; simplify_eq; done.
      * case_bool_decide; [|by simplify_eq]. subst. apply current_eq in Hc; [done | by left].
Qed.

Lemma rollback_spec f s :
  NoDup (names s) -> in_place f s -> exists f', rollback f s = Ok f' /\ clean f' s.
Proof.
  intros Hnd (Ho & Hl & Hs & Hb & Hi). pose proof (names_distinct _ Hnd) as (H1 & H2 & H3).
  unfold rollback. rewrite Hi.
  pose proof (proj2 (current_eq f s (Some (replacement s)) (or_intror eq_refl)) Hl) as Hc.
  rewrite Hc. simpl. rewrite bool_decide_true by done. unfold clean. rewrite Ho.
  destruct (original s) as [o|]; simpl in *.
  - unfold rename. rewrite Hb, Hl. eexists. split; [done|].
    rewrite lookup_insert_eq, !lookup_insert_ne, lookup_delete_eq, lookup_delete_ne by done. done.
  - unfold remove_file. rewrite Hl. eexists. split; [done|].
    rewrite lookup_delete_eq, !lookup_delete_ne by done. done.
Qed.
End Single.

(** *** Lists of replacements *)

(** A predicate that reads only the three names of its replacement. *)
Definition local (P : fs -> StagedReplacement -> Prop) : Prop :=
  forall f f' s, (forall p, p ∈ names s -> f' !! p = f !! p) -> P f s -> P f' s.

Ltac solve_local :=
  let Hf := fresh in
  intros f f' s Hf; unfold clean, prepared, in_place in *;
  rewrite (Hf _ (leaf_in s)), (Hf _ (staged_in s)), (Hf _ (backup_in s)); done.

Lemma clean_local f0 : local (clean f0).
Proof. solve_local. Qed.
Lemma prepared_local f0 : local (prepared f0).
Proof. solve_local. Qed.
Lemma in_place_local f0 : local (in_place f0).
Proof. solve_local. Qed.

Definition distinct (ss : list StagedReplacement) : Prop := NoDup (all_names ss).
Definition frame (ss : list StagedReplacement) (f f' : fs) : Prop :=
  forall p, p ∉ all_names ss -> f' !! p = f !! p.

Lemma all_names_app l l' : all_names (l ++ l') = all_names l ++ all_names l'.
Proof. unfold all_names. by rewrite map_app, concat_app. Qed.

Lemma elem_all_names p ss : p ∈ all_names ss <-> exists s, s ∈ ss /\ p ∈ names s.
Proof.
  unfold all_names. rewrite list_elem_of_In, in_concat. split.
  - intros (l & Hl & Hp). apply in_map_iff in Hl as (s & <- & Hs). exists s.
    split; by apply list_elem_of_In.
  - intros (s & Hs & Hp). exists (names s). split; [|by apply list_elem_of_In].
    apply in_map, list_elem_of_In, Hs.
Qed.

Lemma distinct_perm l l' : Permutation l l' -> distinct l -> distinct l'.
Proof.
  unfold distinct. intros Hp. assert (H : all_names l ≡ₚ all_names l').
  { induction Hp; unfold all_names in *; simpl; [done | by repeat constructor | | by etransitivity].
    solve_Permutation. }
  by rewrite H.
Qed.

Lemma distinct_cons s ss :
  distinct (s :: ss) <-> NoDup (names s) /\ (forall p, p ∈ names s -> p ∉ all_names ss) /\ distinct ss.
Proof. unfold distinct. change (all_names (s :: ss)) with (names s ++ all_names ss). apply NoDup_app. Qed.

Lemma only_frame s ss f f' : s ∈ ss -> only s f f' -> frame ss f f'.
Proof. intros Hs Ho p Hp. apply Ho. intros Hn. apply Hp, elem_all_names. eauto. Qed.

Lemma frame_trans ss f1 f2 f3 : frame ss f1 f2 -> frame ss f2 f3 -> frame ss f1 f3.
Proof. intros H1 H2 p Hp. by rewrite H2, H1. Qed.

Lemma frame_weaken ss ss' f f' : (forall p, p ∈ all_names ss -> p ∈ all_names ss') -> frame ss f f' -> frame ss' f f'.
Proof. intros Hs Hf p Hp. apply Hf. auto. Qed.

(** Work on one replacement keeps what is local to the others. *)
Lemma only_keeps P s ss f f' :
  local P -> distinct (s :: ss) -> only s f f' -> Forall (P f) ss -> Forall (P f') ss.
Proof.
  intros HP Hd Ho Hf. apply distinct_cons in Hd as (_ & Hd & _).
  apply Forall_forall. intros t Ht. rewrite Forall_forall in Hf.
  apply (HP f); [|by apply Hf]. intros p Hp. apply Ho. intros Hn. apply (Hd p Hn), elem_all_names. eauto.
Qed.

Lemma foldl_local (op : fs -> StagedReplacement -> fs) P Q l f :
  (forall f s, only s f (op f s)) -> local P -> local Q ->
  (forall f s, NoDup (names s) -> P f s -> Q (op f s) s) ->
  distinct l -> Forall (P f) l ->
  Forall (Q (foldl op f l)) l /\ frame l f (foldl op f l).
Proof.
  intros Honly HP HQ Hop. revert f. induction l as [|s l IH]; intros f Hd Hf; [done|].
  inversion Hf as [|? ? Hs Hl]; subst. pose proof Hd as (Hnd & Hdis & Hdl)%distinct_cons. simpl.
  destruct (IH (op f s)) as [IHq IHf]; [done | eapply (only_keeps P); eauto |].
  assert (Hfr : frame (s :: l) f (foldl op (op f s) l)).
  { eapply frame_trans; [eapply only_frame; [left | apply Honly]|].
    eapply frame_weaken; [|exact IHf]. intros p Hp. apply elem_all_names in Hp as (t & Ht & Hp).
    apply elem_all_names. exists t. split; [by right | done]. }
  split; [|done]. constructor; [|done].
  apply (HQ (op f s)); [|by apply Hop]. intros p Hp. apply IHf. by apply Hdis.
Qed.

Lemma frame_app_l l l' f f' : frame l f f' -> frame (l ++ l') f f'.
Proof.
  apply frame_weaken. intros p Hp. rewrite all_names_app. apply elem_of_app. by left.
Qed.

Section NoInterference.
Context (f0 : fs).

Definition mismatch (s : StagedReplacement) : Prop := f0 !! leaf s <> File <$> original s.

Lemma prepare_all_spec ss done f :
  distinct (done ++ ss) -> Forall (prepared f0 f) done -> Forall (clean f0 f) ss ->
  Forall (fun s => installed s = false) ss ->
  match prepare_all f ss done with
  | (f', None) => Forall (prepared f0 f') (done ++ ss) /\ frame (done ++ ss) f f'
  | (f', Some e) => Forall (clean f0 f') (done ++ ss) /\ e <> Quarantined /\ Exists mismatch ss
                    /\ frame (done ++ ss) f f'
  end.
Proof.
  revert done f. induction ss as [|s ss IH]; intros done f Hd Hp Hc Hi; simpl.
  - rewrite app_nil_r in *. split; [done | by intros p].
  - inversion Hc as [|? ? Hcs Hcss]; subst. inversion Hi as [|? ? His Hiss]; subst.
    pose proof (distinct_perm _ _ (Permutation_sym (Permutation_middle done ss s)) Hd) as Hd'.
    pose proof Hd' as (Hnd & Hdis & Hdr)%distinct_cons.
    pose proof (prepare_spec f0 f s Hnd His Hcs) as Hspec.
    pose proof (prepare_only s f) as Honly.
    destruct (prepare f s) as [f' [e|]]; simpl in Honly.
    + destruct Hspec as (Hcl & He & Hm).
      assert (Hpd : Forall (prepared f0 f') done /\ Forall (clean f0 f') ss).
      { split.
        - assert (Hx : Forall (prepared f0 f') (done)).
          { eapply (only_keeps _ s); [apply prepared_local | | exact Honly | exact Hp].
            apply distinct_cons. split; [done|]. unfold distinct in Hdr. rewrite all_names_app in Hdr, Hdis.
            split; [intros p Hpn Hin; eapply Hdis; [exact Hpn | apply elem_of_app; by left]|].
            by apply NoDup_app in Hdr as (? & _ & _). }
          exact Hx.
        - eapply (only_keeps _ s); [apply clean_local | | exact Honly | exact Hcss].
          apply distinct_cons. split; [done|]. unfold distinct in Hdr. rewrite all_names_app in Hdr, Hdis.
          split; [intros p Hpn Hin; eapply Hdis; [exact Hpn | apply elem_of_app; by right]|].
          by apply NoDup_app in Hdr as (_ & _ & ?). }
      destruct Hpd as [Hpd Hcd].
      destruct (foldl_local drop_staged (prepared f0) (clean f0) done f') as [Hq Hfr];
        [intros; apply drop_staged_only | apply prepared_local | apply clean_local
        | intros; by apply drop_prepared | | exact Hpd |].
      { unfold distinct in Hdr |- *. rewrite all_names_app in Hdr. by apply NoDup_app in Hdr as (? & _ & _). }
      assert (Hkeep : forall t, t ∈ s :: ss -> forall p, p ∈ names t -> foldl drop_staged f' done !! p = f' !! p).
      { intros t Ht p Hpn. apply Hfr. intros Hin. unfold distinct in Hd. rewrite all_names_app in Hd.
        apply NoDup_app in Hd as (_ & Hdj & _). apply (Hdj p Hin), elem_all_names. eauto. }
      split; [|split; [done|split; [by left|]]].
      * apply Forall_app. split; [done|]. constructor.
        -- apply (clean_local f0 f'); [|done]. apply Hkeep. left.
        -- apply Forall_forall. intros t Ht. rewrite Forall_forall in Hcd.
           apply (clean_local f0 f'); [|by apply Hcd]. apply Hkeep. by right.
      * eapply frame_trans; [eapply only_frame; [|exact Honly]; apply elem_of_app; right; left|].
        by apply frame_app_l.
    + assert (Hrest : Forall (prepared f0 f') (done ++ [s]) /\ Forall (clean f0 f') ss).
      { assert (Hk : forall t, t ∈ done ++ ss -> forall p, p ∈ names t -> f' !! p = f !! p).
        { intros t Ht p Hpn. apply Honly. intros Hn. apply (Hdis p Hn), elem_all_names. eauto. }
        rewrite Forall_forall in Hp. rewrite Forall_forall in Hcss. split.
        - apply Forall_app. split; [|by apply Forall_singleton]. apply Forall_forall. intros t Ht.
          apply (prepared_local f0 f); [|by apply Hp]. apply Hk, elem_of_app. by left.
        - apply Forall_forall. intros t Ht. apply (clean_local f0 f); [|by apply Hcss].
          apply Hk, elem_of_app. by right. }
      destruct Hrest as [Hr1 Hr2].
      specialize (IH (done ++ [s]) f'). rewrite <- app_assoc in IH. specialize (IH Hd Hr1 Hr2 Hiss).
      assert (Hfr : frame (done ++ s :: ss) f f').
      { eapply only_frame; [|exact Honly]. apply elem_of_app. right. left. }
      destruct (prepare_all f' ss (done ++ [s])) as [f'' [e|]].
      * destruct IH as (? & ? & ? & ?). split; [done|]. split; [done|]. split; [by right|].
        by eapply frame_trans.
      * destruct IH as (? & ?). split; [done|]. by eapply frame_trans.
Qed.
End NoInterference.

Definition erase (s : StagedReplacement) : StagedReplacement := set_installed s false.

Lemma names_erase s b : names (set_installed s b) = names s.
Proof. done. Qed.
Lemma all_names_erase ss : all_names (map erase ss) = all_names ss.
Proof. unfold all_names. by rewrite map_map. Qed.
Lemma distinct_erase ss ss' : map erase ss ≡ₚ map erase ss' -> distinct ss -> distinct ss'.
Proof.
  intros He Hd. unfold distinct in *. rewrite <- (all_names_erase ss').
  apply (distinct_perm (map erase ss)); [done|]. unfold distinct. by rewrite all_names_erase.
Qed.
Lemma all_names_perm_erase ss ss' p :
  map erase ss ≡ₚ map erase ss' -> p ∈ all_names ss -> p ∈ all_names ss'.
Proof.
  intros He. rewrite <- (all_names_erase ss), <- (all_names_erase ss'), !elem_all_names.
  intros (s & Hs & Hp). exists s. split; [rewrite <- He; exact Hs | done].
Qed.

(** An installed replacement moves to the other list. *)
Lemma erase_move done s todo b :
  map erase ((set_installed s b :: done) ++ todo) ≡ₚ map erase (done ++ s :: todo).
Proof. rewrite !map_app. simpl. apply Permutation_middle. Qed.

Lemma erase_idem s : erase (erase s) = erase s.
Proof. done. Qed.

Section InstallLoop.
Context (env : nat -> fs -> fs) (policy : nat -> bool).

(** The loop only partitions the batch, and marks what it installed. *)
Lemma install_all_partition i f done todo :
  let '(f', done', todo', e) := install_all env policy i f done todo in
  map erase (done' ++ todo') ≡ₚ map erase (done ++ todo)
  /\ (e = None -> todo' = []).
Proof.
  revert i f done. induction todo as [|s todo IH]; intros i f done; simpl.
  { done. }
  destruct (policy i); [|split; [done | discriminate]].
  destruct (install _ s) as [f'|e]; [|split; [done | discriminate]].
  specialize (IH (S i) f' (set_installed s true :: done)).
  destruct (install_all _ _ _ _ _ _) as [[[f'' d] t] e]. destruct IH as [IH1 IH2].
  split; [|done]. rewrite IH1. apply erase_move.
Qed.
End InstallLoop.

Section Atomic.
Context (f0 : fs) (policy : nat -> bool).
Abbreviation quiet := (fun (_ : nat) (f : fs) => f).

Lemma install_all_spec i f done todo :
  distinct (done ++ todo) -> Forall (in_place f0 f) done -> Forall (prepared f0 f) todo ->
  let '(f', done', todo', e) := install_all quiet policy i f done todo in
  Forall (in_place f0 f') done' /\ Forall (prepared f0 f') todo' /\ frame (done ++ todo) f f'
  /\ match e with
     | None => (forall j, i <= j < i + length todo -> policy j = true)
               /\ Forall (fun s => ~ mismatch f0 s) todo
     | Some e => e <> Quarantined
                 /\ ((exists j, i <= j < i + length todo /\ policy j = false) \/ Exists (mismatch f0) todo)
     end.
Proof.
  revert i f done. induction todo as [|s todo IH]; intros i f done Hd Hin Hpr; simpl.
  { repeat split; [done.. | lia | constructor]. }
  inversion Hpr as [|? ? Hps Hpt]; subst.
  destruct (policy i) eqn:Hpol; cycle 1.
  { split; [done|]. split; [by constructor|]. split; [by intros p|]. split; [done|].
    left. exists i. split; [lia | done]. }
  pose proof (distinct_perm _ _ (Permutation_sym (Permutation_middle done todo s)) Hd) as Hd'.
  pose proof Hd' as (Hnd & Hdis & Hdr)%distinct_cons.
  pose proof (install_spec f0 f s Hnd Hps) as Hspec.
  destruct (install f s) as [f'|e].
  - destruct Hspec as [Hip Honly].
    assert (Hk : forall t, t ∈ done ++ todo -> forall p, p ∈ names t -> f' !! p = f !! p).
    { intros t Ht p Hp. apply Honly. intros Hn. apply (Hdis p Hn), elem_all_names. eauto. }
    specialize (IH (S i) f' (set_installed s true :: done)).
    destruct (install_all _ _ _ _ _ _) as [[[f'' d] t] e].
    destruct IH as (IH1 & IH2 & IH3 & IH4).
    + apply (distinct_erase (done ++ s :: todo)); [|done]. symmetry. apply erase_move.
    + constructor; [done|]. rewrite Forall_forall in Hin. apply Forall_forall. intros t0 Ht.
      apply (in_place_local f0 f); [|by apply Hin]. apply Hk, elem_of_app. by left.
    + rewrite Forall_forall in Hpt. apply Forall_forall. intros t0 Ht.
      apply (prepared_local f0 f); [|by apply Hpt]. apply Hk, elem_of_app. by right.
    + split; [done|]. split; [done|]. split.
      * eapply frame_trans; [eapply only_frame; [|exact Honly]; apply elem_of_app; right; left|].
        eapply frame_weaken; [|exact IH3]. intros p Hp.
        eapply all_names_perm_erase; [|exact Hp]. apply erase_move.
      * destruct e as [e|].
        -- destruct IH4 as [He [(j & Hj & Hpj)|Hm]]; split; try done.
           ++ left. exists j. split; [lia | done].
           ++ right. by right.
        -- destruct IH4 as [Hp Hm]. split.
           ++ intros j Hj. destruct (decide (j = i)) as [->|Hne]; [done|]. apply Hp. lia.
           ++ constructor; [|done]. intros Hmm. apply Hmm. exact (proj1 Hip).
  - split; [done|]. split; [by constructor|]. split; [by intros p|]. destruct Hspec as [He Hm].
    split; [done|]. right. by left.
Qed.

Lemma rollback_all_spec i f done :
  distinct done -> Forall (in_place f0 f) done ->
  exists f', rollback_all quiet i f done = (f', map erase done, true)
             /\ Forall (clean f0 f') done /\ frame done f f'.
Proof.
  revert i f. induction done as [|s done IH]; intros i f Hd Hin; simpl; [by exists f|].
  inversion Hin as [|? ? Hs Hrest]; subst. pose proof Hd as (Hnd & Hdis & Hdr)%distinct_cons.
  destruct (rollback_spec f0 f s Hnd Hs) as (f1 & Hr & Hc). rewrite Hr.
  pose proof (rollback_only _ _ _ Hr) as Honly.
  destruct (IH (S i) f1 Hdr) as (f2 & -> & Hc2 & Hf2).
  { eapply (only_keeps _ s); [apply in_place_local | done | exact Honly | done]. }
  exists f2. split; [done|]. split.
  - constructor; [|done]. apply (clean_local f0 f1); [|done]. intros p Hp. apply Hf2. by apply Hdis.
  - eapply frame_trans; [eapply only_frame; [left | exact Honly]|].
    eapply frame_weaken; [|exact Hf2]. intros p Hp. apply elem_all_names in Hp as (t & Ht & Hp).
    apply elem_all_names. exists t. split; [by right | done].
Qed.
End Atomic.

(** After a whole batch: the new content in place, no work file left. *)
Definition landed (f : fs) (s : StagedReplacement) : Prop :=
  f !! leaf s = Some (File (replacement s)) /\ f !! staged s = None /\ f !! backup s = None.

Lemma landed_local : local landed.
Proof.
  intros f f' s Hf; unfold landed.
  by rewrite (Hf _ (leaf_in s)), (Hf _ (staged_in s)), (Hf _ (backup_in s)).
Qed.

Lemma drop_landed f0 f s :
  NoDup (names s) -> in_place f0 f (set_installed s true) ->
  landed (drop_staged f (erase s)) (erase s).
Proof.
  intros Hnd (Ho & Hl & Hs & Hb & _).
  rewrite (drop_uninstalled f (erase s) None (original s)) by done.
  apply names_distinct in Hnd as (H1 & H2 & H3). unfold landed. simpl in *.
  rewrite lookup_delete_eq, !lookup_delete_ne, lookup_delete_eq by done. done.
Qed.

Lemma drop_all_clean f0 f ss :
  distinct ss -> Forall (fun s => installed s = false /\ clean f0 f s \/ prepared f0 f s) ss ->
  Forall (clean f0 (foldl drop_staged f ss)) ss /\ frame ss f (foldl drop_staged f ss).
Proof.
  intros Hd Hf. pose (P := fun g s => installed s = false /\ clean f0 g s \/ prepared f0 g s).
  apply (foldl_local drop_staged P (clean f0) ss f); [| | | | done | exact Hf].
  - intros; apply drop_staged_only.
  - intros g g' s Hg [[Hi Hc]|Hp]; [left; split; [done|]; by apply (clean_local f0 g)
                                  | right; by apply (prepared_local f0 g)].
  - apply clean_local.
  - intros g s Hnd [[Hi Hc]|Hp]; [by apply drop_clean | by apply drop_prepared].
Qed.

(** Clean on the names of the batch and framed elsewhere: nothing changed. *)
Lemma clean_frame_eq f0 f f' ss :
  Forall (clean f0 f0) ss -> Forall (clean f0 f') ss -> frame ss f f' -> frame ss f0 f -> f' = f0.
Proof.
  intros H0 Hc Hf1 Hf2. apply map_eq. intros p.
  destruct (decide (p ∈ all_names ss)) as [Hin|Hn]; [|by rewrite Hf1, Hf2].
  apply elem_all_names in Hin as (s & Hs & Hp). rewrite Forall_forall in H0, Hc.
  destruct (H0 s Hs) as (_ & H2 & H3). destruct (Hc s Hs) as (H1' & H2' & H3').
  unfold names in Hp. rewrite !elem_of_cons, elem_of_nil in Hp.
  destruct Hp as [->|[->|[->|[]]]]; [done | by rewrite H2, H2' | by rewrite H3, H3'].
Qed.

(** [erase] does not change what [clean] reads. *)
Lemma clean_erase f0 f ss ss' :
  map erase ss ≡ₚ map erase ss' -> Forall (clean f0 f) ss -> Forall (clean f0 f) ss'.
Proof.
  intros He. rewrite !Forall_forall. intros Hc s Hs.
  assert (Hin : erase s ∈ map erase ss).
  { rewrite He. apply list_elem_of_In, in_map. by apply list_elem_of_In. }
  apply list_elem_of_In, in_map_iff in Hin as (t & Ht & Hin). apply list_elem_of_In in Hin.
  destruct t, s. injection Ht as -> -> -> -> ->. exact (Hc _ Hin).
Qed.

(** A fresh batch: every name differs, and no work file exists yet. *)
Definition fresh (f0 : fs) (ss : list StagedReplacement) : Prop :=
  distinct ss /\ Forall (fun s => installed s = false) ss /\ Forall (clean f0 f0) ss.

Lemma fresh_prepare f0 ss :
  fresh f0 ss ->
  match prepare_all f0 ss [] with
  | (f, None) => Forall (prepared f0 f) ss /\ frame ss f0 f
  | (f, Some e) => f = f0 /\ e <> Quarantined /\ Exists (mismatch f0) ss
  end.
Proof.
  intros (Hd & Hi & Hc). pose proof (prepare_all_spec f0 ss [] f0 Hd (Forall_nil_2 _) Hc Hi) as H.
  destruct (prepare_all f0 ss []) as [f [e|]]; [|done]. destruct H as (H1 & H2 & H3 & H4).
  split; [|done]. by apply (clean_frame_eq f0 f0 f ss).
Qed.

(** Rolling back a partly installed batch and dropping it restores [f0]. *)
Lemma batch_undone f0 f1 f2 n ins todo ss :
  Forall (clean f0 f0) ss -> distinct ss -> map erase (ins ++ todo) ≡ₚ map erase ss ->
  frame ss f0 f1 -> frame ss f1 f2 ->
  Forall (in_place f0 f2) ins -> Forall (prepared f0 f2) todo ->
  exists f3, rollback_all (fun _ f => f) n f2 ins = (f3, map erase ins, true)
             /\ foldl drop_staged f3 (map erase ins ++ todo) = f0.
Proof.
  intros Hc Hd Hperm Hf1 Hf2 Hin Htodo.
  assert (Hd' : distinct (ins ++ todo)) by by eapply distinct_erase.
  pose proof Hd' as Hd2. unfold distinct in Hd2. rewrite all_names_app in Hd2.
  apply NoDup_app in Hd2 as (Hdi & Hdj & _).
  destruct (rollback_all_spec f0 n f2 ins Hdi Hin) as (f3 & Hr & Hc3 & Hf3).
  exists f3. split; [done|]. rewrite Forall_forall in Hc3, Htodo.
  assert (Hperm' : map erase (map erase ins ++ todo) ≡ₚ map erase ss).
  { rewrite map_app, map_map. rewrite map_app in Hperm. exact Hperm. }
  destruct (drop_all_clean f0 f3 (map erase ins ++ todo)) as [Hcl Hfr].
  - eapply distinct_erase; [symmetry; exact Hperm' | done].
  - apply Forall_app. split.
    + apply Forall_map, Forall_forall. intros s Hs. left. split; [done|]. exact (Hc3 s Hs).
    + apply Forall_forall. intros s Hs. right.
      apply (prepared_local f0 f2); [|by apply Htodo]. intros p Hpn. apply Hf3. intros Hpd.
      apply (Hdj p Hpd), elem_all_names. eauto.
  - apply (clean_frame_eq f0 f3 _ ss); [done | eapply clean_erase; [exact Hperm' | exact Hcl] | |].
    + eapply frame_weaken; [|exact Hfr]. intros p. by apply all_names_perm_erase.
    + apply (frame_trans ss f0 f2 f3); [by apply (frame_trans ss f0 f1 f2)|].
      eapply frame_weaken; [|exact Hf3]. intros p Hpn.
      eapply all_names_perm_erase; [exact Hperm|]. rewrite all_names_app. apply elem_of_app. by left.
Qed.

(** Dropping a fully installed batch leaves the replacements and nothing else. *)
Lemma batch_landed f0 f2 ins ss :
  Forall (clean f0 f0) ss -> distinct ss -> map erase ins ≡ₚ map erase ss ->
  frame ss f0 f2 -> Forall (in_place f0 f2) ins ->
  (forall s, s ∈ ss -> foldl drop_staged f2 (map erase ins) !! leaf s = Some (File (replacement s)))
  /\ forall p, p ∉ map leaf ss -> foldl drop_staged f2 (map erase ins) !! p = f0 !! p.
Proof.
  intros Hc Hd Hperm Hf2 Hin. rewrite Forall_forall in Hin, Hc.
  pose (P := fun g s => in_place f0 g (set_installed s true) /\ installed s = false).
  destruct (foldl_local drop_staged P landed (map erase ins) f2) as [Hl Hfr].
  { intros; apply drop_staged_only. }
  { intros g g' s Hg [Hip Hne]. split; [|done]. by apply (in_place_local f0 g). }
  { apply landed_local. }
  { intros g [l st b o r i] Hnd [Hip Hne]. simpl in Hne. subst i.
    exact (drop_landed f0 g (MkStaged l st b o r false) Hnd Hip). }
  { eapply distinct_erase; [|exact Hd]. by rewrite map_map, <- Hperm. }
  { apply Forall_map, Forall_forall. intros s Hs. split; [|done].
    destruct (Hin s Hs) as (? & ? & ? & ? & ?). repeat split; done. }
  rewrite Forall_forall in Hl. set (f3 := foldl drop_staged f2 (map erase ins)) in *.
  assert (Hat : forall s, s ∈ ss -> landed f3 (erase s)).
  { intros s Hs. apply Hl. rewrite Hperm. apply list_elem_of_In, in_map. by apply list_elem_of_In. }
  split; [intros s Hs; exact (proj1 (Hat s Hs))|].
  intros p Hpl. destruct (decide (p ∈ all_names ss)) as [Hps|Hps].
  - apply elem_all_names in Hps as (s & Hs & Hps).
    destruct (Hat s Hs) as (_ & H2 & H3). destruct (Hc s Hs) as (_ & H2' & H3').
    unfold names in Hps. rewrite !elem_of_cons, elem_of_nil in Hps.
    destruct Hps as [->|[->|[->|[]]]]; [|by rewrite H2'; exact H2 | by rewrite H3'; exact H3].
    exfalso. apply Hpl, list_elem_of_In, in_map, list_elem_of_In, Hs.
  - rewrite Hfr; [by apply Hf2|]. intros Hx. apply Hps.
    eapply all_names_perm_erase; [exact Hperm|]. by rewrite <- all_names_erase.
Qed.

(** A batch that is staged over [f0]: it is installed completely or undone. *)
Lemma install_batch_atomic (f0 f1 : fs) (policy : nat -> bool) (ss : list StagedReplacement) :
  fresh f0 ss -> Forall (prepared f0 f1) ss -> frame ss f0 f1 ->
  let '(r, f', _) := install_batch (fun _ f => f) policy f1 ss in
  (r = Ok tt <-> Forall (fun s => f0 !! leaf s = File <$> original s) ss
                 /\ forall i, i < length ss -> policy i = true)
  /\ match r with
     | Ok _ => (forall s, s ∈ ss -> f' !! leaf s = Some (File (replacement s)))
               /\ forall p, p ∉ map leaf ss -> f' !! p = f0 !! p
     | Err e => f' = f0 /\ e <> Quarantined
     end.
Proof.
  intros (Hd & _ & Hc) Hp Hf1. unfold install_batch.
  pose proof (install_all_spec f0 policy 0 f1 [] ss Hd (Forall_nil_2 _) Hp) as Hinst.
  pose proof (install_all_partition (fun _ f => f) policy 0 f1 [] ss) as Hpart.
  destruct (install_all _ policy 0 f1 [] ss) as [[[f2 ins] todo] [e|]];
    destruct Hinst as (Hin & Htodo & Hf2 & Hwhy), Hpart as [Hperm Htn].
  - destruct (batch_undone f0 f1 f2 (length ss) ins todo ss) as (f3 & -> & Hf3); [done..|].
    destruct Hwhy as [He Hwhy]. split; [split; [done|]|done].
    intros [Ha Hpol]. destruct Hwhy as [(j & Hj & Hpj)|Hm]; [rewrite Hpol in Hpj by lia; done|].
    apply Exists_exists in Hm as (s & Hs & Hm). rewrite Forall_forall in Ha. exfalso. by apply Hm, Ha.
  - destruct Hwhy as [Hpol Hmatch]. rewrite (Htn eq_refl), app_nil_r in Hperm.
    split.
    + split; [intros _|done]. split; [|intros i Hlt; apply Hpol; lia].
      eapply Forall_impl; [exact Hmatch|]. intros s Hs. by apply dec_stable.
    + by apply (batch_landed f0 f2 ins ss); [..|eapply frame_trans|].
Qed.

(** C2. Without interference a write batch is all or nothing.  It succeeds
    exactly when every file still holds the recorded original and the policy
    allows every step; then every destination holds its replacement and no
    other path differs.  Otherwise every path holds what it held before (so
    no staged or backup file is left behind), and the error is never the
    quarantine. *)
Theorem write_batch_atomic (f0 : fs) (policy : nat -> bool) (ss : list StagedReplacement) :
  fresh f0 ss ->
  let '(r, f', dropped) := apply_batch (fun _ f => f) policy f0 ss in
  (r = Ok tt <-> Forall (fun s => f0 !! leaf s = File <$> original s) ss
                 /\ forall i, i < length ss -> policy i = true)
  /\ match r with
     | Ok _ => (forall s, s ∈ ss -> f' !! leaf s = Some (File (replacement s)))
               /\ forall p, p ∉ map leaf ss -> f' !! p = f0 !! p
     | Err e => f' = f0 /\ e <> Quarantined
     end.
Proof.
  intros Hfresh. pose proof (fresh_prepare f0 ss Hfresh) as Hprep. unfold apply_batch.
  destruct (prepare_all f0 ss []) as [f1 [e|]].
  - destruct Hprep as (-> & He & Hm). split; [|done]. split; [done|]. intros [Ha _].
    apply Exists_exists in Hm as (s & Hs & Hm). rewrite Forall_forall in Ha. exfalso. by apply Hm, Ha.
  - destruct Hprep as [Hp Hf1]. exact (install_batch_atomic f0 f1 policy ss Hfresh Hp Hf1).
Qed.

Definition sample_fs : fs := {[ T "a" := File (T "one"); T "b" := File (T "two") ]}.
Definition sample_batch : list StagedReplacement :=
  [ MkStaged (T "a") (T ".s1") (T ".b1") (Some (T "one")) (T "ONE") false;
    MkStaged (T "c") (T ".s2") (T ".b2") None (T "new") false ].

Lemma sample_fresh : fresh sample_fs sample_batch.
Proof.
  split; [|split].
  - apply (bool_decide_unpack (NoDup (all_names sample_batch))). vm_compute. exact I.
  - by repeat constructor.
  - repeat constructor; vm_compute; reflexivity.
Qed.

Lemma write_batch_atomic_witness :
  fst (fst (apply_batch (fun _ f => f) (fun _ => true) sample_fs sample_batch)) = Ok tt
  /\ fst (fst (apply_batch (fun _ f => f) (fun i => i =? 0) sample_fs sample_batch)) = Err PolicyRevoked
  /\ snd (fst (apply_batch (fun _ f => f) (fun i => i =? 0) sample_fs sample_batch)) = sample_fs.
Proof.
  pose proof (write_batch_atomic sample_fs (fun _ => true) sample_batch sample_fresh) as H1.
  pose proof (write_batch_atomic sample_fs (fun i => i =? 0) sample_batch sample_fresh) as H2.
  split; [|split].
  - destruct (apply_batch _ (fun _ => true) _ _) as [[r f] d]. apply H1. split; [|done].
    repeat constructor; vm_compute; reflexivity.
  - vm_compute. reflexivity.
  - assert (Hr : fst (fst (apply_batch (fun _ f => f) (fun i => i =? 0) sample_fs sample_batch))
                 = Err PolicyRevoked) by (vm_compute; reflexivity).
    destruct (apply_batch _ (fun i => i =? 0) _ _) as [[r f] d]. simpl in Hr. subst r. apply H2.
Defined.

(** *** Interference *)

(** The recovery copy of an installed replacement is there. *)
Definition kept (f : fs) (s : StagedReplacement) : Prop :=
  installed s = true -> f !! backup s = File <$> original s.
Definition backed (f : fs) (s : StagedReplacement) : Prop := f !! backup s = File <$> original s.

Lemma kept_local : local kept.
Proof. intros f f' s Hf H Hi. rewrite (Hf _ (backup_in s)). by apply H. Qed.
Lemma backed_local : local backed.
Proof. intros f f' s Hf H. unfold backed. by rewrite (Hf _ (backup_in s)). Qed.

Lemma install_backed f s f' :
  NoDup (names s) -> install f s = Ok f' -> backed f s -> backed f' s /\ only s f f'.
Proof.
  intros Hnd H Hb. apply install_Ok in H as [_ Hr].
  split; [|eapply rename_only; [| |exact Hr]; eauto with harness].
  apply rename_Ok in Hr as (n & _ & ->). pose proof (names_distinct _ Hnd) as (H1 & H2 & H3).
  unfold backed. by rewrite lookup_insert_ne, lookup_delete_ne.
Qed.

Lemma drop_kept f s : NoDup (names s) -> kept f s -> kept (drop_staged f s) s.
Proof.
  intros Hnd Hk Hi. pose proof (names_distinct _ Hnd) as (H1 & H2 & H3). specialize (Hk Hi).
  unfold drop_staged. rewrite Hi. unfold remove_quiet, remove_file.
  destruct (f !! staged s) as [[d|]|]; [|exact Hk..]. by rewrite lookup_delete_ne.
Qed.

Section Interference.
Context (f0 : fs) (env : nat -> fs -> fs) (policy : nat -> bool) (ss0 : list StagedReplacement).
(** Nobody else touches the work files: their names hold a random id. *)
Context (env_private : forall i f s, s ∈ ss0 ->
           env i f !! staged s = f !! staged s /\ env i f !! backup s = f !! backup s).

Lemma env_backed i f ss :
  (forall s, s ∈ ss -> backup s ∈ map backup ss0) -> Forall (backed f) ss -> Forall (backed (env i f)) ss.
Proof using env_private.
  clear f0 policy. intros Hin Hb. apply Forall_forall. intros s Hs. rewrite Forall_forall in Hb.
  unfold backed. rewrite <- (Hb s Hs).
  specialize (Hin s Hs). apply list_elem_of_In, in_map_iff in Hin as (t & Ht & Hin).
  rewrite <- Ht. apply env_private. by apply list_elem_of_In.
Qed.

Lemma backup_of_erase ss ss' s :
  map erase ss ≡ₚ map erase ss' -> s ∈ ss -> backup s ∈ map backup ss'.
Proof using.
  clear. intros Hp Hs. assert (Hm : map backup ss ≡ₚ map backup ss').
  { transitivity (map backup (map erase ss)); [by rewrite map_map|].
    rewrite Hp. by rewrite map_map. }
  rewrite <- Hm. apply list_elem_of_In, in_map. by apply list_elem_of_In.
Qed.

Lemma install_all_backed i f ins todo :
  map erase (ins ++ todo) ≡ₚ map erase ss0 -> distinct ss0 ->
  Forall (fun s => installed s = true) ins -> Forall (fun s => installed s = false) todo ->
  Forall (backed f) (ins ++ todo) ->
  let '(f', ins', todo', e) := install_all env policy i f ins todo in
  Forall (backed f') (ins' ++ todo') /\ Forall (fun s => installed s = true) ins'
  /\ Forall (fun s => installed s = false) todo'
  /\ match e with Some e => e <> Quarantined | None => True end.
Proof using env_private.
  intros Hp Hd. revert i f ins Hp. induction todo as [|s todo IH]; intros i f ins Hp Hi Hni Hb; simpl.
  { done. }
  assert (Hb' : Forall (backed (env i f)) (ins ++ s :: todo)).
  { apply env_backed; [|done]. intros t Ht. by eapply backup_of_erase. }
  destruct (policy i); [|done].
  pose proof (distinct_erase _ _ (Permutation_sym Hp) Hd) as Hd1.
  pose proof (distinct_perm _ _ (Permutation_sym (Permutation_middle ins todo s)) Hd1) as Hd2.
  pose proof Hd2 as (Hnd & _ & _)%distinct_cons.
  inversion Hni as [|? ? Hns Hnt]; subst.
  rewrite <- Permutation_middle in Hb'. inversion Hb' as [|? ? Hbs Hbr]; subst.
  destruct (install (env i f) s) as [f'|e] eqn:E.
  - destruct (install_backed _ _ _ Hnd E Hbs) as [Hbs' Honly].
    specialize (IH (S i) f' (set_installed s true :: ins)).
    destruct (install_all _ _ _ _ _ _) as [[[f'' d] t] e]. apply IH; [| by constructor | done |].
    + rewrite erase_move. done.
    + constructor; [done|]. eapply (only_keeps _ s); [apply backed_local | done | exact Honly | done].
  - split; [rewrite <- Permutation_middle; by constructor|]. split; [done|]. split; [done|].
    unfold install in E. apply bind_Err_inv in E as [E|(cur & _ & E)].
    + unfold current in E. repeat case_match; simplify_eq; done.
    + case_bool_decide; [|by simplify_eq]. unfold rename in E. repeat case_match; simplify_eq; done.
Qed.
End Interference.

Lemma backed_kept f ss : Forall (backed f) ss -> Forall (kept f) ss.
Proof. intros H. eapply Forall_impl; [exact H|]. by intros s Hb _. Qed.

Lemma uninstalled_kept f ss : Forall (fun s => installed s = false) ss -> Forall (kept f) ss.
Proof. intros H. eapply Forall_impl; [exact H|]. intros s Hi Ht. congruence. Qed.

Lemma rollback_all_kept env ss0 i f ins :
  (forall i f s, s ∈ ss0 -> env i f !! staged s = f !! staged s /\ env i f !! backup s = f !! backup s) ->
  (forall s, s ∈ ins -> backup s ∈ map backup ss0) -> distinct ins ->
  Forall (fun s => installed s = true) ins -> Forall (backed f) ins ->
  let '(f', rest, ok) := rollback_all env i f ins in
  Forall (kept f') rest /\ map erase rest = map erase ins
  /\ (if ok : bool then Forall (fun s => installed s = false) rest else Exists (fun s => installed s = true) rest).
Proof.
  intros Henv. revert i f. induction ins as [|s ins IH]; intros i f Hin Hd Hi Hb; simpl; [done|].
  pose proof (env_backed env ss0 Henv i f (s :: ins) Hin Hb) as Hb'.
  inversion Hi as [|? ? His Hit]; subst. inversion Hb' as [|? ? Hbs Hbt]; subst.
  destruct (rollback (env i f) s) as [f'|e] eqn:E.
  - pose proof (rollback_only _ _ _ E) as Honly.
    specialize (IH (S i) f'). destruct (rollback_all env (S i) f' ins) as [[f'' rest] ok].
    destruct IH as (IH1 & IH2 & IH3); [| | done | |].
    + intros t Ht. apply Hin. by right.
    + by apply distinct_cons in Hd as (_ & _ & ?).
    + eapply (only_keeps _ s); [apply backed_local | done | exact Honly | done].
    + split; [by constructor|]. split; [simpl; by rewrite IH2|]. destruct ok; [by constructor | by right].
  - split; [by apply backed_kept; constructor|]. split; [done|]. by left.
Qed.

(** C36. Whatever other processes do to the files between the steps (they do
    not know the random names of the work files), the original of an
    installed file is never lost: when the batch ends, every replacement that
    is still installed and not accepted has its backup, with exactly the
    recorded original.  This happens only in the quarantine, which the
    caller is told about; after any other result no replacement is left in
    that state. *)
Theorem recovery_copy_survives (f0 : fs) (env : nat -> fs -> fs) (policy : nat -> bool)
    (ss : list StagedReplacement) :
  fresh f0 ss ->
  (forall i f s, s ∈ ss -> env i f !! staged s = f !! staged s /\ env i f !! backup s = f !! backup s) ->
  let '(r, f', dropped) := apply_batch env policy f0 ss in
  Forall (fun s => installed s = true -> f' !! backup s = File <$> original s) dropped
  /\ (r = Err Quarantined <-> exists s, s ∈ dropped /\ installed s = true)
  /\ (dropped = [] \/ map erase dropped ≡ₚ map erase ss).
Proof.
  intros Hfresh Henv. pose proof (fresh_prepare f0 ss Hfresh) as Hprep.
  destruct Hfresh as (Hd & Hi & Hc). unfold apply_batch, install_batch.
  assert (Hnone : forall l, Forall (fun s => installed s = false) l -> ~ exists s, s ∈ l /\ installed s = true).
  { intros l Hl (s & Hs & Ht). rewrite Forall_forall in Hl. rewrite Hl in Ht; done. }
  destruct (prepare_all f0 ss []) as [f1 [e|]].
  { split; [constructor|]. split; [|by left]. split; [intros [= ->]; by destruct Hprep as (_ & ? & _)|].
    intros H. by apply Hnone in H. }
  destruct Hprep as [Hp _].
  assert (Hb : Forall (backed f1) ss) by (eapply Forall_impl; [exact Hp|]; by intros s (_ & _ & ? & _)).
  pose proof (install_all_backed env policy ss Henv 0 f1 [] ss (Permutation_refl _) Hd
                (Forall_nil_2 _) Hi Hb) as Hinst.
  pose proof (install_all_partition env policy 0 f1 [] ss) as Hpart.
  destruct (install_all env policy 0 f1 [] ss) as [[[f2 ins] todo] [e|]];
    destruct Hinst as (Hb2 & Hi2 & Hn2 & He), Hpart as [Hperm Htn]; cycle 1.
  { rewrite (Htn eq_refl), app_nil_r in Hperm. change (fun s => set_installed s false) with erase.
    assert (Hun : Forall (fun s => installed s = false) (map erase ins)) by by apply Forall_map, Forall_true.
    split; [|split; [split; [done|]; intros H; by apply Hnone in H | right; by rewrite map_map, <- Hperm]].
    eapply Forall_impl; [exact Hun|]. intros s Hf Ht. congruence. }
  assert (Hd2 : distinct (ins ++ todo)) by by eapply distinct_erase.
  pose proof Hd2 as Hdi. unfold distinct in Hdi. rewrite all_names_app in Hdi. apply NoDup_app in Hdi as (Hdi & _ & _).
  pose proof Hb2 as Hb3. apply Forall_app in Hb3 as [Hbi _].
  pose proof (rollback_all_kept env ss (length ss) f2 ins Henv) as Hroll.
  destruct (rollback_all env (length ss) f2 ins) as [[f3 rest] ok].
  destruct Hroll as (Hk & Hrest & Hok); [| done..|].
  { intros s Hs. apply (backup_of_erase (ins ++ todo)); [done|]. apply elem_of_app. by left. }
  assert (Hp3 : map erase (rest ++ todo) ≡ₚ map erase ss) by (rewrite map_app, Hrest, <- map_app; done).
  assert (Hfin : Forall (kept (foldl drop_staged f3 (rest ++ todo))) (rest ++ todo)).
  { apply (foldl_local drop_staged kept kept); [| apply kept_local.. | | |].
    - intros; apply drop_staged_only.
    - intros; by apply drop_kept.
    - by eapply distinct_erase.
    - apply Forall_app. split; [done | by apply uninstalled_kept]. }
  destruct ok; (split; [exact Hfin|]; split; [|by right]).
  - split; [congruence|]. intros H. exfalso. eapply Hnone; [|exact H]. by apply Forall_app.
  - split; [intros _|done]. apply Exists_exists in Hok as (s & Hs & Ht). exists s. split; [|done].
    apply elem_of_app. by left.
Qed.

(** A process that changes [a] after it was installed. *)
Definition tamper (i : nat) (f : fs) : fs := if i =? 1 then <[T "a" := File (T "tampered")]> f else f.
Definition sample_batch2 : list StagedReplacement :=
  [ MkStaged (T "a") (T ".s1") (T ".b1") (Some (T "one")) (T "ONE") false;
    MkStaged (T "b") (T ".s2") (T ".b2") (Some (T "stale")) (T "new") false ].

Lemma recovery_copy_survives_witness :
  fst (fst (apply_batch tamper (fun _ => true) sample_fs sample_batch2)) = Err Quarantined
  /\ snd (fst (apply_batch tamper (fun _ => true) sample_fs sample_batch2)) !! T ".b1" = Some (File (T "one"))
  /\ exists s, s ∈ snd (apply_batch tamper (fun _ => true) sample_fs sample_batch2) /\ installed s = true.
Proof.
  assert (Hr : fst (fst (apply_batch tamper (fun _ => true) sample_fs sample_batch2)) = Err Quarantined)
    by (vm_compute; reflexivity).
  split; [exact Hr|]. split; [vm_compute; reflexivity|].
  pose proof (recovery_copy_survives sample_fs tamper (fun _ => true) sample_batch2) as H.
  destruct (apply_batch tamper _ _ _) as [[r f] d]. simpl in Hr. apply H; [| |exact Hr].
  - split; [|split].
    + apply (bool_decide_unpack (NoDup (all_names sample_batch2))). vm_compute. exact I.
    + by repeat constructor.
    + repeat constructor; vm_compute; reflexivity.
  - intros i g s Hs. unfold tamper. destruct (i =? 1); [|done].
    unfold sample_batch2 in Hs. rewrite !elem_of_cons, elem_of_nil in Hs.
    destruct Hs as [->|[->|[]]]; simpl; rewrite !lookup_insert_ne by discriminate; done.
Defined.
