(* ===== verification/Workspace.v ===== *)
(** The clone jail's read and the admission of a proposal:
    [RepoWorkspace::read_file] and the checks of [apply_proposal] in
    [agentic/workspace.rs], before the batch that [Transaction] models.

    The clone's directory handle is a read-only view: what a relative path
    names ([lookup], without following a final link), and how the operating
    system resolves a directory inside the clone ([canonicalize_dir]). *)

From S2P Require Import Prelude Text RepoPaths Glob ReadRequests Edits.
Local Open Scope Z_scope.

Definition DEFAULT_MAX_READ_BYTES : Z := 256000.
Definition DEFAULT_MAX_WRITE_BYTES : Z := 256000.

Inductive entry := RegularFile (bytes : list Z) | Directory | Symlink | OtherEntry.

Record view := MkView {
  lookup : list text -> option entry;
  canonicalize_dir : list text -> option (list component);
}.

Section Workspace.
Context (lower nfkc : text -> text).
Context (from_utf8 : list Z -> option text).

(** ** [read_file] *)

Definition read_target (target : text) : result harness_error text :=
  rel ← ok_or (canonical_repo_relative_path target) err_agentic;
  if existsb (is_dotgit_name lower) (split_on c_slash rel) then Err err_agentic else mret rel.

(** Open the resolved parents one by one, following no link. *)
Fixpoint open_parents (v : view) (opened : list text) (resolved : list component) : result harness_error (list text) :=
  match resolved with
  | [] => Ok opened
  | Normal part :: rest =>
      if is_dotgit_name lower part then Err err_agentic else
      match lookup v (opened ++ [part]) with
      | Some Directory => open_parents v (opened ++ [part]) rest
      | _ => Err err_agentic
      end
  | _ :: rest => open_parents v opened rest
  end.

(** The parent directory and the leaf of a canonical path. *)
Definition split_leaf (rel : text) : list text * text :=
  let parts := split_on c_slash rel in (removelast parts, List.last parts []).

(** The number of bytes is checked in the metadata and again after the read;
    both look at the same entry here. *)
Definition read_file (v : view) (target : text) : result harness_error text :=
  rel ← read_target target;
  let '(parent_path, leaf) := split_leaf rel in
  resolved ← ok_or (canonicalize_dir v parent_path) err_agentic;
  parent ← open_parents v [] resolved;
  match lookup v (parent ++ [leaf]) with
  | Some (RegularFile bytes) =>
      if DEFAULT_MAX_READ_BYTES <? Z.of_nat (length bytes) then Err err_agentic
      else ok_or (from_utf8 bytes) err_agentic
  | _ => Err err_agentic
  end.

(** ** The admission of a proposal *)

Inductive proposal_denial :=
| DenyPath (why : path_denial)
| DenyProtected
| DenyDuplicate
| DenyTooLarge
| DenyNoOriginal
| DenyDestination
| DenySymlink
| DenyStale
| DenyBudget.

(** [symlink_metadata] of every prefix of the path. *)
Definition crosses_symlink (v : view) (parts : list text) : bool :=
  existsb (fun n => match lookup v (take n parts) with Some Symlink => true | _ => false end)
          (seq 1 (length parts)).

(** The components of the path as the proposal spells it. *)
Definition raw_components (raw : text) : list text := List.filter kept_segment (split_on c_slash raw).

Record target := MkTarget { landed_path : text; expected : option text; content : text }.

Context (canonicalize : list component -> option (list component)).
Context (read_link : list component -> option link_target).
Context (dest : list component) (v : view).
(** The caller's protected paths and the configured ones. *)
Context (protected configured : list text).

Definition is_protected (path : text) : bool :=
  matches_protected_path lower nfkc path protected || matches_protected_path lower nfkc path configured.

(** One file of the proposal; [seen] holds the folded destinations so far. *)
Definition admit_file (originals : gmap text (option text)) (seen : gset text) (raw content : text)
    : result proposal_denial (target * gset text) :=
  match validate_write_path lower canonicalize read_link dest raw false with
  | Err why => Err (DenyPath why)
  | Ok landed =>
      if is_protected raw || is_protected landed then Err DenyProtected else
      let folded := fs_equiv_path lower nfkc landed in
      if decide (folded ∈ seen) then Err DenyDuplicate else
      if DEFAULT_MAX_WRITE_BYTES <? byte_len content then Err DenyTooLarge else
      match originals !! raw with
      | None => Err DenyNoOriginal
      | Some expected =>
          match canonical_repo_relative_path raw with
          | None => Err DenyDestination
          | Some canonical =>
              if crosses_symlink v (split_on c_slash canonical) then Err DenySymlink else
              let actual := match read_file v raw with Ok s => Some s | Err _ => None end in
              if negb (bool_decide (actual = expected))
                 || (negb (bool_decide (is_Some expected))
                     && bool_decide (is_Some (lookup v (raw_components raw))))
              then Err DenyStale
              else Ok (MkTarget landed expected content, {[folded]} ∪ seen)
          end
      end
  end.

Fixpoint admit_files (originals : gmap text (option text)) (seen : gset text) (files : list (text * text))
    : result proposal_denial (list target) :=
  match files with
  | [] => Ok []
  | (raw, content) :: rest =>
      '(t, seen') ← admit_file originals seen raw content;
      (cons t) <$> admit_files originals seen' rest
  end.

Definition total_bytes (ts : list target) : Z := foldr (fun t n => byte_len (content t) + n) 0 ts.

(** The files of the proposal in the order of their paths. *)
Definition proposal_entries (files : gmap text text) : list (text * text) :=
  omap (fun k => (fun c => (k, c)) <$> files !! k) (sorted_keys files).

Definition admit_proposal (p : Proposal) (max_write_budget_bytes : Z) : result proposal_denial (list target) :=
  targets ← admit_files (originals p) ∅ (proposal_entries (files p));
  if max_write_budget_bytes <? total_bytes targets then Err DenyBudget else mret targets.
End Workspace.

(** ** Lemmas *)

Section WorkspaceLemmas.
Context (lower nfkc : text -> text) (from_utf8 : list Z -> option text).

Lemma read_target_Ok target rel :
  read_target lower target = Ok rel ->
  canonical_repo_relative_path target = Some rel
  /\ Forall (fun n => is_dotgit_name lower n = false) (split_on c_slash rel).
Proof.
  unfold read_target. intros H. apply bind_Ok_inv in H as (r & Hr & H). apply ok_or_Ok in Hr.
  destruct (existsb _ _) eqn:E; [done|]. injection H as <-. split; [done|].
  apply Forall_forall. intros n Hn. destruct (is_dotgit_name lower n) eqn:En; [|done].
  rewrite <- not_true_iff_false in E. exfalso. apply E, existsb_exists. exists n.
  split; [by apply list_elem_of_In | done].
Qed.

(** Every directory on the way to [names] is a real directory. *)
Definition real_directories (v : view) (names : list text) : Prop :=
  forall n, (0 < n <= length names)%nat -> lookup v (take n names) = Some Directory.

Lemma open_parents_Ok v resolved opened names :
  open_parents lower v opened resolved = Ok names ->
  Forall (fun n => is_dotgit_name lower n = false) opened -> real_directories v opened ->
  Forall (fun n => is_dotgit_name lower n = false) names /\ real_directories v names.
Proof.
  revert opened. induction resolved as [|[part| |] rest IH]; intros opened H Hg Hd; simpl in H; eauto.
  { by injection H as <-. }
  destruct (is_dotgit_name lower part) eqn:Ep; [done|].
  destruct (lookup v (opened ++ [part])) as [[bytes| | |]|] eqn:El; try discriminate H.
  apply (IH _ H); [apply Forall_app; split; [done | by repeat constructor]|].
  intros n Hn. rewrite length_app in Hn. simpl in Hn.
  destruct (decide (n = length opened + 1)%nat) as [->|Hne].
  - rewrite take_ge; [done|]. rewrite length_app. done.
  - rewrite take_app_le by lia. apply Hd. lia.
Qed.

Lemma split_leaf_spec rel : split_on c_slash rel = fst (split_leaf rel) ++ [snd (split_leaf rel)].
Proof. unfold split_leaf. simpl. apply app_removelast_last, split_on_not_nil. Qed.
End WorkspaceLemmas.

Section AdmissionLemmas.
Context (lower nfkc : text -> text) (from_utf8 : list Z -> option text).
Context (canonicalize : list component -> option (list component)).
Context (read_link : list component -> option link_target).
Context (dest : list component) (v : view) (protected configured : list text).

Abbreviation fold_path := (fs_equiv_path lower nfkc).

(** What one admitted file is. *)
Record admitted_file (originals : gmap text (option text)) (raw cont : text) (t : target) : Prop := {
  af_content : content t = cont;
  af_landed : validate_write_path lower canonicalize read_link dest raw false = Ok (landed_path t);
  af_unprotected : is_protected lower nfkc protected configured raw = false
                   /\ is_protected lower nfkc protected configured (landed_path t) = false;
  af_size : byte_len cont <= DEFAULT_MAX_WRITE_BYTES;
  af_original : originals !! raw = Some (expected t);
  af_fresh : match expected t with
             | Some s => read_file lower from_utf8 v raw = Ok s
             | None => (forall s, read_file lower from_utf8 v raw <> Ok s)
                       /\ lookup v (raw_components raw) = None
             end;
  af_no_symlink : exists c, canonical_repo_relative_path raw = Some c
                            /\ crosses_symlink v (split_on c_slash c) = false;
}.

Lemma admit_file_Ok originals seen raw cont t seen' :
  admit_file lower nfkc from_utf8 canonicalize read_link dest v protected configured originals seen raw cont
    = Ok (t, seen') ->
  admitted_file originals raw cont t /\ fold_path (landed_path t) ∉ seen
  /\ seen' = {[fold_path (landed_path t)]} ∪ seen.
Proof.
  unfold admit_file. intros H.
  destruct (validate_write_path _ _ _ _ _ _) as [landed|] eqn:El; [|done].
  destruct (is_protected _ _ _ _ raw || _) eqn:Ep; [done|]. apply orb_false_iff in Ep as [Ep1 Ep2].
  destruct (decide _) as [|Hs]; [done|].
  destruct (DEFAULT_MAX_WRITE_BYTES <? byte_len cont) eqn:Eb; [done|]. apply Z.ltb_ge in Eb.
  destruct (originals !! raw) as [exp|] eqn:Eo; [|done].
  destruct (canonical_repo_relative_path raw) as [c|] eqn:Ec; [|done].
  destruct (crosses_symlink v _) eqn:Ex; [done|].
  destruct (negb _ || _) eqn:Ef; [done|]. apply orb_false_iff in Ef as [Ef1 Ef2].
  apply negb_false_iff, bool_decide_eq_true in Ef1. injection H as <- <-. simpl.
  split; [|done]. constructor; simpl; eauto.
  subst exp. destruct (read_file _ _ _ _) as [s|e] eqn:Er; [done|].
  split; [done|]. rewrite bool_decide_false in Ef2 by apply is_Some_None. simpl in Ef2.
  apply bool_decide_eq_false in Ef2. by apply eq_None_not_Some.
Qed.

Lemma admit_files_Ok originals seen fs ts :
  admit_files lower nfkc from_utf8 canonicalize read_link dest v protected configured originals seen fs = Ok ts ->
  Forall2 (fun f t => admitted_file originals (fst f) (snd f) t) fs ts
  /\ NoDup (map (fun t => fold_path (landed_path t)) ts)
  /\ Forall (fun t => fold_path (landed_path t) ∉ seen) ts.
Proof.
  revert seen ts. induction fs as [|[raw cont] fs IH]; intros seen ts H; simpl in H.
  { injection H as <-. repeat constructor. }
  apply bind_Ok_inv in H as ([t seen'] & Ht & H).
  apply admit_file_Ok in Ht as (Ha & Hn & ->).
  destruct (admit_files _ _ _ _ _ _ _ _ _ _ _ fs) as [ts'|] eqn:E; [|done]. injection H as <-.
  destruct (IH _ _ E) as (H2 & Hd & Hf). rewrite Forall_forall in Hf.
  split; [by constructor|]. split.
  - simpl. constructor; [|done]. intros Hin. apply list_elem_of_In, in_map_iff in Hin as (t' & He & Hin).
    apply list_elem_of_In in Hin. specialize (Hf t' Hin). rewrite He in Hf. set_solver.
  - constructor; [done|]. apply Forall_forall. intros t' Ht'. specialize (Hf t' Ht'). set_solver.
Qed.
End AdmissionLemmas.

(** ** Properties *)

(** The jailed read: a successful read returns the decoded bytes of a
    regular file of at most 256,000 bytes, reached from the clone's root only
    through real directories (no link is followed on the way or at the end),
    and neither the requested path nor the resolved one has a component that
    a file system could take for [.git]. *)
Theorem read_file_jailed (lower : text -> text) (from_utf8 : list Z -> option text) (v : view) (target s : text) :
  read_file lower from_utf8 v target = Ok s ->
  exists rel parent bytes,
    canonical_repo_relative_path target = Some rel
    /\ Forall (fun n => is_dotgit_name lower n = false) (split_on c_slash rel)
    /\ lookup v (parent ++ [snd (split_leaf rel)]) = Some (RegularFile bytes)
    /\ Forall (fun n => is_dotgit_name lower n = false) (parent ++ [snd (split_leaf rel)])
    /\ real_directories v parent
    /\ Z.of_nat (length bytes) <= DEFAULT_MAX_READ_BYTES /\ from_utf8 bytes = Some s.
Proof.
  unfold read_file. intros H. apply bind_Ok_inv in H as (rel & Hrel & H).
  apply read_target_Ok in Hrel as [Hc Hg]. pose proof (split_leaf_spec rel) as Hsp.
  destruct (split_leaf rel) as [parent_path leaf] eqn:Hsl. simpl in Hsp.
  apply bind_Ok_inv in H as (resolved & _ & H). apply bind_Ok_inv in H as (parent & Hp & H).
  apply open_parents_Ok in Hp as [Hpg Hpd]; [|constructor | intros n; simpl; lia].
  destruct (lookup v (parent ++ [leaf])) as [[bytes| | |]|] eqn:El; try discriminate H.
  destruct (DEFAULT_MAX_READ_BYTES <? _) eqn:Eb; [discriminate H|]. apply Z.ltb_ge in Eb.
  apply ok_or_Ok in H. exists rel, parent, bytes. split; [exact Hc|]. split; [exact Hg|].
  assert (Hleaf : snd (split_leaf rel) = leaf) by by rewrite Hsl. rewrite Hleaf.
  split; [exact El|]. split; [|split; [exact Hpd|]; done].
  apply Forall_app. split; [done|]. rewrite Hsp in Hg. by apply Forall_app in Hg as [_ ?].
Qed.

(** C33. What admission of a proposal guarantees before a byte is staged: each
    file lands inside the jail, neither the path it names nor the path it
    lands on is protected, no two land on names a file system could identify,
    none crosses a symbolic link, the recorded original is what the clone
    holds now (and is absent now when it was recorded absent), and no file
    and no proposal exceeds its byte limit. *)
Theorem admitted_proposal_is_safe (lower nfkc : text -> text) (from_utf8 : list Z -> option text)
    canonicalize read_link (dest : list component) (v : view) (protected configured : list text)
    (p : Proposal) (budget : Z) (ts : list target) :
  admit_proposal lower nfkc from_utf8 canonicalize read_link dest v protected configured p budget = Ok ts ->
  Forall2 (fun f t => admitted_file lower nfkc from_utf8 canonicalize read_link dest v protected configured
                        (originals p) (fst f) (snd f) t) (proposal_entries (files p)) ts
  /\ NoDup (map (fun t => fs_equiv_path lower nfkc (landed_path t)) ts)
  /\ total_bytes ts <= budget.
Proof.
  unfold admit_proposal. intros H. apply bind_Ok_inv in H as (ts' & Hts & H).
  destruct (budget <? _) eqn:Eb; [done|]. injection H as <-. apply Z.ltb_ge in Eb.
  destruct (admit_files_Ok _ _ _ _ _ _ _ _ _ _ _ _ _ Hts) as (H2 & Hd & _). done.
Qed.

(** A clone with [src/a] and a link [src/l]; file content is ASCII. *)
Definition demo_view : view :=
  MkView (fun p => if decide (p = [T "src"]) then Some Directory
                   else if decide (p = [T "src"; T "a"]) then Some (RegularFile (T "one"))
                   else if decide (p = [T "src"; T "l"]) then Some Symlink else None)
         (fun p => Some (map Normal p)).
Definition demo_proposal : Proposal :=
  MkProposal {[ T "src/a" := T "two"; T "src/b" := T "new" ]} {[ T "src/a" := Some (T "one"); T "src/b" := None ]}.

Lemma read_file_jailed_witness :
  exists bytes, lookup demo_view [T "src"; T "a"] = Some (RegularFile bytes) /\ bytes = T "one".
Proof.
  destruct (read_file_jailed (map to_ascii_lower) Some demo_view (T "./src/a") (T "one"))
    as (rel & parent & bytes & Hc & _ & _ & _ & _ & _ & Hb).
  - vm_compute. reflexivity.
  - injection Hb as ->. exists (T "one"). split; [vm_compute; reflexivity | reflexivity].
Defined.

Lemma admitted_proposal_is_safe_witness :
  exists ts, admit_proposal (map to_ascii_lower) id Some Some (fun _ => None) [Normal (T "c")] demo_view [T "tests/"] []
               demo_proposal 100 = Ok ts /\ map landed_path ts = [T "src/a"; T "src/b"] /\ total_bytes ts <= 100.
Proof.
  eexists. split; [vm_compute; reflexivity|]. split; [reflexivity|].
  apply (admitted_proposal_is_safe (map to_ascii_lower) id Some Some (fun _ => None) [Normal (T "c")] demo_view
           [T "tests/"] [] demo_proposal 100). vm_compute. reflexivity.
Defined.
