(* ===== verification/Apply.v ===== *)
(** [RepoWorkspace::apply_proposal] of [agentic/workspace.rs] as a whole: the
    admission of [Workspace], the directories [proposal_parent] makes, and the
    batch of [Transaction], on one clone; and the atomic update of a map of
    files that it refines.

    A clone is a map from paths to nodes with the set of the paths that are
    directories and of those that are symbolic links.  How the operating
    system resolves a path is a parameter, as are the random identifiers of the
    work files and whether a directory can be made.  Clones whose regular files
    are not UTF-8 have [Other] in their place. *)

From S2P Require Import Prelude Text RepoPaths Glob ReadRequests Edits Transaction Workspace.
Local Open Scope Z_scope.

Record clone := MkClone { nodes : fs; dirs : gset text; links : gset text }.

Definition with_nodes (c : clone) (f : fs) : clone := MkClone f (dirs c) (links c).
Definition add_dir (c : clone) (p : text) : clone :=
  MkClone (<[p := Other]> (nodes c)) ({[p]} ∪ dirs c) (links c).

Definition key (parts : list text) : text := join [c_slash] parts.
Definition parts_of (p : text) : list text := split_on c_slash p.

(** What a path names, without following a final link. *)
Definition kind_of (c : clone) (p : text) : option entry :=
  match nodes c !! p with
  | None => None
  | Some (File s) => Some (RegularFile (as_bytes s))
  | Some Other => Some (if decide (p ∈ dirs c) then Directory
                        else if decide (p ∈ links c) then Symlink else OtherEntry)
  end.
Definition entry_at (c : clone) (parts : list text) : option entry :=
  match parts with [] => Some Directory | _ => kind_of c (key parts) end.

(** The regular files of a clone. *)
Definition contents (c : clone) : gmap text text :=
  omap (fun n => match n with File s => Some s | Other => None end) (nodes c).

Inductive apply_failure := Denied (why : proposal_denial) | Failed (e : apply_error).

(** The path of a work file beside [landed]. *)
Definition sibling (landed name : text) : text := key (removelast (parts_of landed) ++ [name]).

Section Apply.
Context (lower nfkc : text -> text) (from_utf8 : list Z -> option text).
Context (os_canonicalize : clone -> list component -> option (list component)).
Context (os_read_link : clone -> list component -> option link_target).
Context (os_canonicalize_dir : clone -> list text -> option (list component)).
Context (mkdir_ok : text -> bool) (uuid : nat -> text).
Context (dest : list component) (protected configured : list text) (budget : Z).

Definition view_of (c : clone) : view := MkView (entry_at c) (os_canonicalize_dir c).

Definition admission (c : clone) (p : Proposal) : result proposal_denial (list target) :=
  admit_proposal lower nfkc from_utf8 (os_canonicalize c) (os_read_link c) dest (view_of c) protected configured
    p budget.

(** [proposal_parent]: make and open the directories of a path one by one. *)
Fixpoint make_parents (c : clone) (opened parts : list text) : clone * option apply_error :=
  match parts with
  | [] => (c, None)
  | part :: rest =>
      let here := opened ++ [part] in
      match kind_of c (key here) with
      | Some Directory => make_parents c here rest
      | Some _ => (c, Some IoError)
      | None => if mkdir_ok (key here) then make_parents (add_dir c (key here)) here rest
                else (c, Some IoError)
      end
  end.
Definition proposal_parent (c : clone) (landed : text) : clone * option apply_error :=
  make_parents c [] (removelast (parts_of landed)).

(** The replacement that [StagedReplacement::prepare] builds. *)
Definition replacement_of (i : nat) (t : target) : StagedReplacement :=
  MkStaged (landed_path t) (sibling (landed_path t) (T ".cgah-stage-" ++ uuid i))
           (sibling (landed_path t) (T ".cgah-backup-" ++ uuid i)) (expected t) (content t) false.

Fixpoint replacements (i : nat) (ts : list target) : list StagedReplacement :=
  match ts with [] => [] | t :: ts => replacement_of i t :: replacements (S i) ts end.

(** The staging loop; an error drops what was staged. *)
Fixpoint stage_all (c : clone) (i : nat) (ts : list target) (done : list StagedReplacement)
    : clone * result apply_error (list StagedReplacement) :=
  match ts with
  | [] => (c, Ok done)
  | t :: ts' =>
      match proposal_parent c (landed_path t) with
      | (c1, Some e) => (with_nodes c1 (foldl drop_staged (nodes c1) done), Err e)
      | (c1, None) =>
          match prepare (nodes c1) (replacement_of i t) with
          | (f, Some e) => (with_nodes c1 (foldl drop_staged f done), Err e)
          | (f, None) => stage_all (with_nodes c1 f) (S i) ts' (done ++ [replacement_of i t])
          end
      end
  end.

(** [apply_proposal] after its first policy check; [env] and [policy] are what
    other processes do, and what the policy answers, at each later step. *)
Definition apply_files (env : nat -> fs -> fs) (policy : nat -> bool) (c : clone) (p : Proposal)
    : clone * result apply_failure (list text) :=
  match admission c p with
  | Err why => (c, Err (Denied why))
  | Ok ts =>
      match stage_all c 0 ts [] with
      | (c1, Err e) => (c1, Err (Failed e))
      | (c1, Ok ss) =>
          let '(r, f, _) := install_batch env policy (nodes c1) ss in
          (with_nodes c1 f, match r with Ok _ => Ok (map landed_path ts) | Err e => Err (Failed e) end)
      end
  end.
End Apply.

(** ** The specification: one atomic update of the files *)

Definition write_files (m : gmap text text) (ts : list target) : gmap text text :=
  list_to_map (map (fun t => (landed_path t, content t)) ts) ∪ m.

(** A proper ancestor of a path. *)
Definition ancestor (a p : text) : Prop :=
  exists pre post, pre <> [] /\ post <> [] /\ parts_of p = pre ++ post /\ a = key pre.

(** What must hold for a batch to be written. *)
Record writable (mkdir_ok : text -> bool) (policy : nat -> bool) (c : clone) (ts : list target) : Prop := {
  wr_originals : Forall (fun t => nodes c !! landed_path t = File <$> expected t) ts;
  wr_parents : forall t a, t ∈ ts -> ancestor a (landed_path t) ->
    kind_of c a = Some Directory \/ (nodes c !! a = None /\ mkdir_ok a = true);
  wr_separate : forall t t', t ∈ ts -> t' ∈ ts -> ~ ancestor (landed_path t) (landed_path t');
  wr_policy : forall i, (i < length ts)%nat -> policy i = true;
}.

(** [b'] has the files of [b] and perhaps more directories, all of which are
    in [P]. *)
Record grew (P : text -> Prop) (b b' : clone) : Prop := {
  gr_links : links b' = links b;
  gr_dirs : dirs b ⊆ dirs b';
  gr_nodes : forall p, nodes b' !! p = nodes b !! p
                       \/ (nodes b !! p = None /\ nodes b' !! p = Some Other /\ p ∈ dirs b' /\ P p);
}.

Lemma grew_refl P b : grew P b b.
Proof. constructor; auto. Qed.

Lemma grew_trans P b1 b2 b3 : grew P b1 b2 -> grew P b2 b3 -> grew P b1 b3.
Proof.
  intros [L1 D1 N1] [L2 D2 N2]. constructor; [congruence | set_solver |]. intros p.
  destruct (N1 p) as [E1|(E1 & E2 & Hd & HP)], (N2 p) as [E3|(E3 & E4 & Hd')].
  - left. congruence.
  - right. rewrite <- E1. done.
  - right. rewrite E3. split; [done|]. split; [done|]. split; [set_solver | done].
  - congruence.
Qed.

Lemma grew_impl (P Q : text -> Prop) b b' : grew P b b' -> (forall a, P a -> Q a) -> grew Q b b'.
Proof. intros [L D N] H. constructor; [done | done |]. intros p. destruct (N p) as [?|(? & ? & ? & ?)]; auto 6. Qed.

Lemma grew_add_dir (P : text -> Prop) b p : P p -> nodes b !! p = None -> grew P b (add_dir b p).
Proof.
  intros HP Hp. constructor; [done | simpl; set_solver |]. intros q. simpl.
  destruct (decide (q = p)) as [->|Hne]; [right | left; by rewrite lookup_insert_ne].
  rewrite lookup_insert_eq. split; [done|]. split; [done|]. split; [set_solver | done].
Qed.

Lemma grew_contents P b b' : grew P b b' -> contents b' = contents b.
Proof.
  intros [_ _ N]. apply map_eq. intros p. unfold contents. rewrite !lookup_omap.
  destruct (N p) as [->|(-> & -> & _)]; done.
Qed.

Lemma kind_None b p : kind_of b p = None <-> nodes b !! p = None.
Proof. unfold kind_of. by destruct (nodes b !! p) as [[s|]|]. Qed.

Lemma grew_kind P b b' p : grew P b b' -> kind_of b p = Some Directory -> kind_of b' p = Some Directory.
Proof.
  intros [_ D N]. unfold kind_of. destruct (N p) as [->|(-> & _)]; [|done].
  destruct (nodes b !! p) as [[s|]|]; [done | | done]. destruct (decide (p ∈ dirs b)); [|by destruct (decide _)].
  intros _. rewrite decide_True by set_solver. done.
Qed.

(** ** Work files *)

Section WorkFiles.
Context (uuid : nat -> text).

Definition stage_name (i : nat) : text := T ".cgah-stage-" ++ uuid i.
Definition backup_name (i : nat) : text := T ".cgah-backup-" ++ uuid i.

(** A path one of whose components is a work file's name. *)
Definition work (p : text) : Prop := exists i, stage_name i ∈ parts_of p \/ backup_name i ∈ parts_of p.

(** The identifiers are fresh: distinct, without a slash, and no path of the
    clone or destination uses one. *)
Record fresh_ids (c : clone) (ts : list target) : Prop := {
  fi_inj : forall i j, uuid i = uuid j -> i = j;
  fi_slash : forall i, c_slash ∉ uuid i;
  fi_clone : forall p, is_Some (nodes c !! p) -> ~ work p;
  fi_landed : forall t, t ∈ ts -> ~ work (landed_path t);
}.
End WorkFiles.

Lemma parts_key parts : parts <> [] -> Forall (fun w => c_slash ∉ w) parts -> parts_of (key parts) = parts.
Proof. apply split_on_join. Qed.

Lemma key_parts p : key (parts_of p) = p.
Proof. apply join_split_on. Qed.

Lemma parts_no_slash p : Forall (fun w => c_slash ∉ w) (parts_of p).
Proof. apply split_on_no_sep. Qed.

Lemma parts_not_nil p : parts_of p <> [].
Proof. apply split_on_not_nil. Qed.

Lemma parts_sibling landed n : c_slash ∉ n -> parts_of (sibling landed n) = removelast (parts_of landed) ++ [n].
Proof.
  intros Hn. apply parts_key; [by destruct (removelast _)|]. apply Forall_app. split; [|by apply Forall_singleton].
  pose proof (parts_no_slash landed) as H. rewrite (app_removelast_last [] (parts_not_nil landed)) in H.
  by apply Forall_app in H as [? _].
Qed.

(** The ancestors are the keys of the prefixes of the parent. *)
Lemma ancestor_prefix pre post p :
  pre <> [] -> removelast (parts_of p) = pre ++ post -> ancestor (key pre) p.
Proof.
  intros Hpre H. exists pre, (post ++ [List.last (parts_of p) []]). split; [done|].
  split; [by destruct post|]. split; [|done].
  rewrite app_assoc, <- H. apply app_removelast_last, parts_not_nil.
Qed.

Lemma ancestor_not_work uuid a p : ~ work uuid p -> ancestor a p -> ~ work uuid a.
Proof.
  intros Hp (pre & post & Hpre & _ & Hparts & ->) (i & Hi). apply Hp. exists i.
  rewrite parts_key in Hi; [|done|].
  - rewrite Hparts, !elem_of_app. tauto.
  - pose proof (parts_no_slash p) as H. rewrite Hparts in H. by apply Forall_app in H as [? _].
Qed.

(** ** Staging *)

Section Staging.
Context (mkdir_ok : text -> bool) (uuid : nat -> text).

Definition parent_ready (b : clone) (a : text) : Prop :=
  kind_of b a = Some Directory \/ (nodes b !! a = None /\ mkdir_ok a = true).

Lemma parent_ready_grew P b b' a : grew P b b' -> parent_ready b a -> parent_ready b' a.
Proof.
  intros Hg [Hk|[Hn Hm]]; [left; by eapply grew_kind|]. unfold parent_ready, kind_of.
  destruct Hg as [_ _ N]. destruct (N a) as [->|(_ & -> & Hd & _)]; [by right|].
  left. by rewrite decide_True.
Qed.

(** Nothing is at a work file's path. *)
Definition idle (b : clone) : Prop := forall p, work uuid p -> nodes b !! p = None.

Definition shaped (s : StagedReplacement) : Prop :=
  ~ work uuid (leaf s) /\ work uuid (staged s) /\ work uuid (backup s).

(** [c] is [b] with the replacements [done] staged. *)
Record staged_over (b c : clone) (done : list StagedReplacement) : Prop := {
  so_dirs : dirs c = dirs b;
  so_links : links c = links b;
  so_frame : frame done (nodes b) (nodes c);
  so_prepared : Forall (prepared (nodes b) (nodes c)) done;
}.

Lemma over_lookup b c done p :
  staged_over b c done -> Forall shaped done -> ~ work uuid p -> nodes c !! p = nodes b !! p.
Proof.
  intros [_ _ Hf Hp] Hs Hw. destruct (decide (p ∈ all_names done)) as [Hin|]; [|by apply Hf].
  apply elem_all_names in Hin as (s & Hin & Hn). rewrite Forall_forall in Hs, Hp.
  destruct (Hs s Hin) as (_ & H1 & H2), (Hp s Hin) as (Hl & _).
  unfold names in Hn. rewrite !elem_of_cons, elem_of_nil in Hn. by destruct Hn as [->|[->|[->|[]]]].
Qed.

Lemma over_kind b c done p :
  staged_over b c done -> Forall shaped done -> ~ work uuid p -> kind_of c p = kind_of b p.
Proof.
  intros Ho Hs Hw. unfold kind_of. rewrite (over_lookup b c done p Ho Hs Hw).
  destruct Ho as [-> -> _ _]. done.
Qed.

Lemma over_add_dir b c done p :
  staged_over b c done -> Forall shaped done -> ~ work uuid p -> staged_over (add_dir b p) (add_dir c p) done.
Proof.
  intros [Hd Hl Hf Hp] Hs Hw. constructor; simpl; [by rewrite Hd | done | |].
  - intros q Hq. destruct (decide (q = p)) as [->|]; [by rewrite !lookup_insert_eq|].
    rewrite !lookup_insert_ne by done. by apply Hf.
  - rewrite Forall_forall in Hs, Hp |- *. intros s Hin. destruct (Hs s Hin) as (_ & H1 & H2).
    destruct (Hp s Hin) as (Hl' & Hst & Hb & Hi).
    assert (Hn1 : staged s <> p) by (intros E; apply Hw; rewrite <- E; exact H1).
    assert (Hn2 : backup s <> p) by (intros E; apply Hw; rewrite <- E; exact H2).
    unfold prepared. rewrite (lookup_insert_ne _ p (staged s)), (lookup_insert_ne _ p (backup s)) by done.
    split; [|done]. destruct (decide (leaf s = p)) as [->|].
    + by rewrite !lookup_insert_eq.
    + by rewrite !lookup_insert_ne.
Qed.

Lemma idle_add_dir b p : idle b -> ~ work uuid p -> idle (add_dir b p).
Proof.
  intros Hi Hw q Hq. simpl. rewrite lookup_insert_ne; [by apply Hi | by intros ->].
Qed.

(** Making the parents of a path adds the same directories to both. *)
Lemma make_parents_over (P : text -> Prop) done opened parts b c :
  staged_over b c done -> Forall shaped done -> idle b ->
  (forall pre post, pre <> [] -> parts = pre ++ post -> P (key (opened ++ pre)) /\ ~ work uuid (key (opened ++ pre))) ->
  exists b', grew P b b' /\ idle b' /\ staged_over b' (fst (make_parents mkdir_ok c opened parts)) done
    /\ match snd (make_parents mkdir_ok c opened parts) with
       | None => True
       | Some e => e = IoError
                   /\ exists pre post, pre <> [] /\ parts = pre ++ post /\ ~ parent_ready b (key (opened ++ pre))
       end.
Proof.
  intros Ho Hs. revert opened b c Ho. induction parts as [|part parts IH]; intros opened b c Ho Hi Hw; simpl.
  { exists b. by split; [apply grew_refl|]. }
  assert (Hh : P (key (opened ++ [part])) /\ ~ work uuid (key (opened ++ [part]))) by (by apply (Hw [part] parts)).
  destruct Hh as [HP Hh].
  assert (Hrec : forall b1 c1, grew P b b1 -> idle b1 -> staged_over b1 c1 done ->
    exists b', grew P b b' /\ idle b'
      /\ staged_over b' (fst (make_parents mkdir_ok c1 (opened ++ [part]) parts)) done
      /\ match snd (make_parents mkdir_ok c1 (opened ++ [part]) parts) with
         | None => True
         | Some e => e = IoError /\ exists pre post, pre <> [] /\ part :: parts = pre ++ post
                                                     /\ ~ parent_ready b (key (opened ++ pre))
         end).
  { intros b1 c1 Hg Hi1 Ho1. destruct (IH (opened ++ [part]) b1 c1 Ho1 Hi1) as (b' & Hg' & Hi' & Ho' & He).
    - intros pre post Hpre Hparts. rewrite <- app_assoc. apply (Hw (part :: pre) post); [done|]. simpl. by rewrite Hparts.
    - exists b'. split; [by eapply grew_trans|]. split; [done|]. split; [done|].
      destruct (snd _) as [e|]; [|done]. destruct He as (He & pre & post & Hpre & Hparts & Hr).
      split; [done|]. exists (part :: pre), post. split; [done|]. split; [simpl; by rewrite Hparts|].
      intros Hr'. apply Hr. rewrite <- app_assoc. by eapply parent_ready_grew. }
  assert (Hend : ~ parent_ready b (key (opened ++ [part])) ->
    exists b', grew P b b' /\ idle b' /\ staged_over b' c done
      /\ IoError = IoError /\ exists pre post, pre <> [] /\ part :: parts = pre ++ post
                                              /\ ~ parent_ready b (key (opened ++ pre))).
  { intros Hr. exists b. split; [apply grew_refl|]. repeat (split; [done|]). by exists [part], parts. }
  rewrite (over_kind b c done _ Ho Hs Hh). unfold parent_ready in Hend at 1.
  destruct (kind_of b (key (opened ++ [part]))) as [k|] eqn:Hk.
  - assert (Hn : nodes b !! key (opened ++ [part]) <> None) by (rewrite <- kind_None; congruence).
    destruct k; [| exact (Hrec b c (grew_refl P b) Hi Ho) | |]; apply Hend; by intros [Hx|[Hx _]].
  - pose proof (proj1 (kind_None _ _) Hk) as Hn. destruct (mkdir_ok _) eqn:Hm.
    + apply (Hrec (add_dir b (key (opened ++ [part])))); [by apply grew_add_dir | by apply idle_add_dir | by apply over_add_dir].
    + apply Hend. intros [Hx|[_ Hx]]; done.
Qed.

Definition target_ancestor (ts : list target) (a : text) : Prop :=
  exists t, t ∈ ts /\ ancestor a (landed_path t).

(** What stopped the staging of [ts] over [b], in a clone grown to [b']. *)
Definition stopped (b b' : clone) (ts : list target) : Prop :=
  (exists a, target_ancestor ts a /\ ~ parent_ready b a)
  \/ exists t, t ∈ ts /\ nodes b' !! landed_path t <> File <$> expected t.

Lemma stopped_weaken b b1 b' t ts ts' :
  grew (target_ancestor ts') b b1 -> stopped b1 b' ts -> stopped b b' (t :: ts).
Proof.
  intros Hg [(a & (t' & Ht & Ha) & Hr)|(t' & Ht & Hm)].
  - left. exists a. split; [exists t'; split; [by right | done]|]. intros Hr'. apply Hr. by eapply parent_ready_grew.
  - right. exists t'. split; [by right | done].
Qed.

Lemma proposal_parent_over done t ts b c :
  staged_over b c done -> Forall shaped done -> idle b -> t ∈ ts -> ~ work uuid (landed_path t) ->
  exists b', grew (target_ancestor ts) b b' /\ idle b'
    /\ staged_over b' (fst (proposal_parent mkdir_ok c (landed_path t))) done
    /\ match snd (proposal_parent mkdir_ok c (landed_path t)) with
       | None => True
       | Some e => e = IoError /\ exists a, ancestor a (landed_path t) /\ ~ parent_ready b a
       end.
Proof.
  intros Ho Hs Hi Ht Hw. unfold proposal_parent.
  destruct (make_parents_over (target_ancestor ts) done [] (removelast (parts_of (landed_path t))) b c)
    as (b' & Hg & Hi' & Ho' & He); [done..| |].
  - intros pre post Hpre Hparts. pose proof (ancestor_prefix _ _ _ Hpre Hparts) as Ha.
    split; [by exists t | by eapply ancestor_not_work].
  - exists b'. repeat (split; [done|]). destruct (snd _); [|done]. destruct He as (-> & pre & post & Hpre & Hparts & Hr).
    split; [done|]. exists (key pre). split; [by eapply ancestor_prefix | done].
Qed.

Lemma idle_clean b s : idle b -> shaped s -> clean (nodes b) (nodes b) s.
Proof. intros Hi (_ & H1 & H2). split; [done|]. split; by apply Hi. Qed.

(** The next replacement is clean over what is staged. *)
Lemma over_clean b c done s :
  staged_over b c done -> idle b -> shaped s -> distinct (done ++ [s]) -> Forall shaped done ->
  clean (nodes b) (nodes c) s.
Proof.
  intros Ho Hi (Hl & Hs & Hb) Hd Hsh. unfold distinct in Hd. rewrite all_names_app in Hd.
  apply NoDup_app in Hd as (_ & Hd & _).
  assert (Hn : forall p, p ∈ names s -> p ∉ all_names done).
  { intros p Hp Hin. apply (Hd p Hin), elem_all_names. exists s. by split; [left|]. }
  split; [by eapply over_lookup|]. destruct Ho as [_ _ Hf _].
  rewrite (Hf (staged s)), (Hf (backup s)) by (apply Hn; apply staged_in || apply backup_in). split; by apply Hi.
Qed.

(** Dropping what is staged leaves the clone below. *)
Lemma drop_over b c done :
  staged_over b c done -> Forall shaped done -> distinct done -> idle b ->
  with_nodes c (foldl drop_staged (nodes c) done) = b.
Proof.
  intros [Hd Hl Hf Hp] Hs Hdist Hi. destruct (drop_all_clean (nodes b) (nodes c) done Hdist) as [Hc Hf'].
  { eapply Forall_impl; [exact Hp|]. by right. }
  unfold with_nodes. rewrite (clean_frame_eq (nodes b) (nodes c) _ done); [by destruct b; simpl in *; subst | |done..].
  eapply Forall_impl; [exact Hs|]. intros s. by apply idle_clean.
Qed.

(** Staging one more replacement. *)
Lemma prepare_over b c done s :
  staged_over b c done -> Forall shaped (done ++ [s]) -> distinct (done ++ [s]) -> idle b -> installed s = false ->
  match prepare (nodes c) s with
  | (f, None) => staged_over b (with_nodes c f) (done ++ [s])
  | (f, Some e) => e <> Quarantined /\ with_nodes c (foldl drop_staged f done) = b
                   /\ nodes b !! leaf s <> File <$> original s
  end.
Proof.
  intros Ho Hs Hd Hi Hin. pose proof Hs as [Hsd Hs1]%Forall_app. apply Forall_cons in Hs1 as [Hs1 _].
  pose proof (over_clean b c done s Ho Hi Hs1 Hd Hsd) as Hc. destruct Ho as [Hdirs Hlinks Hf Hp].
  pose proof (prepare_all_spec (nodes b) [s] done (nodes c) Hd Hp) as H.
  specialize (H (Forall_cons_2 _ _ _ Hc (Forall_nil_2 _)) (Forall_cons_2 _ _ _ Hin (Forall_nil_2 _))). simpl in H.
  destruct (prepare (nodes c) s) as [f [e|]].
  - destruct H as (Hcl & He & Hm%Exists_cons & Hf'). split; [done|]. split.
    + unfold with_nodes. rewrite (clean_frame_eq (nodes b) (nodes c) _ (done ++ [s]));
        [by destruct b; simpl in *; subst | | done | done | by apply frame_app_l].
      eapply Forall_impl; [exact Hs|]. intros s'. by apply idle_clean.
    + destruct Hm as [Hm|Hm]; [exact Hm | by inversion Hm].
  - destruct H as [Hpr Hf']. constructor; simpl; [done | done | | done].
    eapply frame_trans; [by apply frame_app_l | done].
Qed.

Lemma stage_all_over i ts done b c :
  staged_over b c done -> Forall shaped (done ++ replacements uuid i ts) ->
  distinct (done ++ replacements uuid i ts) -> idle b -> (forall t, t ∈ ts -> ~ work uuid (landed_path t)) ->
  exists b', grew (target_ancestor ts) b b' /\ idle b'
    /\ match stage_all mkdir_ok uuid c i ts done with
       | (c', Ok ss) => ss = done ++ replacements uuid i ts /\ staged_over b' c' ss
       | (c', Err e) => e <> Quarantined /\ c' = b' /\ stopped b b' ts
       end.
Proof.
  revert i done b c. induction ts as [|t ts IH]; intros i done b c Ho Hs Hd Hi Hw; simpl.
  { exists b. split; [apply grew_refl|]. split; [done|]. by rewrite app_nil_r. }
  simpl in Hs, Hd. set (s := replacement_of uuid i t) in *.
  rewrite (cons_middle s done), app_assoc in Hs, Hd.
  pose proof Hs as [Hs1 Hs2]%Forall_app. pose proof Hs1 as [Hsd _]%Forall_app.
  assert (Hd1 : distinct (done ++ [s])) by (unfold distinct in *; rewrite all_names_app in Hd; apply NoDup_app in Hd; tauto).
  assert (Hd0 : distinct done) by (unfold distinct in *; rewrite all_names_app in Hd1; apply NoDup_app in Hd1; tauto).
  destruct (proposal_parent_over done t (t :: ts) b c) as (b1 & Hg1 & Hi1 & Ho1 & He1);
    [done..|left|by apply Hw; left|].
  destruct (proposal_parent mkdir_ok c (landed_path t)) as [c1 [e|]]; simpl in Ho1, He1.
  { destruct He1 as (-> & a & Ha & Hr). exists b1. split; [done|]. split; [done|]. split; [done|].
    split; [by apply drop_over|]. left. exists a. split; [exists t; by split; [left|] | done]. }
  pose proof (prepare_over b1 c1 done s Ho1 Hs1 Hd1 Hi1 eq_refl) as Hp.
  destruct (prepare (nodes c1) s) as [f [e|]].
  { destruct Hp as (He & Hc & Hm). exists b1. repeat (split; [done|]). right. exists t. split; [left | done]. }
  destruct (IH (S i) (done ++ [s]) b1 (with_nodes c1 f) Hp) as (b2 & Hg2 & Hi2 & H2); [done..| |].
  { intros t' Ht'. apply Hw. by right. }
  exists b2. split; [|split; [done|]].
  - apply (grew_trans _ b b1 b2); [done|]. eapply grew_impl; [exact Hg2|]. intros a (t' & Ht' & Ha).
    exists t'. split; [by right | done].
  - destruct (stage_all mkdir_ok uuid _ _ _ _) as [c2 [ss|e]].
    + destruct H2 as [-> H2]. split; [by rewrite <- app_assoc | done].
    + destruct H2 as (He & -> & Hst). split; [done|]. split; [done|]. by eapply stopped_weaken.
Qed.
End Staging.

(** ** The whole operation *)

Section Replacements.
Context (uuid : nat -> text) (c : clone).

Lemma replacements_leaf i ts : map leaf (replacements uuid i ts) = map landed_path ts.
Proof. revert i. induction ts as [|t ts IH]; intros i; simpl; [done | by rewrite IH]. Qed.

Lemma replacements_elem i ts s :
  s ∈ replacements uuid i ts -> exists j t, (i <= j)%nat /\ t ∈ ts /\ s = replacement_of uuid j t.
Proof.
  revert i. induction ts as [|t ts IH]; intros i; simpl; [by intros H%elem_of_nil|].
  intros [->|H]%elem_of_cons; [exists i, t; split; [lia | by split; [left|]]|].
  destruct (IH _ H) as (j & t' & Hj & Ht & ->). exists j, t'. split; [lia|]. by split; [right|].
Qed.

Lemma replacements_In i ts t : t ∈ ts -> exists j, replacement_of uuid j t ∈ replacements uuid i ts.
Proof.
  revert i. induction ts as [|t' ts IH]; intros i; [by intros H%elem_of_nil|].
  intros [->|H]%elem_of_cons; [exists i; left|]. destruct (IH (S i) H) as [j Hj]. exists j. by right.
Qed.

Lemma replacements_length i ts : length (replacements uuid i ts) = length ts.
Proof. revert i. induction ts as [|t ts IH]; intros i; simpl; [done | by rewrite IH]. Qed.

Context (ts0 : list target) (Hfresh : fresh_ids uuid c ts0).

Lemma name_no_slash i : c_slash ∉ stage_name uuid i /\ c_slash ∉ backup_name uuid i.
Proof.
  destruct Hfresh as [_ Hs _ _]. unfold stage_name, backup_name.
  rewrite !not_elem_of_app. split; (split; [|apply Hs]); apply (bool_decide_unpack _); vm_compute; exact I.
Qed.

Lemma work_last landed i :
  List.last (parts_of (sibling landed (stage_name uuid i))) [] = stage_name uuid i
  /\ List.last (parts_of (sibling landed (backup_name uuid i))) [] = backup_name uuid i.
Proof. destruct (name_no_slash i). by rewrite !parts_sibling, !last_last by done. Qed.

Lemma replacement_shaped i t : t ∈ ts0 -> shaped uuid (replacement_of uuid i t).
Proof.
  intros Ht. destruct (name_no_slash i). split; [by eapply fi_landed|]. simpl. fold (stage_name uuid i) (backup_name uuid i).
  split; exists i; rewrite parts_sibling by done; [left | right]; apply elem_of_app; right; left.
Qed.

(** Every work file's last component tells which one it is. *)
Lemma replacements_distinct i ts :
  (forall t, t ∈ ts -> t ∈ ts0) -> NoDup (map landed_path ts) -> distinct (replacements uuid i ts).
Proof.
  revert i. induction ts as [|t ts IH]; intros i Hin Hnd; [by constructor|].
  apply NoDup_cons in Hnd as [Hn Hnd]. simpl. apply distinct_cons.
  assert (Ht : t ∈ ts0) by (apply Hin; left).
  destruct (replacement_shaped i t Ht) as (Hl & Hs & Hb).
  assert (Hsb : forall j k, stage_name uuid j <> backup_name uuid k) by (intros j k; unfold stage_name, backup_name; simpl; discriminate).
  assert (Hinj : forall j k, stage_name uuid j = stage_name uuid k \/ backup_name uuid j = backup_name uuid k -> j = k).
  { intros j k Hjk. apply (fi_inj _ _ _ Hfresh). destruct Hjk as [Hjk|Hjk]; by apply app_inv_head in Hjk. }
  assert (Hlast : forall (j : nat) (t' : target),
    List.last (parts_of (staged (replacement_of uuid j t'))) [] = stage_name uuid j
    /\ List.last (parts_of (backup (replacement_of uuid j t'))) [] = backup_name uuid j)
    by (intros j t'; apply work_last).
  split; [|split; [|apply IH; [intros; apply Hin; by right | done]]].
  - unfold names. repeat constructor; rewrite ?not_elem_of_cons; repeat split; try apply not_elem_of_nil.
    + intros E. apply Hl. by rewrite E.
    + intros E. apply Hl. by rewrite E.
    + intros E. destruct (Hlast i t) as [H1 H2]. rewrite E, H2 in H1. by apply (Hsb i i).
  - intros p Hp Hall. apply elem_all_names in Hall as (s' & Hs' & Hp').
    apply replacements_elem in Hs' as (j & t' & Hj & Ht' & ->).
    destruct (replacement_shaped j t' (Hin t' ltac:(by right))) as (Hl' & Hs' & Hb').
    destruct (Hlast i t) as [H1 H2], (Hlast j t') as [H3 H4].
    unfold names in Hp, Hp'. rewrite !elem_of_cons, elem_of_nil in Hp, Hp'.
    destruct Hp as [->|[->|[->|[]]]], Hp' as [E|[E|[E|[]]]]; try (rewrite E in *; contradiction).
    + apply Hn, list_elem_of_In, in_map_iff. exists t'. split; [done | by apply list_elem_of_In].
    + rewrite E, H3 in H1. assert (j = i) by auto. lia.
    + rewrite E, H4 in H1. by apply (Hsb i j).
    + rewrite E, H3 in H2. by apply (Hsb j i).
    + rewrite E, H4 in H2. assert (j = i) by auto. lia.
Qed.
End Replacements.

Section Refinement.
Context (lower nfkc : text -> text) (from_utf8 : list Z -> option text).
Context (os_canonicalize : clone -> list component -> option (list component)).
Context (os_read_link : clone -> list component -> option link_target).
Context (os_canonicalize_dir : clone -> list text -> option (list component)).
Context (mkdir_ok : text -> bool) (uuid : nat -> text).
Context (dest : list component) (protected configured : list text) (budget : Z).

Abbreviation admitted := (admission lower nfkc from_utf8 os_canonicalize os_read_link os_canonicalize_dir dest
                            protected configured budget).
Abbreviation applied := (apply_files lower nfkc from_utf8 os_canonicalize os_read_link os_canonicalize_dir
                           mkdir_ok uuid dest protected configured budget).

Lemma admitted_distinct c p ts : admitted c p = Ok ts -> NoDup (map landed_path ts).
Proof.
  intros H. unfold admission, admit_proposal in H. apply bind_Ok_inv in H as (ts' & Hts & H).
  destruct (budget <? _); [done|]. injection H as <-.
  apply admit_files_Ok in Hts as (_ & Hd & _). apply (NoDup_fmap_1 (fs_equiv_path lower nfkc)).
  by rewrite <- list_fmap_compose.
Qed.

(** A new directory at a destination is an ancestor of another destination. *)
Lemma separate_same P c b ts t :
  grew P c b -> (forall a, P a -> target_ancestor ts a) ->
  (forall t t', t ∈ ts -> t' ∈ ts -> ~ ancestor (landed_path t) (landed_path t')) -> t ∈ ts ->
  nodes b !! landed_path t = nodes c !! landed_path t.
Proof.
  intros [_ _ N] HP Hsep Ht. destruct (N (landed_path t)) as [->|(_ & _ & _ & Ha)]; [done|].
  destruct (HP _ Ha) as (t' & Ht' & Ha'). by destruct (Hsep t t').
Qed.

Lemma stopped_unwritable policy c b ts :
  grew (target_ancestor ts) c b -> stopped mkdir_ok c b ts -> ~ writable mkdir_ok policy c ts.
Proof.
  intros Hg Hst [Ho Hp Hsep _]. destruct Hst as [(a & (t & Ht & Ha) & Hr)|(t & Ht & Hm)].
  - apply Hr. by eapply Hp.
  - apply Hm. rewrite Forall_forall in Ho. rewrite <- (Ho t Ht). by eapply separate_same.
Qed.

Lemma contents_written c b f ts :
  contents b = contents c -> NoDup (map landed_path ts) ->
  (forall t, t ∈ ts -> f !! landed_path t = Some (File (content t))) ->
  (forall p, p ∉ map landed_path ts -> f !! p = nodes b !! p) ->
  contents (with_nodes b f) = write_files (contents c) ts.
Proof.
  intros Hb Hnd Hin Hout. rewrite <- Hb. apply map_eq. intros p. unfold write_files, contents. simpl.
  rewrite lookup_omap, lookup_union. destruct (decide (p ∈ map landed_path ts)) as [Hp|Hp].
  - apply list_elem_of_In, in_map_iff in Hp as (t & <- & Ht%list_elem_of_In). rewrite (Hin t Ht). simpl.
    rewrite (elem_of_list_to_map_1 _ _ (content t)); [by destruct (omap _ _ !! _)| |].
    + by rewrite map_map.
    + apply list_elem_of_In, in_map_iff. exists t. split; [done | by apply list_elem_of_In].
  - rewrite (Hout p Hp), not_elem_of_list_to_map_1; [by rewrite lookup_omap; destruct (_ ≫= _)|].
    by rewrite <- list_fmap_compose.
Qed.

(** The outcome of an application, as the property below states it. *)
Lemma apply_files_refines_aux (policy : nat -> bool) (c : clone) (p : Proposal) :
  (forall ts, admitted c p = Ok ts -> fresh_ids uuid c ts) ->
  let '(c', r) := applied (fun _ f => f) policy c p in
  (links c' = links c /\ dirs c ⊆ dirs c')
  /\ match r with
     | Err (Denied why) => admitted c p = Err why /\ c' = c
     | Ok paths =>
         exists ts, admitted c p = Ok ts /\ paths = map landed_path ts
           /\ Forall (fun t => contents c !! landed_path t = expected t) ts
           /\ contents c' = write_files (contents c) ts
     | Err (Failed e) =>
         exists ts, admitted c p = Ok ts /\ ~ writable mkdir_ok policy c ts
           /\ contents c' = contents c /\ e <> Quarantined
     end.
Proof.
  intros Hfresh. unfold apply_files. destruct (admitted c p) as [ts|why] eqn:Ha; [|done].
  specialize (Hfresh ts eq_refl). pose proof (admitted_distinct c p ts Ha) as Hnd.
  assert (Hidle : idle uuid c).
  { intros q Hq. destruct (nodes c !! q) eqn:E; [|done]. exfalso. by apply (fi_clone _ _ _ Hfresh q). }
  assert (Hsh : Forall (shaped uuid) (replacements uuid 0 ts)).
  { apply Forall_forall. intros s Hs. apply replacements_elem in Hs as (j & t & _ & Ht & ->).
    by eapply replacement_shaped. }
  assert (Hdist : distinct (replacements uuid 0 ts)) by (by eapply replacements_distinct).
  destruct (stage_all_over mkdir_ok uuid 0 ts [] c c) as (b & Hg & Hib & Hst); [|done|done|done|apply Hfresh|].
  { constructor; [done | done | done | constructor]. }
  pose proof (grew_contents _ _ _ Hg) as Hcb.
  destruct (stage_all mkdir_ok uuid c 0 ts []) as [c1 [ss|e]].
  2:{ destruct Hst as (He & -> & Hst). split; [by destruct Hg|]. exists ts. split; [done|].
      split; [by eapply stopped_unwritable|]. done. }
  destruct Hst as [-> Ho]. simpl app in Ho |- *. set (ss := replacements uuid 0 ts) in *. destruct Ho as [Hd Hl Hf Hp].
  pose proof (install_batch_atomic (nodes b) (nodes c1) policy ss) as Hat.
  destruct (install_batch _ policy (nodes c1) ss) as [[r f] dropped].
  destruct Hat as [Hiff Hr]; [|done|done|].
  { split; [done|]. split; [|eapply Forall_impl; [exact Hsh|]; intros s; by apply idle_clean].
    apply Forall_forall. intros s Hs. by apply replacements_elem in Hs as (? & ? & _ & _ & ->). }
  split; [simpl; rewrite Hl, Hd; by destruct Hg|].
  destruct r as [[]|e].
  - destruct Hr as [Hin Hout]. exists ts. split; [done|]. split; [done|].
    assert (Horig : Forall (fun t => contents c !! landed_path t = expected t) ts).
    { rewrite <- Hcb. destruct (proj1 Hiff eq_refl) as [Ho _]. rewrite Forall_forall in Ho. apply Forall_forall. intros t Ht.
      destruct (replacements_In uuid 0 ts t Ht) as [j Hj]. specialize (Ho _ Hj). simpl in Ho.
      unfold contents. rewrite lookup_omap, Ho. by destruct (expected t). }
    split; [done|]. apply (contents_written c b f ts); [done..| |by rewrite <- (replacements_leaf uuid 0)].
    intros t Ht. destruct (replacements_In uuid 0 ts t Ht) as [j Hj]. exact (Hin _ Hj).
  - destruct Hr as [-> He]. exists ts. split; [done|]. split; [|by split].
    intros [Ho _ Hsep Hpol]. assert (Hx : Err e = Ok tt :> result apply_error unit); [|discriminate Hx].
    apply Hiff. split; [|unfold ss; by rewrite replacements_length].
    apply Forall_forall. intros s Hs. apply replacements_elem in Hs as (j & t & _ & Ht & ->). simpl.
    rewrite (separate_same _ c b ts t Hg (fun a H => H) Hsep Ht). rewrite Forall_forall in Ho. by apply Ho.
Qed.

(** C30. The application of a proposal refines one atomic update of the
    clone's files.  With fresh identifiers for the work files and no
    interference, a refused proposal leaves the clone untouched; an admitted
    one either replaces exactly the files it names at the paths they land on,
    each of which held its recorded original, or leaves every file as it was
    (at most directories that its destinations need are added), and the latter
    only when the batch could not be written: an original differs, a parent is
    not a directory and cannot be made, one destination lies below another, or
    the policy refuses a step.  The recovery quarantine never occurs. *)
Theorem apply_files_refines (policy : nat -> bool) (c : clone) (p : Proposal) :
  (forall ts, admitted c p = Ok ts -> fresh_ids uuid c ts) ->
  let '(c', r) := applied (fun _ f => f) policy c p in
  (links c' = links c /\ dirs c ⊆ dirs c')
  /\ match r with
     | Err (Denied why) => admitted c p = Err why /\ c' = c
     | Ok paths =>
         exists ts, admitted c p = Ok ts /\ paths = map landed_path ts
           /\ Forall (fun t => contents c !! landed_path t = expected t) ts
           /\ contents c' = write_files (contents c) ts
     | Err (Failed e) =>
         exists ts, admitted c p = Ok ts /\ ~ writable mkdir_ok policy c ts
           /\ contents c' = contents c /\ e <> Quarantined
     end.
Proof. exact (apply_files_refines_aux policy c p). Qed.
End Refinement.

(** Fresh identifiers always exist: longer than every path in sight. *)
Definition fresh_width (c : clone) (ts : list target) : nat :=
  S (sum_list_with length (map fst (map_to_list (nodes c)) ++ map landed_path ts)).
Definition padded_uuid (n i : nat) : text := replicate n 120 ++ show_nat (Z.of_nat i).

Lemma sum_list_with_elem {A} (f : A -> nat) x l : x ∈ l -> (f x <= sum_list_with f l)%nat.
Proof. induction 1; simpl; lia. Qed.

Lemma join_length sep ws w : w ∈ ws -> (length w <= length (join sep ws))%nat.
Proof.
  induction 1 as [w ws|w x ws Hw IH].
  - destruct ws; simpl; rewrite ?length_app; lia.
  - destruct ws; [by apply elem_of_nil in Hw|]. simpl in IH |- *. rewrite !length_app. lia.
Qed.

Lemma part_length w p : w ∈ parts_of p -> (length w <= length p)%nat.
Proof. intros H. rewrite <- (key_parts p). by apply join_length. Qed.

Lemma long_not_work n p : (length p < n)%nat -> ~ work (padded_uuid n) p.
Proof.
  intros Hp (i & Hi). destruct Hi as [Hi|Hi]; apply part_length in Hi;
    unfold stage_name, backup_name, padded_uuid in Hi; rewrite !length_app, length_replicate in Hi; lia.
Qed.

Lemma fresh_ids_exist c ts : fresh_ids (padded_uuid (fresh_width c ts)) c ts.
Proof.
  constructor.
  - intros i j E. apply app_inv_head in E. apply (f_equal (parse_digits 0)) in E.
    rewrite !show_nat_parses in E by lia. injection E as E. lia.
  - intros i. unfold padded_uuid. rewrite not_elem_of_app. split.
    + intros [E _]%elem_of_replicate. discriminate E.
    + intros Hi. pose proof (show_nat_digits (Z.of_nat i) ltac:(lia)) as Hd. rewrite Forall_forall in Hd.
      specialize (Hd _ Hi). discriminate Hd.
  - intros p [n Hn]. apply long_not_work. unfold fresh_width. apply le_n_S, sum_list_with_elem, elem_of_app. left.
    apply list_elem_of_fmap. exists (p, n). split; [done | by apply elem_of_map_to_list].
  - intros t Ht. apply long_not_work. unfold fresh_width. apply le_n_S, (sum_list_with_elem length), elem_of_app. right.
    apply list_elem_of_fmap. by exists t.
Qed.

(** ** A run on a small clone *)

Section Demo.
Definition demo_clone : clone :=
  MkClone {[ T "src" := Other; T "src/a" := File (T "one") ]} {[ T "src" ]} ∅.
Definition demo_change : Proposal :=
  MkProposal {[ T "src/a" := T "two"; T "src/new/b" := T "x" ]}
             {[ T "src/a" := Some (T "one"); T "src/new/b" := None ]}.
Definition demo_targets : list target :=
  [MkTarget (T "src/a") (Some (T "one")) (T "two"); MkTarget (T "src/new/b") None (T "x")].
Definition demo_uuid : nat -> text := padded_uuid (fresh_width demo_clone demo_targets).
(** Everything that exists resolves to itself; content is ASCII. *)
Definition demo_exists (c : clone) (l : list component) : option (list component) :=
  match l with
  | Normal _ :: rest =>
      match entry_at c (map component_text rest) with Some _ => Some l | None => None end
  | _ => Some []
  end.
Definition demo_apply (policy : nat -> bool) : clone * result apply_failure (list text) :=
  apply_files (map to_ascii_lower) id Some demo_exists (fun _ _ => None) (fun _ p => Some (map Normal p))
    (fun _ => true) demo_uuid [Normal (T "c")] [T "tests/"] [] 100 (fun _ f => f) policy demo_clone demo_change.

End Demo.

Lemma apply_files_refines_witness :
  exists c', demo_apply (fun _ => true) = (c', Ok [T "src/a"; T "src/new/b"])
    /\ contents c' !! T "src/a" = Some (T "two") /\ contents c' !! T "src/new/b" = Some (T "x")
    /\ contents (fst (demo_apply (fun i => (i <? 1)%nat))) = contents demo_clone.
Proof.
  assert (Hfresh : forall ts, admission (map to_ascii_lower) id Some demo_exists (fun _ _ => None)
      (fun _ p => Some (map Normal p)) [Normal (T "c")] [T "tests/"] [] 100 demo_clone demo_change = Ok ts ->
      fresh_ids demo_uuid demo_clone ts).
  { intros ts H. vm_compute in H. injection H as <-. apply fresh_ids_exist. }
  pose proof (apply_files_refines _ _ _ _ _ _ (fun _ => true) _ _ _ _ _ (fun _ => true) demo_clone demo_change Hfresh) as H1.
  pose proof (apply_files_refines _ _ _ _ _ _ (fun _ => true) _ _ _ _ _ (fun i => (i <? 1)%nat) demo_clone demo_change Hfresh) as H2.
  fold (demo_apply (fun _ => true)) in H1. fold (demo_apply (fun i => (i <? 1)%nat)) in H2.
  assert (R1 : snd (demo_apply (fun _ => true)) = Ok [T "src/a"; T "src/new/b"]) by (vm_compute; reflexivity).
  assert (R2 : snd (demo_apply (fun i => (i <? 1)%nat)) = Err (Failed PolicyRevoked)) by (vm_compute; reflexivity).
  destruct (demo_apply (fun _ => true)) as [c1 r1]. destruct (demo_apply (fun i => (i <? 1)%nat)) as [c2 r2].
  simpl in R1, R2. subst r1 r2. exists c1. split; [reflexivity|].
  destruct H1 as [_ (ts & Ha & _ & _ & Hc)]. destruct H2 as [_ (ts2 & _ & _ & Hc2 & _)].
  vm_compute in Ha. injection Ha as <-. rewrite Hc. split; [vm_compute; reflexivity|].
  split; [vm_compute; reflexivity | exact Hc2].
Defined.
