(* ===== verification/WriteGate.v ===== *)
(** The GitHub write gate, [agentic/writer.rs], with the branch-name rule of
    [common/identity.rs]: the policy gates in their order, the argument vector
    of the one executable operation, and [execute_write].

    The policy is reloaded from the configuration file at each boundary; the
    loader ([load_policy]), the environment, the located [gh] binary and the
    process runner are parameters.  The trace records each temporary body file
    and each process started. *)

From S2P Require Import Prelude Text Effects RepoPaths.
Local Open Scope Z_scope.

(** ** Branch names ([common/identity.rs]) *)

Definition TEMPLATE_BRANCH_PREFIXES : list text :=
  [T "claude"; T "codex"; T "grok"; T "kimi"; T "CyClaw"; T "cyclaw"; T "agent"].

Definition prefix_char (c : char) : bool :=
  is_ascii_alphanumeric c || (c =? c_dot) || (c =? 95) || (c =? c_dash).
Definition topic_char (c : char) : bool := prefix_char c || (c =? c_slash).

(** [[A-Za-z0-9][cls]{0,extra}] *)
Definition shaped (cls : char -> bool) (extra : nat) (s : text) : bool :=
  match s with
  | [] => false
  | c :: rest => is_ascii_alphanumeric c && forallb cls rest && (length rest <=? extra)%nat
  end.
Definition prefix_shape (s : text) : bool := shaped prefix_char 31 s.
Definition topic_shape (s : text) : bool := shaped topic_char 79 s.

Definition validate_prefix (raw : text) : result harness_error text :=
  if prefix_shape raw then Ok raw else Err err_config.

(** [Identity::build]: the allowed prefixes. *)
Definition build_identity (preferred_prefix : text) : result harness_error (list text) :=
  branch_prefix ← validate_prefix preferred_prefix;
  mret (if bool_decide (branch_prefix ∈ TEMPLATE_BRANCH_PREFIXES) then TEMPLATE_BRANCH_PREFIXES
        else TEMPLATE_BRANCH_PREFIXES ++ [branch_prefix]).

(** [branch_name_re]: one of the prefixes, a slash and a topic. *)
Definition branch_is_valid (allowed : list text) (branch : text) : bool :=
  existsb (fun p => match strip_prefix (p ++ [c_slash]) branch with
                    | Some topic => topic_shape topic
                    | None => false
                    end) allowed.

(** ** Configuration *)

Record DeepAgentConfig := MkDeepAgent {
  da_enabled : bool;
  workspace_root : list component;
  allow_git_write_tools : bool;
  protected_write_paths : list text;
  denied_read_basenames : list text;
  max_write_budget_bytes : Z;
  max_handoff_chars : Z;
  scan_code_shape : bool;
  retrieval_enabled : bool;
}.

Record AgenticConfig := MkAgentic {
  enabled : bool;
  repo : text;
  mode : text;
  writes_enabled : bool;
  gh_min_version : Z * Z * Z;
  deepagent : DeepAgentConfig;
}.

Definition is_write_mode (cfg : AgenticConfig) : bool := teqb (mode cfg) (T "write").

Inductive gate_act :=
| WroteBodyFile (path body : text)
| RanProcess (argv : list text) (timeout_sec : Z).

Inductive process_error := Timeout | Capture | Spawn.
Record process_output := MkOutput { status : option Z; stdout : text; stderr : text }.

(** ** Argument vectors *)

Definition EXECUTION_ENABLED : bool := true.
Definition MAX_PR_BODY_BYTES : Z := 65536.
Definition WRITE_OPS : list text := [T "pr_comment"; T "issue_comment"; T "pr_create"].
Definition EXECUTABLE_WRITE_OPS : list text := [T "pr_create"].

Definition require_int_number (params : json) : result harness_error text :=
  n ← ok_or (get params (T "number")) err_agentic;
  show_Z <$> ok_or (as_i64 n) err_agentic.

(** [params.get(key).and_then(as_str).unwrap_or(default)] *)
Definition str_param (params : json) (key default : text) : text :=
  from_option id default (get params key ≫= as_str).

Definition require_base_branch (params : json) : result harness_error text :=
  let base := str_param params (T "base") (T "main") in
  if teqb base [] || (255 <? byte_len base) || starts_with [c_dash] base
     || existsb (fun c => is_whitespace c || is_control c) base
  then Err err_agentic else Ok base.

(** Walk the flag positions 3, 5, 7, ... *)
Fixpoint flag_from (index : nat) (argv : list text) : option nat :=
  match argv with
  | [] => None
  | arg :: rest =>
      if teqb arg (T "--body") then Some index
      else match rest with [] => None | _ :: rest' => flag_from (S (S index)) rest' end
  end.
Definition body_flag_index (argv : list text) : option nat := flag_from 3 (drop 3 argv).

Section Gate.
Context (lower : text -> text).
(** The branch prefix from the environment, resolved once. *)
Context (branch_prefix_env : text).

Definition env_value_disables (raw : text) : bool :=
  bool_decide (lower (trim raw) ∈ [T "1"; T "true"; T "yes"; T "on"]).

Definition execution_enabled (kill_switch : text) : bool :=
  EXECUTION_ENABLED && negb (env_value_disables kill_switch).

Definition require_head_branch (params : json) : result harness_error text :=
  let head := str_param params (T "head") [] in
  allowed ← build_identity branch_prefix_env;
  if branch_is_valid allowed head then Ok head else Err err_agentic.

Definition build_write_argv (op repo : text) (params : json) (gh_bin : text) : result harness_error (list text) :=
  if teqb op (T "pr_comment") then
    n ← require_int_number params;
    mret [gh_bin; T "pr"; T "comment"; n; T "--repo"; repo; T "--body"; str_param params (T "body") []]
  else if teqb op (T "issue_comment") then
    n ← require_int_number params;
    mret [gh_bin; T "issue"; T "comment"; n; T "--repo"; repo; T "--body"; str_param params (T "body") []]
  else if teqb op (T "pr_create") then
    head ← require_head_branch params;
    base ← require_base_branch params;
    mret [gh_bin; T "pr"; T "create"; T "--repo"; repo; T "--head"; head; T "--base"; base;
          T "--title"; str_param params (T "title") []; T "--body"; str_param params (T "body") [];
          T "--draft"]
  else Err err_agentic.

(** ** The gates *)

Context {W F : Type} (act : gate_act -> F).
Context (load_policy : W -> result harness_error AgenticConfig) (kill_switch : W -> text).

Abbreviation M := (eff W F harness_error).

(** [refuse]: the audit line, and the error that names the gate. *)
Definition refuse {A} (op : text) (gate : string) (reason : text) : M A :=
  log (Event "agentic_write_refused" [("op", JStr op); ("gate", JStr (T gate)); ("reason", JStr reason)]);;
  fail (err_gate gate).

Definition require (c : bool) (op : text) (gate : string) (reason : text) : M unit :=
  if c then mret tt else refuse op gate reason.

Definition require_write_policy (cfg : AgenticConfig) (op reason : text) (confirm : bool) : M unit :=
  require (enabled cfg) op "enabled" reason;;
  require (is_write_mode cfg) op "mode" reason;;
  require (writes_enabled cfg) op "writes_enabled" reason;;
  require (negb (is_visibly_blank reason)) op "reason" reason;;
  require confirm op "confirm" reason.

Definition require_gates (cfg : AgenticConfig) (op reason : text) (confirm : bool) : M unit :=
  require (enabled cfg) op "enabled" reason;;
  if bool_decide (op ∈ WRITE_OPS) then require_write_policy cfg op reason confirm else fail err_agentic.

(** The policy in force now, compared with the one the workspace was attached
    under ([attached]). *)
Definition current_repository_policy (attached : AgenticConfig) (op reason : text) (confirm : bool)
    : M AgenticConfig :=
  loaded ← asks load_policy;
  current ← lift loaded;
  require_write_policy current op reason confirm;;
  kill ← asks kill_switch;
  require (execution_enabled kill) op "execution_enabled" reason;;
  require (da_enabled (deepagent current)) op "deepagent_enabled" reason;;
  require (allow_git_write_tools (deepagent current)) op "allow_git_write_tools" reason;;
  require (teqb (repo current) (repo attached)
           && bool_decide (workspace_root (deepagent current) = workspace_root (deepagent attached)))
          op "policy_target" reason;;
  require (bool_decide (protected_write_paths (deepagent current) = protected_write_paths (deepagent attached))
           && (max_write_budget_bytes (deepagent current) =? max_write_budget_bytes (deepagent attached))
           && eqb (scan_code_shape (deepagent current)) (scan_code_shape (deepagent attached)))
          op "policy_scope" reason;;
  mret current.

Record write_plan := MkPlan { plan_op : text; plan_repo : text; plan_reason : text; plan_params : json; would_run : list text }.

Definition plan_write (cfg : AgenticConfig) (op reason : text) (confirm : bool) (params : json) : M write_plan :=
  require_gates cfg op reason confirm;;
  argv ← lift (build_write_argv op (repo cfg) params (T "gh"));
  log (Event "agentic_write_dryrun" [("op", JStr op); ("repo", JStr (repo cfg)); ("reason", JStr reason)]);;
  mret (MkPlan op (repo cfg) reason params argv).

(** The JSON object that [plan_write] returns. *)
Definition plan_json (p : write_plan) : json :=
  JObj [(T "status", JStr (T "dry_run_plan")); (T "op", JStr (plan_op p)); (T "repo", JStr (plan_repo p));
        (T "reason", JStr (plan_reason p)); (T "params", plan_params p);
        (T "would_run", JArr (map JStr (would_run p))); (T "executed", JBool false)].

(** ** [execute_write] *)

Context (new_body_file : W -> W * result harness_error text)
        (checked_gh_binary : (Z * Z * Z) -> W -> W * result harness_error text)
        (process_run : list text -> Z -> W -> W * result process_error process_output).

(** Declared and rebuilt argument vectors agree beyond the binary; entries
    that are not strings are skipped. *)
Definition plan_intact (plan : json) (argv : list text) : bool :=
  match get plan (T "would_run") ≫= as_array with
  | None => true
  | Some declared => bool_decide (omap as_str (drop 1 declared) = drop 1 argv)
  end.

Definition act_ok {A} (w : W * A) : W * result harness_error A := (fst w, Ok (snd w)).

(** A body file holds [body]; it is recorded once its path is known. *)
Definition write_body_file (body : text) : M text :=
  fun s => let '(w, r) := new_body_file (world s) in
           match r with
           | Ok path => (St w (trace s ++ [Did (act (WroteBodyFile path body))]), Ok path)
           | Err e => (St w (trace s), Err e)
           end.

(** The checks before anything is written or run: the policy in force, the
    argument vector and the body. *)
Definition admit_write (attached : AgenticConfig) (plan : json) (confirm : bool)
    : M (AgenticConfig * text * text * list text * text) :=
  let op := str_param plan (T "op") [] in
  kill ← asks kill_switch;
  (if execution_enabled kill then mret tt
   else log (Event "agentic_write_execution_blocked" [("op", JStr op); ("gate", JStr (T "execution_enabled"))]);;
        fail (err_gate "execution_enabled"));;
  (if teqb op [] then fail err_agentic else mret tt);;
  let reason := str_param plan (T "reason") [] in
  cfg ← current_repository_policy attached op reason confirm;
  require_gates cfg op reason confirm;;
  (if bool_decide (op ∈ EXECUTABLE_WRITE_OPS) then mret tt
   else log (Event "agentic_write_execution_blocked" [("op", JStr op); ("gate", JStr (T "executable_op"))]);;
        fail (err_gate "executable_op"));;
  (if bool_decide (get plan (T "repo") ≫= as_str = Some (repo cfg)) then mret tt
   else fail (err_gate "repo_match"));;
  let params := from_option id (JObj []) (get plan (T "params")) in
  argv ← lift (build_write_argv op (repo cfg) params (T "gh"));
  (if plan_intact plan argv then mret tt else fail (err_gate "plan_integrity"));;
  let body := str_param params (T "body") [] in
  (if teqb (trim body) [] || (MAX_PR_BODY_BYTES <? byte_len body) then fail err_agentic else mret tt);;
  mret (cfg, op, reason, argv, body).

Definition err_indeterminate : harness_error := HarnessError "AGENTIC_ERROR" None ["indeterminate"%string].

Definition run_write (cfg : AgenticConfig) (op reason : text) (argv : list text) (timeout_sec : Z) : M text :=
  log (Event "agentic_write_execute_start" [("op", JStr op); ("repo", JStr (repo cfg)); ("reason", JStr reason)]);;
  r ← call (act (RanProcess argv timeout_sec)) (fun w => act_ok (process_run argv timeout_sec w));
  match r with
  | Err Timeout =>
      log (Event "agentic_write_execute_timeout" [("op", JStr op); ("repo", JStr (repo cfg))]);;
      fail err_indeterminate
  | Err Capture =>
      log (Event "agentic_write_execute_capture_failed" [("op", JStr op); ("repo", JStr (repo cfg))]);;
      fail err_indeterminate
  | Err Spawn => fail err_agentic
  | Ok out =>
      log (Event "agentic_write_executed"
             [("op", JStr op); ("repo", JStr (repo cfg));
              ("exit_code", match status out with Some n => JInt n | None => JNull end)]);;
      if bool_decide (status out = Some 0) then mret (trim (stdout out)) else fail err_agentic
  end.

Definition execute_write (attached : AgenticConfig) (plan : json) (confirm : bool) (timeout_sec : Z) : M text :=
  '(cfg, op, reason, argv, body) ← admit_write attached plan confirm;
  path ← write_body_file body;
  match body_flag_index argv with
  | None => fail (err_gate "body_file_retarget")
  | Some index =>
      let argv := <[S index := path]> (<[index := T "--body-file"]> argv) in
      binary ← (fun s => let '(w, r) := checked_gh_binary (gh_min_version cfg) (world s) in (St w (trace s), r));
      run_write cfg op reason (<[0%nat := binary]> argv) timeout_sec
  end.
End Gate.

(** ** Lemmas *)

Lemma Forall_bool_forallb {A} (f : A -> bool) l : Forall (fun x => f x = true) l <-> forallb f l = true.
Proof. rewrite forallb_forall, Forall_forall. by setoid_rewrite list_elem_of_In. Qed.

Lemma shaped_spec cls extra s :
  shaped cls extra s = true <->
  exists c rest, s = c :: rest /\ is_ascii_alphanumeric c = true /\ Forall (fun x => cls x = true) rest
                 /\ (length rest <= extra)%nat.
Proof.
  destruct s as [|c rest]; simpl; [split; [done | by intros (? & ? & ? & _)]|].
  rewrite !andb_true_iff, Nat.leb_le. rewrite <- Forall_bool_forallb.
  split; [intros [[? ?] ?]; eauto 8 | intros (? & ? & [= <- <-] & ? & ? & ?); auto].
Qed.

(** The vector of a draft pull request. *)
Definition draft_pr_argv (gh repo head base title flag body : text) : list text :=
  [gh; T "pr"; T "create"; T "--repo"; repo; T "--head"; head; T "--base"; base; T "--title"; title; flag; body; T "--draft"].

Lemma pr_create_argv pre repo params gh argv :
  build_write_argv pre (T "pr_create") repo params gh = Ok argv <->
  exists head base,
    require_head_branch pre params = Ok head /\ require_base_branch params = Ok base
    /\ argv = draft_pr_argv gh repo head base (str_param params (T "title") []) (T "--body") (str_param params (T "body") []).
Proof.
  unfold build_write_argv. rewrite !(proj2 (teqb_neq _ _)), teqb_refl by discriminate. split.
  - intros H. results. unfold mret, result_ret in H. simplify_eq. eauto 8.
  - intros (head & base & -> & -> & ->). done.
Qed.

Lemma require_true {W F} (c : bool) op gate reason (s s' : st W F) u :
  require c op gate reason s = (s', Ok u) <-> c = true /\ s' = s.
Proof.
  destruct c, u; unfold require, refuse, mret, eff_ret; split.
  - by intros [= ->].
  - by intros [_ ->].
  - intros H. discriminate H.
  - by intros [[=] _].
Qed.

Section GateLemmas.
Context {W F : Type}.

Lemma quiet_refuse {A} op gate reason : quiet (refuse op gate reason : eff W F harness_error A).
Proof. unfold refuse. quiet. Qed.

Lemma quiet_require c op gate reason : quiet (require c op gate reason : eff W F harness_error unit).
Proof. unfold require. destruct c; [auto with harness | apply quiet_refuse]. Qed.

#[local] Hint Resolve quiet_refuse quiet_require : harness.

Lemma quiet_require_write_policy cfg op reason confirm :
  quiet (require_write_policy (W:=W) (F:=F) cfg op reason confirm).
Proof. unfold require_write_policy. quiet. Qed.
#[local] Hint Resolve quiet_require_write_policy : harness.

Lemma quiet_require_gates cfg op reason confirm : quiet (require_gates (W:=W) (F:=F) cfg op reason confirm).
Proof. unfold require_gates. quiet. Qed.

(** What the human and administrative gates ask. *)
Definition intent_ok (cfg : AgenticConfig) (reason : text) (confirm : bool) : Prop :=
  enabled cfg = true /\ is_write_mode cfg = true /\ writes_enabled cfg = true
  /\ is_visibly_blank reason = false /\ confirm = true.

(** The policy has not moved since the workspace was attached. *)
Definition same_target (cfg attached : AgenticConfig) : Prop :=
  repo cfg = repo attached
  /\ workspace_root (deepagent cfg) = workspace_root (deepagent attached)
  /\ protected_write_paths (deepagent cfg) = protected_write_paths (deepagent attached)
  /\ max_write_budget_bytes (deepagent cfg) = max_write_budget_bytes (deepagent attached)
  /\ scan_code_shape (deepagent cfg) = scan_code_shape (deepagent attached).

Lemma require_bind {A} c op gate reason (f : unit -> eff W F harness_error A) s s' r :
  (require c op gate reason ≫= f) s = (s', Ok r) <-> c = true /\ f tt s = (s', Ok r).
Proof. unfold mbind, eff_bind. destruct c; simpl; split; [by intros H | by intros [_ H] | done | by intros [[=] _]]. Qed.

Lemma require_write_policy_Ok cfg op reason confirm s s' u :
  require_write_policy (W:=W) (F:=F) cfg op reason confirm s = (s', Ok u)
  <-> s' = s /\ intent_ok cfg reason confirm.
Proof.
  unfold require_write_policy, intent_ok. rewrite !require_bind, require_true, negb_true_iff. tauto.
Qed.

(** A gate refused: one audit line, which names it as the error does. *)
Definition refused_at {A} (op reason : text) (s s' : st W F) (r : result harness_error A) : Prop :=
  exists g, r = Err (err_gate g)
            /\ s' = St (world s) (trace s ++ [Audited (Event "agentic_write_refused"
                     [("op", JStr op); ("gate", JStr (T g)); ("reason", JStr reason)])]).

Lemma require_cases {A} c op g reason (f : unit -> eff W F harness_error A) s s' r :
  (require c op g reason ≫= f) s = (s', r) -> f tt s = (s', r) \/ refused_at op reason s s' r.
Proof. intros H. destruct c; [by left | right; exists g; injection H as <- <-; done]. Qed.

Lemma require_write_policy_cases cfg op reason confirm s s' r :
  require_write_policy (W:=W) (F:=F) cfg op reason confirm s = (s', r) ->
  r = Ok tt \/ refused_at op reason s s' r.
Proof.
  unfold require_write_policy. intros H. do 4 (apply require_cases in H as [H|H]; [|by right]).
  destruct confirm; [left | right; exists "confirm"%string]; injection H as <- <-; done.
Qed.

Context (lower : text -> text) (pre : text).
Context (load_policy : W -> result harness_error AgenticConfig) (kill_switch : W -> text).
Abbreviation policy := (current_repository_policy (W:=W) (F:=F) lower load_policy kill_switch).

#[local] Hint Resolve quiet_require_gates : harness.

Lemma quiet_policy attached op reason confirm : quiet (policy attached op reason confirm).
Proof. unfold current_repository_policy. quiet. Qed.

#[local] Hint Resolve quiet_policy : harness.

Lemma quiet_admit_write attached plan confirm :
  quiet (admit_write (F:=F) lower pre load_policy kill_switch attached plan confirm).
Proof. unfold admit_write. quiet. Qed.

Lemma policy_Ok attached op reason confirm s s' cfg :
  policy attached op reason confirm s = (s', Ok cfg) <->
  s' = s /\ load_policy (world s) = Ok cfg /\ intent_ok cfg reason confirm
  /\ env_value_disables lower (kill_switch (world s)) = false
  /\ da_enabled (deepagent cfg) = true /\ allow_git_write_tools (deepagent cfg) = true
  /\ same_target cfg attached.
Proof.
  unfold current_repository_policy. unfold mbind at 1, eff_bind at 1, asks at 1.
  unfold mbind at 1, eff_bind at 1, lift. destruct (load_policy (world s)) as [c|e]; [|naive_solver].
  split.
  - intros H. eff_step H. apply require_write_policy_Ok in H0 as [-> Hi].
    unfold mbind at 1, eff_bind at 1, asks in H. rewrite !require_bind in H.
    destruct H as (Hk & Hd & Hw & Ht & Hs & [= <- <-]).
    rewrite andb_true_iff, teqb_eq, bool_decide_eq_true in Ht. destruct Ht as [Ht1 Ht2].
    rewrite !andb_true_iff, bool_decide_eq_true, Z.eqb_eq, eqb_true_iff in Hs.
    destruct Hs as [[Hs1 Hs2] Hs3]. unfold execution_enabled in Hk. simpl in Hk.
    apply negb_true_iff in Hk. by unfold same_target.
  - intros (-> & [= ->] & Hi & Hk & Hd & Hw & H1 & H2 & H3 & H4 & H5).
    unfold mbind at 1, eff_bind at 1.
    rewrite (proj2 (require_write_policy_Ok cfg op reason confirm s s tt) (conj eq_refl Hi)).
    unfold mbind at 1, eff_bind at 1, asks. rewrite !require_bind. unfold execution_enabled.
    rewrite Hk, Hd, Hw, H1, H2, H3, H4, H5, teqb_refl, !bool_decide_true, Z.eqb_refl, eqb_reflx by done.
    done.
Qed.

(** With a readable configuration, an error is a gate's refusal. *)
Lemma policy_Err attached op reason confirm s s' c e :
  load_policy (world s) = Ok c -> policy attached op reason confirm s = (s', Err e) ->
  refused_at op reason s s' (@Err harness_error AgenticConfig e).
Proof.
  intros Hl. unfold current_repository_policy.
  unfold mbind at 1, eff_bind at 1, asks at 1. unfold mbind at 1, eff_bind at 1, lift. rewrite Hl.
  intros H. eff_step H.
  - apply require_write_policy_cases in H0 as [?|(g & Hg & ->)]; [done|].
    exists g. split; [|done]. congruence.
  - apply require_write_policy_Ok in H0 as [-> _]. unfold mbind at 1, eff_bind at 1, asks in H.
    do 5 (apply require_cases in H as [H|H]; [|done]). discriminate H.
Qed.

Lemma require_gates_Ok cfg op reason confirm s s' u :
  require_gates (W:=W) (F:=F) cfg op reason confirm s = (s', Ok u) -> s' = s /\ op ∈ WRITE_OPS.
Proof.
  unfold require_gates. rewrite require_bind. intros [_ H]. case_bool_decide; [|done].
  apply require_write_policy_Ok in H. tauto.
Qed.

(** The policy that is loaded now admits the write: the gates of
    [current_repository_policy], all of them. *)
Record policy_in_force (attached : AgenticConfig) (reason : text) (confirm : bool) (w : W) (cfg : AgenticConfig) : Prop := {
  p_loaded : load_policy w = Ok cfg;
  p_intent : intent_ok cfg reason confirm;
  p_switch : env_value_disables lower (kill_switch w) = false;
  p_deepagent : da_enabled (deepagent cfg) = true;
  p_tools : allow_git_write_tools (deepagent cfg) = true;
  p_target : same_target cfg attached;
}.

Lemma policy_in_force_Ok attached op reason confirm s s' cfg :
  policy attached op reason confirm s = (s', Ok cfg) <-> s' = s /\ policy_in_force attached reason confirm (world s) cfg.
Proof. rewrite policy_Ok. split; [intros (? & ? & ? & ? & ? & ? & ?); by split | intros (? & [])]; tauto. Qed.

(** What a plan says. *)
Definition reason_of (plan : json) : text := str_param plan (T "reason") [].
Definition params_of (plan : json) : json := from_option id (JObj []) (get plan (T "params")).
Definition title_of (plan : json) : text := str_param (params_of plan) (T "title") [].
Definition body_of (plan : json) : text := str_param (params_of plan) (T "body") [].

(** The plan may be executed in [w]: it is a pull request for the configured
    repository; the policy in force admits it for the reason it carries; its own
    parameters give an allowed head and base; the vector that was reviewed, when
    the plan shows one, is the vector of those parameters; and its body is
    neither blank nor too long. *)
Record admitted (attached : AgenticConfig) (plan : json) (confirm : bool) (w : W) (cfg : AgenticConfig) (head base : text) : Prop := {
  a_op : str_param plan (T "op") [] = T "pr_create";
  a_policy : policy_in_force attached (reason_of plan) confirm w cfg;
  a_repo : get plan (T "repo") ≫= as_str = Some (repo cfg);
  a_head : require_head_branch pre (params_of plan) = Ok head;
  a_base : require_base_branch (params_of plan) = Ok base;
  a_vector : forall declared, get plan (T "would_run") ≫= as_array = Some declared ->
    omap as_str (drop 1 declared) = drop 1 (draft_pr_argv (T "gh") (repo cfg) head base (title_of plan) (T "--body") (body_of plan));
  a_body : trim (body_of plan) <> [] /\ byte_len (body_of plan) <= MAX_PR_BODY_BYTES;
}.

Lemma plan_intact_spec plan argv :
  plan_intact plan argv = true <->
  forall declared, get plan (T "would_run") ≫= as_array = Some declared -> omap as_str (drop 1 declared) = drop 1 argv.
Proof.
  unfold plan_intact. destruct (get plan (T "would_run") ≫= as_array) as [declared|]; [|done].
  rewrite bool_decide_eq_true. split; [by intros H ? [= <-] | intros H; by apply H].
Qed.

Lemma check_bind {A} (c : bool) (e : eff W F harness_error unit) (f : unit -> eff W F harness_error A) s s' r :
  (forall t t' u, e t <> (t', Ok u)) ->
  ((if c then mret tt else e) ≫= f) s = (s', Ok r) -> c = true /\ f tt s = (s', Ok r).
Proof.
  intros He H. destruct c; [done|]. eff_step H. by apply He in H0.
Qed.

Lemma admit_write_Ok attached plan confirm (s s' : st W F) cfg op reason argv body :
  admit_write lower pre load_policy kill_switch attached plan confirm s
    = (s', Ok (cfg, op, reason, argv, body)) ->
  s' = s /\ op = T "pr_create" /\ reason = reason_of plan /\ body = body_of plan /\ exists head base,
    admitted attached plan confirm (world s) cfg head base
    /\ argv = draft_pr_argv (T "gh") (repo cfg) head base (title_of plan) (T "--body") (body_of plan).
Proof.
  unfold admit_write. unfold mbind at 1, eff_bind at 1, asks. intros H.
  apply check_bind in H as [_ H]; [|done]. eff_step H.
  assert (Hs : s0 = s) by (destruct (teqb _ _) in H0; by injection H0). subst s0. clear H0.
  eff_step H. apply policy_in_force_Ok in H0 as (-> & Hp).
  eff_step H. apply require_gates_Ok in H0 as [-> Hops].
  apply check_bind in H as [Hop H]; [|done]. apply bool_decide_eq_true in Hop.
  unfold EXECUTABLE_WRITE_OPS in Hop. apply list_elem_of_singleton in Hop. rewrite Hop in H.
  apply check_bind in H as [Hrepo H]; [|done]. apply bool_decide_eq_true in Hrepo.
  eff_step H. unfold lift in H0. injection H0 as <- H0.
  apply check_bind in H as [Hint H]; [|done]. rewrite plan_intact_spec in Hint. eff_step H.
  destruct (_ || _) eqn:Hb in H1; [discriminate H1|]. injection H1 as <-.
  injection H as <- <- <- <- <- <-.
  apply orb_false_iff in Hb as [Hb1 Hb2]. apply teqb_neq in Hb1. apply Z.ltb_ge in Hb2.
  apply pr_create_argv in H0 as (head & base & Hh & Hba & ->).
  do 4 (split; [done|]). exists head, base. split; [|done]. by constructor.
Qed.

Lemma require_gates_admit cfg op reason confirm (s : st W F) :
  op ∈ WRITE_OPS -> intent_ok cfg reason confirm -> require_gates cfg op reason confirm s = (s, Ok tt).
Proof.
  intros Hop Hi. unfold require_gates. apply require_bind. split; [apply Hi|]. rewrite bool_decide_true by done.
  by apply require_write_policy_Ok.
Qed.

(** The conditions are exact. *)
Lemma admitted_admits attached plan confirm (s : st W F) cfg head base :
  admitted attached plan confirm (world s) cfg head base ->
  admit_write lower pre load_policy kill_switch attached plan confirm s
    = (s, Ok (cfg, T "pr_create", reason_of plan,
              draft_pr_argv (T "gh") (repo cfg) head base (title_of plan) (T "--body") (body_of plan), body_of plan)).
Proof.
  intros [Hop Hp Hrepo Hh Hb Hv [Hb1 Hb2]]. unfold admit_write, mbind, eff_bind, asks, execution_enabled. rewrite Hop, (p_switch _ _ _ _ _ Hp).
  cbn [negb andb EXECUTION_ENABLED]. rewrite (proj2 (teqb_neq (T "pr_create") [])) by discriminate. cbn [mret eff_ret].
  fold (reason_of plan). rewrite (proj2 (policy_in_force_Ok attached (T "pr_create") (reason_of plan) confirm s s cfg)) by done.
  rewrite require_gates_admit; [| unfold WRITE_OPS; set_solver | apply Hp].
  rewrite (bool_decide_true (T "pr_create" ∈ EXECUTABLE_WRITE_OPS)) by (unfold EXECUTABLE_WRITE_OPS; set_solver). cbn [mret eff_ret].
  rewrite bool_decide_true by done. cbn [mret eff_ret]. fold (params_of plan). unfold lift.
  rewrite (proj2 (pr_create_argv pre (repo cfg) (params_of plan) (T "gh") _)) by (exists head, base; split_and!; done).
  fold (title_of plan) (body_of plan). rewrite (proj2 (plan_intact_spec plan _)) by exact Hv. cbn [mret eff_ret].
  rewrite (proj2 (teqb_neq _ _) Hb1), (proj2 (Z.ltb_ge _ _) Hb2). done.
Qed.

(** What one process answers. *)
Lemma run_write_result act process_run cfg op reason argv timeout (s s' : st W F) r :
  run_write act process_run cfg op reason argv timeout s = (s', r) ->
  (exists audits, only_audits audits /\
     trace s' = trace s ++ Audited (Event "agentic_write_execute_start" [("op", JStr op); ("repo", JStr (repo cfg)); ("reason", JStr reason)])
                       :: Did (act (RanProcess argv timeout)) :: audits)
  /\ (is_ok r = true <-> exists out, snd (process_run argv timeout (world s)) = Ok out /\ status out = Some 0).
Proof.
  unfold run_write. intros H. unfold mbind at 1, eff_bind at 1, log at 1 in H. unfold mbind at 1, eff_bind at 1, call in H. simpl world in H.
  simpl trace in H. unfold act_ok in H. destruct (process_run argv timeout (world s)) as [w3 out] eqn:Eout. cbn [fst snd] in *.
  split.
  - apply quiet_result in H as [_ (audits & Hq & Ha)]; [|by quiet]. exists audits. split; [done|]. simpl trace in Hq. by rewrite <- !app_assoc in Hq.
  - destruct out as [out|[]].
    + unfold mbind at 1, eff_bind at 1, log at 1 in H. case_bool_decide as Es; injection H as _ <-; split; try done; [by exists out|].
      by intros (? & [= <-] & ?).
    + injection H as _ <-. split; [done | by intros (? & [=] & _)].
    + injection H as _ <-. split; [done | by intros (? & [=] & _)].
    + injection H as _ <-. split; [done | by intros (? & [=] & _)].
Qed.
End GateLemmas.

(** ** Properties *)

(** C32. The policy gate fails closed and says why.  It succeeds exactly when
    the configuration reloaded at that moment is readable, enables write mode
    and the clone tools, the kill switch is off, the human gave a visible
    reason and confirmed, and neither the target nor the write scope moved
    since the workspace was attached; then it changes nothing.  When the
    configuration is readable and it refuses, the error carries the gate and
    the audit log gains exactly one line, with the same gate.  It never
    touches the world. *)
Theorem policy_fails_closed {W F} lower (load_policy : W -> result harness_error AgenticConfig)
    (kill_switch : W -> text) (attached : AgenticConfig) (op reason : text) (confirm : bool) (s : st W F) :
  let '(s', r) := current_repository_policy lower load_policy kill_switch attached op reason confirm s in
  world s' = world s
  /\ (forall cfg, r = Ok cfg <->
        load_policy (world s) = Ok cfg
        /\ (enabled cfg = true /\ mode cfg = T "write" /\ writes_enabled cfg = true)
        /\ (is_visibly_blank reason = false /\ confirm = true)
        /\ env_value_disables lower (kill_switch (world s)) = false
        /\ da_enabled (deepagent cfg) = true /\ allow_git_write_tools (deepagent cfg) = true
        /\ same_target cfg attached)
  /\ (is_ok r = true -> s' = s)
  /\ (forall cfg e, load_policy (world s) = Ok cfg -> r = Err e ->
        exists g, e = err_gate g
        /\ trace s' = trace s ++ [Audited (Event "agentic_write_refused"
             [("op", JStr op); ("gate", JStr (T g)); ("reason", JStr reason)])]).
Proof.
  destruct (current_repository_policy _ _ _ _ _ _ _ _) as [s' r] eqn:E.
  pose proof (quiet_result _ _ _ _ (quiet_policy lower load_policy kill_switch attached op reason confirm) E)
    as [Hw _].
  pose proof (fun cfg => policy_Ok lower load_policy kill_switch attached op reason confirm s s' cfg) as Hok.
  rewrite E in Hok. unfold intent_ok, is_write_mode in Hok. setoid_rewrite teqb_eq in Hok.
  split; [done|]. split; [|split].
  - intros cfg. split.
    + intros ->. destruct (proj1 (Hok cfg) eq_refl) as (_ & H). tauto.
    + intros H. destruct (policy_Ok lower load_policy kill_switch attached op reason confirm s s cfg) as [_ Hb].
      rewrite E in Hb. assert (Hr : (s', r) = (s, Ok cfg)).
      { apply Hb. unfold intent_ok, is_write_mode. rewrite teqb_eq. tauto. }
      by injection Hr.
  - destruct r as [cfg|e]; [|done]. intros _. by destruct (proj1 (Hok cfg) eq_refl) as (-> & _).
  - intros cfg e Hl ->. destruct (policy_Err _ _ _ _ _ _ _ _ _ _ _ Hl E) as (g & Hg & ->). exists g. by injection Hg.
Qed.

(** C31. [execute_write] runs at most one process, and exactly the reviewed
    draft pull request.  Either nothing but audit lines happened, and it failed;
    or the plan was admitted in the world it was executed in: every gate of the
    policy in force passed for the reason and the confirmation of this very plan,
    the plan names the configured repository, its reviewed vector is the one of
    its own parameters, and its body, neither blank nor longer than 65,536 bytes,
    was put in a file.  A process then runs at most once, after its start was
    logged, with the [gh pr create --draft] vector of the plan: its repository,
    head, base and title, and its body by the file, whatever the title is.
    Conversely an admitted plan is run as soon as the body file and the checked
    [gh] are there, and the answer is a success exactly when the process ended
    with status zero. *)
Theorem execute_write_runs_only_reviewed {W F} (act : gate_act -> F) (lower : text -> text) (pre : text)
    (load_policy : W -> result harness_error AgenticConfig) (kill_switch : W -> text)
    (new_body_file : W -> W * result harness_error text)
    (checked_gh_binary : (Z * Z * Z) -> W -> W * result harness_error text)
    (process_run : list text -> Z -> W -> W * result process_error process_output)
    (attached : AgenticConfig) (plan : json) (confirm : bool) (timeout : Z) (s s' : st W F) (r : result harness_error text) :
  execute_write lower pre act load_policy kill_switch new_body_file checked_gh_binary process_run
    attached plan confirm timeout s = (s', r) ->
  exists l, trace s' = trace s ++ l /\
  ((only_audits l /\ is_ok r = false)
   \/ exists cfg head base path rest,
        admitted lower pre load_policy kill_switch attached plan confirm (world s) cfg head base
        /\ l = Did (act (WroteBodyFile path (body_of plan))) :: rest
        /\ ((only_audits rest /\ is_ok r = false)
            \/ exists binary audits,
                 rest = Audited (Event "agentic_write_execute_start"
                                   [("op", JStr (T "pr_create")); ("repo", JStr (repo cfg)); ("reason", JStr (reason_of plan))])
                        :: Did (act (RanProcess (draft_pr_argv binary (repo cfg) head base (title_of plan) (T "--body-file") path) timeout))
                        :: audits
                 /\ only_audits audits))
  /\ (forall cfg head base w1 path w2 binary,
        admitted lower pre load_policy kill_switch attached plan confirm (world s) cfg head base ->
        new_body_file (world s) = (w1, Ok path) -> checked_gh_binary (gh_min_version cfg) w1 = (w2, Ok binary) ->
        let argv := draft_pr_argv binary (repo cfg) head base (title_of plan) (T "--body-file") path in
        Did (act (RanProcess argv timeout)) ∈ l
        /\ (is_ok r = true <-> exists out, snd (process_run argv timeout w2) = Ok out /\ status out = Some 0)).
Proof.
  unfold execute_write. intros H. eff_step H.
  { destruct (quiet_result _ _ _ _ (quiet_admit_write _ _ _ _ _ _ _) H0) as (_ & l & Hl & Ha). exists l. split; [done|].
    split; [by left|]. intros cfg head base w1 path w2 binary Hadm. apply admitted_admits in Hadm. by rewrite Hadm in H0. }
  destruct a as [[[[cfg op] reason] argv] body].
  pose proof H0 as Hadmit. apply admit_write_Ok in H0 as (-> & -> & -> & -> & head & base & Hadm & ->).
  assert (Huniq : forall cfg' head' base', admitted lower pre load_policy kill_switch attached plan confirm (world s) cfg' head' base' ->
    cfg' = cfg /\ head' = head /\ base' = base).
  { intros cfg' head' base' Hadm'. apply admitted_admits in Hadm'. rewrite Hadm' in Hadmit. by simplify_eq. }
  clear Hadmit. unfold write_body_file in H. unfold mbind at 1, eff_bind at 1 in H.
  destruct (new_body_file (world s)) as [w1 [path|e]].
  2: { injection H as <- <-. exists []. rewrite app_nil_r. split; [done|]. split; [left; split; [constructor | done] | done]. }
  change (body_flag_index _) with (Some 11%nat) in H. unfold mbind at 1, eff_bind at 1 in H. simpl world in H.
  destruct (checked_gh_binary _ w1) as [w2 [binary|e]] eqn:Egh; cycle 1.
  { injection H as <- <-. simpl. eexists. split; [done|]. split.
    - right. exists cfg, head, base, path, []. split; [done|]. split; [done|]. left. split; [constructor | done].
    - intros cfg' head' base' w1' path' w2' binary' (-> & -> & ->)%Huniq [= <- <-]. by rewrite Egh. }
  apply run_write_result in H as [(audits & Ha & Hq) Hr]. simpl trace in Hq. rewrite <- !app_assoc in Hq. simpl in Hq.
  eexists. split; [exact Hq|]. split.
  - right. exists cfg, head, base, path. eexists. split; [done|]. split; [reflexivity|]. right. by exists binary, audits.
  - intros cfg' head' base' w1' path' w2' binary' (-> & -> & ->)%Huniq [= <- <-]. rewrite Egh. intros [= <- <-]. cbn zeta.
    split; [|exact Hr]. apply elem_of_cons. right. apply elem_of_cons. right. left.
Qed.

Lemma show_Z_not_flag n : show_Z n <> T "--body".
Proof.
  unfold show_Z. destruct (n <? 0) eqn:E; intros H.
  - apply Z.ltb_lt in E. injection H as H.
    pose proof (show_nat_digits (- n) ltac:(lia)) as Hd. rewrite H in Hd. by inversion Hd.
  - apply Z.ltb_ge in E. pose proof (show_nat_digits n E) as Hd. rewrite H in Hd. by inversion Hd.
Qed.

Lemma require_int_number_Ok params n : require_int_number params = Ok n -> exists z, n = show_Z z.
Proof.
  unfold require_int_number. intros H. apply bind_Ok_inv in H as (j & _ & H).
  destruct (as_i64 j) as [z|]; [|done]. injection H as <-. by exists z.
Qed.

(** The body of a pull request is always found: in the vector of
    [pr_create], whatever the title, the body or any other value is, the flag
    position is 11 and the body stands at 12.  In the vector of a comment
    operation every flag stands at an even position, so the walk over odd
    positions misses the [--body] at 6 (unless a value looks like the flag):
    the invariant stated for all of [build_write_argv] holds for the one
    executable operation only. *)
Theorem body_flag_found (pre repo : text) (params : json) (gh : text) :
  (forall argv, build_write_argv pre (T "pr_create") repo params gh = Ok argv ->
     body_flag_index argv = Some 11%nat /\ argv !! 11%nat = Some (T "--body")
     /\ argv !! 12%nat = Some (str_param params (T "body") []))
  /\ (forall argv, build_write_argv pre (T "pr_comment") repo params gh = Ok argv ->
        argv !! 6%nat = Some (T "--body")
        /\ (repo <> T "--body" -> str_param params (T "body") [] <> T "--body" ->
            body_flag_index argv = None)).
Proof.
  split; intros argv H.
  - by apply pr_create_argv in H as (head & base & _ & _ & ->).
  - unfold build_write_argv in H. rewrite teqb_refl in H.
    apply bind_Ok_inv in H as (n' & Hn & [= <-]). apply require_int_number_Ok in Hn as (n & ->).
    split; [done|]. intros Hr Hbody.
    unfold body_flag_index. simpl.
    rewrite (proj2 (teqb_neq _ _) (show_Z_not_flag n)), (proj2 (teqb_neq _ _) Hr), (proj2 (teqb_neq _ _) Hbody).
    done.
Qed.

(** A configuration that allows the write, and the plan of a pull request. *)
Definition demo_config : AgenticConfig :=
  MkAgentic true (T "o/r") (T "write") true (2, 40, 0) (MkDeepAgent true [] true [] [] 100000 200000 true false).
Definition demo_plan (title shown : text) : json :=
  JObj [(T "op", JStr (T "pr_create")); (T "repo", JStr (T "o/r")); (T "reason", JStr (T "because"));
        (T "params", JObj [(T "head", JStr (T "claude/x")); (T "title", JStr title);
                           (T "body", JStr (T "reviewed body"))]);
        (T "would_run", JArr (map JStr (draft_pr_argv (T "gh") (T "o/r") (T "claude/x") (T "main") shown (T "--body") (T "reviewed body"))))].
Definition demo_execute_as (shown kill : text) : st unit gate_act -> st unit gate_act * result harness_error text :=
  execute_write (map to_ascii_lower) (T "agent") id (fun _ => Ok demo_config) (fun _ => kill)
    (fun w => (w, Ok (T "/tmp/b"))) (fun _ w => (w, Ok (T "/usr/bin/gh")))
    (fun _ _ w => (w, Ok (MkOutput (Some 0) (T "url ") []))) demo_config (demo_plan (T "--body") shown) true 60.
Definition demo_execute : text -> st unit gate_act -> st unit gate_act * result harness_error text := demo_execute_as (T "--body").
Example another_title_is_refused : snd (demo_execute_as (T "title") [] (St tt [])) = Err (err_gate "plan_integrity").
Proof. vm_compute. reflexivity. Qed.

Lemma execute_write_runs_only_reviewed_witness :
  snd (demo_execute [] (St tt [])) = Ok (T "url")
  /\ snd (demo_execute (T " TRUE ") (St tt [])) = Err (err_gate "execution_enabled")
  /\ exists l, trace (fst (demo_execute [] (St tt []))) = l /\ ~ only_audits l.
Proof.
  assert (Hr : snd (demo_execute [] (St tt [])) = Ok (T "url")) by (vm_compute; reflexivity).
  split; [exact Hr|]. split; [vm_compute; reflexivity|].
  destruct (execute_write_runs_only_reviewed id (map to_ascii_lower) (T "agent") (fun _ => Ok demo_config)
              (fun _ => []) (fun w => (w, Ok (T "/tmp/b"))) (fun _ w => (w, Ok (T "/usr/bin/gh")))
              (fun _ _ w => (w, Ok (MkOutput (Some 0) (T "url ") []))) demo_config
              (demo_plan (T "--body") (T "--body")) true 60 (St tt []) (fst (demo_execute [] (St tt [])))
              (snd (demo_execute [] (St tt [])))) as (l & Hl & H); [apply surjective_pairing|].
  exists l. split; [exact Hl|]. destruct H as [[[_ Hf]|(? & ? & ? & ? & ? & _ & -> & _)] _].
  - rewrite Hr in Hf. discriminate Hf.
  - intros Ha. inversion Ha. done.
Defined.
