(* ===== verification/Registry.v ===== *)
(** The governed skill registry ([agentic/registry.rs]): a JSON file that
    several processes update under a lock directory.

    The first part is the data: the preview of a skill, the gates of
    [apply_skill] and the new content of the file.  The second part is the lock
    protocol as a transition system: every process that applies a skill is a
    program counter, and each of its system calls is one step, between which
    the others run, the clock moves and processes die.  A directory's
    modification time is that of the last entry made in or removed from it.

    Times are whole seconds.  The content of a directory entry other than the
    owner's token is not modelled; a failing write of the token is not either
    ([let _ = fs::write]). *)

From S2P Require Import Prelude Text Effects RepoPaths WriteGate.
Local Open Scope Z_scope.

Definition LOCK_STALE_SEC : Z := 60.
Definition rerr : harness_error := err_code "SKILL_REGISTRY_ERROR".
Definition err_injection : harness_error := err_code "PROMPT_INJECTION_BLOCKED".

(** ** Skills *)

Record SkillSpec := MkSkill { s_name : text; s_description : text; s_body : text }.
Definition canonical (s : SkillSpec) : text := s_name s ++ [c_newline] ++ s_description s ++ [c_newline] ++ s_body s.

(** [name_re]: [A-Za-z0-9][A-Za-z0-9_.-]* *)
Definition name_char (c : char) : bool := is_ascii_alphanumeric c || (c =? 95) || (c =? c_dot) || (c =? c_dash).
Definition name_ok (s : text) : bool := match s with [] => false | c :: s => is_ascii_alphanumeric c && forallb name_char s end.
Definition blank (s : text) : bool := bool_decide (trim s = []).
Definition validate (s : SkillSpec) : result harness_error unit :=
  if blank (s_name s) || blank (s_description s) || blank (s_body s) then Err rerr
  else if name_ok (s_name s) then Ok tt else Err rerr.

(** *** The preview *)

(** The loops that count the lines both texts start and end with. *)
Fixpoint common_prefix (a b : list text) : nat :=
  match a, b with
  | x :: a, y :: b => if teqb x y then S (common_prefix a b) else 0
  | _, _ => 0
  end.
Definition middle (prefix suffix : nat) (l : list text) : list text := take (length l - suffix - prefix) (drop prefix l).
Definition suffix_after (prefix : nat) (a b : list text) : nat := common_prefix (rev (drop prefix a)) (rev (drop prefix b)).
Definition marked (c : char) (l : list text) : text := flat_map (fun x => c :: x ++ [c_newline]) l.
Definition unified_diff (old new name : text) : text :=
  let a := lines old in
  let b := lines new in
  if bool_decide (a = b) then []
  else
    let prefix := common_prefix a b in
    let suffix := suffix_after prefix a b in
    T "--- " ++ name ++ T " (current)" ++ [c_newline] ++ T "+++ " ++ name ++ T " (proposed)" ++ [c_newline]
    ++ marked 45 (middle prefix suffix a) ++ marked 43 (middle prefix suffix b).

(** *** The file *)

Definition empty_registry : json := JObj [(T "version", JInt 0); (T "updated", JNull); (T "skills", JObj []); (T "history", JArr [])].
(** A missing file, or one with its parsed content, if it parses. *)
Definition load (file : option (option json)) : result harness_error json :=
  match file with
  | None => Ok empty_registry
  | Some None => Err rerr
  | Some (Some data) => match data with JObj _ => if bool_decide (is_Some (get data (T "skills"))) then Ok data else Err rerr | _ => Err rerr end
  end.
Definition version_of (data : json) : Z := match get data (T "version") with Some v => match as_i64 v with Some n => n | None => 0 end | None => 0 end.
Definition history_of (data : json) : list json := match get data (T "history") with Some v => match as_array v with Some l => l | None => [] end | None => [] end.
Definition list_skills (data : json) : list text := match get data (T "skills") with Some (JObj l) => map fst l | _ => [] end.
Definition get_skill (data : json) (name : text) : option json := s ← get data (T "skills"); get s name.

Section Skills.
Context (scan : text -> list text) (sha256_hex : text -> text).

Definition open (scanner_is_empty : bool) (file : option (option json)) : result harness_error json :=
  if scanner_is_empty then Err rerr else load file.

(** [propose_skill]: what the registry would say; it writes nothing. *)
Definition propose_skill (data : json) (s : SkillSpec) (reason : text) : result harness_error json :=
  _ ← validate s;
  let flags := scan (canonical s) in
  let existing := get_skill data (s_name s) in
  let old := match existing with Some e => match get e (T "body") with Some (JStr b) => b | _ => [] end | None => [] end in
  Ok (JObj [(T "status", JStr (T "proposed")); (T "name", JStr (s_name s)); (T "diff", JStr (unified_diff old (s_body s) (s_name s)));
            (T "injection_flags", JArr (map JStr flags)); (T "injection_flag_count", JInt (Z.of_nat (length flags)));
            (T "safe_to_apply", JBool (bool_decide (flags = []))); (T "reason", JStr reason); (T "proposed_sha", JStr (sha256_hex (canonical s)));
            (T "is_update", JBool (bool_decide (is_Some existing))); (T "governance_score", JInt (if bool_decide (flags = []) then 100 else 20))]).

(** *** The gates of [apply_skill], before the lock *)

Context (lower : text -> text) {W F : Type} (load_policy : W -> result harness_error AgenticConfig) (kill_switch : W -> text).
Definition op_apply : text := T "apply_skill".
Definition apply_gates (s : SkillSpec) (reason : text) (confirm : bool) : eff W F harness_error unit :=
  lift (validate s);;
  (if is_visibly_blank reason then fail rerr else mret tt);;
  loaded ← asks load_policy;
  current ← lift loaded;
  require_write_policy current op_apply reason confirm;;
  kill ← asks kill_switch;
  require (execution_enabled lower kill) op_apply "execution_enabled" reason;;
  let flags := scan (canonical s) in
  if bool_decide (flags = []) then mret tt
  else
    log (Event "agentic_skill_injection_blocked"
           [("name", JStr (s_name s)); ("reason", JStr reason); ("injection_flag_count", JInt (Z.of_nat (length flags)))]);;
    fail err_injection.

(** *** What is written under the lock *)

Record Change := MkChange { c_spec : SkillSpec; c_reason : text; c_time : text }.

Definition wrap_i64 (n : Z) : Z := (n + 2 ^ 63) mod 2 ^ 64 - 2 ^ 63.
Definition skill_entry (c : Change) : json :=
  JObj [(T "name", JStr (s_name (c_spec c))); (T "description", JStr (s_description (c_spec c))); (T "body", JStr (s_body (c_spec c)));
        (T "sha256", JStr (sha256_hex (canonical (c_spec c)))); (T "reason", JStr (c_reason c)); (T "updated", JStr (c_time c))].
Definition history_entry (version : Z) (c : Change) : json :=
  JObj [(T "version", JInt version); (T "name", JStr (s_name (c_spec c))); (T "sha256", JStr (sha256_hex (canonical (c_spec c))));
        (T "reason", JStr (c_reason c)); (T "timestamp", JStr (c_time c))].

(** [data["skills"][name] = entry]: [Null] becomes an object, anything else
    that is not one panics. *)
Definition with_skill (name : text) (entry : json) (skills : json) : option json :=
  match skills with
  | JObj l => Some (JObj (set_field name entry l))
  | JNull => Some (JObj [(name, entry)])
  | _ => None
  end.
Definition updated (c : Change) (data : json) : option json :=
  match data with
  | JObj l =>
      let version := wrap_i64 (version_of data + 1) in
      let history := history_of data ++ [history_entry version c] in
      skills ← with_skill (s_name (c_spec c)) (skill_entry c) (index data (T "skills"));
      Some (JObj (set_field (T "updated") (JStr (c_time c)) (set_field (T "version") (JInt version)
                   (set_field (T "history") (JArr history) (set_field (T "skills") skills l)))))
  | _ => None
  end.
End Skills.

(** ** The lock *)

(** A lock directory: its modification time and the pid in its token. *)
Record Lock := MkLock { mtime : Z; token : option Z }.

(** Where a process stands in [apply_skill].  A state marked [g] also holds the
    reclaim guard. *)
Inductive Pc :=
| Start              (* before [create_dir(lock_dir)] *)
| Denied             (* it exists *)
| Guarded            (* g: created the guard *)
| Aged               (* g: the directory is older than the limit *)
| Stale              (* g: its token is missing, or of a dead process *)
| Emptied            (* g: inside [remove_dir_all], the token is gone *)
| Cleared            (* g: before [create_dir] in [reclaim_lock] *)
| Leaving            (* g: [reclaim_lock] returns false *)
| MadeGuarded        (* g: created the lock directory *)
| HeldGuarded        (* g: wrote the token *)
| Made               (* created the lock directory *)
| Held               (* has the lock *)
| Loaded (data : json)
| Done               (* before [is_lock_owner] *)
| Releasing          (* before [remove_file(token)] *)
| Untokened          (* before [remove_dir(lock_dir)] *)
| Finished.
#[export] Instance pc_eq_dec : EqDecision Pc.
Proof. solve_decision. Defined.

Definition owns (pc : Pc) : bool :=
  match pc with MadeGuarded | HeldGuarded | Made | Held | Loaded _ | Done | Releasing | Untokened => true | _ => false end.
Definition guards (pc : Pc) : bool :=
  match pc with Guarded | Aged | Stale | Emptied | Cleared | Leaving | MadeGuarded | HeldGuarded => true | _ => false end.

(** What the processes share: the lock directory, the guard directory, the
    file, and the changes written to it so far. *)
Record Shared := MkShared { lock : option Lock; guard : bool; file : option (option json); written : list Change }.
Definition with_lock (l : option Lock) (s : Shared) : Shared := MkShared l (guard s) (file s) (written s).
Definition with_guard (b : bool) (s : Shared) : Shared := MkShared (lock s) b (file s) (written s).

(** Entries of the lock directory. *)
Definition create_dir (now : Z) (s : Shared) : option Shared := match lock s with None => Some (with_lock (Some (MkLock now None)) s) | Some _ => None end.
Definition remove_dir (s : Shared) : Shared := match lock s with Some (MkLock _ None) => with_lock None s | _ => s end.
Definition write_lock_token (now p : Z) (s : Shared) : Shared :=
  match lock s with
  | Some (MkLock t None) => with_lock (Some (MkLock now (Some p))) s
  | Some (MkLock t (Some _)) => with_lock (Some (MkLock t (Some p))) s
  | None => s
  end.
Definition remove_token (now : Z) (s : Shared) : Shared :=
  match lock s with Some (MkLock _ (Some _)) => with_lock (Some (MkLock now None)) s | _ => s end.
Definition read_lock_token (s : Shared) : option Z := match lock s with Some l => token l | None => None end.

Section Protocol.
Context (sha256_hex : text -> text).

(** One system call of process [p].  [ok] is the outcome of reading or writing
    the registry file where it may fail; [alive] is [pid_alive]. *)
Definition act (now : Z) (alive : Z -> bool) (p : Z) (c : Change) (ok : bool) (pc : Pc) (s : Shared) : Pc * Shared :=
  match pc with
  | Start => match create_dir now s with Some s => (Made, s) | None => (Denied, s) end
  | Denied => if guard s then (Finished, s) else (Guarded, with_guard true s)
  | Guarded =>
      match lock s with
      | None => (Cleared, s)
      | Some l => if now - mtime l <=? LOCK_STALE_SEC then (Leaving, s) else (Aged, s)
      end
  | Aged => match read_lock_token s with Some q => if alive q then (Leaving, s) else (Stale, s) | None => (Stale, s) end
  | Stale => (Emptied, remove_token now s)
  | Emptied => (Cleared, remove_dir s)
  | Cleared => match create_dir now s with Some s => (MadeGuarded, s) | None => (Leaving, s) end
  | Leaving => (Finished, with_guard false s)
  | MadeGuarded => (HeldGuarded, write_lock_token now p s)
  | HeldGuarded => (Held, with_guard false s)
  | Made => (Held, write_lock_token now p s)
  | Held => if ok then match load (file s) with Ok data => (Loaded data, s) | Err _ => (Done, s) end else (Done, s)
  | Loaded data =>
      if ok then
        match updated sha256_hex c data with
        | Some data => (Done, MkShared (lock s) (guard s) (Some (Some data)) (written s ++ [c]))
        | None => (Finished, s)  (* it panics *)
        end
      else (Done, s)
  | Done => match read_lock_token s with Some q => if q =? p then (Releasing, s) else (Finished, s) | None => (Releasing, s) end
  | Releasing => (Untokened, remove_token now s)
  | Untokened => (Finished, remove_dir s)
  | Finished => (Finished, s)
  end.

Record State := MkState { clock : Z; shared : Shared; procs : gmap Z (Change * Pc) }.
Inductive Event := Tick (t : Z) | Spawn (p : Z) (c : Change) | Die (p : Z) | Act (p : Z) (ok : bool).

Definition happens (s : State) (e : Event) : State :=
  match e with
  | Tick t => MkState (Z.max (clock s) t) (shared s) (procs s)
  | Spawn p c => match procs s !! p with None => MkState (clock s) (shared s) (<[p := (c, Start)]> (procs s)) | Some _ => s end
  | Die p => MkState (clock s) (shared s) (delete p (procs s))
  | Act p ok =>
      match procs s !! p with
      | Some (c, pc) =>
          let '(pc', sh) := act (clock s) (fun q => bool_decide (is_Some (procs s !! q))) p c ok pc (shared s) in
          MkState (clock s) sh (<[p := (c, pc')]> (procs s))
      | None => s
      end
  end.
Definition so_far (l : list Event) (s : State) : State := foldl happens s l.

Definition no_lock (f : option (option json)) : State := MkState 0 (MkShared None false f []) ∅.

(** The lock is not kept beyond [LOCK_STALE_SEC]: when the clock moves, no
    living process has a lock that becomes older than that. *)
Definition prompt (s : State) (e : Event) : Prop :=
  match e with
  | Tick t => forall p c pc l, procs s !! p = Some (c, pc) -> owns pc = true -> lock (shared s) = Some l -> t - mtime l <= LOCK_STALE_SEC
  | _ => True
  end.
Fixpoint all_prompt (s : State) (l : list Event) : Prop :=
  match l with [] => True | e :: l => prompt s e /\ all_prompt (happens s e) l end.

(** ** The lock excludes *)

Definition reclaiming (pc : Pc) : bool := match pc with Aged | Stale | Emptied => true | _ => false end.
Definition token_in (pc : Pc) (p : Z) : option Z := match pc with Made | MadeGuarded | Untokened => None | _ => Some p end.

(** At most one process has the lock, which carries its token and is young; at
    most one has the guard; a lock that is being reclaimed has no living
    owner; and what was loaded is still what the file holds. *)
Record Inv (s : State) : Prop := {
  i_one : forall p q c pc c' pc', procs s !! p = Some (c, pc) -> procs s !! q = Some (c', pc') -> owns pc = true -> owns pc' = true -> p = q;
  i_lock : forall p c pc, procs s !! p = Some (c, pc) -> owns pc = true ->
    exists t, lock (shared s) = Some (MkLock t (token_in pc p)) /\ clock s - t <= LOCK_STALE_SEC;
  i_guard : forall p c pc, procs s !! p = Some (c, pc) -> guards pc = true -> guard (shared s) = true;
  i_guard_one : forall p q c pc c' pc', procs s !! p = Some (c, pc) -> procs s !! q = Some (c', pc') -> guards pc = true -> guards pc' = true -> p = q;
  i_stale : forall p c pc, procs s !! p = Some (c, pc) -> reclaiming pc = true ->
    lock (shared s) <> None /\ forall q c' pc', procs s !! q = Some (c', pc') -> owns pc' = false;
  i_loaded : forall p c d, procs s !! p = Some (c, Loaded d) -> load (file (shared s)) = Ok d;
}.

Definition others (s : State) (p : Z) (b : Pc -> bool) : Prop := exists q c pc, q <> p /\ procs s !! q = Some (c, pc) /\ b pc = true.

Lemma reclaiming_guards pc : reclaiming pc = true -> guards pc = true.
Proof. by destruct pc. Qed.

(** What a step of [p] has to respect. *)
Lemma step_inv s p c pc' sh : Inv s ->
  (owns pc' = true -> ~ others s p owns /\ exists t, lock sh = Some (MkLock t (token_in pc' p)) /\ clock s - t <= LOCK_STALE_SEC) ->
  (others s p owns -> lock sh = lock (shared s)) ->
  (guards pc' = true -> guard sh = true /\ ~ others s p guards) ->
  (others s p guards -> guard sh = true) ->
  (reclaiming pc' = true -> lock sh <> None /\ ~ others s p owns) ->
  (others s p reclaiming -> lock sh <> None /\ owns pc' = false) ->
  (forall d, pc' = Loaded d -> load (file sh) = Ok d) ->
  (others s p owns -> file sh = file (shared s)) ->
  Inv (MkState (clock s) sh (<[p := (c, pc')]> (procs s))).
Proof.
  intros [I1 I2 I3 I4 I5 I6] A B C D E F G H.
  assert (forall b q c pc, q <> p -> procs s !! q = Some (c, pc) -> b pc = true -> others s p b) as HO by (intros b q c0 pc ? ? ?; by exists q, c0, pc).
  split; cbn [procs shared clock].
  - intros p1 p2 c1 pc1 c2 pc2 [[<- [= <- <-]]|[N1 H1]]%lookup_insert_Some [[<- [= <- <-]]|[N2 H2]]%lookup_insert_Some O1 O2; [done | | |by eapply I1].
    + destruct (A O1) as [[] _]. by eapply (HO owns p2).
    + destruct (A O2) as [[] _]. by eapply (HO owns p1).
  - intros p1 c1 pc1 [[<- [= <- <-]]|[N1 H1]]%lookup_insert_Some O1; [by apply A|].
    rewrite B by (by eapply (HO owns p1)). by eapply I2.
  - intros p1 c1 pc1 [[<- [= <- <-]]|[N1 H1]]%lookup_insert_Some O1; [by apply C | apply D; by eapply (HO guards p1)].
  - intros p1 p2 c1 pc1 c2 pc2 [[<- [= <- <-]]|[N1 H1]]%lookup_insert_Some [[<- [= <- <-]]|[N2 H2]]%lookup_insert_Some O1 O2; [done | | |by eapply I4].
    + destruct (C O1) as [_ []]. by eapply (HO guards p2).
    + destruct (C O2) as [_ []]. by eapply (HO guards p1).
  - intros p1 c1 pc1 [[<- [= <- <-]]|[N1 H1]]%lookup_insert_Some O1.
    + destruct (E O1) as [E1 E2]. split; [done|]. intros q c2 pc2 [[<- [= <- <-]]|[N2 H2]]%lookup_insert_Some; [by destruct pc'|].
      destruct (owns pc2) eqn:O2; [|done]. destruct E2. by eapply (HO owns q).
    + destruct F as [F1 F2]; [by eapply (HO reclaiming p1)|]. split; [done|].
      intros q c2 pc2 [[<- [= <- <-]]|[N2 H2]]%lookup_insert_Some; [done|]. by eapply (proj2 (I5 _ _ _ H1 O1)).
  - intros p1 c1 d [[<- [= <- ->]]|[N1 H1]]%lookup_insert_Some; [by apply G|]. rewrite H by (by eapply (HO owns p1)). by eapply I6.
Qed.

Lemma no_lock_no_owner s p : Inv s -> lock (shared s) = None -> ~ others s p owns /\ ~ others s p reclaiming.
Proof.
  intros HI Hl. split; intros (q & c & pc & _ & Hq & Ho).
  - destruct (i_lock _ HI _ _ _ Hq Ho) as (t & Ht & _). congruence.
  - by destruct (i_stale _ HI _ _ _ Hq Ho) as [? _].
Qed.
Lemma owner_alone s p c pc : Inv s -> procs s !! p = Some (c, pc) -> owns pc = true -> ~ others s p owns /\ ~ others s p reclaiming.
Proof.
  intros HI Hp Ho. split; intros (q & c' & pc' & Hne & Hq & Hb).
  - apply Hne. by eapply (i_one _ HI).
  - destruct (i_stale _ HI _ _ _ Hq Hb) as [_ H]. apply H in Hp. congruence.
Qed.
Lemma guard_alone s p c pc : Inv s -> procs s !! p = Some (c, pc) -> guards pc = true -> guard (shared s) = true /\ ~ others s p guards /\ ~ others s p reclaiming.
Proof.
  intros HI Hp Ho. assert (~ others s p guards) as HN by (intros (q & c' & pc' & Hne & Hq & Hb); apply Hne; by eapply (i_guard_one _ HI)).
  split_and!; [by eapply (i_guard _ HI) | done |]. intros (q & c' & pc' & Hne & Hq & Hb). apply HN. exists q, c', pc'. by auto using reclaiming_guards.
Qed.
Lemma reclaim_alone s p c pc : Inv s -> procs s !! p = Some (c, pc) -> reclaiming pc = true -> lock (shared s) <> None /\ ~ others s p owns.
Proof.
  intros HI Hp Ho. destruct (i_stale _ HI _ _ _ Hp Ho) as [H1 H2]. split; [done|]. intros (q & c' & pc' & Hne & Hq & Hb). apply H2 in Hq. congruence.
Qed.
Lemma old_no_owner s p l : Inv s -> lock (shared s) = Some l -> LOCK_STALE_SEC < clock s - mtime l -> ~ others s p owns.
Proof.
  intros HI Hl Ha (q & c & pc & _ & Hq & Ho). destruct (i_lock _ HI _ _ _ Hq Ho) as (t & Ht & H). rewrite Hl in Ht. injection Ht as ->. cbn in Ha. lia.
Qed.

Lemma others_guard s p : Inv s -> others s p guards -> guard (shared s) = true.
Proof. intros HI (q & c & pc & _ & Hq & Hb). by eapply (i_guard _ HI). Qed.
Lemma others_reclaim s p : Inv s -> others s p reclaiming -> lock (shared s) <> None.
Proof. intros HI (q & c & pc & _ & Hq & Hb). by eapply (i_stale _ HI). Qed.

(** A step to a place that neither holds nor claims anything, or stays inside
    what [p] has. *)
Ltac by_step HI := apply (step_inv _ _ _ _ _ HI); cbn [owns guards reclaiming token_in lock guard file shared with_lock with_guard];
  try (intros; done || tauto || discriminate || by eapply others_guard || (split; [by eapply others_reclaim | done])).

Lemma young s l : lock (shared s) = Some l -> LOCK_STALE_SEC < clock s - mtime l \/ clock s - mtime l <= LOCK_STALE_SEC.
Proof. lia. Qed.

Lemma enter_inv s p c ok pc : Inv s -> procs s !! p = Some (c, pc) -> owns pc = false ->
  let r := act (clock s) (fun q => bool_decide (is_Some (procs s !! q))) p c ok pc (shared s) in
  Inv (MkState (clock s) r.2 (<[p := (c, r.1)]> (procs s))).
Proof.
  intros HI Hp Ho. cbn zeta. destruct pc; try discriminate Ho; cbn [act].
  - unfold create_dir. destruct (lock (shared s)) as [l|] eqn:El; cbn [fst snd]; [by by_step HI|].
    destruct (no_lock_no_owner s p HI El). by_step HI.
    intros _. split; [done|]. exists (clock s). split; [done|]. unfold LOCK_STALE_SEC. lia.

  - destruct (guard (shared s)) eqn:Eg; cbn [fst snd]; [by by_step HI|].
    assert (forall b, (forall pc, b pc = true -> guards pc = true) -> ~ others s p b) as HN.
    { intros b Hb (q & c' & pc' & _ & Hq & Hb'). apply Hb in Hb'. rewrite (i_guard _ HI _ _ _ Hq Hb') in Eg. done. }
    pose proof (HN guards (fun _ H => H)). pose proof (HN reclaiming reclaiming_guards). by by_step HI.
  - destruct (guard_alone s p _ _ HI Hp eq_refl) as (Hg & HG & HR). destruct (lock (shared s)) as [l|] eqn:El; cbn [fst snd]; [|by by_step HI].
    destruct (clock s - mtime l <=? LOCK_STALE_SEC) eqn:Ea; cbn [fst snd]; [by by_step HI|]. apply Z.leb_gt in Ea.
    pose proof (old_no_owner s p l HI El Ea). by_step HI. intros _. split; [congruence | done].
  - destruct (guard_alone s p _ _ HI Hp eq_refl) as (Hg & HG & HR). destruct (reclaim_alone s p _ _ HI Hp eq_refl) as [Hl HO].
    assert (Inv (MkState (clock s) (shared s) (<[p:=(c, Stale)]> (procs s)))) as HS by by by_step HI.
    destruct (read_lock_token (shared s)) as [q|]; [|done]. destruct (bool_decide _); [by by_step HI | done].
  - destruct (guard_alone s p _ _ HI Hp eq_refl) as (Hg & HG & HR). destruct (reclaim_alone s p _ _ HI Hp eq_refl) as [Hl HO].
    unfold remove_token. destruct (lock (shared s)) as [[t [q|]]|] eqn:El; [|..]; cbn [fst snd]; [by by_step HI | | done].
    by_step HI. intros _. split; [congruence | done].
  - destruct (guard_alone s p _ _ HI Hp eq_refl) as (Hg & HG & HR). destruct (reclaim_alone s p _ _ HI Hp eq_refl) as [Hl HO].
    unfold remove_dir. destruct (lock (shared s)) as [[t [q|]]|]; cbn [fst snd]; by by_step HI.
  - destruct (guard_alone s p _ _ HI Hp eq_refl) as (Hg & HG & HR). unfold create_dir. destruct (lock (shared s)) as [l|] eqn:El; cbn [fst snd]; [by by_step HI|].
    destruct (no_lock_no_owner s p HI El). by_step HI. intros _. split; [done|]. exists (clock s). split; [done|]. unfold LOCK_STALE_SEC. lia.
  - destruct (guard_alone s p _ _ HI Hp eq_refl) as (Hg & HG & HR). cbn [fst snd]. by by_step HI.
  - cbn [fst snd]. by by_step HI.
Qed.

Lemma owner_inv s p c ok pc : Inv s -> procs s !! p = Some (c, pc) -> owns pc = true ->
  let r := act (clock s) (fun q => bool_decide (is_Some (procs s !! q))) p c ok pc (shared s) in
  Inv (MkState (clock s) r.2 (<[p := (c, r.1)]> (procs s))).
Proof.
  intros HI Hp Ho. cbn zeta. destruct (owner_alone s p c pc HI Hp Ho) as [HO HR]. destruct (i_lock _ HI _ _ _ Hp Ho) as (t & Hl & Ht).
  assert (0 <= LOCK_STALE_SEC) as Hst by (unfold LOCK_STALE_SEC; lia).
  destruct pc; try discriminate Ho; cbn [act token_in] in *.
  - unfold write_lock_token. rewrite Hl. destruct (guard_alone s p _ _ HI Hp eq_refl) as (Hg & HG & _). cbn [fst snd]. by_step HI.
    intros _. split; [done|]. exists (clock s). split; [done | lia].
  - destruct (guard_alone s p _ _ HI Hp eq_refl) as (Hg & HG & _). cbn [fst snd]. by_step HI. intros _. split; [done|]. by exists t.
  - unfold write_lock_token. rewrite Hl. cbn [fst snd]. by_step HI. intros _. split; [done|]. exists (clock s). split; [done | lia].
  - assert (Inv (MkState (clock s) (shared s) (<[p:=(c, Done)]> (procs s)))) as HD by (by_step HI; intros _; split; [done | by exists t]).
    destruct ok; [|done]. destruct (load (file (shared s))) as [data|e] eqn:El; cbn [fst snd]; [|done]. by_step HI.
    + intros _. split; [done | by exists t].
    + by intros d [= <-].
  - assert (Inv (MkState (clock s) (shared s) (<[p:=(c, Done)]> (procs s)))) as HD by (by_step HI; intros _; split; [done | by exists t]).
    destruct ok; [|done]. destruct (updated sha256_hex c data) as [d|]; cbn [fst snd]; [|by by_step HI]. by_step HI. intros _. split; [done | by exists t].
  - unfold read_lock_token. rewrite Hl. cbn [token]. rewrite Z.eqb_refl. cbn [fst snd]. by_step HI. intros _. split; [done | by exists t].
  - unfold remove_token. rewrite Hl. cbn [fst snd]. by_step HI. intros _. split; [done|]. exists (clock s). split; [done | lia].
  - unfold remove_dir. rewrite Hl. cbn [fst snd]. by by_step HI.
Qed.

Lemma happens_inv e s : Inv s -> prompt s e -> Inv (happens s e).
Proof.
  intros HI He. destruct e as [t|p c|p|p ok]; cbn [happens].
  - destruct HI as [I1 I2 I3 I4 I5 I6]. split; try done. intros p c pc Hp Ho. cbn [clock shared] in *. destruct (I2 _ _ _ Hp Ho) as (t' & Hl & Ha).
    exists t'. split; [done|]. specialize (He _ _ _ _ Hp Ho Hl). cbn in He. lia.
  - destruct (procs s !! p) as [|] eqn:Hp; [done|]. apply (step_inv _ _ _ _ _ HI); try (intros; done || discriminate || by eapply others_guard).
    intros HR. split; [by eapply others_reclaim | done].
  - destruct HI as [I1 I2 I3 I4 I5 I6]. split; cbn [procs shared clock] in *; intros *; rewrite ?lookup_delete_Some; intros; destruct_and?; eauto.
    match goal with H1 : procs s !! _ = Some _, H2 : reclaiming _ = true |- _ => destruct (I5 _ _ _ H1 H2) as [J1 J2] end.
    split; [done|]. intros q c' pc' [_ Hq]%lookup_delete_Some. by eapply J2.
  - destruct (procs s !! p) as [[c pc]|] eqn:Hp; [|done]. destruct (act _ _ _ _ _ _ _) as [pc' sh] eqn:Ea.
    destruct (owns pc) eqn:Ho; [pose proof (owner_inv s p c ok pc HI Hp Ho) as H | pose proof (enter_inv s p c ok pc HI Hp Ho) as H];
      cbn zeta in H; by rewrite Ea in H.
Qed.

Lemma so_far_inv l s : Inv s -> all_prompt s l -> Inv (so_far l s).
Proof. revert s. induction l as [|e l IH]; intros s HI HP; [done|]. destruct HP as [He HP]. cbn. apply IH; [by apply happens_inv | done]. Qed.
Lemma no_lock_inv f : Inv (no_lock f).
Proof. split; intros *; cbn; rewrite lookup_empty; discriminate. Qed.

(** ** No change is lost *)

Lemma wrap_i64_range n : - 2 ^ 63 <= wrap_i64 n < 2 ^ 63.
Proof. unfold wrap_i64. pose proof (Z.mod_pos_bound (n + 2 ^ 63) (2 ^ 64)). lia. Qed.
Lemma wrap_i64_id n : - 2 ^ 63 <= n < 2 ^ 63 -> wrap_i64 n = n.
Proof. unfold wrap_i64. intros H. rewrite Z.mod_small; lia. Qed.
Lemma as_i64_in_range n : - 2 ^ 63 <= n < 2 ^ 63 -> as_i64 (JInt n) = Some n.
Proof. intros H. unfold as_i64. by rewrite (proj2 (Z.leb_le _ _)), (proj2 (Z.ltb_lt _ _)) by lia. Qed.

Definition next_version (data : json) : Z := wrap_i64 (version_of data + 1).

Lemma updated_spec c data d : updated sha256_hex c data = Some d ->
  load (Some (Some d)) = Ok d /\ version_of d = next_version data /\
  history_of d = history_of data ++ [history_entry sha256_hex (next_version data) c] /\
  forall name, get_skill d name = if teqb (s_name (c_spec c)) name then Some (skill_entry sha256_hex c) else get_skill data name.
Proof.
  unfold updated. destruct data as [| | | | | |l]; try discriminate. set (data := JObj l). set (v := wrap_i64 _). set (h := history_of data ++ _).
  destruct (with_skill _ _ (index data (T "skills"))) as [sk|] eqn:Es; [|done]. cbn [mbind option_bind]. intros [= <-].
  set (l' := set_field (T "updated") _ _).
  assert (get (JObj l') (T "skills") = Some sk) as E1 by (cbn [get]; unfold l'; by rewrite !field_set_field).
  assert (get (JObj l') (T "version") = Some (JInt v)) as E2 by (cbn [get]; unfold l'; by rewrite !field_set_field).
  assert (get (JObj l') (T "history") = Some (JArr h)) as E3 by (cbn [get]; unfold l'; by rewrite !field_set_field).
  split_and!.
  - unfold load. rewrite E1. by rewrite bool_decide_eq_true_2 by eauto.
  - unfold version_of. rewrite E2, as_i64_in_range by apply wrap_i64_range. done.
  - unfold history_of at 1. by rewrite E3.
  - intros name. unfold get_skill at 1. rewrite E1. cbn [mbind option_bind]. unfold with_skill, index in Es. unfold get_skill.
    destruct (get data (T "skills")) as [s|] eqn:Eg; cbn [from_option mbind option_bind] in *;
      [destruct s; try discriminate; unfold id in Es|]; injection Es as <-; cbn [get field]; rewrite ?field_set_field; by destruct (teqb _ name).
Qed.

(** The file after the changes [cs], one after the other, each on what the one
    before left. *)
Definition replay (d : json) (cs : list Change) : option json := foldl (fun acc c => d ← acc; updated sha256_hex c d) (Some d) cs.
Fixpoint entries (v : Z) (cs : list Change) : list json :=
  match cs with [] => [] | c :: cs => history_entry sha256_hex (wrap_i64 (v + 1)) c :: entries (wrap_i64 (v + 1)) cs end.
Definition last_entry (name : text) (old : option json) (cs : list Change) : option json :=
  foldl (fun acc c => if teqb (s_name (c_spec c)) name then Some (skill_entry sha256_hex c) else acc) old cs.

Lemma replay_none cs : foldl (fun acc c => d ← acc; updated sha256_hex c d) None cs = None.
Proof. induction cs; [done|]. by cbn. Qed.
Lemma replay_spec cs d0 d : replay d0 cs = Some d ->
  history_of d = history_of d0 ++ entries (version_of d0) cs /\ (forall name, get_skill d name = last_entry name (get_skill d0 name) cs) /\
  (- 2 ^ 63 <= version_of d0 -> version_of d0 + Z.of_nat (length cs) < 2 ^ 63 -> version_of d = version_of d0 + Z.of_nat (length cs)).
Proof.
  unfold replay. revert d0. induction cs as [|c cs IH]; intros d0 H; cbn [foldl] in H.
  - injection H as ->. rewrite app_nil_r. split_and!; [done | done | cbn; lia].
  - change (Some d0 ≫= fun d => updated sha256_hex c d) with (updated sha256_hex c d0) in H.
    destruct (updated sha256_hex c d0) as [d1|] eqn:E; [|by rewrite replay_none in H].
    destruct (updated_spec _ _ _ E) as (_ & Ev & Eh & Es). destruct (IH _ H) as (Hh & Hs & Hv). unfold next_version in *. split_and!.
    + rewrite Hh, Eh, <- app_assoc, Ev. done.
    + intros name. rewrite Hs, Es. done.
    + cbn [length]. intros H1 H2. rewrite Hv; rewrite Ev, wrap_i64_id; lia.
Qed.

Definition FileInv (f : option (option json)) (s : State) : Prop :=
  (written (shared s) = [] /\ file (shared s) = f) \/
  exists d0 d, load f = Ok d0 /\ file (shared s) = Some (Some d) /\ load (Some (Some d)) = Ok d /\ replay d0 (written (shared s)) = Some d.

Lemma act_file now alive p c ok pc s : let r := act now alive p c ok pc s in
  (file r.2 = file s /\ written r.2 = written s) \/
  (exists data d, pc = Loaded data /\ updated sha256_hex c data = Some d /\ file r.2 = Some (Some d) /\ written r.2 = written s ++ [c]).
Proof.
  cbn zeta. destruct pc; cbn [act]; unfold create_dir, write_lock_token, remove_token, remove_dir.
  all: try (destruct (lock s) as [[t [q|]]|]; by left).
  all: try (destruct (guard s); by left).
  all: try by left.
  - destruct (lock s) as [l|]; [destruct (_ <=? _)|]; by left.
  - destruct (read_lock_token s); [destruct (alive _)|]; by left.
  - destruct ok; [destruct (load (file s))|]; by left.
  - destruct ok; [|by left]. destruct (updated sha256_hex c data) as [d|] eqn:E; [right; by exists data, d | by left].
  - destruct (read_lock_token s); [destruct (_ =? _)|]; by left.
Qed.

Lemma happens_file f e s : Inv s -> FileInv f s -> FileInv f (happens s e).
Proof.
  intros HI HF. destruct e as [t|p c|p|p ok]; cbn [happens]; [done | by destruct (procs s !! p) | done|].
  destruct (procs s !! p) as [[c pc]|] eqn:Hp; [|done].
  pose proof (act_file (clock s) (fun q => bool_decide (is_Some (procs s !! q))) p c ok pc (shared s)) as H. cbn zeta in H. destruct (act _ _ _ _ _ _ _) as [pc' sh].
  cbn [snd] in H. destruct H as [[E1 E2]|(data & d & -> & Hu & E1 & E2)]; unfold FileInv; cbn [shared]; rewrite E1, E2; [exact HF|]. right.
  pose proof (i_loaded _ HI _ _ _ Hp) as Hl. destruct (updated_spec _ _ _ Hu) as (Hd & _).
  destruct HF as [[W F]|(d0 & d1 & L0 & F & L1 & R)].
  - exists data, d. rewrite W. split_and!; [by rewrite <- F | done | done |]. exact Hu.
  - exists d0, d. split_and!; [done | done | done|]. rewrite F, L1 in Hl. injection Hl as ->. unfold replay. rewrite foldl_app. unfold replay in R. by rewrite R.
Qed.
Lemma so_far_file f l s : Inv s -> FileInv f s -> all_prompt s l -> FileInv f (so_far l s).
Proof.
  revert s. induction l as [|e l IH]; intros s HI HF HP; [done|]. destruct HP as [He HP]. cbn. apply IH; [by apply happens_inv | by apply happens_file | done].
Qed.

(** Two processes that have the lock at a time. *)
Definition Clash (s : State) : Prop :=
  exists p q c pc c' pc', p <> q /\ procs s !! p = Some (c, pc) /\ procs s !! q = Some (c', pc') /\ owns pc = true /\ owns pc' = true.

(** C25. As long as no living process keeps the lock beyond a minute, at most one
    process has it, whatever the interleaving of their system calls, their
    deaths and the reclaims of locks left behind. *)
Theorem registry_lock_exclusive f l : all_prompt (no_lock f) l -> ~ Clash (so_far l (no_lock f)).
Proof.
  intros HP (p & q & c & pc & c' & pc' & Hne & Hp & Hq & Ho & Ho'). apply Hne.
  by eapply (i_one _ (so_far_inv l _ (no_lock_inv f) HP)).
Qed.

(** C26. No change is lost: the file always is the first one with the changes
    written so far applied one after the other; the history has an entry for
    each in order, the version counts them, and a skill is as its last change
    left it. *)
Theorem registry_updates_never_lost f l : all_prompt (no_lock f) l ->
  let s := so_far l (no_lock f) in
  (written (shared s) = [] /\ file (shared s) = f) \/
  exists d0 d, load f = Ok d0 /\ file (shared s) = Some (Some d) /\
    history_of d = history_of d0 ++ entries (version_of d0) (written (shared s)) /\
    (forall name, get_skill d name = last_entry name (get_skill d0 name) (written (shared s))) /\
    (- 2 ^ 63 <= version_of d0 -> version_of d0 + Z.of_nat (length (written (shared s))) < 2 ^ 63 ->
     version_of d = version_of d0 + Z.of_nat (length (written (shared s)))).
Proof.
  intros HP s. destruct (so_far_file f l (no_lock f) (no_lock_inv f) (or_introl (conj eq_refl eq_refl)) HP) as [H|(d0 & d & L0 & F & _ & R)]; [by left | right].
  exists d0, d. split_and!; [done | done | apply (replay_spec _ _ _ R)..].
Qed.
End Protocol.

(** ** The gates and the preview *)

Section GateLemmas.
Context (scan : text -> list text) (sha256_hex : text -> text) (lower : text -> text).
Context {W F : Type} (load_policy : W -> result harness_error AgenticConfig) (kill_switch : W -> text).
Abbreviation gates := (apply_gates (W:=W) (F:=F) scan lower load_policy kill_switch).

(** Before the lock [apply_skill] writes audit lines only. *)
Lemma quiet_apply_gates s reason confirm : quiet (gates s reason confirm).
Proof.
  unfold apply_gates. apply quiet_bind; [apply quiet_lift|]. intros _. apply quiet_bind; [destruct (is_visibly_blank reason); [apply quiet_fail | apply quiet_ret]|].
  intros _. apply quiet_bind; [apply quiet_asks|]. intros loaded. apply quiet_bind; [apply quiet_lift|]. intros current.
  apply quiet_bind; [apply quiet_require_write_policy|]. intros _. apply quiet_bind; [apply quiet_asks|]. intros kill.
  apply quiet_bind; [apply quiet_require|]. intros _. destruct (bool_decide _); [apply quiet_ret|]. apply quiet_bind; [apply quiet_log | intros _; apply quiet_fail].
Qed.

(** It goes on to the lock exactly for a valid skill without a finding, a
    reason, the policy in force now and the kill switch off. *)
Theorem apply_gates_exact s reason confirm st st' :
  gates s reason confirm st = (st', Ok tt) <->
  st' = st /\ validate s = Ok tt /\ scan (canonical s) = [] /\ execution_enabled lower (kill_switch (world st)) = true /\
  exists cfg, load_policy (world st) = Ok cfg /\ intent_ok cfg reason confirm.
Proof.
  unfold apply_gates. unfold mbind at 1, eff_bind at 1, lift at 1. destruct (validate s) as [[]|e]; [|split; [done | naive_solver]].
  unfold mbind at 1, eff_bind at 1. destruct (is_visibly_blank reason) eqn:Eb; cbn [fail mret eff_ret].
  { split; [done|]. intros (_ & _ & _ & _ & cfg & _ & H). unfold intent_ok in H. destruct_and!. congruence. }
  unfold mret, eff_ret. unfold mbind at 1, eff_bind at 1, asks at 1. unfold mbind at 1, eff_bind at 1, lift at 1.
  destruct (load_policy (world st)) as [cfg|e]; [|split; [done | naive_solver]].
  unfold mbind at 1, eff_bind at 1. destruct (require_write_policy cfg op_apply reason confirm st) as [s1 [[]|e]] eqn:Ep.
  - apply require_write_policy_Ok in Ep as [-> Hi]. unfold mbind at 1, eff_bind at 1, asks at 1. rewrite require_bind.
    destruct (bool_decide (scan (canonical s) = [])) eqn:Es.
    + apply bool_decide_eq_true in Es. unfold mret, eff_ret. naive_solver.
    + apply bool_decide_eq_false in Es. split; [by intros [_ H] | naive_solver].
  - split; [done|]. intros (_ & _ & _ & _ & cfg' & [= <-] & Hi). pose proof (proj2 (require_write_policy_Ok cfg op_apply reason confirm st st tt) (conj eq_refl Hi)) as H.
    rewrite Ep in H. discriminate H.
Qed.
End GateLemmas.

Lemma common_prefix_take a b : take (common_prefix a b) a = take (common_prefix a b) b.
Proof.
  revert b. induction a as [|x a IH]; intros [|y b]; try done. cbn [common_prefix]. destruct (teqb x y) eqn:E; [|done].
  apply teqb_eq in E as ->. cbn [take]. by rewrite IH.
Qed.
Lemma common_prefix_le a b : (common_prefix a b <= length a)%nat /\ (common_prefix a b <= length b)%nat.
Proof. revert b. induction a as [|x a IH]; intros [|y b]; cbn; try lia. destruct (teqb x y); cbn; specialize (IH b); lia. Qed.

Lemma keep_ends (p k : nat) (l : list text) : (p + k <= length l)%nat -> l = take p l ++ middle p k l ++ drop (length l - k) l.
Proof.
  intros H. unfold middle. rewrite <- (take_drop p l) at 1. f_equal. rewrite <- (take_drop (length l - k - p) (drop p l)) at 1. f_equal.
  rewrite drop_drop. f_equal. lia.
Qed.

(** The preview shows the change: outside of the lines it marks, the two texts
    have the same beginning and the same end. *)
Theorem diff_explains_change (old new name : text) : lines old <> lines new ->
  exists pre post minus plus, lines old = pre ++ minus ++ post /\ lines new = pre ++ plus ++ post /\
    unified_diff old new name = T "--- " ++ name ++ T " (current)" ++ [c_newline] ++ T "+++ " ++ name ++ T " (proposed)" ++ [c_newline] ++ marked 45 minus ++ marked 43 plus.
Proof.
  intros Hne. unfold unified_diff. rewrite bool_decide_eq_false_2 by done. set (a := lines old). set (b := lines new).
  set (p := common_prefix a b). set (k := suffix_after p a b). pose proof (common_prefix_take a b) as Hp. destruct (common_prefix_le a b) as [Ha Hb]. fold p in Hp, Ha, Hb.
  assert (k <= length a - p /\ k <= length b - p)%nat as [Ka Kb].
  { destruct (common_prefix_le (rev (drop p a)) (rev (drop p b))) as [H1 H2]. rewrite !length_rev, !length_drop in *. done. }
  assert (drop (length a - k) a = drop (length b - k) b) as Hk.
  { pose proof (common_prefix_take (rev (drop p a)) (rev (drop p b))) as H. fold (suffix_after p a b) in H. fold k in H.
    rewrite !List.firstn_rev in H. apply (f_equal (@rev text)) in H. rewrite !rev_involutive, !drop_drop, !length_drop in H.
    replace (p + (length a - p - k))%nat with (length a - k)%nat in H by lia. by replace (p + (length b - p - k))%nat with (length b - k)%nat in H by lia. }
  exists (take p a), (drop (length a - k) a), (middle p k a), (middle p k b). split_and!; [apply keep_ends; lia | | done].
  rewrite Hp, Hk. apply keep_ends. lia.
Qed.

(** ** A small registry *)

Module SmallRegistry.
Definition sha (t : text) : text := take 4 t.
Definition change (n : Z) : Change := MkChange (MkSkill (T "skill-" ++ show_nat n) (T "A skill") (T "Do it.")) (T "reviewed") (T "2026").
Definition acts (p : Z) (n : nat) : list Event := repeat (Act p true) n.
Abbreviation run l := (so_far sha l (no_lock None)).

(** Two processes, one after the other dies in between. *)
Definition orderly : list Event :=
  Spawn 1 (change 1) :: acts 1 2 ++ [Die 1; Tick 70; Spawn 2 (change 2)] ++ acts 2 4 ++ [Spawn 3 (change 3)] ++ acts 3 3 ++ acts 2 12
    ++ [Spawn 4 (change 4)] ++ acts 4 8.
Example orderly_written : map (fun c => s_name (c_spec c)) (written (shared (run orderly))) = [T "skill-2"; T "skill-4"].
Proof. vm_compute. reflexivity. Qed.
Example orderly_version : option_map version_of (from_option id None (file (shared (run orderly)))) = Some 2.
Proof. vm_compute. reflexivity. Qed.

Lemma orderly_prompt : all_prompt sha (no_lock None) orderly.
Proof.
  unfold orderly, acts. cbn [all_prompt app repeat prompt]. split_and!; try exact I. intros p c pc l Hp. exfalso. revert Hp.
  set (m := procs _). assert (m = ∅) as -> by (vm_compute; reflexivity). by rewrite lookup_empty.
Qed.
Lemma registry_lock_exclusive_witness : ~ Clash (run orderly).
Proof. apply registry_lock_exclusive, orderly_prompt. Defined.
Lemma registry_updates_witness :
  (written (shared (run orderly)) = [] /\ file (shared (run orderly)) = None) \/
  exists d0 d, load None = Ok d0 /\ file (shared (run orderly)) = Some (Some d) /\
    history_of d = history_of d0 ++ entries sha (version_of d0) (written (shared (run orderly))) /\
    (forall name, get_skill d name = last_entry sha name (get_skill d0 name) (written (shared (run orderly)))) /\
    (- 2 ^ 63 <= version_of d0 -> version_of d0 + Z.of_nat (length (written (shared (run orderly)))) < 2 ^ 63 ->
     version_of d = version_of d0 + Z.of_nat (length (written (shared (run orderly))))).
Proof. apply (registry_updates_never_lost sha None orderly), orderly_prompt. Defined.

(** A living process that keeps the lock for longer than the limit: the reclaimer
    reads the age of its lock, then finds no token in the lock of a third. *)
Definition slow_holder : list Event :=
  Spawn 1 (change 1) :: acts 1 2 ++ [Tick 100; Spawn 2 (change 2)] ++ acts 2 3 ++ acts 1 5 ++ [Spawn 3 (change 3)] ++ acts 3 1 ++ acts 2 4.
Theorem slow_holder_clashes : Clash (run slow_holder).
Proof. exists 2, 3, (change 2), MadeGuarded, (change 3), Made. split; [lia|]. split_and!; vm_compute; reflexivity. Qed.
End SmallRegistry.
