(* ===== verification/Executor.v ===== *)
(** [agentic/executor]: the acceptance manifest ([manifest.rs]), the proof on
    a disposable copy ([apply.rs]) and the verification run ([runner.rs]).

    A working tree is a value of type [tree]; its HEAD, the resolution of
    paths and the files are read through parameters, as are SHA-256, the
    compact JSON printer, and the sandbox that runs one check. *)

From S2P Require Import Prelude Text Effects RepoPaths.
Local Open Scope Z_scope.

(** ** [executor/manifest.rs] *)

Definition err_io : harness_error := err_code "IO_ERROR".

(** An ordinary file with its permission bits, or something else. *)
Inductive file_entry := Ordinary (bytes : list Z) (mode_bits : Z) | NotOrdinary.

Record tree := MkTree {
  tree_head : result harness_error text;
  root : list component;
  tree_canonicalize : list component -> option (list component);
  entry_at : list component -> option file_entry;
}.

(** Consecutive duplicates removed, as [Vec::dedup]. *)
Fixpoint dedup (l : list text) : list text :=
  match l with
  | a :: ((b :: _) as rest) => if teqb a b then dedup rest else a :: dedup rest
  | _ => l
  end.

Definition manifest_paths (paths : list text) : list text :=
  dedup (merge_sort text_le (map normalize_slashes paths)).

Definition file_mode (e : file_entry) : result harness_error text :=
  match e with
  | Ordinary _ bits => Ok (if Z.land bits 73 =? 0 then T "100644" else T "100755")
  | NotOrdinary => Err err_write_refused
  end.

Definition rel_components (rel : text) : list component :=
  map Normal (List.filter kept_segment (split_on c_slash rel)).

Definition jail (t : tree) (rel : text) : result harness_error (list component) :=
  root' ← ok_or (tree_canonicalize t (root t)) err_io;
  candidate ← ok_or (tree_canonicalize t (root' ++ rel_components rel)) err_agentic;
  if path_starts_with candidate root' then mret candidate else Err err_agentic.

Definition unsafe_manifest_path (rel : text) : bool :=
  teqb rel [] || starts_with [c_slash] rel || existsb (fun s => teqb s (T "..")) (split_on c_slash rel).

Section Manifest.
Context (sha256_hex : text -> text) (sha256_bytes_hex : list Z -> text) (to_string : json -> text).

Definition manifest_entry (t : tree) (rel : text) : result harness_error json :=
  if unsafe_manifest_path rel then Err err_agentic else
  target ← jail t rel;
  match entry_at t target with
  | Some (Ordinary bytes bits) =>
      mode ← file_mode (Ordinary bytes bits);
      mret (JObj [(T "mode", JStr mode); (T "path", JStr rel); (T "sha256", JStr (sha256_bytes_hex bytes))])
  | _ => Err err_agentic
  end.

Fixpoint manifest_entries (t : tree) (rels : list text) : result harness_error (list json) :=
  match rels with
  | [] => Ok []
  | rel :: rest => e ← manifest_entry t rel; (cons e) <$> manifest_entries t rest
  end.

Definition build_manifest (t : tree) (paths : list text) (run_id base_head : text)
    : result harness_error (json * text) :=
  files ← manifest_entries t (manifest_paths paths);
  let payload := JObj [(T "base_head", JStr base_head); (T "files", JArr files); (T "run_id", JStr run_id)] in
  mret (payload, sha256_hex (to_string payload)).

Definition git_head (t : tree) : result harness_error text :=
  sha ← tree_head t;
  if byte_len sha <? 7 then Err err_agentic else mret sha.

Definition verify_manifest (t : tree) (paths : list text) (run_id base_head expected_digest : text)
    : result harness_error text :=
  if negb (byte_len expected_digest =? 64) then Err err_agentic else
  live ← git_head t;
  if negb (teqb live base_head) then Err err_agentic else
  '(_, digest) ← build_manifest t paths run_id base_head;
  if negb (teqb digest expected_digest) then Err err_agentic else mret digest.

(** ** [executor/apply.rs]; [copy_tree] is the copy into a throwaway
    directory. *)
Context (is_dir : tree -> bool) (copy_tree : tree -> option tree).

Definition prove_disposable_copy (t : tree) (paths : list text) (run_id base_head expected_digest : text)
    : result harness_error text :=
  if negb (is_dir t) then Err err_agentic else
  copy ← ok_or (copy_tree t) err_agentic;
  verify_manifest copy paths run_id base_head expected_digest.
End Manifest.

(** ** [executor/runner.rs] *)

Record Check := MkCheck { check_name : text; argv : list text; timeout_sec : Z }.
Record SandboxOutcome := MkOutcome { o_exit : Z; o_stdout : text; o_stderr : text; o_timed_out : bool }.
Record CheckResult := MkResult {
  name : text; exit_code : Z; ok : bool; stdout : text; stderr : text; timed_out : bool }.
Record VerificationReport := MkReport { report_ok : bool; results : list CheckResult }.

Definition with_timeout (n : text) (a : list text) (t : Z) : result harness_error Check :=
  if teqb n [] then Err err_agentic else
  match a with [] => Err err_agentic | _ => mret (MkCheck n a t) end.

Definition is_cargo (c : Check) : bool :=
  match argv c with v :: _ => teqb v (T "cargo") | [] => false end.

Definition CARGO_SETUP_MARKERS : list text :=
  [T "no matching package"; T "failed to load source"; T "failed to get"; T "checksum";
   T "could not execute process"; T "operation not permitted"; T "permission denied";
   T "lock file needs to be updated"].

(** [prepared::missing] *)
Definition err_prepared : harness_error := err_config.

Section Runner.
Context (lower : text -> text) {W F : Type}.
(** The check that ran, and its result. *)
Context (ran_check : Check -> F).
Context (sandbox : result harness_error text).
Context (load_cargo : W -> result harness_error (list text -> result harness_error (list text))).
Context (prepare_home : W -> W * result harness_error unit).
Context (run_prepared : list text -> Z -> W -> W * SandboxOutcome).

Abbreviation M := (eff W F harness_error).

Definition classify (c : Check) (out : SandboxOutcome) : result harness_error CheckResult :=
  if o_exit out =? -3 then Err err_config
  else if o_timed_out out && is_cargo c then Err err_config
  else if negb (o_exit out =? 0) && is_cargo c
          && existsb (fun m => contains m (lower (o_stderr out))) CARGO_SETUP_MARKERS
  then Err err_prepared
  else Ok (MkResult (check_name c) (o_exit out) ((o_exit out =? 0) && negb (o_timed_out out))
                    (o_stdout out) (o_stderr out) (o_timed_out out)).

Definition run_check (backend : text) (cargo_argv : list text -> result harness_error (list text)) (c : Check)
    : M CheckResult :=
  a ← (if is_cargo c then lift (cargo_argv (argv c)) else mret (argv c));
  out ← call (ran_check c) (fun w => let '(w', o) := run_prepared a (timeout_sec c) w in (w', Ok o));
  r ← lift (classify c out);
  log (Event "agentic_executor_check_result"
         [("check", JStr (check_name c)); ("exit_code", JInt (o_exit out)); ("ok", JBool (ok r));
          ("timed_out", JBool (o_timed_out out)); ("sandbox", JStr backend)]);;
  mret r.

Fixpoint run_checks (backend : text) (cargo_argv : list text -> result harness_error (list text))
    (checks : list Check) : M (list CheckResult) :=
  match checks with
  | [] => mret []
  | c :: rest => r ← run_check backend cargo_argv c; rs ← run_checks backend cargo_argv rest; mret (r :: rs)
  end.

Definition run_verification (checks : list Check) : M VerificationReport :=
  match checks with
  | [] => mret (MkReport true [])
  | _ =>
      backend ← lift sandbox;
      cargo ← (if existsb is_cargo checks
               then loaded ← asks load_cargo; lift loaded
               else mret (fun a => Ok a));
      (fun s => let '(w, r) := prepare_home (world s) in (St w (trace s), r));;
      rs ← run_checks backend cargo checks;
      mret (MkReport (forallb ok rs) rs)
  end.
End Runner.

(** ** Lemmas *)

Section ManifestLemmas.
Context (sha256_hex : text -> text) (sha256_bytes_hex : list Z -> text) (to_string : json -> text).

(** What the manifest records of one path. *)
Definition recorded (t : tree) (rel : text) (bytes : list Z) (bits : Z) : Prop :=
  unsafe_manifest_path rel = false
  /\ exists target, jail t rel = Ok target /\ entry_at t target = Some (Ordinary bytes bits).

Lemma manifest_entry_Ok t rel e :
  manifest_entry sha256_bytes_hex t rel = Ok e ->
  exists bytes bits mode, recorded t rel bytes bits /\ file_mode (Ordinary bytes bits) = Ok mode
    /\ e = JObj [(T "mode", JStr mode); (T "path", JStr rel); (T "sha256", JStr (sha256_bytes_hex bytes))].
Proof.
  unfold manifest_entry. destruct (unsafe_manifest_path rel) eqn:Eu; [done|].
  intros H. apply bind_Ok_inv in H as (target & Hj & H).
  destruct (entry_at t target) as [[bytes bits|]|] eqn:El; try discriminate H.
  apply bind_Ok_inv in H as (mode & Hm & [= <-]). exists bytes, bits, mode. unfold recorded. eauto 6.
Qed.

Lemma manifest_entries_Ok t rels es :
  manifest_entries sha256_bytes_hex t rels = Ok es ->
  Forall2 (fun rel e => manifest_entry sha256_bytes_hex t rel = Ok e) rels es.
Proof.
  revert es. induction rels as [|rel rels IH]; intros es H; simpl in H; [injection H as <-; constructor|].
  apply bind_Ok_inv in H as (e & He & H). destruct (manifest_entries _ t rels); [|done].
  injection H as <-. constructor; eauto.
Qed.

Lemma verify_manifest_Ok t paths run_id base expected d :
  verify_manifest sha256_hex sha256_bytes_hex to_string t paths run_id base expected = Ok d ->
  d = expected /\ byte_len expected = 64 /\ tree_head t = Ok base
  /\ exists es, Forall2 (fun rel e => manifest_entry sha256_bytes_hex t rel = Ok e) (manifest_paths paths) es
     /\ sha256_hex (to_string (JObj [(T "base_head", JStr base); (T "files", JArr es); (T "run_id", JStr run_id)]))
        = expected.
Proof.
  unfold verify_manifest. destruct (byte_len expected =? 64) eqn:E64; [|done]. apply Z.eqb_eq in E64.
  simpl. intros H. apply bind_Ok_inv in H as (live & Hl & H).
  destruct (teqb live base) eqn:El; [|done]. apply teqb_eq in El as ->. simpl in H.
  apply bind_Ok_inv in H as ([payload digest] & Hb & H).
  destruct (teqb digest expected) eqn:Ed; [|done]. apply teqb_eq in Ed as ->. injection H as <-.
  unfold git_head in Hl. apply bind_Ok_inv in Hl as (sha & Hs & Hl).
  destruct (byte_len sha <? 7); [done|]. injection Hl as <-.
  unfold build_manifest in Hb. apply bind_Ok_inv in Hb as (es & Hes & [= _ Hd]).
  apply manifest_entries_Ok in Hes. eauto 8.
Qed.

Lemma prove_disposable_copy_Ok is_dir copy_tree t paths run_id base expected d :
  prove_disposable_copy sha256_hex sha256_bytes_hex to_string is_dir copy_tree t paths run_id base expected = Ok d ->
  exists copy, copy_tree t = Some copy
    /\ verify_manifest sha256_hex sha256_bytes_hex to_string copy paths run_id base expected = Ok expected.
Proof.
  unfold prove_disposable_copy. destruct (is_dir t); [|done]. simpl. intros H.
  apply bind_Ok_inv in H as (copy & Hc & H). apply ok_or_Ok in Hc. exists copy. split; [done|].
  pose proof (verify_manifest_Ok _ _ _ _ _ _ H) as (-> & _). exact H.
Qed.
End ManifestLemmas.

Section RunnerLemmas.
Context (lower : text -> text) {W F : Type} (ran_check : Check -> F).
Context (run_prepared : list text -> Z -> W -> W * SandboxOutcome).

Definition dids (l : list (effect F)) : list F :=
  omap (fun e => match e with Did f => Some f | Audited _ => None end) l.

Lemma run_check_Ok backend cargo c (s s' : st W F) r :
  run_check lower ran_check run_prepared backend cargo c s = (s', Ok r) ->
  (exists l, trace s' = trace s ++ l /\ dids l = [ran_check c])
  /\ name r = check_name c /\ (ok r = true <-> exit_code r = 0 /\ timed_out r = false).
Proof.
  unfold run_check. intros H. eff_step H.
  assert (Hs : s0 = s) by (destruct (is_cargo c); by injection H0). subst s0.
  eff_step H. unfold call in H1. destruct (run_prepared a _ _) as [w o]. injection H1 as <- <-.
  eff_step H. unfold lift in H1. injection H1 as <- Hc.
  unfold mbind, eff_bind, log in H. simpl in H. injection H as <- <-. simpl.
  split; [eexists; rewrite <- app_assoc; split; [reflexivity | reflexivity]|].
  unfold classify in Hc. destruct (_ =? -3); [done|].
  destruct (o_timed_out o && is_cargo c); [done|]. destruct (_ && existsb _ _); [done|].
  injection Hc as <-. simpl. split; [done|]. by rewrite andb_true_iff, negb_true_iff, Z.eqb_eq.
Qed.
End RunnerLemmas.

Section RunnerLemmas2.
Context (lower : text -> text) {W F : Type} (ran_check : Check -> F).
Context (run_prepared : list text -> Z -> W -> W * SandboxOutcome).

Definition result_honest (c : Check) (r : CheckResult) : Prop :=
  name r = check_name c /\ (ok r = true <-> exit_code r = 0 /\ timed_out r = false).

Lemma dids_app (l l' : list (effect F)) : dids (l ++ l') = dids l ++ dids l'.
Proof. unfold dids. apply omap_app. Qed.

Lemma run_checks_Ok backend cargo checks (s s' : st W F) rs :
  run_checks lower ran_check run_prepared backend cargo checks s = (s', Ok rs) ->
  (exists l, trace s' = trace s ++ l /\ dids l = map ran_check checks) /\ Forall2 result_honest checks rs.
Proof.
  revert s s' rs. induction checks as [|c checks IH]; intros s s' rs H; simpl in H.
  { injection H as <- <-. split; [exists []; by rewrite app_nil_r | constructor]. }
  eff_step H. apply run_check_Ok in H0 as ((l & Hl & Hd) & Hr). eff_step H.
  apply IH in H0 as ((l' & Hl' & Hd') & Hrs). injection H as <- <-.
  split; [|by constructor]. exists (l ++ l'). rewrite Hl', Hl, app_assoc, dids_app, Hd, Hd'. done.
Qed.
End RunnerLemmas2.

(** ** Properties *)

(** A verified manifest pins what was accepted.  It answers the digest
    that was recorded, over a tree whose HEAD is the recorded base and in
    which every accepted path is an ordinary file inside the tree.  Another
    tree that verifies against the same record has, for every accepted path,
    the same content digest and the same mode - unless two different texts
    with the same SHA-256, or two payloads printed alike, are at hand. *)
Theorem verified_manifest_pins_content (sha256_hex : text -> text) (sha256_bytes_hex : list Z -> text)
    (to_string : json -> text) (t t' : tree) (paths : list text) (run_id base digest d d' : text) :
  verify_manifest sha256_hex sha256_bytes_hex to_string t paths run_id base digest = Ok d ->
  verify_manifest sha256_hex sha256_bytes_hex to_string t' paths run_id base digest = Ok d' ->
  d = digest /\ byte_len digest = 64 /\ tree_head t = Ok base
  /\ (forall rel, rel ∈ manifest_paths paths ->
        exists bytes bits bytes' bits',
          recorded t rel bytes bits /\ recorded t' rel bytes' bits'
          /\ ((sha256_bytes_hex bytes = sha256_bytes_hex bytes'
               /\ file_mode (Ordinary bytes bits) = file_mode (Ordinary bytes' bits'))
              \/ (exists a b, a <> b /\ sha256_hex a = sha256_hex b)
              \/ (exists j j', j <> j' /\ to_string j = to_string j'))).
Proof.
  intros H H'. apply verify_manifest_Ok in H as (-> & Hlen & Hh & es & Hes & Hd).
  apply verify_manifest_Ok in H' as (-> & _ & _ & es' & Hes' & Hd').
  do 3 (split; [done|]). intros rel Hrel. apply list_elem_of_lookup in Hrel as (i & Hi).
  destruct (Forall2_lookup_l _ _ _ _ _ Hes Hi) as (e & He & Hme).
  destruct (Forall2_lookup_l _ _ _ _ _ Hes' Hi) as (e' & He' & Hme').
  apply manifest_entry_Ok in Hme as (bytes & bits & mode & Hr & Hm & ->).
  apply manifest_entry_Ok in Hme' as (bytes' & bits' & mode' & Hr' & Hm' & ->).
  exists bytes, bits, bytes', bits'. split; [exact Hr|]. split; [exact Hr'|].
  rewrite <- Hd' in Hd.
  set (p1 := JObj _) in Hd at 1. set (p2 := JObj _) in Hd at 1.
  destruct (decide (to_string p1 = to_string p2)) as [Heq|Hne]; [|right; left; eauto].
  destruct (decide (mode = mode' /\ sha256_bytes_hex bytes = sha256_bytes_hex bytes')) as [[-> Hs]|Hne].
  { left. by rewrite Hm, Hm'. }
  right. right. exists p1, p2. split; [|exact Heq]. intros [= ->]. rewrite He in He'.
  injection He' as -> Hs. by apply Hne.
Qed.

(** A verification report is honest and complete: the checks run exactly
    once each, in their order; the report has one result per check, under its
    name; a result is ok exactly when its process exited with 0 and did not
    time out, and the report is ok exactly when all of them are. *)
Theorem verification_report_honest (lower : text -> text) {W F} (ran_check : Check -> F)
    (sandbox : result harness_error text)
    (load_cargo : W -> result harness_error (list text -> result harness_error (list text)))
    (prepare_home : W -> W * result harness_error unit)
    (run_prepared : list text -> Z -> W -> W * SandboxOutcome)
    (checks : list Check) (s s' : st W F) (rep : VerificationReport) :
  run_verification lower ran_check sandbox load_cargo prepare_home run_prepared checks s = (s', Ok rep) ->
  (exists l, trace s' = trace s ++ l /\ dids l = map ran_check checks)
  /\ Forall2 result_honest checks (results rep)
  /\ (report_ok rep = true <-> Forall (fun r => ok r = true) (results rep)).
Proof.
  unfold run_verification. destruct checks as [|c checks].
  { intros [= <- <-]. split; [exists []; by rewrite app_nil_r|]. simpl. repeat constructor. }
  intros H. eff_step H. injection H0 as <- _. eff_step H.
  assert (Hs : s0 = s).
  { destruct (existsb is_cargo _); [|by injection H0]. eff_step H0. injection H1 as <- _. by injection H0. }
  subst s0. eff_step H.
  assert (Ht : trace s0 = trace s).
  { destruct (prepare_home (world s)) as [w r]. by injection H1 as <- _. }
  eff_step H. injection H as <- <-. apply run_checks_Ok in H2 as ((l & Hl & Hd) & Hr).
  split; [exists l; by rewrite Hl, Ht|]. split; [exact Hr|]. simpl.
  rewrite forallb_forall, Forall_forall. by setoid_rewrite list_elem_of_In.
Qed.

Definition demo_tree (content : list Z) : tree :=
  MkTree (Ok (T "0123456789")) [] Some
    (fun p => if decide (p = [Normal (T "a")]) then Some (Ordinary content 420) else None).

(** A stand-in for SHA-256 with digests of 64 characters. *)
Definition demo_sha (s : text) : text := take 64 (s ++ replicate 64 48).
Definition demo_print (j : json) : text :=
  match get j (T "files") with
  | Some (JArr [e]) => from_option (fun s => match s with JStr s => s | _ => [] end) [] (get e (T "sha256"))
  | _ => []
  end.

Lemma verified_manifest_pins_content_witness :
  exists bytes bits, recorded (demo_tree (T "data")) (T "a") bytes bits /\ bytes = T "data".
Proof.
  assert (Hv : verify_manifest demo_sha id demo_print (demo_tree (T "data")) [T "a"] (T "r") (T "0123456789")
                 (demo_sha (T "data")) = Ok (demo_sha (T "data"))) by (vm_compute; reflexivity).
  destruct (verified_manifest_pins_content demo_sha id demo_print (demo_tree (T "data")) (demo_tree (T "data"))
              [T "a"] (T "r") (T "0123456789") (demo_sha (T "data")) _ _ Hv Hv) as (_ & _ & _ & H).
  destruct (H (T "a")) as (bytes & bits & _ & _ & Hr & _).
  - vm_compute. left.
  - exists bytes, bits. split; [exact Hr|]. destruct Hr as (_ & target & Hj & He).
    assert (Hj' : jail (demo_tree (T "data")) (T "a") = Ok [Normal (T "a")]) by (vm_compute; reflexivity).
    rewrite Hj' in Hj. injection Hj as <-. vm_compute in He. by injection He as <- _.
Defined.

Definition demo_checks : list Check := [MkCheck (T "fmt") [T "cargo"; T "fmt"] 5; MkCheck (T "t") [T "make"] 5].
Definition demo_run (s : st nat Check) : st nat Check * result harness_error VerificationReport :=
  run_verification (map to_ascii_lower) id (Ok (T "sb")) (fun _ => Ok (fun a => Ok a)) (fun w => (w, Ok tt))
    (fun a _ w => (S w, MkOutcome (Z.of_nat w) [] [] false)) demo_checks s.

Lemma verification_report_honest_witness :
  snd (demo_run (St 0%nat [])) = Ok (MkReport false [MkResult (T "fmt") 0 true [] [] false; MkResult (T "t") 1 false [] [] false])
  /\ exists l, trace (fst (demo_run (St 0%nat []))) = l /\ dids l = demo_checks.
Proof.
  assert (Hr : snd (demo_run (St 0%nat [])) = Ok (MkReport false
            [MkResult (T "fmt") 0 true [] [] false; MkResult (T "t") 1 false [] [] false]))
    by (vm_compute; reflexivity).
  split; [exact Hr|].
  destruct (verification_report_honest (map to_ascii_lower) id (Ok (T "sb")) (fun _ => Ok (fun a => Ok a))
              (fun w => (w, Ok tt)) (fun a _ w => (S w, MkOutcome (Z.of_nat w) [] [] false)) demo_checks
              (St 0%nat []) (fst (demo_run (St 0%nat []))) _
              (eq_trans (surjective_pairing (demo_run (St 0%nat []))) (f_equal (pair _) Hr))) as ((l & Hl & Hd) & _).
  exists l. split; [exact Hl|]. rewrite Hd. reflexivity.
Defined.
