(* ===== verification/RepoLoop.v ===== *)
(** The plan-patch-verify loop, [agentic/real_repo_loop.rs]: the acceptance
    decision, [run_real_repo_loop] and [finalize_real_repo_change].

    The parts it calls are the other files' definitions where they are
    modelled (the policy gate, read requests, context collection, proposal
    parsing, the verification run, the manifest).  The planner model, the
    repository index ([repo_retrieval.rs]), the candidate scanners and the
    file system effects of [apply_proposal] and of the commit are parameters;
    the trace records each of their calls. *)

From S2P Require Import Prelude Text Effects RepoPaths Glob ReadRequests Edits WriteGate Executor.
Local Open Scope Z_scope.

Definition MAX_ITERATIONS : Z := 25.
Definition MAX_FEEDBACK_CHECK_CHARS : Z := 1500.
Definition MAX_FEEDBACK_TOTAL_CHARS : Z := 4000.
Definition REJECT_DETAIL_MAX_BYTES : Z := 512.
Definition UNTRUSTED_OPEN : text := T "<<<UNTRUSTED-GITHUB-CONTEXT".
Definition UNTRUSTED_CLOSE : text := T "UNTRUSTED-GITHUB-CONTEXT>>>".
Definition FENCE_REMOVED : text := T "[fence-removed]".

Definition defuse_fence (s : text) : text :=
  replace_all UNTRUSTED_OPEN FENCE_REMOVED (replace_all UNTRUSTED_CLOSE FENCE_REMOVED s).

(** ** The acceptance decision *)

Inductive rejected_gate :=
| NoFilesChanged | FileWriteFailed | CriticalGovernanceFinding | OutOfScopeWrite | WriteBudgetExceeded
| VerificationFailed.
#[export] Instance rejected_gate_eq_dec : EqDecision rejected_gate.
Proof. solve_decision. Defined.

Definition gate_code (g : rejected_gate) : text :=
  match g with
  | NoFilesChanged => T "no_files_changed"
  | FileWriteFailed => T "file_write_failed"
  | CriticalGovernanceFinding => T "critical_governance_finding"
  | OutOfScopeWrite => T "out_of_scope_write"
  | WriteBudgetExceeded => T "write_budget_exceeded"
  | VerificationFailed => T "verification_failed"
  end.

Record RealRepoDecision := MkDecision { accepted : bool; reason : text; rejected_gates : list rejected_gate }.

Record DecisionInputs := MkInputs {
  i_changed_files : list text;
  i_verification : option VerificationReport;
  i_findings : list text;
  i_write_failed : bool;
  i_out_of_scope : bool;
  i_budget_exceeded : bool;
}.

Definition when (c : bool) (g : rejected_gate) : list rejected_gate := if c then [g] else [].
Definition is_empty {A} (l : list A) : bool := match l with [] => true | _ => false end.

Definition decide_real_repo_candidate (inp : DecisionInputs) : RealRepoDecision :=
  let has_critical := negb (is_empty (i_findings inp)) in
  let quarantined := has_critical || i_out_of_scope inp || i_budget_exceeded inp in
  let rejected :=
    when (is_empty (i_changed_files inp) && negb quarantined) NoFilesChanged
    ++ when (i_write_failed inp) FileWriteFailed
    ++ when has_critical CriticalGovernanceFinding
    ++ when (i_out_of_scope inp) OutOfScopeWrite
    ++ when (i_budget_exceeded inp) WriteBudgetExceeded
    ++ when (match i_verification inp with Some v => negb (report_ok v) | None => false end) VerificationFailed in
  let ok := is_empty rejected in
  MkDecision ok (if ok then T "accepted" else T "rejected: " ++ join (T ", ") (map gate_code rejected)) rejected.

Record RealRepoLoopIteration := MkIteration {
  step : Z;
  changed_files : list text;
  decision : RealRepoDecision;
  governance_findings : list text;
  retrieval : option json;
}.

Record RealRepoLoopResult := MkLoopResult {
  loop_accepted : bool;
  branch_name : option text;
  commit_message : option text;
  iterations : list RealRepoLoopIteration;
}.

Definition quarantine_gates : list rejected_gate := [CriticalGovernanceFinding; OutOfScopeWrite; WriteBudgetExceeded].
Definition quarantined_iteration (it : RealRepoLoopIteration) : bool :=
  existsb (fun g => bool_decide (g ∈ quarantine_gates)) (rejected_gates (decision it)).

(** First-write order, without duplicates. *)
Fixpoint add_new (seen ps : list text) : list text :=
  match ps with
  | [] => seen
  | p :: ps => add_new (if bool_decide (p ∈ seen) then seen else seen ++ [p]) ps
  end.

(** [RealRepoLoopResult::changed_files] *)
Fixpoint all_changed (seen : list text) (its : list RealRepoLoopIteration) : list text :=
  match its with
  | [] => seen
  | it :: its => all_changed (if quarantined_iteration it then seen else add_new seen (changed_files it)) its
  end.
Definition result_changed_files (r : RealRepoLoopResult) : list text := all_changed [] (iterations r).

Definition reject_code_from_iterations (its : list RealRepoLoopIteration) : text :=
  match last its with
  | None => T "max_iterations"
  | Some it =>
      let gates := rejected_gates (decision it) in
      if bool_decide (VerificationFailed ∈ gates) then T "verify_failed_loop"
      else if bool_decide (NoFilesChanged ∈ gates) || bool_decide (FileWriteFailed ∈ gates)
      then T "planner_refused"
      else T "max_iterations"
  end.

(** The longest prefix of whole characters within the byte cap. *)
Fixpoint take_bytes (cap : Z) (s : text) : text :=
  match s with
  | [] => []
  | c :: rest => if utf8_width c <=? cap then c :: take_bytes (cap - utf8_width c) rest else []
  end.
Definition cap_reject_detail (s : text) : text :=
  if byte_len s <=? REJECT_DETAIL_MAX_BYTES then s else take_bytes REJECT_DETAIL_MAX_BYTES s.

Definition rejection_digest (history : list text) : text :=
  join [c_newline] (drop (length history - 3) history).

(** ** The loop *)

Inductive loop_act :=
| Asked (system user : text)
| Applied (p : Proposal)
| Ran (c : Check)
| Committed (changed : list text).

Record LoopParams := MkParams {
  instruction : text;
  checks : list Check;
  p_branch_name : text;
  p_commit_message : text;
  max_iterations : Z;
  p_reason : text;
  confirm : bool;
  max_tokens : Z;
  context : option text;
  read_paths : list text;
  protected_paths : list text;
  budget : option Z;
  code_shape : bool;
  plan : text;
}.

(** The surroundings of the loop that are not modelled in this library. *)
Record surroundings (W : Type) := MkSurroundings {
  lower : text -> text;
  nfkc : text -> text;
  sha256_hex : text -> text;
  parse_exact : text -> option (list ExactEdit);
  message : harness_error -> text;
  load_policy : W -> result harness_error AgenticConfig;
  kill_switch : W -> text;
  attached : AgenticConfig;
  jailed_read : W -> text -> option text;
  is_cloud : bool;
  planner_system_prompt : bool -> text;
  invoke : text -> text -> Z -> W -> W * result harness_error text;
  retrieve : W -> text -> Z -> ReadContext -> result harness_error (ReadContext * json);
  inspect_text : text -> list text;
  inspect_code : text -> bool -> list text;
  unslop : option (text -> gmap text text -> Z -> json);
  apply_files : Proposal -> list text -> W -> W * result harness_error (list text);
  load_cargo : W -> result harness_error (list text -> result harness_error (list text));
  sandbox : result harness_error text;
  prepare_home : W -> W * result harness_error unit;
  run_prepared : list text -> Z -> W -> W * SandboxOutcome;
}.
Arguments lower {W} _ _. Arguments nfkc {W} _ _. Arguments sha256_hex {W} _ _.
Arguments parse_exact {W} _ _. Arguments message {W} _ _. Arguments load_policy {W} _ _.
Arguments kill_switch {W} _ _. Arguments attached {W} _. Arguments jailed_read {W} _ _ _.
Arguments is_cloud {W} _. Arguments planner_system_prompt {W} _ _. Arguments invoke {W} _ _ _ _ _.
Arguments retrieve {W} _ _ _ _ _. Arguments inspect_text {W} _ _. Arguments inspect_code {W} _ _ _.
Arguments unslop {W} _. Arguments apply_files {W} _ _ _ _. Arguments load_cargo {W} _ _.
Arguments sandbox {W} _. Arguments prepare_home {W} _ _. Arguments run_prepared {W} _ _ _ _.

Section Loop.
Context {W : Type} (env : surroundings W).
Abbreviation M := (eff W loop_act harness_error).

(** [RepoWorkspace::require_write] *)
Definition require_write (op reason : text) (confirm : bool) : M unit :=
  current_repository_policy (lower env) (load_policy env) (kill_switch env) (attached env) op reason confirm;;
  mret tt.

Definition denied : list text := denied_read_basenames (deepagent (attached env)).

Fixpoint check_all (f : Check -> result harness_error unit) (cs : list Check) : result harness_error unit :=
  match cs with [] => Ok tt | c :: cs => f c ≫= fun _ => check_all f cs end.

(** Cargo checks need prepared inputs before the first model request. *)
Definition cargo_setup (cs : list Check) : M unit :=
  if existsb is_cargo cs then
    loaded ← asks (load_cargo env);
    cargo_argv ← lift loaded;
    lift (check_all (fun c => _ ← cargo_argv (argv c); Ok tt) (List.filter is_cargo cs))
  else mret tt.

Definition ensure (c : bool) : M unit := if c then mret tt else fail err_agentic.

Definition refused_event (selector : text) (why : string) : audit_event :=
  Event "agentic_real_repo_read_request_refused" [("selector", JStr (clip_chars selector 200)); ("reason", JStr (T why))].

Fixpoint check_selectors (selectors : list text) : M unit :=
  match selectors with
  | [] => mret tt
  | sel :: rest =>
      if sensitive_read_reason (lower env) (nfkc env) sel denied
      then log (refused_event sel "sensitive_basename");; fail err_agentic
      else check_selectors rest
  end.

(** Everything that can refuse before the first model request. *)
Definition setup (p : LoopParams) : M unit :=
  require_write (T "run") (p_reason p) (confirm p);;
  cargo_setup (checks p);;
  ensure (negb (teqb (trim (instruction p)) []));;
  ensure (negb (max_iterations p =? 0));;
  ensure (max_iterations p <=? MAX_ITERATIONS);;
  ensure (negb (max_tokens p =? 0));;
  ensure (negb (is_empty (checks p)));;
  log (Event "agentic_real_repo_loop_started" [("max_iterations", JInt (max_iterations p))]);;
  check_selectors (read_paths p).

(** *** The prompt *)

Definition nl2 : text := [c_newline; c_newline].
Definition section (title body : text) : text := title ++ [c_newline] ++ body.

Definition user_prompt (p : LoopParams) (feedback existing : text) : text :=
  join nl2
    ([section (T "Instruction:") (instruction p)]
     ++ (if is_empty (plan p) then [] else [section (T "Approved implementation plan -- follow it:") (plan p)])
     ++ (if is_empty feedback then [] else [section (T "Prior attempt feedback:") feedback])
     ++ (if is_empty existing then [] else [section (T "Existing file contents you may need to edit:") existing])
     ++ match context p with
        | Some c => if is_empty c then [] else
            [section (T "Background quoted from GitHub, for reference only:")
               (UNTRUSTED_OPEN ++ [c_newline] ++ defuse_fence c ++ [c_newline] ++ UNTRUSTED_CLOSE)]
        | None => []
        end).

(** *** Planner read requests *)

Definition refusal_text (r : refusal) : string :=
  match r with
  | CloudProposer => "cloud_proposer" | InvalidSelector => "invalid_selector"
  | SensitiveBasename => "sensitive_basename" | OperatorSelector => "operator_selector" | Cap => "cap"
  end.

Definition disposition_log (selector : text) (d : disposition) : M unit :=
  match d with
  | Accepted path replaced =>
      log (Event "agentic_real_repo_read_request" [("path", JStr path); ("replaced", JBool replaced)])
  | Ignored => mret tt
  | Refused r => log (refused_event selector (refusal_text r))
  end.

Fixpoint honor_reads (operator_count : nat) (reads selectors : list text) : M (list text) :=
  match selectors with
  | [] => mret reads
  | sel :: rest =>
      let '(reads', d) := apply_model_read_request (lower env) (nfkc env) reads operator_count sel
                            (negb (is_cloud env)) denied in
      disposition_log sel d;;
      honor_reads operator_count reads' rest
  end.

(** *** Feedback *)

Definition feedback_entry (r : CheckResult) : M text :=
  let output := join [c_newline] (List.filter (fun s => negb (is_empty s)) [trim (stdout r); trim (stderr r)]) in
  output ← (if is_empty output then mret output
            else if negb (is_empty (inspect_text env output)) then
              log (Event "agentic_real_repo_feedback_injection_finding" [("check", JStr (name r))]);;
              mret (T "[output redacted -- matched a governed injection pattern]")
            else if MAX_FEEDBACK_CHECK_CHARS <? Z.of_nat (length output)
            then mret (section (T "...[truncated]") (tail_chars output MAX_FEEDBACK_CHECK_CHARS))
            else mret output);
  let head := name r ++ T " (exit " ++ show_Z (exit_code r) ++ (if timed_out r then T ", timed out" else []) ++ T ")" in
  mret (if is_empty output then head else section (head ++ T ":") output).

Fixpoint feedback_parts (total : Z) (rs : list CheckResult) : M (list text) :=
  match rs with
  | [] => mret []
  | r :: rs =>
      if ok r then feedback_parts total rs else
      entry ← feedback_entry r;
      if MAX_FEEDBACK_TOTAL_CHARS <? total + Z.of_nat (length entry) then
        rest ← feedback_parts total rs;
        mret ((T "[" ++ name r ++ T " omitted -- feedback budget reached]") :: rest)
      else
        rest ← feedback_parts (total + Z.of_nat (length entry)) rs;
        mret (entry :: rest)
  end.

Definition verification_feedback (v : VerificationReport) : M text :=
  parts ← feedback_parts 0 (results v); mret (join nl2 parts).

(** *** One attempt *)

Definition empty_proposal : Proposal := MkProposal ∅ ∅.

(** [apply_proposal]: the policy in force now, then the files. *)
Definition apply_proposal (p : LoopParams) (proposal : Proposal) : M (list text) :=
  require_write (T "apply_proposal") (p_reason p) (confirm p);;
  call (Applied proposal) (apply_files env proposal (protected_paths p)).

Definition is_proposal_rollback_quarantine (e : harness_error) : bool := bool_decide ("quarantine"%string ∈ marks e).

(** What the scans of a proposal say. *)
Record scan := MkScan { findings : list text; out_of_scope : list text; total_write_bytes : Z; over_budget : bool }.

Definition scan_proposal (p : LoopParams) (proposal : Proposal) : scan :=
  let keys := sorted_keys (files proposal) in
  let contents := omap (fun k => files proposal !! k) keys in
  let total := foldr (fun c n => byte_len c + n) 0 contents in
  MkScan (concat (map (fun c => inspect_text env c ++ inspect_code env c (code_shape p)) contents))
         (List.filter (fun k => matches_protected_path (lower env) (nfkc env) k (protected_paths p)) keys)
         total
         match budget p with Some b => b <? total | None => false end.

Definition clean_scan (sc : scan) : bool :=
  is_empty (findings sc) && is_empty (out_of_scope sc) && negb (over_budget sc).

(** The write: what was written, whether it failed, and the messages. *)
Definition write_phase (p : LoopParams) (proposal : Proposal) (sc : scan) (parse_error : option text)
    : M (list text * bool * list text) :=
  let messages := option_list parse_error in
  if negb (bool_decide (is_Some parse_error)) && clean_scan sc then
    r ← catch (apply_proposal p proposal);
    match r with
    | Ok paths => mret (paths, false, messages)
    | Err e => if is_proposal_rollback_quarantine e then fail e
               else mret ([], true, messages ++ [message env e])
    end
  else mret ([], bool_decide (is_Some parse_error), messages).

Definition verify_phase (p : LoopParams) (written : list text) (write_failed : bool) (sc : scan)
    : M (option VerificationReport) :=
  if negb (is_empty written) && negb write_failed && clean_scan sc then
    rep ← run_verification (lower env) Ran (sandbox env) (load_cargo env) (prepare_home env) (run_prepared env)
            (checks p);
    mret (Some rep)
  else mret None.

(** What the loop carries from one attempt to the next. *)
Record carried := MkCarried {
  feedback : text;
  history : list text;
  reads : list text;
  done_iterations : list RealRepoLoopIteration;
}.

Definition retrieval_phase (p : LoopParams) (step : Z) (rc : ReadContext) : M (ReadContext * option json) :=
  if retrieval_enabled (deepagent (attached env)) && negb (is_cloud env) then
    got ← asks (fun w => retrieve env w (instruction p) step rc);
    '(rc', trace) ← lift got;
    log (Event "agentic_repository_retrieval" [("trace", trace)]);;
    mret (rc', Some trace)
  else mret (rc, None).

Definition nudge_of (p : LoopParams) (response : text) (proposal : Proposal) (step : Z) : list text :=
  match unslop env with
  | None => []
  | Some probe => option_list (get (probe response (files proposal) step) (T "nudge") ≫= as_str)
  end.

(** The next prompt's feedback after a rejected attempt. *)
Definition detailed_feedback (p : LoopParams) (d : RealRepoDecision) (evidence : text) (sc : scan)
    (messages nudges : list text) : text :=
  join nl2
    ([reason d]
     ++ (if is_empty evidence then [] else [evidence])
     ++ (if is_empty (out_of_scope sc) then []
         else [T "These paths are protected and cannot be written: " ++ join (T ", ") (out_of_scope sc)
               ++ T ". Propose a change that does not touch them."])
     ++ (if over_budget sc
         then [T "Total proposed write size (" ++ show_Z (total_write_bytes sc) ++ T " bytes) exceeds the "
               ++ show_Z (from_option id 0 (budget p))
               ++ T "-byte budget for one attempt. Propose a smaller, more targeted change."]
         else [])
     ++ (if is_empty messages then [] else [join [c_newline] messages])
     ++ nudges).

Definition history_line (step : Z) (d : RealRepoDecision) (written : list text) : text :=
  T "iteration " ++ show_Z step ++ T ": " ++ reason d ++ T " (files: "
  ++ (if is_empty written then T "none" else join (T ", ") written) ++ T ")".

(** One pass of the loop body: the decision, and what is carried on. *)
Definition attempt (p : LoopParams) (step : Z) (c : carried) : M (RealRepoDecision * carried) :=
  rc ← asks (fun w => collect (sha256_hex env) (jailed_read env w) (reads c));
  '(rc, retrieved) ← retrieval_phase p step rc;
  let allow_model_reads := negb (is_cloud env) in
  let user := user_prompt p (feedback c) (rendered rc) in
  raw ← call (Asked (planner_system_prompt env allow_model_reads) user)
             (invoke env (planner_system_prompt env allow_model_reads) user (max_tokens p));
  let '(response, requested) := extract_read_requests raw in
  reads' ← honor_reads (length (read_paths p)) (reads c) requested;
  let parsed := parse (lower env) (nfkc env) (sha256_hex env) (parse_exact env) response rc
                      (max_handoff_chars (deepagent (attached env))) in
  let proposal := match parsed with Ok pr => pr | Err _ => empty_proposal end in
  let parse_error := match parsed with Ok _ => None | Err e => Some (message env e) end in
  let nudges := nudge_of p response proposal step in
  let sc := scan_proposal p proposal in
  '(written, write_failed, messages) ← write_phase p proposal sc parse_error;
  verification ← verify_phase p written write_failed sc;
  let d := decide_real_repo_candidate
             (MkInputs written verification (findings sc) write_failed (negb (is_empty (out_of_scope sc)))
                       (over_budget sc)) in
  log (Event "agentic_real_repo_loop_iteration"
         [("step", JInt step); ("accepted", JBool (accepted d));
          ("rejected_gates", JArr (map (fun g => JStr (gate_code g)) (rejected_gates d)));
          ("files_changed", JInt (Z.of_nat (length written)))]);;
  let its := done_iterations c ++ [MkIteration step written d (findings sc) retrieved] in
  if accepted d then mret (d, MkCarried (feedback c) (history c) reads' its) else
  evidence ← match verification with
             | Some v => if report_ok v then mret [] else verification_feedback v
             | None => mret []
             end;
  let history' := history c ++ [history_line step d written] in
  mret (d, MkCarried (T "Prior rejections this run (do not retry these approaches):" ++ [c_newline]
                      ++ rejection_digest history' ++ nl2 ++ detailed_feedback p d evidence sc messages nudges)
                     history' reads' its).

(** [for step in 1..=max_iterations]; [left] attempts remain. *)
Fixpoint iterate (p : LoopParams) (left : nat) (step : Z) (c : carried) : M RealRepoLoopResult :=
  match left with
  | O =>
      log (Event "agentic_real_repo_loop_exhausted"
             [("max_iterations", JInt (max_iterations p));
              ("reject_code", JStr (reject_code_from_iterations (done_iterations c)))]);;
      mret (MkLoopResult false None None (done_iterations c))
  | S left' =>
      '(d, c') ← attempt p step c;
      if accepted d then
        log (Event "agentic_real_repo_loop_accepted_pending_decision"
               [("step", JInt step); ("branch", JStr (p_branch_name p))]);;
        mret (MkLoopResult true (Some (p_branch_name p)) (Some (p_commit_message p)) (done_iterations c'))
      else iterate p left' (step + 1) c'
  end.

Definition run_real_repo_loop (p : LoopParams) : M RealRepoLoopResult :=
  setup p;;
  iterate p (Z.to_nat (max_iterations p)) 1 (MkCarried [] [] (read_paths p) []).
End Loop.

(** ** [finalize_real_repo_change] *)

Record FinalizeParams := MkFinalize {
  f_reason : text;
  f_confirm : bool;
  f_branch_name : text;
  f_changed_files : list text;
  f_decision : text;
  f_protected : list text;
  f_run_id : text;
  acceptance_digest : option text;
  acceptance_base_head : option text;
}.

Section Finalize.
Context {W : Type} (env : surroundings W).
Context (sha256_bytes_hex : list Z -> text) (to_string : json -> text).
Context (worktree : W -> tree) (is_dir : tree -> bool) (copy_tree : W -> tree -> option tree).
(** [commit_accepted]: the commit of the reviewed files. *)
Context (commit_accepted : FinalizeParams -> W -> W * result harness_error text).
Abbreviation M := (eff W loop_act harness_error).

Definition decided (branch verdict : text) : audit_event :=
  Event "agentic_real_repo_change_decided" [("decision", JStr verdict); ("branch", JStr branch)].

Definition record_rejection (branch : text) : M json :=
  log (decided branch (T "reject"));;
  mret (JObj [(T "status", JStr (T "rejected")); (T "branch", JStr branch)]).

Definition finalize_real_repo_change (f : FinalizeParams) : M json :=
  if negb (teqb (f_decision f) (T "approve")) && negb (teqb (f_decision f) (T "reject")) then fail err_agentic else
  if teqb (f_decision f) (T "reject") then record_rejection (f_branch_name f) else
  log (decided (f_branch_name f) (f_decision f));;
  require_write env (T "approve") (f_reason f) (f_confirm f);;
  let digest := from_option id [] (acceptance_digest f) in
  let base := from_option id [] (acceptance_base_head f) in
  verified ← asks (fun w => verify_manifest (sha256_hex env) sha256_bytes_hex to_string (worktree w)
                              (f_changed_files f) (f_run_id f) base digest);
  _ ← lift verified;
  copied ← asks (fun w => prove_disposable_copy (sha256_hex env) sha256_bytes_hex to_string is_dir (copy_tree w)
                            (worktree w) (f_changed_files f) (f_run_id f) base digest);
  _ ← lift copied;
  log (Event "agentic_real_repo_manifest_verified"
         [("branch", JStr (f_branch_name f)); ("acceptance_digest", JStr digest)]);;
  let protected := List.filter (fun q => matches_protected_path (lower env) (nfkc env) q (f_protected f))
                               (f_changed_files f) in
  if negb (is_empty protected) then
    log (Event "agentic_real_repo_change_refused"
           [("branch", JStr (f_branch_name f)); ("gate", JStr (T "protected_write_paths"));
            ("paths", JArr (map JStr protected))]);;
    fail err_write_refused
  else
    commit ← call (Committed (f_changed_files f)) (commit_accepted f);
    log (Event "agentic_real_repo_change_approved" [("branch", JStr (f_branch_name f))]);;
    mret (JObj [(T "status", JStr (T "approved")); (T "branch", JStr (f_branch_name f));
                (T "approved_commit", JStr commit)]).
End Finalize.

(** ** Lemmas *)

Section LoopLemmas.
Context {W : Type} (env : surroundings W) (p : LoopParams).

Lemma quiet_require_write op why c : quiet (require_write env op why c).
Proof. unfold require_write. apply quiet_bind; [apply quiet_policy | auto with harness]. Qed.
#[local] Hint Resolve quiet_require_write : harness.

Lemma quiet_check_selectors sels : quiet (check_selectors env sels).
Proof. induction sels; simpl; quiet. Qed.
#[local] Hint Resolve quiet_check_selectors : harness.

Lemma quiet_setup : quiet (setup env p).
Proof. unfold setup, cargo_setup, ensure. quiet. Qed.

Lemma quiet_honor_reads n reads sels : quiet (honor_reads env n reads sels).
Proof.
  revert reads. induction sels as [|sel sels IH]; intros reads; simpl; [auto with harness|].
  destruct (apply_model_read_request _ _ _ _ _ _ _) as [reads' d].
  apply quiet_bind; [|intro; apply IH]. destruct d; simpl; quiet.
Qed.

Lemma quiet_feedback_entry r : quiet (feedback_entry env r).
Proof. unfold feedback_entry. quiet. Qed.
#[local] Hint Resolve quiet_feedback_entry : harness.

Lemma quiet_verification_feedback v : quiet (verification_feedback env v).
Proof.
  unfold verification_feedback. apply quiet_bind; [|intro; auto with harness].
  generalize 0. induction (results v) as [|r rs IH]; intros total; simpl; [auto with harness|].
  destruct (ok r); [apply IH|]. apply quiet_bind; [auto with harness|]. intros entry.
  destruct (_ <? _); (apply quiet_bind; [apply IH | intro; auto with harness]).
Qed.

Lemma quiet_retrieval_phase step rc : quiet (retrieval_phase env p step rc).
Proof. unfold retrieval_phase. quiet. Qed.
#[local] Hint Resolve quiet_honor_reads quiet_verification_feedback quiet_retrieval_phase : harness.

Lemma quiet_run_check_free (P : effect loop_act -> Prop) cs :
  (forall e, P (Audited e)) -> (forall c, P (Did (Ran c))) ->
  emits P (run_verification (lower env) Ran (sandbox env) (load_cargo env) (prepare_home env) (run_prepared env) cs).
Proof.
  intros Ha Hr. unfold run_verification. destruct cs as [|c cs]; [emits|].
  apply emits_bind; [emits|intros backend]. apply emits_bind; [destruct (existsb _ _); emits|intros cargo].
  apply emits_bind.
  - intros s. destruct (prepare_home env (world s)) as [w r]. exists []. simpl. rewrite app_nil_r. by split.
  - intros _. apply emits_bind; [|intro; emits].
    generalize (c :: cs). induction l as [|c' l IH]; simpl; [emits|].
    apply emits_bind; [|intro; apply emits_bind; [apply IH | intro; emits]].
    unfold run_check. emits; auto; destruct (is_cargo _); emits.
Qed.

(** A proposal that may reach [apply_proposal] within this run. *)
Definition may_apply (pr : Proposal) : Prop :=
  let sc := scan_proposal env p pr in findings sc = [] /\ out_of_scope sc = [] /\ over_budget sc = false.

Lemma clean_scan_spec sc : clean_scan sc = true <-> findings sc = [] /\ out_of_scope sc = [] /\ over_budget sc = false.
Proof.
  unfold clean_scan. rewrite !andb_true_iff, negb_true_iff.
  destruct (findings sc), (out_of_scope sc); simpl; intuition congruence.
Qed.

(** What one attempt may do to the outside. *)
Definition attempt_event (e : effect loop_act) : Prop :=
  match e with
  | Did (Applied pr) => may_apply pr
  | Did (Committed _) => False
  | _ => True
  end.

Lemma emits_write_phase pr err : emits attempt_event (write_phase env p pr (scan_proposal env p pr) err).
Proof.
  unfold write_phase. destruct (_ && clean_scan _) eqn:E; [|emits].
  apply andb_true_iff in E as [_ E]. apply clean_scan_spec in E.
  apply emits_bind; [apply emits_catch; unfold apply_proposal; emits; exact E|].
  intros r. emits.
Qed.

Lemma emits_verify_phase written failed sc : emits attempt_event (verify_phase env p written failed sc).
Proof.
  unfold verify_phase. destruct (_ && _); [|emits].
  apply emits_bind; [apply quiet_run_check_free; done | intro; emits].
Qed.

Lemma emits_attempt step c : emits attempt_event (attempt env p step c).
Proof.
  unfold attempt. apply emits_bind; [emits|intros rc]. apply emits_bind; [emits|intros [rc' tr]].
  apply emits_bind; [apply emits_call; done|intros raw]. destruct (extract_read_requests raw) as [response requested].
  apply emits_bind; [emits|intros reads']. apply emits_bind; [apply emits_write_phase|].
  intros [[written failed] msgs]. apply emits_bind; [apply emits_verify_phase|intros ver].
  apply emits_bind; [emits|intros _]. destruct (accepted _); [emits|].
  apply emits_bind; [|intro; emits]. emits.
Qed.

Definition is_asked (e : effect loop_act) : bool := match e with Did (Asked _ _) => true | _ => false end.

Lemma asked_attempt step c : at_most is_asked 1 (attempt env p step c).
Proof.
  unfold attempt.
  assert (Hq : forall A (m : eff W loop_act harness_error A), quiet m -> at_most is_asked 0 m)
    by (intros; by apply at_most_quiet).
  apply (at_most_bind _ 0 1); [auto with harness|intros rc].
  apply (at_most_bind _ 0 1); [auto with harness|intros [rc' tr]].
  apply (at_most_bind _ 1 0); [apply at_most_call|intros raw].
  destruct (extract_read_requests raw) as [response requested].
  apply at_most_emits. apply emits_bind; [emits|intros reads'].
  apply emits_bind; [unfold write_phase, apply_proposal; emits; done|]. intros [[written failed] msgs].
  apply emits_bind; [unfold verify_phase; destruct (_ && _);
    [apply emits_bind; [apply quiet_run_check_free; done | intro; emits] | emits]|intros ver].
  apply emits_bind; [emits|intros _]. destruct (accepted _); [emits|].
  apply emits_bind; [|intro; emits]. emits.
Qed.

Lemma only_audits_not_asked (l : list (effect loop_act)) : only_audits l -> List.filter is_asked l = [].
Proof. induction 1 as [|[ev|f] l He Ha IH]; simpl; done. Qed.

Lemma emits_iterate n step c : emits attempt_event (iterate env p n step c).
Proof.
  revert step c. induction n as [|n IH]; intros step c; simpl; [emits|].
  apply emits_bind; [apply emits_attempt|intros [d c']]. destruct (accepted d); [emits | apply IH].
Qed.

Lemma asked_iterate n step c : at_most is_asked n (iterate env p n step c).
Proof.
  revert step c. induction n as [|n IH]; intros step c; simpl.
  - apply at_most_quiet; [done|]. quiet.
  - apply (at_most_bind _ 1 n); [apply asked_attempt|intros [d c']].
    destruct (accepted d); [|apply IH]. apply (at_most_le _ 0); [lia|]. apply at_most_quiet; [done|]. quiet.
Qed.
End LoopLemmas.

Section SetupLemmas.
Context {W : Type} (env : surroundings W) (p : LoopParams).

Lemma require_write_Ok op why c s s' u :
  require_write env op why c s = (s', Ok u) ->
  s' = s /\ exists cfg, policy_in_force (lower env) (load_policy env) (kill_switch env) (attached env) why c (world s) cfg.
Proof. unfold require_write. intros H. eff_step H. apply policy_in_force_Ok in H0 as (-> & Hp). injection H as <-. eauto. Qed.
Lemma policy_intent lower load kill att why c (w : W) cfg :
  policy_in_force lower load kill att why c w cfg -> is_visibly_blank why = false /\ c = true.
Proof. intros []. unfold intent_ok in *. tauto. Qed.

Lemma ensure_bind {A} c (f : unit -> eff W loop_act harness_error A) s s' r :
  (ensure c ≫= f) s = (s', Ok r) -> c = true /\ f tt s = (s', Ok r).
Proof. unfold ensure, mbind, eff_bind. by destruct c. Qed.

Lemma check_selectors_Ok sels s s' u :
  check_selectors env sels s = (s', Ok u) ->
  Forall (fun sel => sensitive_read_reason (lower env) (nfkc env) sel (denied env) = false) sels.
Proof.
  revert s. induction sels as [|sel sels IH]; intros s H; simpl in H; [constructor|].
  destruct (sensitive_read_reason _ _ _ _) eqn:E; [discriminate H|]. constructor; eauto.
Qed.

(** What [setup] asks of the parameters. *)
Definition admissible : Prop :=
  confirm p = true /\ is_visibly_blank (p_reason p) = false
  /\ trim (instruction p) <> [] /\ max_iterations p <> 0 /\ max_iterations p <= MAX_ITERATIONS
  /\ max_tokens p <> 0 /\ checks p <> []
  /\ Forall (fun sel => sensitive_read_reason (lower env) (nfkc env) sel (denied env) = false) (read_paths p).

Lemma setup_Ok s s' u : setup env p s = (s', Ok u) -> admissible.
Proof.
  unfold setup. intros H. eff_step H. apply require_write_Ok in H0 as (_ & cfg & [Hb Hc]%policy_intent). eff_step H. clear H0.
  do 5 apply ensure_bind in H as [? H]. eff_step H. apply check_selectors_Ok in H.
  rewrite negb_true_iff in H0, H1, H3, H4. apply teqb_neq in H0. apply Z.eqb_neq in H1, H3.
  apply Z.leb_le in H2. unfold admissible. repeat (split; [done|]). split; [|done].
  by destruct (checks p).
Qed.

(** Iterations and their quarantine. *)
Lemma is_empty_spec {A} (l : list A) : is_empty l = true <-> l = [].
Proof. by destruct l. Qed.

Lemma decide_accepted inp :
  accepted (decide_real_repo_candidate inp) = true <->
  i_changed_files inp <> [] /\ i_write_failed inp = false /\ i_findings inp = []
  /\ i_out_of_scope inp = false /\ i_budget_exceeded inp = false
  /\ match i_verification inp with Some v => report_ok v = true | None => True end.
Proof.
  destruct inp as [ch ver fi wf oos be]. unfold decide_real_repo_candidate. simpl.
  destruct ch, wf, fi, oos, be, ver as [v|]; try destruct (report_ok v); simpl; intuition congruence.
Qed.

Definition iteration_ok (it : RealRepoLoopIteration) : Prop :=
  quarantined_iteration it = true -> changed_files it = [].

Lemma decide_quarantined inp :
  existsb (fun g => bool_decide (g ∈ quarantine_gates)) (rejected_gates (decide_real_repo_candidate inp)) = true ->
  i_findings inp <> [] \/ i_out_of_scope inp = true \/ i_budget_exceeded inp = true.
Proof.
  destruct inp as [ch ver fi wf oos be]. unfold decide_real_repo_candidate. simpl.
  destruct fi; [|left; discriminate]. destruct oos; [by right; left|]. destruct be; [by right; right|].
  simpl. destruct ch, wf, ver as [v|]; try destruct (report_ok v); discriminate.
Qed.

(** [s] is the state right after [pr] was applied and wrote [written]. *)
Definition applied_here (pr : Proposal) (written : list text) (s : st W loop_act) : Prop :=
  exists s0 : st W loop_act,
    trace s = trace s0 ++ [Did (Applied pr)]
    /\ apply_files env pr (protected_paths p) (world s0) = (world s, Ok written).

(** The write phase writes only what the scan allows. *)
Lemma write_phase_Ok pr err (s s' : st W loop_act) written failed msgs :
  write_phase env p pr (scan_proposal env p pr) err s = (s', Ok (written, failed, msgs)) ->
  written <> [] ->
  may_apply env p pr /\ failed = false /\ applied_here pr written s'.
Proof.
  unfold write_phase. destruct (_ && clean_scan _) eqn:E.
  2: { intros [= _ <- _ _] H. by destruct H. }
  apply andb_true_iff in E as [_ E]. apply clean_scan_spec in E.
  intros H Hw. eff_step H. unfold catch in H0.
  destruct (apply_proposal env p pr s) as [s1 r] eqn:Ea. injection H0 as <- <-.
  destruct r as [paths|e]; [|destruct (is_proposal_rollback_quarantine e); [done|]; injection H as _ <- _ _; by destruct Hw].
  injection H as <- <- <- <-. split; [done|]. split; [done|].
  unfold apply_proposal in Ea. eff_step Ea. unfold call in Ea.
  destruct (apply_files _ _ _ _) as [w r] eqn:Ef. injection Ea as <- ->. simpl. by eexists.
Qed.

Lemma attempt_Ok step0 c (s s' : st W loop_act) d c' :
  attempt env p step0 c s = (s', Ok (d, c')) ->
  exists it, done_iterations c' = done_iterations c ++ [it] /\ step it = step0 /\ decision it = d
    /\ iteration_ok it
    /\ (accepted d = true ->
          changed_files it <> [] /\ governance_findings it = []
          /\ exists pr s1 s2 rep audits,
               may_apply env p pr /\ applied_here pr (changed_files it) s1
               /\ run_verification (lower env) Ran (sandbox env) (load_cargo env) (prepare_home env)
                    (run_prepared env) (checks p) s1 = (s2, Ok rep)
               /\ report_ok rep = true
               /\ world s' = world s2 /\ trace s' = trace s2 ++ audits /\ only_audits audits).
Proof.
  unfold attempt. intros H. eff_step H. clear H0. eff_step H. destruct a0 as [rc tr]. clear H0.
  eff_step H. clear H0. destruct (extract_read_requests _) as [response requested].
  eff_step H. clear H0. set (pr := match parse _ _ _ _ _ _ _ with Ok _ => _ | Err _ => _ end) in H.
  set (sc := scan_proposal env p pr) in *.
  eff_step H. destruct a2 as [[written failed] msgs]. rename H0 into Hw.
  eff_step H. rename H0 into Hv. rename a2 into ver.
  set (d0 := decide_real_repo_candidate _) in *.
  eff_step H. unfold log in H0. injection H0 as <- _. set (ev := Event _ _) in H.
  assert (Hex : exists c'', done_iterations c'' = done_iterations c ++ [MkIteration step0 written d0 (findings sc) tr]
            /\ c' = c'' /\ d = d0 /\ (accepted d0 = true -> s' = St (world s5) (trace s5 ++ [Audited ev]))).
  { destruct (accepted d0); [|eff_step H]; injection H as <- <- <-;
      (eexists; split; [|split; [reflexivity|]]; [reflexivity|]; by split). }
  destruct Hex as (c'' & Hits & -> & -> & Hs'). eexists. split; [exact Hits|].
  cbn [step decision changed_files governance_findings].
  split; [done|]. split; [done|].
  assert (Hclean : written <> [] -> may_apply env p pr /\ failed = false /\ applied_here pr written s4)
    by (intros Hne; exact (write_phase_Ok _ _ _ _ _ _ _ Hw Hne)).
  split.
  - intros Hq. destruct written as [|w ws] eqn:Ew; [done|]. exfalso.
    destruct (Hclean ltac:(discriminate)) as ((Hf & Ho & Hb) & _).
    fold sc in Hf, Ho, Hb. apply decide_quarantined in Hq.
    cbn [i_findings i_out_of_scope i_budget_exceeded] in Hq. rewrite Hf, Ho, Hb in Hq.
    destruct Hq as [?|[?|?]]; done.
  - intros Ha. specialize (Hs' Ha). apply decide_accepted in Ha as (Hne & Hfail & Hfi & Ho & Hb & Hver).
    cbn [i_changed_files i_verification i_findings i_write_failed] in *.
    split; [done|]. split; [done|]. destruct (Hclean Hne) as (Hm & -> & Hsa).
    unfold verify_phase in Hv. assert (Hcs : clean_scan sc = true) by by apply clean_scan_spec.
    rewrite Hcs in Hv. destruct written as [|w ws]; [done|]. simpl in Hv. eff_step Hv. injection Hv as <- <-.
    eexists pr, s4, _, _, _. split; [done|]. split; [exact Hsa|]. split; [exact H0|]. split; [done|].
    rewrite Hs'. simpl. split; [done|]. split; [reflexivity|]. by repeat constructor.
Qed.
End SetupLemmas.

Section IterateLemmas.
Context {W : Type} (env : surroundings W) (p : LoopParams).

Definition rejected_iteration (it : RealRepoLoopIteration) : Prop := accepted (decision it) = false.

(** The last attempt of an accepted run, in the world [s'] it left. *)
Definition accepted_attempt (it : RealRepoLoopIteration) (s' : st W loop_act) : Prop :=
  accepted (decision it) = true /\ changed_files it <> [] /\ governance_findings it = []
  /\ exists pr s1 s2 rep audits,
       may_apply env p pr /\ applied_here env p pr (changed_files it) s1
       /\ run_verification (lower env) Ran (sandbox env) (load_cargo env) (prepare_home env)
            (run_prepared env) (checks p) s1 = (s2, Ok rep)
       /\ report_ok rep = true
       /\ world s' = world s2 /\ trace s' = trace s2 ++ audits /\ only_audits audits.

Lemma iterate_Ok n step0 c (s s' : st W loop_act) res :
  iterate env p n step0 c s = (s', Ok res) ->
  exists new, iterations res = done_iterations c ++ new
    /\ map step new = map (fun i => step0 + Z.of_nat i) (seq 0 (length new))
    /\ (length new <= n)%nat /\ Forall iteration_ok new
    /\ (if loop_accepted res
        then branch_name res = Some (p_branch_name p) /\ commit_message res = Some (p_commit_message p)
             /\ exists earlier it, new = earlier ++ [it] /\ Forall rejected_iteration earlier
                  /\ accepted_attempt it s'
        else length new = n /\ Forall rejected_iteration new).
Proof.
  revert step0 c s. induction n as [|n IH]; intros step0 c s H; simpl in H.
  { injection H as _ <-. exists []. simpl. rewrite app_nil_r. repeat constructor. }
  eff_step H. destruct a as [d c1]. apply attempt_Ok in H0 as (it & Hits & Hst & Hd & Hok & Hacc).
  destruct (accepted d) eqn:Ea.
  - injection H as <- <-. simpl. exists [it]. split; [exact Hits|]. split; [simpl; f_equal; lia|].
    split; [simpl; lia|]. split; [by repeat constructor|]. split; [done|]. split; [done|].
    exists [], it. split; [done|]. split; [constructor|].
    destruct (Hacc eq_refl) as (Hc & Hg & pr & s1 & s2 & rep & audits & Hm & Hs1 & Hv & Hr & Hw & Ht & Ha).
    unfold accepted_attempt. rewrite Hd. split; [done|]. split; [done|]. split; [done|].
    exists pr, s1, s2, rep, (audits ++ [Audited (Event "agentic_real_repo_loop_accepted_pending_decision"
               [("step", JInt step0); ("branch", JStr (p_branch_name p))])]).
    do 5 (split; [done|]). simpl. rewrite Ht, app_assoc. split; [done|].
    apply only_audits_app. split; [done | by repeat constructor].
  - apply IH in H as (new & Hn & Hs & Hl & Hf & Hres). exists (it :: new).
    rewrite Hn, Hits, <- app_assoc. split; [done|]. split.
    { simpl. rewrite Hs, <- seq_shift, map_map. f_equal; [lia|]. apply map_ext. intros i. lia. }
    split; [simpl; lia|]. split; [by constructor|].
    assert (Hrej : rejected_iteration it) by (unfold rejected_iteration; by rewrite Hd).
    destruct (loop_accepted res).
    + destruct Hres as (Hb & Hm & earlier & it' & -> & He & Hit). split; [done|]. split; [done|].
      exists (it :: earlier), it'. split; [done|]. split; [by constructor | done].
    + destruct Hres as [Hln Hr]. split; [simpl; lia | by constructor].
Qed.

Lemma add_new_spec seen ps :
  NoDup seen -> NoDup (add_new seen ps) /\ forall x, x ∈ add_new seen ps <-> x ∈ seen \/ x ∈ ps.
Proof.
  revert seen. induction ps as [|q ps IH]; intros seen Hd; simpl; [split; [done|]; intros x; rewrite elem_of_nil; tauto|].
  case_bool_decide as Hq.
  - destruct (IH seen Hd) as [H1 H2]. split; [done|]. intros x. rewrite H2, elem_of_cons. naive_solver.
  - destruct (IH (seen ++ [q])) as [H1 H2].
    { apply NoDup_app. split; [done|]. split; [|apply NoDup_singleton]. intros x Hx ->%list_elem_of_singleton. done. }
    split; [done|]. intros x. rewrite H2, elem_of_app, !elem_of_cons, elem_of_nil. tauto.
Qed.

Lemma all_changed_spec seen its :
  NoDup seen -> Forall iteration_ok its ->
  NoDup (all_changed seen its)
  /\ forall x, x ∈ all_changed seen its <-> x ∈ seen \/ exists it, it ∈ its /\ x ∈ changed_files it.
Proof.
  intros Hd Hf. revert seen Hd. induction Hf as [|it its Hit Hf IH]; intros seen Hd; simpl.
  { split; [done|]. intros x. split; [by left|]. intros [?|(it & Hin & _)]; [done|]. by apply elem_of_nil in Hin. }
  destruct (quarantined_iteration it) eqn:Eq.
  - destruct (IH seen Hd) as [H1 H2]. split; [done|]. intros x. rewrite H2. setoid_rewrite elem_of_cons.
    split; [naive_solver|]. intros [?|(it' & [->|?] & Hx)]; [by left| |right; eauto].
    rewrite (Hit Eq) in Hx. by apply elem_of_nil in Hx.
  - destruct (add_new_spec seen (changed_files it) Hd) as [Ha1 Ha2].
    destruct (IH _ Ha1) as [H1 H2]. split; [done|]. intros x. rewrite H2, Ha2. setoid_rewrite elem_of_cons.
    naive_solver.
Qed.
End IterateLemmas.

(** ** Properties *)

(** C1. No write without its gates.  Whatever the planner answers and however
    a run ends, each proposal that is applied to the clone had no governance
    finding in any of its files, touched no protected path and stayed within
    the write budget; nothing is committed; the planner is asked at most
    [max_iterations] times (at most 25); and anything beyond an audit line
    happens only after the reason, the confirmation, the instruction, the
    limits, the nonempty check list and every read selector were accepted. *)
Theorem loop_writes_only_what_passed {W} (env : surroundings W) (p : LoopParams) (s s' : st W loop_act) r :
  run_real_repo_loop env p s = (s', r) ->
  exists l, trace s' = trace s ++ l
    /\ (forall pr, Did (Applied pr) ∈ l -> may_apply env p pr)
    /\ (forall changed, Did (Committed changed) ∉ l)
    /\ (length (List.filter is_asked l) <= Z.to_nat (max_iterations p))%nat
    /\ (only_audits l \/ admissible env p).
Proof.
  unfold run_real_repo_loop. intros H. eff_step H.
  - destruct (quiet_result _ _ _ _ (quiet_setup env p) H0) as (_ & l & Hl & Ha).
    exists l. split; [done|]. split; [intros pr Hin; by destruct (only_audits_no_did _ _ Ha Hin)|].
    split; [intros ch; by apply only_audits_no_did|]. split; [|by left].
    rewrite only_audits_not_asked by done. simpl. lia.
  - pose proof (setup_Ok env p _ _ _ H0) as Hadm.
    destruct (quiet_result _ _ _ _ (quiet_setup env p) H0) as (_ & l & Hl & Ha).
    destruct (emits_iterate env p (Z.to_nat (max_iterations p)) 1 (MkCarried [] [] (read_paths p) []) s0) as (l' & Hl' & He).
    destruct (asked_iterate env p (Z.to_nat (max_iterations p)) 1 (MkCarried [] [] (read_paths p) []) s0) as (l'' & Hl'' & Hn).
    rewrite H in Hl', Hl''. simpl in Hl', Hl''. rewrite Hl' in Hl''. apply app_inv_head in Hl'' as <-.
    rewrite Forall_forall in He. exists (l ++ l'). rewrite Hl', Hl, app_assoc. split; [done|].
    split; [intros pr [Hin|Hin]%elem_of_app; [by destruct (only_audits_no_did _ _ Ha Hin) | exact (He _ Hin)]|].
    split; [intros ch [Hin|Hin]%elem_of_app; [by destruct (only_audits_no_did _ _ Ha Hin) | exact (He _ Hin)]|].
    split; [|by right]. rewrite List.filter_app, length_app.
    rewrite (only_audits_not_asked l Ha). done.
Qed.

(** What acceptance means.  A finished run has one iteration per attempt,
    numbered from 1, at most [max_iterations] of them, and exactly the last
    can be accepted.  An accepted run names the branch and the commit message
    it was asked for; its last attempt changed files and had no finding; its
    proposal passed every scan and was applied, and the verification that ran
    directly after it ran every check and found all of them ok; nothing but
    audit lines happened afterwards. *)
Theorem loop_accepts_only_verified {W} (env : surroundings W) (p : LoopParams) (s s' : st W loop_act) res :
  run_real_repo_loop env p s = (s', Ok res) ->
  map step (iterations res) = map (fun i => 1 + Z.of_nat i) (seq 0 (length (iterations res)))
  /\ Z.of_nat (length (iterations res)) <= Z.max 0 (max_iterations p)
  /\ (if loop_accepted res
      then branch_name res = Some (p_branch_name p) /\ commit_message res = Some (p_commit_message p)
           /\ exists earlier it, iterations res = earlier ++ [it] /\ Forall rejected_iteration earlier
                /\ accepted_attempt env p it s'
      else Forall rejected_iteration (iterations res) /\ length (iterations res) = Z.to_nat (max_iterations p)).
Proof.
  unfold run_real_repo_loop. intros H. eff_step H.
  apply iterate_Ok in H as (new & Hn & Hs & Hl & Hf & Hres). simpl in Hn. rewrite Hn.
  split; [done|]. split; [lia|]. destruct (loop_accepted res); tauto.
Qed.

(** The list of changed files that a run hands to the reviewer is
    complete: it has no duplicates and holds exactly the files that some
    iteration wrote.  Leaving the quarantined iterations out of it loses
    nothing, because they never write. *)
Theorem changed_files_complete {W} (env : surroundings W) (p : LoopParams) (s s' : st W loop_act) res :
  run_real_repo_loop env p s = (s', Ok res) ->
  NoDup (result_changed_files res)
  /\ forall path, path ∈ result_changed_files res <->
                  exists it, it ∈ iterations res /\ path ∈ changed_files it.
Proof.
  unfold run_real_repo_loop. intros H. eff_step H.
  apply iterate_Ok in H as (new & Hn & _ & _ & Hf & _). simpl in Hn.
  destruct (all_changed_spec [] (iterations res)) as [H1 H2]; [constructor | by rewrite Hn|].
  split; [done|]. intros path. unfold result_changed_files. rewrite H2, elem_of_nil. naive_solver.
Qed.

(** A planner that proposes one file; the check fails after the first attempt. *)
Definition demo_env : surroundings nat := {|
  lower := map to_ascii_lower; nfkc := id; sha256_hex := id; parse_exact := fun _ => None;
  message := fun e => T (code e);
  load_policy := fun _ => Ok demo_config; kill_switch := fun _ => []; attached := demo_config;
  jailed_read := fun _ _ => None; is_cloud := true; planner_system_prompt := fun _ => T "system";
  invoke := fun _ _ _ w => (S w, Ok (T "=== FILE src/a ===" ++ [c_newline] ++ T "x" ++ [c_newline] ++ T "=== END FILE ==="));
  retrieve := fun _ _ _ rc => Ok (rc, JNull);
  inspect_text := fun _ => []; inspect_code := fun _ _ => []; unslop := None;
  apply_files := fun pr _ w => (w, Ok (sorted_keys (files pr)));
  load_cargo := fun _ => Err err_config; sandbox := Ok (T "sb"); prepare_home := fun w => (w, Ok tt);
  run_prepared := fun _ _ w => (w, MkOutcome (if (w <=? 1)%nat then 1 else 0) (T "boom") [] false);
|}.
Definition demo_params : LoopParams :=
  MkParams (T "do it") [MkCheck (T "t") [T "make"] 5] (T "claude/x") (T "msg") 3 (T "because") true 100
           None [] [T "tests/"] (Some 1000) true [].
Definition demo_loop : st nat loop_act * result harness_error RealRepoLoopResult :=
  run_real_repo_loop demo_env demo_params (St 0%nat []).
Definition demo_result : RealRepoLoopResult :=
  match snd demo_loop with Ok res => res | Err _ => MkLoopResult false None None [] end.

Lemma demo_loop_Ok : demo_loop = (fst demo_loop, Ok demo_result).
Proof. vm_compute. reflexivity. Qed.

Lemma loop_writes_only_what_passed_witness :
  exists l, trace (fst demo_loop) = l
    /\ (forall changed, Did (Committed changed) ∉ l) /\ (length (List.filter is_asked l) <= 3)%nat
    /\ ~ only_audits l.
Proof.
  destruct (loop_writes_only_what_passed demo_env demo_params (St 0%nat []) (fst demo_loop) (Ok demo_result)
              demo_loop_Ok) as (l & Hl & _ & Hc & Hn & _).
  exists l. split; [exact Hl|]. split; [exact Hc|]. split; [exact Hn|].
  intros Ha. simpl in Hl. rewrite <- Hl in Ha. clear -Ha.
  assert (Hf : existsb (fun e => match e with Did _ => true | _ => false end) (trace (fst demo_loop)) = true)
    by (vm_compute; reflexivity).
  apply existsb_exists in Hf as ([e|f] & Hin & Hf); [done|]. apply list_elem_of_In in Hin.
  exact (only_audits_no_did _ _ Ha Hin).
Defined.

Lemma loop_accepts_only_verified_witness :
  exists earlier it, iterations demo_result = earlier ++ [it] /\ Forall rejected_iteration earlier
    /\ accepted_attempt demo_env demo_params it (fst demo_loop) /\ length (iterations demo_result) = 2%nat.
Proof.
  destruct (loop_accepts_only_verified demo_env demo_params (St 0%nat []) (fst demo_loop) demo_result demo_loop_Ok)
    as (_ & _ & H).
  assert (Ha : loop_accepted demo_result = true) by (vm_compute; reflexivity).
  rewrite Ha in H. destruct H as (_ & _ & earlier & it & Hi & Hr & Hit).
  exists earlier, it. split; [exact Hi|]. split; [exact Hr|]. split; [exact Hit|]. vm_compute. reflexivity.
Defined.

Lemma changed_files_complete_witness :
  result_changed_files demo_result = [T "src/a"] /\ NoDup (result_changed_files demo_result).
Proof.
  split; [vm_compute; reflexivity|].
  exact (proj1 (changed_files_complete demo_env demo_params (St 0%nat []) (fst demo_loop) demo_result demo_loop_Ok)).
Defined.

Lemma commit_step_trace {W} (f : FinalizeParams) (commit_accepted : W -> W * result harness_error text)
    (k : text -> eff W loop_act harness_error json) (s s' : st W loop_act) r :
  (forall commit, quiet (k commit)) ->
  (call (Committed (f_changed_files f)) commit_accepted ≫= k) s = (s', r) ->
  exists after, trace s' = (trace s ++ [Did (Committed (f_changed_files f))]) ++ after /\ only_audits after.
Proof.
  intros Hk H. eff_step H; unfold call in H0; destruct (commit_accepted (world s)) as [w rc]; injection H0 as <- _.
  - exists []. split; [by rewrite app_nil_r | constructor].
  - by apply quiet_result in H as [_ Hl].
Qed.

Lemma filter_nil_Forall {A} (g : A -> bool) l : List.filter g l = [] -> Forall (fun x => g x = false) l.
Proof. induction l as [|x l IH]; simpl; [constructor|]. destruct (g x) eqn:E; [done|]. eauto. Qed.

(** C29. Approval commits only what was accepted.  The commit happens at most
    once and only for the decision [approve], and every gate of the policy that
    is loaded at that moment has passed for the reason and the confirmation
    given with it: agent, mode and writes enabled, a visible reason, confirmed,
    kill switch off, clone tools allowed, target and scope those of the
    attachment; the tree at that moment, and a disposable copy of it, both
    verify against the recorded digest and base; and no changed file is
    protected under the policy passed now.  In every other case nothing but
    audit lines happens, and it fails unless it is a rejection, which leaves the
    clone alone and succeeds. *)
Theorem approve_commits_only_verified {W} (env : surroundings W) sha256_bytes_hex to_string
    (worktree : W -> tree) is_dir (copy_tree : W -> tree -> option tree) commit_accepted
    (f : FinalizeParams) (s s' : st W loop_act) r :
  finalize_real_repo_change env sha256_bytes_hex to_string worktree is_dir copy_tree commit_accepted f s = (s', r) ->
  exists l, trace s' = trace s ++ l
  /\ (f_decision f = T "reject" -> world s' = world s /\ is_ok r = true)
  /\ (only_audits l /\ (is_ok r = true -> f_decision f = T "reject")
      \/ exists before after digest base copy cfg,
          l = before ++ Did (Committed (f_changed_files f)) :: after /\ only_audits before /\ only_audits after
          /\ f_decision f = T "approve" /\ is_visibly_blank (f_reason f) = false /\ f_confirm f = true
          /\ policy_in_force (lower env) (load_policy env) (kill_switch env) (attached env) (f_reason f) (f_confirm f) (world s) cfg
          /\ acceptance_digest f = Some digest
          /\ base = from_option id [] (acceptance_base_head f)
          /\ verify_manifest (sha256_hex env) sha256_bytes_hex to_string (worktree (world s)) (f_changed_files f)
               (f_run_id f) base digest = Ok digest
          /\ copy_tree (world s) (worktree (world s)) = Some copy
          /\ verify_manifest (sha256_hex env) sha256_bytes_hex to_string copy (f_changed_files f)
               (f_run_id f) base digest = Ok digest
          /\ Forall (fun q => matches_protected_path (lower env) (nfkc env) q (f_protected f) = false)
               (f_changed_files f)).
Proof.
  unfold finalize_real_repo_change. destruct (teqb (f_decision f) (T "reject")) eqn:Er.
  { rewrite andb_false_r. intros H. apply quiet_result in H as Hq; [|unfold record_rejection; quiet].
    destruct Hq as (Hw & l & Hl & Ha). exists l. split; [exact Hl|]. split; [|left; split; [exact Ha | intros _; by apply teqb_eq]].
    intros _. split; [exact Hw|]. by injection H as _ <-. }
  apply teqb_neq in Er.
  destruct (teqb (f_decision f) (T "approve")) eqn:Ea.
  2: { intros [= <- <-]. exists []. rewrite app_nil_r. split; [done|]. split; [done|]. left. split; [constructor | done]. }
  apply teqb_eq in Ea. simpl. intros H. unfold mbind at 1, eff_bind at 1, log at 1 in H.
  set (s1 := St _ _) in H. eff_step H.
  { destruct (quiet_result _ _ _ _ (quiet_require_write env _ _ _) H0) as (Hw & l & Hl & Hau).
    exists ([Audited (decided (f_branch_name f) (f_decision f))] ++ l). rewrite Hl. unfold s1. simpl.
    rewrite <- app_assoc. split; [done|]. split; [done|]. left. split; [by constructor | done]. }
  apply require_write_Ok in H0 as (-> & cfg & Hpol). pose proof (policy_intent _ _ _ _ _ _ _ _ Hpol) as [Hb Hc]. unfold s1 in H, Hpol. cbn [world] in Hpol. clear s1.
  unfold mbind at 1, eff_bind at 1, asks at 1 in H. eff_step H.
  { unfold lift in H0. injection H0 as <- Hv. exists [Audited (decided (f_branch_name f) (f_decision f))].
    split; [done|]. split; [done|]. left. split; [by repeat constructor | done]. }
  unfold lift in H0. injection H0 as <- Hv. unfold mbind at 1, eff_bind at 1, asks at 1 in H. eff_step H.
  { unfold lift in H0. injection H0 as <- Hp. exists [Audited (decided (f_branch_name f) (f_decision f))].
    split; [done|]. split; [done|]. left. split; [by repeat constructor | done]. }
  unfold lift in H0. injection H0 as <- Hp. unfold mbind at 1, eff_bind at 1, log at 1 in H. simpl in H.
  set (prot := List.filter _ _) in H. destruct prot as [|q prot'] eqn:Eprot; simpl in H.
  2: { injection H as <- <-. eexists. simpl. rewrite <- !app_assoc. split; [reflexivity|]. split; [done|].
       left. split; [by repeat constructor | done]. }
  assert (Hd : exists digest, acceptance_digest f = Some digest).
  { destruct (acceptance_digest f) as [digest|]; [by exists digest|].
    apply verify_manifest_Ok in Hv as (_ & Hlen & _). discriminate Hlen. }
  destruct Hd as (digest & Hd). rewrite Hd in Hv, Hp. simpl in Hv, Hp.
  apply prove_disposable_copy_Ok in Hp as (copy & Hcp & Hp).
  apply commit_step_trace in H as (after & Hq & Hafter); [|intro; quiet].
  simpl trace in Hq. rewrite <- !app_assoc in Hq. simpl in Hq.
  eexists. split; [exact Hq|]. split; [done|]. right. eexists (_ :: _ :: nil), after, digest, _, copy, cfg.
  split; [reflexivity|]. split; [by repeat constructor|]. split; [exact Hafter|].
  do 3 (split; [done|]). split; [exact Hpol|]. split; [done|]. split; [reflexivity|].
  pose proof (verify_manifest_Ok _ _ _ _ _ _ _ _ _ Hv) as (-> & _).
  split; [exact Hv|]. split; [exact Hcp|]. split; [exact Hp|].
  by apply filter_nil_Forall.
Qed.

(** The accepted file, its digest in a stand-in for SHA-256, and a commit. *)
Definition demo_finalize (verdict : text) : FinalizeParams :=
  MkFinalize (T "because") true (T "claude/x") [T "a"] verdict [T "tests/"] (T "r") (Some (demo_sha (T "data")))
             (Some (T "0123456789")).
Definition finalize_env : surroundings nat := {|
  lower := map to_ascii_lower; nfkc := id; sha256_hex := demo_sha; parse_exact := fun _ => None;
  message := fun e => T (code e);
  load_policy := fun _ => Ok demo_config; kill_switch := fun _ => []; attached := demo_config;
  jailed_read := fun _ _ => None; is_cloud := true; planner_system_prompt := fun _ => [];
  invoke := fun _ _ _ w => (w, Ok []); retrieve := fun _ _ _ rc => Ok (rc, JNull);
  inspect_text := fun _ => []; inspect_code := fun _ _ => []; unslop := None;
  apply_files := fun pr _ w => (w, Ok []); load_cargo := fun _ => Err err_config; sandbox := Ok [];
  prepare_home := fun w => (w, Ok tt); run_prepared := fun _ _ w => (w, MkOutcome 0 [] [] false);
|}.
Definition run_finalize (verdict : text) : st nat loop_act * result harness_error json :=
  finalize_real_repo_change finalize_env id demo_print (fun _ => demo_tree (T "data")) (fun _ => true)
    (fun _ t => Some t) (fun _ w => (S w, Ok (T "abc"))) (demo_finalize verdict) (St 0%nat []).

Lemma approve_commits_only_verified_witness :
  is_ok (snd (run_finalize (T "approve"))) = true /\ world (fst (run_finalize (T "approve"))) = 1%nat
  /\ world (fst (run_finalize (T "reject"))) = 0%nat /\ is_ok (snd (run_finalize (T "reject"))) = true.
Proof.
  split; [vm_compute; reflexivity|]. split; [vm_compute; reflexivity|].
  destruct (approve_commits_only_verified finalize_env id demo_print (fun _ => demo_tree (T "data")) (fun _ => true)
    (fun _ t => Some t) (fun _ w => (S w, Ok (T "abc"))) (demo_finalize (T "reject")) (St 0%nat [])
    (fst (run_finalize (T "reject"))) (snd (run_finalize (T "reject")))) as (_ & _ & H & _);
    [apply surjective_pairing|].
  apply H. reflexivity.
Defined.
