(* ===== verification/LoopClone.v ===== *)
(** The loop on a real clone: [run_real_repo_loop] of [RepoLoop] with the
    reads of [Workspace] and the proposal application of [Apply] in the place
    of its parameters.

    The clone is a part of the world ([CloneHost]); identifiers of work files
    are drawn from the world.  Other processes do not touch the clone while a
    proposal is applied.  The planner, the checks' home and the checks leave
    the clone's files alone ([QuietHost]), as the bubblewrap and Seatbelt
    sandboxes ensure by mounting the clone read-only. *)

From S2P Require Import Prelude Text Effects RepoPaths Glob ReadRequests Edits Transaction Workspace Apply WriteGate Executor RepoLoop.
Local Open Scope Z_scope.

(** The clone inside the world. *)
Class CloneHost (W : Type) := {
  clone_of : W -> clone;
  set_clone : clone -> W -> W;
  clone_of_set c w : clone_of (set_clone c w) = c;
}.

Section LoopClone.
Context {W : Type} {CH : CloneHost W} (env : surroundings W).
Context (from_utf8 : list Z -> option text).
Context (os_canonicalize : clone -> list component -> option (list component)).
Context (os_read_link : clone -> list component -> option link_target).
Context (os_canonicalize_dir : clone -> list text -> option (list component)).
Context (mkdir_ok : text -> bool) (uuid : W -> Proposal -> nat -> text) (dest : list component).

(** The answer of [require_write] to each step of a batch. *)
Definition policy_error (p : LoopParams) (w : W) : option harness_error :=
  match snd (require_write env (T "apply_proposal") (p_reason p) (confirm p) (St w [])) with
  | Ok _ => None
  | Err e => Some e
  end.

Definition apply_error_of (p : LoopParams) (w : W) (e : apply_failure) : harness_error :=
  match e with
  | Denied _ => err_agentic
  | Failed IoError => err_code "IO_ERROR"
  | Failed PolicyRevoked => from_option id err_write_refused (policy_error p w)
  | Failed StaleFile | Failed ConcurrentChange => err_agentic
  | Failed Quarantined => HarnessError "AGENTIC_ERROR" None ["quarantine"%string]
  end.

Definition admit_here (protected : list text) (c : clone) (pr : Proposal) : result proposal_denial (list target) :=
  admission (lower env) (nfkc env) from_utf8 os_canonicalize os_read_link os_canonicalize_dir dest protected
    (protected_write_paths (deepagent (attached env))) (max_write_budget_bytes (deepagent (attached env))) c pr.

Definition clone_apply (p : LoopParams) (pr : Proposal) (protected : list text) (w : W)
    : W * result harness_error (list text) :=
  let '(c, r) :=
    Apply.apply_files (lower env) (nfkc env) from_utf8 os_canonicalize os_read_link os_canonicalize_dir mkdir_ok
      (uuid w pr) dest protected (protected_write_paths (deepagent (attached env)))
      (max_write_budget_bytes (deepagent (attached env)))
      (fun _ f => f) (fun _ => bool_decide (policy_error p w = None)) (clone_of w) pr in
  (set_clone c w, map_err (apply_error_of p w) r).

Definition clone_read (w : W) (selector : text) : option text :=
  match read_file (lower env) from_utf8 (view_of os_canonicalize_dir (clone_of w)) selector with
  | Ok s => Some s
  | Err _ => None
  end.

(** [env] with the clone's own reads and writes. *)
Definition clone_env (p : LoopParams) : surroundings W :=
  MkSurroundings W (lower env) (nfkc env) (sha256_hex env) (parse_exact env) (message env) (load_policy env)
    (kill_switch env) (attached env) clone_read (is_cloud env) (planner_system_prompt env) (invoke env)
    (retrieve env) (inspect_text env) (inspect_code env) (unslop env) (clone_apply p)
    (load_cargo env) (sandbox env) (prepare_home env) (run_prepared env).

Definition files_of (w : W) : gmap text text := contents (clone_of w).

(** What the rest of the world promises to the loop. *)
Class QuietHost (prot : list text) : Prop := {
  invoke_quiet sys user n w : files_of (fst (invoke env sys user n w)) = files_of w;
  home_quiet w : files_of (fst (prepare_home env w)) = files_of w;
  checks_quiet a t w : files_of (fst (run_prepared env a t w)) = files_of w;
  uuid_fresh w pr ts : admit_here prot (clone_of w) pr = Ok ts -> fresh_ids (uuid w pr) (clone_of w) ts;
}.
Context (p : LoopParams) {QH : QuietHost (protected_paths p)}.
Abbreviation prot := (protected_paths p).

(** [q] is where a file of [pr] lands, by the rules of the jail, and neither
    its name nor [q] is protected. *)
Definition may_land (protected : list text) (pr : Proposal) (q : text) : Prop :=
  exists c raw cont,
    files pr !! raw = Some cont
    /\ validate_write_path (lower env) (os_canonicalize c) (os_read_link c) dest raw false = Ok q
    /\ is_protected (lower env) (nfkc env) protected (protected_write_paths (deepagent (attached env))) raw = false
    /\ is_protected (lower env) (nfkc env) protected (protected_write_paths (deepagent (attached env))) q = false.

Lemma admitted_entries c pr ts :
  admit_here prot c pr = Ok ts ->
  Forall2 (fun f t => content t = snd f /\ validate_write_path (lower env) (os_canonicalize c) (os_read_link c) dest
                        (fst f) false = Ok (landed_path t)
                      /\ is_protected (lower env) (nfkc env) prot (protected_write_paths (deepagent (attached env))) (fst f) = false
                      /\ is_protected (lower env) (nfkc env) prot (protected_write_paths (deepagent (attached env)))
                           (landed_path t) = false)
          (proposal_entries (files pr)) ts.
Proof.
  intros Hadm. unfold admit_here, admission, admit_proposal in Hadm. apply bind_Ok_inv in Hadm as (ts' & Hts & Hadm).
  destruct (_ <? _); [done|]. injection Hadm as <-. apply admit_files_Ok in Hts as (Hall & _). clear -Hall.
  eapply Forall2_impl; [exact Hall|]. clear Hall. intros f t [Hc Hl [Hp1 Hp2] _ _ _ _]. done.
Qed.

Lemma proposal_entries_elem (fs : gmap text text) raw cont : (raw, cont) ∈ proposal_entries fs -> fs !! raw = Some cont.
Proof.
  unfold proposal_entries. intros Hin. apply list_elem_of_omap in Hin as (k & _ & Hk).
  destruct (fs !! k) as [x|] eqn:E; [|done]. simpl in Hk. by injection Hk as <- <-.
Qed.

Lemma admitted_may_land c pr ts t : admit_here prot c pr = Ok ts -> t ∈ ts -> may_land prot pr (landed_path t).
Proof.
  intros H Ht. apply admitted_entries in H.
  apply list_elem_of_lookup in Ht as [i Hi]. destruct (Forall2_lookup_r _ _ _ _ _ H Hi) as ([raw cont] & Hf & _ & Hl & Hp).
  exists c, raw, cont. split; [|done]. apply proposal_entries_elem. by eapply list_elem_of_lookup_2.
Qed.

(** One application. *)
Lemma clone_apply_spec pr w w' r :
  clone_apply p pr prot w = (w', r) ->
  match r with
  | Ok paths => exists ts, admit_here prot (clone_of w) pr = Ok ts /\ paths = map landed_path ts
                  /\ files_of w' = write_files (files_of w) ts
  | Err _ => files_of w' = files_of w
  end.
Proof.
  unfold clone_apply, files_of. intros H.
  pose proof (apply_files_refines_aux (lower env) (nfkc env) from_utf8 os_canonicalize os_read_link os_canonicalize_dir
    mkdir_ok (uuid w pr) dest prot (protected_write_paths (deepagent (attached env)))
    (max_write_budget_bytes (deepagent (attached env))) (fun _ => bool_decide (policy_error p w = None)) (clone_of w) pr
    (uuid_fresh w pr)) as Hr.
  destruct (Apply.apply_files _ _ _ _ _ _ _ _ _ _ _ _ _ _ _ _) as [c r0]. injection H as <- <-.
  rewrite clone_of_set. destruct Hr as [_ Hr].
  destruct r0 as [paths|[why|e]]; simpl.
  - destruct Hr as (ts & Ha & -> & _ & Hc). by exists ts.
  - by destruct Hr as [_ ->].
  - by destruct Hr as (ts & _ & _ & -> & _).
Qed.

(** Where [write_files] differs from the old files, a target lands. *)
Lemma write_files_elsewhere m ts q : q ∉ map landed_path ts -> write_files m ts !! q = m !! q.
Proof.
  intros Hq. unfold write_files. rewrite lookup_union_r; [done|].
  apply not_elem_of_list_to_map_1. by rewrite <- list_fmap_compose.
Qed.

Lemma clone_apply_touches pr w q :
  files_of (fst (clone_apply p pr prot w)) !! q <> files_of w !! q -> may_land prot pr q.
Proof.
  destruct (clone_apply p pr prot w) as [w' r] eqn:E. simpl. apply clone_apply_spec in E.
  destruct r as [paths|e]; [|by rewrite E]. destruct E as (ts & Ha & _ & ->). intros Hq.
  destruct (decide (q ∈ map landed_path ts)) as [Hin|Hin]; [|by rewrite write_files_elsewhere in Hq].
  apply list_elem_of_In, in_map_iff in Hin as (t & <- & Ht%list_elem_of_In). by eapply admitted_may_land.
Qed.

(** Every file that differs is one that an applied proposal may write. *)
Definition accounted (l : list (effect loop_act)) (w w' : W) : Prop :=
  forall q, files_of w' !! q <> files_of w !! q -> exists pr, Did (Applied pr) ∈ l /\ may_land prot pr q.

#[local] Instance accounted_composes : Composes accounted.
Proof.
  constructor; [intros l w _ q Hq; by destruct Hq|]. intros l1 l2 w1 w2 w3 H12 H23 q Hq.
  destruct (decide (files_of w2 !! q = files_of w1 !! q)) as [E|E].
  - destruct (H23 q) as (pr & Hin & Hm); [congruence|]. exists pr. rewrite elem_of_app. auto.
  - destruct (H12 q E) as (pr & Hin & Hm). exists pr. rewrite elem_of_app. auto.
Qed.

Lemma accounted_same l w w' : files_of w' = files_of w -> accounted l w w'.
Proof. intros E q. by rewrite E. Qed.

Abbreviation R := accounted.
Abbreviation E := (clone_env p).

Lemma tracks_verification cs :
  tracks R (run_verification (lower E) Ran (sandbox E) (load_cargo E) (prepare_home E) (run_prepared E) cs).
Proof using All.
  unfold run_verification. destruct cs as [|c cs]; [tracks|].
  apply tracks_bind; [exact _ | tracks | intros backend].
  apply tracks_bind; [exact _ | destruct (existsb _ _); tracks | intros cargo].
  apply tracks_bind; [exact _ | |].
  - apply (tracks_silent R _ (fun w => fst (prepare_home E w))).
    + intros s. by destruct (prepare_home E (world s)).
    + intros w. apply accounted_same, home_quiet.
  - intros _. apply tracks_bind; [exact _ | | intro; tracks].
    generalize (c :: cs). intros l. induction l as [|c' l IH]; simpl; [tracks|].
    apply tracks_bind; [exact _ | | intro; apply tracks_bind; [exact _ | apply IH | intro; tracks]].
    unfold run_check. apply tracks_bind; [exact _ | destruct (is_cargo _); tracks | intros a].
    apply tracks_bind; [exact _ | | intro; tracks].
    apply tracks_call. intros w. apply accounted_same. simpl.
    pose proof (checks_quiet a (timeout_sec c') w) as H. by destruct (run_prepared env a (timeout_sec c') w).
Qed.

Lemma keeps_verification cs :
  keeps files_of (run_verification (lower E) Ran (sandbox E) (load_cargo E) (prepare_home E) (run_prepared E) cs).
Proof using All.
  intros s. destruct (tracks_verification cs s) as (l & Hl & Hr).
  apply map_eq. intros q. destruct (decide (files_of (world (fst (run_verification (lower E) Ran (sandbox E)
    (load_cargo E) (prepare_home E) (run_prepared E) cs s))) !! q = files_of (world s) !! q)) as [?|Hne]; [done|].
  destruct (Hr q Hne) as (pr & Hin & _). exfalso.
  destruct (quiet_run_check_free E (fun e => e <> Did (Applied pr)) cs) with (s := s) as (l' & Hl' & He); [done..|].
  rewrite Hl in Hl'. apply app_inv_head in Hl' as <-. rewrite Forall_forall in He. by apply (He _ Hin).
Qed.

Lemma tracks_attempt i c : tracks R (attempt E p i c).
Proof using All.
  unfold attempt.
  assert (Hq : forall A (m : eff W loop_act harness_error A), quiet m -> tracks R m)
    by (intros A m Hm; apply tracks_quiet; [exact _ | exact Hm]).
  apply tracks_bind; [exact _ | apply Hq; auto with harness | intros rc].
  apply tracks_bind; [exact _ | apply Hq, quiet_retrieval_phase | intros [rc' tr]].
  apply tracks_bind; [exact _ | | intros raw].
  { apply tracks_call. intros w. apply accounted_same. apply invoke_quiet. }
  destruct (extract_read_requests raw) as [response requested].
  apply tracks_bind; [exact _ | apply Hq, quiet_honor_reads | intros reads'].
  apply tracks_bind; [exact _ | | intros [[written failed] msgs]].
  { unfold write_phase. destruct (_ && clean_scan _); [|tracks].
    apply tracks_bind; [exact _ | apply tracks_catch | intro; tracks].
    unfold apply_proposal. apply tracks_bind; [exact _ | apply Hq, quiet_require_write | intros _].
    apply tracks_call. intros w q Hw. eexists. split; [apply list_elem_of_here|]. exact (clone_apply_touches _ _ _ Hw). }
  apply tracks_bind; [exact _ | | intros ver].
  { unfold verify_phase. destruct (_ && _); [|tracks].
    apply tracks_bind; [exact _ | apply tracks_verification | intro; tracks]. }
  apply tracks_bind; [exact _ | apply Hq; auto with harness | intros _]. destruct (accepted _); [tracks|].
  apply tracks_bind; [exact _ | | intro; tracks].
  apply Hq. destruct ver as [v|]; [destruct (report_ok v)|]; solve [apply quiet_verification_feedback | auto with harness].
Qed.

Lemma tracks_iterate n i c : tracks R (iterate E p n i c).
Proof using All.
  revert i c. induction n as [|n IH]; intros i c; simpl; [tracks|].
  apply tracks_bind; [exact _ | apply tracks_attempt | intros [d c']]. destruct (accepted d); [tracks | apply IH].
Qed.

(** Whatever ends a run of the loop (acceptance, exhaustion, or an error
    of any step), every file of the clone that differs afterwards is one that
    an applied proposal may write: the proposal passed the content, scope and
    budget scans, and the file is where the write jail lands one of the names
    it gives, with neither the name nor the landing place protected.  The
    planner, the index and the checks never change a file. *)
Theorem loop_touches_only_admitted (s s' : st W loop_act) r :
  run_real_repo_loop E p s = (s', r) ->
  forall q, files_of (world s') !! q <> files_of (world s) !! q ->
  exists pr l, trace s' = trace s ++ l /\ Did (Applied pr) ∈ l /\ may_apply E p pr /\ may_land (protected_paths p) pr q.
Proof using All.
  unfold run_real_repo_loop. intros H q Hq. eff_step H.
  { apply quiet_result in H0 as [Hw _]; [|apply quiet_setup]. by rewrite Hw in Hq. }
  apply quiet_result in H0 as (Hw & l0 & Hl0 & _); [|apply quiet_setup]. rewrite <- Hw in Hq.
  destruct (tracks_result R _ _ _ _ (tracks_iterate _ _ _) H) as (l & Hl & Hr).
  destruct (emits_result _ _ _ _ _ (emits_iterate E p _ _ _) H) as (l' & Hl' & He).
  rewrite Hl in Hl'. apply app_inv_head in Hl' as <-.
  destruct (Hr q Hq) as (pr & Hin & Hm). exists pr, (l0 ++ l).
  rewrite Hl, Hl0, app_assoc. split; [done|]. split; [apply elem_of_app; by right|]. split; [|done].
  rewrite Forall_forall in He. exact (He _ Hin).
Qed.

(** An accepted run leaves its reviewer exactly the verified proposal.
    The files of the clone when the run ends are those from before the last
    application with the admitted proposal's contents at the paths it landed
    on, and these paths are the changed files of the last iteration; the
    checks that passed ran on this very tree. *)
Theorem accepted_run_leaves_proposal (s s' : st W loop_act) res :
  run_real_repo_loop E p s = (s', Ok res) -> loop_accepted res = true ->
  exists pr ts before earlier it checked report,
    may_apply E p pr /\ admit_here (protected_paths p) (clone_of before) pr = Ok ts
    /\ iterations res = earlier ++ [it] /\ changed_files it = map landed_path ts
    /\ files_of (world checked) = write_files (files_of before) ts
    /\ snd (run_verification (lower E) Ran (sandbox E) (load_cargo E) (prepare_home E) (run_prepared E) (checks p)
              checked) = Ok report
    /\ report_ok report = true
    /\ files_of (world s') = write_files (files_of before) ts.
Proof using All.
  unfold run_real_repo_loop. intros H Hacc. eff_step H.
  apply iterate_Ok in H as (new & Hn & _ & _ & _ & Hres). rewrite Hacc in Hres.
  destruct Hres as (_ & _ & earlier & it & -> & _ & _ & _ & _ & Hrun).
  destruct Hrun as (pr & s1 & s2 & rep & audits & Hm & (s3 & _ & Happ) & Hv & Hok & Hw & _).
  simpl in Happ. apply clone_apply_spec in Happ as (ts & Ha & Hpaths & Hf).
  exists pr, ts, (world s3), earlier, it, s1, rep. rewrite Hv. do 5 (split; [done|]). split; [done|]. split; [done|].
  rewrite Hw. erewrite (keeps_result files_of _ _ _ _ (keeps_verification _) Hv). done.
Qed.
End LoopClone.

(** ** A run that adds one file to a small clone *)

Section Demo.
(** The clone, and how often the planner was asked. *)
Definition demo_world : Type := clone * nat.
#[local] Instance demo_host : CloneHost demo_world :=
  {| clone_of := fst; set_clone c w := (c, snd w); clone_of_set _ _ := eq_refl |}.
Definition host_env : surroundings demo_world := {|
  lower := map to_ascii_lower; nfkc := id; sha256_hex := id; parse_exact := fun _ => None;
  message := fun e => T (code e);
  load_policy := fun _ => Ok demo_config; kill_switch := fun _ => []; attached := demo_config;
  jailed_read := fun _ _ => None; is_cloud := true; planner_system_prompt := fun _ => T "system";
  invoke := fun _ _ _ w => ((fst w, S (snd w)),
    Ok (T "=== FILE src/new/b ===" ++ [c_newline] ++ T "x" ++ [c_newline] ++ T "=== END FILE ==="));
  retrieve := fun _ _ _ rc => Ok (rc, JNull);
  inspect_text := fun _ => []; inspect_code := fun _ _ => []; unslop := None;
  RepoLoop.apply_files := fun pr _ w => (w, Ok []);
  load_cargo := fun _ => Err err_config; sandbox := Ok (T "sb"); prepare_home := fun w => (w, Ok tt);
  run_prepared := fun _ _ w => (w, MkOutcome 0 [] [] false);
|}.
Definition host_params : LoopParams :=
  MkParams (T "do it") [MkCheck (T "t") [T "make"] 5] (T "claude/x") (T "msg") 2 (T "because") true 100
           None [] [T "tests/"] (Some 1000) true [].
Definition host_admit (c : clone) (pr : Proposal) : result proposal_denial (list target) :=
  admit_here host_env Some demo_exists (fun _ _ => None) (fun _ p => Some (map Normal p)) [Normal (T "c")]
    (protected_paths host_params) c pr.
Definition host_uuid (w : demo_world) (pr : Proposal) : nat -> text :=
  match host_admit (fst w) pr with
  | Ok ts => padded_uuid (fresh_width (fst w) ts)
  | Err _ => padded_uuid 1
  end.
Definition host_loop_env : surroundings demo_world :=
  clone_env host_env Some demo_exists (fun _ _ => None) (fun _ p => Some (map Normal p)) (fun _ => true) host_uuid
    [Normal (T "c")] host_params.
Definition host_run : st demo_world loop_act * result harness_error RealRepoLoopResult :=
  run_real_repo_loop host_loop_env host_params (St (demo_clone, O) []).
Definition host_result : RealRepoLoopResult :=
  match snd host_run with Ok res => res | Err _ => MkLoopResult false None None [] end.

#[local] Instance host_quiet :
  QuietHost host_env Some demo_exists (fun _ _ => None) (fun _ p => Some (map Normal p)) host_uuid [Normal (T "c")]
    (protected_paths host_params).
Proof.
  constructor; [done..|]. intros w pr ts H. unfold host_uuid. fold (host_admit (clone_of w) pr) in H.
  simpl in H. rewrite H. apply fresh_ids_exist.
Qed.

Lemma host_run_Ok : host_run = (fst host_run, Ok host_result).
Proof. vm_compute. reflexivity. Qed.
End Demo.

Lemma loop_touches_only_admitted_witness :
  contents (fst (world (fst host_run))) !! T "src/new/b" = Some (T "x")
  /\ exists pr l, Did (Applied pr) ∈ l /\ trace (fst host_run) = l
       /\ may_land host_env demo_exists (fun _ _ => None) [Normal (T "c")] (protected_paths host_params) pr (T "src/new/b").
Proof.
  assert (Hx : contents (fst (world (fst host_run))) !! T "src/new/b" = Some (T "x")) by (vm_compute; reflexivity).
  split; [exact Hx|].
  destruct (loop_touches_only_admitted (CH := demo_host) host_env Some demo_exists (fun _ _ => None)
    (fun _ p => Some (map Normal p)) (fun _ => true) host_uuid [Normal (T "c")] host_params (QH := host_quiet)
    (St (demo_clone, O) []) (fst host_run) (Ok host_result) host_run_Ok (T "src/new/b")) as (pr & l & Hl & Hin & _ & Hm).
  - unfold files_of. simpl clone_of. rewrite Hx. vm_compute. discriminate.
  - exists pr, l. split; [exact Hin|]. split; [exact Hl | exact Hm].
Defined.

Lemma accepted_run_leaves_proposal_witness :
  exists pr ts before, admit_here host_env Some demo_exists (fun _ _ => None) (fun _ p => Some (map Normal p))
      [Normal (T "c")] (protected_paths host_params) before pr = Ok ts
    /\ contents (fst (world (fst host_run))) = write_files (contents before) ts /\ ts <> [].
Proof.
  assert (Ha : loop_accepted host_result = true) by (vm_compute; reflexivity).
  destruct (accepted_run_leaves_proposal (CH := demo_host) host_env Some demo_exists (fun _ _ => None)
    (fun _ p => Some (map Normal p)) (fun _ => true) host_uuid [Normal (T "c")] host_params (QH := host_quiet)
    (St (demo_clone, O) []) (fst host_run) host_result host_run_Ok Ha)
    as (pr & ts & before & earlier & it & checked & rep & _ & Had & Hit & Hch & _ & _ & _ & Hf).
  exists pr, ts, (fst before). split; [exact Had|]. split; [exact Hf|].
  intros ->. assert (Hi : map changed_files (iterations host_result) = [[T "src/new/b"]]) by (vm_compute; reflexivity).
  rewrite Hit, map_app in Hi. simpl in Hi. rewrite Hch in Hi. destruct earlier as [|? [|]]; discriminate Hi.
Defined.
