(* ===== verification/WebLedger.v ===== *)
(** The ledger of the web reads that the turns of a chat session made, and the
    rows of it that a later web turn's prompt carries, [server/web_ledger.rs].

    A turn's events are JSON values, as the web tools produced them.  Times are
    exact integers.  The Unicode functions of the standard library
    ([to_lowercase], [is_alphanumeric]) and the current URL policy are
    parameters of the part that builds the prompt rows. *)

From S2P Require Import Prelude Text Effects.
Local Open Scope Z_scope.

Definition MAX_SOURCES : nat := 500.
Definition TARGET_CHARS : nat := 1024.
Definition TURNS_KEPT : nat := 8.
Definition MIN_CITATION_CHARS : nat := 8.
Definition CARRY_TARGET_CHARS : nat := 200.
Definition MIN_GOAL_WORD_CHARS : nat := 4.

Definition WEB_FETCH : text := T "web_fetch".
Definition WEB_SEARCH : text := T "web_search".

Record WebSource := MkWebSource {
  tool : text; target : text;
  first_ts : Z; last_ts : Z;
  reads : Z; failures : Z; last_code : option text;
  source_chars : Z; delivered_chars : Z; hits : Z;
  truncated : Z; cited : Z; reread_after_compaction : Z;
  epoch : Z; turns : list Z;
}.

Record TurnSummary := MkTurnSummary {
  calls : Z; oks : Z; failed : Z; cut : Z; repeats : Z; rereads : Z; cites_made : Z; fallbacks : Z;
  codes : list text; providers : list text;
}.

(** [format!("{url}")] aside, the URL as a reply may contain it. *)
Definition cites (reply url : text) : bool :=
  let url := trim_end (Z.eqb c_slash) (trim url) in
  let bare := match split_once (T "://") url with Some (_, rest) => rest | None => url end in
  (MIN_CITATION_CHARS <=? length bare)%nat && contains bare reply.

(** ** One event *)

(** [WebSource { tool, target, first_ts: now, epoch, ..default() }] *)
Definition new_source (tool target : text) (epoch now : Z) : WebSource :=
  MkWebSource tool target now 0 0 0 None 0 0 0 0 0 0 epoch [].

(** [vec.drain(..len.saturating_sub(n))] *)
Definition keep_last {A} (n : nat) (l : list A) : list A := drop (length l - n) l.

Definition is_repeat (turn : Z) (s : WebSource) : bool :=
  match last (turns s) with Some l => l <? turn | None => false end.
Definition is_reread (turn epoch' : Z) (s : WebSource) : bool := is_repeat turn s && (epoch s <? epoch').

Definition bit (b : bool) : Z := if b then 1 else 0.

(** What every read of a target records before its outcome. *)
Definition touch (turn epoch' now : Z) (s : WebSource) : WebSource :=
  MkWebSource (tool s) (target s) (first_ts s) now (reads s + 1) (failures s) (last_code s)
    (source_chars s) (delivered_chars s) (hits s) (truncated s) (cited s)
    (reread_after_compaction s + bit (is_reread turn epoch' s)) epoch'
    (if bool_decide (last (turns s) = Some turn) then turns s else keep_last TURNS_KEPT (turns s ++ [turn])).

Definition read_failed (code : option text) (s : WebSource) : WebSource :=
  MkWebSource (tool s) (target s) (first_ts s) (last_ts s) (reads s) (failures s + 1) code
    (source_chars s) (delivered_chars s) (hits s) (truncated s) (cited s) (reread_after_compaction s) (epoch s) (turns s).

Definition fetched (source delivered : Z) (s : WebSource) : WebSource :=
  MkWebSource (tool s) (target s) (first_ts s) (last_ts s) (reads s) (failures s) None
    source delivered (hits s) (truncated s + bit (delivered <? source)) (cited s) (reread_after_compaction s) (epoch s) (turns s).

Definition searched (n : Z) (s : WebSource) : WebSource :=
  MkWebSource (tool s) (target s) (first_ts s) (last_ts s) (reads s) (failures s) None
    (source_chars s) (delivered_chars s) n (truncated s) (cited s) (reread_after_compaction s) (epoch s) (turns s).

Definition cite (b : bool) (s : WebSource) : WebSource :=
  MkWebSource (tool s) (target s) (first_ts s) (last_ts s) (reads s) (failures s) (last_code s)
    (source_chars s) (delivered_chars s) (hits s) (truncated s) (cited s + bit b) (reread_after_compaction s) (epoch s) (turns s).

(** What the event of a read says about its target: the updated row, whether
    the read succeeded, was cut, cited by the reply, and by whom it was
    answered. *)
Record Outcome := MkOutcome {
  row : WebSource; o_ok : bool; o_cut : bool; o_cites : bool; o_provider : option text; o_fallback : bool;
}.

Definition urls_of (result : json) : list text :=
  omap (fun r => as_str (index r (T "url"))) (from_option id [] (as_array (index result (T "results")))).

Definition read_outcome (reply : text) (event : json) (s : WebSource) : Outcome :=
  if negb (bool_decide (as_bool (index event (T "ok")) = Some true)) then
    MkOutcome (read_failed (as_str (index event (T "code"))) s) false false false None false
  else
    let result := index event (T "result") in
    if teqb (tool s) WEB_FETCH then
      let delivered := match as_str (index result (T "text")) with Some t => Z.of_nat (length t) | None => 0 end in
      let source := from_option id delivered (as_u64 (index result (T "source_chars"))) in
      MkOutcome (fetched source delivered s) true (delivered <? source)
        (cites reply (target s) || match as_str (index result (T "url")) with Some url => cites reply url | None => false end)
        None false
    else
      let rows := from_option id [] (as_array (index result (T "results"))) in
      MkOutcome (searched (Z.of_nat (length rows)) s) true false (existsb (cites reply) (urls_of result))
        (take 32 <$> as_str (index result (T "provider")))
        (match as_array (index result (T "fallback_from")) with Some from => negb (bool_decide (from = [])) | None => false end).

(** The read that an event reports: its tool and its target. *)
Definition read_of (event : json) : option (text * text) :=
  let tool := from_option id [] (as_str (index event (T "tool"))) in
  if teqb tool WEB_FETCH || teqb tool WEB_SEARCH then
    t ← as_str (index event (T "target"));
    if bool_decide (trim t = []) then None else Some (tool, take TARGET_CHARS (trim t))
  else None.

(** The state of the loop over a turn's events. *)
Record Fold := MkFold {
  sources : list WebSource;
  counts : TurnSummary;
  code_set : gset text; provider_set : gset text; cited_set : gset nat;
}.

Definition same_read (r : text * text) (s : WebSource) : Prop := tool s = fst r /\ target s = snd r.
#[export] Instance same_read_dec r s : Decision (same_read r s).
Proof. unfold same_read. apply _. Defined.

(** [position], or a new row at the end. *)
Definition find_or_push (r : text * text) (epoch now : Z) (l : list WebSource) : list WebSource * nat * WebSource :=
  match list_find (same_read r) l with
  | Some (i, s) => (l, i, s)
  | None => let s := new_source (fst r) (snd r) epoch now in (l ++ [s], length l, s)
  end.

Definition count (c : TurnSummary) (repeat reread : bool) (o : Outcome) (newly_cited : bool) : TurnSummary :=
  MkTurnSummary (calls c + 1) (oks c + bit (o_ok o)) (failed c + bit (negb (o_ok o))) (cut c + bit (o_cut o))
    (repeats c + bit repeat) (rereads c + bit reread) (cites_made c + bit newly_cited) (fallbacks c + bit (o_fallback o))
    (codes c) (providers c).

Definition option_set {A} `{Countable A} (o : option A) : gset A := match o with Some a => {[a]} | None => ∅ end.

Definition record_event (reply : text) (turn epoch now : Z) (f : Fold) (event : json) : Fold :=
  let f := MkFold (sources f) (counts f) (option_set (as_str (index event (T "code"))) ∪ code_set f) (provider_set f) (cited_set f) in
  match read_of event with
  | None => f
  | Some r =>
      let '(l, i, s) := find_or_push r epoch now (sources f) in
      let o := read_outcome reply event (touch turn epoch now s) in
      let newly := o_cites o && negb (bool_decide (i ∈ cited_set f)) in
      MkFold (<[i := cite newly (row o)]> l)
        (count (counts f) (is_repeat turn s) (is_reread turn epoch s) o newly)
        (code_set f) (option_set (o_provider o) ∪ provider_set f)
        (if o_cites o then {[i]} ∪ cited_set f else cited_set f)
  end.

(** ** A turn *)

(** The first of the rows with the least [last_ts], [min_by]. *)
Fixpoint oldest_from (best : nat) (ts : Z) (i : nat) (l : list WebSource) : nat :=
  match l with
  | [] => best
  | s :: l' => if last_ts s <? ts then oldest_from i (last_ts s) (S i) l' else oldest_from best ts (S i) l'
  end.
Definition oldest (l : list WebSource) : nat :=
  match l with [] => 0%nat | s :: l' => oldest_from 0 (last_ts s) 1 l' end.

Fixpoint evict (fuel : nat) (l : list WebSource) : list WebSource :=
  match fuel with
  | O => l
  | S fuel => if (MAX_SOURCES <? length l)%nat then evict fuel (delete (oldest l) l) else l
  end.

Definition zero_counts : TurnSummary := MkTurnSummary 0 0 0 0 0 0 0 0 [] [].

(** A [BTreeSet] in its order. *)
Definition sorted_set (s : gset text) : list text := merge_sort text_le (elements s).

Definition fold_turn (l : list WebSource) (events : list json) (reply : text) (turn epoch now : Z) : Fold :=
  foldl (record_event reply turn epoch now) (MkFold l zero_counts ∅ ∅ ∅) events.

Definition record_turn (l : list WebSource) (events : list json) (reply : text) (turn epoch now : Z)
    : list WebSource * option TurnSummary :=
  let f := fold_turn l events reply turn epoch now in
  let c := counts f in
  if (calls c =? 0) && bool_decide (code_set f = ∅) then (sources f, None)
  else (evict (length (sources f)) (sources f),
        Some (MkTurnSummary (calls c) (oks c) (failed c) (cut c) (repeats c) (rereads c) (cites_made c) (fallbacks c)
                (sorted_set (code_set f)) (sorted_set (provider_set f)))).

(** The [chat_web_turn] audit line: counts and codes, no targets. *)
Definition audit_fields (c : TurnSummary) (turn : Z) (loop_turn : bool) (compactions : Z) : json :=
  JObj [(T "turn", JInt turn); (T "loop_turn", JBool loop_turn); (T "compactions", JInt compactions);
        (T "calls", JInt (calls c)); (T "ok", JInt (oks c)); (T "failed", JInt (failed c)); (T "truncated", JInt (cut c));
        (T "repeats", JInt (repeats c)); (T "rereads_after_compaction", JInt (rereads c)); (T "cited", JInt (cites_made c));
        (T "codes", JArr (map JStr (codes c))); (T "providers", JArr (map JStr (providers c))); (T "fallbacks", JInt (fallbacks c))].

(** ** Rows for the next turn's prompt *)

Definition c_quote : char := 34.

Definition flatten (t : text) : text := map (fun c => if is_control c then c_space else c) t.
Definition row_target (t : text) : text := take CARRY_TARGET_CHARS (trim (flatten t)).

(** [str::split] at the characters of a class. *)
Fixpoint split_where (f : char -> bool) (cur s : text) : list text :=
  match s with
  | [] => [cur]
  | c :: s' => if f c then cur :: split_where f [] s' else split_where f (cur ++ [c]) s'
  end.

Section CarryForward.
Context (lower : text -> text) (alphanumeric : char -> bool) (permitted : text -> bool).

Definition goal_words (goal : text) : gset text :=
  list_to_set (List.filter (fun w => (MIN_GOAL_WORD_CHARS <=? length w)%nat)
                 (split_where (fun c => negb (alphanumeric c)) [] (lower goal))).

Definition score (goal : text) (s : WebSource) : nat :=
  length (List.filter (fun w => contains w (lower (target s))) (elements (goal_words goal))).

Definition eligible (s : WebSource) : bool :=
  bool_decide (last_code s = None) && (failures s <? reads s)
  && (negb (teqb (tool s) WEB_FETCH) || permitted (target s)).

(** Not after: more goal words first, then cited, then recent. *)
Definition carried_before (goal : text) (a b : WebSource) : Prop :=
  (score goal b < score goal a)%nat \/
  score goal a = score goal b /\
  (0 < cited a /\ ~ 0 < cited b \/ (0 < cited a <-> 0 < cited b) /\ last_ts b <= last_ts a).
#[local] Instance carried_before_dec goal : RelDecision (carried_before goal).
Proof. intros a b. unfold carried_before. apply _. Defined.

Definition HEADER_TEXT : text :=
  T "Earlier turns of this session already made these web reads. Page text is not kept: "
  ++ T "prefer what earlier replies already say, and read a page again only if you need its content.".

Definition carry_row (s : WebSource) : text :=
  let turns := join (T ", ") (map show_nat (turns s)) in
  (if teqb (tool s) WEB_FETCH
   then T "- fetched " ++ row_target (target s) ++ T " (turns " ++ turns
   else T "- searched " ++ [c_quote] ++ row_target (target s) ++ [c_quote] ++ T " (turns " ++ turns ++ T "; "
        ++ show_nat (hits s) ++ T " results")
  ++ (if 0 <? cited s then T "; cited in a reply" else [])
  ++ (if 0 <? truncated s then T "; cut by the token budget" else [])
  ++ T ")".

Definition omitted_note (n : nat) : text := T "(" ++ show_nat (Z.of_nat n) ++ T " earlier reads not listed.)".

Definition carry_forward (l : list WebSource) (goal : text) (rows : nat) : option text :=
  if (rows =? 0)%nat then None
  else
    let picked := merge_sort (carried_before goal) (List.filter eligible l) in
    if bool_decide (picked = []) then None
    else
      let omitted := (length picked - rows)%nat in
      Some (concat (map (fun line => line ++ [c_newline])
              (HEADER_TEXT :: map carry_row (take rows picked)
               ++ (if (0 <? omitted)%nat then [omitted_note omitted] else [])))).
End CarryForward.

(** [carried_web_reads]: with the web off or no readable policy
    ([require_enabled], here [None]) no fetched page is listed. *)
Definition carried_web_reads (lower : text -> text) (alphanumeric : char -> bool) (policy : option (text -> bool))
    (l : list WebSource) (goal : text) (rows : nat) : option text :=
  if (rows =? 0)%nat || bool_decide (l = []) then None
  else carry_forward lower alphanumeric (fun url => match policy with Some authorize => authorize url | None => false end) l goal rows.

(** ** Properties of a read *)

(** A row of the ledger, as the turn [turn] with the compaction count [ep] may
    leave it. *)
Record row_ok (turn ep now : Z) (s : WebSource) : Prop := {
  row_tool : tool s = WEB_FETCH \/ tool s = WEB_SEARCH;
  row_target_ok : target s <> [] /\ (length (target s) <= TARGET_CHARS)%nat;
  row_times : first_ts s <= now /\ last_ts s <= now;
  row_failures : 0 <= failures s;
  row_reads : failures s <= reads s;
  row_truncated : 0 <= truncated s <= reads s - failures s;
  row_cited : 0 <= cited s <= reads s - failures s;
  row_rereads : 0 <= reread_after_compaction s <= reads s;
  row_epoch : epoch s <= ep;
  row_turns : StronglySorted Z.lt (turns s) /\ (length (turns s) <= TURNS_KEPT)%nat /\ Forall (fun t => t <= turn) (turns s);
}.

Definition was_read (s : WebSource) : Prop := 1 <= reads s /\ turns s <> [].

Lemma bit_bounds b : 0 <= bit b <= 1.
Proof. destruct b; simpl; lia. Qed.

Lemma row_ok_mono turn ep now turn' ep' now' s : turn <= turn' -> ep <= ep' -> now <= now' ->
  row_ok turn ep now s -> row_ok turn' ep' now' s.
Proof.
  intros Ht He Hn [? ? [? ?] ? ? ? ? ? ? (Hs & Hl & Hf)]. constructor; try done; try lia.
  split; [done|]. split; [done|]. eapply Forall_impl; [exact Hf|]. simpl. lia.
Qed.

Lemma keep_last_ok turn ts : StronglySorted Z.lt ts -> Forall (fun t => t <= turn) ts -> (length ts <= TURNS_KEPT)%nat -> last ts <> Some turn ->
  let ts' := keep_last TURNS_KEPT (ts ++ [turn]) in
  StronglySorted Z.lt ts' /\ (length ts' <= TURNS_KEPT)%nat /\ Forall (fun t => t <= turn) ts' /\ ts' <> [].
Proof.
  intros Hs Hf Hl Hlast ts'. unfold ts', keep_last. rewrite length_app. simpl.
  assert (Hall : StronglySorted Z.lt (ts ++ [turn])).
  { apply StronglySorted_app_2; [| done | by repeat constructor]. intros x y Hx Hy. apply list_elem_of_singleton in Hy as ->.
    destruct ts as [|t0 ts0] using rev_ind; [by apply not_elem_of_nil in Hx|]. rewrite last_snoc in Hlast.
    rewrite Forall_app in Hf. destruct Hf as [_ Hf]. inversion Hf as [|? ? Ht0 _]; subst.
    assert (t0 < turn) by (assert (t0 <> turn) by congruence; lia).
    apply elem_of_app in Hx as [Hx|Hx].
    - assert (x < t0); [|lia]. eapply StronglySorted_app_1_elem_of; [exact Hs | exact Hx | by apply list_elem_of_singleton].
    - apply list_elem_of_singleton in Hx as ->. lia. }
  assert (Hd : forall n, StronglySorted Z.lt (drop n (ts ++ [turn]))).
  { intros n. rewrite <- (take_drop n (ts ++ [turn])) in Hall. by eapply StronglySorted_app_1_r. }
  split_and!; [apply Hd | rewrite length_drop, length_app; simpl; lia | apply Forall_drop, Forall_app; split; [done | by repeat constructor] |].
  intros E. apply (f_equal length) in E. rewrite length_drop, length_app in E. simpl in E. unfold TURNS_KEPT in *. lia.
Qed.

Lemma touch_ok turn ep now ep0 now0 s : ep0 <= ep -> now0 <= now -> row_ok turn ep0 now0 s ->
  row_ok turn ep now (touch turn ep now s) /\ was_read (touch turn ep now s) /\ cited s + 1 <= reads (touch turn ep now s) - failures s
  /\ truncated s + 1 <= reads (touch turn ep now s) - failures s.
Proof.
  intros He Hn [? ? [? ?] ? ? ? ? ? ? (Hs & Hl & Hf)]. unfold touch, was_read. simpl.
  pose proof (bit_bounds (is_reread turn ep s)).
  case_bool_decide as Hlast.
  - split_and!; try lia; [constructor; simpl; try done; try lia; split; try lia |]. intros E. by rewrite E in Hlast.
  - destruct (keep_last_ok turn (turns s) Hs Hf Hl Hlast) as (Hs' & Hl' & Hf' & Hne).
    split_and!; try lia; [constructor; simpl; try done; lia | done].
Qed.

Lemma read_outcome_row reply event s : let o := read_outcome reply event s in
  (tool (row o) = tool s /\ target (row o) = target s /\ first_ts (row o) = first_ts s /\ last_ts (row o) = last_ts s
   /\ reads (row o) = reads s /\ cited (row o) = cited s /\ reread_after_compaction (row o) = reread_after_compaction s
   /\ epoch (row o) = epoch s /\ turns (row o) = turns s)
  /\ failures (row o) = failures s + bit (negb (o_ok o)) /\ truncated (row o) = truncated s + bit (o_cut o)
  /\ (o_ok o = false -> o_cut o = false /\ o_cites o = false /\ o_fallback o = false)
  /\ last_code (row o) = (if o_ok o then None else as_str (index event (T "code"))).
Proof.
  unfold read_outcome. case_bool_decide; simpl; [|split_and!; try done; lia].
  destruct (teqb (tool s) WEB_FETCH); simpl; split_and!; try done; lia.
Qed.

Lemma read_of_ok event r : read_of event = Some r -> (fst r = WEB_FETCH \/ fst r = WEB_SEARCH) /\ snd r <> [] /\ (length (snd r) <= TARGET_CHARS)%nat.
Proof.
  unfold read_of. destruct (teqb _ WEB_FETCH || _) eqn:E; [|done]. apply orb_true_iff in E. rewrite !teqb_eq in E.
  destruct (as_str (index event (T "target"))) as [t|]; simpl; [|done]. case_bool_decide as Ht; [done|]. intros [= <-]. simpl.
  split_and!; [done | | rewrite length_take; lia]. destruct (trim t); [done|]. unfold TARGET_CHARS. intros Ec. discriminate Ec.
Qed.

Definition key (s : WebSource) : text * text := (tool s, target s).

Lemma same_read_key r s : same_read r s <-> key s = r.
Proof. destruct r. unfold same_read, key. simpl. split; [intros [-> ->]; done | intros [= -> ->]; done]. Qed.

(** The reads that the rows of a target record. *)
Definition reads_of (r : text * text) (l : list WebSource) : Z :=
  foldr (fun s n => if decide (same_read r s) then reads s + n else n) 0 l.

Lemma reads_of_app r l l' : reads_of r (l ++ l') = reads_of r l + reads_of r l'.
Proof. induction l as [|s l IH]; simpl; [done|]. case_decide; rewrite IH; lia. Qed.

Lemma reads_of_none r l : r ∉ key <$> l -> reads_of r l = 0.
Proof.
  induction l as [|s l IH]; simpl; [done|]. rewrite not_elem_of_cons. intros [Hs Hl]. rewrite decide_False; [auto|].
  intros E. apply same_read_key in E. by subst.
Qed.

Lemma reads_of_in l s : NoDup (key <$> l) -> s ∈ l -> reads_of (key s) l = reads s.
Proof.
  induction l as [|s0 l IH]; simpl; intros Hn Hs; [by apply not_elem_of_nil in Hs|]. apply NoDup_cons in Hn as [Hn0 Hn].
  apply elem_of_cons in Hs as [->|Hs].
  - rewrite decide_True by by apply same_read_key. rewrite reads_of_none; [lia | done].
  - rewrite decide_False; [auto|]. intros E. apply same_read_key in E. rewrite E in Hn0. apply Hn0.
    by apply list_elem_of_fmap_2.
Qed.

Lemma insert_split (l : list WebSource) i s s' : l !! i = Some s ->
  exists a b, l = a ++ s :: b /\ <[i := s']> l = a ++ s' :: b /\ length a = i.
Proof.
  intros H. exists (take i l), (drop (S i) l). pose proof (lookup_lt_Some _ _ _ H). split_and!.
  - by rewrite take_drop_middle.
  - by apply insert_take_drop.
  - rewrite length_take. lia.
Qed.

Lemma find_or_push_spec r ep now l l1 i s : find_or_push r ep now l = (l1, i, s) ->
  l1 !! i = Some s /\ key s = r /\ (NoDup (key <$> l) -> NoDup (key <$> l1))
  /\ (l1 = l \/ l1 = l ++ [s] /\ s = new_source (fst r) (snd r) ep now) /\ (forall r', reads_of r' l1 = reads_of r' l).
Proof.
  unfold find_or_push. destruct (list_find _ l) as [[j x]|] eqn:E; intros [= <- <- <-].
  - apply list_find_Some in E as (Hx & Hk & _). split_and!; try done; [by apply same_read_key | by left].
  - apply list_find_None in E. split_and!.
    + rewrite lookup_app_r, Nat.sub_diag by done. done.
    + by destruct r.
    + intros Hn. rewrite fmap_app. apply NoDup_app. split; [done|]. split; [|apply NoDup_singleton]. intros k Hk Hin.
      apply list_elem_of_singleton in Hin. apply list_elem_of_fmap in Hk as (x & -> & Hx).
      rewrite Forall_forall in E. apply (E x Hx). apply same_read_key. rewrite Hin. by destruct r.
    + by right.
    + intros r'. rewrite reads_of_app. simpl. case_decide; lia.
Qed.

Lemma find_or_push_others r ep now l l1 i s a b : find_or_push r ep now l = (l1, i, s) -> l1 = a ++ s :: b -> length a = i ->
  forall x, x ∈ a ++ b -> x ∈ l.
Proof.
  unfold find_or_push. destruct (list_find _ l) as [[j y]|] eqn:E; intros [= <- <- <-] El Ha x Hx.
  - rewrite El. apply elem_of_app in Hx. apply elem_of_app. rewrite elem_of_cons. tauto.
  - apply app_inj_1 in El as [<- [= <-]]; [|done]. by rewrite app_nil_r in Hx.
Qed.

Definition reads_in (r : text * text) (events : list json) : Z :=
  Z.of_nat (length (List.filter (fun e => bool_decide (read_of e = Some r)) events)).

Lemma record_event_reads r reply turn ep now f event :
  reads_of r (sources (record_event reply turn ep now f event)) = reads_of r (sources f) + reads_in r [event].
Proof.
  unfold record_event, reads_in. simpl. destruct (read_of event) as [k|] eqn:Ek.
  2:{ rewrite bool_decide_false by congruence. simpl. lia. }
  simpl. destruct (find_or_push k ep now (sources f)) as [[l i] s] eqn:El. apply find_or_push_spec in El as (Hi & Hk & _ & _ & <-). simpl.
  destruct (insert_split l i s (cite (o_cites (read_outcome reply event (touch turn ep now s)) && negb (bool_decide (i ∈ cited_set f)))
    (row (read_outcome reply event (touch turn ep now s)))) Hi) as (a & b & -> & -> & _).
  rewrite !reads_of_app. simpl. pose proof (read_outcome_row reply event (touch turn ep now s)) as ((Ht & Hg & _ & _ & Hr & _) & _).
  destruct (decide (k = r)) as [->|Hne].
  - rewrite (bool_decide_true (Some r = Some r)) by done. simpl. rewrite !decide_True; [rewrite Hr; simpl; lia | by apply same_read_key |].
    apply same_read_key. unfold key. simpl. rewrite Ht, Hg. exact Hk.
  - rewrite (bool_decide_false (Some k = Some r)) by congruence. simpl. rewrite !decide_False; [lia | |].
    all: intros E; apply same_read_key in E; unfold key in *; simpl in E; try rewrite Ht, Hg in E; simpl in E; congruence.
Qed.

Lemma fold_reads r reply turn ep now events f :
  reads_of r (sources (foldl (record_event reply turn ep now) f events)) = reads_of r (sources f) + reads_in r events.
Proof.
  revert f. induction events as [|e events IH]; intros f; simpl; [unfold reads_in; simpl; lia|].
  rewrite IH, record_event_reads. unfold reads_in. simpl. case_bool_decide; simpl; lia.
Qed.

(** ** The loop over a turn's events *)

Record counts_ok (c : TurnSummary) : Prop := {
  c_calls : calls c = oks c + failed c;
  c_nonneg : 0 <= oks c /\ 0 <= failed c;
  c_repeats : 0 <= rereads c <= repeats c /\ repeats c <= calls c;
  c_cut : 0 <= cut c <= oks c;
  c_cites : 0 <= cites_made c <= oks c;
  c_fallbacks : 0 <= fallbacks c <= oks c;
}.

Definition fold_ok (turn ep now : Z) (f : Fold) : Prop :=
  NoDup (key <$> sources f) /\ Forall (fun s => row_ok turn ep now s /\ was_read s) (sources f) /\ counts_ok (counts f).

Lemma count_ok c s turn ep o newly : counts_ok c -> (o_ok o = false -> o_cut o = false /\ o_cites o = false /\ o_fallback o = false) ->
  (newly = true -> o_cites o = true) -> counts_ok (count c (is_repeat turn s) (is_reread turn ep s) o newly).
Proof.
  intros [] Ho Hn. unfold is_reread. pose proof (bit_bounds (o_cut o)). pose proof (bit_bounds newly). pose proof (bit_bounds (o_fallback o)).
  destruct (o_ok o) eqn:Eo.
  - destruct (is_repeat turn s), (epoch s <? ep); constructor; unfold count; simpl; rewrite ?Eo; simpl; lia.
  - destruct (Ho eq_refl) as (Hcut & Hc & Hf). rewrite Hc in Hn. destruct newly; [by discriminate Hn|].
    destruct (is_repeat turn s), (epoch s <? ep); constructor; unfold count; simpl; rewrite ?Eo, ?Hcut, ?Hf; simpl; lia.
Qed.

Lemma cite_row_ok reply event turn ep now s newly : let o := read_outcome reply event s in
  row_ok turn ep now s -> was_read s -> cited s + 1 <= reads s - failures s -> truncated s + 1 <= reads s - failures s ->
  (newly = true -> o_cites o = true) -> row_ok turn ep now (cite newly (row o)) /\ was_read (cite newly (row o)).
Proof.
  intros o [? ? [? ?] ? ? ? ? ? ? Hturns] [Hr Hne] Hc Htr Hn.
  destruct (read_outcome_row reply event s) as ((E1 & E2 & E3 & E4 & E5 & E6 & E7 & E8 & E9) & E10 & E11 & Hfail & _). fold o in E1, E2, E3, E4, E5, E6, E7, E8, E9, E10, E11, Hfail.
  pose proof (bit_bounds (o_cut o)). pose proof (bit_bounds newly).
  assert (Hbits : o_ok o = false -> o_cut o = false /\ newly = false).
  { intros Eo. destruct (Hfail Eo) as (-> & Hcf & _). split; [done|]. destruct newly; [|done]. rewrite Hn in Hcf by done. done. }
  split; [constructor; simpl | split; simpl; [lia | congruence]].
  all: rewrite ?E1, ?E2, ?E3, ?E4, ?E5, ?E6, ?E7, ?E8, ?E9, ?E10, ?E11; try done.
  all: destruct (o_ok o); simpl; [lia | destruct Hbits as [Hb1 Hb2]; [done | rewrite ?Hb1, ?Hb2; simpl; lia]].
Qed.

Lemma record_event_ok reply turn ep now f event : 0 <= now -> fold_ok turn ep now f -> fold_ok turn ep now (record_event reply turn ep now f event).
Proof.
  intros Hnow (Hnd & Hrows & Hc). unfold record_event. destruct (read_of event) as [r|] eqn:Er; [|done].
  simpl. destruct (find_or_push r ep now (sources f)) as [[l i] s] eqn:El.
  pose proof (find_or_push_spec _ _ _ _ _ _ _ El) as (Hi & Hk & Hnd1 & Hl & _). set (o := read_outcome reply event (touch turn ep now s)).
  set (newly := o_cites o && negb (bool_decide (i ∈ cited_set f))).
  assert (Hnewly : newly = true -> o_cites o = true) by (unfold newly; intros; guards; done).
  assert (Hs : row_ok turn ep now s).
  { destruct Hl as [->|[_ ->]]; [by apply (Forall_lookup_1 _ _ _ _ Hrows Hi)|]. apply read_of_ok in Er as [? ?].
    constructor; simpl; try done; try lia; try tauto. split; [constructor|]. split; [unfold TURNS_KEPT; lia | constructor]. }
  destruct (touch_ok turn ep now ep now s (Z.le_refl _) (Z.le_refl _) Hs) as (Ht & Hw & Hci & Htr).
  destruct (cite_row_ok reply event turn ep now (touch turn ep now s) newly Ht Hw) as [Hrow Hread]; try done.
  pose proof (read_outcome_row reply event (touch turn ep now s)) as ((E1 & E2 & _) & _ & _ & Hfail & _).
  split_and!; simpl.
  - destruct (insert_split l i s (cite newly (row o)) Hi) as (a & b & Ea & -> & _). specialize (Hnd1 Hnd). rewrite Ea in Hnd1.
    rewrite fmap_app, fmap_cons in *. unfold key in Hnd1 at 2. unfold key at 2. simpl. unfold o. rewrite E1, E2. exact Hnd1.
  - destruct (insert_split l i s (cite newly (row o)) Hi) as (a & b & Ea & -> & Ha).
    pose proof (find_or_push_others r ep now (sources f) l i s a b El Ea Ha) as Hin. rewrite Forall_forall in Hrows |- *.
    intros x Hx. apply elem_of_app in Hx as [Hx|Hx]; [apply Hrows, Hin, elem_of_app; auto|].
    apply elem_of_cons in Hx as [->|Hx]; [done | apply Hrows, Hin, elem_of_app; auto].
  - by apply count_ok.
Qed.

Lemma fold_preserves (P : Fold -> Prop) reply turn ep now events f :
  (forall f e, e ∈ events -> P f -> P (record_event reply turn ep now f e)) -> P f -> P (foldl (record_event reply turn ep now) f events).
Proof.
  revert f. induction events as [|e events IH]; intros f Hstep Hf; simpl; [done|].
  apply IH; [intros; apply Hstep; [by right | done] | apply Hstep; [by left | done]].
Qed.

Definition reads_made (events : list json) : Z :=
  Z.of_nat (length (List.filter (fun e => bool_decide (is_Some (read_of e))) events)).

Lemma fold_calls reply turn ep now events f :
  calls (counts (foldl (record_event reply turn ep now) f events)) = calls (counts f) + reads_made events.
Proof.
  revert f. induction events as [|e events IH]; intros f; simpl; [unfold reads_made; simpl; lia|].
  rewrite IH. unfold reads_made, record_event. simpl. destruct (read_of e) as [r|]; simpl; [|done].
  destruct (find_or_push r ep now (sources f)) as [[l i] s]. simpl. lia.
Qed.

Lemma fold_no_reads reply turn ep now events f : reads_made events = 0 ->
  sources (foldl (record_event reply turn ep now) f events) = sources f.
Proof.
  revert f. induction events as [|e events IH]; intros f; simpl; [done|]. unfold reads_made. simpl.
  case_bool_decide as He; simpl; [lia|]. intros Hn. rewrite IH by done. unfold record_event.
  destruct (read_of e); [destruct He; eauto | done].
Qed.

(** Where the strings of a row come from: the asked targets and the codes, and
    nothing else of an event. *)
Definition asked (l0 : list WebSource) (events : list json) (s : WebSource) : Prop :=
  ((exists s0, s0 ∈ l0 /\ key s = key s0) \/ exists e, e ∈ events /\ read_of e = Some (key s))
  /\ (last_code s = None \/ (exists s0, s0 ∈ l0 /\ last_code s = last_code s0)
      \/ exists e, e ∈ events /\ last_code s = as_str (index e (T "code"))).

Lemma record_event_asked l0 events reply turn ep now f e : e ∈ events ->
  Forall (asked l0 events) (sources f) -> Forall (asked l0 events) (sources (record_event reply turn ep now f e)).
Proof.
  intros He Hf. unfold record_event. destruct (read_of e) as [r|] eqn:Er; [|done]. simpl.
  destruct (find_or_push r ep now (sources f)) as [[l i] s] eqn:El. simpl.
  pose proof (find_or_push_spec _ _ _ _ _ _ _ El) as (Hi & Hk & _).
  set (o := read_outcome reply e (touch turn ep now s)). set (newly := o_cites o && _).
  destruct (insert_split l i s (cite newly (row o)) Hi) as (a & b & Ea & -> & Ha).
  pose proof (find_or_push_others r ep now (sources f) l i s a b El Ea Ha) as Hin. rewrite Forall_forall in Hf |- *.
  intros x Hx. apply elem_of_app in Hx as [Hx|Hx]; [apply Hf, Hin, elem_of_app; auto|].
  apply elem_of_cons in Hx as [->|Hx]; [|apply Hf, Hin, elem_of_app; auto].
  destruct (read_outcome_row reply e (touch turn ep now s)) as ((Et & Eg & _) & _ & _ & _ & Ecode). fold o in Et, Eg, Ecode.
  assert (Ekey : key (cite newly (row o)) = r) by (unfold key in *; simpl; rewrite Et, Eg; exact Hk).
  split; [right; exists e; by rewrite Ekey|]. simpl. rewrite Ecode. destruct (o_ok o); [by left | right; right; by exists e].
Qed.

(** ** Eviction *)

Lemma oldest_from_spec best ts i l : (best < i)%nat ->
  let j := oldest_from best ts i l in
  (j = best /\ (forall s, s ∈ l -> ts <= last_ts s)) \/
  (i <= j)%nat /\ exists o, l !! (j - i)%nat = Some o /\ last_ts o <= ts /\ forall s, s ∈ l -> last_ts o <= last_ts s.
Proof.
  revert best ts i. induction l as [|x l IH]; intros best ts i Hb; simpl; [left; split; [done|]; intros s Hs; by apply not_elem_of_nil in Hs|].
  destruct (Z.ltb_spec (last_ts x) ts) as [Hlt|Hge].
  - destruct (IH i (last_ts x) (S i) ltac:(lia)) as [[-> Hall]|(Hj & o & Ho & Hle & Hall)]; right.
    + split; [done|]. exists x. rewrite Nat.sub_diag. split; [done|]. split; [lia|].
      intros s Hs. apply elem_of_cons in Hs as [->|Hs]; [lia | auto].
    + set (j := oldest_from i (last_ts x) (S i) l) in *. split; [lia|]. exists o. replace (j - i)%nat with (S (j - S i)) by lia.
      split; [done|]. split; [lia|]. intros s Hs. apply elem_of_cons in Hs as [->|Hs]; [lia | auto].
  - destruct (IH best ts (S i) ltac:(lia)) as [[-> Hall]|(Hj & o & Ho & Hle & Hall)]; [left|right].
    + split; [done|]. intros s Hs. apply elem_of_cons in Hs as [->|Hs]; [lia | auto].
    + set (j := oldest_from best ts (S i) l) in *. split; [lia|]. exists o. replace (j - i)%nat with (S (j - S i)) by lia.
      split; [done|]. split; [lia|]. intros s Hs. apply elem_of_cons in Hs as [->|Hs]; [lia | auto].
Qed.

Lemma oldest_spec l : l <> [] -> exists o, l !! oldest l = Some o /\ forall s, s ∈ l -> last_ts o <= last_ts s.
Proof.
  destruct l as [|x l]; [done|]. intros _. unfold oldest.
  destruct (oldest_from_spec 0 (last_ts x) 1 l ltac:(lia)) as [[-> Hall]|(Hj & o & Ho & Hle & Hall)].
  - exists x. split; [done|]. intros s Hs. apply elem_of_cons in Hs as [->|Hs]; [lia | auto].
  - set (j := oldest_from 0 (last_ts x) 1 l) in *. exists o. destruct j as [|j]; [lia|].
    replace (S j - 1)%nat with j in Ho by lia. split; [done|]. intros s Hs. apply elem_of_cons in Hs as [->|Hs]; [lia | auto].
Qed.

Lemma evict_spec fuel l : (length l <= fuel)%nat -> let l' := evict fuel l in
  l' `sublist_of` l /\ length l' = Nat.min MAX_SOURCES (length l)
  /\ forall d k, d ∈ l -> d ∉ l' -> k ∈ l' -> last_ts d <= last_ts k.
Proof.
  revert l. induction fuel as [|fuel IH]; intros l Hl.
  { destruct l; simpl in *; [|lia]. split_and!; [done | done |]. intros d k Hd. by apply not_elem_of_nil in Hd. }
  cbn [evict]. destruct (Nat.ltb_spec MAX_SOURCES (length l)) as [Hlt|Hge].
  2:{ split_and!; [done | unfold MAX_SOURCES in *; lia |]. intros d k Hd Hn. done. }
  destruct (oldest_spec l) as (o & Ho & Hmin); [intros ->; simpl in Hlt; unfold MAX_SOURCES in Hlt; lia|].
  assert (Hlen : length (delete (oldest l) l) = (length l - 1)%nat).
  { pose proof (length_delete l (oldest l) (mk_is_Some _ _ Ho)). lia. }
  destruct (IH (delete (oldest l) l) ltac:(lia)) as (Hsub & Hmin' & Hold).
  split_and!.
  - etrans; [exact Hsub | apply sublist_delete].
  - rewrite Hmin', Hlen. unfold MAX_SOURCES in *. lia.
  - intros d k Hd Hn Hk. rewrite <- (take_drop_middle _ _ _ Ho) in Hd.
    assert (Hd' : d = o \/ d ∈ delete (oldest l) l).
    { rewrite delete_take_drop, elem_of_app. apply elem_of_app in Hd as [Hd|Hd]; [by right; left|]. apply elem_of_cons in Hd as [->|Hd]; [by left | by right; right]. }
    destruct Hd' as [->|Hd']; [|by eapply Hold]. apply Hmin. eapply elem_of_sublist; [exact Hk|]. etrans; [exact Hsub | apply sublist_delete].
Qed.

(** ** The ledger *)

Record ledger_ok (turn ep now : Z) (l : list WebSource) : Prop := {
  ledger_bounded : (length l <= MAX_SOURCES)%nat;
  ledger_keys : NoDup (key <$> l);
  ledger_rows : Forall (fun s => row_ok turn ep now s /\ was_read s) l;
}.

Lemma fold_turn_ok turn0 ep0 now0 l events reply turn ep now :
  ledger_ok turn0 ep0 now0 l -> turn0 <= turn -> ep0 <= ep -> now0 <= now -> 0 <= now ->
  fold_ok turn ep now (fold_turn l events reply turn ep now).
Proof.
  intros [_ Hk Hr] Ht He Hn Hn0. unfold fold_turn. apply (fold_preserves (fold_ok turn ep now)); [intros; by apply record_event_ok|].
  split; [done|]. split; [|constructor; simpl; lia]. eapply Forall_impl; [exact Hr|]. intros s [Hs Hw]. split; [by apply (row_ok_mono turn0 ep0 now0) | done].
Qed.

Lemma sublist_keeps {A} (P : A -> Prop) (l l' : list A) : l' `sublist_of` l -> Forall P l -> Forall P l'.
Proof. rewrite !Forall_forall. intros Hs Hl x Hx. apply Hl. by eapply elem_of_sublist. Qed.

Lemma record_turn_ledger turn0 ep0 now0 l events reply turn ep now l' summary :
  ledger_ok turn0 ep0 now0 l -> turn0 <= turn -> ep0 <= ep -> now0 <= now -> 0 <= now ->
  record_turn l events reply turn ep now = (l', summary) -> ledger_ok turn ep now l'.
Proof.
  intros Hl Ht He Hn Hn0 H. destruct (fold_turn_ok _ _ _ _ events reply _ _ _ Hl Ht He Hn Hn0) as (Hnd & Hrows & Hcounts).
  pose proof (fold_calls reply turn ep now events (MkFold l zero_counts ∅ ∅ ∅)) as Hcalls. fold (fold_turn l events reply turn ep now) in Hcalls.
  unfold record_turn in H. set (all := sources (fold_turn l events reply turn ep now)) in *.
  destruct (_ && _) eqn:Ez; injection H as <- _.
  - guards. assert (Hsame : all = l).
    { apply (fold_no_reads reply turn ep now events (MkFold l zero_counts ∅ ∅ ∅)). simpl in Hcalls. lia. }
    constructor; [rewrite Hsame; apply Hl | done | done].
  - destruct (evict_spec (length all) all (le_n _)) as (Hsub & Hlen & _).
    constructor; [lia | eapply sublist_NoDup; [exact Hnd | by apply fmap_sublist] | by eapply sublist_keeps].
Qed.

(** the ledger of a session stays sound, whatever the tools report: at most
    500 targets, no target twice, every row within its bounds (the tool, a
    target of 1 to 1024 characters, no more failures, cut pages or citations
    than reads, at most eight increasing turn numbers).  The rows that a turn
    leaves are the rows it read or kept, in their order; only when there are
    too many do some go, and none that was read later than one that stays.
    Each row counts exactly the reads that the events report of it, on top of
    what it had, and its strings are a target that was asked for or an error
    code: no page text, title or snippet.  The counts for the audit line add
    up. *)
Theorem web_ledger_sound turn0 ep0 now0 l events reply turn ep now l' summary :
  ledger_ok turn0 ep0 now0 l -> turn0 <= turn -> ep0 <= ep -> now0 <= now -> 0 <= now ->
  record_turn l events reply turn ep now = (l', summary) ->
  let all := sources (fold_turn l events reply turn ep now) in
  ledger_ok turn ep now l'
  /\ (l' `sublist_of` all /\ length l' = Nat.min MAX_SOURCES (length all)
      /\ forall d k, d ∈ all -> d ∉ l' -> k ∈ l' -> last_ts d <= last_ts k)
  /\ (forall s, s ∈ l' -> reads s = reads_of (key s) l + reads_in (key s) events)
  /\ Forall (asked l events) l'
  /\ match summary with
     | None => l' = l /\ reads_made events = 0
     | Some c => counts_ok c /\ calls c = reads_made events
     end.
Proof.
  intros Hl Ht He Hn Hn0 H all. split; [by eapply record_turn_ledger|]. pose proof (fold_turn_ok _ _ _ _ events reply _ _ _ Hl Ht He Hn Hn0) as (Hnd & Hrows & Hcounts).
  assert (Hasked : Forall (asked l events) all).
  { apply (fold_preserves (fun f => Forall (asked l events) (sources f))); [intros; by apply record_event_asked|]. simpl.
    apply Forall_forall. intros s Hs. split; [left; eauto | right; left; eauto]. }
  assert (Hreads : forall s, s ∈ all -> reads s = reads_of (key s) l + reads_in (key s) events).
  { intros s Hs. rewrite <- (reads_of_in all s) by done. apply fold_reads. }
  pose proof (fold_calls reply turn ep now events (MkFold l zero_counts ∅ ∅ ∅)) as Hcalls. fold (fold_turn l events reply turn ep now) in Hcalls.
  unfold record_turn in H. destruct (_ && _) eqn:Ez; injection H as <- <-.
  - guards. assert (Hr0 : reads_made events = 0) by (simpl in Hcalls; lia).
    assert (Hsame : all = l) by (by apply (fold_no_reads reply turn ep now events (MkFold l zero_counts ∅ ∅ ∅))).
    fold all. split; [split; [done|]; split; [rewrite Hsame; destruct Hl; lia | done]|]. done.
  - destruct (evict_spec (length all) all (le_n _)) as (Hsub & Hlen & Hold). fold all.
    split; [done|]. split; [intros s Hs; apply Hreads; by eapply elem_of_sublist|]. split; [by eapply sublist_keeps|].
    simpl. split; [destruct Hcounts; by constructor | exact Hcalls].
Qed.

(** ** Carried rows stay on their lines *)

Definition plain (t : text) : Prop := Forall (fun c => is_control c = false) t.

Lemma trim_start_Forall (P : char -> Prop) f s : Forall P s -> Forall P (trim_start f s).
Proof. induction 1 as [|c s Hc Hs IH]; simpl; [constructor|]. destruct (f c); [done | by constructor]. Qed.

Lemma trim_Forall (P : char -> Prop) s : Forall P s -> Forall P (trim s).
Proof. intros H. unfold trim, trim_end. apply Forall_rev, trim_start_Forall, Forall_rev, trim_start_Forall, H. Qed.

Lemma row_target_plain t : plain (row_target t).
Proof.
  unfold plain, row_target. apply Forall_take. apply trim_Forall, Forall_map, Forall_forall. intros c _. by destruct (is_control c) eqn:E.
Qed.

Lemma show_plain n : 0 <= n -> plain (show_nat n).
Proof.
  intros Hn. eapply Forall_impl; [by apply show_nat_digits|]. simpl. intros c Hc. unfold is_ascii_digit, is_control, in_range in *. lia.
Qed.

Lemma join_plain sep ws : plain sep -> Forall plain ws -> plain (join sep ws).
Proof.
  intros Hs. induction 1 as [|w ws Hw Hws IH]; simpl; [constructor|]. destruct ws; [done|]. by repeat apply Forall_app_2.
Qed.

Lemma T_plain s : forallb (fun c => negb (is_control c)) (T s) = true -> plain (T s).
Proof. unfold plain. rewrite forallb_forall, Forall_forall. intros H c Hc. apply list_elem_of_In in Hc. apply H in Hc. by apply negb_true_iff in Hc. Qed.

Ltac plains :=
  repeat first [ apply Forall_app_2 | apply row_target_plain | apply T_plain; reflexivity | apply show_plain; lia
               | by repeat constructor | match goal with |- plain (if ?b then _ else _) => destruct b end ].

Lemma carry_row_plain s : 0 <= hits s -> Forall (fun t => 0 <= t) (turns s) -> plain (carry_row s).
Proof.
  intros Hh Ht. assert (Hturns : plain (join (T ", ") (map show_nat (turns s)))).
  { apply join_plain; [by apply T_plain|]. apply Forall_map. eapply Forall_impl; [exact Ht|]. apply show_plain. }
  unfold carry_row. set (js := join _ _) in *. destruct (teqb (tool s) WEB_FETCH), (0 <? cited s), (0 <? truncated s); by plains.
Qed.

Lemma split_on_lines ls : Forall (fun l => c_newline ∉ l) ls ->
  split_on c_newline (concat (map (fun line => line ++ [c_newline]) ls)) = ls ++ [[]].
Proof.
  induction 1 as [|l ls Hl _ IH]; simpl; [done|]. rewrite <- app_assoc. simpl. rewrite split_on_app_sep by done. by rewrite IH.
Qed.

Lemma plain_no_newline t : plain t -> c_newline ∉ t.
Proof. unfold plain. rewrite Forall_forall. intros H Hin. by apply H in Hin. Qed.

Section Carried.
Context (lower : text -> text) (alphanumeric : char -> bool) (permitted : text -> bool).
#[local] Existing Instance carried_before_dec.

#[local] Instance carried_before_trans goal : Transitive (carried_before lower alphanumeric goal).
Proof. intros a b c. unfold carried_before. lia. Qed.
#[local] Instance carried_before_total goal : Total (carried_before lower alphanumeric goal).
Proof. intros a b. unfold carried_before. lia. Qed.

(** what a later web turn's prompt carries of the ledger.  The block is a
    header and one line for each row, whatever the targets contain: no row has
    a line break or another control character, so no target can break out of
    its row.  Each row is a target whose latest read succeeded, and a fetched
    page is listed only while the current policy permits its URL.  At most
    [rows] of them are listed, best first, and none that is left out ranks
    before a listed one.  There is no block only when no rows are wanted or
    none qualifies. *)
Theorem carried_rows_sealed l goal rows :
  Forall (fun s => 0 <= hits s /\ Forall (fun t => 0 <= t) (turns s)) l ->
  match carry_forward lower alphanumeric permitted l goal rows with
  | None => rows = 0%nat \/ forall s, s ∈ l -> eligible permitted s = false
  | Some block =>
      exists picked note,
        split_on c_newline block = HEADER_TEXT :: map carry_row picked ++ note ++ [[]]
        /\ Forall plain (map carry_row picked) /\ (length note <= 1)%nat
        /\ (1 <= length picked <= rows)%nat
        /\ Forall (fun s => s ∈ l /\ last_code s = None /\ (tool s = WEB_FETCH -> permitted (target s) = true)) picked
        /\ StronglySorted (carried_before lower alphanumeric goal) picked
        /\ (forall d, d ∈ l -> eligible permitted d = true -> d ∉ picked ->
              note <> [] /\ forall k, k ∈ picked -> carried_before lower alphanumeric goal k d)
  end.
Proof.
  intros Hl. unfold carry_forward. destruct (Nat.eqb_spec rows 0) as [->|Hrows]; [by left|].
  set (pool := List.filter (eligible permitted) l). set (all := merge_sort _ pool). cbv zeta.
  assert (Hin : forall s, s ∈ all <-> s ∈ l /\ eligible permitted s = true).
  { intros s. unfold all. rewrite merge_sort_Permutation. unfold pool. rewrite !list_elem_of_In. apply filter_In. }
  case_bool_decide as Hall.
  { right. intros s Hs. apply not_true_is_false. intros He. assert (s ∈ all) by by apply Hin. rewrite Hall in *. by eapply not_elem_of_nil. }
  pose proof (StronglySorted_merge_sort (carried_before lower alphanumeric goal) pool) as Hsorted. fold all in Hsorted.
  set (note := if (0 <? length all - rows)%nat then [omitted_note (length all - rows)] else []).
  exists (take rows all), note.
  assert (Hpl : Forall plain (map carry_row (take rows all))).
  { apply Forall_map. apply Forall_take. apply Forall_forall. intros s Hs. apply Hin in Hs as [Hs _]. rewrite Forall_forall in Hl.
    destruct (Hl s Hs). by apply carry_row_plain. }
  assert (Hnote : Forall plain note).
  { unfold note. destruct (_ <? _)%nat; repeat constructor. unfold omitted_note. by plains. }
  split_and!; try done.
  - rewrite split_on_lines; [by rewrite <- app_comm_cons, <- app_assoc|]. eapply Forall_impl; [|exact plain_no_newline].
    constructor; [unfold HEADER_TEXT; by plains | by apply Forall_app].
  - unfold note. destruct (_ <? _)%nat; simpl; lia.
  - rewrite length_take. destruct all; [done|]. simpl. lia.
  - rewrite length_take. lia.
  - apply Forall_take, Forall_forall. intros s Hs. apply Hin in Hs as [Hs He]. split; [done|]. unfold eligible in He. guards.
    split; [done|]. intros Et. apply orb_true_iff in H0 as [Hf|Hf]; [|done]. rewrite Et in Hf. by rewrite teqb_refl in Hf.
  - rewrite <- (take_drop rows all) in Hsorted. by eapply StronglySorted_app_1_l.
  - intros d Hd He Hn. assert (Hda : d ∈ all) by by apply Hin. rewrite <- (take_drop rows all) in Hda.
    apply elem_of_app in Hda as [Hda|Hda]; [done|]. split.
    + assert (length (drop rows all) <> 0)%nat by (intros E; apply length_zero_iff_nil in E; rewrite E in Hda; by apply not_elem_of_nil in Hda).
      rewrite length_drop in H. unfold note. destruct (Nat.ltb_spec 0 (length all - rows)); [done | lia].
    + intros k Hk. rewrite <- (take_drop rows all) in Hsorted. by eapply StronglySorted_app_1_elem_of.
Qed.
End Carried.

(** ** A small session *)

Module SmallLedger.
Definition fetch (url body : text) : json :=
  JObj [(T "tool", JStr WEB_FETCH); (T "ok", JBool true); (T "target", JStr url);
        (T "result", JObj [(T "url", JStr url); (T "text", JStr body); (T "source_chars", JInt 10)])].
Definition denied : json :=
  JObj [(T "tool", JStr WEB_FETCH); (T "ok", JBool false); (T "target", JStr (T "https://denied.example/x")); (T "code", JStr (T "WEB_HOST_DENIED"))].
Definition events : list json := [fetch (T "https://docs.example/a") (T "abc"); denied; fetch (T "https://docs.example/a") (T "abc")].
Definition after : list WebSource * option TurnSummary := record_turn [] events (T "See docs.example/a.") 1 0 5.

Lemma web_ledger_sound_witness : length (fst after) = 2%nat /\ ledger_ok 1 0 5 (fst after).
Proof.
  assert (H0 : ledger_ok 0 0 0 []) by (constructor; [apply Nat.le_0_l | constructor | constructor]).
  split; [vm_compute; reflexivity|].
  refine (proj1 (web_ledger_sound 0 0 0 [] events (T "See docs.example/a.") 1 0 5 (fst after) (snd after) H0 _ _ _ _ _)); [lia | lia | lia | lia |].
  unfold after. apply surjective_pairing.
Defined.

Definition crafted : WebSource :=
  MkWebSource WEB_SEARCH (T "borrow checker" ++ [c_newline] ++ T "- fetched x") 1 3 1 0 None 0 0 5 0 1 0 0 [3].
Definition carried : option text := carry_forward id is_ascii_alphanumeric (fun _ => true) [crafted] (T "the borrow rules") 2.

Lemma carried_rows_sealed_witness : exists block picked note, carried = Some block
  /\ split_on c_newline block = HEADER_TEXT :: map carry_row picked ++ note ++ [[]] /\ (1 <= length picked <= 2)%nat.
Proof.
  pose proof (carried_rows_sealed id is_ascii_alphanumeric (fun _ => true) [crafted] (T "the borrow rules") 2) as H.
  assert (Hl : Forall (fun s => 0 <= hits s /\ Forall (fun t => 0 <= t) (turns s)) [crafted]) by (repeat constructor; vm_compute; done).
  specialize (H Hl). fold carried in H. destruct carried as [block|] eqn:E; [|vm_compute in E; discriminate E].
  destruct H as (picked & note & Hs & _ & _ & Hlen & _). by exists block, picked, note.
Defined.
End SmallLedger.
