(* ===== verification/Tables.v ===== *)
(** Lists of rows as the tables of a store: [UPDATE .. WHERE], [DELETE ..
    WHERE], counts, the rows of one owner and the rows of the others. *)

From S2P Require Import Prelude Text.
Local Open Scope Z_scope.

Definition count {A} (p : A -> bool) (l : list A) : Z := Z.of_nat (length (List.filter p l)).
Definition sum_of {A} (w : A -> Z) (l : list A) : Z := foldr (fun x n => w x + n) 0 l.
Definition update_where {A} (p : A -> bool) (g : A -> A) (l : list A) : list A := map (fun x => if p x then g x else x) l.
Definition delete_where {A} (p : A -> bool) (l : list A) : list A := List.filter (fun x => negb (p x)) l.

(** The rows of [o] and those of everybody else. *)
Definition mine {A} (owner : A -> text) (o : text) (l : list A) : list A := List.filter (fun x => teqb (owner x) o) l.
Definition foreign {A} (owner : A -> text) (o : text) (l : list A) : list A := List.filter (fun x => negb (teqb (owner x) o)) l.

(** The first occurrence goes. *)
Fixpoint remove_one {A} `{EqDecision A} (x : A) (l : list A) : list A :=
  match l with
  | [] => []
  | y :: l => if decide (x = y) then l else y :: remove_one x l
  end.

Section Rows.
Context {A : Type}.
Implicit Types (l : list A) (p : A -> bool).

Lemma table_count_nonneg p l : 0 <= count p l.
Proof. unfold count. lia. Qed.
Lemma count_nil p : count p [] = 0.
Proof. done. Qed.
Lemma count_app p l k : count p (l ++ k) = count p l + count p k.
Proof. unfold count. rewrite List.filter_app, length_app. lia. Qed.
Lemma table_count_cons p x l : count p (x :: l) = (if p x then 1 else 0) + count p l.
Proof. unfold count. simpl. destruct (p x); cbn [length]; lia. Qed.
Lemma sum_of_app (w : A -> Z) l k : sum_of w (l ++ k) = sum_of w l + sum_of w k.
Proof. unfold sum_of. induction l as [|x l IH]; cbn [foldr app]; lia. Qed.
Lemma sum_of_nonneg (w : A -> Z) l : Forall (fun x => 0 <= w x) l -> 0 <= sum_of w l.
Proof. unfold sum_of. induction 1; cbn [foldr]; lia. Qed.

Lemma count_snoc p l x : count p (l ++ [x]) = count p l + (if p x then 1 else 0).
Proof. rewrite count_app, table_count_cons, count_nil. lia. Qed.

Lemma filter_count_le p q l : (forall x, x ∈ l -> p x = true -> q x = true) -> count p l <= count q l.
Proof.
  induction l as [|x l IH]; intros H; [done|]. rewrite !table_count_cons.
  specialize (IH (fun y Hy => H y (list_elem_of_further _ _ _ Hy))). specialize (H x (list_elem_of_here _ _)).
  destruct (p x), (q x); lia.
Qed.

Lemma elem_of_Filter p l x : x ∈ List.filter p l <-> p x = true /\ x ∈ l.
Proof. rewrite !list_elem_of_In, filter_In. tauto. Qed.

#[export] Instance Filter_proper p : Proper ((≡ₚ) ==> (≡ₚ)) (List.filter p).
Proof.
  induction 1; cbn [List.filter]; repeat match goal with |- context [if p ?x then _ else _] => destruct (p x) end; eauto using Permutation.
Qed.

Lemma Filter_ext_in p q l : (forall x, x ∈ l -> p x = q x) -> List.filter p l = List.filter q l.
Proof. intros H. apply filter_ext_in. intros x Hx. apply H, list_elem_of_In, Hx. Qed.

Lemma count_delete_le p q l : count p (delete_where q l) <= count p l.
Proof.
  induction l as [|x l IH]; [done|]. unfold delete_where in *. cbn [List.filter]. destruct (q x); cbn [negb]; rewrite ?table_count_cons in *; destruct (p x); lia.
Qed.
Lemma sum_delete_le (w : A -> Z) p q l : Forall (fun x => 0 <= w x) l ->
  sum_of w (List.filter p (delete_where q l)) <= sum_of w (List.filter p l).
Proof.
  induction 1 as [|x l Hx Hl IH]; [done|]. unfold delete_where in *. cbn [List.filter].
  destruct (q x); cbn [negb List.filter]; destruct (p x); unfold sum_of in *; cbn [foldr]; lia.
Qed.
Lemma count_update_le p q (g : A -> A) l : (forall x, p (g x) = true -> p x = true) -> count p (update_where q g l) <= count p l.
Proof.
  intros H. induction l as [|x l IH]; [done|]. unfold update_where in *. cbn [map]. rewrite !table_count_cons.
  destruct (q x); [|destruct (p x); lia]. specialize (H x). destruct (p (g x)), (p x); lia.
Qed.

Lemma elem_of_delete p l x : x ∈ delete_where p l <-> x ∈ l /\ p x = false.
Proof. unfold delete_where. rewrite elem_of_Filter, negb_true_iff. tauto. Qed.
Lemma elem_of_update p (g : A -> A) l y :
  y ∈ update_where p g l <-> exists x, x ∈ l /\ ((p x = true /\ y = g x) \/ (p x = false /\ y = x)).
Proof.
  unfold update_where. rewrite list_elem_of_In, in_map_iff. split.
  - intros (x & <- & Hx). exists x. rewrite list_elem_of_In. split; [done|]. destruct (p x); auto.
  - intros (x & Hx & [[E ->]|[E ->]]); exists x; rewrite E, <- list_elem_of_In; auto.
Qed.

Lemma map_update {B} (k : A -> B) p (g : A -> A) l : (forall x, k (g x) = k x) -> map k (update_where p g l) = map k l.
Proof. intros H. unfold update_where. rewrite map_map. apply map_ext. intros x. destruct (p x); auto. Qed.

Lemma NoDup_map_Filter {B} (k : A -> B) p l : NoDup (map k l) -> NoDup (map k (List.filter p l)).
Proof.
  induction l as [|x l IH]; [done|]. cbn [map List.filter]. rewrite NoDup_cons. intros [Hx Hl].
  destruct (p x); [|auto]. cbn [map]. apply NoDup_cons. split; [|auto].
  rewrite !list_elem_of_fmap in *. intros (y & E & Hy). apply Hx. exists y. split; [done|]. apply elem_of_Filter in Hy. tauto.
Qed.
Lemma NoDup_map_snoc {B} (k : A -> B) l x : NoDup (map k l) -> k x ∉ map k l -> NoDup (map k (l ++ [x])).
Proof. intros H Hx. rewrite map_app. apply NoDup_app. repeat split; [done | | apply NoDup_singleton]. cbn [map]. set_solver. Qed.
Lemma NoDup_map_inj {B} (k : A -> B) l x y : NoDup (map k l) -> x ∈ l -> y ∈ l -> k x = k y -> x = y.
Proof.
  induction l as [|z l IH]; [set_solver|]. cbn [map]. rewrite NoDup_cons. intros [Hz Hl] Hx Hy E.
  apply elem_of_cons in Hx as [->|Hx], Hy as [->|Hy]; auto; destruct Hz; [rewrite E | rewrite <- E]; apply list_elem_of_fmap; eauto.
Qed.
Lemma existsb_key (k : A -> text) l id : existsb (fun y => teqb (k y) id) l = false <-> id ∉ map k l.
Proof.
  rewrite <- not_true_iff_false, existsb_exists. split; intros H H2; apply H.
  - apply list_elem_of_fmap in H2 as (x & -> & Hx). exists x. rewrite <- list_elem_of_In, teqb_refl. auto.
  - destruct H2 as (x & Hx & E%teqb_eq). apply list_elem_of_fmap. exists x. rewrite list_elem_of_In. auto.
Qed.

(** An update that meets one row. *)
Lemma update_where_none p (g : A -> A) l : (forall y, y ∈ l -> p y = false) -> update_where p g l = l.
Proof.
  intros H. unfold update_where. rewrite <- (map_id l) at 2. apply map_ext_in.
  intros y Hy%list_elem_of_In. by rewrite H.
Qed.
Lemma update_where_split {B} (k : A -> B) p (g : A -> A) l x :
  NoDup (map k l) -> x ∈ l -> p x = true -> (forall y, p y = true -> k y = k x) ->
  exists l1 l2, l = l1 ++ x :: l2 /\ update_where p g l = l1 ++ g x :: l2.
Proof.
  intros Hnd Hx Hp Hk. apply list_elem_of_split in Hx as (l1 & l2 & ->). exists l1, l2. split; [done|].
  rewrite map_app in Hnd. cbn [map] in Hnd. apply NoDup_app in Hnd as (_ & H1 & H2).
  apply NoDup_cons in H2 as [H2 _].
  assert (forall y, y ∈ l1 -> p y = false) as F1.
  { intros y Hy; apply not_true_is_false; intros E. apply (H1 (k y)); [apply list_elem_of_fmap; eauto|]. rewrite (Hk _ E). left. }
  assert (forall y, y ∈ l2 -> p y = false) as F2.
  { intros y Hy; apply not_true_is_false; intros E. apply H2. rewrite <- (Hk _ E). apply list_elem_of_fmap; eauto. }
  transitivity (update_where p g l1 ++ update_where p g (x :: l2)); [apply map_app|].
  rewrite (update_where_none p g l1 F1). f_equal. cbn [update_where map]. rewrite Hp. f_equal. by apply update_where_none.
Qed.
Lemma find_elem p l x : List.find p l = Some x -> x ∈ l /\ p x = true.
Proof. intros [H1 H2]%find_some. split; [by apply list_elem_of_In | done]. Qed.
Lemma find_unique {B} (k : A -> B) p l x :
  NoDup (map k l) -> x ∈ l -> p x = true -> (forall y, p y = true -> k y = k x) -> List.find p l = Some x.
Proof.
  intros Hnd Hx Hp Hk. destruct (List.find p l) as [y|] eqn:E.
  - apply find_elem in E as [Hy Hpy]. f_equal. eapply NoDup_map_inj; eauto.
  - apply list_elem_of_In in Hx. by rewrite (find_none _ _ E _ Hx) in Hp.
Qed.

Lemma remove_one_perm `{EqDecision A} (x : A) l : x ∈ l -> l ≡ₚ x :: remove_one x l.
Proof.
  induction l as [|y l IH]; [set_solver|]. intros H. cbn [remove_one]. destruct (decide (x = y)) as [->|N]; [done|].
  apply elem_of_cons in H as [->|H]; [done|]. rewrite (IH H) at 1. apply perm_swap.
Qed.
Lemma remove_one_cons `{EqDecision A} (x : A) l k : l ≡ₚ x :: k -> remove_one x l ≡ₚ k.
Proof.
  intros H. apply (Permutation_cons_inv (a := x)). rewrite <- remove_one_perm; [done|]. rewrite H. left.
Qed.
Lemma remove_one_absent `{EqDecision A} (x : A) l : x ∉ l -> remove_one x l = l.
Proof.
  induction l as [|y l IH]; [done|]. rewrite not_elem_of_cons. intros [N H]. cbn [remove_one].
  destruct (decide (x = y)); [done|]. by rewrite IH.
Qed.
End Rows.

(** ** Owners *)

Section OwnedRows.
Context {A : Type} (owner : A -> text) (o : text).

Lemma foreign_update p (g : A -> A) l :
  (forall x, p x = true -> owner x = o) -> (forall x, owner (g x) = owner x) -> foreign owner o (update_where p g l) = foreign owner o l.
Proof.
  intros Hp Hg. induction l as [|x l IH]; [done|]. unfold foreign, update_where in *. cbn [map List.filter].
  destruct (p x) eqn:E; [rewrite Hg, (Hp _ E), teqb_refl; exact IH|]. destruct (teqb (owner x) o); cbn [negb]; congruence.
Qed.
Lemma foreign_delete p l : (forall x, p x = true -> owner x = o) -> foreign owner o (delete_where p l) = foreign owner o l.
Proof.
  intros Hp. induction l as [|x l IH]; [done|]. unfold foreign, delete_where in *. cbn [List.filter].
  destruct (p x) eqn:E; cbn [negb List.filter].
  - rewrite (Hp _ E), teqb_refl. exact IH.
  - destruct (teqb (owner x) o); cbn [negb]; congruence.
Qed.
Lemma foreign_snoc l x : owner x = o -> foreign owner o (l ++ [x]) = foreign owner o l.
Proof. intros <-. unfold foreign. rewrite List.filter_app. cbn [List.filter]. by rewrite teqb_refl, app_nil_r. Qed.

Lemma foreign_mine l l' o' : foreign owner o l' = foreign owner o l -> o' <> o -> mine owner o' l' = mine owner o' l.
Proof.
  intros H N. assert (forall k, mine owner o' k = mine owner o' (foreign owner o k)) as E.
  { intros k. unfold mine, foreign. induction k as [|x k IH]; [done|]. cbn [List.filter].
    destruct (teqb (owner x) o) eqn:E; cbn [negb List.filter]; [apply teqb_eq in E | destruct (teqb (owner x) o'); congruence].
    rewrite (proj2 (teqb_neq (owner x) o')) by congruence. exact IH. }
  by rewrite (E l'), H, <- E.
Qed.
Lemma foreign_elem l l' x : foreign owner o l' = foreign owner o l -> owner x <> o -> x ∈ l' <-> x ∈ l.
Proof.
  intros H N. assert (forall k, x ∈ k <-> x ∈ foreign owner o k) as E.
  { intros k. unfold foreign. rewrite elem_of_Filter, negb_true_iff, teqb_neq. tauto. }
  by rewrite (E l'), H, <- E.
Qed.
Lemma mine_snoc l x : owner x = o -> mine owner o (l ++ [x]) = mine owner o l ++ [x].
Proof. intros <-. unfold mine. rewrite List.filter_app. cbn [List.filter]. by rewrite teqb_refl. Qed.
Lemma mine_foreign_perm l : l ≡ₚ mine owner o l ++ foreign owner o l.
Proof.
  induction l as [|x l IH]; [done|]. unfold mine, foreign in *. cbn [List.filter]. destruct (teqb (owner x) o); cbn [negb app].
  - by rewrite <- IH.
  - rewrite <- Permutation_middle. by rewrite <- IH.
Qed.
Lemma foreign_foreign l : foreign owner o (foreign owner o l) = foreign owner o l.
Proof. unfold foreign. induction l as [|x l IH]; [done|]. cbn [List.filter]. destruct (negb (teqb (owner x) o)) eqn:E; [|done]. cbn [List.filter]. by rewrite E, IH. Qed.
End OwnedRows.
