(* ===== verification/Memory.v ===== *)
(** The owner-scoped structured memory, [server/structured_memory.rs]: facts,
    proposals to change them, and the privacy-filtered episodes they cite.

    The SQLite tables are lists of rows in the order of their row identifiers,
    with the constraints of the schema checked on insertion; a statement is a
    function on the list.  Every operation holds the connection's lock and runs
    in one immediate transaction, which rolls back when it is dropped, so an
    operation is one step that either fails and changes nothing or commits.
    The contentless full-text index is the list of its entries, as long as
    every delete names an entry that it holds; FTS5 promises nothing about its
    contents after any other delete, so it is open ([None]) from then on until
    [rebuild_facts_fts].  SHA-256 and
    the injection scanner are parameters; the clock and random identifiers are
    the environment of an operation.  Times are exact integers. *)

From S2P Require Import Prelude Text Effects Owners RepoPaths Tables.
Local Open Scope Z_scope.

Definition PUBLIC_ID_LEN : Z := 32.
Definition valid_public_id (id : text) : bool := (byte_len id =? PUBLIC_ID_LEN) && forallb is_hex_char id.

Definition ADD : text := T "add".
Definition UPDATE : text := T "update".
Definition DEACTIVATE : text := T "deactivate".
Definition valid_action (a : text) : bool := teqb a ADD || teqb a UPDATE || teqb a DEACTIVATE.

(** ** Limits and rows *)

Record Limits := MkLimits {
  max_facts_per_owner : Z; max_fact_chars : Z; max_category_chars : Z; max_proposals_per_owner : Z; max_reason_chars : Z;
  max_episodes_per_owner : Z; max_episode_summary_chars : Z; max_episode_bytes_per_owner : Z; episode_ttl_secs : Z;
  max_export_bytes : Z; max_selected_facts : Z; max_search_query_chars : Z; max_search_results : Z; max_retrieval_results : Z;
  max_retrieval_tokens : Z; max_retrieval_token_chars : Z; max_consolidation_episodes : Z;
}.

Record Fact := MkFact {
  f_rowid : Z; f_id : text; f_owner : text; f_content : text; f_category : text; f_digest : text;
  f_revision : Z; f_active : bool; f_created : Z; f_updated : Z;
}.

Inductive Status := Pending | Applied | Rejected | Stale.
Record Proposal := MkProposal {
  p_id : text; p_owner : text; p_action : text; p_content : option text; p_category : option text; p_target : option text;
  p_expected_revision : option Z; p_expected_digest : option text; p_revision : text; p_status : Status;
  p_created : Z; p_decided : option Z;
}.

(** [proposal_episode_refs] *)
Record Ref := MkRef { ref_owner : text; ref_proposal : text; ref_episode : text }.

Inductive ConsolidationState := CNone | CPending | CDone.
Record Episode := MkEpisode {
  e_id : text; e_owner : text; e_session_ref : text; e_turn_ref : text; e_model : text; e_outcome : text; e_sensitivity : text;
  e_privacy_summary : text; e_semantic_summary : option text; e_state : ConsolidationState;
  e_created : Z; e_expires : Z; e_byte_len : Z;
}.

Inductive RunState := RIdle | RRunning | RDone | RFailed | RCancelled.
Record ConsolidationRun := MkRun {
  r_id : text; r_owner : text; r_state : RunState; r_episodes : list text; r_version : text; r_key : text; r_model : text;
  r_proposals : list text; r_proposal_count : Z; r_candidate_count : Z; r_rejected_count : Z;
  r_created : Z; r_ended : option Z; r_error : option text;
}.

#[export] Instance status_eq_dec : EqDecision Status.
Proof. solve_decision. Defined.
#[export] Instance cstate_eq_dec : EqDecision ConsolidationState.
Proof. solve_decision. Defined.
#[export] Instance rstate_eq_dec : EqDecision RunState.
Proof. solve_decision. Defined.
#[export] Instance fact_eq_dec : EqDecision Fact.
Proof. solve_decision. Defined.
#[export] Instance proposal_eq_dec : EqDecision Proposal.
Proof. solve_decision. Defined.
#[export] Instance ref_eq_dec : EqDecision Ref.
Proof. solve_decision. Defined.
#[export] Instance episode_eq_dec : EqDecision Episode.
Proof. solve_decision. Defined.
#[export] Instance run_eq_dec : EqDecision ConsolidationRun.
Proof. solve_decision. Defined.

(** The full-text index: its entries by row identifier, or [None] once a delete
    has named an entry that it does not hold, after which SQLite leaves the
    contents of a contentless table open. *)
Notation fts_index := (option (list (Z * text * text))).

(** The database, the next row identifier of [facts] and the full-text index. *)
Record Db := MkDb {
  facts : list Fact; proposals : list Proposal; refs : list Ref; episodes : list Episode; runs : list ConsolidationRun;
  next_rowid : Z; fts : fts_index;
}.

Definition with_facts (l : list Fact) (d : Db) : Db := MkDb l (proposals d) (refs d) (episodes d) (runs d) (next_rowid d) (fts d).
Definition with_proposals (l : list Proposal) (d : Db) : Db := MkDb (facts d) l (refs d) (episodes d) (runs d) (next_rowid d) (fts d).
Definition with_refs (l : list Ref) (d : Db) : Db := MkDb (facts d) (proposals d) l (episodes d) (runs d) (next_rowid d) (fts d).
Definition with_episodes (l : list Episode) (d : Db) : Db := MkDb (facts d) (proposals d) (refs d) l (runs d) (next_rowid d) (fts d).
Definition with_runs (l : list ConsolidationRun) (d : Db) : Db := MkDb (facts d) (proposals d) (refs d) (episodes d) l (next_rowid d) (fts d).
Definition with_fts (l : fts_index) (d : Db) : Db := MkDb (facts d) (proposals d) (refs d) (episodes d) (runs d) (next_rowid d) l.

Record Env := MkEnv { now : Z; fresh : nat -> text }.

Definition err_io : harness_error := err_code "STRUCTURED_MEMORY_IO".
Definition err_owner : harness_error := err_code "STRUCTURED_MEMORY_OWNER".
Definition err_content : harness_error := err_code "STRUCTURED_MEMORY_CONTENT".
Definition err_injection : harness_error := err_code "STRUCTURED_MEMORY_INJECTION".
Definition err_cap : harness_error := err_code "STRUCTURED_MEMORY_CAP".
Definition err_not_found : harness_error := err_code "STRUCTURED_MEMORY_NOT_FOUND".
Definition err_changed : harness_error := err_code "STRUCTURED_MEMORY_CHANGED".
Definition err_action : harness_error := err_code "STRUCTURED_MEMORY_ACTION".
Definition err_proposal : harness_error := err_code "STRUCTURED_MEMORY_PROPOSAL".
Definition err_proposal_changed : harness_error := err_code "STRUCTURED_MEMORY_PROPOSAL_CHANGED".
Definition err_busy : harness_error := err_code "STRUCTURED_MEMORY_BUSY".

(** The result of a transaction: the committed database and the answer. *)
Notation tx A := (result harness_error (Db * A)%type).

(** ** Statements *)

Definition own_fact (o id : text) (f : Fact) : bool := teqb (f_owner f) o && teqb (f_id f) id.
Definition own_proposal (o id : text) (p : Proposal) : bool := teqb (p_owner p) o && teqb (p_id p) id.
Definition own_episode (o id : text) (e : Episode) : bool := teqb (e_owner e) o && teqb (e_id e) id.
Definition own_run (o id : text) (r : ConsolidationRun) : bool := teqb (r_owner r) o && teqb (r_id r) id.

Definition select_fact (o id : text) (d : Db) : option Fact := List.find (own_fact o id) (facts d).
Definition select_proposal (o id : text) (d : Db) : option Proposal := List.find (own_proposal o id) (proposals d).
Definition select_episode (o id : text) (d : Db) : option Episode := List.find (own_episode o id) (episodes d).
Definition select_run (o id : text) (d : Db) : option ConsolidationRun := List.find (own_run o id) (runs d).

Definition active_count (o : text) (d : Db) : Z := count (fun f => teqb (f_owner f) o && f_active f) (facts d).
Definition is_pending (p : Proposal) : bool := bool_decide (p_status p = Pending).
Lemma is_pending_true p : is_pending p = true <-> p_status p = Pending.
Proof. apply bool_decide_eq_true. Qed.
Definition pending_count (o : text) (d : Db) : Z := count (fun p => teqb (p_owner p) o && is_pending p) (proposals d).

Definition len_between (lo hi : Z) (s : text) : bool := (lo <=? Z.of_nat (length s)) && (Z.of_nat (length s) <=? hi).

(** The [CHECK] constraints of the schema. *)
Definition check_fact (f : Fact) : bool :=
  (1 <=? f_revision f) && len_between 32 32 (f_id f) && len_between 1 64 (f_owner f) && len_between 1 16000 (f_content f)
  && len_between 0 256 (f_category f) && len_between 64 64 (f_digest f).
Definition check_proposal (p : Proposal) : bool :=
  valid_action (p_action p) && len_between 32 32 (p_id p) && len_between 1 64 (p_owner p) && len_between 64 64 (p_revision p).
Definition check_ref (r : Ref) : bool :=
  len_between 1 64 (ref_owner r) && len_between 32 32 (ref_proposal r) && len_between 32 32 (ref_episode r).
Definition valid_outcome (s : text) : bool :=
  teqb s (T "completed") || teqb s (T "partial") || teqb s (T "failed") || teqb s (T "cancelled").
Definition valid_sensitivity (s : text) : bool := teqb s (T "normal") || teqb s (T "sensitive") || teqb s (T "reject").
Definition check_episode (e : Episode) : bool :=
  valid_outcome (e_outcome e) && valid_sensitivity (e_sensitivity e) && (0 <=? e_byte_len e)
  && len_between 32 32 (e_id e) && len_between 1 64 (e_owner e) && len_between 32 32 (e_session_ref e) && len_between 32 32 (e_turn_ref e)
  && len_between 1 200 (e_model e) && len_between 1 4000 (e_privacy_summary e)
  && match e_semantic_summary e with Some s => len_between 1 4000 s | None => true end.
Definition check_run (r : ConsolidationRun) : bool := len_between 32 32 (r_id r) && len_between 1 64 (r_owner r).

(** Insertions: the constraints and the unique identifiers. *)
Definition insert_fact (f : Fact) (d : Db) : tx unit :=
  if negb (check_fact f) || existsb (fun g => teqb (f_id g) (f_id f)) (facts d) then Err err_io
  else Ok (MkDb (facts d ++ [f]) (proposals d) (refs d) (episodes d) (runs d) (next_rowid d + 1) (fts d), tt).
Definition insert_proposal (p : Proposal) (d : Db) : tx unit :=
  if negb (check_proposal p) || existsb (fun q => teqb (p_id q) (p_id p)) (proposals d) then Err err_io
  else Ok (with_proposals (proposals d ++ [p]) d, tt).
Definition same_ref (a b : Ref) : bool := teqb (ref_proposal a) (ref_proposal b) && teqb (ref_episode a) (ref_episode b).
Definition insert_ref (r : Ref) (d : Db) : tx unit :=
  if negb (check_ref r) || existsb (same_ref r) (refs d) then Err err_io
  else Ok (with_refs (refs d ++ [r]) d, tt).
Definition insert_episode (e : Episode) (d : Db) : tx unit :=
  if negb (check_episode e) || existsb (fun x => teqb (e_id x) (e_id e)) (episodes d) then Err err_io
  else Ok (with_episodes (episodes d ++ [e]) d, tt).

(** The contentless index: an entry is deleted by its row identifier and the
    very text it was indexed with. *)
Definition index_delete (x : Z * text * text) (i : fts_index) : fts_index :=
  l ← i; if bool_decide (x ∈ l) then Some (remove_one x l) else None.
Definition fts_insert (rowid : Z) (category content : text) (d : Db) : Db :=
  with_fts ((fun l => l ++ [(rowid, category, content)]) <$> fts d) d.
Definition fts_delete (rowid : Z) (category content : text) (d : Db) : Db := with_fts (index_delete (rowid, category, content) (fts d)) d.

(** [backfill_facts_fts] *)
Definition entry_of (f : Fact) : Z * text * text := (f_rowid f, f_category f, f_content f).
Definition backfill_facts_fts (d : Db) : Db * Z :=
  let rows := map entry_of (List.filter f_active (facts d)) in (with_fts (Some rows) d, Z.of_nat (length rows)).
Definition rebuild_facts_fts (d : Db) : tx Z := Ok (backfill_facts_fts d).

(** [unwrap_or_default] *)
Definition or_empty (t : option text) : text := match t with Some t => t | None => [] end.
Definition or_zero (n : option Z) : Z := match n with Some n => n | None => 0 end.

(** [.map(str::trim).filter(|t| !t.is_empty())] *)
Definition trimmed_nonempty (t : option text) : option text :=
  match t with Some t => if bool_decide (trim t = []) then None else Some (trim t) | None => None end.

(** ** The store *)

Definition require_owner (o : text) : result harness_error unit := if valid_owner o then Ok tt else Err err_owner.

Lemma require_owner_Ok o u : require_owner o = Ok u <-> valid_owner o = true.
Proof. unfold require_owner. destruct (valid_owner o), u; split; congruence. Qed.

(** Take the steps of a successful operation apart. *)
Ltac op_step :=
  match goal with
  | x : (Db * _)%type |- _ => destruct x
  | x : unit |- _ => destruct x
  | H : require_owner _ = Ok _ |- _ => apply require_owner_Ok in H
  | H : (if ?c then Err _ else _) = Ok _ |- _ => destruct c eqn:?; [discriminate H|]
  | H : (if ?c then _ else Err _) = Ok _ |- _ => destruct c eqn:?; [|discriminate H]
  end.
Ltac op_steps := repeat (result_step || guard_step || op_step).

Section Store.
Context (sha256_hex : text -> text) (flags : text -> Z) (limits : Limits).

Definition clean_text (t : text) (max_chars : Z) (empty_ok : bool) : result harness_error text :=
  if existsb (fun c => is_control c && negb (c =? c_newline) && negb (c =? 9)) t then Err err_content
  else
    let cleaned := trim t in
    if bool_decide (cleaned = []) then (if empty_ok then Ok [] else Err err_content)
    else if max_chars <? Z.of_nat (length cleaned) then Err err_content
    else if 0 <? flags cleaned then Err err_injection
    else Ok cleaned.

Definition validate_reason (reason : text) : result harness_error unit :=
  let reason := trim reason in
  if is_visibly_blank reason || (max_reason_chars limits <? Z.of_nat (length reason)) || existsb (Z.eqb 0) reason
  then Err err_content else Ok tt.

Definition is_digest (s : text) : bool := (byte_len s =? 64) && forallb is_hex_char s.

Definition bar : text := T "|".
Definition proposal_revision (action : text) (content category target : option text) (expected_revision : option Z)
    (expected_digest : option text) : text :=
  sha256_hex (T "v1|" ++ action ++ bar ++ or_empty content ++ bar ++ or_empty category ++ bar
              ++ or_empty target ++ bar ++ match expected_revision with Some n => show_Z n | None => [] end ++ bar
              ++ or_empty expected_digest).

(** [SELECT id FROM facts WHERE public_id=?1] *)
Definition fact_rowid (public_id : text) (d : Db) : result harness_error Z :=
  match List.find (fun f => teqb (f_id f) public_id) (facts d) with Some f => Ok (f_rowid f) | None => Err err_io end.

Definition load_episode_refs (o proposal_id : text) (d : Db) : list text :=
  merge_sort text_le (map ref_episode (List.filter (fun r => teqb (ref_owner r) o && teqb (ref_proposal r) proposal_id) (refs d))).

(** *** Reads *)

Definition counts (o : text) (d : Db) : result harness_error (Z * Z) :=
  _ ← require_owner o; Ok (active_count o d, pending_count o d).

Definition newest_fact (a b : Fact) : Prop := f_updated b < f_updated a \/ (f_updated a = f_updated b /\ text_le (f_id a) (f_id b)).
#[local] Instance newest_fact_dec : RelDecision newest_fact.
Proof. intros a b. unfold newest_fact. apply _. Defined.
Definition list_facts (o : text) (d : Db) : result harness_error (list Fact) :=
  _ ← require_owner o; Ok (take 256 (merge_sort newest_fact (List.filter (fun f => teqb (f_owner f) o && f_active f) (facts d)))).

Definition search_facts (lower : text -> text) (o : text) (query category : option text) (limit : nat) (d : Db)
    : result harness_error (list Fact) :=
  l ← list_facts o d;
  let l := match category with
           | Some c => if bool_decide (trim c = []) then l else List.filter (fun f => teqb (f_category f) (trim c)) l
           | None => l
           end in
  let l := match query with
           | Some q => if bool_decide (trim q = []) then l
                       else List.filter (fun f => contains (lower (trim q)) (lower (f_content f)) || contains (lower (trim q)) (lower (f_category f))) l
           | None => l
           end in
  Ok (take limit l).

Definition get_fact (o id : text) (d : Db) : result harness_error Fact :=
  _ ← require_owner o;
  if negb (valid_public_id id) then Err err_not_found else ok_or (select_fact o id d) err_not_found.

(** A proposal with the episodes that it cites. *)
Definition attach_refs (o : text) (d : Db) (p : Proposal) : Proposal * list text := (p, load_episode_refs o (p_id p) d).

Definition newest_proposal (a b : Proposal) : Prop := p_created b < p_created a \/ (p_created a = p_created b /\ text_le (p_id a) (p_id b)).
#[local] Instance newest_proposal_dec : RelDecision newest_proposal.
Proof. intros a b. unfold newest_proposal. apply _. Defined.
Definition proposals_filtered (o : text) (pending_only : bool) (d : Db) : result harness_error (list (Proposal * list text)) :=
  _ ← require_owner o;
  Ok (map (attach_refs o d)
        (take 128 (merge_sort newest_proposal (List.filter (fun p => teqb (p_owner p) o && (negb pending_only || is_pending p)) (proposals d))))).

Definition get_proposal (o id : text) (d : Db) : result harness_error (Proposal * list text) :=
  _ ← require_owner o;
  if negb (valid_public_id id) then Err err_proposal
  else p ← ok_or (select_proposal o id d) err_proposal; Ok (attach_refs o d p).

Definition get_episode (o id : text) (d : Db) : result harness_error Episode :=
  _ ← require_owner o;
  if negb (valid_public_id id) then Err err_not_found else ok_or (select_episode o id d) err_not_found.

(** *** Facts *)

Definition add_fact (env : Env) (o content category reason : text) (d : Db) : tx Fact :=
  _ ← require_owner o;
  _ ← validate_reason reason;
  content ← clean_text content (max_fact_chars limits) false;
  category ← clean_text category (max_category_chars limits) true;
  if max_facts_per_owner limits <=? active_count o d then Err err_cap
  else
    let f := MkFact (next_rowid d) (fresh env 0) o content category (sha256_hex content) 1 true (now env) (now env) in
    '(d, _) ← insert_fact f d;
    Ok (fts_insert (f_rowid f) category content d, f).

(** [UPDATE facts SET ... WHERE owner_id AND public_id AND revision AND active=1] *)
Definition at_revision (o id : text) (revision : Z) (f : Fact) : bool := own_fact o id f && (f_revision f =? revision) && f_active f.
Definition deactivated (at_ : Z) (f : Fact) : Fact :=
  MkFact (f_rowid f) (f_id f) (f_owner f) (f_content f) (f_category f) (f_digest f) (f_revision f + 1) false (f_created f) at_.
Definition rewritten (content category : text) (at_ : Z) (f : Fact) : Fact :=
  MkFact (f_rowid f) (f_id f) (f_owner f) content category (sha256_hex content) (f_revision f + 1) (f_active f) (f_created f) at_.
Definition update_fact (o id : text) (revision : Z) (g : Fact -> Fact) (d : Db) : tx unit :=
  let l := update_where (at_revision o id revision) g (facts d) in
  if forallb (fun f => negb (at_revision o id revision f) || check_fact (g f)) (facts d) then Ok (with_facts l d, tt) else Err err_io.

Definition deactivate_fact (env : Env) (o id : text) (expected_revision : Z) (reason : text) (d : Db) : tx Fact :=
  _ ← require_owner o;
  _ ← validate_reason reason;
  if negb (valid_public_id id) || (expected_revision <? 1) then Err err_not_found
  else
    current ← ok_or (select_fact o id d) err_not_found;
    if negb (f_active current) then Err err_changed
    else if negb (f_revision current =? expected_revision) then Err err_changed
    else
      rowid ← fact_rowid id d;
      let d := fts_delete rowid (f_category current) (f_content current) d in
      '(d, _) ← update_fact o id expected_revision (deactivated (now env)) d;
      f ← ok_or (select_fact o id d) err_io;
      Ok (d, f).

(** *** Proposals *)

Record ProposalDraft := MkDraft {
  d_action : text; d_content : option text; d_category : option text; d_target : option text;
  d_expected_revision : option Z; d_expected_digest : option text; d_sources : list text;
}.

(** [sort] and [dedup] *)
Definition sorted_ids (ids : list text) : list text := remove_dups (merge_sort text_le ids).

Definition clean_optional (t : option text) (max : Z) (empty_ok : bool) : result harness_error (option text) :=
  match t with Some t => t ← clean_text t max empty_ok; Ok (Some t) | None => Ok None end.

(** The checks of a draft before it is stored; [seen] is the database in which
    the target is looked up. *)
Definition draft_content (draft : ProposalDraft) : result harness_error (option text) :=
  match d_content draft with
  | Some t => if negb (teqb (d_action draft) DEACTIVATE) then clean_optional (Some t) (max_fact_chars limits) false else Ok None
  | None => if teqb (d_action draft) ADD || teqb (d_action draft) UPDATE then Err err_content else Ok None
  end.
Definition binds_fact (draft : ProposalDraft) : bool := teqb (d_action draft) UPDATE || teqb (d_action draft) DEACTIVATE.
Definition draft_binding (draft : ProposalDraft) : result harness_error unit :=
  if binds_fact draft then
    if negb (valid_public_id (or_empty (d_target draft))) || (or_zero (d_expected_revision draft) <? 1) then Err err_proposal
    else if negb (is_digest (or_empty (d_expected_digest draft))) then Err err_proposal
    else Ok tt
  else Ok tt.

Definition proposal_of (o id : text) (at_ : Z) (draft : ProposalDraft) (content category : option text) : Proposal :=
  MkProposal id o (d_action draft) content category (d_target draft) (d_expected_revision draft) (d_expected_digest draft)
    (proposal_revision (d_action draft) content category (d_target draft) (d_expected_revision draft) (d_expected_digest draft))
    Pending at_ None.

(** The cited episodes, each an episode of the owner. *)
Fixpoint insert_refs (o proposal_id : text) (sources : list text) (d : Db) : tx unit :=
  match sources with
  | [] => Ok (d, tt)
  | e :: sources =>
      if bool_decide (select_episode o e d = None) then Err err_not_found
      else '(d, _) ← insert_ref (MkRef o proposal_id e) d; insert_refs o proposal_id sources d
  end.

(** Storing a checked draft. *)
Definition store_proposal (o id : text) (at_ : Z) (draft : ProposalDraft) (content category : option text) (d : Db) : tx (Proposal * list text) :=
  let p := proposal_of o id at_ draft content category in
  '(d, _) ← insert_proposal p d;
  '(d, _) ← insert_refs o id (sorted_ids (d_sources draft)) d;
  Ok (d, attach_refs o d p).

Definition create_proposal (env : Env) (o : text) (draft : ProposalDraft) (d : Db) : tx (Proposal * list text) :=
  _ ← require_owner o;
  _ ← refuse_if (negb (valid_action (d_action draft))) err_action;
  content ← draft_content draft;
  category ← clean_optional (d_category draft) (max_category_chars limits) true;
  _ ← draft_binding draft;
  _ ← (if binds_fact draft then _ ← get_fact o (or_empty (d_target draft)) d; Ok tt else Ok tt);
  _ ← refuse_if (negb (forallb valid_public_id (d_sources draft))) err_proposal;
  if max_proposals_per_owner limits <=? pending_count o d then Err err_cap
  else store_proposal o (fresh env 0) (now env) draft content category d.

(** [insert_proposal_in_tx], the same inside of a transaction. *)
Definition insert_proposal_in_tx (o id : text) (at_ : Z) (draft : ProposalDraft) (d : Db) : tx (Proposal * list text) :=
  _ ← refuse_if (negb (valid_action (d_action draft))) err_action;
  content ← draft_content draft;
  category ← clean_optional (d_category draft) (max_category_chars limits) true;
  _ ← draft_binding draft;
  _ ← (if binds_fact draft && bool_decide (select_fact o (or_empty (d_target draft)) d = None) then Err err_not_found else Ok tt);
  _ ← refuse_if (negb (forallb valid_public_id (d_sources draft))) err_proposal;
  store_proposal o id at_ draft content category d.

(** *** Decisions *)

(** The target is still the fact that was reviewed. *)
Definition bind_target (o : text) (p : Proposal) (d : Db) : result harness_error unit :=
  current ← ok_or (select_fact o (or_empty (p_target p)) d) err_not_found;
  if negb (f_revision current =? or_zero (p_expected_revision p))
     || negb (teqb (f_digest current) (or_empty (p_expected_digest p))) || negb (f_active current)
  then Err err_changed else Ok tt.

Definition apply_pending (env : Env) (o : text) (p : Proposal) (d : Db) : tx unit :=
  let target := or_empty (p_target p) in
  if teqb (p_action p) ADD then
    content ← clean_text (or_empty (p_content p)) (max_fact_chars limits) false;
    category ← clean_text (or_empty (p_category p)) (max_category_chars limits) true;
    if max_facts_per_owner limits <=? active_count o d then Err err_cap
    else
      let f := MkFact (next_rowid d) (fresh env 0) o content category (sha256_hex content) 1 true (now env) (now env) in
      '(d, _) ← insert_fact f d;
      Ok (fts_insert (f_rowid f) category content d, tt)
  else if teqb (p_action p) UPDATE then
    content ← clean_text (or_empty (p_content p)) (max_fact_chars limits) false;
    category ← clean_text (or_empty (p_category p)) (max_category_chars limits) true;
    _ ← bind_target o p d;
    rowid ← fact_rowid target d;
    previous ← ok_or (select_fact o target d) err_io;
    let d := fts_delete rowid (f_category previous) (f_content previous) d in
    '(d, _) ← update_fact o target (or_zero (p_expected_revision p)) (rewritten content category (now env)) d;
    Ok (fts_insert rowid category content d, tt)
  else if teqb (p_action p) DEACTIVATE then
    _ ← bind_target o p d;
    rowid ← fact_rowid target d;
    previous ← ok_or (select_fact o target d) err_io;
    let d := fts_delete rowid (f_category previous) (f_content previous) d in
    update_fact o target (or_zero (p_expected_revision p)) (deactivated (now env)) d
  else Err err_action.

Definition decided (status : Status) (at_ : Z) (p : Proposal) : Proposal :=
  MkProposal (p_id p) (p_owner p) (p_action p) (p_content p) (p_category p) (p_target p) (p_expected_revision p) (p_expected_digest p)
    (p_revision p) status (p_created p) (Some at_).

Definition recomputed (p : Proposal) : text :=
  proposal_revision (p_action p) (p_content p) (p_category p) (p_target p) (p_expected_revision p) (p_expected_digest p).

Definition decide_proposal (env : Env) (o id revision : text) (apply : bool) (reason : text) (d : Db) : tx (Proposal * list text) :=
  _ ← require_owner o;
  _ ← validate_reason reason;
  if negb (valid_public_id id) || negb (is_digest revision) then Err err_proposal_changed
  else
    record ← ok_or (select_proposal o id d) err_proposal;
    if negb (is_pending record) || negb (teqb (p_revision record) revision) || negb (teqb (recomputed record) revision)
    then Err err_proposal_changed
    else
      '(d, _) ← (if apply then apply_pending env o record d else Ok (d, tt));
      let status := if apply then Applied else Rejected in
      let d := with_proposals (update_where (fun p => own_proposal o id p && is_pending p && teqb (p_revision p) revision)
                                 (decided status (now env)) (proposals d)) d in
      p ← ok_or (select_proposal o id d) err_io;
      Ok (d, attach_refs o d p).

(** *** Episodes *)

Definition newest_episode (a b : Episode) : Prop := e_created b < e_created a \/ (e_created a = e_created b /\ text_le (e_id a) (e_id b)).
#[local] Instance newest_episode_dec : RelDecision newest_episode.
Proof. intros a b. unfold newest_episode. apply _. Defined.
Definition oldest_episode (a b : Episode) : Prop := e_created a < e_created b \/ (e_created a = e_created b /\ text_le (e_id a) (e_id b)).
#[export] Instance oldest_episode_dec : RelDecision oldest_episode.
Proof. intros a b. unfold oldest_episode. apply _. Defined.

Definition of_owner (o : text) (e : Episode) : bool := teqb (e_owner e) o.
Definition episode_count (o : text) (d : Db) : Z := count (of_owner o) (episodes d).
Definition episode_total (o : text) (d : Db) : Z :=
  sum_of e_byte_len (List.filter (of_owner o) (episodes d)).

Definition list_episodes (o : text) (d : Db) : result harness_error (list Episode) :=
  _ ← require_owner o; Ok (take 256 (merge_sort newest_episode (List.filter (of_owner o) (episodes d)))).

Definition latest_completed_episode (o : text) (d : Db) : result harness_error (option Episode) :=
  _ ← require_owner o;
  Ok (head (merge_sort newest_episode (List.filter (fun e => of_owner o e && teqb (e_outcome e) (T "completed")) (episodes d)))).

Record EpisodeDraft := MkEpisodeDraft {
  ed_model : text; ed_outcome : text; ed_user_chars : Z; ed_assistant_chars : Z; ed_sensitivity : text;
}.

Definition privacy_summary (draft : EpisodeDraft) (coding : bool) : result harness_error text :=
  if negb (valid_outcome (ed_outcome draft)) then Err err_content
  else if negb (valid_sensitivity (ed_sensitivity draft)) then Err err_content
  else
    model ← clean_text (ed_model draft) 200 false;
    let summary := (if coding then T "Completed coding run" else T "Completed local chat exchange")
      ++ T ". Outcome: " ++ ed_outcome draft ++ T ". Model: " ++ model ++ T ". Sensitivity: " ++ ed_sensitivity draft
      ++ T ". User chars: " ++ show_nat (ed_user_chars draft) ++ T ". Assistant chars: " ++ show_nat (ed_assistant_chars draft) ++ T ". "
      ++ (if coding then T "Tool output omitted." else T "Tools unused.")
      ++ T " Hidden reasoning omitted. Raw query and full answer omitted." in
    Ok (take (Z.to_nat (max_episode_summary_chars limits)) summary).

Definition episode_bytes (summary : text) (semantic : option text) (model : text) : Z :=
  byte_len summary + match semantic with Some s => byte_len s | None => 0 end + byte_len model + 96.

(** A pending proposal cites the episode. *)
Definition referenced_pending (o episode_id : text) (d : Db) : bool :=
  existsb (fun r => teqb (ref_owner r) o && teqb (ref_episode r) episode_id
             && existsb (fun p => teqb (p_id p) (ref_proposal r) && teqb (p_owner p) (ref_owner r) && is_pending p) (proposals d)) (refs d).

Definition delete_episode_rows (o id : text) (d : Db) : Db :=
  let d := with_refs (delete_where (fun r => teqb (ref_owner r) o && teqb (ref_episode r) id) (refs d)) d in
  with_episodes (delete_where (own_episode o id) (episodes d)) d.

Definition over_limits (o : text) (d : Db) : bool :=
  (max_episodes_per_owner limits <? episode_count o d) || (max_episode_bytes_per_owner limits <? episode_total o d).

(** The oldest episode that may go. *)
Definition victim (at_ : Z) (o : text) (d : Db) : option Episode :=
  head (merge_sort oldest_episode
    (List.filter (fun e => of_owner o e && negb (referenced_pending o (e_id e) d) && ((e_expires e <=? at_) || over_limits o d)) (episodes d))).

(** The loop of [prune_owner_episodes]; each round deletes a row. *)
Fixpoint prune_owner_episodes (fuel : nat) (at_ : Z) (o : text) (d : Db) : tx unit :=
  match victim at_ o d with
  | None => if over_limits o d then Err err_cap else Ok (d, tt)
  | Some e =>
      match fuel with
      | O => Err err_io
      | S fuel => prune_owner_episodes fuel at_ o (delete_episode_rows o (e_id e) d)
      end
  end.
Definition prune (at_ : Z) (o : text) (d : Db) : tx unit := prune_owner_episodes (length (episodes d)) at_ o d.

Definition stage_episode_kind (env : Env) (o : text) (draft : EpisodeDraft) (coding : bool) (d : Db) : tx Episode :=
  _ ← require_owner o;
  summary ← privacy_summary draft coding;
  model ← clean_text (ed_model draft) 200 false;
  let e := MkEpisode (fresh env 0) o (fresh env 1) (fresh env 2) model (ed_outcome draft) (ed_sensitivity draft) summary None CNone
             (now env) (now env + episode_ttl_secs limits) (episode_bytes summary None model) in
  '(d, _) ← insert_episode e d;
  '(d, _) ← prune (now env) o d;
  e ← ok_or (List.find (fun x => teqb (e_id x) (fresh env 0)) (episodes d)) err_io;
  Ok (d, e).
Definition stage_episode env o draft := stage_episode_kind env o draft false.
Definition stage_coding_episode env o draft := stage_episode_kind env o draft true.

Definition summarized (summary : text) (bytes : Z) (e : Episode) : Episode :=
  MkEpisode (e_id e) (e_owner e) (e_session_ref e) (e_turn_ref e) (e_model e) (e_outcome e) (e_sensitivity e) (e_privacy_summary e)
    (Some summary) (e_state e) (e_created e) (e_expires e) bytes.

Definition set_episode_summary (env : Env) (o id summary reason : text) (d : Db) : tx Episode :=
  _ ← require_owner o;
  _ ← validate_reason reason;
  if negb (valid_public_id id) then Err err_not_found
  else
    summary ← clean_text summary (max_episode_summary_chars limits) false;
    current ← ok_or (select_episode o id d) err_not_found;
    let bytes := episode_bytes (e_privacy_summary current) (Some summary) (e_model current) in
    if negb (len_between 1 4000 summary) then Err err_io
    else
      let d := with_episodes (update_where (own_episode o id) (summarized summary bytes) (episodes d)) d in
      '(d, _) ← prune (now env) o d;
      e ← ok_or (select_episode o id d) err_io;
      Ok (d, e).

Definition delete_episode (o id reason : text) (d : Db) : tx unit :=
  _ ← require_owner o;
  _ ← validate_reason reason;
  if negb (valid_public_id id) then Err err_not_found
  else if referenced_pending o id d then Err err_changed
  else if bool_decide (select_episode o id d = None) then Err err_not_found
  else Ok (delete_episode_rows o id d, tt).

Definition purge_expired_episodes (env : Env) (o reason : text) (d : Db) : tx Z :=
  _ ← require_owner o;
  _ ← validate_reason reason;
  let ids := map e_id (List.filter (fun e => of_owner o e && (e_expires e <=? now env) && negb (referenced_pending o (e_id e) d)) (episodes d)) in
  Ok (foldl (fun d id => delete_episode_rows o id d) d ids, Z.of_nat (length ids)).

Definition delete_unreferenced_episodes (o reason : text) (d : Db) : tx (Z * Z) :=
  _ ← require_owner o;
  _ ← validate_reason reason;
  let unreferenced e := of_owner o e && negb (referenced_pending o (e_id e) d) in
  let deleted := count unreferenced (episodes d) in
  let gone := map e_id (List.filter unreferenced (episodes d)) in
  let d1 := with_refs (delete_where (fun r => teqb (ref_owner r) o && bool_decide (ref_episode r ∈ gone)) (refs d)) d in
  let d2 := with_episodes (delete_where (fun e => of_owner o e && negb (referenced_pending o (e_id e) d1)) (episodes d1)) d1 in
  Ok (d2, (deleted, episode_count o d2)).

(** [purge_owner]: every row of the owner and the index entries of its facts;
    the answer counts the deleted facts, episodes, proposals and runs. *)
Definition purge_owner (o reason : text) (d : Db) : tx (Z * Z * Z * Z) :=
  _ ← require_owner o;
  _ ← validate_reason reason;
  let mine := List.filter (fun f => teqb (f_owner f) o) (facts d) in
  let left := foldl (fun i f => index_delete (entry_of f) i) (fts d) mine in
  Ok (MkDb (delete_where (fun f => teqb (f_owner f) o) (facts d)) (delete_where (fun p => teqb (p_owner p) o) (proposals d))
        (delete_where (fun r => teqb (ref_owner r) o) (refs d)) (delete_where (of_owner o) (episodes d))
        (delete_where (fun r => teqb (r_owner r) o) (runs d)) (next_rowid d) left,
      (count (fun f => teqb (f_owner f) o) (facts d), episode_count o d, count (fun p => teqb (p_owner p) o) (proposals d),
       count (fun r => teqb (r_owner r) o) (runs d))).

(** ** What an operation leaves alone *)

(** The rows of the other owners are the same, in the same order. *)
Record OthersKept (o : text) (d d' : Db) : Prop := {
  ok_facts : foreign f_owner o (facts d') = foreign f_owner o (facts d);
  ok_proposals : foreign p_owner o (proposals d') = foreign p_owner o (proposals d);
  ok_refs : foreign ref_owner o (refs d') = foreign ref_owner o (refs d);
  ok_episodes : foreign e_owner o (episodes d') = foreign e_owner o (episodes d);
  ok_runs : foreign r_owner o (runs d') = foreign r_owner o (runs d);
}.
#[export] Instance others_kept_preorder o : PreOrder (OthersKept o).
Proof. split; [by intros d; split | intros a b c [] []; split; congruence]. Qed.

Lemma own_fact_owner o id f : own_fact o id f = true -> f_owner f = o.
Proof. unfold own_fact. intros H. guards. by apply teqb_eq. Qed.
Lemma own_fact_id o id f : own_fact o id f = true -> f_id f = id.
Proof. unfold own_fact. intros H. guards. by apply teqb_eq. Qed.
Lemma own_proposal_owner o id p : own_proposal o id p = true -> p_owner p = o.
Proof. unfold own_proposal. intros H. guards. by apply teqb_eq. Qed.
Lemma own_proposal_id o id p : own_proposal o id p = true -> p_id p = id.
Proof. unfold own_proposal. intros H. guards. by apply teqb_eq. Qed.
Lemma own_episode_owner o id e : own_episode o id e = true -> e_owner e = o.
Proof. unfold own_episode. intros H. guards. by apply teqb_eq. Qed.
Lemma own_episode_id o id e : own_episode o id e = true -> e_id e = id.
Proof. unfold own_episode. intros H. guards. by apply teqb_eq. Qed.
Lemma own_run_owner o id r : own_run o id r = true -> r_owner r = o.
Proof. unfold own_run. intros H. guards. by apply teqb_eq. Qed.
Lemma own_run_id o id r : own_run o id r = true -> r_id r = id.
Proof. unfold own_run. intros H. guards. by apply teqb_eq. Qed.

(** The tables that an operation on facts, or on episodes, leaves. *)
Definition FactsOnly (d d' : Db) : Prop :=
  proposals d' = proposals d /\ refs d' = refs d /\ episodes d' = episodes d /\ runs d' = runs d.
Definition EpisodesOnly (d d' : Db) : Prop :=
  facts d' = facts d /\ next_rowid d' = next_rowid d /\ fts d' = fts d /\ proposals d' = proposals d /\ runs d' = runs d.
#[export] Instance episodes_only_preorder : PreOrder EpisodesOnly.
Proof. split; [done | unfold EpisodesOnly; intros a b c; intuition congruence]. Qed.

(** What the statements do to the other owners. *)
Lemma insert_fact_kept o f d d' u : insert_fact f d = Ok (d', u) -> f_owner f = o -> OthersKept o d d'.
Proof. unfold insert_fact. destruct (_ || _); [done|]. intros H <-. results. split; cbn; try done. by apply foreign_snoc. Qed.
Lemma insert_proposal_kept o p d d' u : insert_proposal p d = Ok (d', u) -> p_owner p = o -> OthersKept o d d'.
Proof. unfold insert_proposal. destruct (_ || _); [done|]. intros H <-. results. split; cbn; try done. by apply foreign_snoc. Qed.
Lemma insert_ref_kept o r d d' u : insert_ref r d = Ok (d', u) -> ref_owner r = o -> OthersKept o d d'.
Proof. unfold insert_ref. destruct (_ || _); [done|]. intros H <-. results. split; cbn; try done. by apply foreign_snoc. Qed.
Lemma insert_episode_kept o e d d' u : insert_episode e d = Ok (d', u) -> e_owner e = o -> OthersKept o d d'.
Proof. unfold insert_episode. destruct (_ || _); [done|]. intros H <-. results. split; cbn; try done. by apply foreign_snoc. Qed.
Lemma fts_insert_kept o i c t d : OthersKept o d (fts_insert i c t d).
Proof. by split. Qed.
Lemma fts_delete_kept o i c t d : OthersKept o d (fts_delete i c t d).
Proof. by split. Qed.
Lemma update_fact_kept o id rev g d d' u :
  update_fact o id rev g d = Ok (d', u) -> (forall f, f_owner (g f) = f_owner f) -> OthersKept o d d'.
Proof.
  unfold update_fact. destruct (forallb _ _); [|done]. intros H Hg. results. split; cbn; try done.
  apply foreign_update; [|done]. unfold at_revision. intros x H. guards. by eapply own_fact_owner.
Qed.
Lemma update_proposals_kept o p g d :
  (forall x, p x = true -> p_owner x = o) -> (forall x, p_owner (g x) = p_owner x) ->
  OthersKept o d (with_proposals (update_where p g (proposals d)) d).
Proof. intros Hp Hg. split; cbn; try done. by apply foreign_update. Qed.
Lemma update_episodes_kept o p g d :
  (forall x, p x = true -> e_owner x = o) -> (forall x, e_owner (g x) = e_owner x) ->
  OthersKept o d (with_episodes (update_where p g (episodes d)) d).
Proof. intros Hp Hg. split; cbn; try done. by apply foreign_update. Qed.
Lemma delete_episode_rows_kept o id d : OthersKept o d (delete_episode_rows o id d).
Proof.
  split; cbn; try done; apply foreign_delete; [|apply own_episode_owner].
  intros x H. guards. by apply teqb_eq.
Qed.
Lemma prune_kept fuel at_ o d d' u : prune_owner_episodes fuel at_ o d = Ok (d', u) -> OthersKept o d d'.
Proof.
  revert d. induction fuel as [|fuel IH]; intros d H; cbn [prune_owner_episodes] in H; destruct (victim at_ o d) as [e|].
  - done.
  - destruct (over_limits o d); [done|]. by results.
  - rewrite <- (IH _ H). apply delete_episode_rows_kept.
  - destruct (over_limits o d); [done|]. by results.
Qed.
Lemma insert_refs_kept o id sources d d' u : insert_refs o id sources d = Ok (d', u) -> OthersKept o d d'.
Proof.
  revert d. induction sources as [|e l IH]; intros d H; cbn [insert_refs] in H; [by results|].
  destruct (bool_decide _); [done|]. apply bind_Ok_inv in H as ([d1 []] & H1 & H2).
  etransitivity; [by eapply insert_ref_kept | by apply IH].
Qed.

(** ** Facts and their index *)

(** An index that holds exactly [l], unless its contents are open. *)
Definition Holds (i : fts_index) (l : list (Z * text * text)) : Prop := forall x, i = Some x -> x ≡ₚ l.

Lemma holds_insert i l x : Holds i l -> Holds ((fun l => l ++ [x]) <$> i) (l ++ [x]).
Proof. intros H y E. destruct i as [k|]; [|done]. injection E as <-. by rewrite (H k). Qed.
Lemma holds_delete i x l k : l ≡ₚ x :: k -> Holds i l -> Holds (index_delete x i) k.
Proof.
  intros Hl H y E. destruct i as [z|]; [|done]. unfold index_delete in E. cbn in E. case_bool_decide; [|done]. injection E as <-.
  apply remove_one_cons. by rewrite (H z).
Qed.
Lemma holds_delete_defined i x l : x ∈ l -> Holds i l -> is_Some i -> is_Some (index_delete x i).
Proof. intros Hx H [z ->]. unfold index_delete. cbn. rewrite bool_decide_true; [by eexists | by rewrite (H z)]. Qed.
Lemma holds_perm i l k : l ≡ₚ k -> Holds i l -> Holds i k.
Proof. intros E H x Hx. by rewrite (H x). Qed.

Record FactsSound (d : Db) : Prop := {
  fs_ids : NoDup (map f_id (facts d));
  fs_rowids : NoDup (map f_rowid (facts d));
  fs_next : Forall (fun f => f_rowid f < next_rowid d) (facts d);
  fs_digests : Forall (fun f => f_digest f = sha256_hex (f_content f)) (facts d);
  fs_checks : Forall (fun f => check_fact f = true) (facts d);
  fs_index : Holds (fts d) (map entry_of (List.filter f_active (facts d)));
  fs_cap : forall o, active_count o d <= max_facts_per_owner limits;
}.

Lemma facts_sound_same d d' : facts d' = facts d -> fts d' = fts d -> next_rowid d' = next_rowid d -> FactsSound d -> FactsSound d'.
Proof. intros E1 E2 E3 []. split; unfold active_count in *; rewrite ?E1, ?E2, ?E3; auto. Qed.

Lemma active_count_snoc o f d d' : facts d' = facts d ++ [f] ->
  active_count o d' = active_count o d + (if teqb (f_owner f) o && f_active f then 1 else 0).
Proof. intros E. unfold active_count. by rewrite E, count_snoc. Qed.

Lemma facts_sound_insert f d d1 u :
  FactsSound d -> insert_fact f d = Ok (d1, u) -> f_rowid f = next_rowid d -> f_digest f = sha256_hex (f_content f) -> f_active f = true ->
  active_count (f_owner f) d < max_facts_per_owner limits -> FactsSound (fts_insert (f_rowid f) (f_category f) (f_content f) d1).
Proof.
  intros [H1 H2 H3 H4 H5 H6 H7] Hi Hr Hd Ha Hc. unfold insert_fact in Hi.
  destruct (negb (check_fact f) || _) eqn:Eg; [done|]. results. split; cbn [fts_insert with_fts facts fts next_rowid].
  - apply NoDup_map_snoc; [done|]. by apply existsb_key.
  - apply NoDup_map_snoc; [done|]. rewrite list_elem_of_fmap. intros (g & E & Hg). rewrite Forall_forall in H3. specialize (H3 _ Hg). lia.
  - apply Forall_app. split; [|constructor; [lia | constructor]]. eapply Forall_impl; [apply H3|]. intros y Hy. cbn in Hy. lia.
  - apply Forall_app. auto.
  - apply Forall_app. auto.
  - rewrite List.filter_app, map_app. cbn [List.filter]. rewrite Ha. cbn [map]. by apply holds_insert.
  - intros o. rewrite (active_count_snoc o f d) by done. specialize (H7 o). destruct (teqb (f_owner f) o) eqn:E; cbn [andb]; [|lia].
    apply teqb_eq in E. subst o. rewrite Ha. lia.
Qed.

(** One fact is replaced. *)
Lemma facts_sound_replace o id rev (g : Fact -> Fact) f d d' :
  FactsSound d -> f ∈ facts d -> at_revision o id rev f = true ->
  facts d' = update_where (at_revision o id rev) g (facts d) -> next_rowid d' = next_rowid d ->
  f_rowid (g f) = f_rowid f -> f_id (g f) = f_id f -> f_owner (g f) = f_owner f -> f_digest (g f) = sha256_hex (f_content (g f)) ->
  check_fact (g f) = true ->
  fts d' = (if f_active (g f) then (fun l => l ++ [entry_of (g f)]) <$> index_delete (entry_of f) (fts d) else index_delete (entry_of f) (fts d)) ->
  FactsSound d'.
Proof. clear flags.
  intros [H1 H2 H3 H4 H5 H6 H7] Hf Hat Ed En Er Ei Eo Eg Ec Ex.
  assert (f_active f = true) as Hact by (unfold at_revision in Hat; guards; done).
  destruct (update_where_split f_id (at_revision o id rev) g (facts d) f) as (l1 & l2 & El & Eu); [done | done | done | |].
  { intros y Hy. unfold at_revision in *. guards. rewrite (own_fact_id o id y), (own_fact_id o id f); done. }
  rewrite El in *. rewrite Eu in Ed. rewrite ?map_app, ?Forall_app in *. cbn [map] in *. rewrite Forall_cons in *.
  split; rewrite ?Ed, ?En, ?map_app; cbn [map]; rewrite ?Ei, ?Er; try done.
  - apply Forall_app. split; [tauto|]. constructor; [rewrite Er|]; tauto.
  - apply Forall_app. split; [tauto|]. constructor; tauto.
  - apply Forall_app. split; [tauto|]. constructor; tauto.
  - rewrite List.filter_app, map_app in *. cbn [List.filter] in *. rewrite Hact in H6. cbn [map] in H6.
    rewrite Ex. apply (holds_delete _ (entry_of f) _ (map entry_of (List.filter f_active l1) ++ map entry_of (List.filter f_active l2))) in H6;
      [|by rewrite Permutation_middle].
    destruct (f_active (g f)); cbn [map app]; [|exact H6]. eapply holds_perm; [|by apply holds_insert]. by rewrite <- !Permutation_middle, app_nil_r.
  - intros o'. specialize (H7 o'). unfold active_count in *. rewrite Ed. rewrite El in H7. rewrite count_app, table_count_cons in *.
    rewrite Eo, Hact in *. destruct (teqb (f_owner f) o'), (f_active (g f)); cbn [andb] in *; lia.
Qed.

Lemma select_fact_elem o id d f : select_fact o id d = Some f -> f ∈ facts d /\ f_owner f = o /\ f_id f = id.
Proof. unfold select_fact. intros [H1 H2]%find_elem. eauto using own_fact_owner, own_fact_id. Qed.
Lemma select_fact_own o id d f : select_fact o id d = Some f -> own_fact o id f = true.
Proof. unfold select_fact. by intros [_ H]%find_elem. Qed.

(** The row identifier read back is the one of the selected fact. *)
Lemma fact_rowid_selected o id d f r : FactsSound d -> select_fact o id d = Some f -> fact_rowid id d = Ok r -> r = f_rowid f.
Proof.
  intros HS (Hf & _ & <-)%select_fact_elem Hr. unfold fact_rowid in Hr. destruct (List.find _ _) as [g|] eqn:E; [|done]. results.
  apply find_elem in E as [Hg E%teqb_eq]. f_equal. eapply NoDup_map_inj; [apply HS | done | done | done].
Qed.

Lemma update_fact_Ok o id rev g d d' u : update_fact o id rev g d = Ok (d', u) ->
  d' = with_facts (update_where (at_revision o id rev) g (facts d)) d /\
  (forall f, f ∈ facts d -> at_revision o id rev f = true -> check_fact (g f) = true).
Proof.
  unfold update_fact. destruct (forallb _ _) eqn:E; [|done]. intros H. results. split; [done|]. intros f Hf Hat.
  rewrite forallb_forall in E. apply list_elem_of_In in Hf. specialize (E _ Hf). rewrite Hat in E. done.
Qed.

(** An update that the bound revision admits, with the index entry of the old
    text removed and the one of a still active new text added. *)
Lemma bound_update_sound o id rev g f r d d1 d' u :
  FactsSound d -> select_fact o id d = Some f -> fact_rowid id d = Ok r -> f_revision f = rev -> f_active f = true ->
  update_fact o id rev g (fts_delete r (f_category f) (f_content f) d) = Ok (d1, u) ->
  f_rowid (g f) = f_rowid f -> f_id (g f) = f_id f -> f_owner (g f) = f_owner f -> f_digest (g f) = sha256_hex (f_content (g f)) ->
  d' = (if f_active (g f) then fts_insert r (f_category (g f)) (f_content (g f)) d1 else d1) -> FactsSound d'.
Proof.
  intros HS Hsel Hr Hrev Ha Hu Er Ei Eo Ed Ed'. pose proof (select_fact_elem _ _ _ _ Hsel) as (Hf & Ho & Hid).
  assert (at_revision o id rev f = true) as Hat.
  { unfold at_revision. by rewrite (select_fact_own _ _ _ _ Hsel), Hrev, Z.eqb_refl, Ha. }
  apply update_fact_Ok in Hu as [-> Hc]. pose proof (fact_rowid_selected o id d f r HS Hsel Hr) as Er2. subst r.
  apply (facts_sound_replace o id rev g f d d'); try done.
  - rewrite Ed'. by destruct (f_active (g f)).
  - rewrite Ed'. by destruct (f_active (g f)).
  - by apply Hc.
  - rewrite Ed'. destruct (f_active (g f)); cbn.
    + unfold entry_of at 1. by rewrite Er.
    + reflexivity.
Qed.

(** The index stays defined where an active fact's entry is deleted. *)
Lemma bound_delete_defined o id f r d : FactsSound d -> select_fact o id d = Some f -> fact_rowid id d = Ok r -> f_active f = true ->
  is_Some (fts d) -> is_Some (fts (fts_delete r (f_category f) (f_content f) d)).
Proof.
  intros HS Hsel Hr Ha. rewrite (fact_rowid_selected o id d f r HS Hsel Hr). apply select_fact_elem in Hsel as (Hf & _).
  apply (holds_delete_defined (fts d) (entry_of f) (map entry_of (List.filter f_active (facts d)))); [|apply HS].
  apply list_elem_of_fmap. exists f. split; [done|]. by apply elem_of_Filter.
Qed.
Lemma insert_fact_fts f d d1 u : insert_fact f d = Ok (d1, u) -> fts d1 = fts d.
Proof. unfold insert_fact. destruct (_ || _); [done|]. by intros [= <-]. Qed.
Lemma fts_insert_defined r k c d : is_Some (fts d) -> is_Some (fts (fts_insert r k c d)).
Proof. intros [l E]. cbn. rewrite E. by eexists. Qed.

Definition new_fact (env : Env) (o content category : text) (d : Db) : Fact :=
  MkFact (next_rowid d) (fresh env 0) o content category (sha256_hex content) 1 true (now env) (now env).

Lemma add_fact_inv env o content category reason d d' f : add_fact env o content category reason d = Ok (d', f) ->
  exists d1 c k, valid_owner o = true /\ clean_text content (max_fact_chars limits) false = Ok c /\
    clean_text category (max_category_chars limits) true = Ok k /\ active_count o d < max_facts_per_owner limits /\
    f = new_fact env o c k d /\ insert_fact f d = Ok (d1, tt) /\ d' = fts_insert (f_rowid f) k c d1.
Proof. unfold add_fact. intros H. op_steps. eexists _, _, _. split_and!; (eassumption || done). Qed.

Lemma deactivate_fact_inv env o id rev reason d d' f' : deactivate_fact env o id rev reason d = Ok (d', f') ->
  exists f r, valid_owner o = true /\ select_fact o id d = Some f /\ fact_rowid id d = Ok r /\ f_revision f = rev /\ f_active f = true /\
    update_fact o id rev (deactivated (now env)) (fts_delete r (f_category f) (f_content f) d) = Ok (d', tt) /\
    select_fact o id d' = Some f'.
Proof. unfold deactivate_fact. intros H. op_steps. eexists _, _. split_and!; (eassumption || done). Qed.

Lemma add_fact_sound env o content category reason d d' f :
  FactsSound d -> add_fact env o content category reason d = Ok (d', f) -> FactsSound d'.
Proof.
  intros HS (d1 & c & k & _ & _ & _ & Hc & -> & Hi & ->)%add_fact_inv.
  by apply (facts_sound_insert (new_fact env o c k d) d d1 tt).
Qed.
Lemma add_fact_kept env o content category reason d d' f : add_fact env o content category reason d = Ok (d', f) -> OthersKept o d d'.
Proof.
  intros (d1 & c & k & _ & _ & _ & Hc & -> & Hi & ->)%add_fact_inv.
  rewrite <- fts_insert_kept. by eapply insert_fact_kept.
Qed.

Lemma insert_fact_only f d d' u : insert_fact f d = Ok (d', u) -> FactsOnly d d'.
Proof. unfold insert_fact. intros H. by op_steps. Qed.
Lemma add_fact_only env o content category reason d d' f : add_fact env o content category reason d = Ok (d', f) -> FactsOnly d d'.
Proof. intros (d1 & c & k & _ & _ & _ & Hc & -> & Hi & ->)%add_fact_inv. by apply insert_fact_only in Hi. Qed.
Lemma deactivate_fact_only env o id rev reason d d' f : deactivate_fact env o id rev reason d = Ok (d', f) -> FactsOnly d d'.
Proof. intros (g & r & _ & Hsel & Hr & Hrev & Ha & [-> _]%update_fact_Ok & _)%deactivate_fact_inv. by split_and!. Qed.

Lemma deactivate_fact_sound env o id rev reason d d' f :
  FactsSound d -> deactivate_fact env o id rev reason d = Ok (d', f) -> FactsSound d'.
Proof.
  intros HS (g & r & _ & Hsel & Hr & Hrev & Ha & Hu & _)%deactivate_fact_inv.
  eapply (bound_update_sound o id rev (deactivated (now env)) g r d d' d' tt); try done.
  destruct HS as [_ _ _ Hd _ _ _]. rewrite Forall_forall in Hd. apply (Hd g). by apply select_fact_elem in Hsel as [? _].
Qed.
Lemma deactivate_fact_kept env o id rev reason d d' f : deactivate_fact env o id rev reason d = Ok (d', f) -> OthersKept o d d'.
Proof.
  intros (g & r & _ & Hsel & Hr & Hrev & Ha & Hu & _)%deactivate_fact_inv.
  rewrite (fts_delete_kept o r (f_category g) (f_content g) d). by eapply update_fact_kept.
Qed.

(** ** Proposals *)

(** What an approved proposal does to the facts: the list before and after. *)
Inductive Applies (env : Env) (o : text) (p : Proposal) (d : Db) : list Fact -> Prop :=
| applies_add content category :
    p_action p = ADD -> clean_text (or_empty (p_content p)) (max_fact_chars limits) false = Ok content ->
    clean_text (or_empty (p_category p)) (max_category_chars limits) true = Ok category ->
    Applies env o p d (facts d ++ [new_fact env o content category d])
| applies_update content category f l1 l2 :
    p_action p = UPDATE -> clean_text (or_empty (p_content p)) (max_fact_chars limits) false = Ok content ->
    clean_text (or_empty (p_category p)) (max_category_chars limits) true = Ok category ->
    facts d = l1 ++ f :: l2 -> f_owner f = o -> p_target p = Some (f_id f) -> p_expected_revision p = Some (f_revision f) ->
    p_expected_digest p = Some (f_digest f) -> f_active f = true ->
    Applies env o p d (l1 ++ rewritten content category (now env) f :: l2)
| applies_deactivate f l1 l2 :
    p_action p = DEACTIVATE ->
    facts d = l1 ++ f :: l2 -> f_owner f = o -> p_target p = Some (f_id f) -> p_expected_revision p = Some (f_revision f) ->
    p_expected_digest p = Some (f_digest f) -> f_active f = true ->
    Applies env o p d (l1 ++ deactivated (now env) f :: l2).

(** The fact that a proposal is bound to. *)
Definition Bound (o : text) (p : Proposal) (f : Fact) (d : Db) : Prop :=
  select_fact o (or_empty (p_target p)) d = Some f /\ f_revision f = or_zero (p_expected_revision p) /\
  f_digest f = or_empty (p_expected_digest p) /\ f_active f = true.

Lemma bind_target_Ok o p d u : bind_target o p d = Ok u -> exists f, Bound o p f d.
Proof. unfold bind_target. intros H. op_steps. exists a. repeat split; try done. by apply teqb_eq. Qed.

(** A present binding: the facts' constraints exclude the defaults. *)
Lemma or_empty_Some t s : or_empty t = s -> s <> [] -> t = Some s.
Proof. destruct t; cbn; congruence. Qed.
Lemma or_zero_Some t n : or_zero t = n -> n <> 0 -> t = Some n.
Proof. destruct t; cbn; congruence. Qed.
Lemma check_fact_bounds f : check_fact f = true -> 1 <= f_revision f /\ f_id f <> [] /\ f_digest f <> [].
Proof.
  unfold check_fact, len_between. intros H. guards. split; [lia|].
  split; intros E; rewrite E in *; cbn [length] in *; lia.
Qed.

Lemma bound_split o id rev (g : Fact -> Fact) f d :
  FactsSound d -> select_fact o id d = Some f -> f_revision f = rev -> f_active f = true ->
  exists l1 l2, facts d = l1 ++ f :: l2 /\ update_where (at_revision o id rev) g (facts d) = l1 ++ g f :: l2.
Proof.
  intros HS Hsel Hrev Ha. pose proof (select_fact_elem _ _ _ _ Hsel) as (Hf & Ho & Hid).
  apply (update_where_split f_id); [apply HS | done | |].
  - unfold at_revision. by rewrite (select_fact_own _ _ _ _ Hsel), Hrev, Z.eqb_refl, Ha.
  - intros y Hy. unfold at_revision in Hy. guards. rewrite (own_fact_id o id y); done.
Qed.

Lemma apply_pending_inv env o p d d' u : apply_pending env o p d = Ok (d', u) ->
  (p_action p = ADD /\ exists c k d1, clean_text (or_empty (p_content p)) (max_fact_chars limits) false = Ok c /\
     clean_text (or_empty (p_category p)) (max_category_chars limits) true = Ok k /\ active_count o d < max_facts_per_owner limits /\
     insert_fact (new_fact env o c k d) d = Ok (d1, tt) /\ d' = fts_insert (next_rowid d) k c d1) \/
  (p_action p = UPDATE /\ exists c k f r d1, clean_text (or_empty (p_content p)) (max_fact_chars limits) false = Ok c /\
     clean_text (or_empty (p_category p)) (max_category_chars limits) true = Ok k /\ Bound o p f d /\
     fact_rowid (or_empty (p_target p)) d = Ok r /\
     update_fact o (or_empty (p_target p)) (or_zero (p_expected_revision p)) (rewritten c k (now env))
       (fts_delete r (f_category f) (f_content f) d) = Ok (d1, tt) /\ d' = fts_insert r k c d1) \/
  (p_action p = DEACTIVATE /\ exists f r, Bound o p f d /\ fact_rowid (or_empty (p_target p)) d = Ok r /\
     update_fact o (or_empty (p_target p)) (or_zero (p_expected_revision p)) (deactivated (now env))
       (fts_delete r (f_category f) (f_content f) d) = Ok (d', tt)).
Proof.
  unfold apply_pending. intros H. destruct (teqb (p_action p) ADD) eqn:E1; [|destruct (teqb (p_action p) UPDATE) eqn:E2;
    [|destruct (teqb (p_action p) DEACTIVATE) eqn:E3; [|done]]].
  - left. split; [by apply teqb_eq|]. op_steps. eexists _, _, _. split_and!; (eassumption || done).
  - right; left. split; [by apply teqb_eq|]. op_steps.
    match goal with B : bind_target _ _ _ = Ok _ |- _ => destruct (bind_target_Ok _ _ _ _ B) as (f & HB) end.
    pose proof (proj1 HB) as Hs. simplify_eq. eexists _, _, _, _, _. split_and!; (eassumption || done).
  - right; right. split; [by apply teqb_eq|]. op_steps.
    match goal with B : bind_target _ _ _ = Ok _ |- _ => destruct (bind_target_Ok _ _ _ _ B) as (f & HB) end.
    pose proof (proj1 HB) as Hs. simplify_eq. eexists _, _. split_and!; (eassumption || done).
Qed.

Lemma bound_present o p f d : FactsSound d -> Bound o p f d ->
  f_owner f = o /\ p_target p = Some (f_id f) /\ p_expected_revision p = Some (f_revision f) /\ p_expected_digest p = Some (f_digest f).
Proof.
  intros HS (Hsel & Hrev & Hdig & _). apply select_fact_elem in Hsel as (Hf & Ho & Hid).
  destruct HS as [_ _ _ _ Hc _ _]. rewrite Forall_forall in Hc. destruct (check_fact_bounds f (Hc f Hf)) as (B1 & B2 & B3).
  split_and!; [done | by apply or_empty_Some | apply or_zero_Some; [done | lia] | by apply or_empty_Some].
Qed.

Lemma apply_pending_applies env o p d d' u : FactsSound d -> apply_pending env o p d = Ok (d', u) -> Applies env o p d (facts d').
Proof.
  intros HS [(E & c & k & d1 & H1 & H2 & _ & Hi & ->)|[(E & c & k & f & r & d1 & H1 & H2 & HB & _ & Hu & ->)|(E & f & r & HB & _ & Hu)]]%apply_pending_inv.
  - unfold insert_fact in Hi. op_steps. by apply applies_add.
  - apply update_fact_Ok in Hu as [-> _]. pose proof (bound_present _ _ _ _ HS HB) as (B1 & B2 & B3 & B4). destruct HB as (Hsel & Hrev & Hdig & Ha).
    destruct (bound_split o _ _ (rewritten c k (now env)) f d HS Hsel Hrev Ha) as (l1 & l2 & El & Eu). cbn [facts fts_insert fts_delete with_facts with_fts]. rewrite Eu. by apply applies_update.
  - apply update_fact_Ok in Hu as [-> _]. pose proof (bound_present _ _ _ _ HS HB) as (B1 & B2 & B3 & B4). destruct HB as (Hsel & Hrev & Hdig & Ha).
    destruct (bound_split o _ _ (deactivated (now env)) f d HS Hsel Hrev Ha) as (l1 & l2 & El & Eu). cbn [facts fts_insert fts_delete with_facts with_fts]. rewrite Eu. by apply applies_deactivate.
Qed.

Lemma sound_digest d f : FactsSound d -> f ∈ facts d -> f_digest f = sha256_hex (f_content f).
Proof. intros [_ _ _ H _ _ _]. rewrite Forall_forall in H. auto. Qed.

Lemma apply_pending_sound env o p d d' u : FactsSound d -> apply_pending env o p d = Ok (d', u) -> FactsSound d'.
Proof.
  intros HS [(E & c & k & d1 & H1 & H2 & Hc & Hi & ->)|[(E & c & k & f & r & d1 & H1 & H2 & HB & Hr & Hu & ->)|(E & f & r & HB & Hr & Hu)]]%apply_pending_inv.
  - by apply (facts_sound_insert (new_fact env o c k d) d d1 tt).
  - destruct HB as (Hsel & Hrev & Hdig & Ha).
    eapply (bound_update_sound o _ _ (rewritten c k (now env)) f r d d1 _ tt); try done. cbn. by rewrite Ha.
  - destruct HB as (Hsel & Hrev & Hdig & Ha).
    eapply (bound_update_sound o _ _ (deactivated (now env)) f r d d' d' tt); try done.
    apply (sound_digest d f HS). by apply select_fact_elem in Hsel as [? _].
Qed.

Lemma apply_pending_kept env o p d d' u : apply_pending env o p d = Ok (d', u) ->
  OthersKept o d d' /\ proposals d' = proposals d /\ refs d' = refs d /\ episodes d' = episodes d /\ runs d' = runs d.
Proof.
  intros [(E & c & k & d1 & H1 & H2 & Hc & Hi & ->)|[(E & c & k & f & r & d1 & H1 & H2 & HB & Hr & Hu & ->)|(E & f & r & HB & Hr & Hu)]]%apply_pending_inv.
  - split; [rewrite <- fts_insert_kept; by eapply insert_fact_kept|]. unfold insert_fact in Hi. by op_steps.
  - split; [rewrite <- fts_insert_kept, (fts_delete_kept o r (f_category f) (f_content f) d); by eapply update_fact_kept|].
    by apply update_fact_Ok in Hu as [-> _].
  - split; [rewrite (fts_delete_kept o r (f_category f) (f_content f) d); by eapply update_fact_kept|].
    by apply update_fact_Ok in Hu as [-> _].
Qed.

Record ProposalsSound (d : Db) : Prop := {
  ps_ids : NoDup (map p_id (proposals d));
  ps_revisions : Forall (fun p => p_revision p = recomputed p) (proposals d);
  ps_cap : forall o, pending_count o d <= max_proposals_per_owner limits;
}.

(** A reference joins a proposal and an episode of its owner. *)
Definition RefsSound (d : Db) : Prop :=
  forall r, r ∈ refs d -> (exists p, p ∈ proposals d /\ p_owner p = ref_owner r /\ p_id p = ref_proposal r) /\
                         (exists e, e ∈ episodes d /\ e_owner e = ref_owner r /\ e_id e = ref_episode r).

Lemma proposals_sound_same d d' : proposals d' = proposals d -> ProposalsSound d -> ProposalsSound d'.
Proof. intros E []. split; unfold pending_count in *; rewrite ?E; auto. Qed.
Lemma refs_sound_same d d' : proposals d' = proposals d -> episodes d' = episodes d -> refs d' = refs d -> RefsSound d -> RefsSound d'.
Proof. intros E1 E2 E3 H r. rewrite E1, E2, E3. auto. Qed.

Lemma insert_refs_spec o id sources d d' u : insert_refs o id sources d = Ok (d', u) ->
  exists l, d' = with_refs (refs d ++ l) d /\ map ref_episode l = sources /\
    Forall (fun r => ref_owner r = o /\ ref_proposal r = id /\ exists e, e ∈ episodes d /\ e_owner e = o /\ e_id e = ref_episode r) l.
Proof.
  revert d. induction sources as [|s sources IH]; intros d H; cbn [insert_refs] in H.
  - op_steps. exists []. rewrite app_nil_r. split; [by destruct d' | auto].
  - destruct (bool_decide (select_episode o s d = None)) eqn:E; [done|]. op_steps.
    unfold insert_ref in Hb. op_steps. destruct (IH _ H) as (l & -> & E1 & E2). exists (MkRef o id s :: l).
    split; [|split].
    + unfold with_refs. cbn. by rewrite <- app_assoc.
    + cbn [map ref_episode]. by rewrite E1.
    + constructor; [|exact E2]. cbn. split_and!; try done. destruct (select_episode o s d) as [e|] eqn:Es; [|done].
      apply find_elem in Es as [He Hown]. exists e. eauto using own_episode_owner, own_episode_id.
Qed.

(** A stored draft: one new pending proposal and its references. *)
Lemma store_proposal_inv o id at_ draft content category d d' r : store_proposal o id at_ draft content category d = Ok (d', r) ->
  let p := proposal_of o id at_ draft content category in
  exists l, d' = with_refs (refs d ++ l) (with_proposals (proposals d ++ [p]) d) /\ p_id p ∉ map p_id (proposals d) /\
    map ref_episode l = sorted_ids (d_sources draft) /\ r = attach_refs o d' p /\
    Forall (fun r => ref_owner r = o /\ ref_proposal r = id /\ exists e, e ∈ episodes d /\ e_owner e = o /\ e_id e = ref_episode r) l.
Proof.
  intros H p. unfold store_proposal in H. op_steps. unfold insert_proposal in Hb. op_steps.
  apply insert_refs_spec in Hb0 as (l & -> & E1 & E2). exists l. split_and!; try done. by apply existsb_key.
Qed.

Lemma store_proposal_kept o id at_ draft content category d d' r :
  store_proposal o id at_ draft content category d = Ok (d', r) -> OthersKept o d d'.
Proof.
  unfold store_proposal. intros H. op_steps. transitivity d0; [by eapply insert_proposal_kept | by eapply insert_refs_kept].
Qed.

Lemma pending_count_snoc o p d d' : proposals d' = proposals d ++ [p] ->
  pending_count o d' = pending_count o d + (if teqb (p_owner p) o && is_pending p then 1 else 0).
Proof. intros E. unfold pending_count. by rewrite E, count_snoc. Qed.

(** The tables that a stored draft touches stay sound; the cap is the caller's. *)
Lemma store_proposal_sound o id at_ draft content category d d' r :
  store_proposal o id at_ draft content category d = Ok (d', r) -> ProposalsSound d -> RefsSound d ->
  pending_count o d < max_proposals_per_owner limits -> ProposalsSound d' /\ RefsSound d'.
Proof. clear flags.
  intros (l & -> & Hid & _ & _ & Hl)%store_proposal_inv [H1 H2 H3] HR Hc. split; [split|]; cbn [with_refs with_proposals proposals].
  - by apply NoDup_map_snoc.
  - apply Forall_app. split; [done|]. by constructor.
  - intros o'. rewrite (pending_count_snoc o' (proposal_of o id at_ draft content category) d) by done. specialize (H3 o').
    cbn [proposal_of p_owner]. destruct (teqb o o') eqn:E; cbn [andb]; [|lia]. apply teqb_eq in E. subst o'. destruct (is_pending _); lia.
  - intros x. cbn [with_refs with_proposals refs proposals episodes]. intros [Hx|Hx]%elem_of_app.
    + destruct (HR x Hx) as [(p & Hp & Hp2) He]. split; [|done]. exists p. set_solver.
    + rewrite Forall_forall in Hl. destruct (Hl x Hx) as (-> & -> & He). split; [|done].
      eexists. split; [apply elem_of_app; right; left|]. done.
Qed.

Lemma create_proposal_inv env o draft d d' r : create_proposal env o draft d = Ok (d', r) ->
  exists content category, pending_count o d < max_proposals_per_owner limits /\
    store_proposal o (fresh env 0) (now env) draft content category d = Ok (d', r).
Proof. unfold create_proposal. intros H. op_steps. eauto. Qed.

Lemma insert_proposal_in_tx_inv o id at_ draft d d' r : insert_proposal_in_tx o id at_ draft d = Ok (d', r) ->
  exists content category, store_proposal o id at_ draft content category d = Ok (d', r).
Proof. unfold insert_proposal_in_tx. intros H. op_steps. eauto. Qed.

(** A decision. *)
Lemma decide_proposal_inv env o id revision apply reason d d' r : decide_proposal env o id revision apply reason d = Ok (d', r) ->
  exists p d1, valid_owner o = true /\ select_proposal o id d = Some p /\ p_status p = Pending /\ p_revision p = revision /\ recomputed p = revision /\
    (if apply then apply_pending env o p d else Ok (d, tt)) = Ok (d1, tt) /\
    d' = with_proposals (update_where (fun p => own_proposal o id p && is_pending p && teqb (p_revision p) revision)
           (decided (if apply then Applied else Rejected) (now env)) (proposals d1)) d1.
Proof.
  unfold decide_proposal. intros H. op_steps.
  repeat match goal with E : teqb _ _ = true |- _ => apply teqb_eq in E | E : is_pending _ = true |- _ => apply is_pending_true in E end.
  eexists _, _. split_and!; (eassumption || done).
Qed.

Lemma decide_proposal_tables env o id revision apply reason d d' r : decide_proposal env o id revision apply reason d = Ok (d', r) ->
  refs d' = refs d /\ episodes d' = episodes d /\ runs d' = runs d /\
  proposals d' = update_where (fun p => own_proposal o id p && is_pending p && teqb (p_revision p) revision)
                   (decided (if apply then Applied else Rejected) (now env)) (proposals d).
Proof.
  intros (p & d1 & _ & _ & _ & _ & _ & Ha & ->)%decide_proposal_inv. cbn [with_proposals refs episodes runs proposals].
  destruct apply; [|by op_steps]. apply apply_pending_kept in Ha as (_ & -> & -> & -> & ->). done.
Qed.

Lemma decide_proposal_kept env o id revision apply reason d d' r :
  decide_proposal env o id revision apply reason d = Ok (d', r) -> OthersKept o d d'.
Proof.
  intros (p & d1 & _ & _ & _ & _ & _ & Ha & ->)%decide_proposal_inv. transitivity d1.
  - destruct apply; [by apply apply_pending_kept in Ha as [? _] | by op_steps].
  - apply update_proposals_kept; [|done]. intros x H. guards. by eapply own_proposal_owner.
Qed.

Lemma decide_proposal_sound env o id revision apply reason d d' r :
  decide_proposal env o id revision apply reason d = Ok (d', r) -> FactsSound d -> ProposalsSound d -> RefsSound d ->
  FactsSound d' /\ ProposalsSound d' /\ RefsSound d'.
Proof.
  intros H HF [P1 P2 P3] HR. destruct (decide_proposal_tables _ _ _ _ _ _ _ _ _ H) as (T1 & T2 & _ & T3).
  apply decide_proposal_inv in H as (p & d1 & _ & _ & _ & _ & _ & Ha & Ed). split; [|split; [split|]].
  - apply (facts_sound_same d1); [by rewrite Ed..|]. destruct apply; [by eapply apply_pending_sound | by op_steps].
  - rewrite T3, map_update; done.
  - rewrite T3. apply Forall_forall. rewrite Forall_forall in P2. intros x (y & Hy & [[_ ->]|[_ ->]])%elem_of_update; [apply (P2 y Hy)|auto].
  - intros o'. etransitivity; [|apply (P3 o')]. unfold pending_count. rewrite T3. apply count_update_le.
    intros x Hx. guards. unfold is_pending in *. by destruct apply.
  - intros x Hx. rewrite T1 in Hx. destruct (HR x Hx) as [(q & Hq & Hq2) He]. rewrite T2, T3. split; [|done].
    set (sel := fun p => own_proposal o id p && is_pending p && teqb (p_revision p) revision).
    exists (if sel q then decided (if apply then Applied else Rejected) (now env) q else q). split.
    + apply elem_of_update. exists q. split; [done|]. unfold sel. destruct (_ && _); auto.
    + by destruct (sel q).
Qed.

(** *** Where the index stays defined *)

Lemma add_fact_defined env o content category reason d d' f :
  add_fact env o content category reason d = Ok (d', f) -> is_Some (fts d) -> is_Some (fts d').
Proof. intros (d1 & c & k & _ & _ & _ & _ & -> & Hi%insert_fact_fts & ->)%add_fact_inv H. apply fts_insert_defined. by rewrite Hi. Qed.

Lemma deactivate_fact_defined env o id rev reason d d' f :
  deactivate_fact env o id rev reason d = Ok (d', f) -> FactsSound d -> is_Some (fts d) -> is_Some (fts d').
Proof.
  intros (g & n & _ & Hs & Hr & _ & Ha & [-> _]%update_fact_Ok & _)%deactivate_fact_inv HS H. by eapply bound_delete_defined.
Qed.

Lemma apply_pending_defined env o p d d' u : apply_pending env o p d = Ok (d', u) -> FactsSound d -> is_Some (fts d) -> is_Some (fts d').
Proof.
  intros [(_ & c & k & d1 & _ & _ & _ & Hi%insert_fact_fts & ->)|[(_ & c & k & f & n & d1 & _ & _ & (Hs & _ & _ & Ha) & Hr & [-> _]%update_fact_Ok & ->)
    |(_ & f & n & (Hs & _ & _ & Ha) & Hr & [-> _]%update_fact_Ok)]]%apply_pending_inv HS H.
  - apply fts_insert_defined. by rewrite Hi.
  - apply fts_insert_defined. by eapply bound_delete_defined.
  - by eapply bound_delete_defined.
Qed.

Lemma decide_proposal_defined env o id revision apply reason d d' r :
  decide_proposal env o id revision apply reason d = Ok (d', r) -> FactsSound d -> is_Some (fts d) -> is_Some (fts d').
Proof.
  intros (p & d1 & _ & _ & _ & _ & _ & Ha & ->)%decide_proposal_inv HS H. destruct apply; [exact (apply_pending_defined _ _ _ _ _ _ Ha HS H) | by injection Ha as <-].
Qed.

(** ** Episodes *)

(** The rows of the table, apart from the space that they take. *)
Record RowsSound (d : Db) : Prop := {
  es_ids : NoDup (map e_id (episodes d));
  es_checks : Forall (fun e => check_episode e = true) (episodes d);
  es_refs : RefsSound d;
}.
Definition EpisodesSound (d : Db) : Prop := RowsSound d /\ forall o, over_limits o d = false.

Lemma check_episode_bytes e : check_episode e = true -> 0 <= e_byte_len e.
Proof. unfold check_episode. intros H. guards. lia. Qed.

Lemma episodes_sound_same d d' : episodes d' = episodes d -> RefsSound d' -> EpisodesSound d -> EpisodesSound d'.
Proof. intros E HR [[] H]. split; [split|]; unfold over_limits, episode_count, episode_total in *; rewrite ?E; auto. Qed.

(** The space of an owner depends on its own rows. *)
Lemma over_limits_mine o d d' : mine e_owner o (episodes d') = mine e_owner o (episodes d) -> over_limits o d' = over_limits o d.
Proof. intros E. unfold over_limits, episode_count, episode_total, count, of_owner. unfold mine in E. by rewrite E. Qed.

Lemma others_space o d d' o' : OthersKept o d d' -> o' <> o -> over_limits o' d' = over_limits o' d.
Proof. intros [_ _ _ H _] N. by apply over_limits_mine, (foreign_mine e_owner o). Qed.

Lemma over_limits_false o d : over_limits o d = false <->
  episode_count o d <= max_episodes_per_owner limits /\ episode_total o d <= max_episode_bytes_per_owner limits.
Proof. clear sha256_hex flags. unfold over_limits. rewrite orb_false_iff, !Z.ltb_ge. tauto. Qed.

(** Rows go, and their references with them. *)
Lemma rows_sound_delete p q d d' : RowsSound d -> episodes d' = delete_where p (episodes d) -> refs d' = delete_where q (refs d) ->
  proposals d' = proposals d -> (forall r e, r ∈ refs d -> q r = false -> e ∈ episodes d -> e_owner e = ref_owner r -> e_id e = ref_episode r -> p e = false) ->
  RowsSound d'.
Proof.
  intros [H1 H2 HR] Ee Er Ep Hpq. split.
  - rewrite Ee. by apply NoDup_map_Filter.
  - rewrite Ee. apply Forall_forall. rewrite Forall_forall in H2. intros e [He _]%elem_of_delete. auto.
  - intros r Hr. rewrite Er in Hr. apply elem_of_delete in Hr as [Hr Hq]. destruct (HR r Hr) as [Hp (e & He & Eo & Ei)].
    rewrite Ep. split; [done|]. exists e. rewrite Ee, elem_of_delete. split_and!; try done. by eapply Hpq.
Qed.
Lemma space_delete p d d' o : RowsSound d -> episodes d' = delete_where p (episodes d) -> over_limits o d = false -> over_limits o d' = false.
Proof.
  intros [_ H2 _] Ee. rewrite !over_limits_false. unfold episode_count, episode_total. rewrite Ee.
  pose proof (count_delete_le (of_owner o) p (episodes d)). pose proof (sum_delete_le e_byte_len (of_owner o) p (episodes d)) as Hs.
  assert (Forall (fun x => 0 <= e_byte_len x) (episodes d)) as Hb by (eapply Forall_impl; [apply H2 | apply check_episode_bytes]).
  specialize (Hs Hb). lia.
Qed.

Lemma delete_episode_rows_sound o id d : RowsSound d -> RowsSound (delete_episode_rows o id d).
Proof.
  intros HE. eapply rows_sound_delete; [exact HE | reflexivity | reflexivity | reflexivity |].
  intros r e Hr Hq He Eo Ei. unfold own_episode. rewrite Eo, Ei. exact Hq.
Qed.
Lemma delete_episode_rows_episodes o id d : EpisodesSound d -> EpisodesSound (delete_episode_rows o id d).
Proof.
  intros [H1 H2]. split; [by apply delete_episode_rows_sound|]. intros o'. by eapply space_delete.
Qed.

(** *** Citations *)

Lemma referenced_pending_true o ep d : referenced_pending o ep d = true <->
  exists r p, r ∈ refs d /\ ref_owner r = o /\ ref_episode r = ep /\ p ∈ proposals d /\ p_id p = ref_proposal r /\ p_owner p = o /\ p_status p = Pending.
Proof.
  unfold referenced_pending. rewrite existsb_exists. split.
  - intros (r & Hr & H). guards. apply existsb_exists in H0 as (p & Hp & H0). guards.
    repeat match goal with E : teqb _ _ = true |- _ => apply teqb_eq in E end. exists r, p.
    match goal with E : is_pending p = true |- _ => apply is_pending_true in E end. rewrite !list_elem_of_In. split_and!; congruence.
  - intros (r & p & Hr & Eo & Ee & Hp & Ep & Epo & Es). exists r. rewrite <- list_elem_of_In. split; [done|].
    rewrite Eo, Ee, !teqb_refl. cbn. apply existsb_exists. exists p. rewrite <- list_elem_of_In. split; [done|].
    rewrite Ep, Epo, !teqb_refl. by apply is_pending_true.
Qed.

(** Cited episodes stay, and stay cited. *)
Definition CitedKept (d d' : Db) : Prop :=
  forall e, e ∈ episodes d -> referenced_pending (e_owner e) (e_id e) d = true ->
    e ∈ episodes d' /\ referenced_pending (e_owner e) (e_id e) d' = true.
#[export] Instance cited_kept_preorder : PreOrder CitedKept.
Proof. split; [intros d e; auto | intros a b c H1 H2 e He Hr; destruct (H1 e He Hr); auto]. Qed.

Lemma delete_episode_rows_cited o id d : referenced_pending o id d = false -> CitedKept d (delete_episode_rows o id d).
Proof.
  intros N e He Hr. assert (own_episode o id e = false) as Ne.
  { apply not_true_is_false. intros H. rewrite (own_episode_owner o id e H), (own_episode_id o id e H) in Hr. congruence. }
  split; [by apply elem_of_delete|].
  apply referenced_pending_true in Hr as (r & p & Hr & Eo & Ee & Hp). apply referenced_pending_true. exists r, p. split; [|done].
  apply elem_of_delete. split; [done|]. unfold own_episode in Ne. by rewrite Eo, Ee.
Qed.

#[export] Instance oldest_episode_total : Total oldest_episode.
Proof. intros a b. unfold oldest_episode. destruct (Z.lt_total (e_created a) (e_created b)) as [?|[?|?]], (total text_le (e_id a) (e_id b)); auto. Qed.
#[export] Instance oldest_episode_trans : Transitive oldest_episode.
Proof.
  intros a b c. unfold oldest_episode. intros [H1|[H1 H2]] [H3|[H3 H4]]; try (left; lia). right. split; [lia|]. by transitivity (e_id b).
Qed.

Lemma over_limits_nil at_ o d : episodes d = [] -> victim at_ o d = None.
Proof. intros E. unfold victim. by rewrite E. Qed.

Lemma victim_Some at_ o d e : victim at_ o d = Some e ->
  e ∈ episodes d /\ e_owner e = o /\ referenced_pending o (e_id e) d = false /\ (e_expires e <= at_ \/ over_limits o d = true) /\
  forall x, x ∈ episodes d -> e_owner x = o -> referenced_pending o (e_id x) d = false ->
    (e_expires x <= at_ \/ over_limits o d = true) -> oldest_episode e x.
Proof. clear sha256_hex flags.
  unfold victim. set (p := fun e => _). intros Hh. destruct (merge_sort oldest_episode _) as [|y l] eqn:El; [done|].
  cbn in Hh. injection Hh as ->.
  assert (forall x, x ∈ e :: l <-> x ∈ episodes d /\ p x = true) as Hin.
  { intros x. rewrite <- El, merge_sort_Permutation, elem_of_Filter. tauto. }
  destruct (proj1 (Hin e) (list_elem_of_here _ _)) as [He Hp]. unfold p in Hp. guards. unfold of_owner in *.
  split_and!; [done | by apply teqb_eq | done | |].
  - apply orb_true_iff in H0 as [H0|H0]; guards; auto.
  - intros x Hx Eo Hr Hc. assert (x ∈ e :: l) as Hxl.
    { apply Hin. split; [done|]. unfold p, of_owner. rewrite Eo, teqb_refl, Hr. cbn. apply orb_true_iff.
      destruct Hc as [Hc|Hc]; [left; by apply Z.leb_le | auto]. }
    apply elem_of_cons in Hxl as [->|Hxl]; [by destruct (total oldest_episode e e)|].
    assert (StronglySorted oldest_episode (e :: l)) as Hs by (rewrite <- El; apply StronglySorted_merge_sort; apply _).
    apply StronglySorted_inv in Hs as [_ Hs]. rewrite Forall_forall in Hs. auto.
Qed.

(** *** Pruning *)

(** The tables that pruning leaves. *)
Lemma prune_tables fuel at_ o d d' u : prune_owner_episodes fuel at_ o d = Ok (d', u) ->
  facts d' = facts d /\ proposals d' = proposals d /\ runs d' = runs d /\ next_rowid d' = next_rowid d /\ fts d' = fts d.
Proof.
  revert d. induction fuel as [|fuel IH]; intros d H; cbn [prune_owner_episodes] in H; destruct (victim at_ o d) as [e|]; op_steps; try done.
  apply IH in H. exact H.
Qed.

Lemma prune_spec fuel at_ o d d' u : prune_owner_episodes fuel at_ o d = Ok (d', u) -> RowsSound d ->
  RowsSound d' /\ CitedKept d d' /\ over_limits o d' = false /\ victim at_ o d' = None.
Proof. clear sha256_hex flags.
  revert d. induction fuel as [|fuel IH]; intros d H HS; cbn [prune_owner_episodes] in H; destruct (victim at_ o d) as [e|] eqn:Ev; op_steps; try done.
  apply IH in H as (H1 & H2 & H3); [|by apply delete_episode_rows_sound]. split_and!; try tauto.
  rewrite <- H2. apply victim_Some in Ev as (_ & _ & Hr & _). by apply delete_episode_rows_cited.
Qed.

Lemma delete_rows_shorter o e d : e ∈ episodes d -> e_owner e = o -> (length (episodes (delete_episode_rows o (e_id e) d)) < length (episodes d))%nat.
Proof.
  intros He Eo. cbn [delete_episode_rows with_refs with_episodes episodes]. apply list_elem_of_split in He as (l1 & l2 & ->).
  unfold delete_where. rewrite List.filter_app, !length_app. cbn [List.filter]. unfold own_episode at 2. rewrite Eo, !teqb_refl. cbn [andb negb length].
  pose proof (List.filter_length_le (fun x => negb (own_episode o (e_id e) x)) l1).
  pose proof (List.filter_length_le (fun x => negb (own_episode o (e_id e) x)) l2). lia.
Qed.

(** The loop ends within its fuel. *)
Lemma prune_ends fuel at_ o d : (length (episodes d) <= fuel)%nat ->
  (exists d', prune_owner_episodes fuel at_ o d = Ok (d', tt)) \/ prune_owner_episodes fuel at_ o d = Err err_cap.
Proof. clear sha256_hex flags.
  revert d. induction fuel as [|fuel IH]; intros d Hl; cbn [prune_owner_episodes]; destruct (victim at_ o d) as [e|] eqn:Ev.
  - apply victim_Some in Ev as (He & _). destruct (episodes d); [set_solver | cbn in Hl; lia].
  - destruct (over_limits o d); eauto.
  - apply IH. apply victim_Some in Ev as (He & Eo & _). pose proof (delete_rows_shorter o e d He Eo). lia.
  - destruct (over_limits o d); eauto.
Qed.

(** Deleting the rows of an uncited episode changes no citation. *)
Lemma delete_rows_referenced o id ep d : referenced_pending o id d = false ->
  referenced_pending o ep (delete_episode_rows o id d) = referenced_pending o ep d.
Proof. clear sha256_hex flags limits.
  intros N. apply eq_true_iff_eq. rewrite !referenced_pending_true. cbn [delete_episode_rows with_refs with_episodes refs proposals].
  split; intros (r & p & Hr & Eo & Ee & Hp); exists r, p; rewrite elem_of_delete in *; [tauto|]. split_and!; try tauto.
  rewrite Eo, Ee, teqb_refl. cbn. apply teqb_neq. intros ->. apply not_true_iff_false in N. apply N, referenced_pending_true. eauto 10.
Qed.

(** The rows that a prune may not touch. *)
Definition cited_rows (o : text) (d : Db) : list Episode :=
  List.filter (fun e => of_owner o e && referenced_pending o (e_id e) d) (episodes d).
Definition over (l : list Episode) : bool :=
  (max_episodes_per_owner limits <? Z.of_nat (length l)) || (max_episode_bytes_per_owner limits <? sum_of e_byte_len l).

Lemma cited_rows_delete o e d : referenced_pending o (e_id e) d = false ->
  cited_rows o (delete_episode_rows o (e_id e) d) = cited_rows o d.
Proof.
  intros N. unfold cited_rows.
  rewrite (Filter_ext_in _ (fun x => of_owner o x && referenced_pending o (e_id x) d)) by (intros x _; by rewrite delete_rows_referenced).
  cbn [delete_episode_rows with_refs with_episodes episodes]. induction (episodes d) as [|x l IH]; [done|].
  unfold delete_where in *. cbn [List.filter]. destruct (own_episode o (e_id e) x) eqn:E; cbn [negb List.filter]; [|by rewrite IH].
  rewrite (own_episode_id o _ x E), N, andb_false_r. exact IH.
Qed.

(** A prune is refused only when the cited rows by themselves are too many. *)
Lemma prune_refused fuel at_ o d : prune_owner_episodes fuel at_ o d = Err err_cap -> over (cited_rows o d) = true.
Proof. clear sha256_hex flags.
  revert d. induction fuel as [|fuel IH]; intros d; cbn [prune_owner_episodes]; destruct (victim at_ o d) as [e|] eqn:Ev; try done.
  2: intros H; apply IH in H; apply victim_Some in Ev as (_ & _ & Hr & _); by rewrite cited_rows_delete in H.
  all: destruct (over_limits o d) eqn:Eo; [intros _ | done];
    replace (over (cited_rows o d)) with (over_limits o d); [done|];
    unfold over_limits, episode_count, episode_total, count, over, cited_rows;
    rewrite (Filter_ext_in (fun e => of_owner o e && referenced_pending o (e_id e) d) (of_owner o)); [done|];
    intros x Hx; destruct (of_owner o x) eqn:Eox; [|done]; cbn [andb];
    apply not_false_is_true; intros N; unfold victim in Ev;
    match type of Ev with head (merge_sort oldest_episode ?l) = None =>
      assert (x ∈ merge_sort oldest_episode l) as Hin
        by (rewrite merge_sort_Permutation, elem_of_Filter, Eox, N, Eo, orb_true_r; auto);
      destruct (merge_sort oldest_episode l); [set_solver | done] end.
Qed.

Lemma prune_subset fuel at_ o d d' u x : prune_owner_episodes fuel at_ o d = Ok (d', u) -> x ∈ episodes d' -> x ∈ episodes d.
Proof.
  revert d. induction fuel as [|fuel IH]; intros d H Hx; cbn [prune_owner_episodes] in H; destruct (victim at_ o d) as [w|]; op_steps; try done.
  specialize (IH _ H Hx). by apply elem_of_delete in IH as [? _].
Qed.

(** What it deletes before its time is older than every uncited row it keeps. *)
Lemma prune_oldest fuel at_ o d d' u e x : prune_owner_episodes fuel at_ o d = Ok (d', u) -> RowsSound d ->
  e ∈ episodes d -> e ∉ episodes d' -> at_ < e_expires e -> x ∈ episodes d' -> e_owner x = o -> referenced_pending o (e_id x) d = false ->
  oldest_episode e x.
Proof. clear sha256_hex flags.
  revert d. induction fuel as [|fuel IH]; intros d H HS He Ne Hexp Hx Eo Hr; cbn [prune_owner_episodes] in H;
    destruct (victim at_ o d) as [v|] eqn:Ev; op_steps; try done.
  assert (x ∈ episodes (delete_episode_rows o (e_id v) d)) as Hx1 by (by eapply prune_subset).
  pose proof (victim_Some _ _ _ _ Ev) as (Hv & Evo & Hvr & Hc & Hold).
  destruct (own_episode o (e_id v) e) eqn:Eev.
  - assert (e = v) as ->.
    { apply (NoDup_map_inj e_id (episodes d)); [apply HS | done | done | by eapply own_episode_id]. }
    apply Hold; try done; [by apply elem_of_delete in Hx1 as [? _] | tauto || (right; destruct Hc; [lia | done])].
  - eapply IH; [exact H | by apply delete_episode_rows_sound | by apply elem_of_delete | done | done | done | done |].
    by rewrite delete_rows_referenced.
Qed.

(** A change of the rows of [o] followed by a prune. *)
Lemma pruned_sound at_ o d d1 d' u : EpisodesSound d -> RowsSound d1 -> OthersKept o d d1 -> prune at_ o d1 = Ok (d', u) -> EpisodesSound d'.
Proof.
  intros [_ HS] HR HK Hp. unfold prune in Hp. pose proof (prune_kept _ _ _ _ _ _ Hp) as HK2.
  apply prune_spec in Hp as (H1 & _ & H2 & _); [|done]. assert (OthersKept o d d') as HK3 by by transitivity d1.
  split; [done|]. intros o'. destruct (decide (o' = o)) as [->|N]; [done|]. by rewrite (others_space o d d' o' HK3 N).
Qed.

Lemma insert_episode_rows e d d' u : insert_episode e d = Ok (d', u) -> RowsSound d -> RowsSound d'.
Proof.
  unfold insert_episode. intros H [H1 H2 H3]. op_steps. split; cbn [with_episodes episodes].
  - apply NoDup_map_snoc; [done|]. by apply existsb_key.
  - apply Forall_app. auto.
  - intros r Hr. destruct (H3 r Hr) as [Hp (x & Hx)]. split; [done|]. exists x. set_solver.
Qed.

Lemma stage_inv env o draft coding d d' e : stage_episode_kind env o draft coding d = Ok (d', e) ->
  exists d1 e0, insert_episode e0 d = Ok (d1, tt) /\ e_owner e0 = o /\ prune (now env) o d1 = Ok (d', tt) /\
    List.find (fun x => teqb (e_id x) (fresh env 0)) (episodes d') = Some e.
Proof. unfold stage_episode_kind. intros H. op_steps. eexists _, _. split_and!; (eassumption || done). Qed.

Lemma episode_bytes_nonneg a b c : 0 <= episode_bytes a b c.
Proof.
  unfold episode_bytes. pose proof (byte_len_ge a). pose proof (byte_len_ge c). destruct b as [b|]; [pose proof (byte_len_ge b)|]; lia.
Qed.

Lemma set_summary_inv env o id summary reason d d' e : set_episode_summary env o id summary reason d = Ok (d', e) ->
  exists s bytes, len_between 1 4000 s = true /\ 0 <= bytes /\
    prune (now env) o (with_episodes (update_where (own_episode o id) (summarized s bytes) (episodes d)) d) = Ok (d', tt).
Proof.
  unfold set_episode_summary. intros H. op_steps. eexists _, _. split_and!; [eassumption | | eassumption].
  apply episode_bytes_nonneg.
Qed.

Lemma update_episodes_rows p g d : RowsSound d -> (forall e, e_id (g e) = e_id e) -> (forall e, e_owner (g e) = e_owner e) ->
  (forall e, check_episode e = true -> check_episode (g e) = true) ->
  RowsSound (with_episodes (update_where p g (episodes d)) d).
Proof.
  intros [H1 H2 H3] Gi Go Gc. split; cbn [with_episodes episodes].
  - by rewrite map_update.
  - apply Forall_forall. rewrite Forall_forall in H2. intros x (y & Hy & [[_ ->]|[_ ->]])%elem_of_update; auto.
  - intros r Hr. destruct (H3 r Hr) as [Hp (e & He & Eo & Ei)]. split; [done|]. cbn [with_episodes episodes].
    exists (if p e then g e else e). rewrite elem_of_update. split_and!; [exists e; destruct (p e); auto | by destruct (p e); rewrite ?Go | by destruct (p e); rewrite ?Gi].
Qed.

Lemma summarized_check s b e : len_between 1 4000 s = true -> 0 <= b -> check_episode e = true -> check_episode (summarized s b e) = true.
Proof.
  intros Hs Hb. unfold check_episode. cbn. intros H. guards. rewrite Hs.
  repeat match goal with E : _ = true |- _ => rewrite E; clear E end. cbn. rewrite !andb_true_r. by apply Z.leb_le.
Qed.

Lemma stage_sound env o draft coding d d' e : stage_episode_kind env o draft coding d = Ok (d', e) -> EpisodesSound d -> EpisodesSound d'.
Proof.
  intros (d1 & e0 & Hi & Eo & Hp & _)%stage_inv HE. eapply pruned_sound; [exact HE | | | exact Hp].
  - eapply insert_episode_rows; [exact Hi | apply HE].
  - by eapply insert_episode_kept.
Qed.

Lemma set_summary_sound env o id summary reason d d' e : set_episode_summary env o id summary reason d = Ok (d', e) -> EpisodesSound d -> EpisodesSound d'.
Proof.
  intros (s & b & Hs & Hb & Hp)%set_summary_inv HE. eapply pruned_sound; [exact HE | | | exact Hp].
  - apply update_episodes_rows; [apply HE | done | done |]. intros x. by apply summarized_check.
  - apply update_episodes_kept; [apply own_episode_owner | done].
Qed.

Lemma delete_episode_inv o id reason d d' u : delete_episode o id reason d = Ok (d', u) ->
  referenced_pending o id d = false /\ d' = delete_episode_rows o id d.
Proof. unfold delete_episode. intros H. by op_steps. Qed.

Lemma stage_kept env o draft coding d d' e : stage_episode_kind env o draft coding d = Ok (d', e) -> OthersKept o d d' /\ EpisodesOnly d d'.
Proof.
  intros (d1 & e0 & Hi & Eo & Hp & _)%stage_inv. unfold prune in Hp. pose proof (prune_kept _ _ _ _ _ _ Hp) as HK. apply prune_tables in Hp.
  split; [transitivity d1; [by eapply insert_episode_kept | done]|]. unfold insert_episode in Hi. op_steps. unfold EpisodesOnly. intuition congruence.
Qed.
Lemma set_summary_kept env o id summary reason d d' e : set_episode_summary env o id summary reason d = Ok (d', e) -> OthersKept o d d' /\ EpisodesOnly d d'.
Proof. clear sha256_hex.
  intros (s & b & Hs & Hb & Hp)%set_summary_inv. unfold prune in Hp. pose proof (prune_kept _ _ _ _ _ _ Hp) as HK. apply prune_tables in Hp.
  split; [|unfold EpisodesOnly; intuition congruence]. rewrite <- HK. apply update_episodes_kept; [apply own_episode_owner | done].
Qed.

(** The rounds of [purge_expired_episodes]. *)
Lemma delete_all_kept o ids d : let d' := foldl (fun d id => delete_episode_rows o id d) d ids in OthersKept o d d' /\ EpisodesOnly d d'.
Proof.
  revert d. induction ids as [|id ids IH]; intros d; [done|]. cbn [foldl]. destruct (IH (delete_episode_rows o id d)) as [H1 H2].
  cbn zeta. split; [rewrite <- H1; apply delete_episode_rows_kept | by rewrite <- H2].
Qed.
Lemma delete_all_sound o ids d : EpisodesSound d -> (forall id, id ∈ ids -> referenced_pending o id d = false) ->
  let d' := foldl (fun d id => delete_episode_rows o id d) d ids in EpisodesSound d' /\ CitedKept d d'.
Proof. clear sha256_hex flags.
  revert d. induction ids as [|id ids IH]; intros d HE Hr; [done|]. cbn [foldl].
  destruct (IH (delete_episode_rows o id d)) as (H1 & H3).
  - by apply delete_episode_rows_episodes.
  - intros id' Hid. rewrite delete_rows_referenced; apply Hr; set_solver.
  - cbn zeta. split; [done | rewrite <- H3; apply delete_episode_rows_cited, Hr; left].
Qed.

Lemma purge_expired_inv env o reason d d' n : purge_expired_episodes env o reason d = Ok (d', n) ->
  exists ids, (forall id, id ∈ ids -> referenced_pending o id d = false) /\ d' = foldl (fun d id => delete_episode_rows o id d) d ids.
Proof.
  unfold purge_expired_episodes. intros H. op_steps. eexists. split; [|reflexivity].
  intros id (e & -> & He)%list_elem_of_fmap. apply elem_of_Filter in He as [He _]. by guards.
Qed.

Lemma gone_unreferenced o d l id :
  id ∈ map e_id (List.filter (fun e => of_owner o e && negb (referenced_pending o (e_id e) d)) l) -> referenced_pending o id d = false.
Proof. intros (x & -> & Hx)%list_elem_of_fmap. apply elem_of_Filter in Hx as [Hx _]. by guards. Qed.

Lemma unreferenced_inv o reason d d' n : delete_unreferenced_episodes o reason d = Ok (d', n) ->
  let gone := map e_id (List.filter (fun e => of_owner o e && negb (referenced_pending o (e_id e) d)) (episodes d)) in
  facts d' = facts d /\ next_rowid d' = next_rowid d /\ fts d' = fts d /\ proposals d' = proposals d /\ runs d' = runs d /\
  refs d' = delete_where (fun r => teqb (ref_owner r) o && bool_decide (ref_episode r ∈ gone)) (refs d) /\
  episodes d' = delete_where (fun e => of_owner o e && negb (referenced_pending o (e_id e) d)) (episodes d).
Proof. clear sha256_hex flags.
  intros H gone. unfold delete_unreferenced_episodes in H. op_steps. split_and!; try done.
  cbn [with_episodes with_refs episodes]. unfold delete_where. apply Filter_ext_in. intros e He. do 3 f_equal.
  apply eq_true_iff_eq. rewrite !referenced_pending_true. cbn [with_refs refs proposals].
  split; intros (r & p & Hr & Eo & Ee & Hp); exists r, p; [apply elem_of_delete in Hr; tauto|].
  split; [|tauto]. apply elem_of_delete. split; [done|]. rewrite Eo, teqb_refl. cbn [andb]. apply bool_decide_eq_false. intros Hg%gone_unreferenced.
  apply not_true_iff_false in Hg. apply Hg, referenced_pending_true. eauto 10.
Qed.

Lemma unreferenced_sound o reason d d' n : delete_unreferenced_episodes o reason d = Ok (d', n) -> EpisodesSound d ->
  EpisodesSound d'.
Proof.
  intros (F1 & F2 & F3 & F4 & F5 & Fr & Fe)%unreferenced_inv [HR HS].
  split; [|intros o'; eapply space_delete; [exact HR | exact Fe | apply HS]]. eapply rows_sound_delete; [done | exact Fe | exact Fr | done |].
  intros r e Hr Hq He Eo Ei. apply not_true_is_false. intros Hp. apply not_true_iff_false in Hq. apply Hq.
  pose proof Hp as Hp2. apply andb_true_iff in Hp2 as [Hp2 _]. unfold of_owner in Hp2. rewrite <- Eo, Hp2. cbn [andb].
  apply bool_decide_eq_true, list_elem_of_fmap. exists e. by rewrite elem_of_Filter.
Qed.

Lemma unreferenced_kept o reason d d' n : delete_unreferenced_episodes o reason d = Ok (d', n) -> OthersKept o d d' /\ EpisodesOnly d d'.
Proof.
  intros (F1 & F2 & F3 & F4 & F5 & Fr & Fe)%unreferenced_inv. split; [|by split_and!].
  split; [by rewrite F1 | by rewrite F4 | rewrite Fr | rewrite Fe | by rewrite F5]; apply foreign_delete; intros x Hx; guards; unfold of_owner in *; by apply teqb_eq.
Qed.

Lemma unreferenced_cited o reason d d' n : delete_unreferenced_episodes o reason d = Ok (d', n) -> CitedKept d d'.
Proof.
  intros (F1 & F2 & F3 & F4 & F5 & Fr & Fe)%unreferenced_inv e He Hr. rewrite Fe, elem_of_delete.
  assert (of_owner o e && negb (referenced_pending o (e_id e) d) = false) as Np.
  { destruct (of_owner o e) eqn:E; [|done]. apply teqb_eq in E. by rewrite <- E, Hr. }
  split; [done|]. apply referenced_pending_true in Hr as (r & p & Hr & Eo & Ee & Hp). apply referenced_pending_true. exists r, p.
  rewrite F4, Fr, elem_of_delete. split; [|done]. split; [done|]. rewrite Eo.
  destruct (teqb (e_owner e) o) eqn:E; [|done]. apply teqb_eq in E. cbn [andb]. apply bool_decide_eq_false.
  intros Hg%gone_unreferenced. apply not_true_iff_false in Hg. apply Hg, referenced_pending_true. rewrite <- E. eauto 10.
Qed.

(** ** Purging an owner *)

Lemma entries_rowids l x : x ∈ map entry_of l -> fst (fst x) ∈ map f_rowid l.
Proof. intros (f & -> & Hf)%list_elem_of_fmap. apply list_elem_of_fmap. by exists f. Qed.

Lemma delete_open (l : list Fact) : foldl (fun i f => index_delete (entry_of f) i) None l = None.
Proof. induction l as [|f l IH]; [done|]. exact IH. Qed.

(** The deletes of a purge: exact, and defined if every fact is active. *)
Lemma remove_entries (l : list Fact) (rest : list (Z * text * text)) (idx : fts_index) :
  NoDup (map f_rowid l) -> (forall x, x ∈ rest -> fst (fst x) ∉ map f_rowid l) -> Holds idx (map entry_of (List.filter f_active l) ++ rest) ->
  Holds (foldl (fun i f => index_delete (entry_of f) i) idx l) rest
  /\ (Forall (fun f => f_active f = true) l -> is_Some idx -> is_Some (foldl (fun i f => index_delete (entry_of f) i) idx l)).
Proof.
  revert idx. induction l as [|f l IH]; intros idx Hnd Hrest Hp; [done|]. cbn [map] in Hnd. apply NoDup_cons in Hnd as [Hf Hnd]. cbn [foldl].
  cbn [List.filter] in Hp. destruct (f_active f) eqn:Ha.
  - cbn [map app] in Hp. destruct (IH (index_delete (entry_of f) idx)) as [I1 I2]; [done | intros x Hx; specialize (Hrest x Hx); set_solver | by eapply holds_delete |].
    split; [exact I1|]. intros [_ Hall]%Forall_cons Hi. apply I2; [done|]. eapply holds_delete_defined; [|exact Hp | exact Hi]. left.
  - assert (index_delete (entry_of f) idx = None) as ->.
    { destruct idx as [z|]; [|done]. cbn. rewrite bool_decide_false; [done|]. rewrite (Hp z) by done. rewrite elem_of_app. intros [Hx|Hx].
      - apply entries_rowids in Hx. apply Hf. apply list_elem_of_fmap in Hx as (g & E & Hg). apply elem_of_Filter in Hg as [_ Hg].
        apply list_elem_of_fmap. by exists g.
      - apply (Hrest _ Hx). left. }
    rewrite delete_open. split; [by intros x|]. intros [Hb _]%Forall_cons. congruence.
Qed.

Lemma purge_owner_facts o reason d d' n : purge_owner o reason d = Ok (d', n) -> FactsSound d ->
  FactsSound d' /\ ((forall f, f ∈ facts d -> f_owner f = o -> f_active f = true) -> is_Some (fts d) -> is_Some (fts d')).
Proof. clear flags.
  intros H [H1 H2 H3 H4 H5 H6 H7]. unfold purge_owner in H. op_steps.
  set (mf := List.filter (fun f => teqb (f_owner f) o) (facts d)). set (ff := delete_where (fun f => teqb (f_owner f) o) (facts d)).
  assert (facts d ≡ₚ mf ++ ff) as Hperm by apply mine_foreign_perm.
  assert (forall f, f ∈ ff -> f ∈ facts d) as Hsub by (intros f Hf; rewrite Hperm; set_solver).
  destruct (remove_entries mf (map entry_of (List.filter f_active ff)) (fts d)) as [I1 I2].
  { by apply NoDup_map_Filter. }
  { intros x Hx%entries_rowids Hm. apply list_elem_of_fmap in Hx as (f & Ef & Hf), Hm as (g & Eg & Hg).
      apply elem_of_Filter in Hf as [_ Hf]. assert (f = g) as <-.
      { apply (NoDup_map_inj f_rowid (facts d)); [done | by apply Hsub | rewrite Hperm; set_solver | congruence]. }
      apply elem_of_delete in Hf as [_ Hf]. apply elem_of_Filter in Hg as [Hg _]. congruence. }
  { eapply holds_perm; [|exact H6]. by rewrite Hperm, List.filter_app, map_app. }
  split; [split; cbn [facts fts next_rowid]; fold ff mf|].
  - by apply NoDup_map_Filter.
  - by apply NoDup_map_Filter.
  - rewrite Forall_forall in *. auto.
  - rewrite Forall_forall in *. auto.
  - rewrite Forall_forall in *. auto.
  - exact I1.
  - intros o'. etransitivity; [|apply (H7 o')]. unfold active_count. cbn [facts]. apply count_delete_le.
  - intros Hall. apply I2, Forall_forall. intros f [Ho%teqb_eq Hf]%elem_of_Filter. auto.
Qed.

Lemma purge_owner_sound o reason d d' n : purge_owner o reason d = Ok (d', n) -> ProposalsSound d -> EpisodesSound d ->
  ProposalsSound d' /\ EpisodesSound d'.
Proof. clear flags.
  intros H [P1 P2 P3] [[E1 E2 E3] E4]. unfold purge_owner in H. op_steps. split; [split | split; [split|]]; cbn [proposals episodes facts refs runs].
  - by apply NoDup_map_Filter.
  - apply Forall_forall. rewrite Forall_forall in P2. intros x [Hx _]%elem_of_delete. auto.
  - intros o'. etransitivity; [apply count_delete_le | apply P3].
  - by apply NoDup_map_Filter.
  - apply Forall_forall. rewrite Forall_forall in E2. intros x [Hx _]%elem_of_delete. auto.
  - intros r. cbn [refs]. intros [Hr Ho]%elem_of_delete. destruct (E3 r Hr) as [(p & Hp & Epo & Epi) (e & He & Eeo & Eei)].
    split; [exists p | exists e]; cbn [proposals episodes]; rewrite elem_of_delete; unfold of_owner; rewrite ?Epo, ?Eeo; done.
  - intros o'. specialize (E4 o'). eapply (space_delete (of_owner o) d); [by split | done | done].
Qed.

Lemma purge_owner_kept o reason d d' n : purge_owner o reason d = Ok (d', n) -> OthersKept o d d'.
Proof. unfold purge_owner. intros H. op_steps. split; cbn; apply foreign_delete; intros x; apply teqb_eq. Qed.
End Store.
