(* ===== verification/MemoryRuns.v ===== *)
(** Consolidation runs of the structured memory
    ([server/structured_memory.rs]) and the binding of what the consolidator
    answers ([server/structured_memory_consolidate.rs]).

    The set of cancelled runs lives beside the database in memory.  The model's
    call is asynchronous: a run is begun in one step and settled in another,
    and any operation may come in between.  [serde_json]'s encoding of a list
    of identifiers is a parameter.  A confidence is an exact rational. *)

From Stdlib Require Import QArith.
From S2P Require Import Prelude Text Effects Owners RepoPaths Tables Memory.
Local Open Scope Z_scope.

Definition SUMMARIZER_VERSION : text := T "consolidator-v2".
Definition PREEMPTED_CLASS : text := T "preempted".
Definition CANCELLED : text := T "cancelled".

(** The open store: the database and the runs whose cancellation was asked. *)
Record Mem := MkMem { db : Db; cancelled_runs : gset text }.
Notation run_tx A := (result harness_error (Mem * A)%type).

(** ** Runs *)

Section Runs.
Context (sha256_hex : text -> text) (flags : text -> Z) (limits : Limits).

Fixpoint trimmed_ids (ids : list text) : result harness_error (list text) :=
  match ids with
  | [] => Ok []
  | id :: ids =>
      if negb (valid_public_id (trim id)) then Err err_content
      else rest ← trimmed_ids ids; Ok (trim id :: rest)
  end.
Definition normalize_episode_ids (ids : list text) : result harness_error (list text) :=
  out ← trimmed_ids ids;
  if bool_decide (sorted_ids out = []) then Err err_content else Ok (sorted_ids out).

Definition consolidation_idempotency_key (o : text) (ids : list text) (version : text) : text :=
  sha256_hex (o ++ [c_newline] ++ join (T ",") ids ++ [c_newline] ++ version).

Fixpoint episodes_for_ids_from (o : text) (ids : list text) (d : Db) : result harness_error (list Episode) :=
  match ids with
  | [] => Ok []
  | id :: ids => e ← get_episode o id d; rest ← episodes_for_ids_from o ids d; Ok (e :: rest)
  end.
Definition episodes_for_ids (o : text) (ids : list text) (d : Db) : result harness_error (list Episode) :=
  _ ← require_owner o; episodes_for_ids_from o ids d.

Definition is_cancel_requested (id : text) (m : Mem) : bool := bool_decide (id ∈ cancelled_runs m).

Definition newest_run (a b : ConsolidationRun) : Prop := r_created b < r_created a \/ (r_created a = r_created b /\ text_le (r_id a) (r_id b)).
#[local] Instance newest_run_dec : RelDecision newest_run.
Proof. intros a b. unfold newest_run. apply _. Defined.

Definition is_state (s : RunState) (r : ConsolidationRun) : bool := bool_decide (r_state r = s).
Definition running_of (o : text) (r : ConsolidationRun) : bool := teqb (r_owner r) o && is_state RRunning r.
Definition running_consolidation (o : text) (d : Db) : result harness_error (option ConsolidationRun) :=
  _ ← require_owner o; Ok (head (merge_sort newest_run (List.filter (running_of o) (runs d)))).
Definition list_consolidation_runs (o : text) (d : Db) : result harness_error (list ConsolidationRun) :=
  _ ← require_owner o; Ok (take 32 (merge_sort newest_run (List.filter (fun r => teqb (r_owner r) o) (runs d)))).
Definition get_consolidation_run (o id : text) (d : Db) : result harness_error ConsolidationRun :=
  _ ← require_owner o;
  if negb (valid_public_id id) then Err err_not_found else ok_or (select_run o id d) err_not_found.

Definition with_key (o key : text) (r : ConsolidationRun) : bool := teqb (r_owner r) o && teqb (r_key r) key.
Definition select_key (o key : text) (d : Db) : option ConsolidationRun := List.find (with_key o key) (runs d).

(** The constraints of the table: the unique identifier and the unique index
    on the owner and a key of full length. *)
Definition run_conflict (r : ConsolidationRun) (d : Db) : bool :=
  negb (check_run r) || existsb (fun x => teqb (r_id x) (r_id r)) (runs d)
  || (bool_decide (length (r_key r) = 64%nat) && existsb (with_key (r_owner r) (r_key r)) (runs d)).
Definition insert_run (r : ConsolidationRun) (d : Db) : tx unit :=
  if run_conflict r d then Err err_io else Ok (with_runs (runs d ++ [r]) d, tt).

Definition new_run (env : Env) (o : text) (state : RunState) (ids : list text) (version key : text) : ConsolidationRun :=
  MkRun (fresh env 0) o state ids version key [] [] 0 0 0 (now env) None None.

Definition queue_suggestion_run (env : Env) (o : text) (ids : list text) (version : text) (d : Db) : tx ConsolidationRun :=
  _ ← require_owner o;
  let key := consolidation_idempotency_key o ids version in
  let r := new_run env o RIdle ids version key in
  let d := if run_conflict r d then d else with_runs (runs d ++ [r]) d in
  run ← ok_or (select_key o key d) err_io; Ok (d, run).

Definition owner_has_running (o : text) (d : Db) : bool := existsb (running_of o) (runs d).

Definition in_state (s : ConsolidationState) (e : Episode) : Episode :=
  MkEpisode (e_id e) (e_owner e) (e_session_ref e) (e_turn_ref e) (e_model e) (e_outcome e) (e_sensitivity e) (e_privacy_summary e)
    (e_semantic_summary e) s (e_created e) (e_expires e) (e_byte_len e).
Definition mark_episodes_state (o : text) (ids : list text) (s : ConsolidationState) (d : Db) : Db :=
  foldl (fun d id => with_episodes (update_where (own_episode o id) (in_state s) (episodes d)) d) d ids.

Definition error_is (c : text) (r : ConsolidationRun) : bool := bool_decide (r_error r = Some c).
Definition stopped (r : ConsolidationRun) : bool := is_state RIdle r || is_state RFailed r || is_state RCancelled r.
Definition open_run (r : ConsolidationRun) : bool := is_state RIdle r || is_state RRunning r.

Definition restarted (at_ : Z) (r : ConsolidationRun) : ConsolidationRun :=
  MkRun (r_id r) (r_owner r) RRunning (r_episodes r) (r_version r) (r_key r) [] [] 0 0 0 at_ None None.
Definition ended (s : RunState) (error : option text) (at_ : Z) (r : ConsolidationRun) : ConsolidationRun :=
  MkRun (r_id r) (r_owner r) s (r_episodes r) (r_version r) (r_key r) (r_model r) (r_proposals r) (r_proposal_count r) (r_candidate_count r)
    (r_rejected_count r) (r_created r) (Some at_) error.
Definition with_model (model : text) (r : ConsolidationRun) : ConsolidationRun :=
  MkRun (r_id r) (r_owner r) (r_state r) (r_episodes r) (r_version r) (r_key r) model (r_proposals r) (r_proposal_count r) (r_candidate_count r)
    (r_rejected_count r) (r_created r) (r_ended r) (r_error r).
Definition finished (model : text) (ids : list text) (candidates rejected at_ : Z) (r : ConsolidationRun) : ConsolidationRun :=
  MkRun (r_id r) (r_owner r) RDone (r_episodes r) (r_version r) (r_key r) model ids (Z.of_nat (length ids)) candidates rejected
    (r_created r) (Some at_) None.

Definition update_runs (p : ConsolidationRun -> bool) (g : ConsolidationRun -> ConsolidationRun) (d : Db) : Db :=
  with_runs (update_where p g (runs d)) d.

(** [begin_run]; the suggestion path only resumes a preempted run. *)
Definition begin_run (env : Env) (o : text) (ids : list text) (version : text) (preempted_only : bool) (m : Mem) : run_tx ConsolidationRun :=
  let d := db m in
  _ ← require_owner o;
  let key := consolidation_idempotency_key o ids version in
  match select_key o key d with
  | Some run =>
      if is_state RDone run then Ok (m, run)
      else if preempted_only && negb (open_run run) && negb (error_is PREEMPTED_CLASS run) then Ok (m, run)
      else if is_state RRunning run then Err err_busy
      else
        let d := update_runs (fun r => own_run o (r_id run) r && stopped r) (restarted (now env)) d in
        let d := mark_episodes_state o ids CPending d in
        started ← ok_or (select_run o (r_id run) d) err_io;
        Ok (MkMem d (cancelled_runs m ∖ {[r_id started]}), started)
  | None =>
      if owner_has_running o d then Err err_busy
      else
        '(d, _) ← insert_run (new_run env o RRunning ids version key) d;
        let d := mark_episodes_state o ids CPending d in
        started ← ok_or (select_run o (fresh env 0) d) err_io;
        Ok (MkMem d (cancelled_runs m), started)
  end.
Definition begin_consolidation_run env o ids version := begin_run env o ids version false.
Definition begin_suggestion_run env o ids version := begin_run env o ids version true.

Definition set_consolidation_model (o id model : text) (d : Db) : tx unit :=
  _ ← require_owner o;
  model ← clean_text flags model 200 true;
  let hit r := own_run o id r && is_state RRunning r in
  if existsb hit (runs d) then Ok (update_runs hit (with_model model) d, tt) else Err err_changed.

Definition cancel_consolidation_run (env : Env) (o id : text) (m : Mem) : run_tx ConsolidationRun :=
  let d := db m in
  _ ← require_owner o;
  if negb (valid_public_id id) then Err err_not_found
  else
    current ← ok_or (select_run o id d) err_not_found;
    if is_state RCancelled current then
      if negb (error_is PREEMPTED_CLASS current) then Ok (m, current)
      else
        let d := update_runs (fun r => own_run o id r && is_state RCancelled r && error_is PREEMPTED_CLASS r)
                   (ended RCancelled (Some CANCELLED) (now env)) d in
        run ← ok_or (select_run o id d) err_io;
        Ok (MkMem d ({[id]} ∪ cancelled_runs m), run)
    else if negb (open_run current) then Err err_changed
    else
      let d := update_runs (fun r => own_run o id r && open_run r) (ended RCancelled (Some CANCELLED) (now env)) d in
      let d := if is_state RRunning current then mark_episodes_state o (r_episodes current) CNone d else d in
      run ← ok_or (select_run o id d) err_io;
      Ok (MkMem d ({[id]} ∪ cancelled_runs m), run).

Definition failed_state (error_class : text) : RunState :=
  if teqb error_class CANCELLED || teqb error_class (T "source_cleared") || teqb error_class (T "SUGGESTION_CANCELLED")
     || teqb error_class PREEMPTED_CLASS
  then RCancelled else RFailed.

Definition fail_consolidation_run (env : Env) (o id error_class : text) (d : Db) : tx ConsolidationRun :=
  _ ← require_owner o;
  current ← ok_or (select_run o id d) err_not_found;
  if negb (open_run current) && negb (error_is PREEMPTED_CLASS current) then Ok (d, current)
  else
    let d := update_runs (fun r => own_run o id r && (open_run r || error_is PREEMPTED_CLASS r))
               (ended (failed_state error_class) (Some error_class) (now env)) d in
    let d := if is_state RRunning current then mark_episodes_state o (r_episodes current) CNone d else d in
    run ← ok_or (select_run o id d) err_io; Ok (d, run).

(** The drafts in order, each under the next fresh identifier. *)
Fixpoint insert_drafts (env : Env) (n : nat) (o : text) (drafts : list ProposalDraft) (d : Db) : tx (list text) :=
  match drafts with
  | [] => Ok (d, [])
  | draft :: drafts =>
      '(d, p) ← insert_proposal_in_tx sha256_hex flags limits o (fresh env n) (now env) draft d;
      '(d, ids) ← insert_drafts env (S n) o drafts d;
      Ok (d, p_id p.1 :: ids)
  end.

Definition finish_consolidation_run (env : Env) (o id model : text) (candidates rejected : Z) (drafts : list ProposalDraft) (m : Mem)
    : run_tx ConsolidationRun :=
  let d := db m in
  _ ← require_owner o;
  if is_cancel_requested id m then
    '(d, run) ← fail_consolidation_run env o id CANCELLED d; Ok (MkMem d (cancelled_runs m), run)
  else
    model ← clean_text flags model 200 true;
    current ← ok_or (select_run o id d) err_not_found;
    if negb (is_state RRunning current) then Ok (m, current)
    else if max_proposals_per_owner limits <? pending_count o d + Z.of_nat (length drafts) then Err err_cap
    else
      '(d, ids) ← insert_drafts env 0 o drafts d;
      let d := update_runs (fun r => own_run o id r && is_state RRunning r) (finished model ids candidates rejected (now env)) d in
      let d := mark_episodes_state o (r_episodes current) CDone d in
      run ← ok_or (select_run o id d) err_io;
      Ok (MkMem d (cancelled_runs m), run).

(** What a start of the process does to the runs that it finds. *)
Definition recover_interrupted_runs (at_ : Z) (d : Db) : Db :=
  let d := update_runs (fun r => is_state RIdle r || (is_state RCancelled r && error_is PREEMPTED_CLASS r))
             (ended RFailed (Some (T "input_lost_on_restart")) at_) d in
  let d := update_runs (is_state RRunning) (ended RFailed (Some (T "interrupted")) at_) d in
  with_episodes (update_where (fun e => bool_decide (e_state e = CPending)) (in_state CNone) (episodes d)) d.

(** *** The answer of the consolidator *)

Record ConsolidatorCandidate := MkCandidate {
  k_action : text; k_target : option text; k_content : option text; k_category : option text; k_confidence : option Q;
  k_uncertainty : option text; k_sensitivity : text; k_sources : list text;
}.
Record BoundCandidate := MkBound {
  b_action : text; b_content : option text; b_category : option text; b_target : option text;
  b_expected_revision : option Z; b_expected_digest : option text; b_sources : list text;
}.

Definition has_nul (t : text) : bool := existsb (Z.eqb 0) t.

Definition confidence_refused (min_confidence : Q) (c : Q) : bool :=
  negb (Qle_bool 0 c && Qle_bool c 1) || negb (Qle_bool min_confidence c).

Definition candidate_category (max_category_chars : Z) (c : ConsolidatorCandidate) : option (option text) :=
  match trimmed_nonempty (k_category c) with
  | Some t => if (Z.of_nat (length t) <=? max_category_chars) && negb (has_nul t) then Some (Some t) else None
  | None => Some None
  end.
Definition candidate_content (max_fact_chars : Z) (c : ConsolidatorCandidate) : option (option text) :=
  match trimmed_nonempty (k_content c) with
  | Some t =>
      if negb (teqb (k_action c) DEACTIVATE) && len_between 1 max_fact_chars t && negb (has_nul t) then Some (Some t)
      else if teqb (k_action c) DEACTIVATE then Some None else None
  | None => if teqb (k_action c) DEACTIVATE then Some None else None
  end.

Definition bound_to (action : text) (content category : option text) (f : Fact) (sources : list text) : BoundCandidate :=
  MkBound action content category (Some (f_id f)) (Some (f_revision f)) (Some (f_digest f)) sources.

Definition bind_one (c : ConsolidatorCandidate) (selected : list text) (facts : list Fact) (max_fact_chars max_category_chars : Z)
    (min_confidence : Q) : option BoundCandidate :=
  if negb (valid_action (k_action c)) then None
  else if negb (valid_sensitivity (k_sensitivity c)) then None
  else if teqb (k_sensitivity c) (T "reject") then None
  else if match k_confidence c with Some q => confidence_refused min_confidence q | None => false end then None
  else if match k_uncertainty c with Some t => (200 <? Z.of_nat (length t)) || has_nul t | None => false end then None
  else if negb (forallb (fun id => bool_decide (id ∈ selected) && valid_public_id id) (k_sources c)) then None
  else
    let sources := sorted_ids (k_sources c) in
    if bool_decide (sources = []) then None
    else
      category ← candidate_category max_category_chars c;
      content ← candidate_content max_fact_chars c;
      let target := trimmed_nonempty (k_target c) in
      if teqb (k_action c) ADD then
        match match content with Some t => List.find (fun f => f_active f && teqb (f_content f) t) facts | None => None end with
        | Some existing => Some (bound_to UPDATE content category existing sources)
        | None => match target with
                  | Some _ => None
                  | None => Some (MkBound (k_action c) content category target None None sources)
                  end
        end
      else
        id ← target;
        if negb (valid_public_id id) then None
        else existing ← List.find (fun f => teqb (f_id f) id && f_active f) facts; Some (bound_to (k_action c) content category existing sources).

#[export] Instance bound_eq_dec : EqDecision BoundCandidate.
Proof. solve_decision. Defined.

(** The loop: the bound candidates so far, without repetitions, and the count
    of the refused ones. *)
Definition bind_step (selected : list text) (facts : list Fact) (mf mc : Z) (min_confidence : Q) (acc : list BoundCandidate * Z)
    (c : ConsolidatorCandidate) : list BoundCandidate * Z :=
  match bind_one c selected facts mf mc min_confidence with
  | Some item => if bool_decide (item ∈ acc.1) then (acc.1, acc.2 + 1) else (acc.1 ++ [item], acc.2)
  | None => (acc.1, acc.2 + 1)
  end.
Definition bind_candidates (output : list ConsolidatorCandidate) (selected : list text) (facts : list Fact) (mf mc : Z) (min_confidence : Q)
    : list BoundCandidate * Z := foldl (bind_step selected facts mf mc min_confidence) ([], 0) output.

Definition draft_from_bound (b : BoundCandidate) : ProposalDraft :=
  MkDraft (b_action b) (b_content b) (b_category b) (b_target b) (b_expected_revision b) (b_expected_digest b) (b_sources b).
Definition drafts_from_bound (l : list BoundCandidate) : list ProposalDraft := map draft_from_bound l.

(** *** A manual run: begun in one step, settled when the model has answered *)

(** [run_manual] up to the call of the model.  [Ok (m, (run, true))] asks for
    the call; an answer that is not running is returned at once. *)
Definition run_manual_begin (env : Env) (o : text) (episode_ids : list text) (m : Mem) : run_tx (ConsolidationRun * bool) :=
  ids ← normalize_episode_ids episode_ids;
  if max_consolidation_episodes limits <? Z.of_nat (length ids) then Err err_cap
  else
    _ ← episodes_for_ids o ids (db m);
    '(m, claimed) ← begin_consolidation_run env o ids SUMMARIZER_VERSION m;
    Ok (m, (claimed, is_state RRunning claimed)).

(** [generate_and_finish] after the call: the parsed answer or the error. *)
Definition generate_and_finish (env : Env) (o : text) (run : ConsolidationRun) (min_confidence : Q)
    (reply : result harness_error (text * list ConsolidatorCandidate)) (m : Mem) : run_tx ConsolidationRun :=
  if is_cancel_requested (r_id run) m then Err (err_code "STRUCTURED_MEMORY_CANCELLED")
  else
    '(model, candidates) ← reply;
    current ← list_facts o (db m);
    let '(bound, rejected) := bind_candidates candidates (r_episodes run) current (max_fact_chars limits) (max_category_chars limits) min_confidence in
    finish_consolidation_run env o (r_id run) model (Z.of_nat (length candidates)) rejected (drafts_from_bound bound) m.

(** The end of [run_manual]; [class] is its [error_class], which reads the
    message of the error. *)
Definition run_manual_settle (class : harness_error -> text) (env : Env) (o : text) (run : ConsolidationRun) (min_confidence : Q)
    (reply : result harness_error (text * list ConsolidatorCandidate)) (m : Mem) : Mem * result harness_error ConsolidationRun :=
  match generate_and_finish env o run min_confidence reply m with
  | Ok (m, run) => (m, Ok run)
  | Err err =>
      let cancelled := teqb (class err) CANCELLED || is_cancel_requested (r_id run) m in
      let m' := match fail_consolidation_run env o (r_id run) (if cancelled then CANCELLED else class err) (db m) with
                | Ok (d, _) => MkMem d (cancelled_runs m)
                | Err _ => m
                end in
      (m', if cancelled then match get_consolidation_run o (r_id run) (db m') with Ok run => Ok run | Err _ => Err err end else Err err)
  end.

(** ** What holds of the runs *)

Record RunsSound (d : Db) : Prop := {
  rs_ids : NoDup (map r_id (runs d));
  rs_keys : forall r s, r ∈ runs d -> s ∈ runs d -> r_owner r = r_owner s -> r_key r = r_key s -> length (r_key r) = 64%nat -> r = s;
  rs_done : Forall (fun r => r_state r = RDone -> r_error r = None) (runs d);
}.

(** The moves of a run that is already there. *)
Inductive RunMove (r : ConsolidationRun) : ConsolidationRun -> Prop :=
| move_none : RunMove r r
| move_model model : r_state r = RRunning -> RunMove r (with_model model r)
| move_restart at_ : r_state r <> RDone -> r_state r <> RRunning -> RunMove r (restarted at_ r)
| move_stop s c at_ : r_state r <> RDone -> s = RFailed \/ s = RCancelled -> RunMove r (ended s (Some c) at_ r)
| move_finish model ids candidates rejected at_ : r_state r = RRunning -> RunMove r (finished model ids candidates rejected at_ r).

(** Every run moves or stays, and the new ones are not done. *)
Definition RunsMove (d d' : Db) : Prop :=
  forall r, r ∈ runs d -> exists r', r' ∈ runs d' /\ RunMove r r'.

Lemma run_move_identity r r' : RunMove r r' ->
  r_id r' = r_id r /\ r_owner r' = r_owner r /\ r_key r' = r_key r /\ r_episodes r' = r_episodes r /\ r_version r' = r_version r.
Proof. by destruct 1. Qed.
Lemma run_move_done r r' : RunMove r r' -> r_state r = RDone -> r' = r.
Proof. destruct 1; congruence. Qed.
Lemma runs_move_same d d' : runs d' = runs d -> RunsMove d d'.
Proof. intros E r Hr. rewrite E. exists r. split; [done | constructor]. Qed.
Lemma runs_sound_same d d' : runs d' = runs d -> RunsSound d -> RunsSound d'.
Proof. intros E []. split; rewrite ?E; auto. Qed.

Lemma is_state_true s r : is_state s r = true <-> r_state r = s.
Proof. apply bool_decide_eq_true. Qed.
Lemma error_is_true c r : error_is c r = true <-> r_error r = Some c.
Proof. apply bool_decide_eq_true. Qed.
Lemma stopped_state r : stopped r = true -> r_state r <> RDone /\ r_state r <> RRunning.
Proof. unfold stopped. rewrite !orb_true_iff, !is_state_true. intuition congruence. Qed.
Lemma open_state r : open_run r = true -> r_state r <> RDone.
Proof. unfold open_run. rewrite orb_true_iff, !is_state_true. intuition congruence. Qed.

(** An update whose rows make a move. *)
Lemma update_runs_move p g d : RunsSound d -> (forall r, r ∈ runs d -> p r = true -> RunMove r (g r)) ->
  RunsMove d (update_runs p g d) /\ RunsSound (update_runs p g d).
Proof.
  clear sha256_hex flags limits. intros [H1 H2 H3] Hm. assert (forall r, r ∈ runs d -> RunMove r (if p r then g r else r)) as Hall.
  { intros r Hr. destruct (p r) eqn:E; [auto | constructor]. }
  assert (forall k : ConsolidationRun -> text, (forall r r', RunMove r r' -> k r' = k r) -> map k (update_where p g (runs d)) = map k (runs d)) as Hk.
  { intros k Hk. unfold update_where. rewrite map_map. apply map_ext_in. intros r Hr%list_elem_of_In. auto. }
  split; [|split]; cbn [update_runs with_runs runs].
  - intros r Hr. exists (if p r then g r else r). split; [|auto]. apply elem_of_update. exists r. split; [done|]. destruct (p r); auto.
  - rewrite Hk; [done|]. intros r r' Hr. by apply run_move_identity in Hr as [? _].
  - intros x y Hx Hy. apply elem_of_update in Hx as (r & Hr & Er), Hy as (s & Hs & Es).
    assert (x = if p r then g r else r) as -> by (destruct Er as [[-> ->]|[-> ->]]; done).
    assert (y = if p s then g s else s) as -> by (destruct Es as [[-> ->]|[-> ->]]; done).
    pose proof (run_move_identity _ _ (Hall r Hr)) as (_ & -> & -> & _). pose proof (run_move_identity _ _ (Hall s Hs)) as (_ & -> & -> & _).
    intros Eo Ek El. by rewrite (H2 r s).
  - apply Forall_forall. rewrite Forall_forall in H3. intros x (r & Hr & [[Hp ->]|[Hp ->]])%elem_of_update; [|auto].
    destruct (Hm r Hr Hp); cbn; auto; try congruence. intros ->. intuition congruence.
Qed.

Lemma update_runs_kept o p g d : (forall r, p r = true -> r_owner r = o) -> (forall r, r_owner (g r) = r_owner r) -> OthersKept o d (update_runs p g d).
Proof. intros Hp Hg. split; cbn; try done. by apply foreign_update. Qed.

Lemma insert_run_sound r d : run_conflict r d = false -> r_state r <> RDone -> RunsSound d ->
  RunsSound (with_runs (runs d ++ [r]) d) /\ RunsMove d (with_runs (runs d ++ [r]) d).
Proof.
  unfold run_conflict. intros Hc Hs [H1 H2 H3]. apply orb_false_iff in Hc as [Hc Hk]. apply orb_false_iff in Hc as [_ Hi].
  split; [split|]; cbn [with_runs runs].
  - apply NoDup_map_snoc; [done|]. by apply existsb_key.
  - assert (forall s, s ∈ runs d -> r_owner s = r_owner r -> r_key s = r_key r -> length (r_key s) = 64%nat -> False) as Hno.
    { intros s Hin Eo Ek El. rewrite bool_decide_true in Hk by congruence. cbn [andb] in Hk. apply not_true_iff_false in Hk. apply Hk, existsb_exists.
      exists s. rewrite <- list_elem_of_In. unfold with_key. by rewrite Eo, Ek, !teqb_refl. }
    intros x y [Hx| ->%list_elem_of_singleton]%elem_of_app [Hy| ->%list_elem_of_singleton]%elem_of_app Eo Ek El; auto.
    + destruct (Hno x); done.
    + destruct (Hno y); congruence.
  - apply Forall_app. split; [done|]. constructor; [done | constructor].
  - intros x Hx. exists x. split; [cbn; set_solver | constructor].
Qed.

(** *** Marking episodes *)

Definition SameEpisode (e e' : Episode) : Prop :=
  e_id e' = e_id e /\ e_owner e' = e_owner e /\ e_session_ref e' = e_session_ref e /\ e_privacy_summary e' = e_privacy_summary e /\
  e_created e' = e_created e /\ e_expires e' = e_expires e.
(** The cited episodes are still there. *)
Definition CitedRows (d d' : Db) : Prop :=
  forall e, e ∈ episodes d -> referenced_pending (e_owner e) (e_id e) d = true -> exists e', e' ∈ episodes d' /\ SameEpisode e e'.

Lemma cited_rows_kept d d' : CitedKept d d' -> CitedRows d d'.
Proof. intros H e He Hr. exists e. split; [by apply H | by split_and!]. Qed.
Lemma cited_rows_same d d' : episodes d' = episodes d -> CitedRows d d'.
Proof. intros E e He _. exists e. rewrite E. split; [done | by split_and!]. Qed.

(** An update that keeps the owner and the size of every row keeps the space. *)
Lemma update_episodes_space p g d o : (forall e, e_owner (g e) = e_owner e) -> (forall e, e_byte_len (g e) = e_byte_len e) ->
  over_limits limits o (with_episodes (update_where p g (episodes d)) d) = over_limits limits o d.
Proof.
  intros Go Gb. unfold over_limits, episode_count, episode_total. cbn [with_episodes episodes]. unfold of_owner.
  assert (forall k, count (fun e => teqb (e_owner e) o) (update_where p g k) = count (fun e => teqb (e_owner e) o) k) as Hc.
  { intros k. induction k as [|x k IHk]; [done|]. unfold update_where in *. cbn [map]. rewrite !table_count_cons, IHk. destruct (p x); by rewrite ?Go. }
  assert (forall k, sum_of e_byte_len (List.filter (fun e => teqb (e_owner e) o) (update_where p g k))
                  = sum_of e_byte_len (List.filter (fun e => teqb (e_owner e) o) k)) as Hs.
  { intros k. induction k as [|x k IHk]; [done|]. unfold update_where, sum_of in *. cbn [map List.filter].
    destruct (p x); rewrite ?Go; destruct (teqb (e_owner x) o); cbn [foldr]; rewrite ?Gb, ?IHk; done. }
  by rewrite Hc, Hs.
Qed.

Lemma mark_one o id s d : let d' := with_episodes (update_where (own_episode o id) (in_state s) (episodes d)) d in
  (EpisodesSound limits d -> EpisodesSound limits d') /\ OthersKept o d d' /\ CitedRows d d'.
Proof.
  cbn zeta. split_and!.
  - intros [HR HS]. split; [apply update_episodes_rows; try done|]. intros o'. by rewrite update_episodes_space.
  - apply update_episodes_kept; [apply own_episode_owner | done].
  - intros e He _. exists (if own_episode o id e then in_state s e else e). cbn [with_episodes episodes]. rewrite elem_of_update.
    split; [exists e; destruct (own_episode o id e); auto | by destruct (own_episode o id e)].
Qed.

Lemma mark_episodes o ids s d : let d' := mark_episodes_state o ids s d in
  (EpisodesSound limits d -> EpisodesSound limits d') /\ OthersKept o d d' /\ CitedRows d d' /\
  facts d' = facts d /\ proposals d' = proposals d /\ refs d' = refs d /\ runs d' = runs d /\ next_rowid d' = next_rowid d /\ fts d' = fts d.
Proof.
  clear sha256_hex flags. cbn zeta. unfold mark_episodes_state. revert d. induction ids as [|id ids IH]; intros d; cbn [foldl].
  - split_and!; try done. by apply cited_rows_same.
  - destruct (IH (with_episodes (update_where (own_episode o id) (in_state s) (episodes d)) d)) as (I1 & I2 & I3 & I4).
    destruct (mark_one o id s d) as (M1 & M2 & M3). split_and!; try apply I4; [auto | by rewrite <- I2 |].
    intros e He Hr. destruct (M3 e He Hr) as (e1 & He1 & S1). destruct (I3 e1 He1) as (e2 & He2 & S2).
    + destruct S1 as (-> & -> & _). rewrite <- Hr. apply eq_true_iff_eq. by rewrite !referenced_pending_true.
    + exists e2. split; [done|]. unfold SameEpisode in *. intuition congruence.
Qed.

(** *** The effect of an operation on runs *)

Record RunEffect (o : text) (d d' : Db) : Prop := {
  re_facts : facts d' = facts d; re_fts : fts d' = fts d; re_next : next_rowid d' = next_rowid d;
  re_proposals : proposals d' = proposals d; re_refs : refs d' = refs d;
  re_others : OthersKept o d d'; re_cited : CitedRows d d';
  re_episodes : EpisodesSound limits d -> EpisodesSound limits d';
  re_runs : RunsSound d -> RunsSound d' /\ RunsMove d d';
}.

Lemma run_effect_refl o d : RunEffect o d d.
Proof. split; try done; [by apply cited_rows_same | intros H; split; [done | by apply runs_move_same]]. Qed.

Lemma cited_rows_trans a b c : proposals b = proposals a -> refs b = refs a -> CitedRows a b -> CitedRows b c -> CitedRows a c.
Proof.
  intros Ep Er H1 H2 e He Hr. destruct (H1 e He Hr) as (e1 & He1 & S1). destruct (H2 e1 He1) as (e2 & He2 & S2).
  - destruct S1 as (-> & -> & _). rewrite <- Hr. apply eq_true_iff_eq. by rewrite !referenced_pending_true, Ep, Er.
  - exists e2. split; [done|]. unfold SameEpisode in *. intuition congruence.
Qed.

(** An operation on runs followed by a marking. *)
Lemma run_effect_mark o ids s d d' : RunEffect o d d' -> RunEffect o d (mark_episodes_state o ids s d').
Proof.
  intros [E1 E2 E3 E4 E5 E6 E7 E8 E9]. destruct (mark_episodes o ids s d') as (M1 & M2 & M3 & M4 & M5 & M6 & M7 & M8 & M9).
  split; try congruence; [by transitivity d' | by apply (cited_rows_trans d d') | auto |].
  intros HS. destruct (E9 HS) as [R1 R2]. split; [by apply (runs_sound_same d')|]. intros r Hr. rewrite M7. auto.
Qed.

Lemma run_effect_update o p g d : (forall r, p r = true -> r_owner r = o) -> (forall r, r_owner (g r) = r_owner r) ->
  (forall r, RunsSound d -> r ∈ runs d -> p r = true -> RunMove r (g r)) -> RunEffect o d (update_runs p g d).
Proof.
  intros Hp Hg Hm. split; try done; [by apply update_runs_kept | by apply cited_rows_same | |].
  - intros H. by apply (episodes_sound_same limits d); [|apply H|].
  - intros H. destruct (update_runs_move p g d H) as [? ?]; auto.
Qed.

Lemma run_effect_insert o r d : run_conflict r d = false -> r_state r <> RDone -> r_owner r = o -> RunEffect o d (with_runs (runs d ++ [r]) d).
Proof.
  intros Hc Hs Ho. split; try done; [|by apply cited_rows_same| |].
  - split; try done. by apply foreign_snoc.
  - intros H. by apply (episodes_sound_same limits d); [|apply H|].
  - intros H. by apply insert_run_sound.
Qed.

Lemma begin_run_effect env o ids version preempted m m' r : begin_run env o ids version preempted m = Ok (m', r) -> RunEffect o (db m) (db m').
Proof.
  unfold begin_run. intros H. op_steps. destruct (select_key o _ (db m)) as [run|] eqn:Ek.
  - destruct (is_state RDone run) eqn:E1; [op_steps; apply run_effect_refl|].
    destruct (preempted && _ && _) eqn:E2; [op_steps; apply run_effect_refl|]. destruct (is_state RRunning run) eqn:E3; [done|]. op_steps.
    cbn [db]. apply run_effect_mark, run_effect_update; [|done|].
    + intros x Hx. guards. by eapply own_run_owner.
    + intros x _ _ Hx. guards. apply stopped_state in H0 as [? ?]. by constructor.
  - op_steps. unfold insert_run in Hb0. op_steps. apply run_effect_mark. by apply run_effect_insert.
Qed.

Lemma queue_effect env o ids version d d' r : queue_suggestion_run env o ids version d = Ok (d', r) -> RunEffect o d d'.
Proof.
  unfold queue_suggestion_run. intros H. op_steps. destruct (run_conflict _ d) eqn:E; [apply run_effect_refl | by apply run_effect_insert].
Qed.

Lemma set_model_effect o id model d d' u : set_consolidation_model o id model d = Ok (d', u) -> RunEffect o d d'.
Proof.
  unfold set_consolidation_model. intros H. op_steps. apply run_effect_update; [|done|].
  - intros x Hx. guards. by eapply own_run_owner.
  - intros x _ _ Hx. guards. constructor. by apply is_state_true.
Qed.

(** The rows that a stop may meet are not done. *)
Lemma preempted_not_done d r : RunsSound d -> r ∈ runs d -> error_is PREEMPTED_CLASS r = true -> r_state r <> RDone.
Proof. intros [_ _ H] Hr E%error_is_true Hs. rewrite Forall_forall in H. rewrite (H r Hr Hs) in E. done. Qed.

Lemma cancel_effect env o id m m' r : cancel_consolidation_run env o id m = Ok (m', r) -> RunEffect o (db m) (db m').
Proof.
  unfold cancel_consolidation_run. intros H. op_steps.
  match goal with _ : select_run o id (db m) = Some ?c |- _ => rename c into cur end. destruct (is_state RCancelled cur) eqn:E1.
  - destruct (error_is PREEMPTED_CLASS cur) eqn:E2; cbn [negb] in H; op_steps; [|apply run_effect_refl]. cbn [db]. apply run_effect_update; [|done|].
    + intros x Hx. guards. by eapply own_run_owner.
    + intros x _ _ Hx. apply andb_true_iff in Hx as [[_ Hx%is_state_true]%andb_true_iff _]. constructor; [congruence | by right].
  - op_steps. cbn [db]. assert (RunEffect o (db m) (update_runs (fun r => own_run o id r && open_run r) (ended RCancelled (Some CANCELLED) (now env)) (db m))) as HE.
    { apply run_effect_update; [|done|]; intros x; [|intros _ _]; intros Hx; guards; [by eapply own_run_owner|].
      constructor; [by apply open_state | by right]. }
    destruct (is_state RRunning cur); [by apply run_effect_mark | done].
Qed.

Lemma failed_state_cases c : failed_state c = RFailed \/ failed_state c = RCancelled.
Proof. unfold failed_state. match goal with |- context [if ?b then _ else _] => destruct b end; auto. Qed.

Lemma fail_effect env o id c d d' r : fail_consolidation_run env o id c d = Ok (d', r) -> RunEffect o d d'.
Proof.
  unfold fail_consolidation_run. intros H. op_steps. destruct (negb _ && negb _) eqn:E1; [op_steps; apply run_effect_refl|]. op_steps.
  assert (RunEffect o d (update_runs (fun r => own_run o id r && (open_run r || error_is PREEMPTED_CLASS r)) (ended (failed_state c) (Some c) (now env)) d)) as HE.
  { apply run_effect_update; [|done|]; intros x; [|intros HS Hin]; intros Hx; guards; [by eapply own_run_owner|].
    constructor; [|by apply failed_state_cases]. apply orb_true_iff in H0 as [H0|H0]; [by apply open_state | by eapply preempted_not_done]. }
  match goal with |- context [if ?b then _ else _] => destruct b end; [by apply run_effect_mark | done].
Qed.

(** *** The end of a run *)

(** What the drafts add: pending proposals of the owner under new identifiers. *)
Lemma insert_drafts_spec env n o drafts d d' ids : insert_drafts env n o drafts d = Ok (d', ids) ->
  exists ps rs, d' = with_refs (refs d ++ rs) (with_proposals (proposals d ++ ps) d) /\ map p_id ps = ids /\ length ids = length drafts /\
    Forall (fun p => p_owner p = o /\ p_status p = Pending) ps /\
    (ProposalsSound sha256_hex limits d -> RowsSound d -> pending_count o d + Z.of_nat (length drafts) <= max_proposals_per_owner limits ->
     ProposalsSound sha256_hex limits d' /\ RowsSound d') /\ OthersKept o d d'.
Proof.
  revert n d d' ids. induction drafts as [|draft drafts IH]; intros n d d' ids H; cbn [insert_drafts] in H.
  - op_steps. exists [], []. rewrite !app_nil_r. split_and!; try done. by destruct d'.
  - op_steps. destruct p as [p es]. apply IH in Hb0 as (ps & rs & -> & <- & El & HF & HS & HK).
    apply insert_proposal_in_tx_inv in Hb as (c & k & Hst). pose proof (store_proposal_kept _ _ _ _ _ _ _ _ _ _ Hst) as HK0.
    pose proof (store_proposal_inv _ _ _ _ _ _ _ _ _ _ Hst) as (l & Ed & _ & _ & Er & _). injection Er as -> _.
    exists (proposal_of sha256_hex o (fresh env n) (now env) draft c k :: ps), (l ++ rs). split_and!.
    + rewrite Ed. unfold with_refs, with_proposals. cbn. by rewrite <- !app_assoc.
    + done.
    + cbn [length]. by rewrite El.
    + by constructor.
    + intros HP HR Hc. cbn [length] in Hc. destruct HR as [R1 R2 R3].
      destruct (store_proposal_sound _ limits _ _ _ _ _ _ _ _ _ Hst HP R3) as [S1 S2]; [lia|]. apply HS; [done | |].
      * split; [by rewrite Ed | by rewrite Ed | done].
      * enough (pending_count o d0 <= pending_count o d + 1) by lia.
        rewrite (pending_count_snoc o (proposal_of sha256_hex o (fresh env n) (now env) draft c k) d) by (by rewrite Ed).
        destruct (_ && _); lia.
    + by transitivity d0.
Qed.

Lemma finish_inv env o id model candidates rejected drafts m m' r :
  finish_consolidation_run env o id model candidates rejected drafts m = Ok (m', r) ->
  RunEffect o (db m) (db m') \/
  (exists cur mo d1 ids, select_run o id (db m) = Some cur /\ r_state cur = RRunning /\ is_cancel_requested id m = false /\
     pending_count o (db m) + Z.of_nat (length drafts) <= max_proposals_per_owner limits /\ insert_drafts env 0 o drafts (db m) = Ok (d1, ids) /\
     m' = MkMem (mark_episodes_state o (r_episodes cur) CDone
            (update_runs (fun r => own_run o id r && is_state RRunning r) (finished mo ids candidates rejected (now env)) d1)) (cancelled_runs m)).
Proof.
  unfold finish_consolidation_run. intros H. op_steps. destruct (is_cancel_requested id m) eqn:Ec.
  - op_steps. left. by eapply fail_effect.
  - op_steps. match goal with _ : select_run o id (db m) = Some ?c |- _ => rename c into cur end.
    destruct (is_state RRunning cur) eqn:Es; cbn [negb] in H; [|op_steps; left; apply run_effect_refl].
    op_steps. right. apply is_state_true in Es. eexists _, _, _, _. split_and!; (eassumption || done).
Qed.

Lemma finish_run_effect o id mo ids c rj at_ eps d1 :
  RunEffect o d1 (mark_episodes_state o eps CDone (update_runs (fun r => own_run o id r && is_state RRunning r) (finished mo ids c rj at_) d1)).
Proof.
  apply run_effect_mark, run_effect_update; [|done|].
  - intros x Hx. guards. by eapply own_run_owner.
  - intros x _ _ Hx. guards. constructor. by apply is_state_true.
Qed.

End Runs.

(** ** The automatic batch *)

Section Batch.
Context (encode_ids : list text -> text) (limits : Limits).

Definition tried_in_vain (e : Episode) (d : Db) : bool :=
  existsb (fun r => teqb (r_owner r) (e_owner e) && teqb (r_version r) SUMMARIZER_VERSION && (is_state RFailed r || is_state RCancelled r)
             && contains (e_id e) (encode_ids (r_episodes r))) (runs d).
Definition summary_present (e : Episode) : bool :=
  match e_semantic_summary e with Some s => existsb (fun c => negb (c =? 32)) s | None => false end.
Definition batchable (at_ : Z) (d : Db) (e : Episode) : bool :=
  bool_decide (e_state e <> CDone) && summary_present e && (at_ <? e_expires e) && negb (tried_in_vain e d).

Definition next_auto_consolidation_batch (env : Env) (d : Db) : option (text * list text) :=
  match merge_sort text_le (map e_owner (List.filter (fun e => batchable (now env) d e && negb (owner_has_running (e_owner e) d)) (episodes d))) with
  | [] => None
  | o :: _ =>
      match take (Z.to_nat (max_consolidation_episodes limits))
              (map e_id (merge_sort oldest_episode (List.filter (fun e => of_owner o e && batchable (now env) d e) (episodes d)))) with
      | [] => None
      | ids => Some (o, ids)
      end
  end.
End Batch.

(** ** What a bound candidate is *)

(** A candidate that was bound: cited episodes of the run, bounded texts, and
    either a new content or the present revision of one active fact. *)
Record WellBound (selected : list text) (facts : list Fact) (mf mc : Z) (b : BoundCandidate) : Prop := {
  wb_action : valid_action (b_action b) = true;
  wb_sources : b_sources b <> [] /\ Forall (fun id => id ∈ selected /\ valid_public_id id = true) (b_sources b);
  wb_category : forall t, b_category b = Some t -> t <> [] /\ Z.of_nat (length t) <= mc;
  wb_content : forall t, b_content b = Some t -> b_action b <> DEACTIVATE /\ 1 <= Z.of_nat (length t) <= mf;
  wb_target : (b_action b = ADD /\ b_target b = None /\ b_expected_revision b = None /\ b_expected_digest b = None /\
               (exists t, b_content b = Some t) /\ forall f, f ∈ facts -> f_active f = true -> b_content b <> Some (f_content f)) \/
              (b_action b <> ADD /\ exists f, f ∈ facts /\ f_active f = true /\ b_target b = Some (f_id f) /\
                 b_expected_revision b = Some (f_revision f) /\ b_expected_digest b = Some (f_digest f));
}.

Lemma trimmed_nonempty_spec t s : trimmed_nonempty t = Some s -> s <> [].
Proof. unfold trimmed_nonempty. destruct t as [t|]; [|done]. destruct (bool_decide (trim t = [])) eqn:E; [done|]. intros [= <-]. by apply bool_decide_eq_false in E. Qed.

Lemma candidate_category_bound mc c k : candidate_category mc c = Some k -> forall t, k = Some t -> t <> [] /\ Z.of_nat (length t) <= mc.
Proof.
  unfold candidate_category. destruct (trimmed_nonempty (k_category c)) as [s|] eqn:E; [|intros [= <-]; done].
  apply trimmed_nonempty_spec in E. destruct (_ && _) eqn:Eb; [|done]. intros [= <-] t [= <-]. guards. split; [done | lia].
Qed.
Lemma candidate_content_bound mf c k : candidate_content mf c = Some k ->
  (forall t, k = Some t -> k_action c <> DEACTIVATE /\ 1 <= Z.of_nat (length t) <= mf) /\ (k = None -> k_action c = DEACTIVATE).
Proof.
  unfold candidate_content, len_between. destruct (trimmed_nonempty (k_content c)) as [s|].
  - destruct (negb (teqb (k_action c) DEACTIVATE) && _ && _) eqn:Eb.
    + intros [= <-]. guards. split; [|done]. intros t [= <-]. split; [by apply teqb_neq | lia].
    + destruct (teqb (k_action c) DEACTIVATE) eqn:E; [|done]. intros [= <-]. split; [done|]. intros _. by apply teqb_eq.
  - destruct (teqb (k_action c) DEACTIVATE) eqn:E; [|done]. intros [= <-]. split; [done|]. intros _. by apply teqb_eq.
Qed.

Lemma bind_one_sound c selected facts mf mc q b : bind_one c selected facts mf mc q = Some b -> WellBound selected facts mf mc b.
Proof.
  unfold bind_one. destruct (valid_action (k_action c)) eqn:Ea; [|done]. destruct (valid_sensitivity _); [|done]. cbn [negb].
  destruct (teqb (k_sensitivity c) _); [done|]. destruct (match k_confidence c with Some _ => _ | None => _ end); [done|].
  destruct (match k_uncertainty c with Some _ => _ | None => _ end); [done|]. destruct (forallb _ (k_sources c)) eqn:Es; [|done]. cbn [negb].
  destruct (bool_decide (sorted_ids (k_sources c) = [])) eqn:En; [done|]. apply bool_decide_eq_false in En.
  assert (Forall (fun id => id ∈ selected /\ valid_public_id id = true) (sorted_ids (k_sources c))) as Hs.
  { apply Forall_forall. intros id Hid. unfold sorted_ids in Hid. rewrite elem_of_remove_dups, merge_sort_Permutation in Hid.
    rewrite forallb_forall in Es. apply list_elem_of_In in Hid. specialize (Es _ Hid). by guards. }
  destruct (candidate_category mc c) as [k|] eqn:Ek; [|done]. destruct (candidate_content mf c) as [t|] eqn:Et; [|done]. cbn [mbind option_bind].
  pose proof (candidate_category_bound _ _ _ Ek) as Hk. destruct (candidate_content_bound _ _ _ Et) as [Ht Hnone].
  destruct (teqb (k_action c) ADD) eqn:Eadd.
  - apply teqb_eq in Eadd. destruct (match t with Some _ => _ | None => _ end) as [f|] eqn:Ef.
    + intros [= <-]. destruct t as [t|]; [|done]. apply find_elem in Ef as [Hf Hp]. apply andb_true_iff in Hp as [Hact _].
      split; try done; [|right; split; [done|]; by exists f]. intros s Hs2. split; [done|]. by apply (Ht s).
    + destruct (trimmed_nonempty (k_target c)) eqn:Etg; [done|]. intros [= <-]. split; cbn; try done. left. split_and!; try done.
      * destruct t as [t|]; [by exists t|]. specialize (Hnone eq_refl). rewrite Eadd in Hnone. revert Hnone. vm_compute. discriminate.
      * intros f Hf Hact ->. apply list_elem_of_In in Hf. pose proof (find_none _ _ Ef f Hf) as N. cbn in N. by rewrite Hact, teqb_refl in N.
  - apply teqb_neq in Eadd. destruct (trimmed_nonempty (k_target c)) as [id|]; [|done]. cbn [mbind option_bind].
    destruct (valid_public_id id); [|done]. cbn [negb]. destruct (List.find _ facts) as [f|] eqn:Ef; [|done]. cbn [mbind option_bind].
    apply find_elem in Ef as [Hf Hp]. apply andb_true_iff in Hp as [_ Hact]. intros [= <-]. split; try done. right. split; [done|]. by exists f.
Qed.

(** Whatever the model answers, a consolidation proposes only bounded and
    bound changes: every candidate is either bound once or counted as
    rejected; a bound one cites episodes of its run, adds a content that no
    active fact has, or names an active fact with its present revision and
    digest; texts keep within their limits and nothing is proposed twice. *)
Theorem consolidator_output_is_bound output selected facts mf mc q :
  let '(bound, rejected) := bind_candidates output selected facts mf mc q in
  Forall (WellBound selected facts mf mc) bound /\ NoDup bound /\ Z.of_nat (length bound) + rejected = Z.of_nat (length output).
Proof.
  unfold bind_candidates.
  assert (forall l acc, Forall (WellBound selected facts mf mc) acc.1 -> NoDup acc.1 ->
    let r := foldl (bind_step selected facts mf mc q) acc l in
    Forall (WellBound selected facts mf mc) r.1 /\ NoDup r.1 /\ Z.of_nat (length r.1) + r.2 = Z.of_nat (length acc.1) + acc.2 + Z.of_nat (length l)) as H.
  { intros l. induction l as [|c l IH]; intros acc HF HN; cbn [foldl]; [cbn; split_and!; [done | done | lia]|].
    assert (let s := bind_step selected facts mf mc q acc c in Forall (WellBound selected facts mf mc) s.1 /\ NoDup s.1 /\
      Z.of_nat (length s.1) + s.2 = Z.of_nat (length acc.1) + acc.2 + 1) as (H1 & H2 & H3).
    { unfold bind_step. destruct (bind_one c selected facts mf mc q) as [b|] eqn:Eb; [|cbn; split_and!; [done | done | lia]].
      destruct (bool_decide (b ∈ acc.1)) eqn:Em; cbn [fst snd]; [split_and!; [done | done | lia]|]. apply bool_decide_eq_false in Em.
      rewrite length_app. cbn [length]. split_and!; [| |lia].
      - apply Forall_app. split; [done|]. constructor; [by eapply bind_one_sound | done].
      - apply NoDup_app. split_and!; [done | set_solver | apply NoDup_singleton]. }
    destruct (IH _ H1 H2) as (K1 & K2 & K3). cbn zeta. split_and!; [done | done | cbn [length]; lia]. }
  destruct (H output ([], 0)) as (K1 & K2 & K3); [constructor | constructor|]. destruct (foldl _ _ _) as [bound rejected]. cbn in K3. by split_and!.
Qed.
