(* ===== verification/MemoryStore.v ===== *)
(** The whole structured memory: its operations as one step function over the
    database and the cancelled runs, the restart of the process, and what holds
    of every history of them. *)

From S2P Require Import Prelude Text Effects Owners RepoPaths Tables Memory MemoryRuns.
Local Open Scope Z_scope.

Section History.
Context (sha256_hex : text -> text) (flags : text -> Z) (limits : Limits).

(** ** Every operation of the store *)

Inductive Op :=
| OpAddFact (content category reason : text) | OpDeactivate (id : text) (revision : Z) (reason : text)
| OpCreateProposal (draft : ProposalDraft) | OpDecide (id revision : text) (apply : bool) (reason : text)
| OpStage (draft : EpisodeDraft) (coding : bool) | OpSummary (id summary reason : text)
| OpDeleteEpisode (id reason : text) | OpPurgeExpired (reason : text) | OpDeleteUnreferenced (reason : text) | OpPurgeOwner (reason : text)
| OpQueueRun (ids : list text) (version : text) | OpBeginRun (ids : list text) (version : text) (preempted_only : bool)
| OpSetModel (id model : text) | OpCancelRun (id : text) | OpFailRun (id error_class : text)
| OpFinishRun (id model : text) (candidates rejected : Z) (drafts : list ProposalDraft)
| OpRebuildIndex.

(** The database after an operation; a failed one rolls back. *)
Definition committed {A} (m : Mem) (r : tx A) : Mem := match r with Ok (d, _) => MkMem d (cancelled_runs m) | Err _ => m end.
Definition settled {A} (m : Mem) (r : run_tx A) : Mem := match r with Ok (m', _) => m' | Err _ => m end.

Definition perform (env : Env) (o : text) (op : Op) (m : Mem) : Mem :=
  let d := db m in
  match op with
  | OpAddFact c k r => committed m (add_fact sha256_hex flags limits env o c k r d)
  | OpDeactivate id rev r => committed m (deactivate_fact limits env o id rev r d)
  | OpCreateProposal draft => committed m (create_proposal sha256_hex flags limits env o draft d)
  | OpDecide id rev b r => committed m (decide_proposal sha256_hex flags limits env o id rev b r d)
  | OpStage draft coding => committed m (stage_episode_kind flags limits env o draft coding d)
  | OpSummary id s r => committed m (set_episode_summary flags limits env o id s r d)
  | OpDeleteEpisode id r => committed m (delete_episode limits o id r d)
  | OpPurgeExpired r => committed m (purge_expired_episodes limits env o r d)
  | OpDeleteUnreferenced r => committed m (delete_unreferenced_episodes limits o r d)
  | OpPurgeOwner r => committed m (purge_owner limits o r d)
  | OpQueueRun ids v => committed m (queue_suggestion_run sha256_hex env o ids v d)
  | OpBeginRun ids v p => settled m (begin_run sha256_hex env o ids v p m)
  | OpSetModel id model => committed m (set_consolidation_model flags o id model d)
  | OpCancelRun id => settled m (cancel_consolidation_run env o id m)
  | OpFailRun id c => committed m (fail_consolidation_run env o id c d)
  | OpFinishRun id model c rj drafts => settled m (finish_consolidation_run sha256_hex flags limits env o id model c rj drafts m)
  | OpRebuildIndex => committed m (rebuild_facts_fts d)
  end.

(** A history: who did what, when, under which fresh identifiers, and the
    restarts of the process. *)
Inductive Event := Did (env : Env) (o : text) (op : Op) | Restarted (at_ : Z).
Definition happen (m : Mem) (e : Event) : Mem :=
  match e with
  | Did env o op => perform env o op m
  | Restarted at_ => MkMem (recover_interrupted_runs at_ (db m)) ∅
  end.
Definition history (l : list Event) (m : Mem) : Mem := foldl happen m l.

Record MemorySound (d : Db) : Prop := {
  ms_facts : FactsSound sha256_hex limits d;
  ms_proposals : ProposalsSound sha256_hex limits d;
  ms_episodes : EpisodesSound limits d;
  ms_runs : RunsSound d;
}.

Lemma run_effect_sound o d d' : RunEffect limits o d d' -> MemorySound d -> MemorySound d'.
Proof.
  intros [E1 E2 E3 E4 E5 E6 E7 E8 E9] [H1 H2 H3 H4]. split; [by eapply facts_sound_same | by eapply proposals_sound_same | auto | by apply E9].
Qed.

Lemma committed_inv {A} m (r : tx A) : (committed m r = m) \/ (exists d a, r = Ok (d, a) /\ committed m r = MkMem d (cancelled_runs m)).
Proof. destruct r as [[d a]|e]; [right; eauto | by left]. Qed.
Lemma settled_inv {A} m (r : run_tx A) : (settled m r = m) \/ (exists m' a, r = Ok (m', a) /\ settled m r = m').
Proof. destruct r as [[m' a]|e]; [right; eauto | by left]. Qed.

(** What an operation does, as cases: nothing, or its commit. *)
Ltac outcome :=
  match goal with
  | |- context [committed ?m ?r] =>
      let d := fresh "d'" in let a := fresh "a" in let Hr := fresh "Hr" in let E := fresh "E" in
      destruct (committed_inv m r) as [E|(d & a & Hr & E)]; rewrite E; clear E; cbn [db]
  | |- context [settled ?m ?r] =>
      let m' := fresh "m'" in let a := fresh "a" in let Hr := fresh "Hr" in let E := fresh "E" in
      destruct (settled_inv m r) as [E|(m' & a & Hr & E)]; rewrite E; clear E; cbn [db]
  end.

Lemma finish_kept env o id mo c rj drafts m m' r :
  finish_consolidation_run sha256_hex flags limits env o id mo c rj drafts m = Ok (m', r) -> OthersKept o (db m) (db m').
Proof.
  intros H. apply finish_inv in H as [HE|H]; [apply HE|]. destruct H as (cur & mo' & d1 & ids & _ & _ & _ & _ & Hi & ->).
  apply insert_drafts_spec in Hi as (ps & rs & Ed & _ & _ & _ & _ & HK). transitivity d1; [done|]. eapply (re_others limits), finish_run_effect.
Qed.

(** Owners are isolated: whatever an operation does, it leaves every fact,
    proposal, reference, episode and run of every other owner as it is. *)
Theorem memory_owners_isolated env o op m : OthersKept o (db m) (db (perform env o op m)).
Proof.
  destruct op; cbn [perform]; outcome; try reflexivity.
  - by eapply add_fact_kept.
  - by eapply deactivate_fact_kept.
  - apply create_proposal_inv in Hr as (c & k & _ & Hst). by eapply store_proposal_kept.
  - by eapply decide_proposal_kept.
  - by apply stage_kept in Hr as [? _].
  - by apply set_summary_kept in Hr as [? _].
  - apply delete_episode_inv in Hr as [_ ->]. apply delete_episode_rows_kept.
  - apply purge_expired_inv in Hr as (ids & _ & ->). apply delete_all_kept.
  - by apply unreferenced_kept in Hr as [? _].
  - by eapply purge_owner_kept.
  - by apply (queue_effect sha256_hex limits) in Hr as [].
  - by apply (begin_run_effect sha256_hex limits) in Hr as [].
  - by apply (set_model_effect flags limits) in Hr as [].
  - by apply (cancel_effect limits) in Hr as [].
  - by apply (fail_effect limits) in Hr as [].
  - by eapply finish_kept.
  - by injection Hr as <- _.
Qed.

(** A row operation on facts, or on episodes, leaves the rest sound. *)
Lemma facts_only_sound d d' : FactsOnly d d' -> MemorySound d -> FactsSound sha256_hex limits d' -> MemorySound d'.
Proof.
  intros (E1 & E2 & E3 & E4) [H1 H2 H3 H4] HF. split; [done | by apply (proposals_sound_same _ _ d) | | by apply (runs_sound_same d)].
  apply (episodes_sound_same _ d); [done | | done]. apply (refs_sound_same d); [done.. | apply H3].
Qed.
Lemma episodes_only_sound d d' : EpisodesOnly d d' -> MemorySound d -> EpisodesSound limits d' -> MemorySound d'.
Proof.
  intros (E1 & E2 & E3 & E4 & E5) [H1 H2 H3 H4] HF. split; [by apply (facts_sound_same _ _ d) | by apply (proposals_sound_same _ _ d) | done | by apply (runs_sound_same d)].
Qed.

Lemma create_proposal_sound env o draft d d' r : create_proposal sha256_hex flags limits env o draft d = Ok (d', r) -> MemorySound d -> MemorySound d'.
Proof.
  intros (c & k & Hc & Hst)%create_proposal_inv [H1 H2 H3 H4]. destruct (store_proposal_sound _ limits _ _ _ _ _ _ _ _ _ Hst H2) as [S1 S2]; [apply H3 | done |].
  apply store_proposal_inv in Hst as (l & -> & _). split; [by apply (facts_sound_same _ _ d) | done | by apply (episodes_sound_same _ d) | by apply (runs_sound_same d)].
Qed.

Lemma finish_sound env o id mo c rj drafts m m' r :
  finish_consolidation_run sha256_hex flags limits env o id mo c rj drafts m = Ok (m', r) -> MemorySound (db m) -> MemorySound (db m').
Proof.
  intros H HM. apply finish_inv in H as [HE|H]; [by eapply run_effect_sound|]. destruct H as (cur & mo' & d1 & ids & _ & _ & _ & Hc & Hi & ->).
  cbn [db]. eapply run_effect_sound; [apply finish_run_effect|]. destruct HM as [H1 H2 H3 H4].
  apply insert_drafts_spec in Hi as (ps & rs & -> & _ & _ & _ & HS & _). destruct (HS H2 (proj1 H3) Hc) as [S1 S2].
  split; [by apply (facts_sound_same _ _ (db m)) | done | apply (episodes_sound_same _ (db m)); [done | apply S2 | done] | by apply (runs_sound_same (db m))].
Qed.

Lemma purge_owner_runs o reason d d' n : purge_owner limits o reason d = Ok (d', n) -> RunsSound d -> RunsSound d'.
Proof.
  unfold purge_owner. intros H [R1 R2 R3]. op_steps. split; cbn [runs].
  - by apply NoDup_map_Filter.
  - intros r s [Hr _]%elem_of_delete [Hs _]%elem_of_delete. auto.
  - apply Forall_forall. rewrite Forall_forall in R3. intros r [Hr _]%elem_of_delete. auto.
Qed.

Lemma perform_sound env o op m : MemorySound (db m) -> MemorySound (db (perform env o op m)).
Proof.
  intros HM. pose proof HM as [HF HP HE HR]. destruct op; cbn [perform]; outcome; try done.
  - eapply facts_only_sound; [by eapply add_fact_only | done | by eapply add_fact_sound].
  - eapply facts_only_sound; [by eapply deactivate_fact_only | done | by eapply deactivate_fact_sound].
  - by eapply create_proposal_sound.
  - pose proof (decide_proposal_tables _ _ _ _ _ _ _ _ _ _ _ _ Hr) as (T1 & T2 & T3 & _).
    apply decide_proposal_sound in Hr as (S1 & S2 & S3); [|done | done | apply HE].
    split; [done | done | by apply (episodes_sound_same _ (db m)) | by apply (runs_sound_same (db m))].
  - eapply episodes_only_sound; [by apply stage_kept in Hr as [_ ?] | done | by eapply stage_sound].
  - eapply episodes_only_sound; [by apply set_summary_kept in Hr as [_ ?] | done | by eapply set_summary_sound].
  - apply delete_episode_inv in Hr as [_ ->]. apply (episodes_only_sound (db m)); [by split_and! | done | by apply delete_episode_rows_episodes].
  - apply purge_expired_inv in Hr as (ids & Hids & ->). destruct (delete_all_kept o ids (db m)) as [_ HK], (delete_all_sound limits o ids (db m) HE Hids) as [HS _].
    by apply (episodes_only_sound (db m)).
  - eapply episodes_only_sound; [by apply unreferenced_kept in Hr as [_ ?] | done | by eapply unreferenced_sound].
  - destruct (purge_owner_sound _ _ _ _ _ _ _ Hr HP HE) as [S1 S2].
    split; [by eapply (purge_owner_facts sha256_hex limits _ _ _ _ _ Hr) | done | done | by eapply purge_owner_runs].
  - eapply run_effect_sound; [by eapply queue_effect | done].
  - eapply run_effect_sound; [by eapply begin_run_effect | done].
  - eapply run_effect_sound; [by eapply set_model_effect | done].
  - eapply run_effect_sound; [by eapply cancel_effect | done].
  - eapply run_effect_sound; [by eapply fail_effect | done].
  - by eapply finish_sound.
  - injection Hr as <- _. apply (facts_only_sound (db m)); [by split_and! | done|]. destruct HF. split; try done. by intros x [= <-].
Qed.

(** The one step that may leave the index open: a purge of an owner who has a
    deactivated fact, whose entry is not in the index any more. *)
Definition spoils (m : Mem) (e : Event) : Prop :=
  match e with
  | Did _ o (OpPurgeOwner _) => exists f, f ∈ facts (db m) /\ f_owner f = o /\ f_active f = false
  | _ => False
  end.

Lemma finish_fts env o id mo c rj drafts m m' r :
  finish_consolidation_run sha256_hex flags limits env o id mo c rj drafts m = Ok (m', r) -> fts (db m') = fts (db m).
Proof.
  intros H. apply finish_inv in H as [HE|H]; [apply (re_fts _ _ _ _ HE)|]. destruct H as (cur & mo' & d1 & ids & _ & _ & _ & _ & Hi & ->).
  apply insert_drafts_spec in Hi as (ps & rs & -> & _). cbn [db]. exact (re_fts limits _ _ _ (finish_run_effect _ _ _ _ _ _ _ _ _ _)).
Qed.

Lemma perform_index env o op m : MemorySound (db m) -> ~ spoils m (Did env o op) -> is_Some (fts (db m)) -> is_Some (fts (db (perform env o op m))).
Proof.
  intros HM Hsp Hi. pose proof (ms_facts _ HM) as HF. destruct op; cbn [perform]; outcome; try done.
  - by eapply add_fact_defined.
  - by eapply deactivate_fact_defined.
  - apply create_proposal_inv in Hr as (c & k & _ & (l & -> & _)%store_proposal_inv). exact Hi.
  - by eapply decide_proposal_defined.
  - apply stage_kept in Hr as [_ (_ & _ & -> & _)]. exact Hi.
  - apply set_summary_kept in Hr as [_ (_ & _ & -> & _)]. exact Hi.
  - apply delete_episode_inv in Hr as [_ ->]. exact Hi.
  - apply purge_expired_inv in Hr as (ids & _ & ->). destruct (delete_all_kept o ids (db m)) as [_ (_ & _ & -> & _)]. exact Hi.
  - apply unreferenced_kept in Hr as [_ (_ & _ & -> & _)]. exact Hi.
  - apply (purge_owner_facts sha256_hex limits _ _ _ _ _ Hr HF); [|exact Hi]. intros f Hf Ho.
    destruct (f_active f) eqn:Ha; [done|]. destruct Hsp. by exists f.
  - apply (queue_effect sha256_hex limits), re_fts in Hr. by rewrite Hr.
  - apply (begin_run_effect sha256_hex limits), re_fts in Hr. by rewrite Hr.
  - apply (set_model_effect flags limits), re_fts in Hr. by rewrite Hr.
  - apply (cancel_effect limits), re_fts in Hr. by rewrite Hr.
  - apply (fail_effect limits), re_fts in Hr. by rewrite Hr.
  - apply finish_fts in Hr. by rewrite Hr.
  - injection Hr as <- _. by eexists.
Qed.

Lemma restart_sound at_ d : MemorySound d -> MemorySound (recover_interrupted_runs at_ d).
Proof.
  intros [H1 H2 H3 H4]. unfold recover_interrupted_runs. set (p1 := fun r : ConsolidationRun => _). set (d1 := update_runs p1 _ d).
  destruct (update_runs_move p1 (ended RFailed (Some (T "input_lost_on_restart")) at_) d H4) as [_ R1].
  { intros r _ [H|H%andb_true_iff]%orb_true_iff; constructor; auto; [apply is_state_true in H | destruct H as [H%is_state_true _]]; congruence. }
  destruct (update_runs_move (is_state RRunning) (ended RFailed (Some (T "interrupted")) at_) d1 R1) as [_ R2].
  { intros r _ H%is_state_true. constructor; [congruence | auto]. }
  set (d2 := update_runs _ _ d1). split; [by apply (facts_sound_same _ _ d) | by apply (proposals_sound_same _ _ d) | | by apply (runs_sound_same d2)].
  assert (EpisodesSound limits d2) as [E1 E2] by (apply (episodes_sound_same limits d); [done | apply H3 | done]).
  split; [by apply update_episodes_rows|]. intros o. by rewrite update_episodes_space.
Qed.

Lemma happen_sound m e : MemorySound (db m) -> MemorySound (db (happen m e)).
Proof. destruct e; [apply perform_sound | apply restart_sound]. Qed.

Lemma history_sound l m : MemorySound (db m) -> MemorySound (db (history l m)).
Proof. revert m. induction l as [|e l IH]; intros m H; [done|]. cbn [history foldl]. apply IH. by apply happen_sound. Qed.

Lemma history_index l m : MemorySound (db m) -> is_Some (fts (db m)) ->
  (forall before e after, l = before ++ e :: after -> ~ spoils (history before m) e) -> is_Some (fts (db (history l m))).
Proof.
  revert m. induction l as [|e l IH]; intros m HM Hi Hl; [done|]. cbn [history foldl]. apply IH; [by apply happen_sound | |].
  - destruct e as [env o op|at_]; [|exact Hi]. apply perform_index; [done | exact (Hl [] _ l eq_refl) | done].
  - intros before e' after ->. exact (Hl (e :: before) e' after eq_refl).
Qed.

(** C15. The store stays sound through every history of operations and
    restarts: identifiers are unique, digests describe the contents, no owner
    has more active facts, pending proposals, episodes or bytes than allowed, a
    reference joins rows of one owner, a key has one run, and the full-text
    index, as long as its contents are defined, holds exactly the active facts.
    They stay defined through every history in which no owner is purged who
    has a deactivated fact. *)
Theorem memory_history_sound l m : MemorySound (db m) ->
  MemorySound (db (history l m))
  /\ (is_Some (fts (db m)) -> (forall before e after, l = before ++ e :: after -> ~ spoils (history before m) e) ->
      exists entries, fts (db (history l m)) = Some entries
        /\ entries ≡ₚ map entry_of (List.filter f_active (facts (db (history l m))))).
Proof.
  intros H. pose proof (history_sound l m H) as H'. split; [exact H'|]. intros Hi Hl. destruct (history_index l m H Hi Hl) as [x E].
  exists x. split; [exact E|]. by apply (fs_index _ _ _ (ms_facts _ H')).
Qed.

(** ** Who may change a fact *)

(** The facts after a successful operation of [o] on [d]. *)
Inductive FactChange (env : Env) (o : text) (d : Db) : Op -> list Fact -> Prop :=
| change_none op : FactChange env o d op (facts d)
| change_add content category reason c k :
    clean_text flags content (max_fact_chars limits) false = Ok c -> clean_text flags category (max_category_chars limits) true = Ok k ->
    FactChange env o d (OpAddFact content category reason) (facts d ++ [new_fact sha256_hex env o c k d])
| change_deactivate reason f l1 l2 :
    facts d = l1 ++ f :: l2 -> f_owner f = o -> f_active f = true ->
    FactChange env o d (OpDeactivate (f_id f) (f_revision f) reason) (l1 ++ deactivated (now env) f :: l2)
| change_decide p reason l :
    p ∈ proposals d -> p_owner p = o -> p_status p = Pending -> p_revision p = recomputed sha256_hex p ->
    Applies sha256_hex flags limits env o p d l -> FactChange env o d (OpDecide (p_id p) (p_revision p) true reason) l
| change_purge reason : FactChange env o d (OpPurgeOwner reason) (delete_where (fun f => teqb (f_owner f) o) (facts d)).

Lemma change_none_eq env o d op l : l = facts d -> FactChange env o d op l.
Proof. intros ->. constructor. Qed.
Lemma finish_facts env o id mo c rj drafts m m' r :
  finish_consolidation_run sha256_hex flags limits env o id mo c rj drafts m = Ok (m', r) -> facts (db m') = facts (db m).
Proof.
  intros H. apply finish_inv in H as [HE|H]; [apply HE|]. destruct H as (cur & mo' & d1 & ids & _ & _ & _ & _ & Hi & ->).
  cbn [db]. rewrite (re_facts limits o _ _ (finish_run_effect limits o id mo' ids c rj (now env) (r_episodes cur) d1)).
  by apply insert_drafts_spec in Hi as (ps & rs & -> & _).
Qed.

(** C16. A fact changes only as its owner reviewed it: an operation that is not
    a direct addition, the deactivation of the stated revision, the approval of
    a pending proposal with the stated digest, or the purge of the owner leaves
    the facts alone; so no consolidation run, suggestion or episode does.  An
    approval adds the proposed fact, or changes the one fact that the proposal
    names, at exactly the revision and content digest that it was bound to. *)
Theorem facts_change_only_as_reviewed env o op m :
  FactsSound sha256_hex limits (db m) -> FactChange env o (db m) op (facts (db (perform env o op m))).
Proof.
  intros HF. destruct op; cbn [perform]; outcome; try by constructor.
  - apply add_fact_inv in Hr as (d1 & c & k & _ & Hc & Hk & _ & -> & Hi & ->). unfold insert_fact in Hi. op_steps. by constructor.
  - apply deactivate_fact_inv in Hr as (f & r & _ & Hsel & _ & <- & Ha & [-> _]%update_fact_Ok & _).
    destruct (bound_split _ limits o id (f_revision f) (deactivated (now env)) f (db m) HF Hsel eq_refl Ha) as (l1 & l2 & El & Eu).
    apply select_fact_elem in Hsel as (_ & Ho & <-). cbn [facts with_facts fts_delete with_fts]. rewrite Eu. by constructor.
  - apply change_none_eq. apply create_proposal_inv in Hr as (c & k & _ & Hst). by apply store_proposal_inv in Hst as (l & -> & _).
  - apply decide_proposal_inv in Hr as (p & d1 & _ & Hsel & Hs & <- & Hrec & Ha & ->). apply find_elem in Hsel as [Hp Hown].
    destruct apply; [|op_steps; by apply change_none_eq]. rewrite <- (own_proposal_id o id p Hown).
    apply change_decide; [done | by eapply own_proposal_owner | done | done | exact (apply_pending_applies _ _ _ _ _ _ _ _ _ HF Ha)].
  - apply change_none_eq. apply stage_kept in Hr as [_ K]. apply K.
  - apply change_none_eq. apply set_summary_kept in Hr as [_ K]. apply K.
  - apply change_none_eq. by apply delete_episode_inv in Hr as [_ ->].
  - apply change_none_eq. apply purge_expired_inv in Hr as (ids & _ & ->). by destruct (delete_all_kept o ids (db m)) as [_ [K _]].
  - apply change_none_eq. apply unreferenced_kept in Hr as [_ K]. apply K.
  - unfold purge_owner in Hr. op_steps. constructor.
  - apply change_none_eq. by apply (queue_effect sha256_hex limits) in Hr as [].
  - apply change_none_eq. by apply (begin_run_effect sha256_hex limits) in Hr as [].
  - apply change_none_eq. by apply (set_model_effect flags limits) in Hr as [].
  - apply change_none_eq. by apply (cancel_effect limits) in Hr as [].
  - apply change_none_eq. by apply (fail_effect limits) in Hr as [].
  - apply change_none_eq. by eapply finish_facts.
  - injection Hr as <- _. by apply change_none_eq.
Qed.

(** ** What stays *)

(** The owner is not purged. *)
Definition spares (o : text) (e : Event) : Prop := match e with Did _ o' (OpPurgeOwner _) => o' <> o | _ => True end.

Lemma finish_proposals env o id mo c rj drafts m m' r :
  finish_consolidation_run sha256_hex flags limits env o id mo c rj drafts m = Ok (m', r) ->
  exists ps, proposals (db m') = proposals (db m) ++ ps /\ Forall (fun p => p_owner p = o /\ p_status p = Pending) ps.
Proof.
  intros H. apply finish_inv in H as [HE|H]; [exists []; rewrite app_nil_r; split; [apply HE | done]|].
  destruct H as (cur & mo' & d1 & ids & _ & _ & _ & _ & Hi & ->). apply insert_drafts_spec in Hi as (ps & rs & -> & _ & _ & Hps & _).
  exists ps. cbn [db]. by rewrite (re_proposals limits o _ _ (finish_run_effect limits o id mo' ids c rj (now env) (r_episodes cur) _)).
Qed.

Lemma decided_stays m e p : p ∈ proposals (db m) -> p_status p <> Pending -> spares (p_owner p) e -> p ∈ proposals (db (happen m e)).
Proof.
  intros Hp Hs Hn. destruct e as [env o op|at_]; [|done]. destruct op; cbn [happen perform]; outcome; try done.
  - apply add_fact_only in Hr as (-> & _). done.
  - apply deactivate_fact_only in Hr as (-> & _). done.
  - apply create_proposal_inv in Hr as (c & k & _ & Hst). apply store_proposal_inv in Hst as (l & -> & _). cbn. set_solver.
  - apply decide_proposal_tables in Hr as (_ & _ & _ & ->). apply elem_of_update. exists p. split; [done|]. right.
    assert (is_pending p = false) as -> by (apply not_true_is_false; rewrite is_pending_true; done). by rewrite andb_false_r.
  - apply stage_kept in Hr as [_ (_ & _ & _ & -> & _)]. done.
  - apply set_summary_kept in Hr as [_ (_ & _ & _ & -> & _)]. done.
  - apply delete_episode_inv in Hr as [_ ->]. done.
  - apply purge_expired_inv in Hr as (ids & _ & ->). by destruct (delete_all_kept o ids (db m)) as [_ (_ & _ & _ & -> & _)].
  - apply unreferenced_kept in Hr as [_ (_ & _ & _ & -> & _)]. done.
  - apply purge_owner_kept in Hr as [_ K _ _ _]. by apply (foreign_elem p_owner o _ _ p K).
  - by apply (queue_effect sha256_hex limits) in Hr as [_ _ _ -> _ _ _ _ _].
  - by apply (begin_run_effect sha256_hex limits) in Hr as [_ _ _ -> _ _ _ _ _].
  - by apply (set_model_effect flags limits) in Hr as [_ _ _ -> _ _ _ _ _].
  - by apply (cancel_effect limits) in Hr as [_ _ _ -> _ _ _ _ _].
  - by apply (fail_effect limits) in Hr as [_ _ _ -> _ _ _ _ _].
  - apply finish_proposals in Hr as (ps & -> & _). set_solver.
  - by injection Hr as <- _.
Qed.

Lemma decided_stays_history l m p : p ∈ proposals (db m) -> p_status p <> Pending -> Forall (spares (p_owner p)) l -> p ∈ proposals (db (history l m)).
Proof.
  revert m. induction l as [|e l IH]; intros m Hp Hs Hl; [done|]. apply Forall_cons in Hl as [He Hl]. cbn [history foldl].
  apply IH; [by apply decided_stays | done | done].
Qed.

(** A proposal is decided once: after a decision it is applied or
    rejected, it keeps that record through every later history that does not
    purge its owner, and every further decision on it fails. *)
Theorem decision_is_final env o id revision apply reason m d r l env' revision' apply' reason' :
  MemorySound (db m) -> decide_proposal sha256_hex flags limits env o id revision apply reason (db m) = Ok (d, r) ->
  Forall (spares o) l ->
  let d' := db (history l (MkMem d (cancelled_runs m))) in
  (exists p, select_proposal o id d' = Some p /\ p_status p = (if apply then Applied else Rejected) /\ p_revision p = revision) /\
  is_ok (decide_proposal sha256_hex flags limits env' o id revision' apply' reason' d') = false.
Proof.
  intros HM Hd Hl d'. pose proof (perform_sound env o (OpDecide id revision apply reason) m HM) as HM1. cbn [perform] in HM1. rewrite Hd in HM1.
  cbn [committed] in HM1. pose proof (decide_proposal_tables _ _ _ _ _ _ _ _ _ _ _ _ Hd) as (_ & _ & _ & Ep).
  apply decide_proposal_inv in Hd as (p & d1 & _ & Hsel & Hs & <- & _). apply find_elem in Hsel as [Hp Hown].
  set (q := decided (if apply then Applied else Rejected) (now env) p).
  assert (q ∈ proposals d) as Hq.
  { rewrite Ep. apply elem_of_update. exists p. split; [done|]. left. split; [|done]. by rewrite Hown, (proj2 (is_pending_true p) Hs), teqb_refl. }
  assert (select_proposal o id d' = Some q) as Hsel.
  { apply (find_unique p_id).
    - apply (history_sound l (MkMem d (cancelled_runs m))) in HM1. apply HM1.
    - apply decided_stays_history; [done | by destruct apply |]. cbn [q decided p_owner]. by rewrite (own_proposal_owner o id p Hown).
    - exact Hown.
    - intros y Hy. rewrite (own_proposal_id o id y Hy). symmetry. apply (own_proposal_id o id p Hown). }
  split; [exists q; by split_and!|].
  destruct (decide_proposal _ _ _ env' _ _ _ _ _ d') as [[d2 r2]|] eqn:E; [|done].
  apply decide_proposal_inv in E as (x & _ & _ & Hx & Hsx & _). rewrite Hsel in Hx. injection Hx as <-. by destruct apply.
Qed.

Lemma finish_cited env o id mo c rj drafts m m' r :
  finish_consolidation_run sha256_hex flags limits env o id mo c rj drafts m = Ok (m', r) -> CitedRows (db m) (db m').
Proof.
  intros H. apply finish_inv in H as [HE|H]; [apply HE|]. destruct H as (cur & mo' & d1 & ids & _ & _ & _ & _ & Hi & ->).
  pose proof (finish_run_effect limits o id mo' ids c rj (now env) (r_episodes cur) d1) as [_ _ _ _ _ _ HC _ _].
  apply insert_drafts_spec in Hi as (ps & rs & -> & _). intros x Hx Hc. apply HC; [done|].
  apply referenced_pending_true in Hc as (ref & p & Hr & Eo & Ee & Hp & Hrest). apply referenced_pending_true.
  exists ref, p. cbn. split_and!; try done; set_solver.
Qed.

(** The citations of the owner are dropped only by its purge. *)
Lemma prune_cited at_ o d d' u : prune limits at_ o d = Ok (d', u) -> RowsSound d -> CitedRows d d'.
Proof. intros Hp HR. destruct (prune_spec _ _ _ _ _ _ _ Hp HR) as (_ & H & _). by apply cited_rows_kept. Qed.

Lemma stage_cited env o draft coding d d' e : stage_episode_kind flags limits env o draft coding d = Ok (d', e) -> EpisodesSound limits d -> CitedRows d d'.
Proof.
  intros (d1 & e0 & Hi & Eo & Hp & _)%stage_inv [HR _]. pose proof (insert_episode_rows _ _ _ _ Hi HR) as HR1.
  unfold insert_episode in Hi. op_steps. eapply cited_rows_trans; [| | |by eapply prune_cited]; try done.
  intros x Hx _. exists x. split; [cbn; set_solver | by split_and!].
Qed.

Lemma set_summary_cited env o id s reason d d' e : set_episode_summary flags limits env o id s reason d = Ok (d', e) -> EpisodesSound limits d -> CitedRows d d'.
Proof.
  intros (t & b & Hs & Hb & Hp)%set_summary_inv [HR _]. eapply cited_rows_trans; [| | |eapply prune_cited; [exact Hp|]]; try done.
  - intros x Hx _. exists (if own_episode o id x then summarized t b x else x). split; [|by destruct (own_episode o id x)].
    apply elem_of_update. exists x. destruct (own_episode o id x); auto.
  - apply update_episodes_rows; [done | done | done |]. intros x. by apply summarized_check.
Qed.

(** What a pending proposal cites stays: no operation but the purge of the
    owner, and no restart, deletes an episode that a pending proposal cites;
    its identity, its privacy summary and its times stay as they are. *)
Theorem cited_episodes_survive e m : MemorySound (db m) ->
  forall x, x ∈ episodes (db m) -> referenced_pending (e_owner x) (e_id x) (db m) = true -> spares (e_owner x) e ->
  exists x', x' ∈ episodes (db (happen m e)) /\ SameEpisode x x'.
Proof.
  intros [HF HP HE HR] x Hx Hc Hn. enough (CitedRows (db m) (db (happen m e)) \/ x ∈ episodes (db (happen m e))) as [H|H].
  { by apply H. }
  { exists x. split; [done | by split_and!]. }
  destruct e as [env o op|at_].
  2: { left. intros y Hy _. exists (if bool_decide (e_state y = CPending) then in_state CNone y else y). split.
       - apply elem_of_update. exists y. destruct (bool_decide (e_state y = CPending)); auto.
       - by destruct (bool_decide (e_state y = CPending)). }
  destruct op; cbn [happen perform]; outcome; try (right; done).
  - right. by apply add_fact_only in Hr as (_ & _ & -> & _).
  - right. by apply deactivate_fact_only in Hr as (_ & _ & -> & _).
  - right. apply create_proposal_inv in Hr as (c & k & _ & Hst). by apply store_proposal_inv in Hst as (l & -> & _).
  - right. by apply decide_proposal_tables in Hr as (_ & -> & _).
  - left. by eapply stage_cited.
  - left. by eapply set_summary_cited.
  - left. apply delete_episode_inv in Hr as [Hno ->]. by apply cited_rows_kept, delete_episode_rows_cited.
  - left. apply purge_expired_inv in Hr as (ids & Hids & ->). apply cited_rows_kept. by apply (delete_all_sound limits).
  - left. apply cited_rows_kept. by eapply unreferenced_cited.
  - right. apply purge_owner_kept in Hr as [_ _ _ K _]. by apply (foreign_elem e_owner o _ _ x K).
  - left. by apply (queue_effect sha256_hex limits) in Hr as [].
  - left. by apply (begin_run_effect sha256_hex limits) in Hr as [].
  - left. by apply (set_model_effect flags limits) in Hr as [].
  - left. by apply (cancel_effect limits) in Hr as [].
  - left. by apply (fail_effect limits) in Hr as [].
  - left. by eapply finish_cited.
  - right. by injection Hr as <- _.
Qed.

(** Every run of an owner that is not purged makes one of the moves of its
    life cycle, whatever happens. *)
Lemma run_moves env o op m r : RunsSound (db m) -> r ∈ runs (db m) -> spares (r_owner r) (Did env o op) ->
  exists r', r' ∈ runs (db (perform env o op m)) /\ RunMove r r'.
Proof.
  intros HR Hin Hn. assert (forall d, runs d = runs (db m) -> exists r', r' ∈ runs d /\ RunMove r r') as Hsame.
  { intros d ->. exists r. split; [done | constructor]. }
  destruct op; cbn [perform]; outcome; try by apply Hsame.
  - apply Hsame. by apply add_fact_only in Hr as (_ & _ & _ & ->).
  - apply Hsame. by apply deactivate_fact_only in Hr as (_ & _ & _ & ->).
  - apply Hsame. apply create_proposal_inv in Hr as (c & k & _ & Hst). by apply store_proposal_inv in Hst as (l & -> & _).
  - apply Hsame. by apply decide_proposal_tables in Hr as (_ & _ & -> & _).
  - apply Hsame. by apply stage_kept in Hr as [_ (_ & _ & _ & _ & ->)].
  - apply Hsame. by apply set_summary_kept in Hr as [_ (_ & _ & _ & _ & ->)].
  - apply Hsame. by apply delete_episode_inv in Hr as [_ ->].
  - apply Hsame. apply purge_expired_inv in Hr as (ids & _ & ->). by destruct (delete_all_kept o ids (db m)) as [_ (_ & _ & _ & _ & ->)].
  - apply Hsame. by apply unreferenced_kept in Hr as [_ (_ & _ & _ & _ & ->)].
  - apply purge_owner_kept in Hr as [_ _ _ _ K]. exists r. split; [by apply (foreign_elem r_owner o _ _ r K) | constructor].
  - by apply (queue_effect sha256_hex limits), re_runs in Hr as [_ HM]; [apply HM|].
  - by apply (begin_run_effect sha256_hex limits), re_runs in Hr as [_ HM]; [apply HM|].
  - by apply (set_model_effect flags limits), re_runs in Hr as [_ HM]; [apply HM|].
  - by apply (cancel_effect limits), re_runs in Hr as [_ HM]; [apply HM|].
  - by apply (fail_effect limits), re_runs in Hr as [_ HM]; [apply HM|].
  - apply finish_inv in Hr as [HE|H]; [by apply re_runs in HE as [_ HM]; [apply HM|]|]. destruct H as (cur & mo' & d1 & ids & _ & _ & _ & _ & Hi & ->).
    apply insert_drafts_spec in Hi as (ps & rs & Ed & _). assert (runs d1 = runs (db m)) as Er by by rewrite Ed.
    destruct (re_runs _ _ _ _ (finish_run_effect limits o id mo' ids candidates rejected (now env) (r_episodes cur) d1)) as [_ HM];
      [by apply (runs_sound_same (db m))|]. apply HM. by rewrite Er.
  - apply Hsame. by injection Hr as <- _.
Qed.

Lemma done_stays e m r : RunsSound (db m) -> r ∈ runs (db m) -> r_state r = RDone -> spares (r_owner r) e -> r ∈ runs (db (happen m e)).
Proof.
  intros HR Hin Hs Hn. destruct e as [env o op|at_].
  - destruct (run_moves env o op m r HR Hin Hn) as (r' & Hr' & HM). by rewrite <- (run_move_done r r' HM Hs).
  - cbn [happen recover_interrupted_runs db with_episodes runs update_runs with_runs]. assert (forall s, s <> RDone -> is_state s r = false) as Hno.
    { intros s N. apply not_true_is_false. rewrite is_state_true. congruence. }
    apply elem_of_update. exists r. split; [|right; split; [by apply Hno | done]]. apply elem_of_update. exists r. split; [done|]. right.
    by rewrite !Hno.
Qed.

Lemma done_stays_history l m r : MemorySound (db m) -> r ∈ runs (db m) -> r_state r = RDone -> Forall (spares (r_owner r)) l ->
  r ∈ runs (db (history l m)).
Proof.
  revert m. induction l as [|e l IH]; intros m HM Hin Hs Hl; [done|]. apply Forall_cons in Hl as [He Hl]. cbn [history foldl].
  apply IH; [by apply happen_sound | | done | done]. apply done_stays; try done. apply HM.
Qed.

(** A finished consolidation is final and idempotent: through every later
    history that spares its owner the record of the run does not change, and
    asking again for the same episodes and version answers it and changes
    nothing. *)
Theorem finished_run_is_final l m r env ids version preempted :
  MemorySound (db m) -> r ∈ runs (db m) -> r_state r = RDone -> Forall (spares (r_owner r)) l -> valid_owner (r_owner r) = true ->
  r_key r = consolidation_idempotency_key sha256_hex (r_owner r) ids version -> length (r_key r) = 64%nat ->
  let m' := history l m in
  r ∈ runs (db m') /\ begin_run sha256_hex env (r_owner r) ids version preempted m' = Ok (m', r) /\
  queue_suggestion_run sha256_hex env (r_owner r) ids version (db m') = Ok (db m', r).
Proof.
  intros HM Hin Hs Hl Ho Hk H64 m'. assert (r ∈ runs (db m')) as Hin' by by apply done_stays_history.
  assert (MemorySound (db m')) as HM' by by apply history_sound.
  assert (select_key (r_owner r) (r_key r) (db m') = Some r) as Hsel.
  { unfold select_key. destruct (List.find _ _) as [s|] eqn:E.
    - apply find_elem in E as [Hs' E]. unfold with_key in E. apply andb_true_iff in E as [E1%teqb_eq E2%teqb_eq]. f_equal.
      apply (rs_keys _ (ms_runs _ HM')); congruence.
    - apply list_elem_of_In in Hin'. pose proof (find_none _ _ E r Hin') as N. unfold with_key in N. by rewrite !teqb_refl in N. }
  split; [done|]. unfold begin_run, queue_suggestion_run. rewrite (proj2 (require_owner_Ok (r_owner r) tt) Ho), <- Hk. cbn [mbind result_bind].
  rewrite Hsel, (proj2 (is_state_true RDone r) Hs). split; [done|].
  assert (run_conflict (new_run env (r_owner r) RIdle ids version (r_key r)) (db m') = true) as ->.
  { unfold run_conflict. cbn [new_run r_key r_owner]. rewrite (bool_decide_true (length (r_key r) = 64%nat)) by done. cbn [andb].
    apply orb_true_iff. right. apply existsb_exists. exists r. rewrite <- list_elem_of_In. split; [done|]. unfold with_key. by rewrite !teqb_refl. }
  by rewrite Hsel.
Qed.

(** Pruning ends, and decides exactly: either the owner is within its
    limits afterwards, nothing expired and uncited is left, only uncited
    episodes of the owner are gone, and what went before its time is older than
    every uncited episode that was kept; or the cited episodes by themselves
    exceed the limits and nothing is changed. *)
Theorem prune_exact at_ o d : RowsSound d ->
  match prune limits at_ o d with
  | Ok (d', _) =>
      over_limits limits o d' = false /\
      (forall x, x ∈ episodes d' -> e_owner x = o -> referenced_pending o (e_id x) d' = false -> at_ < e_expires x) /\
      (forall e, e ∈ episodes d -> e ∉ episodes d' -> e_owner e = o /\ referenced_pending o (e_id e) d = false) /\
      (forall e x, e ∈ episodes d -> e ∉ episodes d' -> at_ < e_expires e ->
         x ∈ episodes d' -> e_owner x = o -> referenced_pending o (e_id x) d = false -> oldest_episode e x)
  | Err e => e = err_cap /\ over limits (cited_rows o d) = true
  end.
Proof.
  intros HR. unfold prune. destruct (prune_ends limits (length (episodes d)) at_ o d) as [(d' & E)|E]; [done | |]; rewrite E.
  2: split; [done|]; by eapply prune_refused.
  destruct (prune_spec _ _ _ _ _ _ _ E HR) as (_ & HC & Hover & Hv). pose proof (prune_kept _ _ _ _ _ _ _ E) as HK. split_and!; [done | | |].
  - intros x Hx Ho Hc. apply Z.nle_gt. intros Hexp. unfold victim in Hv.
    match type of Hv with head (merge_sort oldest_episode ?k) = None =>
      assert (x ∈ merge_sort oldest_episode k) as Hin; [|by destruct (merge_sort oldest_episode k); [set_solver|]] end.
    rewrite merge_sort_Permutation, elem_of_Filter. unfold of_owner. rewrite Ho, teqb_refl, Hc. cbn. by rewrite (proj2 (Z.leb_le _ _) Hexp).
  - intros e He Hne. destruct (decide (e_owner e = o)) as [Ho|No].
    + split; [done|]. apply not_true_is_false. intros Hr. apply Hne. rewrite <- Ho in Hr. by apply HC.
    + destruct Hne. by apply (foreign_elem e_owner o _ _ e (ok_episodes _ _ _ HK)).
  - intros e x He Hne Hexp Hx Ho Hc. by eapply prune_oldest.
Qed.
End History.

(** ** A small store *)

Module SmallMemory.
Definition pad (n : nat) (t : text) : text := take n (t ++ repeat 48 n).
Definition sha (t : text) : text := pad 64 (map (fun c => 97 + c mod 6) t).
Definition flags0 (t : text) : Z := if contains (T "ignore previous") t then 1 else 0.
Definition small : Limits := MkLimits 2 200 40 3 100 2 1000 2000 100 10000 2 60 5 3 4 16 4.
Definition alice : text := T "user_alice".
Definition bob : text := T "user_bob".
Definition env (n : Z) : Env := MkEnv n (fun k => pad 32 (show_nat (n * 1000 + 100 + Z.of_nat k) ++ T "f")).
Definition empty : Mem := MkMem (MkDb [] [] [] [] [] 1 (Some [])) ∅.
Definition reason : text := T "reviewed".
Definition id_of (n : Z) (k : nat) : text := fresh (env n) k.

Definition fact_text : text := T "Prefers metric units".
Definition update_draft : ProposalDraft :=
  MkDraft UPDATE (Some (T "Prefers imperial units")) (Some (T "pref")) (Some (id_of 1 0)) (Some 1) (Some (sha fact_text)) [id_of 2 0].
Definition stage : Op := OpStage (MkEpisodeDraft (T "qwen") (T "completed") 10 20 (T "normal")) false.
Definition start : Mem :=
  history sha flags0 small
    [Did (env 1) alice (OpAddFact fact_text (T "pref") reason); Did (env 2) alice stage;
     Did (env 3) alice (OpCreateProposal update_draft); Did (env 4) bob stage] empty.
Definition prop_revision : text := match proposals (db start) with p :: _ => p_revision p | [] => [] end.

Example start_rows : (length (facts (db start)), length (proposals (db start)), length (refs (db start)), length (episodes (db start))) = (1, 1, 1, 2)%nat.
Proof. vm_compute. reflexivity. Qed.
Example approve_rewrites : map f_content (facts (db (perform sha flags0 small (env 5) alice (OpDecide (id_of 3 0) prop_revision true reason) start)))
  = [T "Prefers imperial units"].
Proof. vm_compute. reflexivity. Qed.
Example bob_cannot_decide : perform sha flags0 small (env 5) bob (OpDecide (id_of 3 0) prop_revision true reason) start = start.
Proof. vm_compute. reflexivity. Qed.

Lemma empty_sound : MemorySound sha small (db empty).
Proof.
  split; [split | split | split; [split|] | split]; try (by constructor); try (intros o; vm_compute; congruence).
  - by intros x [= <-].
  - intros r Hr. by apply not_elem_of_nil in Hr.
  - intros r s Hr. by apply not_elem_of_nil in Hr.
Qed.
Lemma start_sound : MemorySound sha small (db start).
Proof. apply history_sound, empty_sound. Qed.

(** A deactivation keeps the index whole; the purge of the owner afterwards
    opens it, until it is rebuilt. *)
Definition retired : list Event :=
  [Did (env 1) alice (OpAddFact fact_text (T "pref") reason); Did (env 2) bob (OpAddFact fact_text (T "pref") reason);
   Did (env 3) alice (OpDeactivate (id_of 1 0) 1 reason)].
Example retired_index : fts (db (history sha flags0 small retired empty)) = Some [(2, T "pref", fact_text)].
Proof. vm_compute. reflexivity. Qed.
Example purge_opens_index : fts (db (history sha flags0 small (retired ++ [Did (env 4) alice (OpPurgeOwner reason)]) empty)) = None.
Proof. vm_compute. reflexivity. Qed.
Example rebuild_closes_index :
  fts (db (history sha flags0 small (retired ++ [Did (env 4) alice (OpPurgeOwner reason); Did (env 5) alice OpRebuildIndex]) empty))
  = Some [(2, T "pref", fact_text)].
Proof. vm_compute. reflexivity. Qed.

Lemma memory_history_sound_witness :
  MemorySound sha small (db (history sha flags0 small retired empty))
  /\ exists entries, fts (db (history sha flags0 small retired empty)) = Some entries
       /\ entries ≡ₚ map entry_of (List.filter f_active (facts (db (history sha flags0 small retired empty)))).
Proof.
  destruct (memory_history_sound sha flags0 small retired empty empty_sound) as [H1 H2]. split; [exact H1|]. apply H2; [by eexists|].
  intros before e after E. assert (e ∈ retired) as He by (rewrite E; set_solver). unfold retired in He.
  repeat (apply elem_of_cons in He as [->|He]; [intros []|]). by apply not_elem_of_nil in He.
Defined.

(** An approval changes the fact as the theorem says. *)
Lemma facts_change_witness :
  FactChange sha flags0 small (env 5) alice (db start) (OpDecide (id_of 3 0) prop_revision true reason)
    (facts (db (perform sha flags0 small (env 5) alice (OpDecide (id_of 3 0) prop_revision true reason) start))).
Proof. apply facts_change_only_as_reviewed, start_sound. Defined.

Definition decided_db : Db := db (perform sha flags0 small (env 5) alice (OpDecide (id_of 3 0) prop_revision true reason) start).
Definition later : list Event := [Restarted 9; Did (env 10) bob stage; Did (env 11) bob (OpPurgeOwner reason)].
Lemma decision_is_final_witness :
  is_ok (decide_proposal sha flags0 small (env 12) alice (id_of 3 0) prop_revision false reason
           (db (history sha flags0 small later (MkMem decided_db ∅)))) = false.
Proof.
  destruct (decide_proposal sha flags0 small (env 5) alice (id_of 3 0) prop_revision true reason (db start)) as [[d r]|] eqn:E;
    [|exfalso; revert E; vm_compute; discriminate].
  assert (Forall (spares alice) later) as Hl by (repeat constructor; vm_compute; congruence).
  assert (d = decided_db) as <- by (unfold decided_db; cbn [perform]; rewrite E; reflexivity).
  exact (proj2 (decision_is_final sha flags0 small (env 5) alice (id_of 3 0) prop_revision true reason start d r later
           (env 12) prop_revision false reason start_sound E Hl)).
Defined.

Definition cited : Episode := nth 0 (episodes (db start)) (MkEpisode [] [] [] [] [] [] [] [] None CNone 0 0 0).
Lemma cited_episodes_survive_witness :
  exists x, x ∈ episodes (db (happen sha flags0 small start (Did (env 500) alice (OpPurgeExpired reason)))) /\ SameEpisode cited x.
Proof.
  apply (cited_episodes_survive sha flags0 small (Did (env 500) alice (OpPurgeExpired reason)) start start_sound cited).
  - apply (proj2 (list_elem_of_In _ _)). vm_compute. left. reflexivity.
  - vm_compute. reflexivity.
  - exact I.
Defined.

(** A run over Alice's episode, begun, settled and asked for again. *)
Definition add_draft : ProposalDraft := MkDraft ADD (Some (T "Works in Oslo")) None None None None [id_of 2 0].
Definition finished_mem : Mem :=
  history sha flags0 small
    [Did (env 6) alice (OpBeginRun [id_of 2 0] SUMMARIZER_VERSION false); Did (env 7) alice (OpFinishRun (id_of 6 0) (T "qwen") 1 0 [add_draft])] start.
Definition the_run : ConsolidationRun := nth 0 (runs (db finished_mem)) (MkRun [] [] RIdle [] [] [] [] [] 0 0 0 0 None None).
Lemma finished_run_is_final_witness :
  r_proposals the_run = [id_of 7 0] /\
  begin_run sha (env 20) alice [id_of 2 0] SUMMARIZER_VERSION false (history sha flags0 small later finished_mem)
  = Ok (history sha flags0 small later finished_mem, the_run).
Proof.
  split; [vm_compute; reflexivity|].
  assert (MemorySound sha small (db finished_mem)) as HM by apply history_sound, start_sound.
  assert (Forall (spares alice) later) as Hl by (repeat constructor; vm_compute; congruence).
  assert (the_run ∈ runs (db finished_mem)) as Hin by (apply (proj2 (list_elem_of_In _ _)); vm_compute; left; reflexivity).
  assert (r_owner the_run = alice) as Eo by (vm_compute; reflexivity).
  assert (r_key the_run = consolidation_idempotency_key sha (r_owner the_run) [id_of 2 0] SUMMARIZER_VERSION) as Ek by (vm_compute; reflexivity).
  assert (r_state the_run = RDone) as Es by (vm_compute; reflexivity).
  assert (length (r_key the_run) = 64%nat) as El by (vm_compute; reflexivity).
  assert (valid_owner (r_owner the_run) = true) as Ev by (vm_compute; reflexivity).
  assert (Forall (spares (r_owner the_run)) later) as Hl' by (rewrite Eo; exact Hl).
  pose proof (finished_run_is_final sha flags0 small later finished_mem the_run (env 20) [id_of 2 0] SUMMARIZER_VERSION false HM Hin Es Hl' Ev Ek El) as H.
  rewrite Eo in H. exact (proj1 (proj2 H)).
Defined.

Lemma prune_exact_witness :
  over_limits small alice (db start) = false /\
  match prune small 500 bob (db start) with Ok (d', _) => over_limits small bob d' = false | Err _ => False end.
Proof.
  split; [vm_compute; reflexivity|]. pose proof (prune_exact small 500 bob (db start) (proj1 (ms_episodes _ _ _ start_sound))) as H.
  destruct (prune small 500 bob (db start)) as [[d' u]|e] eqn:E; [exact (proj1 H) | exfalso; revert E; vm_compute; discriminate].
Defined.
End SmallMemory.
