(* ===== verification/MemorySuggest.v ===== *)
(** Completion suggestions ([server/structured_memory_suggest.rs]): a queue in
    RAM of finished chat turns and coding runs, and the worker that asks the
    local model for facts to propose from each of them.

    The worker is a state machine: its program counter is a [Phase], and a step
    runs to the next place where it gives up a lock or awaits.  Between two
    steps anything else may happen: a completion is queued, the owner clears
    the chat or cancels the run, a chat turn preempts the worker or takes the
    generation gate, another client uses the store, the process shuts down.  A
    step of the queue that calls the store holds the queue's lock over its
    calls and is one step here.

    The scanner's count, [Audit::redact], [serde_json]'s printer, the model's
    answer (already parsed) and the selections that name a cloud model are
    parameters.  Instants are nanoseconds. *)

From Stdlib Require Import QArith.
From S2P Require Import Prelude Text Effects Owners RepoPaths GenerationGate Edits Tables Memory MemoryRuns MemoryStore MemoryRecall.
Local Open Scope Z_scope.

(** ** Configuration *)

Inductive yaml :=
| YNull | YScalar | YStr (s : text) | YSeq (l : list yaml) | YMap (fields : list (yaml * yaml)) | YTagged (tag : text) (v : yaml).

Fixpoint untag (v : yaml) : yaml := match v with YTagged _ v => untag v | _ => v end.
Definition yaml_str (v : yaml) : option text := match untag v with YStr s => Some s | _ => None end.
Definition yaml_seq (v : yaml) : option (list yaml) := match untag v with YSeq l => Some l | _ => None end.
Fixpoint yaml_field (key : text) (fields : list (yaml * yaml)) : option yaml :=
  match fields with
  | [] => None
  | (YStr k, v) :: fields => if teqb k key then Some v else yaml_field key fields
  | _ :: fields => yaml_field key fields
  end.
Definition yaml_get (v : yaml) (key : text) : option yaml := match untag v with YMap fields => yaml_field key fields | _ => None end.

(** A row of [NUMERIC_LIMITS] that is clamped. *)
Record Limit := MkLimit { l_key : text; l_default : Z; l_min : Z; l_max : Z }.
Definition SUGGESTION_LIMITS : list Limit :=
  [MkLimit (T "structured_memory.suggestion_max_input_chars") 8000 256 32000;
   MkLimit (T "structured_memory.suggestion_max_queue") 8 1 32;
   MkLimit (T "structured_memory.suggestion_queue_ttl_secs") 300 1 3600].
Definition apply_limit (l : Limit) (value : Z) : Z := Z.max (l_min l) (Z.min (l_max l) value).

(** What one step reads of the configuration, the gates and the clock. *)
Record Conf := MkConf {
  instant : Z; flag_is_true : text -> bool; as_u64_at : text -> option Z; suggestion_mode : option yaml;
  suggestion_supported : option yaml; provider : text; current_model : text; backend_model : text; cloud_models : list text; operator_gates : OperatorGates;
}.

Definition limit (conf : Conf) (key : text) : Z :=
  match List.find (fun l => teqb (l_key l) key) SUGGESTION_LIMITS with
  | Some l => apply_limit l (match as_u64_at conf key with Some v => v | None => l_default l end)
  | None => 0
  end.
Definition max_queue (conf : Conf) : Z := limit conf (T "structured_memory.suggestion_max_queue").
Definition max_input_chars (conf : Conf) : Z := limit conf (T "structured_memory.suggestion_max_input_chars").
Definition queue_ttl_secs (conf : Conf) : Z := limit conf (T "structured_memory.suggestion_queue_ttl_secs").

Definition SUGGESTION_VERSION : text := T "completion-suggestions-v1".
Definition GATE_OWNER : text := T "memory-suggestion".
Definition PREEMPTED : text := T "SUGGESTION_PREEMPTED".

Inductive Source := Chat | Coding.
#[export] Instance source_eq_dec : EqDecision Source.
Proof. solve_decision. Defined.
Definition source_name (s : Source) : text := match s with Chat => T "chat" | Coding => T "coding" end.
Definition source_gate (s : Source) : text := match s with Chat => T "auto_suggest_chat" | Coding => T "auto_suggest_coding" end.

Definition mode (conf : Conf) : text :=
  match suggestion_mode conf with None => T "both" | Some v => match yaml_str v with Some s => s | None => [] end end.
Definition known_mode (m : text) : bool := teqb m (T "summaries") || teqb m (T "insights") || teqb m (T "both").

Definition unavailable_reason (conf : Conf) (store_open : bool) (source : Source) : option text :=
  let gates := operator_gates conf in
  if negb store_open then Some (T "store_closed")
  else if negb (capture_available (flag_is_true conf) true gates) then Some (T "capture_disabled")
  else if negb (resolve gates (source_gate source) (configured (flag_is_true conf) (source_gate source))) then Some (T "source_disabled")
  else if negb (known_mode (mode conf)) then Some (T "invalid_mode")
  else None.

(** [llm/profile.rs]: an untagged Ollama name is its [latest] tag. *)
Definition tagged (m : text) : text := if contains (T ":") (trim m) then trim m else trim m ++ T ":latest".
Definition same_model (a b : text) : bool := negb (bool_decide (trim a = [])) && teqb (tagged a) (tagged b).

(** The modes of an entry: whether one is [mode]; [None] for a bad entry. *)
Fixpoint covers_mode (mode : text) (modes : list yaml) : option bool :=
  match modes with
  | [] => Some false
  | m :: modes =>
      s ← yaml_str m;
      if negb (known_mode s) then None else c ← covers_mode mode modes; Some (teqb s mode || c)
  end.
Definition entry_supports (model mode provider : text) (entry : yaml) : option bool :=
  v ← yaml_get entry (T "model");
  s ← yaml_str v;
  if bool_decide (trim s = []) then None
  else
    v ← yaml_get entry (T "modes");
    modes ← yaml_seq v;
    c ← covers_mode mode modes;
    Some (c && (teqb (trim s) (T "*") || teqb (trim s) model || (teqb provider (T "ollama") && same_model (trim s) model))).
Fixpoint any_supports (model mode provider : text) (entries : list yaml) : option bool :=
  match entries with
  | [] => Some false
  | e :: entries => b ← entry_supports model mode provider e; c ← any_supports model mode provider entries; Some (b || c)
  end.
Definition model_mode_supported (list : option yaml) (model mode provider : text) : option bool :=
  match list with
  | None | Some YNull => Some false
  | Some (YSeq entries) => any_supports (trim model) mode provider entries
  | Some _ => None
  end.
Definition support_reason (conf : Conf) (model : text) : option text :=
  match model_mode_supported (suggestion_supported conf) model (mode conf) (provider conf) with
  | Some true => None
  | Some false => Some (T "unsupported_model_mode")
  | None => Some (T "invalid_supported_models")
  end.
Definition refusal (conf : Conf) (store_open : bool) (source : Source) (model : text) : option text :=
  match unavailable_reason conf store_open source with Some r => Some r | None => support_reason conf model end.

(** [server/state.rs] *)
Definition local_memory_model_for (conf : Conf) (selected : text) : text :=
  if bool_decide (trim selected = []) || existsb (teqb selected) (cloud_models conf) then backend_model conf else selected.

(** ** The queue *)

Record Job := MkJob {
  j_owner : text; j_episode : text; j_source : Source; j_model : text; j_run : text; j_input : text; j_output : text; j_created : Z;
}.

Record Queue := MkQueue {
  jobs : list Job; worker : bool; running_owner : option text; running_source : option Source; running_chat_cancelled : bool;
  running_cancel : option bool;  (* the token, and whether it is cancelled *)
  attempts : list (text * json);
}.
Definition with_jobs (l : list Job) (q : Queue) : Queue :=
  MkQueue l (worker q) (running_owner q) (running_source q) (running_chat_cancelled q) (running_cancel q) (attempts q).
Definition with_attempts (l : list (text * json)) (q : Queue) : Queue :=
  MkQueue (jobs q) (worker q) (running_owner q) (running_source q) (running_chat_cancelled q) (running_cancel q) l.
Definition with_worker (b : bool) (q : Queue) : Queue :=
  MkQueue (jobs q) b (running_owner q) (running_source q) (running_chat_cancelled q) (running_cancel q) (attempts q).
Definition empty_queue : Queue := MkQueue [] false None None false None [].

(** The trace: the lines of the audit log ([Skipped], [Discarded] and
    [Finished]) and, for the theorems, each job that enters the queue or is
    removed by its owner and each call of [finish_consolidation_run]. *)
Inductive Line :=
| Skipped (owner : text)
| Queued (job : Job)
| Discarded (job : Job) (reason : text) (receipt_saved : bool)
| Submitted (job : Job) (mode : text) (drafts : list ProposalDraft)
| Removed (job : Job)
| Finished (job : Job) (result : result text unit).

(** [result["key"] = v] on an object *)
Definition set_key (key : string) (v : json) (j : json) : json := match j with JObj fields => JObj (set_field (T key) v fields) | _ => j end.
Definition optional (t : option text) : json := match t with Some t => JStr t | None => JNull end.

(** [while attempts.len() >= max { attempts.pop_front() }] *)
Fixpoint shed {A} (max : Z) (l : list A) : list A :=
  match l with [] => [] | _ :: l' => if max <=? Z.of_nat (length l) then shed max l' else l end.

Definition attempt (conf : Conf) (at_ : Z) (q : Queue) (o : text) (source : Source) (episode : option text) (answer : json) : Queue * json :=
  let answer := set_key "created_ts" (JInt at_) (set_key "episode_id" (optional episode) (set_key "source" (JStr (source_name source)) answer)) in
  (with_attempts (shed (max_queue conf) (delete_where (fun a => teqb a.1 o) (attempts q)) ++ [(o, answer)]) q, answer).

Definition not_queued (reason : text) : json := JObj [(T "queued", JBool false); (T "reason", JStr reason)].
Definition not_queued_run (reason run : text) : json := JObj [(T "queued", JBool false); (T "reason", JStr reason); (T "run_id", JStr run)].
Definition was_queued (run : text) : json := JObj [(T "queued", JBool true); (T "run_id", JStr run); (T "approval_required", JBool true)].

(** ** The state *)

Definition Reply : Type := result harness_error (text * result harness_error (list ConsolidatorCandidate)).

(** Where the worker stands, with the locals of [worker] and [generate]. *)
Inductive Phase :=
| Stopped                                   (* not spawned, or returned *)
| Sleeping                                  (* at the head of the loop *)
| Popped (j : Job)                          (* has a job, the gate and a token *)
| Fetching (j : Job)                        (* [get_episode] *)
| Fetched (j : Job)                         (* the first [chat_cleared] *)
| Beginning (j : Job)                       (* [begin_suggestion_run] *)
| Begun (j : Job) (run : text)              (* [set_consolidation_model] *)
| Asking (j : Job) (run : text)             (* the [select!] over the model's answer *)
| Answered (j : Job) (run model : text) (parsed : result harness_error (list ConsolidatorCandidate))
| Allowed (j : Job) (run model : text) (parsed : result harness_error (list ConsolidatorCandidate))
| Listing (j : Job) (run model mode : text) (count : Z) (kept : list ConsolidatorCandidate)
| Submitting (j : Job) (run model mode : text) (count : Z) (bound : list BoundCandidate)
| Failing (j : Job) (run code : text)       (* [fail_consolidation_run] of [generate] *)
| Settling (j : Job) (result : result text unit).

Record World := MkWorld {
  s_store : option Mem; s_gate : Inner; s_queue : Queue; s_phase : Phase; s_down : bool; s_trace : list Line;
}.
Definition with_store (m : Mem) (w : World) : World := MkWorld (Some m) (s_gate w) (s_queue w) (s_phase w) (s_down w) (s_trace w).
Definition with_gate (g : Inner) (w : World) : World := MkWorld (s_store w) g (s_queue w) (s_phase w) (s_down w) (s_trace w).
Definition with_queue (q : Queue) (w : World) : World := MkWorld (s_store w) (s_gate w) q (s_phase w) (s_down w) (s_trace w).
Definition with_phase (p : Phase) (w : World) : World := MkWorld (s_store w) (s_gate w) (s_queue w) p (s_down w) (s_trace w).
Definition log (l : Line) (w : World) : World := MkWorld (s_store w) (s_gate w) (s_queue w) (s_phase w) (s_down w) (s_trace w ++ [l]).

Definition store_open (w : World) : bool := bool_decide (is_Some (s_store w)).
Definition initial_world (m : option Mem) : World := MkWorld m (MkInner false []) empty_queue Stopped false [].

Section Suggest.
Context (sha256_hex : text -> text) (flags : text -> Z) (limits : Limits) (min_confidence : Q).
Context (redact : text -> text) (to_string : json -> text).

(** ** Entering and leaving the queue *)

(** The attempt of the job's owner, when it is still this job's. *)
Fixpoint mark_lost (j : Job) (reason : text) (l : list (text * json)) : list (text * json) :=
  match l with
  | [] => []
  | (o, a) :: l =>
      if teqb o (j_owner j) && bool_decide (index a (T "run_id") = JStr (j_run j))
      then (o, set_key "discarded_reason" (JStr reason) (set_key "reason" (JStr (T "receipt_store_failed")) (set_key "queued" (JBool false) a))) :: l
      else (o, a) :: mark_lost j reason l
  end.
Definition discard (env : Env) (j : Job) (reason : text) (w : World) : World :=
  match s_store w with
  | Some m =>
      match fail_consolidation_run env (j_owner j) (j_run j) reason (db m) with
      | Ok (d, _) => log (Discarded j reason true) (with_store (MkMem d (cancelled_runs m)) w)
      | Err _ => log (Discarded j reason false) (with_queue (with_attempts (mark_lost j reason (attempts (s_queue w))) (s_queue w)) w)
      end
  | None => log (Discarded j reason false) (with_queue (with_attempts (mark_lost j reason (attempts (s_queue w))) (s_queue w)) w)
  end.

(** [jobs.retain]: a job with a reason is discarded. *)
Fixpoint retain_jobs (env : Env) (why : Job -> option text) (l : list Job) (w : World) : list Job * World :=
  match l with
  | [] => ([], w)
  | j :: l =>
      match why j with
      | Some reason => retain_jobs env why l (discard env j reason w)
      | None => let '(kept, w) := retain_jobs env why l w in (j :: kept, w)
      end
  end.
Definition discard_jobs (env : Env) (why : Job -> option text) (w : World) : World :=
  let '(kept, w) := retain_jobs env why (jobs (s_queue w)) w in with_queue (with_jobs kept (s_queue w)) w.

Definition chat_of (o : text) (j : Job) : option text :=
  if bool_decide (j_source j = Chat) && teqb (j_owner j) o then Some (T "source_cleared") else None.
Definition runs_chat_of (o : text) (q : Queue) : bool :=
  bool_decide (running_owner q = Some o) && bool_decide (running_source q = Some Chat).
Definition cancel_token (chat : bool) (q : Queue) : Queue :=
  MkQueue (jobs q) (worker q) (running_owner q) (running_source q) (running_chat_cancelled q || chat)
    (match running_cancel q with Some _ => Some true | None => None end) (attempts q).

Definition clear_chat_queue (env : Env) (o : text) (w : World) : World :=
  let w := discard_jobs env (chat_of o) w in
  if runs_chat_of o (s_queue w) then with_queue (cancel_token true (s_queue w)) w else w.
Definition preempt (w : World) : World * bool :=
  match running_cancel (s_queue w) with
  | Some _ => (with_queue (cancel_token false (s_queue w)) w, true)
  | None => (w, false)
  end.
Definition cancelled_input (o run : text) (j : Job) : bool := teqb (j_owner j) o && teqb (j_run j) run.
Definition remove_cancelled_input (o run : text) (w : World) : World :=
  let w := foldl (fun w j => log (Removed j) w) w (List.filter (cancelled_input o run) (jobs (s_queue w))) in
  with_queue (with_jobs (delete_where (cancelled_input o run) (jobs (s_queue w))) (s_queue w)) w.

Definition reply_attempt (conf : Conf) (env : Env) (o : text) (source : Source) (episode : option text) (answer : json) (w : World) : World * json :=
  let '(q, a) := attempt conf (now env) (s_queue w) o source episode answer in (with_queue q w, a).

(** The episode of the completion: the chat's, or one staged for the run. *)
Definition staged_episode (env : Env) (o : text) (source : Source) (episode : option text) (input output : text) (d : Db) : tx text :=
  match source, episode with
  | Chat, Some id => e ← get_episode o id d; Ok (d, e_id e)
  | _, _ =>
      '(d, e) ← stage_episode_kind flags limits env o
                  (MkEpisodeDraft (T "coding-run") (T "completed") (Z.of_nat (length input)) (Z.of_nat (length output)) (T "normal")) true d;
      Ok (d, e_id e)
  end.
Definition push_back (j : Job) (w : World) : World :=
  let w := with_queue (with_jobs (jobs (s_queue w) ++ [j]) (s_queue w)) (log (Queued j) w) in
  if worker (s_queue w) then w else with_phase Sleeping (with_queue (with_worker true (s_queue w)) w).

(** The end of [enqueue_for_model], with the episode or its error. *)
Definition queue_staged (conf : Conf) (env env2 : Env) (o : text) (source : Source) (episode : option text) (input output model : text)
    (m : Mem) (staged : tx text) (w : World) : World * json :=
  match staged with
  | Err err => reply_attempt conf env o source episode (not_queued (T (code err))) w
  | Ok (d, id) =>
      let w := with_store (MkMem d (cancelled_runs m)) w in
      match queue_suggestion_run sha256_hex env2 o [id] SUGGESTION_VERSION d with
      | Err err => reply_attempt conf env o source (Some id) (not_queued (T (code err))) w
      | Ok (d, run) =>
          let w := with_store (MkMem d (cancelled_runs m)) w in
          if negb (is_state RIdle run) || existsb (fun j => teqb (j_run j) (r_id run)) (jobs (s_queue w))
          then reply_attempt conf env o source (Some id) (not_queued_run (T "already_recorded") (r_id run)) w
          else
            reply_attempt conf env o source (Some id) (was_queued (r_id run))
              (push_back (MkJob o id source model (r_id run) input output (instant conf)) w)
      end
  end.
Definition enqueue_for_model (conf : Conf) (env env2 : Env) (o : text) (source : Source) (episode : option text) (input output model : text)
    (w : World) : World * json :=
  let model := local_memory_model_for conf model in
  match refusal conf (store_open w) source model with
  | Some reason => reply_attempt conf env o source episode (not_queued reason) w
  | None =>
      if (0 <? flags input) || (0 <? flags output) then reply_attempt conf env o source episode (not_queued (T "injection_detected")) w
      else
        let input := clip_chars (redact input) (max_input_chars conf / 2) in
        let output := clip_chars (redact output) (max_input_chars conf / 2) in
        if max_queue conf <=? Z.of_nat (length (jobs (s_queue w)))
        then reply_attempt conf env o source episode (not_queued (T "queue_full")) (log (Skipped o) w)
        else
          match s_store w, source, episode with
          | None, _, _ => (w, JNull)
          | Some _, Chat, None => reply_attempt conf env o source episode (not_queued (T "episode_unavailable")) w
          | Some m, _, _ => queue_staged conf env env2 o source episode input output model m (staged_episode env o source episode input output (db m)) w
          end
  end.

Definition evidence_keys : list string := ["repo"; "status"; "run_id"; "changed_files"; "pushed"; "pr_url"; "commit_message"]%string.
Definition evidence (parsed : json) : json := JObj (map (fun k => (T k, index parsed (T k))) evidence_keys).
Definition coding_completed (conf : Conf) (env env2 : Env) (o instruction : text) (result : json) (w : World) : World * json :=
  if negb (bool_decide (index result (T "ok") = JBool true))
  then reply_attempt conf env o Coding None (not_queued (T "run_not_successful")) w
  else
    let parsed := index result (T "parsed") in
    if negb (bool_decide (index parsed (T "status") = JStr (T "pending_decision")))
    then reply_attempt conf env o Coding None (not_queued (T "run_not_accepted")) w
    else enqueue_for_model conf env env2 o Coding None instruction (to_string (evidence parsed)) (current_model conf) w.

(** ** The worker *)

(** What a step of the worker finds: the configuration, the clock and fresh
    identifiers, and whether the model has answered. *)
Record Input := MkInput { i_conf : Conf; i_env : Env; i_reply : option Reply }.

Definition expired (conf : Conf) (j : Job) : bool := queue_ttl_secs conf * 1000000000 <? instant conf - j_created j.
Definition stale_reason (conf : Conf) (w : World) (j : Job) : option text :=
  if expired conf j then Some (T "queue_expired") else refusal conf (store_open w) (j_source j) (j_model j).

Definition start_running (j : Job) (q : Queue) : Queue :=
  MkQueue (jobs q) (worker q) (Some (j_owner j)) (Some (j_source j)) false (Some false) (attempts q).
Definition stop_running (q : Queue) : Queue := MkQueue (jobs q) (worker q) None None (running_chat_cancelled q) None (attempts q).

(** The loop head: expire, stop on an empty queue, claim the gate and pop. *)
Definition take_job (i : Input) (w : World) : World :=
  if s_down w then with_phase Stopped w
  else
    let w := discard_jobs (i_env i) (stale_reason (i_conf i) w) w in
    match jobs (s_queue w) with
    | [] => with_phase Stopped (with_queue (with_worker false (s_queue w)) w)
    | j :: rest =>
        match claim_or_busy_owner (s_gate w) GATE_OWNER with
        | Err _ => w
        | Ok g => with_phase (Popped j) (with_gate g (with_queue (start_running j (with_jobs rest (s_queue w))) w))
        end
    end.

Definition chat_cleared (j : Job) (w : World) : bool := bool_decide (j_source j = Chat) && running_chat_cancelled (s_queue w).

(** What [generate] keeps of the model's candidates, and what of the bound
    ones: one summary. *)
Definition category_allowed (mode : text) (category : option text) : bool :=
  match category with
  | Some c => (teqb c (T "session_summary") && (teqb mode (T "summaries") || teqb mode (T "both")))
              || (teqb c (T "insight") && (teqb mode (T "insights") || teqb mode (T "both")))
  | None => false
  end.
Definition proposable (mode : text) (c : ConsolidatorCandidate) : bool :=
  category_allowed mode (k_category c) && teqb (k_action c) ADD && bool_decide (k_target c = None)
  && match k_content c with Some s => teqb (redact s) s && negb (contains (T "[REDACTED_") s) | None => false end.
Definition is_summary (b : BoundCandidate) : bool := bool_decide (b_category b = Some (T "session_summary")).
Fixpoint one_summary (seen : bool) (l : list BoundCandidate) : list BoundCandidate :=
  match l with
  | [] => []
  | b :: l => if is_summary b then (if seen then one_summary true l else b :: one_summary true l) else b :: one_summary seen l
  end.

Definition on_store {A} (f : Mem -> result harness_error (Mem * A)) (no : text -> Phase) (yes : A -> Phase) (w : World) : World :=
  match s_store w with
  | Some m => match f m with Ok (m, a) => with_phase (yes a) (with_store m w) | Err e => with_phase (no (T (code e))) w end
  | None => w
  end.
Definition in_tx {A} (f : Db -> tx A) (m : Mem) : result harness_error (Mem * A) := '(d, a) ← f (db m); Ok (MkMem d (cancelled_runs m), a).
Definition reading {A} (f : Db -> result harness_error A) (m : Mem) : result harness_error (Mem * A) := a ← f (db m); Ok (m, a).
Definition fails (j : Job) (code : text) : Phase := Settling j (Err code).

Definition after_begin (j : Job) (run : ConsolidationRun) : Phase :=
  match r_state run with
  | RRunning => Begun j (r_id run)
  | RCancelled | RFailed => fails j (T "SUGGESTION_CANCELLED")
  | _ => Settling j (Ok tt)
  end.

(** The branches of [select!] in their order. *)
Definition ask (j : Job) (run : text) (i : Input) (w : World) : Phase :=
  if match s_store w with Some m => is_cancel_requested run m | None => false end then Failing j run (T "SUGGESTION_CANCELLED")
  else if bool_decide (running_cancel (s_queue w) = Some true) then Failing j run PREEMPTED
  else if s_down w then Failing j run (T "interrupted")
  else match i_reply i with
       | None => Asking j run
       | Some (Ok (model, parsed)) => Answered j run model parsed
       | Some (Err e) => Failing j run (T (code e))
       end.
Definition check_answer (j : Job) (run model : text) (parsed : result harness_error (list ConsolidatorCandidate)) (i : Input) (w : World) : Phase :=
  match refusal (i_conf i) (store_open w) (j_source j) (j_model j) with
  | Some reason => Failing j run reason
  | None =>
      match parsed with
      | Err e => Failing j run (T (code e))
      | Ok l => Listing j run model (mode (i_conf i)) (Z.of_nat (length l)) (List.filter (proposable (mode (i_conf i))) l)
      end
  end.
Definition bind_kept (j : Job) (kept : list ConsolidatorCandidate) (facts : list Fact) : list BoundCandidate :=
  one_summary false (bind_candidates kept [j_episode j] facts (max_fact_chars limits) (max_category_chars limits) min_confidence).1.
Definition submit (i : Input) (j : Job) (run model mode : text) (count : Z) (bound : list BoundCandidate) (w : World) : World :=
  if chat_cleared j w then with_phase (Failing j run (T "source_cleared")) w
  else
    on_store (finish_consolidation_run sha256_hex flags limits (i_env i) (j_owner j) run model count (count - Z.of_nat (length bound)) (drafts_from_bound bound))
      (Failing j run) (fun _ => Settling j (Ok tt)) (log (Submitted j mode (drafts_from_bound bound)) w).

Definition error_class (code : text) : text := if teqb code PREEMPTED then PREEMPTED_CLASS else code.

(** The end of a turn of the loop, under the queue's lock. *)
Definition settle (env : Env) (j : Job) (result : result text unit) (w : World) : World :=
  let preempted := match result with Err c => teqb c PREEMPTED | Ok _ => false end in
  let w := match result with Err c => if preempted then w else discard env j c w | Ok _ => w end in
  let w := log (Finished j result) w in
  let w :=
    if preempted then
      if match s_store w with Some m => is_cancel_requested (j_run j) m | None => false end then discard env j CANCELLED w
      else if chat_cleared j w then discard env j (T "source_cleared") w
      else with_queue (with_jobs (j :: jobs (s_queue w)) (s_queue w)) w
    else w in
  with_phase Sleeping (with_gate (release (s_gate w)) (with_queue (stop_running (s_queue w)) w)).

Definition work (i : Input) (w : World) : World :=
  match s_phase w with
  | Stopped => w
  | Sleeping => take_job i w
  | Popped j => with_phase (match stale_reason (i_conf i) w j with Some reason => fails j reason | None => Fetching j end) w
  | Fetching j => on_store (reading (get_episode (j_owner j) (j_episode j))) (fails j) (fun _ => Fetched j) w
  | Fetched j => with_phase (if chat_cleared j w then fails j (T "source_cleared") else Beginning j) w
  | Beginning j =>
      on_store (begin_suggestion_run sha256_hex (i_env i) (j_owner j) [j_episode j] SUGGESTION_VERSION) (fails j) (after_begin j) w
  | Begun j run => on_store (in_tx (set_consolidation_model flags (j_owner j) run (j_model j))) (Failing j run) (fun _ => Asking j run) w
  | Asking j run => with_phase (ask j run i w) w
  | Answered j run model parsed =>
      with_phase (if chat_cleared j w then Failing j run (T "source_cleared") else Allowed j run model parsed) w
  | Allowed j run model parsed => with_phase (check_answer j run model parsed i w) w
  | Listing j run model mode count kept =>
      on_store (reading (list_facts (j_owner j))) (Failing j run) (fun facts => Submitting j run model mode count (bind_kept j kept facts)) w
  | Submitting j run model mode count bound => submit i j run model mode count bound w
  | Failing j run c =>
      on_store (in_tx (fail_consolidation_run (i_env i) (j_owner j) run (error_class c))) (fun _ => fails j c) (fun _ => fails j c) w
  | Settling j result => settle (i_env i) j result w
  end.

(** ** Histories *)

Inductive Event :=
| Work (i : Input)
| Enqueue (conf : Conf) (env env2 : Env) (o : text) (source : Source) (episode : option text) (input output model : text)
| Completed (conf : Conf) (env env2 : Env) (o instruction : text) (result : json)
| ClearChat (env : Env) (o : text)
| Preempt
| RemoveInput (o run : text)
| StoreUsed (env : Env) (o : text) (op : Op)
| GateTaken (who : text)
| GateLeft                                  (* the guard of a chat turn is dropped *)
| ShutDown.

(** The worker holds the gate from the pop to the end of [settle]. *)
Definition busy (p : Phase) : option Job :=
  match p with
  | Stopped | Sleeping => None
  | Popped j | Fetching j | Fetched j | Beginning j | Begun j _ | Asking j _ | Answered j _ _ _ | Allowed j _ _ _
  | Listing j _ _ _ _ _ | Submitting j _ _ _ _ _ | Failing j _ _ | Settling j _ => Some j
  end.

Definition happens (w : World) (e : Event) : World :=
  match e with
  | Work i => work i w
  | Enqueue conf env env2 o s ep a b model => (enqueue_for_model conf env env2 o s ep a b model w).1
  | Completed conf env env2 o t r => (coding_completed conf env env2 o t r w).1
  | ClearChat env o => clear_chat_queue env o w
  | Preempt => (preempt w).1
  | RemoveInput o run => remove_cancelled_input o run w
  | StoreUsed env o op => match s_store w with Some m => with_store (perform sha256_hex flags limits env o op m) w | None => w end
  | GateTaken who => match claim_or_busy_owner (s_gate w) who with Ok g => with_gate g w | Err _ => w end
  | GateLeft => if bool_decide (busy (s_phase w) = None) then with_gate (release (s_gate w)) w else w
  | ShutDown => MkWorld (s_store w) (s_gate w) (s_queue w) (s_phase w) true (s_trace w)
  end.
Definition so_far (l : list Event) (w : World) : World := foldl happens w l.

(** ** What a step leaves alone *)

Definition running (p : Phase) : list Job := match busy p with Some j => [j] | None => [] end.
Definition frame (q : Queue) := (worker q, running_owner q, running_source q, running_chat_cancelled q, running_cancel q).

(** The jobs that a line puts into the queue and those that it ends. *)
Definition queued_by (l : Line) : list Job := match l with Queued j => [j] | _ => [] end.
Definition ended_by (l : Line) : list Job :=
  match l with Discarded j _ _ | Removed j | Finished j (Ok _) => [j] | _ => [] end.
Definition is_discard (l : Line) : bool := match l with Discarded _ _ _ => true | _ => false end.

(** [w'] is [w] but for the store, the answers kept for the owners and more
    lines of the trace. *)
Record Aside (w w' : World) (lines : list Line) : Prop := {
  as_gate : s_gate w' = s_gate w;
  as_phase : s_phase w' = s_phase w;
  as_down : s_down w' = s_down w;
  as_jobs : jobs (s_queue w') = jobs (s_queue w);
  as_frame : frame (s_queue w') = frame (s_queue w);
  as_keys : map fst (attempts (s_queue w')) = map fst (attempts (s_queue w));
  as_store : s_store w' = None <-> s_store w = None;
  as_trace : s_trace w' = s_trace w ++ lines;
}.

Lemma aside_refl w : Aside w w [].
Proof. split; try done. by rewrite app_nil_r. Qed.
Lemma aside_trans w1 w2 w3 a b : Aside w1 w2 a -> Aside w2 w3 b -> Aside w1 w3 (a ++ b).
Proof. intros [] []. split; try congruence; [tauto|]. rewrite app_assoc. congruence. Qed.

Lemma mark_lost_keys j reason l : map fst (mark_lost j reason l) = map fst l.
Proof. induction l as [|[o a] l IH]; [done|]. cbn [mark_lost]. destruct (_ && _); cbn [map fst]; congruence. Qed.

Lemma discard_aside env j reason w : exists b, Aside w (discard env j reason w) [Discarded j reason b].
Proof.
  assert (Aside w (log (Discarded j reason false) (with_queue (with_attempts (mark_lost j reason (attempts (s_queue w))) (s_queue w)) w)) [Discarded j reason false]) as HF.
  { split; try done. apply mark_lost_keys. }
  unfold discard. destruct (s_store w) as [m|] eqn:E; [|by exists false].
  destruct (fail_consolidation_run env (j_owner j) (j_run j) reason (db m)) as [[d r]|e]; [exists true | by exists false].
  split; try done. cbn. by rewrite E.
Qed.

Definition keeps (why : Job -> option text) (j : Job) : bool := match why j with Some _ => false | None => true end.

Lemma retain_spec env why l w : exists w' lines,
  retain_jobs env why l w = (List.filter (keeps why) l, w') /\ Aside w w' lines /\ Forall (fun x => is_discard x = true) lines /\
  flat_map ended_by lines = delete_where (keeps why) l.
Proof.
  revert w. induction l as [|j l IH]; intros w; cbn [retain_jobs]; [exists w, []; split_and!; [done | apply aside_refl | constructor | done]|].
  unfold delete_where in *. cbn [List.filter]. destruct (why j) as [reason|] eqn:E; (assert (keeps why j = negb (bool_decide (is_Some (why j)))) as -> by (unfold keeps; by rewrite E)); rewrite E; cbn.
  - destruct (discard_aside env j reason w) as [b HA]. destruct (IH (discard env j reason w)) as (w' & ls & -> & HB & HF & HE).
    exists w', ([Discarded j reason b] ++ ls). split_and!; [done | by eapply aside_trans | by constructor | cbn; f_equal; exact HE].
  - destruct (IH w) as (w' & ls & -> & HB & HF & HE). by exists w', ls.
Qed.

Lemma discard_jobs_spec env why w : exists w' lines,
  discard_jobs env why w = with_queue (with_jobs (List.filter (keeps why) (jobs (s_queue w))) (s_queue w')) w' /\ Aside w w' lines /\
  Forall (fun x => is_discard x = true) lines /\ flat_map ended_by lines = delete_where (keeps why) (jobs (s_queue w)).
Proof.
  unfold discard_jobs. destruct (retain_spec env why (jobs (s_queue w)) w) as (w' & ls & -> & H1 & H2 & H3). by exists w', ls.
Qed.

(** How far a job is from its end. *)
Definition rank (p : Phase) : nat :=
  match p with
  | Stopped => 0 | Sleeping => 1 | Settling _ _ => 2 | Failing _ _ _ => 3 | Submitting _ _ _ _ _ _ => 4 | Listing _ _ _ _ _ _ => 5
  | Allowed _ _ _ _ => 6 | Answered _ _ _ _ => 7 | Asking _ _ => 8 | Begun _ _ => 9 | Beginning _ => 10 | Fetched _ => 11
  | Fetching _ => 12 | Popped _ => 13
  end.

(** A step of [generate]: it goes on with the job, and touches only the store
    and the trace. *)
Record Advances (j : Job) (answered : bool) (w w' : World) (lines : list Line) : Prop := {
  ad_gate : s_gate w' = s_gate w;
  ad_queue : s_queue w' = s_queue w;
  ad_down : s_down w' = s_down w;
  ad_store : s_store w' = None <-> s_store w = None;
  ad_busy : busy (s_phase w') = Some j;
  ad_rank : answered = true -> (rank (s_phase w') < rank (s_phase w))%nat;
  ad_trace : s_trace w' = s_trace w ++ lines;
}.

Definition is_settling (p : Phase) : bool := match p with Settling _ _ => true | _ => false end.
Definition submission (p : Phase) : list Line :=
  match p with Submitting j _ _ mode _ bound => [Submitted j mode (drafts_from_bound bound)] | _ => [] end.

Lemma to_phase j b w p : busy p = Some j -> (b = true -> (rank p < rank (s_phase w))%nat) -> Advances j b w (with_phase p w) [].
Proof. intros H1 H2. split; try done. by rewrite app_nil_r. Qed.

Lemma on_store_advances {A} j b (f : Mem -> result harness_error (Mem * A)) no yes w :
  s_store w <> None -> (forall c, busy (no c) = Some j /\ (rank (no c) < rank (s_phase w))%nat) ->
  (forall a, busy (yes a) = Some j /\ (rank (yes a) < rank (s_phase w))%nat) -> Advances j b w (on_store f no yes w) [].
Proof.
  intros Hs Hno Hyes. unfold on_store. destruct (s_store w) as [m|] eqn:E; [|done]. destruct (f m) as [[m' a]|e].
  - destruct (Hyes a). split; try done; [cbn; by rewrite E | by rewrite app_nil_r].
  - destruct (Hno (T (code e))). by apply to_phase.
Qed.

Lemma check_answer_busy j run model parsed i w : busy (check_answer j run model parsed i w) = Some j /\ (rank (check_answer j run model parsed i w) < 6)%nat.
Proof. unfold check_answer. destruct (refusal _ _ _ _); [|destruct parsed]; (split; [done | cbn; lia]). Qed.

Lemma ask_busy j run i w : busy (ask j run i w) = Some j /\ (i_reply i <> None -> (rank (ask j run i w) < 8)%nat).
Proof.
  unfold ask. destruct (match s_store w with Some _ => _ | None => _ end); [split; [done | cbn; lia]|].
  destruct (bool_decide _); [split; [done | cbn; lia]|]. destruct (s_down w); [split; [done | cbn; lia]|].
  destruct (i_reply i) as [[[model parsed]|e]|]; split; (done || (cbn; lia)).
Qed.

Lemma work_advances i w j : busy (s_phase w) = Some j -> is_settling (s_phase w) = false -> s_store w <> None ->
  exists lines, Advances j (bool_decide (i_reply i <> None)) w (work i w) lines /\ (lines = [] \/ (lines = submission (s_phase w) /\ chat_cleared j w = false)).
Proof.
  intros Hb Hs Hst. unfold work. destruct (s_phase w) eqn:Ep; try discriminate; injection Hb as ->.
  - exists []. split; [|by left]. destruct (stale_reason _ _ _); apply to_phase; rewrite ?Ep; cbn; done || lia.
  - exists []. split; [|by left]. apply on_store_advances; rewrite ?Ep; [done | split; [done | cbn; lia]..].
  - exists []. split; [|by left]. destruct (chat_cleared _ _); apply to_phase; rewrite ?Ep; cbn; done || lia.
  - exists []. split; [|by left]. apply on_store_advances; rewrite ?Ep; [done | split; [done | cbn; lia] |].
    intros r. unfold after_begin. destruct (r_state r); (split; [done | cbn; lia]).
  - exists []. split; [|by left]. apply on_store_advances; rewrite ?Ep; [done | split; [done | cbn; lia]..].
  - exists []. split; [|by left]. destruct (ask_busy j run i w) as [H1 H2]. apply to_phase; rewrite ?Ep; [done|]. intros H%bool_decide_eq_true. by apply H2.
  - exists []. split; [|by left]. destruct (chat_cleared _ _); apply to_phase; rewrite ?Ep; cbn; done || lia.
  - exists []. split; [|by left]. destruct (check_answer_busy j run model parsed i w). apply to_phase; rewrite ?Ep; cbn; done || lia.
  - exists []. split; [|by left]. apply on_store_advances; rewrite ?Ep; [done | split; [done | cbn; lia]..].
  - unfold submit. destruct (chat_cleared j w) eqn:Ec.
    + exists []. split; [|by left]. apply to_phase; rewrite ?Ep; cbn; done || lia.
    + exists [Submitted j mode0 (drafts_from_bound bound)]. split; [|by right].
      edestruct (on_store_advances j (bool_decide (i_reply i <> None)) (finish_consolidation_run sha256_hex flags limits (i_env i) (j_owner j) run model count (count - Z.of_nat (length bound)) (drafts_from_bound bound))
        (Failing j run) (fun _ => Settling j (Ok tt)) (log (Submitted j mode0 (drafts_from_bound bound)) w)) as [];
        [done | cbn; rewrite Ep; split; [done | cbn; lia].. |].
      split; try done. etransitivity; [eassumption|]. by rewrite app_nil_r.
  - exists []. split; [|by left]. apply on_store_advances; rewrite ?Ep; [done | split; [done | cbn; lia]..].
Qed.

Definition ends_only (l : Line) : bool := match l with Queued _ | Submitted _ _ _ => false | _ => true end.
Lemma discards_end lines : Forall (fun x => is_discard x = true) lines -> Forall (fun x => ends_only x = true) lines.
Proof. intros H. eapply Forall_impl; [exact H|]. by intros []. Qed.
Lemma ends_only_none lines : Forall (fun x => ends_only x = true) lines -> flat_map queued_by lines = [].
Proof. induction 1 as [|[] ls H _ IH]; try done; exact IH. Qed.

Lemma settle_spec env j result w : exists w1 js lines,
  settle env j result w = with_phase Sleeping (with_gate (release (s_gate w)) (with_queue (stop_running (with_jobs js (s_queue w1))) w1)) /\
  Aside w w1 lines /\ Forall (fun x => ends_only x = true) lines /\
  ((js = jobs (s_queue w) /\ flat_map ended_by lines = [j]) \/
   (js = j :: jobs (s_queue w) /\ flat_map ended_by lines = [] /\ chat_cleared j w = false)).
Proof.
  assert (forall w, with_jobs (jobs (s_queue w)) (s_queue w) = s_queue w) as Hid by (by intros [? ? [] ? ? ?]).
  assert (forall w w1 lines, Aside w w1 lines -> with_phase Sleeping (with_gate (release (s_gate w1)) (with_queue (stop_running (s_queue w1)) w1))
    = with_phase Sleeping (with_gate (release (s_gate w)) (with_queue (stop_running (with_jobs (jobs (s_queue w)) (s_queue w1))) w1))) as Hend.
  { intros v v1 ls H. by rewrite <- (as_jobs _ _ _ H), Hid, <- (as_gate _ _ _ H). }
  assert (forall w, Aside w (log (Finished j result) w) [Finished j result]) as Hlog by (intros v; by split).
  unfold settle. destruct result as [u|c].
  - exists (log (Finished j (Ok u)) w), (jobs (s_queue w)), [Finished j (Ok u)].
    split_and!; [by apply (Hend w _ _ (Hlog w)) | apply Hlog | by repeat constructor | by left].
  - destruct (teqb c PREEMPTED).
    + set (w0 := log (Finished j (Err c)) w).
      assert (forall reason, exists w1 js lines,
        with_phase Sleeping (with_gate (release (s_gate (discard env j reason w0))) (with_queue (stop_running (s_queue (discard env j reason w0))) (discard env j reason w0)))
        = with_phase Sleeping (with_gate (release (s_gate w)) (with_queue (stop_running (with_jobs js (s_queue w1))) w1)) /\
        Aside w w1 lines /\ Forall (fun x => ends_only x = true) lines /\
        ((js = jobs (s_queue w) /\ flat_map ended_by lines = [j]) \/ (js = j :: jobs (s_queue w) /\ flat_map ended_by lines = [] /\ chat_cleared j w = false))) as HD.
      { intros reason. destruct (discard_aside env j reason w0) as [b HA]. pose proof (aside_trans _ _ _ _ _ (Hlog w) HA) as HB.
        exists (discard env j reason w0), (jobs (s_queue w)), ([Finished j (Err c)] ++ [Discarded j reason b]).
        split_and!; [by apply (Hend w _ _ HB) | done | by repeat constructor | by left]. }
      destruct (match s_store w0 with Some m => is_cancel_requested (j_run j) m | None => false end); [apply HD|].
      destruct (chat_cleared j w0) eqn:Ec; [apply HD|].
      exists w0, (j :: jobs (s_queue w)), [Finished j (Err c)]. split_and!; [done | apply Hlog | by repeat constructor | by right].
    + destruct (discard_aside env j c w) as [b HA]. pose proof (aside_trans _ _ _ _ _ HA (Hlog _)) as HB.
      exists (log (Finished j (Err c)) (discard env j c w)), (jobs (s_queue w)), ([Discarded j c b] ++ [Finished j (Err c)]).
      split_and!; [by apply (Hend w _ _ HB) | done | by repeat constructor | by left].
Qed.

Lemma take_job_spec i w : (s_down w = true /\ take_job i w = with_phase Stopped w) \/ exists w1 js lines,
  let why := stale_reason (i_conf i) w in
  js = List.filter (keeps why) (jobs (s_queue w)) /\ Aside w w1 lines /\ Forall (fun x => is_discard x = true) lines /\
  flat_map ended_by lines = delete_where (keeps why) (jobs (s_queue w)) /\ s_down w = false /\
  ((js = [] /\ take_job i w = with_phase Stopped (with_queue (with_worker false (with_jobs [] (s_queue w1))) w1)) \/
   (js <> [] /\ held (s_gate w) = true /\ take_job i w = with_queue (with_jobs js (s_queue w1)) w1) \/
   (exists j rest, js = j :: rest /\ held (s_gate w) = false /\
      take_job i w = with_phase (Popped j) (with_gate (MkInner true GATE_OWNER) (with_queue (start_running j (with_jobs rest (s_queue w1))) w1)))).
Proof.
  unfold take_job. destruct (s_down w) eqn:Ed; [by left | right].
  destruct (discard_jobs_spec (i_env i) (stale_reason (i_conf i) w) w) as (w1 & ls & -> & HA & HF & HE).
  exists w1, (List.filter (keeps (stale_reason (i_conf i) w)) (jobs (s_queue w))), ls. cbn zeta. split_and!; try done. cbn [s_queue with_queue jobs with_jobs].
  destruct (List.filter _ _) as [|j rest] eqn:Ef; [by left|].
  right. unfold claim_or_busy_owner. cbn [s_gate]. change (s_gate (with_queue _ w1)) with (s_gate w1). rewrite (as_gate _ _ _ HA).
  destruct (held (s_gate w)) eqn:Eh; [by left|]. right. by exists j, rest.
Qed.

(** *** Answers to completions *)

Definition AttemptsOk (q : Queue) : Prop := NoDup (map fst (attempts q)) /\ Z.of_nat (length (attempts q)) <= 32.

Lemma max_queue_range conf : 1 <= max_queue conf <= 32.
Proof.
  unfold max_queue, limit. destruct (List.find _ _) as [l|] eqn:E; [|exfalso; revert E; vm_compute; discriminate].
  assert (l = nth 1 SUGGESTION_LIMITS l) as ->. { revert E. vm_compute. by intros [= <-]. }
  unfold apply_limit. cbn [nth SUGGESTION_LIMITS l_min l_max]. lia.
Qed.
Lemma half_input conf : 0 <= max_input_chars conf / 2 <= 16000.
Proof.
  unfold max_input_chars, limit. destruct (List.find _ _) as [l|] eqn:E; [|exfalso; revert E; vm_compute; discriminate].
  assert (l = nth 0 SUGGESTION_LIMITS l) as ->. { revert E. vm_compute. by intros [= <-]. }
  unfold apply_limit. cbn [nth SUGGESTION_LIMITS l_min l_max].
  set (x := Z.max _ _). assert (256 <= x <= 32000) as H by (unfold x; lia). split; [apply Z.div_pos; lia | apply Z.div_le_upper_bound; lia].
Qed.
Lemma clip_chars_length s max : 0 <= max -> Z.of_nat (length (clip_chars s max)) <= max.
Proof.
  unfold clip_chars. revert max. induction s as [|c s IH]; intros max H; [cbn; lia|]. cbn [ztake].
  destruct (max <=? 0) eqn:E; [cbn; lia|]. apply Z.leb_gt in E. cbn [length]. specialize (IH (max - 1) ltac:(lia)). lia.
Qed.

Lemma shed_spec {A} max (l : list A) : 1 <= max -> (exists k, l = k ++ shed max l) /\ Z.of_nat (length (shed max l)) < max.
Proof.
  intros Hm. induction l as [|x l [(k & IH) Hl]]; [split; [by exists [] | cbn; lia]|]. cbn [shed].
  destruct (max <=? Z.of_nat (length (x :: l))) eqn:E; [|apply Z.leb_gt in E; split; [by exists [] | lia]].
  split; [exists (x :: k); cbn; congruence | done].
Qed.

Lemma attempt_ok conf at_ q o s ep answer : AttemptsOk q -> AttemptsOk (attempt conf at_ q o s ep answer).1.
Proof.
  unfold attempt, AttemptsOk. cbn [fst attempts with_attempts]. intros [HN _]. pose proof (max_queue_range conf) as Hm.
  apply (NoDup_map_Filter fst (fun a => negb (teqb a.1 o))) in HN. fold (delete_where (fun a : text * json => teqb a.1 o) (attempts q)) in HN.
  destruct (shed_spec (max_queue conf) (delete_where (fun a => teqb a.1 o) (attempts q))) as [(k & Hk) Hl]; [lia|].
  rewrite Hk, map_app in HN. apply NoDup_app in HN as (_ & _ & HN). set (l := shed _ _) in *.
  rewrite length_app. cbn [length]. split; [|lia]. apply NoDup_map_snoc; [done|]. cbn [fst].
  intros (a & Ha & Hin)%list_elem_of_fmap.
  assert (a ∈ delete_where (fun a => teqb a.1 o) (attempts q)) as [_ H]%elem_of_delete by (rewrite Hk; set_solver).
  by apply teqb_neq in H.
Qed.

(** As [Aside], with a new answer kept. *)
Record Replied (w w' : World) (lines : list Line) : Prop := {
  re_gate : s_gate w' = s_gate w;
  re_phase : s_phase w' = s_phase w;
  re_down : s_down w' = s_down w;
  re_jobs : jobs (s_queue w') = jobs (s_queue w);
  re_frame : frame (s_queue w') = frame (s_queue w);
  re_attempts : AttemptsOk (s_queue w) -> AttemptsOk (s_queue w');
  re_store : s_store w' = None <-> s_store w = None;
  re_trace : s_trace w' = s_trace w ++ lines;
}.
Lemma aside_replied w w' lines : Aside w w' lines -> Replied w w' lines.
Proof.
  intros []. split; try done. unfold AttemptsOk. intros [H1 H2]. rewrite as_keys0. split; [done|].
  rewrite <- (length_map fst), as_keys0, length_map. done.
Qed.
Lemma replied_trans w1 w2 w3 a b : Replied w1 w2 a -> Replied w2 w3 b -> Replied w1 w3 (a ++ b).
Proof. intros [] []. split; try congruence; [auto | tauto |]. rewrite app_assoc. congruence. Qed.
Lemma reply_replied conf env o s ep answer w : Replied w (reply_attempt conf env o s ep answer w).1 [].
Proof.
  unfold reply_attempt. destruct (attempt conf (now env) (s_queue w) o s ep answer) as [q a] eqn:E.
  assert (q = (attempt conf (now env) (s_queue w) o s ep answer).1) as -> by (by rewrite E).
  split; try done; [apply attempt_ok | by rewrite app_nil_r].
Qed.
Lemma with_store_aside m w : s_store w <> None -> Aside w (with_store m w) [].
Proof. intros H. split; try done; by rewrite app_nil_r. Qed.

Definition small_job (j : Job) : Prop := Z.of_nat (length (j_input j)) <= 16000 /\ Z.of_nat (length (j_output j)) <= 16000.

Lemma enqueue_suggestion_spec conf env env2 o s ep a b model w : let w' := (enqueue_for_model conf env env2 o s ep a b model w).1 in
  (exists lines, Replied w w' lines /\ Forall (fun x => ends_only x = true) lines /\ flat_map ended_by lines = []) \/
  (exists w1 j, Replied w w1 [] /\ Replied (push_back j w1) w' [] /\ s_store w <> None /\
     Z.of_nat (length (jobs (s_queue w))) < 32 /\ small_job j /\ j_owner j = o /\ j_source j = s).
Proof.
  cbn zeta. assert (forall ep' ans w0 lines, Replied w w0 lines -> Forall (fun x => ends_only x = true) lines -> flat_map ended_by lines = [] ->
    exists lines, Replied w (reply_attempt conf env o s ep' ans w0).1 lines /\ Forall (fun x => ends_only x = true) lines /\ flat_map ended_by lines = []) as HR.
  { intros ep' ans w0 lines H1 H2 H3. exists lines. split_and!; try done. rewrite <- (app_nil_r lines). eapply replied_trans; [done | apply reply_replied]. }
  assert (Replied w w []) as Hw by (apply aside_replied, aside_refl).
  unfold enqueue_for_model. destruct (refusal _ _ _ _); [left; by apply (HR _ _ _ [])|].
  destruct (_ || _); [left; by apply (HR _ _ _ [])|].
  destruct (max_queue conf <=? _) eqn:Eq; [left; apply (HR _ _ _ [Skipped o]); [by split | by repeat constructor | done]|]. apply Z.leb_gt in Eq.
  destruct (s_store w) as [m|] eqn:Em; [|left; by exists []].
  assert (s_store w <> None) as Hst by congruence.
  set (a' := clip_chars (redact a) _). set (b' := clip_chars (redact b) _).
  assert (forall st, let r := queue_staged conf env env2 o s ep a' b' (local_memory_model_for conf model) m st w in
    (exists lines, Replied w r.1 lines /\ Forall (fun x => ends_only x = true) lines /\ flat_map ended_by lines = []) \/
    (exists w1 j, Replied w w1 [] /\ Replied (push_back j w1) r.1 [] /\ Some m <> None /\
       Z.of_nat (length (jobs (s_queue w))) < 32 /\ small_job j /\ j_owner j = o /\ j_source j = s)) as HS.
  { intros st. cbn zeta. unfold queue_staged. destruct st as [[d id]|err]; [|left; by apply (HR _ _ _ [])].
    assert (forall d, Replied w (with_store (MkMem d (cancelled_runs m)) w) []) as H1 by (intros d'; by apply aside_replied, with_store_aside).
    destruct (queue_suggestion_run _ _ _ _ _ _) as [[d2 run]|err]; [|left; by apply (HR _ _ _ [])].
    destruct (_ || _); [left; apply (HR _ _ _ []); [exact (H1 d2) | constructor | done]|].
    right. eexists _, _. split_and!; [apply H1 | apply reply_replied | done | pose proof (max_queue_range conf); lia | | done | done].
    pose proof (half_input conf). split; cbn [j_input j_output]; unfold a', b'; etransitivity; try apply clip_chars_length; lia. }
  destruct s; [destruct ep as [id|]|]; [apply HS | left; by apply (HR _ _ _ []) | apply HS].
Qed.

Lemma completed_spec conf env env2 o instruction result w :
  Replied w (coding_completed conf env env2 o instruction result w).1 [] \/
  exists output, coding_completed conf env env2 o instruction result w = enqueue_for_model conf env env2 o Coding None instruction output (current_model conf) w.
Proof.
  unfold coding_completed. destruct (negb _); [left; apply reply_replied|]. destruct (negb _); [left; apply reply_replied|]. right. by eexists.
Qed.

(** ** The queue and the worker stay sound *)

Definition runs_of (q : Queue) := (running_owner q, running_source q).

(** At most one job more than the longest queue; every kept text is bounded;
    one answer for an owner.  The running fields and the gate describe the
    worker's job, a queue with jobs has a worker unless the process shuts down,
    and every job that entered the queue is in it, is running or has ended. *)
Record SuggestSound (w : World) : Prop := {
  su_len : Z.of_nat (length (jobs (s_queue w) ++ running (s_phase w))) <= 33;
  su_small : Forall small_job (jobs (s_queue w) ++ running (s_phase w));
  su_attempts : AttemptsOk (s_queue w);
  su_running : match busy (s_phase w) with
    | Some j => runs_of (s_queue w) = (Some (j_owner j), Some (j_source j)) /\ running_cancel (s_queue w) <> None /\ s_gate w = MkInner true GATE_OWNER
    | None => runs_of (s_queue w) = (None, None) /\ running_cancel (s_queue w) = None
    end;
  su_worker : s_phase w = Stopped -> s_down w = false -> worker (s_queue w) = false /\ jobs (s_queue w) = [];
  su_idle : worker (s_queue w) = false -> s_phase w = Stopped;
  su_store : s_store w = None -> jobs (s_queue w) = [] /\ running (s_phase w) = [];
  su_accounted : flat_map queued_by (s_trace w) ≡ₚ jobs (s_queue w) ++ running (s_phase w) ++ flat_map ended_by (s_trace w);
}.

Lemma frame_parts q q' : frame q' = frame q ->
  worker q' = worker q /\ runs_of q' = runs_of q /\ running_chat_cancelled q' = running_chat_cancelled q /\ running_cancel q' = running_cancel q.
Proof. unfold frame, runs_of. intros [= -> -> -> -> ->]. done. Qed.

Lemma sound_replied w w1 lines js : SuggestSound w -> Replied w w1 lines -> Forall (fun x => ends_only x = true) lines ->
  jobs (s_queue w) ≡ₚ js ++ flat_map ended_by lines -> SuggestSound (with_queue (with_jobs js (s_queue w1)) w1).
Proof.
  intros [H1 H2 H3 H4 H5 H6 H7 H8] [R1 R2 R3 R4 R5 R6 R7 R8] HE HP. destruct (frame_parts _ _ R5) as (F1 & F2 & F3 & F4).
  split; cbn [s_phase s_queue s_gate s_down s_store s_trace with_queue jobs with_jobs worker running_cancel]; rewrite ?R1, ?R2, ?R3, ?R8.
  - rewrite HP in H1. rewrite !length_app in *. lia.
  - rewrite HP, !Forall_app in H2. rewrite Forall_app. tauto.
  - by apply R6.
  - change (runs_of (with_jobs js (s_queue w1))) with (runs_of (s_queue w1)). by rewrite F2, F4.
  - intros E1 E2. destruct (H5 E1 E2) as [E3 E4]. rewrite F1. split; [done|]. rewrite E4 in HP. apply Permutation_nil in HP. by apply app_eq_nil in HP as [-> _].
  - by rewrite F1.
  - intros E%R7. destruct (H7 E) as [E1 E2]. split; [|done]. rewrite E1 in HP. apply Permutation_nil in HP. by apply app_eq_nil in HP as [-> _].
  - rewrite !flat_map_app, (ends_only_none _ HE), app_nil_r, H8, HP. solve_Permutation.
Qed.
Lemma with_same_jobs w : with_queue (with_jobs (jobs (s_queue w)) (s_queue w)) w = w.
Proof. by destruct w as [? ? [] ? ? ?]. Qed.
Lemma sound_answered w w1 lines : SuggestSound w -> Replied w w1 lines -> Forall (fun x => ends_only x = true) lines -> flat_map ended_by lines = [] -> SuggestSound w1.
Proof.
  intros HS HR HE H0. rewrite <- (with_same_jobs w1). eapply (sound_replied w); [done.. |]. by rewrite H0, app_nil_r, (re_jobs _ _ _ HR).
Qed.

Lemma keeps_split why (l : list Job) : l ≡ₚ List.filter (keeps why) l ++ delete_where (keeps why) l.
Proof.
  unfold delete_where. induction l as [|j l IH]; [done|]. cbn [List.filter]. destruct (keeps why j); cbn [negb app]; [by f_equiv|].
  rewrite IH at 1. apply Permutation_middle.
Qed.

Lemma sound_discard_jobs env why w : SuggestSound w -> SuggestSound (discard_jobs env why w).
Proof.
  intros HS. destruct (discard_jobs_spec env why w) as (w1 & ls & -> & HA & HF & HE).
  eapply sound_replied; [done | by apply aside_replied | by apply discards_end |]. rewrite HE. apply keeps_split.
Qed.

Lemma sound_push j w : SuggestSound w -> s_store w <> None -> Z.of_nat (length (jobs (s_queue w))) < 32 -> small_job j -> SuggestSound (push_back j w).
Proof.
  intros [H1 H2 H3 H4 H5 H6 H7 H8] Hst Hlen Hj.
  assert (Z.of_nat (length (running (s_phase w))) <= 1) as Hr by (unfold running; destruct (busy _); cbn; lia).
  assert (forall a, flat_map queued_by (s_trace w ++ [Queued j]) ≡ₚ (jobs (s_queue w) ++ [j]) ++ a ++ flat_map ended_by (s_trace w ++ [Queued j]) <->
    flat_map queued_by (s_trace w) ++ [j] ≡ₚ (jobs (s_queue w) ++ a ++ flat_map ended_by (s_trace w)) ++ [j]) as HQ.
  { intros a. rewrite !flat_map_app. cbn [flat_map queued_by ended_by]. rewrite !app_nil_r.
    split; intros H; (etransitivity; [exact H|]); solve_Permutation. }
  unfold push_back. cbn [s_queue with_queue worker with_jobs log]. destruct (worker (s_queue w)) eqn:Ew;
    split; cbn [s_phase s_queue s_gate s_down s_store s_trace with_queue with_phase jobs with_jobs worker with_worker running_cancel log runs_of];
    rewrite ?length_app, ?Forall_app in *; cbn [length running busy] in *.
  - lia.
  - destruct H2. split; [split; [done | by constructor] | done].
  - done.
  - exact H4.
  - intros E1 E2. destruct (H5 E1 E2). congruence.
  - congruence.
  - done.
  - apply HQ. by f_equiv.
  - lia.
  - destruct H2. split; [split; [done | by constructor] | constructor].
  - done.
  - rewrite (H6 eq_refl) in H4. exact H4.
  - done.
  - congruence.
  - done.
  - apply (HQ []). rewrite (H6 eq_refl) in H8. by f_equiv.
Qed.

Lemma sound_advances j b w w' lines : SuggestSound w -> busy (s_phase w) = Some j -> Advances j b w w' lines ->
  flat_map queued_by lines = [] -> flat_map ended_by lines = [] -> SuggestSound w'.
Proof.
  intros [H1 H2 H3 H4 H5 H6 H7 H8] Hb [A1 A2 A3 A4 A5 A6 A7] L1 L2.
  assert (running (s_phase w') = running (s_phase w)) as Hr by (unfold running; by rewrite A5, Hb).
  split; rewrite ?A1, ?A2, ?A3, ?A5, ?A7, ?Hr; try done.
  - by rewrite Hb in H4.
  - intros E. by rewrite E in A5.
  - intros E. rewrite (H6 E) in Hb. done.
  - by rewrite A4.
  - by rewrite !flat_map_app, L1, L2, !app_nil_r.
Qed.

Lemma sound_settle env j result w : SuggestSound w -> s_phase w = Settling j result -> SuggestSound (settle env j result w).
Proof.
  intros [H1 H2 H3 H4 H5 H6 H7 H8] Hp. rewrite Hp in *. cbn [running busy] in *.
  destruct (settle_spec env j result w) as (w1 & js & lines & -> & HA & HE & Hjs).
  assert (js ++ flat_map ended_by lines ≡ₚ jobs (s_queue w) ++ [j]) as HP.
  { destruct Hjs as [[-> ->]|(-> & -> & _)]; solve_Permutation. }
  pose proof (aside_replied _ _ _ HA) as [R1 R2 R3 R4 R5 R6 R7 R8]. destruct (frame_parts _ _ R5) as (F1 & F2 & F3 & F4).
  split; cbn [s_phase s_queue s_gate s_down s_store s_trace with_queue with_phase with_gate jobs with_jobs worker running_cancel runs_of stop_running running_owner running_source running busy];
    rewrite ?app_nil_r; try done.
  - rewrite <- HP, length_app in H1. lia.
  - rewrite <- HP, Forall_app in H2. tauto.
  - by apply R6.
  - intros E. rewrite F1 in E. by apply H6 in E.
  - intros E%R7. by destruct (H7 E).
  - rewrite R8, !flat_map_app, (ends_only_none _ HE), app_nil_r, H8. cbn [app].
    transitivity (flat_map ended_by (s_trace w) ++ (jobs (s_queue w) ++ [j])); [solve_Permutation|]. rewrite <- HP. solve_Permutation.
Qed.

Lemma sound_stopped w : SuggestSound w -> s_phase w = Sleeping -> s_down w = true -> SuggestSound (with_phase Stopped w).
Proof.
  intros [H1 H2 H3 H4 H5 H6 H7 H8] Hp Hd. rewrite Hp in *.
  split; cbn [s_phase s_queue s_gate s_down s_store s_trace with_phase running busy]; try done. congruence.
Qed.
Lemma sound_returned w : SuggestSound w -> s_phase w = Sleeping -> jobs (s_queue w) = [] ->
  SuggestSound (with_phase Stopped (with_queue (with_worker false (s_queue w)) w)).
Proof. intros [H1 H2 H3 H4 H5 H6 H7 H8] Hp Hj. rewrite Hp in *. by split. Qed.
Lemma sound_popped j rest w : SuggestSound w -> s_phase w = Sleeping -> jobs (s_queue w) = j :: rest ->
  SuggestSound (with_phase (Popped j) (with_gate (MkInner true GATE_OWNER) (with_queue (start_running j (with_jobs rest (s_queue w))) w))).
Proof.
  intros [H1 H2 H3 H4 H5 H6 H7 H8] Hp Hj. rewrite Hp, Hj in *. cbn [running busy] in *. rewrite app_nil_r in *.
  assert (rest ++ [j] ≡ₚ j :: rest) as HP by solve_Permutation.
  split; cbn [s_phase s_queue s_gate s_down s_store s_trace with_queue with_phase with_gate jobs with_jobs worker running_cancel runs_of start_running running_owner running_source running busy];
    rewrite ?HP; try done.
  - intros E. by apply H6 in E.
  - intros E. by destruct (H7 E).
  - rewrite H8. solve_Permutation.
Qed.

Lemma sound_take i w : SuggestSound w -> s_phase w = Sleeping -> SuggestSound (take_job i w).
Proof.
  intros HS Hp. destruct (take_job_spec i w) as [[Hd ->]|(w1 & js & lines & Hjs & HA & HF & HE & Hd & Hcases)]; [by apply sound_stopped|].
  assert (SuggestSound (with_queue (with_jobs js (s_queue w1)) w1)) as H2.
  { eapply sound_replied; [done | by apply aside_replied | by apply discards_end |]. rewrite HE, Hjs. apply keeps_split. }
  assert (s_phase (with_queue (with_jobs js (s_queue w1)) w1) = Sleeping) as Hp2 by (cbn; by rewrite (as_phase _ _ _ HA)).
  destruct Hcases as [[-> ->]|[(_ & _ & ->)|(j & rest & -> & _ & ->)]]; [| done |].
  - exact (sound_returned _ H2 Hp2 eq_refl).
  - exact (sound_popped j rest _ H2 Hp2 eq_refl).
Qed.

Lemma submission_ends p : flat_map queued_by (submission p) = [] /\ flat_map ended_by (submission p) = [].
Proof. by destruct p. Qed.

Lemma running_store w j : SuggestSound w -> busy (s_phase w) = Some j -> s_store w <> None.
Proof. intros HS Hb E. destruct (su_store _ HS E) as [_ H]. unfold running in H. by rewrite Hb in H. Qed.

Lemma sound_work i w : SuggestSound w -> SuggestSound (work i w).
Proof.
  intros HS. destruct (busy (s_phase w)) as [j|] eqn:Hb.
  - destruct (is_settling (s_phase w)) eqn:Es.
    + unfold work. destruct (s_phase w) eqn:Ep; try discriminate. by apply sound_settle.
    + destruct (work_advances i w j Hb Es (running_store _ _ HS Hb)) as (lines & HA & Hl). destruct (submission_ends (s_phase w)) as [S1 S2].
      eapply sound_advances; [done..| |]; by destruct Hl as [-> | [-> _]].
  - unfold work. destruct (s_phase w) eqn:Ep; try discriminate; [done | by apply sound_take].
Qed.

Lemma sound_cancel_token chat w : SuggestSound w -> SuggestSound (with_queue (cancel_token chat (s_queue w)) w).
Proof.
  intros [H1 H2 H3 H4 H5 H6 H7 H8]. split; try done. cbn [s_phase s_queue with_queue cancel_token running_cancel s_gate runs_of running_owner running_source].
  destruct (busy (s_phase w)); destruct H4 as (H4 & H4'); (split; [done|]); [|by rewrite H4']. destruct H4'. split; [by destruct (running_cancel _) | done].
Qed.

Lemma removed_spec l w : let w' := foldl (fun w j => log (Removed j) w) w l in Aside w w' (map Removed l).
Proof.
  revert w. induction l as [|j l IH]; intros w; [apply aside_refl|]. cbn [foldl map]. change (Removed j :: map Removed l) with ([Removed j] ++ map Removed l).
  eapply aside_trans; [|apply IH]. by split.
Qed.
Lemma remove_spec o run w : exists w1 lines, remove_cancelled_input o run w = with_queue (with_jobs (delete_where (cancelled_input o run) (jobs (s_queue w))) (s_queue w1)) w1 /\
  Aside w w1 lines /\ Forall (fun x => ends_only x = true) lines /\ flat_map ended_by lines = List.filter (cancelled_input o run) (jobs (s_queue w)).
Proof.
  unfold remove_cancelled_input. set (l := List.filter _ _). pose proof (removed_spec l w) as HA. cbn zeta in HA. set (w1 := foldl _ w l) in *.
  exists w1, (map Removed l). rewrite (as_jobs _ _ _ HA). split_and!; [done | done | |].
  - apply Forall_forall. by intros ? (? & -> & _)%list_elem_of_fmap.
  - clear. induction l as [|j l IH]; [done|]. cbn. by f_equal.
Qed.

Lemma sound_enqueue conf env env2 o s ep a b model w : SuggestSound w -> SuggestSound (enqueue_for_model conf env env2 o s ep a b model w).1.
Proof.
  intros HS. destruct (enqueue_suggestion_spec conf env env2 o s ep a b model w) as [(ls & HR & HE & H0)|(w1 & j & R1 & R2 & Hst & Hlen & Hj & _)].
  - by eapply sound_answered.
  - assert (SuggestSound w1) as H1 by (by eapply (sound_answered w)). eapply sound_answered; [|exact R2 | constructor | done].
    apply sound_push; [done | by rewrite (re_store _ _ _ R1) | by rewrite (re_jobs _ _ _ R1) | done].
Qed.

Lemma sound_happens e w : SuggestSound w -> SuggestSound (happens w e).
Proof.
  intros HS. destruct e; cbn [happens].
  - by apply sound_work.
  - by apply sound_enqueue.
  - destruct (completed_spec conf env env2 o instruction result w) as [HR|[out ->]]; [by eapply sound_answered | by apply sound_enqueue].
  - unfold clear_chat_queue. pose proof (sound_discard_jobs env (chat_of o) w HS). destruct (runs_chat_of _ _); [by apply sound_cancel_token | done].
  - unfold preempt. destruct (running_cancel (s_queue w)); [by apply sound_cancel_token | done].
  - destruct (remove_spec o run w) as (w1 & ls & -> & HA & HE & HF). eapply sound_replied; [done | by apply aside_replied | done |]. rewrite HF.
    unfold delete_where. generalize (jobs (s_queue w)). intros l. induction l as [|j l IH]; [done|]. cbn [List.filter].
    destruct (cancelled_input o run j); cbn [negb app]; [|by f_equiv]. rewrite IH at 1. apply Permutation_middle.
  - destruct (s_store w) as [m|] eqn:E; [|done]. eapply sound_answered; [done | by apply aside_replied, with_store_aside; rewrite E | constructor | done].
  - destruct HS as [H1 H2 H3 H4 H5 H6 H7 H8]. unfold claim_or_busy_owner. destruct (held (s_gate w)) eqn:E; [done|]. split; try done.
    cbn [s_phase s_queue s_gate with_gate]. destruct (busy (s_phase w)); [|done]. destruct H4 as (_ & _ & H4). by rewrite H4 in E.
  - destruct (bool_decide (busy (s_phase w) = None)) eqn:E; [|done]. apply bool_decide_eq_true in E.
    destruct HS as [H1 H2 H3 H4 H5 H6 H7 H8]. split; try done. cbn [s_phase s_queue s_gate with_gate]. by rewrite E in *.
  - destruct HS as [H1 H2 H3 H4 H5 H6 H7 H8]. by split.
Qed.

Lemma initial_suggest_sound m : SuggestSound (initial_world m).
Proof. split; try done. split; [constructor | done]. Qed.

Lemma so_far_sound l w : SuggestSound w -> SuggestSound (so_far l w).
Proof. revert w. induction l as [|e l IH]; intros w H; [done|]. cbn. by apply IH, sound_happens. Qed.

(** C19. Whatever the interleaving of completions, chat turns, cancellations,
    uses of the store and steps of the worker: the queue and the running job
    are at most 33, with texts of at most 16000 characters, there is one kept
    answer for an owner and at most 32, the running fields and the gate
    describe exactly the worker's job, a queue with jobs has a live worker
    unless the process shuts down, and every job that entered the queue is in
    it, is running, or has ended exactly once. *)
Theorem suggestion_queue_sound m l : SuggestSound (so_far l (initial_world m)).
Proof. apply so_far_sound, initial_suggest_sound. Qed.

(** ** What is submitted for review *)

(** A draft of the worker: a clean content in a category of the mode, which
    cites the episode of the job alone, added or put in place of a fact that
    says the same. *)
Record Suggested (j : Job) (mode : text) (d : ProposalDraft) : Prop := {
  sg_action : (d_action d = ADD /\ d_target d = None) \/ (d_action d = UPDATE /\ is_Some (d_target d) /\ is_Some (d_expected_revision d) /\ is_Some (d_expected_digest d));
  sg_category : category_allowed mode (d_category d) = true;
  sg_content : exists s, d_content d = Some (trim s) /\ redact s = s /\ contains (T "[REDACTED_") s = false;
  sg_sources : d_sources d = [j_episode j];
}.
Definition summary_draft (d : ProposalDraft) : bool := bool_decide (d_category d = Some (T "session_summary")).
Definition Submission (j : Job) (mode : text) (drafts : list ProposalDraft) : Prop :=
  known_mode mode = true /\ Forall (Suggested j mode) drafts /\ (length (List.filter summary_draft drafts) <= 1)%nat.

Lemma cites_only ids e : sorted_ids ids <> [] -> Forall (fun id => id ∈ [e] /\ valid_public_id id = true) (sorted_ids ids) -> sorted_ids ids = [e].
Proof.
  intros Hne HF. assert (NoDup (sorted_ids ids)) as HN by apply NoDup_remove_dups.
  destruct (sorted_ids ids) as [|a [|b l]]; [done | |]; apply Forall_cons in HF as [[Ha%list_elem_of_singleton _] HF]; [by subst|].
  apply Forall_cons in HF as [[Hb%list_elem_of_singleton _] _]. subst. apply NoDup_cons in HN as [HN _]. set_solver.
Qed.

Lemma category_trimmed mode c : category_allowed mode (Some c) = true -> trim c = c /\ c <> [].
Proof.
  unfold category_allowed. intros [H|H]%orb_true_iff; apply andb_true_iff in H as [->%teqb_eq _]; by vm_compute.
Qed.

Lemma suggested_bound j mode c facts mf mc q b : proposable mode c = true -> bind_one c [j_episode j] facts mf mc q = Some b ->
  Suggested j mode (draft_from_bound b) /\ (is_summary b = summary_draft (draft_from_bound b)).
Proof.
  unfold proposable. intros HP HB. split; [|done]. pose proof (bind_one_sound _ _ _ _ _ _ _ HB) as [_ [W1 W2] _ _ _].
  destruct (k_content c) as [s|] eqn:Es; [|by rewrite andb_false_r in HP]. guards.
  match goal with H : teqb (k_action c) ADD = true |- _ => apply teqb_eq in H; rename H into Ha end.
  match goal with H : teqb (redact s) s = true |- _ => apply teqb_eq in H end.
  match goal with H : category_allowed mode (k_category c) = true |- _ => rename H into Hc end.
  destruct (k_category c) as [k|] eqn:Ek; [|done]. destruct (category_trimmed _ _ Hc) as [Ht Hn].
  assert (forall m t, candidate_category m c = Some t -> t = Some k) as HK.
  { intros m t. unfold candidate_category, trimmed_nonempty. rewrite Ek, Ht, bool_decide_eq_false_2 by done. destruct (_ && _); congruence. }
  assert (forall m t, candidate_content m c = Some t -> t = Some (trim s)) as HC.
  { intros m t. unfold candidate_content, trimmed_nonempty. rewrite Es, Ha. change (teqb ADD DEACTIVATE) with false.
    destruct (bool_decide (trim s = [])); cbn [negb andb]; [done|]. destruct (len_between _ _ _ && _); congruence. }
  unfold bind_one in HB. rewrite Ha in HB. change (valid_action ADD) with true in HB. change (teqb ADD ADD) with true in HB. cbn [negb] in HB.
  repeat match type of HB with (if ?x then None else _) = _ => destruct x; [discriminate HB|] end.
  destruct (candidate_category mc c) as [k'|] eqn:E1; [|done]. destruct (candidate_content mf c) as [t'|] eqn:E2; [|done]. cbn [mbind option_bind] in HB.
  apply HK in E1 as ->. apply HC in E2 as ->.
  destruct (List.find _ facts) as [f|]; [injection HB as <- | destruct (trimmed_nonempty (k_target c)) eqn:Et; [done | injection HB as <-]].
  - split; cbn; [right; split_and!; [done | by eexists..] | done | by exists s | by apply cites_only].
  - split; cbn; [by left | done | by exists s | by apply cites_only].
Qed.

Lemma bind_candidates_elem l sel facts mf mc q b : b ∈ (bind_candidates l sel facts mf mc q).1 -> exists c, c ∈ l /\ bind_one c sel facts mf mc q = Some b.
Proof.
  unfold bind_candidates. assert (forall acc, b ∈ (foldl (bind_step sel facts mf mc q) acc l).1 -> b ∈ acc.1 \/ exists c, c ∈ l /\ bind_one c sel facts mf mc q = Some b) as H.
  { induction l as [|c l IH]; intros acc Hb; [by left|]. cbn [foldl] in Hb. apply IH in Hb as [Hb|(x & Hx & Hb)]; [|right; exists x; set_solver].
    unfold bind_step in Hb. destruct (bind_one c sel facts mf mc q) as [y|] eqn:E; [|by left]. destruct (bool_decide _); [by left|].
    cbn [fst] in Hb. apply elem_of_app in Hb as [Hb|Hb%list_elem_of_singleton]; [by left|]. subst. right. exists c. set_solver. }
  intros [Hb|Hb]%H; [|done]. by apply elem_of_nil in Hb.
Qed.

Lemma one_summary_spec seen l : (forall b, b ∈ one_summary seen l -> b ∈ l) /\
  (length (List.filter is_summary (one_summary seen l)) <= if seen then 0 else 1)%nat.
Proof.
  revert seen. induction l as [|b l IH]; intros seen; [split; [done | destruct seen; cbn; lia]|]. cbn [one_summary].
  destruct (is_summary b) eqn:E; destruct seen; destruct (IH true) as [I1 I2], (IH false) as [I3 I4];
    (split; [intros x; rewrite ?elem_of_cons; naive_solver | cbn [List.filter]; rewrite ?E; cbn [length]; lia]).
Qed.

Lemma filter_drafts l : (forall b, b ∈ l -> is_summary b = summary_draft (draft_from_bound b)) ->
  length (List.filter summary_draft (drafts_from_bound l)) = length (List.filter is_summary l).
Proof.
  induction l as [|b l IH]; intros H; [done|]. cbn. unfold drafts_from_bound in IH. rewrite <- (H b) by set_solver.
  destruct (is_summary b); cbn [length]; rewrite IH; done || (intros x Hx; apply H; set_solver).
Qed.

Lemma bind_kept_submission j mode kept facts : known_mode mode = true -> Forall (fun c => proposable mode c = true) kept ->
  Submission j mode (drafts_from_bound (bind_kept j kept facts)).
Proof.
  intros Hm HF. rewrite Forall_forall in HF. unfold bind_kept. set (l := (bind_candidates _ _ _ _ _ _).1). destruct (one_summary_spec false l) as [H1 H2].
  assert (forall b, b ∈ one_summary false l -> Suggested j mode (draft_from_bound b) /\ is_summary b = summary_draft (draft_from_bound b)) as HS.
  { intros b (c & Hc & Hb)%H1%bind_candidates_elem. eapply suggested_bound; [by apply HF | done]. }
  split_and!; [done | | rewrite filter_drafts; [done | intros b Hb; by apply HS]].
  apply Forall_forall. intros d (b & -> & Hb)%list_elem_of_fmap. by apply HS.
Qed.

(** What the worker carries, and what it has submitted. *)
Definition PhaseReviewed (p : Phase) : Prop :=
  match p with
  | Listing j _ _ mode _ kept => known_mode mode = true /\ Forall (fun c => proposable mode c = true) kept
  | Submitting j _ _ mode _ bound => Submission j mode (drafts_from_bound bound)
  | _ => True
  end.
Definition LineReviewed (l : Line) : Prop := match l with Submitted j mode drafts => Submission j mode drafts | _ => True end.

Definition silent (l : Line) : bool := match l with Submitted _ _ _ => false | _ => true end.
Lemma ends_silent lines : Forall (fun x => ends_only x = true) lines -> Forall (fun x => silent x = true) lines.
Proof. intros H. eapply Forall_impl; [exact H|]. by intros []. Qed.

Lemma push_back_keeps j w : s_trace (push_back j w) = s_trace w ++ [Queued j] /\ jobs (s_queue (push_back j w)) = jobs (s_queue w) ++ [j] /\
  running_chat_cancelled (s_queue (push_back j w)) = running_chat_cancelled (s_queue w) /\ (s_phase (push_back j w) = s_phase w \/ s_phase (push_back j w) = Sleeping).
Proof. unfold push_back. cbn [s_queue with_queue worker with_jobs log]. destruct (worker (s_queue w)); split_and!; auto. Qed.

(** A job may be submitted for [o]'s chat only while it is not cleared. *)
Definition of_chat (o : text) (j : Job) : bool := bool_decide (j_source j = Chat) && teqb (j_owner j) o.
Definition ChatCleared (o : text) (w : World) : Prop :=
  Forall (fun j => of_chat o j = false) (jobs (s_queue w)) /\
  forall j, busy (s_phase w) = Some j -> of_chat o j = true -> running_chat_cancelled (s_queue w) = true.
Definition spares_chat (o : text) (e : Event) : Prop :=
  match e with Enqueue _ _ _ o' Chat _ _ _ _ => o' <> o | _ => True end.

(** What an event adds to the trace, and where it leaves the worker. *)
Definition Silent (w w' : World) : Prop := exists lines, s_trace w' = s_trace w ++ lines /\ Forall (fun x => silent x = true) lines.
Lemma replied_silent w w' lines : Replied w w' lines -> Forall (fun x => ends_only x = true) lines -> Silent w w'.
Proof. intros HR HE. exists lines. split; [apply HR | by apply ends_silent]. Qed.
Lemma silent_trans a b c : Silent a b -> Silent b c -> Silent a c.
Proof. intros (l & H1 & H2) (k & H3 & H4). exists (l ++ k). rewrite H3, H1, app_assoc. split; [done | by apply Forall_app]. Qed.

Lemma enqueue_silent conf env env2 o s ep a b model w : let w' := (enqueue_for_model conf env env2 o s ep a b model w).1 in
  Silent w w' /\ (s_phase w' = s_phase w \/ s_phase w' = Sleeping) /\ running_chat_cancelled (s_queue w') = running_chat_cancelled (s_queue w) /\
  (forall j, j ∈ jobs (s_queue w') -> j ∈ jobs (s_queue w) \/ (j_owner j = o /\ j_source j = s)).
Proof.
  cbn zeta. destruct (enqueue_suggestion_spec conf env env2 o s ep a b model w) as [(ls & HR & HE & H0)|(w1 & j & R1 & R2 & _ & _ & _ & Ho & Hs)].
  - split_and!; [by eapply replied_silent | left; apply HR | by destruct (frame_parts _ _ (re_frame _ _ _ HR)) as (_ & _ & ? & _) |].
    intros j. rewrite (re_jobs _ _ _ HR). by left.
  - destruct (push_back_keeps j w1) as (K1 & K2 & K3 & K4).
    destruct (frame_parts _ _ (re_frame _ _ _ R1)) as (_ & _ & F1 & _), (frame_parts _ _ (re_frame _ _ _ R2)) as (_ & _ & F2 & _).
    split_and!.
    + eapply silent_trans; [by eapply (replied_silent w) | eapply silent_trans; [|by eapply replied_silent]].
      exists [Queued j]. split; [done | by repeat constructor].
    + rewrite (re_phase _ _ _ R2). destruct K4 as [-> | ->]; [left; apply R1 | by right].
    + congruence.
    + intros x. rewrite (re_jobs _ _ _ R2), K2, (re_jobs _ _ _ R1), elem_of_app, list_elem_of_singleton. intros [Hx | ->]; auto.
Qed.

Lemma cleared_enqueue conf env env2 o' s ep a b model o w : ~ (o' = o /\ s = Chat) -> ChatCleared o w ->
  ChatCleared o (enqueue_for_model conf env env2 o' s ep a b model w).1.
Proof.
  intros Hne [C1 C2]. destruct (enqueue_silent conf env env2 o' s ep a b model w) as (_ & Hp & Hc & Hj). split.
  - apply Forall_forall. intros j [Hin|[H1 H2]]%Hj; [by rewrite Forall_forall in C1; apply C1|].
    unfold of_chat. rewrite H1, H2. destruct s; [|done]. cbn. apply teqb_neq. intros ->. by apply Hne.
  - intros j Hb Ho. rewrite Hc. destruct Hp as [Hp|Hp]; rewrite Hp in Hb; [by apply (C2 j) | done].
Qed.

Lemma take_job_silent i w : s_phase w = Sleeping -> Silent w (take_job i w) /\
  ((s_phase (take_job i w) = Stopped \/ s_phase (take_job i w) = Sleeping) \/
   exists j, s_phase (take_job i w) = Popped j /\ j ∈ jobs (s_queue w)) /\
  (forall j, j ∈ jobs (s_queue (take_job i w)) -> j ∈ jobs (s_queue w)).
Proof.
  intros Hp. destruct (take_job_spec i w) as [[Hd ->]|(w1 & js & lines & Hjs & HA & HF & HE & Hd & Hcases)].
  { split_and!; [exists []; by rewrite app_nil_r | by left; left | done]. }
  assert (Silent w w1) as HS by (eapply replied_silent; [by apply aside_replied | by apply discards_end]).
  assert (forall j, j ∈ js -> j ∈ jobs (s_queue w)) as Hin by (intros j; rewrite Hjs, elem_of_Filter; tauto).
  destruct Hcases as [[E ->]|[(_ & _ & ->)|(j & rest & E & _ & ->)]].
  - split_and!; [exact HS | by left; left | intros j Hj; by apply elem_of_nil in Hj].
  - split_and!; [exact HS | left; right; cbn; by rewrite (as_phase _ _ _ HA) | done].
  - split_and!; [exact HS | right; exists j; split; [done | apply Hin; rewrite E; set_solver] | intros x Hx; apply Hin; rewrite E; set_solver].
Qed.

Lemma settle_silent env j result w : Silent w (settle env j result w) /\ s_phase (settle env j result w) = Sleeping /\
  (jobs (s_queue (settle env j result w)) = jobs (s_queue w) \/
   (jobs (s_queue (settle env j result w)) = j :: jobs (s_queue w) /\ chat_cleared j w = false)).
Proof.
  destruct (settle_spec env j result w) as (w1 & js & lines & -> & HA & HE & Hjs).
  split_and!; [exact (replied_silent _ _ _ (aside_replied _ _ _ HA) HE) | done |]. cbn [s_queue with_queue with_phase with_gate jobs stop_running with_jobs]. naive_solver.
Qed.

Lemma other_silent e w : (forall i, e <> Work i) -> Silent w (happens w e) /\ (s_phase (happens w e) = s_phase w \/ s_phase (happens w e) = Sleeping).
Proof.
  intros Hw. assert (forall w', s_trace w' = s_trace w -> Silent w w') as H0 by (intros w' H; exists []; by rewrite app_nil_r).
  destruct e; cbn [happens].
  - by destruct (Hw i).
  - destruct (enqueue_silent conf env env2 o source episode input output model w) as (H1 & H2 & _). done.
  - destruct (completed_spec conf env env2 o instruction result w) as [HR|[out ->]].
    + split; [by eapply replied_silent | left; apply HR].
    + destruct (enqueue_silent conf env env2 o Coding None instruction out (current_model conf) w) as (H1 & H2 & _). done.
  - unfold clear_chat_queue. destruct (discard_jobs_spec env (chat_of o) w) as (w1 & ls & -> & HA & HF & _).
    assert (Silent w w1) as HS by (eapply replied_silent; [by apply aside_replied | by apply discards_end]).
    destruct (runs_chat_of _ _); (split; [exact HS | left; apply HA]).
  - unfold preempt. destruct (running_cancel (s_queue w)); (split; [by apply H0 | by left]).
  - destruct (remove_spec o run w) as (w1 & ls & -> & HA & HE & _). split; [exact (replied_silent _ _ _ (aside_replied _ _ _ HA) HE) | left; apply HA].
  - destruct (s_store w); (split; [by apply H0 | by left]).
  - destruct (claim_or_busy_owner _ _); (split; [by apply H0 | by left]).
  - destruct (bool_decide _); (split; [by apply H0 | by left]).
  - split; [by apply H0 | by left].
Qed.

Lemma on_store_reviewed {A} (f : Mem -> result harness_error (Mem * A)) no yes w :
  PhaseReviewed (s_phase w) -> (forall c, PhaseReviewed (no c)) -> (forall a, PhaseReviewed (yes a)) -> PhaseReviewed (s_phase (on_store f no yes w)).
Proof. intros H1 H2 H3. unfold on_store. destruct (s_store w); [|done]. by destruct (f _) as [[? ?]|]; cbn. Qed.

Lemma refusal_mode conf b s m : refusal conf b s m = None -> known_mode (mode conf) = true.
Proof.
  unfold refusal, unavailable_reason. destruct (negb b); [done|]. destruct (negb _); [done|]. destruct (negb _); [done|].
  by destruct (known_mode (mode conf)).
Qed.

Lemma work_reviewed i w : PhaseReviewed (s_phase w) -> PhaseReviewed (s_phase (work i w)).
Proof.
  intros HP. unfold work. pose proof HP as HP'. destruct (s_phase w) eqn:Ep; try (apply on_store_reviewed; [by rewrite Ep | done | done]).
  - by rewrite Ep.
  - destruct (take_job_silent i w Ep) as (_ & [[-> | ->]|(j & -> & _)] & _); done.
  - by destruct (stale_reason _ _ _).
  - by destruct (chat_cleared _ _).
  - apply on_store_reviewed; [by rewrite Ep | done |]. intros r. unfold after_begin. by destruct (r_state r).
  - cbn [s_phase with_phase]. unfold ask. destruct (match s_store w with Some _ => _ | None => _ end); [done|]. destruct (bool_decide _); [done|].
    destruct (s_down w); [done|]. by destruct (i_reply i) as [[[? ?]|]|].
  - by destruct (chat_cleared _ _).
  - cbn [s_phase with_phase]. unfold check_answer. destruct (refusal _ _ _ _) eqn:Er; [done|]. destruct parsed as [l|e]; [|done].
    split; [by eapply refusal_mode|]. apply Forall_forall. intros c Hc. by apply elem_of_Filter in Hc as [? _].
  - apply on_store_reviewed; [by rewrite Ep | done |]. intros facts. destruct HP as [H1 H2]. by apply bind_kept_submission.
  - unfold submit. destruct (chat_cleared _ _); [done|]. apply on_store_reviewed; [cbn; by rewrite Ep | done | done].
  - destruct (settle_silent (i_env i) j result w) as (_ & -> & _). done.
Qed.

(** The lines of a step of the worker. *)
Lemma work_lines i w : SuggestSound w -> Silent w (work i w) \/
  (s_trace (work i w) = s_trace w ++ submission (s_phase w) /\ exists j, busy (s_phase w) = Some j /\ chat_cleared j w = false).
Proof.
  intros HS. destruct (busy (s_phase w)) as [j|] eqn:Hb.
  - destruct (is_settling (s_phase w)) eqn:Es.
    + left. unfold work. destruct (s_phase w) eqn:Ep; try discriminate. apply settle_silent.
    + destruct (work_advances i w j Hb Es (running_store _ _ HS Hb)) as (lines & HA & Hl).
      destruct Hl as [-> | [-> Hc]]; [left; exists []; split; [apply HA | constructor] | right; split; [apply HA | by exists j]].
  - left. unfold work. destruct (s_phase w) eqn:Ep; try discriminate; [exists []; by rewrite app_nil_r | by apply take_job_silent].
Qed.

Definition Reviewed (w : World) : Prop := PhaseReviewed (s_phase w) /\ Forall LineReviewed (s_trace w).
Lemma silent_reviewed w w' : Silent w w' -> Forall LineReviewed (s_trace w) -> Forall LineReviewed (s_trace w').
Proof.
  intros (ls & -> & Hs) H. apply Forall_app. split; [done|]. eapply Forall_impl; [exact Hs|]. by intros [].
Qed.
Lemma happens_reviewed e w : SuggestSound w -> Reviewed w -> Reviewed (happens w e).
Proof.
  intros HS [HP HL]. assert ((exists i, e = Work i) \/ forall i, e <> Work i) as [[i ->]|Hw].
  { destruct e; try (by right). left. by eexists. }
  - split; [by apply work_reviewed|]. cbn [happens]. destruct (work_lines i w HS) as [H|[-> _]]; [by eapply silent_reviewed|].
    apply Forall_app. split; [done|]. destruct (s_phase w); try constructor; [exact HP | constructor].
  - destruct (other_silent e w Hw) as [H1 H2]. split; [by destruct H2 as [-> | ->] | by eapply silent_reviewed].
Qed.
Lemma so_far_reviewed l w : SuggestSound w -> Reviewed w -> Reviewed (so_far l w).
Proof. revert w. induction l as [|e l IH]; intros w HS HR; [done|]. cbn. apply IH; [by apply sound_happens | by apply happens_reviewed]. Qed.

(** C18. Whatever the model answers, every submission of the worker is one to be
    reviewed: its drafts are contents that the redaction leaves as they are, in
    a category of the mode in force when the answer was checked, at most one of
    them a summary, and each cites exactly the episode of its job; each adds a
    fact or replaces a bound revision of one. *)
Theorem suggestions_await_review m l j mode drafts :
  Submitted j mode drafts ∈ s_trace (so_far l (initial_world m)) -> Submission j mode drafts.
Proof.
  intros H. destruct (so_far_reviewed l (initial_world m) (initial_suggest_sound m)) as [_ HF]; [split; [done | constructor]|].
  rewrite Forall_forall in HF. by apply HF in H.
Qed.

(** ** A cleared chat *)

Lemma keeps_chat o j : keeps (chat_of o) j = negb (of_chat o j).
Proof. unfold keeps, chat_of, of_chat. by destruct (_ && _). Qed.
Lemma cleared_subset o w w' : ChatCleared o w -> (forall j, j ∈ jobs (s_queue w') -> j ∈ jobs (s_queue w)) ->
  (busy (s_phase w') = None \/ (busy (s_phase w') = busy (s_phase w) /\ (running_chat_cancelled (s_queue w) = true -> running_chat_cancelled (s_queue w') = true))) ->
  ChatCleared o w'.
Proof.
  intros [C1 C2] Hj Hb. rewrite Forall_forall in C1. split; [apply Forall_forall; auto|].
  intros j Hj' Ho. destruct Hb as [Hb|[Hb Hc]]; [congruence|]. apply Hc, (C2 j); [congruence | done].
Qed.

Lemma clear_clears env o w : SuggestSound w -> ChatCleared o (clear_chat_queue env o w).
Proof.
  intros HS. unfold clear_chat_queue. destruct (discard_jobs_spec env (chat_of o) w) as (w1 & ls & -> & HA & _).
  set (js := List.filter (keeps (chat_of o)) (jobs (s_queue w))). destruct (frame_parts _ _ (as_frame _ _ _ HA)) as (_ & F2 & _ & _).
  assert (Forall (fun j => of_chat o j = false) js) as Hjs.
  { apply Forall_forall. intros j [Hk _]%elem_of_Filter. rewrite keeps_chat in Hk. by apply negb_true_iff in Hk. }
  assert (runs_of (s_queue w1) = (running_owner (s_queue w1), running_source (s_queue w1))) as Hro by done.
  destruct (runs_chat_of o _) eqn:Er; split; try exact Hjs; intros j Hb Ho; cbn [s_phase s_queue with_queue] in *.
  - cbn. by rewrite orb_true_r.
  - exfalso. rewrite (as_phase _ _ _ HA) in Hb. pose proof (su_running _ HS) as HR. rewrite Hb in HR. destruct HR as [HR _].
    rewrite <- F2, Hro in HR. injection HR as H1 H2. unfold of_chat in Ho. apply andb_true_iff in Ho as [Hc%bool_decide_eq_true Hq%teqb_eq].
    unfold runs_chat_of in Er. cbn [running_owner running_source with_jobs] in Er. rewrite H1, H2, Hc, Hq, !bool_decide_eq_true_2 in Er; done.
Qed.

Lemma cleared_work i o w : SuggestSound w -> ChatCleared o w -> ChatCleared o (work i w).
Proof.
  intros HS HC. pose proof HC as [C1 C2]. destruct (busy (s_phase w)) as [j|] eqn:Hb.
  - destruct (is_settling (s_phase w)) eqn:Es.
    + unfold work. destruct (s_phase w) eqn:Ep; try discriminate. injection Hb as ->.
      destruct (settle_silent (i_env i) j result w) as (_ & Hp & [Hj|[Hj Hc]]).
      * apply (cleared_subset o w); [done | by rewrite Hj | left; by rewrite Hp].
      * split; [|by rewrite Hp]. rewrite Hj. constructor; [|done]. destruct (of_chat o j) eqn:Eo; [|done].
        specialize (C2 j eq_refl Eo). unfold chat_cleared in Hc. unfold of_chat in Eo. rewrite C2 in Hc. apply andb_true_iff in Eo as [Eo _]. by rewrite Eo in Hc.
    + destruct (work_advances i w j Hb Es (running_store _ _ HS Hb)) as (lines & [A1 A2 A3 A4 A5 A6 A7] & _).
      apply (cleared_subset o w); [done | by rewrite A2 | right; by rewrite A5, Hb, A2].
  - unfold work. destruct (s_phase w) eqn:Ep; try discriminate; [done|].
    destruct (take_job_silent i w Ep) as (_ & Hp & Hj). destruct Hp as [Hp|(j & Hp & Hin)].
    + apply (cleared_subset o w); [done | done | left; by destruct Hp as [-> | ->]].
    + rewrite Forall_forall in C1. split; [apply Forall_forall; auto|]. rewrite Hp. intros x [= <-] Ho. by rewrite (C1 _ Hin) in Ho.
Qed.

Lemma cleared_happens e o w : SuggestSound w -> spares_chat o e -> ChatCleared o w -> ChatCleared o (happens w e).
Proof.
  intros HS He HC. destruct e; cbn [happens].
  - by apply cleared_work.
  - apply cleared_enqueue; [|done]. intros [-> ->]. by apply He.
  - destruct (completed_spec conf env env2 o0 instruction result w) as [HR|[out ->]]; [|apply cleared_enqueue; [by intros [_ ?] | done]].
    destruct (frame_parts _ _ (re_frame _ _ _ HR)) as (_ & _ & F & _).
    apply (cleared_subset o w); [done | by rewrite (re_jobs _ _ _ HR) | right; by rewrite (re_phase _ _ _ HR), F].
  - unfold clear_chat_queue. destruct (discard_jobs_spec env (chat_of o0) w) as (w1 & ls & -> & HA & _).
    destruct (frame_parts _ _ (as_frame _ _ _ HA)) as (_ & _ & F & _).
    destruct (runs_chat_of _ _); (apply (cleared_subset o w); [done | intros j [_ Hj]%elem_of_Filter; done |]); right; cbn; rewrite (as_phase _ _ _ HA); [|by rewrite F].
    rewrite orb_true_r. done.
  - unfold preempt. destruct (running_cancel (s_queue w)); [|done]. apply (cleared_subset o w); [done | done | right; split; [done | by intros H; cbn; rewrite H]].
  - destruct (remove_spec o0 run w) as (w1 & ls & -> & HA & _). destruct (frame_parts _ _ (as_frame _ _ _ HA)) as (_ & _ & F & _).
    apply (cleared_subset o w); [done | intros j [Hj _]%elem_of_delete; done | right; cbn; by rewrite (as_phase _ _ _ HA), F].
  - by destruct (s_store w).
  - by destruct (claim_or_busy_owner _ _).
  - by destruct (bool_decide _).
  - done.
Qed.

Lemma cleared_so_far l o w : SuggestSound w -> Forall (spares_chat o) l -> ChatCleared o w ->
  forall j mode drafts, Submitted j mode drafts ∈ s_trace (so_far l w) -> of_chat o j = true -> Submitted j mode drafts ∈ s_trace w.
Proof.
  revert w. induction l as [|e l IH]; intros w HS HF HC j mode drafts Hin Ho; [done|]. apply Forall_cons in HF as [He HF]. cbn in Hin.
  apply IH in Hin; [|by apply sound_happens | done | by apply cleared_happens | done].
  assert (forall w', Silent w w' -> Submitted j mode drafts ∈ s_trace w' -> Submitted j mode drafts ∈ s_trace w) as Hs.
  { intros w' (ls & -> & Hls) [H|H]%elem_of_app; [done|]. rewrite Forall_forall in Hls. by apply Hls in H. }
  assert ((exists i, e = Work i) \/ forall i, e <> Work i) as [[i ->]|Hw].
  { destruct e; try (by right). left. by eexists. }
  - cbn [happens] in Hin. destruct (work_lines i w HS) as [H|[Ht (k & Hb & Hc)]]; [by eapply Hs|]. rewrite Ht in Hin.
    apply elem_of_app in Hin as [H|H]; [done|]. exfalso. destruct HC as [_ C2]. revert H Hb. unfold submission.
    destruct (s_phase w); try (by intros H%elem_of_nil). intros [= -> _ _]%list_elem_of_singleton [= ->].
    rewrite Forall_forall in *. specialize (C2 k eq_refl Ho). unfold chat_cleared in Hc. rewrite C2 in Hc. unfold of_chat in Ho.
    by apply andb_true_iff in Ho as [Ho _]; rewrite Ho in Hc.
  - eapply Hs; [|exact Hin]. by apply other_silent.
Qed.

(** C17. Once an owner clears the chat, nothing of a chat turn completed before
    is submitted any more: not of the turns that wait in the queue, and not of
    the one whose answer the worker is waiting for or about to submit. *)
Theorem cleared_chat_is_not_suggested m before env o after j mode drafts :
  let w := so_far before (initial_world m) in
  Forall (spares_chat o) after -> of_chat o j = true ->
  Submitted j mode drafts ∈ s_trace (so_far after (happens w (ClearChat env o))) -> Submitted j mode drafts ∈ s_trace w.
Proof.
  cbn zeta. set (w := so_far before _). intros HF Ho Hin. assert (SuggestSound w) as HS by apply so_far_sound, initial_suggest_sound.
  apply (cleared_so_far after o) in Hin; [|by apply sound_happens | done | by apply clear_clears | done].
  assert (Silent w (happens w (ClearChat env o))) as (ls & Ht & Hls) by (by apply other_silent).
  rewrite Ht in Hin. apply elem_of_app in Hin as [H|H]; [done|]. rewrite Forall_forall in Hls. by apply Hls in H.
Qed.

(** ** What the store sees *)

(** The operations that the suggestions run on the store: none of them adds,
    changes or decides anything. *)
Definition suggestion_op (op : Op) : Prop :=
  match op with
  | OpStage _ true | OpQueueRun _ _ | OpBeginRun _ _ true | OpSetModel _ _ | OpFailRun _ _ | OpFinishRun _ _ _ _ _ => True
  | _ => False
  end.
Definition ByStore (allowed : Op -> Prop) (w w' : World) : Prop :=
  forall m, s_store w = Some m -> exists l, s_store w' = Some (history sha256_hex flags limits l m) /\
    Forall (fun x => exists env o op, x = Did env o op /\ allowed op) l.

Lemma by_store_same P w w' : s_store w' = s_store w -> ByStore P w w'.
Proof. intros E m Hm. exists []. split; [by rewrite E | constructor]. Qed.
Lemma by_store_trans P w1 w2 w3 : ByStore P w1 w2 -> ByStore P w2 w3 -> ByStore P w1 w3.
Proof.
  intros H1 H2 m Hm. destruct (H1 m Hm) as (l & E1 & F1). destruct (H2 _ E1) as (k & E2 & F2). exists (l ++ k).
  unfold history in *. rewrite foldl_app. split; [done | by apply Forall_app].
Qed.
Lemma by_store_op P env o op w w' : P op -> (forall m, s_store w = Some m -> s_store w' = Some (perform sha256_hex flags limits env o op m)) -> ByStore P w w'.
Proof. intros HP H m Hm. exists [Did env o op]. split; [by apply H | constructor; [by exists env, o, op | done]]. Qed.
Lemma mem_eta m : MkMem (db m) (cancelled_runs m) = m.
Proof. by destruct m. Qed.

Lemma discard_by_store env j reason w : ByStore suggestion_op w (discard env j reason w).
Proof.
  apply (by_store_op _ env (j_owner j) (OpFailRun (j_run j) reason)); [done|]. intros m Hm. unfold discard. rewrite Hm. cbn [perform].
  by destruct (fail_consolidation_run _ _ _ _ _) as [[d r]|e]; cbn; [|rewrite Hm].
Qed.
Lemma retain_by_store env why l w : ByStore suggestion_op w (retain_jobs env why l w).2.
Proof.
  revert w. induction l as [|j l IH]; intros w; [by apply by_store_same|]. cbn [retain_jobs].
  destruct (why j); [eapply by_store_trans; [apply discard_by_store | apply IH]|]. specialize (IH w). by destruct (retain_jobs env why l w).
Qed.
Lemma discard_jobs_by_store env why w : ByStore suggestion_op w (discard_jobs env why w).
Proof. unfold discard_jobs. pose proof (retain_by_store env why (jobs (s_queue w)) w) as H. by destruct (retain_jobs _ _ _ _). Qed.

Lemma on_store_by_op {A} env o op (f : Mem -> result harness_error (Mem * A)) no yes w : suggestion_op op ->
  (forall m, s_store w = Some m -> perform sha256_hex flags limits env o op m = match f m with Ok (m, _) => m | Err _ => m end) ->
  ByStore suggestion_op w (on_store f no yes w).
Proof.
  intros Hop Hf. apply (by_store_op _ env o op); [done|]. intros m Hm. rewrite Hf by done. unfold on_store. rewrite Hm.
  by destruct (f m) as [[m' a]|e]; cbn; [|rewrite Hm].
Qed.
Lemma on_store_reading {A} (f : Db -> result harness_error A) no yes w : ByStore suggestion_op w (on_store (reading f) no yes w).
Proof. apply by_store_same. unfold on_store, reading. destruct (s_store w) eqn:E; [|done]. by destruct (f (db m)). Qed.
Lemma in_tx_committed {A} (f : Db -> tx A) m : committed m (f (db m)) = match in_tx f m with Ok (m, _) => m | Err _ => m end.
Proof. unfold in_tx. by destruct (f (db m)) as [[d a]|e]. Qed.

Lemma work_by_store i w : ByStore suggestion_op w (work i w).
Proof.
  unfold work. destruct (s_phase w); try (by apply by_store_same); try apply on_store_reading.
  - unfold take_job. destruct (s_down w); [by apply by_store_same|]. pose proof (discard_jobs_by_store (i_env i) (stale_reason (i_conf i) w) w) as H.
    destruct (jobs _); [done|]. by destruct (claim_or_busy_owner _ _).
  - by apply (on_store_by_op (i_env i) (j_owner j) (OpBeginRun [j_episode j] SUGGESTION_VERSION true)).
  - apply (on_store_by_op (i_env i) (j_owner j) (OpSetModel run (j_model j))); [done|]. intros m _. apply (in_tx_committed (set_consolidation_model flags _ _ _)).
  - unfold submit. destruct (chat_cleared j w); [by apply by_store_same|].
    by apply (on_store_by_op (i_env i) (j_owner j) (OpFinishRun run model count (count - Z.of_nat (length bound)) (drafts_from_bound bound))
                 _ _ _ (log (Submitted j mode0 (drafts_from_bound bound)) w)).
  - apply (on_store_by_op (i_env i) (j_owner j) (OpFailRun run (error_class code))); [done|]. intros m _. apply (in_tx_committed (fail_consolidation_run _ _ _ _)).
  - unfold settle. destruct result as [u|c]; [by apply by_store_same|]. destruct (teqb c PREEMPTED); [|apply (discard_by_store (i_env i) j c w)].
    set (w0 := log _ w). destruct (match s_store w0 with Some m => _ | None => _ end); [apply (discard_by_store (i_env i) j CANCELLED w0)|].
    destruct (chat_cleared j w0); [apply (discard_by_store (i_env i) j (T "source_cleared") w0) | by apply by_store_same].
Qed.

Lemma reply_attempt_store conf env o s ep ans w : s_store (reply_attempt conf env o s ep ans w).1 = s_store w.
Proof. unfold reply_attempt. by destruct (attempt _ _ _ _ _ _ _). Qed.
Lemma push_back_store j w : s_store (push_back j w) = s_store w.
Proof. unfold push_back. by destruct (worker _). Qed.

Lemma staged_by_store env o s ep a b m d id w : s_store w = Some m -> staged_episode env o s ep a b (db m) = Ok (d, id) ->
  ByStore suggestion_op w (with_store (MkMem d (cancelled_runs m)) w).
Proof.
  intros Hw H. set (draft := MkEpisodeDraft (T "coding-run") (T "completed") (Z.of_nat (length a)) (Z.of_nat (length b)) (T "normal")).
  assert ((exists e, stage_episode_kind flags limits env o draft true (db m) = Ok (d, e)) \/ d = db m) as [[e He] | ->].
  { unfold staged_episode in H. destruct s; [destruct ep|]; op_steps; eauto. }
  - apply (by_store_op _ env o (OpStage draft true)); [done|]. intros m' Hm'. assert (m' = m) as -> by congruence. cbn [perform]. by rewrite He.
  - apply by_store_same. by rewrite mem_eta, Hw.
Qed.

Lemma enqueue_by_store conf env env2 o s ep a b model w : ByStore suggestion_op w (enqueue_for_model conf env env2 o s ep a b model w).1.
Proof.
  assert (forall ep' ans w0, ByStore suggestion_op w w0 -> ByStore suggestion_op w (reply_attempt conf env o s ep' ans w0).1) as HR.
  { intros ep' ans w0 H. eapply by_store_trans; [exact H|]. apply by_store_same, reply_attempt_store. }
  assert (ByStore suggestion_op w w) as H0 by by apply by_store_same.
  unfold enqueue_for_model. destruct (refusal _ _ _ _); [by apply HR|]. destruct (_ || _); [by apply HR|].
  destruct (max_queue conf <=? _); [apply HR; by apply by_store_same|]. destruct (s_store w) as [m|] eqn:Em; [|done].
  assert (forall a b model, ByStore suggestion_op w (queue_staged conf env env2 o s ep a b model m (staged_episode env o s ep a b (db m)) w).1) as HQ.
  { intros a' b' model'. unfold queue_staged. destruct (staged_episode _ _ _ _ _ _ _) as [[d id]|e] eqn:Es; [|by apply HR].
    pose proof (staged_by_store _ _ _ _ _ _ _ _ _ _ Em Es) as H1. set (w1 := with_store _ w) in *.
    destruct (queue_suggestion_run _ _ _ _ _ _) as [[d2 run]|e] eqn:Eq; [|by apply HR].
    assert (ByStore suggestion_op w (with_store (MkMem d2 (cancelled_runs m)) w1)) as H2.
    { eapply by_store_trans; [exact H1|]. apply (by_store_op _ env2 o (OpQueueRun [id] SUGGESTION_VERSION)); [done|].
      intros m1 [= <-]. cbn [perform db]. by rewrite Eq. }
    destruct (_ || _); [by apply HR|]. apply HR. eapply by_store_trans; [exact H2|]. apply by_store_same, push_back_store. }
  destruct s; [destruct ep|]; [apply HQ | by apply HR | apply HQ].
Qed.

Lemma happens_by_store e w : ByStore (fun op => suggestion_op op \/ exists env o, e = StoreUsed env o op) w (happens w e).
Proof.
  assert (forall w', ByStore suggestion_op w w' -> ByStore (fun op => suggestion_op op \/ exists env o, e = StoreUsed env o op) w w') as HW.
  { intros w' H m Hm. destruct (H m Hm) as (l & E & F). exists l. split; [done|]. eapply Forall_impl; [exact F|]. intros x (env & o & op & Hx & Hop). eauto 10. }
  destruct e; cbn [happens].
  - apply HW, work_by_store.
  - apply HW, enqueue_by_store.
  - apply HW. unfold coding_completed. destruct (negb _); [apply by_store_same, reply_attempt_store|].
    destruct (negb _); [apply by_store_same, reply_attempt_store | apply enqueue_by_store].
  - apply HW. unfold clear_chat_queue. pose proof (discard_jobs_by_store env (chat_of o) w) as H. by destruct (runs_chat_of _ _).
  - apply HW. unfold preempt. by destruct (running_cancel _); apply by_store_same.
  - apply HW. destruct (remove_spec o run w) as (w1 & ls & E & HA & _). apply by_store_same. unfold remove_cancelled_input. cbn [s_store with_queue].
    generalize (List.filter (cancelled_input o run) (jobs (s_queue w))). intros l. clear. revert w. induction l as [|j l IH]; intros w; [done|]. cbn. by rewrite IH.
  - destruct (s_store w) as [m|] eqn:Em; [|by apply by_store_same; rewrite Em].
    apply (by_store_op _ env o op); [right; by exists env, o|]. intros m' Hm'. by assert (m' = m) as -> by congruence.
  - apply HW, by_store_same. by destruct (claim_or_busy_owner _ _).
  - apply HW, by_store_same. by destruct (bool_decide _).
  - apply HW. by apply by_store_same.
Qed.

(** Nothing of it changes a fact or a proposal; it may add pending ones. *)
Definition OnlyProposes (d d' : Db) : Prop :=
  facts d' = facts d /\ exists new, proposals d' = proposals d ++ new /\ Forall (fun p => p_status p = Pending) new.
Lemma only_proposes_same d d' : facts d' = facts d -> proposals d' = proposals d -> OnlyProposes d d'.
Proof. intros H1 H2. split; [done|]. exists []. by rewrite app_nil_r. Qed.
Lemma run_effect_proposes o d d' : RunEffect limits o d d' -> OnlyProposes d d'.
Proof. intros []. by apply only_proposes_same. Qed.
Lemma only_proposes_trans a b c : OnlyProposes a b -> OnlyProposes b c -> OnlyProposes a c.
Proof.
  intros [F1 (n1 & P1 & S1)] [F2 (n2 & P2 & S2)]. split; [congruence|]. exists (n1 ++ n2). rewrite P2, P1, app_assoc. split; [done | by apply Forall_app].
Qed.

Lemma suggestion_op_proposes env o op m : suggestion_op op -> OnlyProposes (db m) (db (perform sha256_hex flags limits env o op m)).
Proof.
  intros Hop. assert (OnlyProposes (db m) (db m)) as H0 by by apply only_proposes_same.
  destruct op; try done; cbn [perform].
  - destruct (stage_episode_kind _ _ _ _ _ _ _) as [[d e]|] eqn:E; [|done]. apply stage_kept in E as (_ & E1 & _ & _ & E4 & _). by apply only_proposes_same.
  - destruct (queue_suggestion_run _ _ _ _ _ _) as [[d r]|] eqn:E; [|done]. apply (queue_effect sha256_hex limits) in E. by eapply run_effect_proposes.
  - destruct (begin_run _ _ _ _ _ _ _) as [[m' r]|] eqn:E; [|done]. apply (begin_run_effect sha256_hex limits) in E. by eapply run_effect_proposes.
  - destruct (set_consolidation_model _ _ _ _ _) as [[d r]|] eqn:E; [|done]. apply (set_model_effect flags limits) in E. by eapply run_effect_proposes.
  - destruct (fail_consolidation_run _ _ _ _ _) as [[d r]|] eqn:E; [|done]. apply (fail_effect limits) in E. by eapply run_effect_proposes.
  - destruct (finish_consolidation_run _ _ _ _ _ _ _ _ _ _ _) as [[m' r]|] eqn:E; [|done].
    apply finish_inv in E as [E|(cur & mo & d1 & ids & _ & _ & _ & _ & Hi & ->)]; [by eapply run_effect_proposes|].
    apply insert_drafts_spec in Hi as (ps & rs & Ed & _ & _ & HP & _). apply (only_proposes_trans _ d1).
    + rewrite Ed. split; [done|]. exists ps. split; [done|]. eapply Forall_impl; [exact HP|]. by intros p [_ ?].
    + eapply run_effect_proposes, finish_run_effect.
Qed.

Lemma so_far_by_store es w : ByStore (fun op => suggestion_op op \/ exists env o, StoreUsed env o op ∈ es) w (so_far es w).
Proof.
  revert w. induction es as [|e es IH]; intros w; [by apply by_store_same|]. cbn. eapply by_store_trans.
  - intros m Hm. destruct (happens_by_store e w m Hm) as (l & E & F). exists l. split; [done|]. eapply Forall_impl; [exact F|].
    intros x (env & o & op & Hx & [Hop|(env' & o' & ->)]); exists env, o, op; (split; [done|]); [by left | right; exists env', o'; set_solver].
  - intros m Hm. destruct (IH (happens w e) m Hm) as (l & E & F). exists l. split; [done|]. eapply Forall_impl; [exact F|].
    intros x (env & o & op & Hx & [Hop|(env' & o' & Hin)]); exists env, o, op; (split; [done|]); [by left | right; exists env', o'; set_solver].
Qed.

(** To the store, everything that the queue and the worker do is a history
    of its own operations: staging a coding episode, and the steps of a run.
    While nobody else uses the store, no fact and no existing proposal changes,
    and what is added waits for a decision. *)
Theorem suggestions_refine_memory m es : exists l,
  s_store (so_far es (initial_world (Some m))) = Some (history sha256_hex flags limits l m) /\
  Forall (fun x => exists env o op, x = Did env o op /\ (suggestion_op op \/ exists env o, StoreUsed env o op ∈ es)) l /\
  ((forall env o op, StoreUsed env o op ∉ es) -> OnlyProposes (db m) (db (history sha256_hex flags limits l m))).
Proof.
  destruct (so_far_by_store es (initial_world (Some m)) m eq_refl) as (l & E & F). exists l. split_and!; [done | done |].
  intros Hno. clear E. revert m. induction F as [|x l (env & o & op & -> & Hop) _ IH]; intros m; [by apply only_proposes_same|].
  destruct Hop as [Hop|(env' & o' & Hin)]; [|by apply Hno in Hin]. cbn. eapply only_proposes_trans; [by apply suggestion_op_proposes | apply IH].
Qed.

(** ** The end of a turn *)

Lemma turn_ends n w j ins : (rank (s_phase w) <= n)%nat -> SuggestSound w -> busy (s_phase w) = Some j -> (n <= length ins)%nat ->
  Forall (fun i => i_reply i <> None) ins ->
  exists k, (1 <= k < n)%nat /\ s_phase (so_far (map Work (take k ins)) w) = Sleeping /\ held (s_gate (so_far (map Work (take k ins)) w)) = false.
Proof.
  revert w ins. induction n as [|n IH]; intros w ins Hn HS Hb Hl HF; [destruct (s_phase w); cbn in *; try discriminate; lia|].
  destruct ins as [|i ins]; [cbn in Hl; lia|]. apply Forall_cons in HF as [Hi HF]. destruct (is_settling (s_phase w)) eqn:Es.
  - exists 1%nat. destruct (s_phase w) as [] eqn:Ep; try discriminate. cbn [rank] in Hn. split; [lia|]. cbn [take map so_far foldl happens].
    unfold work. rewrite Ep. destruct (settle_spec (i_env i) j0 result w) as (w1 & js & ls & -> & _). by rewrite take_0.
  - destruct (work_advances i w j Hb Es (running_store _ _ HS Hb)) as (lines & HA & _).
    pose proof (ad_rank _ _ _ _ _ HA (bool_decide_eq_true_2 _ Hi)) as Hr.
    assert (rank (s_phase (work i w)) <= n)%nat as Hr' by lia. clear Hr Hn. rename Hr' into Hr.
    destruct (IH (work i w) ins Hr (sound_work i w HS) (ad_busy _ _ _ _ _ HA)) as (k & Hk & H1 & H2); [cbn in Hl; lia | done |].
    exists (S k). split; [lia|]. done.
Qed.

Lemma trace_grows ins w : SuggestSound w -> exists lines, s_trace (so_far (map Work ins) w) = s_trace w ++ lines.
Proof.
  revert w. induction ins as [|i ins IH]; intros w HS; [exists []; by rewrite app_nil_r|].
  destruct (IH (work i w) (sound_work i w HS)) as (ls & H). cbn [map so_far foldl happens]. unfold so_far in H. rewrite H.
  destruct (work_lines i w HS) as [(k & -> & _)|[-> _]]; rewrite <- app_assoc; by eexists.
Qed.

(** The model is given back: whatever happened before, once the worker has
    a job and the model answers, at most twelve steps later the worker sleeps,
    the generation gate is free, and the job has ended or waits in the queue
    again. *)
Theorem worker_turn_ends m evs j ins :
  let w := so_far evs (initial_world m) in
  busy (s_phase w) = Some j -> (13 <= length ins)%nat -> Forall (fun i => i_reply i <> None) ins ->
  exists k, (1 <= k <= 12)%nat /\
    let w' := so_far (map Work (take k ins)) w in
    s_phase w' = Sleeping /\ held (s_gate w') = false /\ (j ∈ jobs (s_queue w') \/ j ∈ flat_map ended_by (s_trace w')).
Proof.
  cbn zeta. set (w := so_far evs _). assert (SuggestSound w) as HS by apply so_far_sound, initial_suggest_sound. intros Hb Hl HF.
  destruct (turn_ends 13 w j ins) as (k & Hk & H1 & H2); [destruct (s_phase w); cbn; lia | done..|]. exists k. split; [lia|].
  split_and!; [done | done |]. set (w' := so_far (map Work (take k ins)) w) in *. assert (SuggestSound w') as HS' by by apply so_far_sound.
  pose proof (su_accounted _ HS) as A. pose proof (su_accounted _ HS') as A'. rewrite H1 in A'. unfold running in A, A'. rewrite Hb in A. cbn [busy app] in A'.
  apply elem_of_app. rewrite <- A'. destruct (trace_grows (take k ins) w HS) as (ls & E). fold w' in E. rewrite E, flat_map_app, elem_of_app. left. rewrite A. set_solver.
Qed.
End Suggest.

(** ** A small queue *)

Module SmallSuggest.
Import SmallMemory.
Definition redact0 (t : text) : text := t.
Definition print0 (j : json) : text := T "evidence".
Definition listed : yaml := YSeq [YMap [(YStr (T "model"), YStr (T "qwen3")); (YStr (T "modes"), YSeq [YStr (T "both")])]].
Definition conf0 : Conf := MkConf 5 (fun _ => true) (fun _ => None) None (Some listed) (T "ollama") (T "qwen3:latest") (T "qwen3:latest") [T "grok"] default_gates.
Definition candidate (e : text) : ConsolidatorCandidate :=
  MkCandidate ADD None (Some (T "Lives in Oslo")) (Some (T "insight")) (Some (9 # 10)%Q) None (T "normal") [e].
Definition answer (e : text) : Input := MkInput conf0 (env 30) (Some (Ok (T "qwen3:latest", Ok [candidate e]))).
Definition chat_turn : Event := Enqueue conf0 (env 20) (env 21) alice Chat (Some (id_of 2 0)) (T "I live in Oslo") (T "Noted.") (T "grok").
Definition coding_run : Event :=
  Completed conf0 (env 22) (env 23) bob (T "Fix the test")
    (JObj [(T "ok", JBool true); (T "parsed", JObj [(T "status", JStr (T "pending_decision"))])]).
Notation run l := (so_far sha flags0 small (1 # 2)%Q redact0 print0 l (initial_world (Some start))).
Definition work_on (e : text) (n : nat) : list Event := repeat (Work (answer e)) n.

Example both_wait : map j_source (jobs (s_queue (run [chat_turn; coding_run]))) = [Chat; Coding].
Proof. vm_compute. reflexivity. Qed.
Example proposed : map p_content (proposals (db (from_option id start (s_store (run (chat_turn :: work_on (id_of 2 0) 13)))))) = [Some (T "Prefers imperial units"); Some (T "Lives in Oslo")].
Proof. vm_compute. reflexivity. Qed.

Definition job0 : Job := nth 0 (jobs (s_queue (run [chat_turn]))) (MkJob [] [] Coding [] [] [] [] 0).
Definition drafts0 : list ProposalDraft := [MkDraft ADD (Some (T "Lives in Oslo")) (Some (T "insight")) None None None [id_of 2 0]].
Definition submitted : list Event := chat_turn :: work_on (id_of 2 0) 13.

(** The worker waits for the answer, the chat is cleared: nothing is proposed. *)
Example cleared_while_asking :
  let w := run (chat_turn :: work_on (id_of 2 0) 6 ++ [ClearChat (env 31) alice] ++ work_on (id_of 2 0) 8) in
  (length (proposals (db (from_option id start (s_store w)))), jobs (s_queue w), s_phase w) = (1%nat, [], Stopped).
Proof. vm_compute. reflexivity. Qed.
Example preempted_waits_again :
  map j_run (jobs (s_queue (run (chat_turn :: work_on (id_of 2 0) 6 ++ [Preempt] ++ work_on (id_of 2 0) 3)))) = [j_run job0].
Proof. vm_compute. reflexivity. Qed.

Lemma suggestions_await_review_witness : Submission redact0 job0 (T "both") drafts0.
Proof.
  apply (suggestions_await_review sha flags0 small (1 # 2)%Q redact0 print0 (Some start) submitted).
  apply (proj2 (list_elem_of_In _ _)). vm_compute. right. left. reflexivity.
Defined.

Lemma cleared_chat_witness : Submitted job0 (T "both") drafts0 ∈ s_trace (run submitted).
Proof.
  apply (cleared_chat_is_not_suggested sha flags0 small (1 # 2)%Q redact0 print0 (Some start) submitted (env 31) alice [Preempt]).
  - by repeat constructor.
  - vm_compute. reflexivity.
  - apply (proj2 (list_elem_of_In _ _)). vm_compute. right. left. reflexivity.
Defined.

Lemma worker_turn_ends_witness : exists k, (1 <= k <= 12)%nat /\
  let w' := so_far sha flags0 small (1 # 2)%Q redact0 print0 (map Work (take k (repeat (answer (id_of 2 0)) 13))) (run [chat_turn; Work (answer (id_of 2 0))]) in
  s_phase w' = Sleeping /\ held (s_gate w') = false /\ (job0 ∈ jobs (s_queue w') \/ job0 ∈ flat_map ended_by (s_trace w')).
Proof.
  apply (worker_turn_ends sha flags0 small (1 # 2)%Q redact0 print0 (Some start) [chat_turn; Work (answer (id_of 2 0))] job0 (repeat (answer (id_of 2 0)) 13)).
  - vm_compute. reflexivity.
  - apply le_n.
  - repeat constructor; intros [=].
Defined.
End SmallSuggest.
