(* ===== verification/NetScope.v ===== *)
(** The IPv4 scope of LAN observation, [netconnect/scope.rs].  An address is
    its 32-bit value; masks are the source's bit operations on u32. *)

From S2P Require Import Prelude Text.
Local Open Scope Z_scope.

Definition u32_all : Z := 2 ^ 32 - 1.
Definition MIN_PREFIX : Z := 16.
Definition MAX_ENTRIES : nat := 64.

(** [Ipv4Addr::new] *)
Definition ipv4 (a b c d : Z) : Z :=
  Z.lor (Z.shiftl a 24) (Z.lor (Z.shiftl b 16) (Z.lor (Z.shiftl c 8) d)).

Definition PRIVATE_BLOCKS : list (Z * Z) :=
  [(ipv4 10 0 0 0, 8); (ipv4 172 16 0 0, 12); (ipv4 192 168 0 0, 16); (ipv4 127 0 0 0, 8)].

Definition prefix_mask (prefix : Z) : Z :=
  if prefix =? 0 then 0 else Z.land (Z.shiftl u32_all (32 - prefix)) u32_all.
Definition network_address (addr prefix : Z) : Z := Z.land addr (prefix_mask prefix).

Record Cidr := MkCidr { network : Z; prefix : Z }.
#[export] Instance Cidr_eq_dec : EqDecision Cidr.
Proof. solve_decision. Defined.

Definition cidr_contains (c : Cidr) (addr : Z) : bool := Z.land addr (prefix_mask (prefix c)) =? network c.

Definition covers (c : Cidr) (net p : Z) : bool :=
  if negb ((prefix c <=? p) && (p <=? 32)) then false
  else if negb (network_address net p =? net) then false
  else Z.land net (prefix_mask (prefix c)) =? network c.

(** The four octets in decimal. *)
Definition octets (addr : Z) : list Z :=
  [Z.shiftr addr 24; Z.land (Z.shiftr addr 16) 255; Z.land (Z.shiftr addr 8) 255; Z.land addr 255].
Definition show_ipv4 (addr : Z) : text := join [c_dot] (map show_nat (octets addr)).
Definition display (c : Cidr) : text := show_ipv4 (network c) ++ [c_slash] ++ show_nat (prefix c).

(** One octet of [Ipv4Addr::from_str]: one to three digits, at most 255, no
    leading zero. *)
Definition parse_octet (s : text) : option Z :=
  match s with
  | [] => None
  | c :: rest =>
      if (c =? 48) && negb (bool_decide (rest = [])) then None
      else if (3 <? length s)%nat then None
      else match parse_digits 0 s with
           | Some n => if n <=? 255 then Some n else None
           | None => None
           end
  end.
Definition parse_ipv4 (s : text) : option Z :=
  match map parse_octet (split_on c_dot s) with
  | [Some a; Some b; Some c; Some d] => Some (ipv4 a b c d)
  | _ => None
  end.

Inductive cidr_error := Ipv6 | NotCidr | TooWide | HostBits | NotPrivate.

Definition parse_cidr (entry : text) : result cidr_error Cidr :=
  let entry := trim entry in
  _ ← refuse_if (contains [c_colon] entry) Ipv6;
  '(addr_text, prefix_text) ← ok_or (split_once [c_slash] entry) NotCidr;
  addr ← ok_or (parse_ipv4 (trim addr_text)) NotCidr;
  let prefix_text := trim prefix_text in
  p ← ok_or (parse_uint 255 prefix_text) NotCidr;
  _ ← refuse_if (negb (teqb prefix_text (show_nat p)) || (32 <? p)) NotCidr;
  _ ← refuse_if (p <? MIN_PREFIX) TooWide;
  let net := network_address addr p in
  _ ← refuse_if (negb (net =? addr)) HostBits;
  let inside := existsb (fun '(block, block_prefix) => Z.land net (prefix_mask block_prefix) =? block) PRIVATE_BLOCKS in
  _ ← refuse_if (negb inside) NotPrivate;
  mret (MkCidr net p).

Definition Scope : Type := list Cidr.
Definition entries (s : Scope) : list text := map display s.

Fixpoint parse_entries (cidrs : list Cidr) (es : list text) : result harness_error Scope :=
  match es with
  | [] => Ok cidrs
  | e :: es =>
      c ← map_err (fun _ => err_config) (parse_cidr e);
      _ ← refuse_if (bool_decide (c ∈ cidrs)) err_config;
      parse_entries (cidrs ++ [c]) es
  end.
Definition parse_scope (es : list text) : result harness_error Scope :=
  if (MAX_ENTRIES <? length es)%nat then Err err_config else parse_entries [] es.

Definition scope_contains (s : Scope) (addr : Z) : bool := existsb (fun c => cidr_contains c addr) s.
Definition covers_network (s : Scope) (net p : Z) : bool := existsb (fun c => covers c net p) s.
Definition check_target (s : Scope) (addr : Z) : result harness_error unit :=
  if scope_contains s addr then Ok tt else Err (err_code "NETCONNECT_REFUSED").

(** ** Masks are division *)

Definition is_addr (a : Z) : Prop := 0 <= a < 2 ^ 32.
Definition size (p : Z) : Z := 2 ^ (32 - p).

Lemma size_pos p : 0 < size p \/ 32 < p.
Proof. unfold size. destruct (Z.le_gt_cases p 32); [left; apply Z.pow_pos_nonneg; lia | by right]. Qed.

Lemma mask_testbit p i : 0 <= p <= 32 -> 0 <= i -> Z.testbit (prefix_mask p) i = ((32 - p <=? i) && (i <? 32)).
Proof.
  intros Hp Hi. unfold prefix_mask, u32_all. destruct (Z.eqb_spec p 0) as [->|Hne].
  - rewrite Z.bits_0. destruct (Z.leb_spec (32 - 0) i), (Z.ltb_spec i 32); simpl; solve [done | exfalso; lia].
  - change (2 ^ 32 - 1) with (Z.ones 32).
    rewrite Z.land_spec, Z.shiftl_spec, !Z.testbit_ones by lia.
    destruct (Z.leb_spec 0 (i - (32 - p))), (Z.ltb_spec (i - (32 - p)) 32), (Z.leb_spec 0 i), (Z.ltb_spec i 32),
      (Z.leb_spec (32 - p) i); simpl; solve [done | exfalso; lia].
Qed.

Lemma bits_above y n i : 0 <= n <= i -> 0 <= y < 2 ^ n -> Z.testbit y i = false.
Proof.
  intros Hn Hy. destruct (Z.eq_dec y 0) as [->|]; [apply Z.bits_0|].
  apply Z.bits_above_log2; [lia|]. apply Z.log2_lt_pow2; [lia|].
  apply (Z.lt_le_trans _ (2 ^ n)); [lia|]. apply Z.pow_le_mono_r; lia.
Qed.

Lemma land_mask a p : is_addr a -> 0 <= p <= 32 -> Z.land a (prefix_mask p) = a / size p * size p.
Proof.
  intros Ha Hp. unfold size. rewrite <- Z.shiftr_div_pow2, <- Z.shiftl_mul_pow2 by lia.
  apply Z.bits_inj'. intros i Hi. rewrite Z.land_spec, mask_testbit, Z.shiftl_spec by lia.
  destruct (Z.leb_spec (32 - p) i) as [Hl|Hl].
  - rewrite Z.shiftr_spec by lia. replace (i - (32 - p) + (32 - p)) with i by lia.
    destruct (Z.ltb_spec i 32); [by rewrite andb_true_r|].
    by rewrite (bits_above a 32 i) by (done || lia).
  - rewrite (Z.testbit_neg_r (Z.shiftr a (32 - p))) by lia. by rewrite andb_false_r.
Qed.

(** An address lies in the block of [net] with prefix [p]. *)
Definition in_block (net p addr : Z) : Prop := addr / size p = net / size p.

Record good_cidr (c : Cidr) : Prop := {
  gc_prefix : MIN_PREFIX <= prefix c <= 32;
  gc_addr : is_addr (network c);
  gc_aligned : network c / size (prefix c) * size (prefix c) = network c;
}.

Lemma contains_in_block c addr : good_cidr c -> is_addr addr ->
  (cidr_contains c addr = true <-> in_block (network c) (prefix c) addr).
Proof.
  intros [Hp Hn Ha] Hadd. unfold MIN_PREFIX in Hp. unfold cidr_contains, in_block.
  rewrite land_mask, Z.eqb_eq by (done || lia). destruct (size_pos (prefix c)) as [Hs|]; [|lia]. split; [|congruence].
  intros H. rewrite <- Ha in H. by apply Z.mul_reg_r in H; [|lia].
Qed.

(** Blocks are intervals. *)
Lemma in_block_interval net p addr :
  0 <= p <= 32 -> net / size p * size p = net -> in_block net p addr <-> net <= addr < net + size p.
Proof.
  intros Hp Ha. destruct (size_pos p) as [Hs|]; [|lia]. unfold in_block. split.
  - intros H. pose proof (Z.div_mod addr (size p)). pose proof (Z.mod_pos_bound addr (size p)). lia.
  - intros H. symmetry. apply (Z.div_unique addr (size p) (net / size p) (addr - net)); lia.
Qed.

(** A block lies in the block with the shorter prefix that its network is in. *)
Lemma in_block_wider net p q addr : 0 <= q <= p -> p <= 32 -> in_block net p addr -> in_block net q addr.
Proof.
  intros Hq Hp H. unfold in_block, size in *.
  replace (2 ^ (32 - q)) with (2 ^ (32 - p) * 2 ^ (p - q)) by (rewrite <- Z.pow_add_r by lia; f_equal; lia).
  assert (0 < 2 ^ (32 - p)) by (apply Z.pow_pos_nonneg; lia). assert (0 < 2 ^ (p - q)) by (apply Z.pow_pos_nonneg; lia).
  rewrite <- !Z.div_div by lia. by rewrite H.
Qed.

(** ** What is accepted *)

Definition private (addr : Z) : Prop :=
  ipv4 10 0 0 0 <= addr <= ipv4 10 255 255 255 \/ ipv4 172 16 0 0 <= addr <= ipv4 172 31 255 255
  \/ ipv4 192 168 0 0 <= addr <= ipv4 192 168 255 255 \/ ipv4 127 0 0 0 <= addr <= ipv4 127 255 255 255.

Lemma ipv4_addr a b c d : 0 <= a < 256 -> 0 <= b < 256 -> 0 <= c < 256 -> 0 <= d < 256 ->
  ipv4 a b c d = ((a * 256 + b) * 256 + c) * 256 + d.
Proof.
  intros Ha Hb Hc Hd. unfold ipv4.
  assert (Hlor : forall x y n, 0 <= n -> 0 <= y < 2 ^ n -> Z.lor (Z.shiftl x n) y = x * 2 ^ n + y).
  { intros x y n Hn Hy. rewrite <- (Z.shiftl_mul_pow2 x n) by lia.
    assert (Hdis : Z.land (Z.shiftl x n) y = 0); [|by rewrite Z.add_nocarry_lxor, Z.lxor_lor].
    apply Z.bits_inj'. intros i Hi. rewrite Z.land_spec, Z.bits_0, Z.shiftl_spec by lia.
    destruct (Z.lt_ge_cases i n); [by rewrite (Z.testbit_neg_r x) by lia|].
    rewrite (bits_above y n i), andb_false_r by lia. done. }
  rewrite (Hlor c d 8), (Hlor b _ 16), (Hlor a _ 24); lia.
Qed.

Lemma parse_octet_bounds s n : parse_octet s = Some n -> 0 <= n < 256.
Proof.
  unfold parse_octet. destruct s as [|c s]; [done|]. destruct (_ && _); [done|]. destruct (_ <? _)%nat; [done|].
  destruct (parse_digits 0 (c :: s)) as [m|] eqn:E; [|done]. destruct (Z.leb_spec m 255); [|done]. intros [= <-].
  apply parse_digits_nonneg in E; lia.
Qed.

Lemma parse_ipv4_addr s a : parse_ipv4 s = Some a -> is_addr a.
Proof.
  unfold parse_ipv4. destruct (map parse_octet (split_on c_dot s)) as [|[a0|] [|[b0|] [|[c0|] [|[d0|] [|]]]]] eqn:E; try done.
  intros [= <-].
  assert (H : Forall (fun o => forall n, o = Some n -> 0 <= n < 256) (map parse_octet (split_on c_dot s))).
  { apply Forall_map, Forall_forall. intros w _ n. apply parse_octet_bounds. }
  rewrite E in H. rewrite !Forall_cons in H. destruct H as (Ha & Hb & Hc & Hd & _).
  specialize (Ha _ eq_refl). specialize (Hb _ eq_refl). specialize (Hc _ eq_refl). specialize (Hd _ eq_refl).
  rewrite ipv4_addr by done. unfold is_addr. lia.
Qed.

Lemma parse_cidr_Ok e c :
  parse_cidr e = Ok c ->
  good_cidr c /\ exists block q, (block, q) ∈ PRIVATE_BLOCKS /\ network_address (network c) q = block.
Proof.
  unfold parse_cidr. intros H. apply bind_Ok_inv in H as ([] & _ & H). apply bind_Ok_inv in H as ([at_ pt] & _ & H).
  apply bind_Ok_inv in H as (addr & Ha & H). apply bind_Ok_inv in H as (p & _ & H).
  apply bind_Ok_inv in H as ([] & H1 & H). apply bind_Ok_inv in H as ([] & H2 & H).
  apply bind_Ok_inv in H as ([] & H3 & H). apply bind_Ok_inv in H as ([] & H4 & H). apply Ok_inj in H. subst c.
  apply ok_or_Ok, parse_ipv4_addr in Ha. apply refuse_if_Ok in H1, H2, H3, H4.
  apply orb_false_iff in H1 as [_ H1]. apply Z.ltb_ge in H1, H2. apply negb_false_iff, Z.eqb_eq in H3.
  apply negb_false_iff, existsb_exists in H4 as ([block q] & Hin & Hq). apply Z.eqb_eq in Hq. unfold MIN_PREFIX in *.
  rewrite H3 in *. split.
  - constructor; simpl; [unfold MIN_PREFIX; lia | done|]. rewrite <- H3 at 2. unfold network_address. rewrite land_mask; [done | done | lia].
  - exists block, q. split; [by apply list_elem_of_In | exact Hq].
Qed.

(** An accepted block lies in a private block. *)
Lemma block_private c addr :
  good_cidr c -> is_addr addr -> (exists block q, (block, q) ∈ PRIVATE_BLOCKS /\ network_address (network c) q = block) ->
  in_block (network c) (prefix c) addr -> private addr.
Proof.
  intros [Hp Hn Ha] Hadd (block & q & Hin & Hq) H. unfold MIN_PREFIX in Hp.
  assert (Hq16 : 0 <= q <= 16 /\ block / size q * size q = block
                 /\ (forall x, block <= x < block + size q -> private x)).
  { unfold PRIVATE_BLOCKS in Hin. rewrite !elem_of_cons, elem_of_nil in Hin.
    unfold private. rewrite !ipv4_addr in * by lia.
    destruct Hin as [[= -> ->]|[[= -> ->]|[[= -> ->]|[[= -> ->]|[]]]]]; (split; [lia|]); (split; [reflexivity|]); intros x Hx.
    - change (size 8) with 16777216 in Hx. lia.
    - change (size 12) with 1048576 in Hx. lia.
    - change (size 16) with 65536 in Hx. lia.
    - change (size 8) with 16777216 in Hx. lia. }
  destruct Hq16 as (Hq16 & Hal & Hx). apply Hx, in_block_interval; [lia | done|].
  apply (in_block_wider _ _ q) in H; [|lia..]. unfold in_block in *. rewrite H.
  unfold network_address in Hq. rewrite land_mask in Hq by (done || lia). destruct (size_pos q) as [Hs|]; [|lia].
  rewrite <- Hq. by rewrite Z.div_mul by lia.
Qed.

Lemma contains_bounds c addr : good_cidr c -> is_addr addr ->
  (cidr_contains c addr = true <-> network c <= addr < network c + size (prefix c)).
Proof.
  intros Hg Ha. rewrite contains_in_block by done. destruct Hg as [Hp _ Hal]. unfold MIN_PREFIX in Hp.
  apply in_block_interval; [lia | done].
Qed.

(** [covers] holds exactly when the whole block is inside. *)
Lemma covers_spec c net p : good_cidr c -> is_addr net -> 0 <= p <= 32 -> network_address net p = net ->
  (covers c net p = true <-> forall addr, is_addr addr -> in_block net p addr -> cidr_contains c addr = true).
Proof.
  intros Hg Hn Hp Hal. pose proof Hg as [Hpc _ _]. unfold MIN_PREFIX in Hpc. unfold covers. rewrite Hal, Z.eqb_refl. simpl negb.
  pose proof Hal as Hal'. unfold network_address in Hal'. rewrite land_mask in Hal' by (done || lia). split.
  - destruct (Z.leb_spec (prefix c) p) as [Hle|]; [|done]. destruct (Z.leb_spec p 32) as [_|]; [|lia]. simpl. intros H addr Ha Hb.
    change (cidr_contains c net = true) in H. rewrite contains_in_block in H |- * by done.
    apply (in_block_wider _ _ (prefix c)) in Hb; [|lia..]. unfold in_block in *. congruence.
  - intros H. assert (Hnet : cidr_contains c net = true) by (apply H; done).
    destruct (Z.leb_spec (prefix c) p) as [Hle|Hlt]; [destruct (Z.leb_spec p 32); [exact Hnet | lia]|]. exfalso.
    destruct (size_pos p) as [Hs|]; [|lia]. destruct (size_pos (prefix c)) as [Hs'|]; [|lia].
    assert (Hlts : size (prefix c) < size p) by (unfold size; apply Z.pow_lt_mono_r; lia).
    assert (Hbound : net + size p <= 2 ^ 32).
    { assert (Hm : 2 ^ 32 = 2 ^ p * size p) by (unfold size; rewrite <- Z.pow_add_r by lia; f_equal; lia).
      assert (Hd : net / size p < 2 ^ p) by (apply Z.div_lt_upper_bound; [lia|]; rewrite Z.mul_comm, <- Hm; apply Hn). nia. }
    assert (Hx : cidr_contains c (net + size (prefix c)) = true).
    { apply H; [unfold is_addr in *; lia|]. apply in_block_interval; [lia | done | lia]. }
    assert (Ha2 : is_addr (net + size (prefix c))) by (unfold is_addr in *; lia).
    rewrite contains_bounds in Hx, Hnet by done. lia.
Qed.

Lemma parse_entries_Ok cidrs es s :
  parse_entries cidrs es = Ok s ->
  exists new, s = cidrs ++ new /\ Forall2 (fun e c => parse_cidr e = Ok c) es new /\ (NoDup cidrs -> NoDup s).
Proof.
  revert cidrs. induction es as [|e es IH]; intros cidrs H; simpl in H.
  { injection H as <-. exists []. rewrite app_nil_r. by repeat constructor. }
  apply bind_Ok_inv in H as (c & Hc & H). apply bind_Ok_inv in H as ([] & Hd & H).
  apply refuse_if_Ok, bool_decide_eq_false in Hd. apply IH in H as (new & -> & H2 & Hn).
  exists (c :: new). rewrite <- app_assoc. split; [done|]. split.
  - constructor; [|done]. by destruct (parse_cidr e); [apply Ok_inj in Hc; subst|].
  - intros Hnd. rewrite <- app_assoc in Hn. apply Hn. apply NoDup_app. split; [done|]. split; [|apply NoDup_singleton].
    intros x Hx ->%list_elem_of_singleton. done.
Qed.

(** An accepted scope reaches private networks only.  It has at most
    [MAX_ENTRIES] entries, no two alike, one per line of the configuration;
    every entry is an aligned block of at most 2^16 addresses; an address
    passes [check_target] exactly when it lies in one of the blocks, and then
    it is an RFC 1918 or loopback address; and a network that is reported as
    covered has all of its addresses in scope. *)
Theorem scope_is_private es s :
  parse_scope es = Ok s ->
  (length s = length es /\ (length s <= MAX_ENTRIES)%nat /\ NoDup s)
  /\ Forall (fun c => network c / size (prefix c) * size (prefix c) = network c /\ size (prefix c) <= 2 ^ 16) s
  /\ (forall addr, is_addr addr ->
        (check_target s addr = Ok tt <-> exists c, c ∈ s /\ network c <= addr < network c + size (prefix c))
        /\ (check_target s addr = Ok tt -> private addr))
  /\ (forall net p addr, is_addr net -> is_addr addr -> 0 <= p -> covers_network s net p = true -> in_block net p addr ->
        check_target s addr = Ok tt).
Proof.
  unfold parse_scope. destruct (Nat.ltb_spec MAX_ENTRIES (length es)) as [|Hl]; [done|]. intros H.
  apply parse_entries_Ok in H as (new & -> & H2 & Hnd). simpl app in *.
  assert (Hg : forall c, c ∈ new -> good_cidr c /\ exists block q, (block, q) ∈ PRIVATE_BLOCKS /\ network_address (network c) q = block).
  { intros c Hc. apply list_elem_of_lookup in Hc as [i Hi]. destruct (Forall2_lookup_r _ _ _ _ _ H2 Hi) as (e & _ & He).
    by apply parse_cidr_Ok in He. }
  assert (Hcheck : forall addr, check_target new addr = Ok tt <-> exists c, c ∈ new /\ cidr_contains c addr = true).
  { intros addr. unfold check_target, scope_contains. destruct (existsb _ new) eqn:E.
    - split; [|done]. intros _. apply existsb_exists in E as (c & Hc & E). exists c. by rewrite list_elem_of_In.
    - split; [done|]. intros (c & Hc & Hx). exfalso. assert (existsb (fun c => cidr_contains c addr) new = true); [|congruence].
      apply existsb_exists. exists c. by rewrite <- list_elem_of_In. }
  apply Forall2_length in H2 as Hlen. split; [split; [lia|]; split; [lia | apply Hnd, NoDup_nil_2]|]. split; [|split].
  - apply Forall_forall. intros c Hc. destruct (Hg c Hc) as [[Hp _ Ha] _]. split; [done|].
    unfold MIN_PREFIX, size in *. apply Z.pow_le_mono_r; lia.
  - intros addr Ha. rewrite Hcheck. split.
    + split; intros (c & Hc & Hx); exists c; (split; [done|]); destruct (Hg c Hc) as [Hc' _]; by apply (contains_bounds c addr).
    + intros (c & Hc & Hx). destruct (Hg c Hc) as [Hc' Hb]. apply (block_private c addr); [done..|].
      by apply contains_in_block.
  - intros net p addr Hn Ha Hp Hcov Hb. apply Hcheck. unfold covers_network in Hcov.
    apply existsb_exists in Hcov as (c & Hc & Hcov). apply list_elem_of_In in Hc. exists c. split; [done|].
    pose proof Hcov as Hcov'. unfold covers in Hcov'. destruct (negb _) eqn:E1; [done|]. destruct (negb (network_address _ _ =? _)) eqn:E2; [done|].
    apply negb_false_iff, andb_true_iff in E1 as [_ E1]. apply Z.leb_le in E1. apply negb_false_iff, Z.eqb_eq in E2.
    apply (covers_spec c net p); [by apply Hg | done | lia | done | exact Hcov | done | done].
Qed.

(** ** Printing and reading back *)

Lemma contains_char_false c s : c ∉ s -> contains [c] s = false.
Proof.
  intros H. destruct (contains [c] s) eqn:E; [|done]. apply contains_spec in E as (a & b & ->).
  exfalso. apply H, elem_of_app. right. left.
Qed.

Lemma octet_round_trip n : 0 <= n < 256 -> parse_octet (show_nat n) = Some n.
Proof.
  intros Hn. assert (H : forallb (fun i => bool_decide (parse_octet (show_nat (Z.of_nat i)) = Some (Z.of_nat i))) (seq 0 256) = true)
    by (vm_compute; reflexivity).
  rewrite forallb_forall in H. specialize (H (Z.to_nat n)). rewrite Z2Nat.id in H by lia.
  apply bool_decide_eq_true in H; [done|]. apply in_seq. lia.
Qed.

Lemma octets_bounds a : is_addr a -> Forall (fun n => 0 <= n < 256) (octets a).
Proof.
  intros Ha. unfold octets, is_addr in *. change 255 with (Z.ones 8).
  rewrite !Z.land_ones, !Z.shiftr_div_pow2 by lia.
  repeat apply Forall_cons_2; [| | | |apply Forall_nil_2]; try (apply Z.mod_pos_bound; lia).
  split; [apply Z.div_pos; lia | apply Z.div_lt_upper_bound; lia].
Qed.

Lemma ipv4_octets a : is_addr a ->
  ipv4 (Z.shiftr a 24) (Z.land (Z.shiftr a 16) 255) (Z.land (Z.shiftr a 8) 255) (Z.land a 255) = a.
Proof.
  intros Ha. pose proof (octets_bounds a Ha) as H. unfold octets in H. rewrite !Forall_cons in H.
  destruct H as (H1 & H2 & H3 & H4 & _). rewrite ipv4_addr by done. clear -Ha.
  change 255 with (Z.ones 8). rewrite !Z.land_ones, !Z.shiftr_div_pow2 by lia.
  replace (2 ^ 24) with (2 ^ 16 * 2 ^ 8) by lia. replace (2 ^ 16) with (2 ^ 8 * 2 ^ 8) by lia.
  rewrite <- !Z.div_div by lia. change (2 ^ 8) with 256.
  pose proof (Z.div_mod a 256). pose proof (Z.div_mod (a / 256) 256). pose proof (Z.div_mod (a / 256 / 256) 256). lia.
Qed.

Lemma octet_texts a : is_addr a -> Forall (Forall (fun c => is_ascii_digit c = true)) (map show_nat (octets a)).
Proof.
  intros Ha. apply Forall_map. eapply Forall_impl; [by apply octets_bounds|]. intros n Hn. apply show_nat_digits, Hn.
Qed.

Lemma ipv4_round_trip a : is_addr a -> parse_ipv4 (show_ipv4 a) = Some a.
Proof.
  intros Ha. unfold parse_ipv4, show_ipv4. rewrite split_on_join.
  - pose proof (octets_bounds a Ha) as H. unfold octets in *. rewrite !Forall_cons in H.
    destruct H as (H1 & H2 & H3 & H4 & _). cbn [map].
    rewrite (octet_round_trip _ H1), (octet_round_trip _ H2), (octet_round_trip _ H3), (octet_round_trip _ H4).
    f_equal. exact (ipv4_octets a Ha).
  - discriminate.
  - eapply Forall_impl; [by apply octet_texts|]. intros w Hw Hin. rewrite Forall_forall in Hw.
    specialize (Hw _ Hin). discriminate Hw.
Qed.

Definition scope_char (c : char) : Prop := is_ascii_digit c = true \/ c = c_dot \/ c = c_slash.

Lemma show_ipv4_chars a : is_addr a -> Forall (fun c => is_ascii_digit c = true \/ c = c_dot) (show_ipv4 a).
Proof.
  intros Ha. unfold show_ipv4. pose proof (octet_texts a Ha) as H. induction H as [|w ws Hw _ IH]; [constructor|].
  assert (Hw' : Forall (fun c => is_ascii_digit c = true \/ c = c_dot) w) by (eapply Forall_impl; [exact Hw | by left]).
  destruct ws; [exact Hw'|]. rewrite join_cons by done. apply Forall_app. split; [done|]. apply Forall_app. split; [|exact IH].
  apply Forall_singleton. by right.
Qed.

Lemma digit_plain c : is_ascii_digit c = true \/ c = c_dot \/ c = c_slash -> is_whitespace c = false /\ c <> c_colon.
Proof.
  intros H. assert (Hc : 46 <= c <= 57).
  { unfold c_dot, c_slash in H. destruct H as [H|[->| ->]]; [|lia..]. unfold is_ascii_digit, in_range in H. apply andb_true_iff in H as [H1 H2].
    apply Z.leb_le in H1, H2. lia. }
  split; [|unfold c_colon; lia]. unfold is_whitespace, in_range.
  repeat match goal with
         | |- context [?x <=? ?y] => destruct (Z.leb_spec x y); try lia
         | |- context [?x =? ?y] => destruct (Z.eqb_spec x y); try lia
         end; done.
Qed.

Lemma show_prefix_ok p : 16 <= p <= 32 -> parse_uint 255 (show_nat p) = Some p.
Proof.
  intros Hp. assert (H : forallb (fun i => bool_decide (parse_uint 255 (show_nat (Z.of_nat i)) = Some (Z.of_nat i))) (seq 16 17) = true)
    by (vm_compute; reflexivity).
  rewrite forallb_forall in H. specialize (H (Z.to_nat p)). rewrite Z2Nat.id in H by lia.
  apply bool_decide_eq_true in H; [done|]. apply in_seq. lia.
Qed.

Lemma cidr_round_trip c :
  good_cidr c -> (exists block q, (block, q) ∈ PRIVATE_BLOCKS /\ network_address (network c) q = block) ->
  parse_cidr (display c) = Ok c.
Proof.
  intros [Hp Hn Ha] (block & q & Hin & Hq). unfold MIN_PREFIX in Hp.
  assert (Hip : Forall (fun x => is_ascii_digit x = true \/ x = c_dot) (show_ipv4 (network c))) by by apply show_ipv4_chars.
  assert (Hpre : Forall (fun x => is_ascii_digit x = true) (show_nat (prefix c))) by (apply show_nat_digits; lia).
  assert (Hall : Forall (fun x => is_ascii_digit x = true \/ x = c_dot \/ x = c_slash) (display c)).
  { unfold display. apply Forall_app. split; [eapply Forall_impl; [exact Hip|]; tauto|]. apply Forall_app. split.
    - apply Forall_singleton. tauto.
    - eapply Forall_impl; [exact Hpre|]. tauto. }
  assert (Hplain : forall s, Forall (fun x => is_ascii_digit x = true \/ x = c_dot \/ x = c_slash) s -> trim s = s).
  { intros s Hs. apply trim_plain. eapply Forall_impl; [exact Hs|]. intros x Hx. by apply digit_plain. }
  unfold parse_cidr. rewrite (Hplain _ Hall), contains_char_false.
  2: { intros Hc. rewrite Forall_forall in Hall. apply Hall, digit_plain in Hc as [_ Hc]. done. }
  unfold refuse_if at 1. cbn [mbind result_bind]. unfold display. cbn [app]. rewrite split_once_first.
  2: { intros Hc. rewrite Forall_forall in Hip. apply Hip in Hc as [Hc|Hc]; discriminate Hc. }
  cbn [ok_or mbind result_bind].
  rewrite (Hplain (show_ipv4 _)) by (eapply Forall_impl; [exact Hip|]; tauto).
  rewrite ipv4_round_trip by done. cbn [ok_or mbind result_bind].
  rewrite (Hplain (show_nat _)) by (eapply Forall_impl; [exact Hpre|]; tauto).
  rewrite show_prefix_ok by lia. cbn [ok_or mbind result_bind]. rewrite teqb_refl. simpl negb.
  destruct (Z.ltb_spec 32 (prefix c)); [lia|]. cbn [orb refuse_if mbind result_bind].
  unfold MIN_PREFIX. destruct (Z.ltb_spec (prefix c) 16); [lia|]. cbn [refuse_if mbind result_bind].
  assert (Hnet : network_address (network c) (prefix c) = network c) by (unfold network_address; rewrite land_mask; [done | done | lia]).
  rewrite Hnet, Z.eqb_refl. cbn [negb refuse_if mbind result_bind].
  assert (Hex : existsb (fun '(block, block_prefix) => Z.land (network c) (prefix_mask block_prefix) =? block) PRIVATE_BLOCKS = true).
  { apply existsb_exists. exists (block, q). split; [by apply list_elem_of_In|]. by apply Z.eqb_eq. }
  cbn [existsb PRIVATE_BLOCKS] in Hex. rewrite Hex. by destruct c.
Qed.

(** A scope that is printed by [entries] and parsed again is the same
    scope: blanks and other spellings of the configuration are normalised once
    and for all, and nothing is added or lost. *)
Theorem scope_entries_round_trip es s : parse_scope es = Ok s -> parse_scope (entries s) = Ok s.
Proof.
  unfold parse_scope. destruct (Nat.ltb_spec MAX_ENTRIES (length es)) as [|Hl]; [done|]. intros H.
  apply parse_entries_Ok in H as (new & -> & H2 & Hnd). simpl app in *.
  specialize (Hnd (NoDup_nil_2)). apply Forall2_length in H2 as Hlen.
  unfold entries. rewrite length_map. destruct (Nat.ltb_spec MAX_ENTRIES (length new)); [lia|].
  assert (Hrt : Forall (fun c => parse_cidr (display c) = Ok c) new).
  { apply Forall_forall. intros c Hc. apply list_elem_of_lookup in Hc as [i Hi].
    destruct (Forall2_lookup_r _ _ _ _ _ H2 Hi) as (e & _ & He). apply parse_cidr_Ok in He as [Hg Hb].
    by apply cidr_round_trip. }
  assert (Hgen : forall l cidrs, Forall (fun c => parse_cidr (display c) = Ok c) l -> NoDup (cidrs ++ l) ->
            parse_entries cidrs (map display l) = Ok (cidrs ++ l)).
  { clear. induction l as [|c l IH]; intros cidrs Hall Hnd; cbn [map parse_entries]; [by rewrite app_nil_r|].
    apply Forall_cons in Hall as [Hc Hall]. rewrite Hc. cbn [map_err mbind result_bind].
    rewrite bool_decide_false by (apply NoDup_app in Hnd; intros Hin; destruct Hnd as (_ & Hd & _); apply (Hd c Hin); left).
    cbn [refuse_if mbind result_bind]. rewrite IH by (rewrite <- ?app_assoc; done). by rewrite <- app_assoc. }
  by apply Hgen.
Qed.

Lemma scope_is_private_witness :
  exists s, parse_scope [T " 192.168.50.0/24 "; T "10.1.0.0/16"] = Ok s /\ length s = 2%nat
    /\ check_target s (ipv4 192 168 50 7) = Ok tt /\ private (ipv4 192 168 50 7) /\ covers_network s (ipv4 10 1 2 0) 24 = true.
Proof.
  eexists. split; [vm_compute; reflexivity|]. split; [reflexivity|]. split; [vm_compute; reflexivity|]. split; [|vm_compute; reflexivity].
  destruct (scope_is_private [T " 192.168.50.0/24 "; T "10.1.0.0/16"]
    [MkCidr 3232248320 24; MkCidr 167837696 16] ltac:(vm_compute; reflexivity)) as (_ & _ & Hc & _).
  apply (Hc (ipv4 192 168 50 7)); [|vm_compute; reflexivity]. unfold is_addr. vm_compute. split; [discriminate | reflexivity].
Defined.

Lemma scope_entries_round_trip_witness :
  parse_scope [T "192.168.50.0/24"; T "10.1.0.0/16"] = Ok [MkCidr 3232248320 24; MkCidr 167837696 16].
Proof.
  exact (scope_entries_round_trip [T " 192.168.50.0/24"; T "10.1.0.0 / 16"] [MkCidr 3232248320 24; MkCidr 167837696 16]
           ltac:(vm_compute; reflexivity)).
Defined.
