(* ===== verification/PublicAddr.v ===== *)
(** Which addresses the program may be sent to: [is_public_ip]
    ([server/web_policy.rs]), which every outgoing client checks its pinned DNS
    answers with.  The source tests octets and segments; [SPECIAL_V4] and
    [SPECIAL_V6] are the blocks of the special-purpose registries. *)

From S2P Require Import Prelude Text NetScope.
Local Open Scope Z_scope.

(** [std::net::IpAddr]: 32 bits, or eight segments of 16. *)
Inductive IpAddr := V4 (addr : Z) | V6 (segments : list Z).

Definition v4_is_private (b0 b1 : Z) : bool :=
  (b0 =? 10) || ((b0 =? 172) && in_range 16 31 b1) || ((b0 =? 192) && (b1 =? 168)).
Definition v4_is_documentation (b0 b1 b2 : Z) : bool :=
  ((b0 =? 192) && (b1 =? 0) && (b2 =? 2)) || ((b0 =? 198) && (b1 =? 51) && (b2 =? 100))
  || ((b0 =? 203) && (b1 =? 0) && (b2 =? 113)).

Definition is_public_v4 (addr : Z) : bool :=
  match octets addr with
  | [b0; b1; b2; _] =>
      negb (v4_is_private b0 b1
            || (b0 =? 127)
            || ((b0 =? 169) && (b1 =? 254))
            || v4_is_documentation b0 b1 b2
            || (b0 =? 0)
            || (224 <=? b0)
            || (b0 =? 100) && in_range 64 127 b1
            || (b0 =? 192) && ((b1 =? 0) && (b2 =? 0) || (b1 =? 88) && (b2 =? 99))
            || (b0 =? 198) && ((b1 =? 18) || (b1 =? 19)))
  | _ => false
  end.
Definition is_public_v6 (s : list Z) : bool :=
  let s0 := nth 0 s 0 in let s1 := nth 1 s 0 in
  (Z.land s0 57344 =? 8192)
  && negb ((s0 =? 8193) && ((s1 <? 512) || (s1 =? 3512))
           || (s0 =? 8194)
           || (s0 =? 16383) && (s1 <? 4096)).
Definition is_public_ip (ip : IpAddr) : bool :=
  match ip with V4 a => is_public_v4 a | V6 s => is_public_v6 s end.

(** *** The same, as blocks

    IANA's special-purpose blocks that are refused, and the global unicast
    block with the blocks cut out of it. *)
Definition SPECIAL_V4 : list (Z * Z) :=
  [(ipv4 0 0 0 0, 8); (ipv4 10 0 0 0, 8); (ipv4 100 64 0 0, 10); (ipv4 127 0 0 0, 8); (ipv4 169 254 0 0, 16);
   (ipv4 172 16 0 0, 12); (ipv4 192 0 0 0, 24); (ipv4 192 0 2 0, 24); (ipv4 192 88 99 0, 24); (ipv4 192 168 0 0, 16);
   (ipv4 198 18 0 0, 15); (ipv4 198 51 100 0, 24); (ipv4 203 0 113 0, 24); (ipv4 224 0 0 0, 3)].

(** Blocks of 128-bit addresses, by the first 32 bits of the network. *)
Definition SPECIAL_V6 : list (Z * Z) := [(536936448, 23); (536939960, 32); (537001984, 16); (1073676288, 20)].
Definition v6_value (s : list Z) : Z := foldl (fun acc x => acc * 65536 + x) 0 s.
Definition in_block6 (net32 p addr : Z) : Prop := addr / 2 ^ (128 - p) = net32 / 2 ^ (32 - p).
Definition is_v6 (s : list Z) : Prop := length s = 8%nat /\ Forall (fun x => 0 <= x < 65536) s.

Definition special (ip : IpAddr) : Prop :=
  match ip with
  | V4 a => exists net p, (net, p) ∈ SPECIAL_V4 /\ in_block net p a
  | V6 s => ~ in_block6 536870912 3 (v6_value s) \/ exists net p, (net, p) ∈ SPECIAL_V6 /\ in_block6 net p (v6_value s)
  end.
Definition is_ip (ip : IpAddr) : Prop := match ip with V4 a => is_addr a | V6 s => is_v6 s end.

(** ** Proofs *)

Lemma octet_of a : is_addr a -> exists b0 b1 b2 b3, octets a = [b0; b1; b2; b3] /\ a = ((b0 * 256 + b1) * 256 + b2) * 256 + b3
  /\ 0 <= b0 < 256 /\ 0 <= b1 < 256 /\ 0 <= b2 < 256 /\ 0 <= b3 < 256.
Proof.
  intros Ha. pose proof (octets_bounds a Ha) as H. pose proof (ipv4_octets a Ha) as E. unfold octets in *.
  rewrite !Forall_cons in H. destruct H as (H0 & H1 & H2 & H3 & _).
  do 4 eexists. split; [done|]. split; [|done]. rewrite <- E at 1. by apply ipv4_addr.
Qed.

(** Membership in a block of the list, as an interval. *)
Lemma special_v4_interval a : special (V4 a) <->
  Exists (fun '(net, p) => net <= a < net + size p) SPECIAL_V4.
Proof.
  rewrite Exists_exists. unfold special. split.
  - intros (net & p & Hin & H). exists (net, p). split; [done|]. apply in_block_interval; [..|done];
      unfold SPECIAL_V4 in Hin; rewrite !elem_of_cons, elem_of_nil in Hin;
      repeat destruct Hin as [[= -> ->]|Hin]; done || lia || reflexivity.
  - intros ([net p] & Hin & H). exists net, p. split; [done|]. apply in_block_interval; [..|done];
      unfold SPECIAL_V4 in Hin; rewrite !elem_of_cons, elem_of_nil in Hin;
      repeat destruct Hin as [[= -> ->]|Hin]; done || lia || reflexivity.
Qed.

Lemma public_v4_exact a : is_addr a -> (is_public_v4 a = true <-> ~ special (V4 a)).
Proof.
  intros Ha. rewrite special_v4_interval. unfold SPECIAL_V4. rewrite !Exists_cons, Exists_nil.
  rewrite !ipv4_addr by lia.
  change (size 8) with 16777216. change (size 10) with 4194304. change (size 16) with 65536. change (size 12) with 1048576.
  change (size 24) with 256. change (size 15) with 131072. change (size 3) with 536870912.
  destruct (octet_of a Ha) as (b0 & b1 & b2 & b3 & Ho & -> & H0 & H1 & H2 & H3).
  unfold is_public_v4. rewrite Ho. unfold v4_is_private, v4_is_documentation, in_range.
  rewrite negb_true_iff, <- not_true_iff_false.
  rewrite !orb_true_iff, !andb_true_iff, !orb_true_iff, !andb_true_iff, !Z.eqb_eq, !Z.leb_le.
  set (a := _ + b3) in *. assert (Ea : a = ((b0 * 256 + b1) * 256 + b2) * 256 + b3) by done. clearbody a.
  assert (E8 : forall n, ((n * 256 + 0) * 256 + 0) * 256 + 0 <= a < ((n * 256 + 0) * 256 + 0) * 256 + 0 + 16777216 <-> b0 = n) by (intros n; lia).
  assert (E16 : forall n m, 0 <= m < 256 ->
            (((n * 256 + m) * 256 + 0) * 256 + 0 <= a < ((n * 256 + m) * 256 + 0) * 256 + 0 + 65536 <-> b0 = n /\ b1 = m)) by (intros n m Hm; lia).
  assert (E24 : forall n m k, 0 <= m < 256 -> 0 <= k < 256 ->
            (((n * 256 + m) * 256 + k) * 256 + 0 <= a < ((n * 256 + m) * 256 + k) * 256 + 0 + 256 <-> (b0 = n /\ b1 = m) /\ b2 = k)) by (intros n m k Hm Hk; lia).
  assert (E100 : ((100 * 256 + 64) * 256 + 0) * 256 + 0 <= a < ((100 * 256 + 64) * 256 + 0) * 256 + 0 + 4194304 <-> b0 = 100 /\ 64 <= b1 <= 127) by lia.
  assert (E172 : ((172 * 256 + 16) * 256 + 0) * 256 + 0 <= a < ((172 * 256 + 16) * 256 + 0) * 256 + 0 + 1048576 <-> b0 = 172 /\ 16 <= b1 <= 31) by lia.
  assert (E198 : ((198 * 256 + 18) * 256 + 0) * 256 + 0 <= a < ((198 * 256 + 18) * 256 + 0) * 256 + 0 + 131072 <-> b0 = 198 /\ (b1 = 18 \/ b1 = 19)) by lia.
  assert (E224 : ((224 * 256 + 0) * 256 + 0) * 256 + 0 <= a < ((224 * 256 + 0) * 256 + 0) * 256 + 0 + 536870912 <-> 224 <= b0) by lia.
  rewrite E100, E172, E198, E224, (E8 0), (E8 10), (E8 127), !(E16 _ _) by lia.
  rewrite !(E24 _ _ _) by lia. tauto.
Qed.

Lemma div_interval x k c : 0 < k -> (x / k = c <-> c * k <= x < c * k + k).
Proof.
  intros Hk. split; [intros <-; pose proof (Z.div_mod x k); pose proof (Z.mod_pos_bound x k); lia|].
  intros H. symmetry. apply (Z.div_unique x k c (x - c * k)); lia.
Qed.

Lemma public_v6_exact s : is_v6 s -> (is_public_v6 s = true <-> ~ special (V6 s)).
Proof.
  intros [Hl Hs]. destruct s as [|s0 [|s1 [|s2 [|s3 [|s4 [|s5 [|s6 [|s7 [|]]]]]]]]]; try done. clear Hl.
  rewrite !Forall_cons in Hs. destruct Hs as (H0 & H1 & H2 & H3 & H4 & H5 & H6 & H7 & _).
  assert (Hv : forall net p, 0 <= p <= 32 -> in_block6 net p (v6_value [s0; s1; s2; s3; s4; s5; s6; s7])
                 <-> (s0 * 65536 + s1) / 2 ^ (32 - p) = net / 2 ^ (32 - p)).
  { intros net p Hp. unfold in_block6, v6_value. cbn [foldl].
    replace (2 ^ (128 - p)) with (2 ^ 96 * 2 ^ (32 - p)) by (rewrite <- Z.pow_add_r by lia; f_equal; lia).
    assert (0 < 2 ^ (32 - p)) by (apply Z.pow_pos_nonneg; lia). rewrite <- Z.div_div by lia.
    match goal with |- context [?v / 2 ^ 96] => replace (v / 2 ^ 96) with (s0 * 65536 + s1) end; [done|].
    apply (Z.div_unique _ (2 ^ 96) _ ((((((s2 * 65536) + s3) * 65536 + s4) * 65536 + s5) * 65536 + s6) * 65536 + s7)); lia. }
  assert (Hland : Z.land s0 57344 = s0 / 8192 * 8192).
  { replace (Z.land s0 57344) with (Z.land s0 (Z.shiftl 7 13)) by done.
    change 8192 with (2 ^ 13). rewrite <- Z.shiftr_div_pow2, <- Z.shiftl_mul_pow2 by lia. apply Z.bits_inj'. intros i Hi.
    rewrite Z.land_spec, !Z.shiftl_spec by lia. destruct (Z.lt_ge_cases i 13); [rewrite !(Z.testbit_neg_r _ (i - 13)) by lia; by rewrite andb_false_r|].
    rewrite Z.shiftr_spec by lia. replace (i - 13 + 13) with i by lia. change 7 with (Z.ones 3). rewrite Z.testbit_ones by lia.
    destruct (Z.lt_ge_cases i 16); [destruct (Z.leb_spec 0 (i - 13)), (Z.ltb_spec (i - 13) 3); simpl; try lia; by rewrite andb_true_r|].
    rewrite (bits_above s0 16 i) by lia. done. }
  unfold is_public_v6, special, SPECIAL_V6. cbn [nth]. rewrite Hland, Hv by lia.
  assert (Hex : (exists net p, (net, p) ∈ [(536936448, 23); (536939960, 32); (537001984, 16); (1073676288, 20)]
                  /\ in_block6 net p (v6_value [s0; s1; s2; s3; s4; s5; s6; s7]))
                <-> (s0 * 65536 + s1) / 2 ^ 9 = 536936448 / 2 ^ 9 \/ (s0 * 65536 + s1) / 2 ^ 0 = 536939960 / 2 ^ 0
                    \/ (s0 * 65536 + s1) / 2 ^ 16 = 537001984 / 2 ^ 16 \/ (s0 * 65536 + s1) / 2 ^ 12 = 1073676288 / 2 ^ 12).
  { split.
    - intros (net & p & Hin & Hb). rewrite !elem_of_cons, elem_of_nil in Hin.
      destruct Hin as [[= -> ->]|[[= -> ->]|[[= -> ->]|[[= -> ->]|[]]]]]; rewrite Hv in Hb by lia; tauto.
    - intros [Hb|[Hb|[Hb|Hb]]]; [exists 536936448, 23|exists 536939960, 32|exists 537001984, 16|exists 1073676288, 20];
        (split; [set_solver|]); rewrite Hv by lia; exact Hb. }
  rewrite Hex, andb_true_iff, negb_true_iff, <- not_true_iff_false, !orb_true_iff, !andb_true_iff, !orb_true_iff, !Z.eqb_eq, !Z.ltb_lt.
  change (2 ^ (32 - 3)) with 536870912. change (2 ^ 9) with 512. change (2 ^ 0) with 1. change (2 ^ 16) with 65536. change (2 ^ 12) with 4096.
  assert (E0 : (s0 * 65536 + s1) / 536870912 = 536870912 / 536870912 <-> s0 / 8192 * 8192 = 8192) by (
    clear - H0 H1; change 536870912 with (65536 * 8192); rewrite <- !Z.div_div by lia; rewrite Z.div_add_l, (Z.div_small s1) by lia;
    rewrite Z.add_0_r; change (65536 * 8192 / 65536 / 8192) with 1; lia).
  assert (E1 : (s0 * 65536 + s1) / 512 = 536936448 / 512 <-> s0 = 8193 /\ s1 < 512) by (clear - H0 H1; change (536936448 / 512) with 1048704; rewrite div_interval by lia; lia).
  assert (E2 : (s0 * 65536 + s1) / 1 = 536939960 / 1 <-> s0 = 8193 /\ s1 = 3512) by (clear - H0 H1; rewrite !Z.div_1_r; lia).
  assert (E3 : (s0 * 65536 + s1) / 65536 = 537001984 / 65536 <-> s0 = 8194) by (clear - H0 H1; change (537001984 / 65536) with 8194; rewrite div_interval by lia; lia).
  assert (E4 : (s0 * 65536 + s1) / 4096 = 1073676288 / 4096 <-> s0 = 16383 /\ s1 < 4096) by (clear - H0 H1; change (1073676288 / 4096) with 262128; rewrite div_interval by lia; lia).
  rewrite E0, E1, E2, E3, E4. destruct (Z.eq_dec (s0 / 8192 * 8192) 8192); tauto.
Qed.

(** An address counts as public exactly when it is outside of every
    special-purpose block: for IPv4 the private, loopback, link-local,
    carrier, documentation, benchmarking, relay, multicast and reserved blocks;
    for IPv6 inside of the global unicast block 2000::/3 and outside of the
    protocol, documentation and 6to4 blocks cut out of it. *)
Theorem public_addresses_exact (ip : IpAddr) : is_ip ip -> (is_public_ip ip = true <-> ~ special ip).
Proof. destruct ip; [apply public_v4_exact | apply public_v6_exact]. Qed.

Lemma public_addresses_exact_witness :
  is_public_ip (V4 (ipv4 100 128 0 1)) = true /\ ~ special (V4 (ipv4 100 128 0 1))
  /\ is_public_ip (V4 (ipv4 100 127 255 255)) = false
  /\ is_public_ip (V6 [9734; 18176; 18176; 0; 0; 0; 0; 4369]) = true /\ ~ special (V6 [9734; 18176; 18176; 0; 0; 0; 0; 4369]).
Proof.
  assert (H4 : is_ip (V4 (ipv4 100 128 0 1))) by (split; reflexivity || discriminate).
  assert (H6 : is_ip (V6 [9734; 18176; 18176; 0; 0; 0; 0; 4369])).
  { split; [done|]. repeat constructor; reflexivity || discriminate. }
  split; [reflexivity|]. split; [by apply (public_addresses_exact _ H4)|]. split; [reflexivity|].
  split; [reflexivity|]. by apply (public_addresses_exact _ H6).
Defined.
