(* ===== verification/WebPolicy.v ===== *)
(** The URL policy of web reading, [server/web_policy.rs]: canonical URLs,
    patterns, rules, and what a policy permits.  The policy file and the
    administrator's changes to it are in WebRules.

    The [url] crate is the class [UrlCrate]: the operations of its [Url] that
    the source calls.  [UrlLaws] states what its documentation promises of
    them, for the schemes [http] and [https] only, where the standard gives
    every URL a host and a path.  SHA-256 is a parameter. *)

From S2P Require Import Prelude Text Effects Owners NetScope PublicAddr.
Local Open Scope Z_scope.

Definition MAX_BATCH_URLS : nat := 32.
Definition MAX_URL_BYTES : Z := 2048.
Definition POLICY_BYTES_PER_RULE : Z := 4096.
Definition MIN_POLICY_BYTES : Z := 65536.
Definition max_policy_bytes (max_rules : nat) : Z := Z.max (Z.of_nat max_rules * POLICY_BYTES_PER_RULE) MIN_POLICY_BYTES.

(** ** The [url] crate *)

Inductive Host := Domain (name : text) | HostV4 (addr : Z) | HostV6 (segments : list Z).

Class UrlCrate := {
  Url : Type;
  url_parse : text -> option Url;
  scheme : Url -> text;
  username : Url -> text;
  password : Url -> option text;
  port : Url -> option Z;
  port_or_known_default : Url -> option Z;
  url_host : Url -> option Host;
  host_str : Url -> option text;
  url_path : Url -> text;
  query : Url -> option text;
  fragment : Url -> option text;
  set_fragment_none : Url -> Url;
  set_scheme : Url -> text -> option Url;
  to_string : Url -> text;
}.

(** The two schemes that the policy admits; both are special in the URL
    Standard, so that a URL has a host and a path that begins with a slash. *)
Definition is_web (sch : text) : Prop := sch = T "http" \/ sch = T "https".

(** What [Url]'s documentation, and the URL Standard that it refers to, say of
    HTTP and HTTPS URLs, where the policy relies on it. *)
Class UrlLaws (C : UrlCrate) : Prop := {
  (** [set_fragment(None)] removes the fragment and nothing else *)
  no_fragment u : fragment (set_fragment_none u) = None;
  fragment_only u :
    is_web (scheme u) ->
    scheme (set_fragment_none u) = scheme u /\ username (set_fragment_none u) = username u
    /\ password (set_fragment_none u) = password u /\ port (set_fragment_none u) = port u
    /\ url_host (set_fragment_none u) = url_host u /\ host_str (set_fragment_none u) = host_str u
    /\ url_path (set_fragment_none u) = url_path u /\ query (set_fragment_none u) = query u;
  (** the scheme of a parsed URL is the input's, in lower case *)
  parsed_scheme a b u :
    is_web (map to_ascii_lower a) -> url_parse (a ++ T "://" ++ b) = Some u -> scheme u = map to_ascii_lower a;
  (** an input without a fragment has a query exactly when a [?] occurs *)
  parsed_query s u : url_parse s = Some u -> is_web (scheme u) -> 35 ∉ s -> query u = None -> 63 ∉ s;
  (** without query and fragment, the path ends in a slash when the input does *)
  parsed_path_end s u :
    url_parse (s ++ [c_slash]) = Some u -> is_web (scheme u) -> 63 ∉ s -> 35 ∉ s -> ends_with [c_slash] (url_path u) = true;
  (** the host of a URL is an address of its kind, or a domain *)
  host_range u : match url_host u with Some (HostV4 a) => is_addr a | Some (HostV6 g) => is_v6 g | _ => True end;
}.

(** ** Canonical URLs *)

Definition to_digit_16 (c : char) : option Z :=
  if is_ascii_digit c then Some (c - 48)
  else if in_range 97 102 c then Some (c - 87)
  else if in_range 65 70 c then Some (c - 55)
  else None.
Definition hex_upper (n : Z) : char := if n <? 10 then 48 + n else 55 + n.

(** Space, percent, dot, slash, backslash. *)
Definition hides_structure (byte : Z) : bool := (byte =? 32) || (byte =? 37) || (byte =? 46) || (byte =? 47) || (byte =? 92).

(** The loop over the characters: percent escapes in upper case, refused when
    malformed or when they hide a control or, outside of a query, structure. *)
Fixpoint normalize_escapes (query : bool) (s : text) : option text :=
  match s with
  | [] => Some []
  | c :: s =>
      let query := if c =? 63 then true else if c =? 35 then false else query in
      if c =? 37 then
        match s with
        | x :: y :: s =>
            match to_digit_16 x, to_digit_16 y with
            | Some a, Some b =>
                let byte := a * 16 + b in
                if (byte <? 32) || (byte =? 127) || negb query && hides_structure byte then None
                else app [37; hex_upper a; hex_upper b] <$> normalize_escapes query s
            | _, _ => None
            end
        | _ => None
        end
      else cons c <$> normalize_escapes query s
  end.

(** The text before the first character with [f]. *)
Fixpoint before (f : char -> bool) (s : text) : text :=
  match s with
  | [] => []
  | c :: s => if f c then [] else c :: before f s
  end.

Definition bad_url : harness_error := err_code "WEB_BAD_URL".
Definition ssrf_denied : harness_error := err_code "WEB_SSRF_DENIED".
Definition policy_invalid : harness_error := err_code "WEB_POLICY_INVALID".

Definition LOCAL_NAMES : list text :=
  [T "localhost"; T "local"; T "internal"; T "localhost.localdomain"; T "metadata.goog"].
Definition local_name (host : text) : bool :=
  existsb (fun suffix => teqb host suffix || ends_with (c_dot :: suffix) host) LOCAL_NAMES.

Definition ends_authority (c : char) : bool := (c =? c_slash) || (c =? 63) || (c =? 35).
Definition ends_path (c : char) : bool := (c =? 63) || (c =? 35).

Section Policy.
Context {UC : UrlCrate}.

Definition refused_host (u : Url) : bool :=
  match url_host u with
  | Some (HostV4 ip) => negb (is_public_v4 ip)
  | Some (HostV6 s) => negb (is_public_v6 s)
  | Some (Domain host) => negb (contains [c_dot] host) || local_name host
  | None => false
  end.

Definition canonical_http_url (raw : text) (admit_private : bool) : result harness_error Url :=
  let s := trim raw in
  _ ← refuse_if (bool_decide (s = []) || (MAX_URL_BYTES <? byte_len s)
                 || existsb (fun c => is_control c || is_whitespace c) s
                 || existsb (fun c => (c =? c_backslash) || (c =? 42)) s) bad_url;
  '(sch, rest) ← ok_or (split_once (T "://") s) bad_url;
  let lower := map to_ascii_lower sch in
  _ ← refuse_if (negb (teqb lower (T "http") || teqb lower (T "https")) || starts_with [c_slash] rest) bad_url;
  let authority := before ends_authority rest in
  _ ← refuse_if (existsb (fun c => (c =? 64) || (c =? 37)) authority || bool_decide (authority = [])
                 || ends_with [c_colon] authority) bad_url;
  let path := before ends_path (from_option id [] (strip_prefix authority rest)) in
  _ ← refuse_if (existsb (fun seg => teqb seg (T ".") || teqb seg (T "..")) (split_on c_slash path)) bad_url;
  normalized ← ok_or (normalize_escapes false s) bad_url;
  url ← ok_or (url_parse normalized) bad_url;
  _ ← refuse_if (negb (bool_decide (username url = [])) || bool_decide (is_Some (password url)) || bool_decide (port url = Some 0)) bad_url;
  host ← ok_or (host_str url) bad_url;
  _ ← refuse_if (ends_with [c_dot] host || contains (T "..") host) bad_url;
  _ ← refuse_if (negb admit_private && refused_host url) ssrf_denied;
  _ ← refuse_if (match url_host url with
                 | Some (HostV4 ip) => negb (teqb (before (fun c => c =? c_colon) authority) (show_ipv4 ip))
                 | _ => false
                 end) bad_url;
  mret (set_fragment_none url).

Definition canonical_url (raw : text) : result harness_error Url := canonical_http_url raw false.

(** ** Patterns *)

Definition valid_group (group : text) : bool :=
  negb (bool_decide (group = [])) && (byte_len group <=? 48)
  && forallb (fun c => is_ascii_alphanumeric c || (c =? c_dash) || (c =? 95)) group.

Record Pattern := MkPattern { url : Url; subdomains : bool; subtree : bool }.

Definition parse_pattern (raw : text) : result harness_error Pattern :=
  let raw := trim raw in
  '(sch, rest) ← ok_or (split_once (T "://") raw) bad_url;
  let subdomains := starts_with (T "*.") rest in
  let rest := from_option id rest (strip_prefix (T "*.") rest) in
  let subtree := ends_with (T "/*") rest in
  let rest := if subtree then take (length rest - 1) rest else rest in
  u ← canonical_url (sch ++ T "://" ++ rest);
  _ ← refuse_if ((subdomains || subtree) && (bool_decide (is_Some (query u)) || contains [35] raw)) bad_url;
  _ ← refuse_if (subdomains && negb match url_host u with Some (Domain d) => contains [c_dot] d | _ => false end) bad_url;
  mret (MkPattern u subdomains subtree).

(** [url.insert_str(url.find("://").unwrap() + 3, "*.")]; a serialised URL
    with a host has a [://]. *)
Definition insert_wildcard (s : text) : text :=
  match find_sub (T "://") s with
  | Some n => take (n + 3) s ++ T "*." ++ drop (n + 3) s
  | None => s
  end.
Definition rendered (p : Pattern) : text :=
  let s := to_string (url p) in
  let s := if subdomains p then insert_wildcard s else s in
  if subtree p then s ++ T "*" else s.

Definition permits_host (p : Pattern) (target : Url) : bool :=
  if negb (teqb (scheme (url p)) (scheme target))
     || negb (bool_decide (port_or_known_default (url p) = port_or_known_default target)) then false
  else
    let host := from_option id [] (host_str target) in
    let allowed_host := from_option id [] (host_str (url p)) in
    if subdomains p then negb (teqb host allowed_host) && ends_with (c_dot :: allowed_host) host
    else teqb host allowed_host.

Definition pattern_permits (p : Pattern) (target : Url) : bool :=
  permits_host p target
  && (if subtree p then starts_with (url_path (url p)) (url_path target)
      else teqb (url_path target) (url_path (url p)) && bool_decide (query target = query (url p))).

(** ** Rules *)

Record Rule := MkRule { rule_id : text; pattern : text; group : text; seeds : list text }.
#[global] Instance Rule_eq_dec : EqDecision Rule.
Proof. solve_decision. Defined.

Fixpoint validate_seeds (p : Pattern) (seeds : list text) : result harness_error unit :=
  match seeds with
  | [] => Ok tt
  | seed :: seeds =>
      u ← canonical_url seed;
      _ ← refuse_if (negb (pattern_permits p u)) policy_invalid;
      validate_seeds p seeds
  end.
Definition validate_rule (r : Rule) : result harness_error unit :=
  _ ← refuse_if (negb (byte_len (rule_id r) =? 32) || negb (forallb is_hex_char (rule_id r))
                 || negb (valid_group (group r)) || (16 <? length (seeds r))%nat) policy_invalid;
  p ← parse_pattern (pattern r);
  validate_seeds p (seeds r).

Context (sha256_hex : text -> text).

Definition new_rule (raw grp : text) (sds : list text) : result harness_error Rule :=
  parsed ← parse_pattern raw;
  let pat := rendered parsed in
  let rule := MkRule (take 32 (sha256_hex (grp ++ [c_newline] ++ pat))) pat grp sds in
  _ ← validate_rule rule;
  mret rule.

Definition rule_permits (r : Rule) (target : Url) : bool :=
  match parse_pattern (pattern r) with Ok p => pattern_permits p target | Err _ => false end.

Definition start_urls (r : Rule) : list text :=
  if negb (bool_decide (seeds r = [])) then seeds r
  else match parse_pattern (pattern r) with
       | Ok p => if subdomains p then [] else [to_string (url p)]
       | Err _ => []
       end.

(** ** The policy *)

Inductive Mode := Allowlist | Denylist.
#[global] Instance Mode_eq_dec : EqDecision Mode.
Proof. solve_decision. Defined.

Definition BLOCKED_GROUP : text := T "blocked".

Record Policy := MkPolicy { version : Z; rules : list Rule; mode : Mode; blocked : list Rule; revision : text }.

Definition empty_policy : Policy := MkPolicy 1 [] Allowlist [] [].
Definition refuses_all (p : Policy) : bool := bool_decide (mode p = Allowlist) && bool_decide (rules p = []).

(** The same target over the other of HTTP and HTTPS. *)
Definition other_scheme (target : Url) : option Url :=
  if teqb (scheme target) (T "https") then set_scheme target (T "http")
  else if teqb (scheme target) (T "http") then set_scheme target (T "https")
  else None.
Definition blocks (p : Policy) (target : Url) : bool :=
  existsb (fun r => rule_permits r target
                    || match other_scheme target with Some other => rule_permits r other | None => false end) (blocked p).

Definition block_rule (raw : text) : result harness_error Rule := new_rule raw BLOCKED_GROUP [].

(** [group.is_none_or(|g| r.group == g)] *)
Definition in_group (g : option text) (r : Rule) : bool :=
  match g with Some g => teqb (group r) g | None => true end.

Definition permits (p : Policy) (target : Url) (g : option text) : bool :=
  if blocks p target then false
  else if bool_decide (mode p = Denylist) && bool_decide (g = None) then true
  else existsb (fun r => in_group g r && rule_permits r target) (rules p).

Definition authorize (p : Policy) (raw : text) (g : option text) : result harness_error Url :=
  target ← canonical_url raw;
  _ ← refuse_if (blocks p target) (err_code "WEB_BLOCKED");
  _ ← refuse_if (negb (permits p target g)) (err_code "WEB_HOST_DENIED");
  mret target.

Definition covers_origin (r : Rule) (target : Url) : bool :=
  match parse_pattern (pattern r) with Ok p => permits_host p target | Err _ => false end.
Definition authorize_robots (p : Policy) (raw : text) (g : option text) : result harness_error Url :=
  target ← canonical_url raw;
  let covered :=
    teqb (url_path target) (T "/robots.txt") && bool_decide (query target = None) && negb (blocks p target)
    && (bool_decide (mode p = Denylist) && bool_decide (g = None)
        || existsb (fun r => in_group g r && covers_origin r target) (rules p)) in
  _ ← refuse_if (negb covered) (err_code "WEB_HOST_DENIED");
  mret target.

Definition authorize_read (p : Policy) (raw : text) (g : option text) : result harness_error Url :=
  match authorize p raw g with Ok u => Ok u | Err _ => authorize_robots p raw g end.
End Policy.

(** ** Escapes *)

(** Whether a position is in the query, after the characters before it. *)
Definition query_step (q : bool) (c : char) : bool := if c =? 63 then true else if c =? 35 then false else q.
Definition in_query (q : bool) (s : text) : bool := foldl query_step q s.

Lemma hex_upper_digit n : 0 <= n < 16 -> to_digit_16 (hex_upper n) = Some n.
Proof.
  intros Hn. unfold hex_upper, to_digit_16, is_ascii_digit, in_range. destruct (Z.ltb_spec n 10).
  - destruct (Z.leb_spec 48 (48 + n)), (Z.leb_spec (48 + n) 57); simpl; try lia. f_equal. lia.
  - destruct (Z.leb_spec 48 (55 + n)), (Z.leb_spec (55 + n) 57), (Z.leb_spec 97 (55 + n)), (Z.leb_spec (55 + n) 102),
      (Z.leb_spec 65 (55 + n)), (Z.leb_spec (55 + n) 70); simpl; try lia; f_equal; lia.
Qed.

Lemma to_digit_16_bound c n : to_digit_16 c = Some n -> 0 <= n < 16 /\ c <> 47.
Proof.
  unfold to_digit_16, is_ascii_digit, in_range. intros H. repeat case_match; simplify_eq; guards; lia.
Qed.

Lemma query_step_hex q n : 0 <= n < 16 -> query_step q (hex_upper n) = q.
Proof.
  intros Hn. unfold query_step, hex_upper. destruct (Z.ltb_spec n 10);
    repeat (case_match; guards; [lia|]); done.
Qed.

(** One step of the loop, and induction along it. *)
Lemma normalize_cons q c s : c <> 37 -> normalize_escapes q (c :: s) = cons c <$> normalize_escapes (query_step q c) s.
Proof. intros H. simpl. by rewrite (proj2 (Z.eqb_neq _ _) H). Qed.

Lemma normalize_escape q x y s a b :
  to_digit_16 x = Some a -> to_digit_16 y = Some b ->
  (a * 16 + b <? 32) || (a * 16 + b =? 127) || negb q && hides_structure (a * 16 + b) = false ->
  normalize_escapes q (37 :: x :: y :: s) = app [37; hex_upper a; hex_upper b] <$> normalize_escapes q s.
Proof. intros Hx Hy H. simpl. by rewrite Hx, Hy, H. Qed.

Lemma normalize_ind (P : bool -> text -> text -> Prop) :
  (forall q, P q [] []) ->
  (forall q c s n, c <> 37 -> normalize_escapes (query_step q c) s = Some n -> P (query_step q c) s n -> P q (c :: s) (c :: n)) ->
  (forall q x y s n a b, to_digit_16 x = Some a -> to_digit_16 y = Some b ->
     (a * 16 + b <? 32) || (a * 16 + b =? 127) || negb q && hides_structure (a * 16 + b) = false ->
     normalize_escapes q s = Some n -> P q s n -> P q (37 :: x :: y :: s) (37 :: hex_upper a :: hex_upper b :: n)) ->
  forall q s n, normalize_escapes q s = Some n -> P q s n.
Proof.
  intros H0 H1 H2 q s. remember (length s) as k eqn:Hk. revert q s Hk.
  induction (lt_wf k) as [k _ IH]. intros q s -> n H. destruct s as [|c s]; [by injection H as <-|].
  destruct (Z.eq_dec c 37) as [->|Hc].
  - destruct s as [|x [|y s]]; [done..|]. simpl in H.
    destruct (to_digit_16 x) as [a|] eqn:Hx; [|done]. destruct (to_digit_16 y) as [b|] eqn:Hy; [|done].
    destruct (_ || _) eqn:Hb in H; [done|]. destruct (normalize_escapes q s) as [n'|] eqn:Hn; [|done].
    injection H as <-. apply H2; [done..|]. apply (IH (length s)); [simpl; lia | done | done].
  - rewrite normalize_cons in H by done. destruct (normalize_escapes (query_step q c) s) as [n'|] eqn:Hn; [|done].
    injection H as <-. apply H1; [done..|]. apply (IH (length s)); [simpl; lia | done | done].
Qed.

Lemma normalize_idempotent_aux q s n : normalize_escapes q s = Some n -> normalize_escapes q n = Some n.
Proof.
  revert q s n. apply normalize_ind.
  - done.
  - intros q c s n Hc _ IH. rewrite normalize_cons by done. by rewrite IH.
  - intros q x y s n a b Hx Hy Hb _ IH. apply to_digit_16_bound in Hx as [Ha _], Hy as [Hb' _].
    rewrite (normalize_escape q _ _ n a b); [by rewrite IH | by apply hex_upper_digit.. | done].
Qed.

(** Every percent sign of an accepted text is an escape in upper case of a
    byte that is no control and, outside of the query, no structure. *)
Definition sound_escape (q : bool) (rest : text) : Prop :=
  exists a b rest', 0 <= a < 16 /\ 0 <= b < 16 /\ rest = hex_upper a :: hex_upper b :: rest'
    /\ 32 <= a * 16 + b /\ a * 16 + b <> 127 /\ (q = false -> hides_structure (a * 16 + b) = false).

Lemma normalize_escapes_sound q s n : normalize_escapes q s = Some n ->
  forall l r, n = l ++ 37 :: r -> sound_escape (in_query q l) r.
Proof.
  revert q s n. apply (normalize_ind (fun q s n => forall l r, n = l ++ 37 :: r -> sound_escape (in_query q l) r)).
  - intros q [|] r; done.
  - intros q c s n Hc _ IH [|x l] r H; simplify_eq/=. by apply IH.
  - intros q x y s n a b Hx Hy Hok _ IH l r H. apply to_digit_16_bound in Hx as [Ha _], Hy as [Hb _].
    apply orb_false_iff in Hok as [[H1%Z.ltb_ge H2%Z.eqb_neq]%orb_false_iff H3].
    destruct l as [|p [|p1 [|p2 l]]]; simplify_eq/=.
    + exists a, b, n. repeat split; try lia. intros Hq. unfold in_query in Hq. simpl in Hq. subst q. done.
    + exfalso. unfold hex_upper in *. destruct (Z.ltb_spec a 10); lia.
    + exfalso. unfold hex_upper in *. destruct (Z.ltb_spec b 10); lia.
    + unfold in_query in *. simpl. rewrite !query_step_hex by done. by apply IH.
Qed.

(** Two spellings that differ only in the case of hex digits. *)
Inductive same_escapes : text -> text -> Prop :=
| se_nil : same_escapes [] []
| se_char c s s' : c <> 37 -> same_escapes s s' -> same_escapes (c :: s) (c :: s')
| se_escape x y x' y' s s' : to_digit_16 x = to_digit_16 x' -> to_digit_16 y = to_digit_16 y' ->
    same_escapes s s' -> same_escapes (37 :: x :: y :: s) (37 :: x' :: y' :: s').

Lemma normalize_same s s' : same_escapes s s' -> forall q, normalize_escapes q s = normalize_escapes q s'.
Proof.
  induction 1 as [|c s s' Hc _ IH|x y x' y' s s' Hx Hy _ IH]; intros q; [done|..].
  - rewrite !normalize_cons by done. by rewrite IH.
  - simpl. rewrite Hx, Hy. destruct (to_digit_16 x'), (to_digit_16 y'); try done. by rewrite IH.
Qed.

Lemma normalize_plain a q b n : 37 ∉ a -> normalize_escapes q (a ++ b) = Some n ->
  exists n', n = a ++ n' /\ normalize_escapes (in_query q a) b = Some n'.
Proof.
  revert q n. induction a as [|c a IH]; intros q n Ha H; [by exists n|].
  apply not_elem_of_cons in Ha as [Hc Ha]. simpl app in H. rewrite normalize_cons in H by done.
  destruct (normalize_escapes _ (a ++ b)) as [m|] eqn:E; [|done]. injection H as <-.
  destruct (IH _ _ Ha E) as (n' & -> & Hn). by exists n'.
Qed.

(** A character that is no hex digit and no percent sign stays, and no other
    such character appears. *)
Lemma normalize_elem q s n c : normalize_escapes q s = Some n -> c = 63 \/ c = 35 -> c ∈ n -> c ∈ s.
Proof.
  revert q s n. apply (normalize_ind (fun q s n => c = 63 \/ c = 35 -> c ∈ n -> c ∈ s)).
  - done.
  - intros q x s n _ _ IH Hc. rewrite !elem_of_cons. intuition.
  - intros q x y s n a b Hx Hy _ _ IH Hc H. apply to_digit_16_bound in Hx as [Ha _], Hy as [Hb _].
    rewrite !elem_of_cons in H |- *. unfold hex_upper in H.
    destruct H as [->|[->|[->|H]]]; [lia | destruct (Z.ltb_spec a 10); lia | destruct (Z.ltb_spec b 10); lia |].
    right. right. right. by apply IH.
Qed.

Lemma normalize_ends_slash q s n : normalize_escapes q s = Some n ->
  forall s', s = s' ++ [c_slash] -> exists n', n = n' ++ [c_slash].
Proof.
  revert q s n. apply (normalize_ind (fun q s n => forall s', s = s' ++ [c_slash] -> exists n', n = n' ++ [c_slash])).
  - intros q [|] H; done.
  - intros q c s n _ Hn IH [|x s'] H; simplify_eq/=.
    + by exists [].
    + destruct (IH s' eq_refl) as [n' ->]. by eexists (_ :: n').
  - intros q x y s n a b Hx Hy _ Hn IH [|p [|p1 [|p2 s']]] H; simplify_eq/=.
    destruct (IH s' eq_refl) as [n' ->]. by exists (37 :: hex_upper a :: hex_upper b :: n').
Qed.

Lemma lower_alphabetic c : is_ascii_lower (to_ascii_lower c) = true -> is_ascii_alphabetic c = true.
Proof.
  unfold to_ascii_lower, is_ascii_alphabetic. destruct (is_ascii_upper c) eqn:E; [by rewrite orb_true_r|]. intros ->. done.
Qed.

Lemma http_alphabetic a : map to_ascii_lower a = T "http" \/ map to_ascii_lower a = T "https" ->
  Forall (fun c => is_ascii_alphabetic c = true) a.
Proof.
  intros H. assert (Hl : Forall (fun c => is_ascii_lower c = true) (map to_ascii_lower a)).
  { destruct H as [-> | ->]; repeat constructor. }
  apply Forall_map in Hl. eapply Forall_impl; [exact Hl|]. intros c. apply lower_alphabetic.
Qed.

Lemma alphabetic_not c a x : Forall (fun c => is_ascii_alphabetic c = true) a -> is_ascii_alphabetic x = false -> c = x -> c ∉ a.
Proof. intros H Hx -> Hin. rewrite Forall_forall in H. rewrite (H _ Hin) in Hx. done. Qed.

Lemma ends_with_snoc c s : ends_with [c] s = true <-> exists s', s = s' ++ [c].
Proof. rewrite ends_with_spec. done. Qed.

Lemma trim_start_ends c s : is_whitespace c = false -> exists s', trim_start is_whitespace (s ++ [c]) = s' ++ [c].
Proof.
  intros Hc. induction s as [|x s [s' IH]]; simpl; [rewrite Hc; by exists []|].
  destruct (is_whitespace x); [by exists s' | by exists (x :: s)].
Qed.

Lemma trim_ends c s : is_whitespace c = false -> exists s', trim (s ++ [c]) = s' ++ [c].
Proof.
  intros Hc. unfold trim. destruct (trim_start_ends c s Hc) as [s' ->]. exists s'. by apply trim_end_snoc_id.
Qed.

Lemma trim_start_elem f s c : c ∈ trim_start f s -> c ∈ s.
Proof. induction s as [|x s IH]; simpl; [done|]. destruct (f x); [|done]. intros H. right. by apply IH. Qed.
Lemma trim_elem s c : c ∈ trim s -> c ∈ s.
Proof.
  unfold trim, trim_end. intros H. apply list_elem_of_In, in_rev, list_elem_of_In, trim_start_elem in H.
  apply list_elem_of_In, in_rev, list_elem_of_In, trim_start_elem in H. done.
Qed.

(** Percent escapes of an accepted URL have one spelling and hide nothing:
    normalising is idempotent, texts that differ only in the case of hex digits
    get the same result, and every percent sign of the result starts an upper
    case escape of a byte that is no control and, outside of the query, no
    dot, slash, backslash, space or percent sign. *)
Theorem canonical_escapes (q : bool) (s n : text) :
  normalize_escapes q s = Some n ->
  normalize_escapes q n = Some n
  /\ (forall s', same_escapes s s' -> normalize_escapes q s' = Some n)
  /\ (forall l r, n = l ++ 37 :: r -> sound_escape (in_query q l) r).
Proof.
  intros H. split; [by eapply normalize_idempotent_aux|]. split.
  - intros s' Hs. by rewrite <- (normalize_same s s' Hs).
  - by eapply normalize_escapes_sound.
Qed.

Lemma canonical_escapes_witness :
  normalize_escapes false (T "/a%c3%A9?q=%2f") = Some (T "/a%C3%A9?q=%2F")
  /\ normalize_escapes false (T "/a%C3%A9?q=%2F") = Some (T "/a%C3%A9?q=%2F")
  /\ normalize_escapes false (T "/a%2fb") = None.
Proof.
  split; [reflexivity|]. split; [|reflexivity].
  exact (proj1 (canonical_escapes false (T "/a%c3%A9?q=%2f") (T "/a%C3%A9?q=%2F") eq_refl)).
Defined.

(** ** What is permitted *)

Section Proofs.
Context {UC : UrlCrate} {UL : UrlLaws UC}.

(** What a canonical URL is. *)
Record safe_url (u : Url) : Prop := {
  su_scheme : is_web (scheme u);
  su_user : username u = [] /\ password u = None;
  su_port : port u <> Some 0;
  su_fragment : fragment u = None;
  su_host : exists h, host_str u = Some h /\ ends_with [c_dot] h = false /\ contains (T "..") h = false;
}.
(** The host is a public address, or a dotted name outside of the local ones. *)
Definition public_host (u : Url) : Prop :=
  match url_host u with
  | Some (HostV4 a) => ~ special (V4 a)
  | Some (HostV6 g) => ~ special (V6 g)
  | Some (Domain d) => contains [c_dot] d = true /\ forall l, l ∈ LOCAL_NAMES -> d <> l /\ forall w, d <> w ++ c_dot :: l
  | None => True
  end.

Lemma refused_host_public u : refused_host u = false -> public_host u.
Proof.
  unfold refused_host, public_host. pose proof (host_range u) as Hr. destruct (url_host u) as [[d|a|g]|]; [..|done].
  - intros [H1%negb_false_iff H2]%orb_false_iff. split; [done|]. intros l Hl.
    unfold local_name in H2. rewrite <- not_true_iff_false, existsb_exists in H2.
    split; [intros -> | intros w ->]; apply H2; exists l; (split; [by apply list_elem_of_In|]).
    + by rewrite teqb_refl.
    + apply orb_true_iff. right. apply ends_with_spec. by exists w.
  - intros H%negb_false_iff. by apply (public_v4_exact a).
  - intros H%negb_false_iff. by apply (public_v6_exact g).
Qed.

(** The text that was parsed, and the checks it passed. *)
Lemma canonical_inv raw ap u : canonical_http_url raw ap = Ok u ->
  exists n v, normalize_escapes false (trim raw) = Some n /\ url_parse n = Some v /\ u = set_fragment_none v /\ is_web (scheme v)
    /\ username v = [] /\ password v = None /\ port v <> Some 0
    /\ (exists h, host_str v = Some h /\ ends_with [c_dot] h = false /\ contains (T "..") h = false)
    /\ (ap = false -> refused_host v = false).
Proof.
  unfold canonical_http_url. intros H.
  apply bind_Ok_inv in H as ([] & _ & H). apply bind_Ok_inv in H as ([a b] & Hs & H). apply ok_or_Ok in Hs.
  apply bind_Ok_inv in H as ([] & Hsch & H). apply refuse_if_Ok, orb_false_iff in Hsch as [Hsch _].
  apply bind_Ok_inv in H as ([] & _ & H). apply bind_Ok_inv in H as ([] & _ & H).
  apply bind_Ok_inv in H as (n & Hn & H). apply ok_or_Ok in Hn.
  apply bind_Ok_inv in H as (v & Hv & H). apply ok_or_Ok in Hv.
  apply bind_Ok_inv in H as ([] & Hu & H). apply refuse_if_Ok, orb_false_iff in Hu as [Hu Hp].
  apply orb_false_iff in Hu as [Hu Hpw]. apply negb_false_iff, bool_decide_eq_true in Hu.
  apply bool_decide_eq_false in Hpw, Hp.
  apply bind_Ok_inv in H as (h & Hh & H). apply ok_or_Ok in Hh.
  apply bind_Ok_inv in H as ([] & Hd & H). apply refuse_if_Ok, orb_false_iff in Hd as [Hd1 Hd2].
  apply bind_Ok_inv in H as ([] & Hr & H). apply refuse_if_Ok in Hr.
  apply bind_Ok_inv in H as ([] & _ & H). apply Ok_inj in H. subst u.
  apply split_once_spec in Hs. assert (Ha : is_web (map to_ascii_lower a)).
  { apply negb_false_iff, orb_true_iff in Hsch as [E|E]; apply teqb_eq in E; [by left | by right]. }
  exists n, v. split; [done|]. split; [done|]. split; [done|]. split.
  { pose proof (http_alphabetic a Ha) as Hal. rewrite Hs in Hn.
    apply normalize_plain in Hn as (n' & -> & Hn); [|by eapply alphabetic_not; [exact Hal | |reflexivity]].
    apply normalize_plain in Hn as (n'' & -> & _); [|exact (bool_decide_unpack (37 ∉ T "://") I)].
    by rewrite (parsed_scheme _ _ _ Ha Hv). }
  repeat split; try done.
  - destruct (password v); [|done]. destruct Hpw. eauto.
  - by exists h.
  - intros ->. done.
Qed.

Lemma canonical_safe_aux raw ap u : canonical_http_url raw ap = Ok u -> safe_url u /\ (ap = false -> public_host u).
Proof.
  intros (n & v & Hn & Hv & -> & Hw & Hu & Hpw & Hp & Hh & Hr)%canonical_inv.
  destruct (fragment_only v Hw) as (Es & Eu & Epw & Ep & Eh & Ehs & _ & _). split; [constructor|].
  - by rewrite Es.
  - by rewrite Eu, Epw.
  - by rewrite Ep.
  - apply no_fragment.
  - by rewrite Ehs.
  - intros Hap. unfold public_host. rewrite Eh. by apply refused_host_public, Hr.
Qed.

(** A subtree pattern's path ends in a slash. *)
Lemma subtree_slash raw p : parse_pattern raw = Ok p -> subtree p = true -> ends_with [c_slash] (url_path (url p)) = true.
Proof.
  unfold parse_pattern. intros H Hst. apply bind_Ok_inv in H as ([sch rest] & Hs & H). apply ok_or_Ok, split_once_spec in Hs.
  apply bind_Ok_inv in H as (u & Hu & H). apply bind_Ok_inv in H as ([] & H1 & H). apply bind_Ok_inv in H as ([] & _ & H).
  apply Ok_inj in H. subst p. cbn [subtree url] in *. rewrite Hst, orb_true_r in H1. cbn [andb] in H1.
  apply refuse_if_Ok, orb_false_iff in H1 as [Hq Hf]. apply bool_decide_eq_false in Hq. rewrite Hst in Hu.
  set (body := from_option id rest (strip_prefix (T "*.") rest)) in *.
  assert (Hsub : forall c, c ∈ body -> c ∈ trim raw).
  { intros c Hc. rewrite Hs, !elem_of_app. right. right. unfold body in Hc.
    destruct (strip_prefix (T "*.") rest) as [r|] eqn:E; [|exact Hc]. apply strip_prefix_spec in E as ->. apply elem_of_app. by right. }
  clearbody body. apply ends_with_spec in Hst as [w Hw]. rewrite Hw in *.
  assert (Hrest : take (length (w ++ T "/*") - 1) (w ++ T "/*") = w ++ [c_slash]).
  { rewrite length_app, take_app. change (length (T "/*")) with 2%nat.
    rewrite take_ge by lia. by replace (length w + 2 - 1 - length w)%nat with 1%nat by lia. }
  rewrite Hrest, !app_assoc in Hu. clear Hrest.
  apply canonical_inv in Hu as (n & v & Hn & Hv & -> & Hweb & _).
  destruct (fragment_only v Hweb) as (_ & _ & _ & _ & _ & _ & Ep & Eq). rewrite Ep. rewrite Eq in Hq.
  destruct (trim_ends c_slash ((sch ++ T "://") ++ w) eq_refl) as [s' Hs']. rewrite Hs' in Hn.
  destruct (normalize_ends_slash _ _ _ Hn _ eq_refl) as [n' ->].
  assert (Hno : 35 ∉ n' ++ [c_slash]).
  { intros Hin. apply (normalize_elem _ _ _ _ Hn) in Hin; [|by right]. rewrite <- Hs' in Hin. apply trim_elem in Hin.
    rewrite <- app_assoc, !elem_of_app in Hin.
    assert (Hc : contains [35] (trim raw) = true); [|congruence]. apply contains_spec.
    assert (35 ∈ trim raw) as (l1 & l2 & ->)%list_elem_of_split; [|by exists l1, l2].
    rewrite Hs in *. destruct Hin as [[Hin|Hin]|[Hin|Hin]].
    - rewrite !elem_of_app. by left.
    - rewrite !elem_of_app. right. by left.
    - apply Hsub. rewrite elem_of_app. by left.
    - by apply list_elem_of_singleton in Hin. }
  apply not_elem_of_app in Hno as [Hno _].
  apply (parsed_path_end n'); [done | done | | done].
  assert (Hq' : query v = None) by (destruct (query v); [destruct Hq; eauto | done]).
  assert (H63 : 63 ∉ n' ++ [c_slash]).
  { apply (parsed_query _ _ Hv Hweb); [|done]. apply not_elem_of_app. split; [done|]. by rewrite list_elem_of_singleton. }
  by apply not_elem_of_app in H63 as [H63 _].
Qed.

(** ** What a pattern and a policy permit *)

Definition host_within (p : Pattern) (target : Url) : Prop :=
  let host := from_option id [] (host_str target) in
  let allowed := from_option id [] (host_str (url p)) in
  if subdomains p then exists label, host = label ++ c_dot :: allowed else host = allowed.
Definition resource_within (p : Pattern) (target : Url) : Prop :=
  if subtree p then exists rest, url_path target = url_path (url p) ++ rest
  else url_path target = url_path (url p) /\ query target = query (url p).
Definition origin_within (p : Pattern) (target : Url) : Prop :=
  scheme target = scheme (url p) /\ port_or_known_default target = port_or_known_default (url p) /\ host_within p target.

Lemma permits_host_exact p target : permits_host p target = true <-> origin_within p target.
Proof.
  unfold permits_host, origin_within, host_within.
  destruct (teqb (scheme (url p)) (scheme target)) eqn:E1; simpl; [apply teqb_eq in E1 | apply teqb_neq in E1; split; [done|]; intros (? & _); congruence].
  destruct (bool_decide (port_or_known_default (url p) = port_or_known_default target)) eqn:E2; simpl;
    [apply bool_decide_eq_true in E2 | apply bool_decide_eq_false in E2; split; [done|]; intros (_ & ? & _); congruence].
  destruct (subdomains p).
  - rewrite andb_true_iff, negb_true_iff, teqb_neq, ends_with_spec. split; [by intros [_ H]|].
    intros (_ & _ & w & Hw). split; [|by exists w]. rewrite Hw. intros H%(f_equal length). rewrite length_app in H. simpl in H. lia.
  - rewrite teqb_eq. split; [auto | tauto].
Qed.

Lemma pattern_permits_exact p target : pattern_permits p target = true <-> origin_within p target /\ resource_within p target.
Proof.
  unfold pattern_permits, resource_within. rewrite andb_true_iff, permits_host_exact. destruct (subtree p).
  - by rewrite starts_with_spec.
  - by rewrite andb_true_iff, teqb_eq, bool_decide_eq_true.
Qed.

(** A rule grants its origin, and its resources when [content] is asked for. *)
Definition rule_grants (content : bool) (r : Rule) (target : Url) : Prop :=
  exists p, parse_pattern (pattern r) = Ok p /\ origin_within p target
    /\ (content = true -> resource_within p target
                          /\ (subtree p = true -> ends_with [c_slash] (url_path (url p)) = true)).

Lemma rule_permits_exact r target : rule_permits r target = true <-> rule_grants true r target.
Proof.
  unfold rule_permits, rule_grants. destruct (parse_pattern (pattern r)) as [p|e] eqn:E.
  - rewrite pattern_permits_exact. split.
    + intros [Ho Hr]. exists p. split; [done|]. split; [done|]. intros _. split; [done|]. by apply (subtree_slash (pattern r)).
    + intros (p' & [= <-] & Ho & Hr). split; [done | by apply Hr].
  - split; [done | by intros (p & ? & _)].
Qed.

Lemma covers_origin_exact r target : covers_origin r target = true <-> rule_grants false r target.
Proof.
  unfold covers_origin, rule_grants. destruct (parse_pattern (pattern r)) as [p|e] eqn:E.
  - rewrite permits_host_exact. split; [by exists p | by intros (p' & [= <-] & ? & _)].
  - split; [done | by intros (p & ? & _)].
Qed.

Definition unblocked (p : Policy) (target : Url) : Prop :=
  forall r, r ∈ blocked p -> ~ rule_grants true r target
    /\ forall other, other_scheme target = Some other -> ~ rule_grants true r other.

Lemma blocks_exact p target : blocks p target = false <-> unblocked p target.
Proof.
  unfold blocks, unblocked. rewrite <- not_true_iff_false, existsb_exists. setoid_rewrite <- rule_permits_exact. split.
  - intros H r Hr. split; [|intros other Ho]; intros Hp; apply H; exists r; (split; [by apply list_elem_of_In|]).
    + by rewrite Hp.
    + rewrite Ho, Hp. apply orb_true_r.
  - intros H (r & Hr%list_elem_of_In & Hp). destruct (H r Hr) as [H1 H2]. apply orb_true_iff in Hp as [Hp|Hp]; [done|].
    destruct (other_scheme target) as [o|]; [|done]. by apply (H2 o).
Qed.

Definition granted (content : bool) (p : Policy) (g : option text) (target : Url) : Prop :=
  (mode p = Denylist /\ g = None)
  \/ exists r, r ∈ rules p /\ (forall name, g = Some name -> group r = name) /\ rule_grants content r target.

Lemma in_group_exact g r : in_group g r = true <-> forall name, g = Some name -> group r = name.
Proof. unfold in_group. destruct g; [rewrite teqb_eq; naive_solver | naive_solver]. Qed.

Lemma granted_reflect (f : Rule -> Url -> bool) content p g target :
  (forall r, f r target = true <-> rule_grants content r target) ->
  (bool_decide (mode p = Denylist) && bool_decide (g = None) || existsb (fun r => in_group g r && f r target) (rules p) = true
   <-> granted content p g target).
Proof.
  intros Hf. unfold granted. rewrite orb_true_iff, andb_true_iff, !bool_decide_eq_true, existsb_exists.
  setoid_rewrite andb_true_iff. setoid_rewrite in_group_exact. setoid_rewrite Hf. setoid_rewrite <- list_elem_of_In. done.
Qed.

Lemma authorize_exact_aux p raw g u :
  authorize p raw g = Ok u <-> canonical_url raw = Ok u /\ unblocked p u /\ granted true p g u.
Proof.
  rewrite <- blocks_exact, <- (granted_reflect rule_permits) by (intros; apply rule_permits_exact).
  unfold authorize, permits. destruct (canonical_url raw) as [v|e]; simpl; [|split; [done | by intros [? _]]].
  assert (E : (if bool_decide (mode p = Denylist) && bool_decide (g = None) then true
               else existsb (fun r => in_group g r && rule_permits r v) (rules p))
              = bool_decide (mode p = Denylist) && bool_decide (g = None) || existsb (fun r => in_group g r && rule_permits r v) (rules p)).
  { by destruct (_ && _). }
  rewrite E. destruct (blocks p v) eqn:Eb; simpl.
  - split; [done|]. intros ([= <-] & Hb & _). congruence.
  - destruct (_ || _) eqn:Eg; simpl.
    + split; [intros [= <-]; auto | by intros ([= <-] & _)].
    + split; [done|]. intros ([= <-] & _ & Hg). congruence.
Qed.

Lemma authorize_robots_exact_aux p raw g u :
  authorize_robots p raw g = Ok u <->
  canonical_url raw = Ok u /\ unblocked p u /\ url_path u = T "/robots.txt" /\ query u = None /\ granted false p g u.
Proof.
  rewrite <- blocks_exact, <- (granted_reflect covers_origin) by (intros; apply covers_origin_exact).
  unfold authorize_robots. destruct (canonical_url raw) as [v|e]; simpl; [|split; [done | by intros [? _]]].
  destruct (_ && (_ || _)) eqn:E; simpl.
  - apply andb_true_iff in E as [E Eg]. apply andb_true_iff in E as [E Eb]. apply andb_true_iff in E as [E1 E2].
    apply teqb_eq in E1. apply bool_decide_eq_true in E2. apply negb_true_iff in Eb.
    split; [intros [= <-]; auto | by intros ([= <-] & _)].
  - split; [done|]. intros ([= <-] & Hb & Hp & Hq & Hg). rewrite Hb, Hg in E. apply teqb_eq in Hp. rewrite Hp, bool_decide_true in E by done. done.
Qed.

(** ** What the policy promises *)

(** A URL that passes [canonical_url] is HTTP or HTTPS, carries no
    credentials, no port zero and no fragment; its host does not end in a dot
    or contain two in a row, and is a public address or a dotted name that is
    none of, and under none of, the local and metadata names. *)
Theorem canonical_url_safe (raw : text) (u : Url) : canonical_url raw = Ok u -> safe_url u /\ public_host u.
Proof. intros [H1 H2]%canonical_safe_aux. auto. Qed.

(** C7. What may be read, exactly: a canonical URL that no blocked rule covers
    over HTTP or HTTPS and that is granted, by the open denylist or by an allow
    rule of the asked group with the same scheme, port and host (or a proper
    subdomain of it) and the same resource (or one under its directory); or an
    origin's literal /robots.txt when a rule covers the origin. *)
Theorem authorize_read_exact (p : Policy) (raw : text) (g : option text) (u : Url) :
  authorize_read p raw g = Ok u <->
  canonical_url raw = Ok u /\ unblocked p u
  /\ (granted true p g u \/ url_path u = T "/robots.txt" /\ query u = None /\ granted false p g u).
Proof.
  unfold authorize_read. destruct (authorize p raw g) as [v|e] eqn:E.
  - pose proof E as (Hc & Hu & Hg)%authorize_exact_aux. rewrite Hc. split; [intros [= <-]; auto|]. by intros ([= ->] & _).
  - rewrite authorize_robots_exact_aux. split; [intuition|]. intros (Hc & Hu & [Hg|H]); [|tauto].
    assert (authorize p raw g = Ok u) by (by apply authorize_exact_aux). congruence.
Qed.
End Proofs.

(** ** A [url] crate small enough to run

    Schemes of letters, a host without port or userinfo, a path, a query. *)
Module SmallUrl.
Record small_url := MkUrl { s_scheme : text; s_host : text; s_path : text; s_query : option text; s_fragment : option text }.

Definition small_parse (s : text) : option small_url :=
  match split_once (T "://") s with
  | None => None
  | Some (a, b) =>
      let auth := before ends_authority b in
      let rest := drop (length auth) b in
      let path := before ends_path rest in
      let after := drop (length path) rest in
      if negb (forallb is_ascii_alphabetic a) || bool_decide (auth = []) || bool_decide (c_colon ∈ auth) then None
      else Some (MkUrl (map to_ascii_lower a) (map to_ascii_lower auth) (if bool_decide (path = []) then [c_slash] else path)
                   match after with c :: r => if c =? 63 then Some (before (fun c => c =? 35) r) else None | [] => None end None)
  end.
Definition small_host (u : small_url) : option Host :=
  Some match parse_ipv4 (s_host u) with Some a => HostV4 a | None => Domain (s_host u) end.

#[export] Instance small_crate : UrlCrate := {
  Url := small_url;
  url_parse := small_parse;
  scheme := s_scheme;
  username u := [];
  password u := None;
  port u := None;
  port_or_known_default u := Some (if teqb (s_scheme u) (T "https") then 443 else 80);
  url_host := small_host;
  host_str u := Some (s_host u);
  url_path := s_path;
  query := s_query;
  fragment := s_fragment;
  set_fragment_none u := MkUrl (s_scheme u) (s_host u) (s_path u) (s_query u) None;
  set_scheme u s := Some (MkUrl s (s_host u) (s_path u) (s_query u) (s_fragment u));
  to_string u := s_scheme u ++ T "://" ++ s_host u ++ s_path u ++ match s_query u with Some q => 63 :: q | None => [] end;
}.

Lemma before_drop f s : s = before f s ++ drop (length (before f s)) s.
Proof. induction s as [|c s IH]; simpl; [done|]. destruct (f c); simpl; [done|]. by f_equal. Qed.
Lemma before_no f s c : f c = true -> c ∉ before f s.
Proof.
  intros Hc. induction s as [|x s IH]; simpl; [apply not_elem_of_nil|]. destruct (f x) eqn:E; [apply not_elem_of_nil|].
  apply not_elem_of_cons. split; [congruence | done].
Qed.
Lemma before_head f s c r : drop (length (before f s)) s = c :: r -> f c = true.
Proof. induction s as [|x s IH]; simpl; [done|]. destruct (f x) eqn:E; simpl; [by intros [= <- _] | done]. Qed.
Lemma before_all f s : Forall (fun c => f c = false) s -> before f s = s.
Proof. induction 1 as [|c s Hc _ IH]; simpl; [done|]. rewrite Hc. by f_equal. Qed.

Lemma split_once_scheme a b : c_colon ∉ a -> split_once (T "://") (a ++ T "://" ++ b) = Some (a, b).
Proof.
  intros Ha. assert (H : find_sub (T "://") (a ++ T "://" ++ b) = Some (length a)).
  { induction a as [|c a IH]; [done|]. apply not_elem_of_cons in Ha as [Hc Ha]. cbn [app find_sub].
    change (T "://") with (c_colon :: T "//") at 1. cbn [starts_with]. rewrite (proj2 (Z.eqb_neq _ _) Hc). cbn [andb].
    rewrite (IH Ha). done. }
  unfold split_once. rewrite H, take_app_length. f_equal. f_equal.
  rewrite <- length_app, app_assoc, drop_app_length. done.
Qed.

#[export] Instance small_laws : UrlLaws small_crate.
Proof.
  constructor; try done.
  - intros a b u Ha%http_alphabetic H. change (small_parse (a ++ T "://" ++ b) = Some u) in H. unfold small_parse in H. rewrite split_once_scheme in H by (by apply (alphabetic_not c_colon a c_colon)).
    destruct (_ || _); [done|]. by injection H as <-.
  - intros s u H _ H35 Hq Hin. change (small_parse s = Some u) in H. unfold small_parse in H.
    destruct (split_once (T "://") s) as [[a b]|] eqn:E; [|done]. apply split_once_spec in E as ->.
    destruct (_ || _) eqn:Ea in H; [done|]. injection H as <-. simpl in Hq.
    apply orb_false_iff in Ea as [[Ea%negb_false_iff _]%orb_false_iff _].
    assert (Hb : 63 ∈ b).
    { rewrite !elem_of_app in Hin. destruct Hin as [Hin|[Hin|Hin]]; [|exfalso; revert Hin; exact (bool_decide_unpack (63 ∉ T "://") I) | done].
      apply list_elem_of_In in Hin. rewrite forallb_forall in Ea. by specialize (Ea _ Hin). }
    rewrite (before_drop ends_authority b), elem_of_app in Hb. destruct Hb as [Hb|Hb]; [by eapply before_no in Hb|].
    set (rest := drop _ b) in *. rewrite (before_drop ends_path rest), elem_of_app in Hb. destruct Hb as [Hb|Hb]; [by eapply before_no in Hb|].
    destruct (drop (length (before ends_path rest)) rest) as [|c r] eqn:Er; [by apply not_elem_of_nil in Hb|].
    pose proof (before_head _ _ _ _ Er) as Hc. unfold ends_path in Hc. apply orb_true_iff in Hc as [Hc|Hc]; [by rewrite Hc in Hq|].
    apply Z.eqb_eq in Hc as ->. apply H35. rewrite !elem_of_app. right. right. rewrite (before_drop ends_authority b), elem_of_app. right.
    fold rest. rewrite (before_drop ends_path rest), Er, elem_of_app. right. apply list_elem_of_here.
  - intros s u H _ H63 H35. change (small_parse (s ++ [c_slash]) = Some u) in H. unfold small_parse in H.
    destruct (split_once (T "://") (s ++ [c_slash])) as [[a b]|] eqn:E; [|done]. apply split_once_spec in E.
    destruct (_ || _) eqn:Ea in H; [done|]. injection H as <-. simpl.
    apply orb_false_iff in Ea as [[_ Ha%bool_decide_eq_false]%orb_false_iff _].
    assert (Hno : Forall (fun c => ends_path c = false) b).
    { apply Forall_forall. intros c Hc. assert (Hs : c ∈ s ++ [c_slash]) by (rewrite E, !elem_of_app; auto).
      unfold ends_path. destruct (Z.eqb_spec c 63), (Z.eqb_spec c 35); subst; try done;
        apply elem_of_app in Hs as [?|Hs%list_elem_of_singleton]; done. }
    rewrite (before_drop ends_authority b) in Hno. apply Forall_app in Hno as [_ Hno]. rewrite (before_all ends_path) by done.
    case_bool_decide as Hr; [done|]. apply ends_with_spec.
    destruct (drop (length (before ends_authority b)) b) as [|c0 r0] eqn:Ed using rev_ind; [done|].
    rewrite (before_drop ends_authority b) in E. rewrite Ed, !app_assoc in E. apply app_inj_tail in E as [_ <-]. by eexists.
  - intros u. simpl. unfold small_host. destruct (parse_ipv4 (s_host u)) eqn:E; [|done]. by eapply parse_ipv4_addr.
Qed.

Definition small_sha (s : text) : text :=
  let h := foldl (fun h c => (h * 131 + c) mod 2 ^ 64) 7 s in map (fun i => hex_upper (h / 16 ^ i mod 16)) (seqZ 0 64).
Definition ok_rule (r : result harness_error Rule) : Rule := match r with Ok r => r | Err _ => MkRule [] [] [] [] end.
Definition docs_rule : Rule := Eval vm_compute in ok_rule (new_rule small_sha (T "https://*.example.org/docs/*") (T "docs") []).
Definition docs_policy : Policy := MkPolicy 1 [docs_rule] Allowlist [ok_rule (block_rule small_sha (T "https://b.example.org/*"))] [].
Definition read_url : small_url := MkUrl (T "https") (T "a.example.org") (T "/docs/x") None None.

Lemma canonical_url_safe_witness :
  canonical_url (T " https://A.example.org/docs/x#top ") = Ok read_url
  /\ (scheme read_url = T "http" \/ scheme read_url = T "https")
  /\ canonical_url (T "http://127.0.0.1/") = Err ssrf_denied /\ canonical_url (T "https://a.localhost/") = Err ssrf_denied.
Proof.
  assert (H : canonical_url (T " https://A.example.org/docs/x#top ") = Ok read_url) by (vm_compute; reflexivity).
  split; [exact H|]. split; [exact (su_scheme _ (proj1 (canonical_url_safe _ _ H)))|]. split; vm_compute; reflexivity.
Defined.

Lemma authorize_read_exact_witness :
  authorize_read docs_policy (T "https://a.example.org/docs/x") (Some (T "docs")) = Ok read_url /\ unblocked docs_policy read_url
  /\ authorize_read docs_policy (T "https://b.example.org/docs/x") None = Err (err_code "WEB_HOST_DENIED")
  /\ authorize_read docs_policy (T "https://evilexample.org/docs/x") None = Err (err_code "WEB_HOST_DENIED").
Proof.
  assert (H : authorize_read docs_policy (T "https://a.example.org/docs/x") (Some (T "docs")) = Ok read_url) by (vm_compute; reflexivity).
  split; [exact H|]. split; [exact (proj1 (proj2 (proj1 (authorize_read_exact _ _ _ _) H)))|]. split; vm_compute; reflexivity.
Defined.
End SmallUrl.
