(* ===== verification/WebRules.v ===== *)
(** The URL policy on disk ([Policy::parse] of [server/web_policy.rs]) and the
    administrator's changes to it ([server/web_search.rs]): allow, deny, mode,
    block, unblock.

    The state is the policy file.  A change holds the mutation lock from its
    read to its write, so it is one step; whether the atomic replacement
    succeeds is an argument.  The derived JSON decoders are parameters. *)

From S2P Require Import Prelude Text Effects Owners NetScope PublicAddr WebPolicy.
Local Open Scope Z_scope.

Section Rules.
Context {UC : UrlCrate} (sha256_hex : text -> text).

(** ** The policy file *)

(** A row of the file of earlier versions. *)
Record Legacy := MkLegacy { l_scheme : text; l_host : text; l_port : text; l_path : text; l_raw : text }.

(** [serde_json]: text to a value, the derived decoders of [Policy] and
    [Vec<Legacy>], and the derived encoder. *)
Context (from_slice : text -> option json).
Context (decode_policy : json -> option Policy) (decode_rows : json -> option (list Legacy)).
Context (to_vec : Policy -> text).

(** [Ipv6Addr::from_str].  [read_groups limit i s]: the groups read from the
    [i]-th on, whether an IPv4 tail took the last two, and what is left. *)
Fixpoint take_hex (n : nat) (s : text) : text * text :=
  match n, s with
  | S n, c :: s' => if is_hex_char c then let '(d, r) := take_hex n s' in (c :: d, r) else ([], s)
  | _, _ => ([], s)
  end.
Definition read_group (s : text) : option text :=
  let '(digits, rest) := take_hex 5 s in
  if bool_decide (digits = []) || (4 <? length digits)%nat then None else Some rest.
Fixpoint read_groups (limit i : nat) (s : text) : nat * bool * text :=
  match limit with
  | O => (i, false, s)
  | S limit =>
      let body := match i with O => Some s | S _ => strip_prefix [c_colon] s end in
      match body with
      | None => (i, false, s)
      | Some body =>
          if negb (limit =? 0)%nat && bool_decide (is_Some (parse_ipv4 body)) then ((i + 2)%nat, true, [])
          else match read_group body with
               | Some rest => read_groups limit (S i) rest
               | None => (i, false, s)
               end
      end
  end.
Definition is_ipv6 (s : text) : bool :=
  let '(head, v4, rest) := read_groups 8 0 s in
  if (head =? 8)%nat then bool_decide (rest = [])
  else if v4 then false
  else match strip_prefix (T "::") rest with
       | None => false
       | Some rest => let '(_, _, rest) := read_groups (8 - S head) 0 rest in bool_decide (rest = [])
       end.

Definition legacy_path_char (c : char) : bool :=
  is_ascii_alphanumeric c
  || existsb (fun x => c =? x) (T "._~/=+-").

(** A row of the old file as a rule. *)
Definition legacy_rule (row : Legacy) : result harness_error Rule :=
  _ ← refuse_if (negb (teqb (l_scheme row) (T "http") || teqb (l_scheme row) (T "https"))
                 || bool_decide (l_host row = [])
                 || existsb (fun c => negb (legacy_path_char c)) (l_path row)
                 || (negb (bool_decide (l_port row = []))
                     && match parse_uint 65535 (l_port row) with Some p => p <=? 0 | None => true end)) policy_invalid;
  let host := if is_ipv6 (l_host row) then T "[" ++ l_host row ++ T "]" else l_host row in
  let port := if bool_decide (l_port row = []) then [] else c_colon :: l_port row in
  let path := if starts_with [c_slash] (l_path row) then l_path row else c_slash :: l_path row in
  new_rule sha256_hex (l_scheme row ++ T "://" ++ host ++ port ++ path) (T "default") [].

Definition with_rules (p : Policy) (rs : list Rule) : Policy := MkPolicy (version p) rs (mode p) (blocked p) (revision p).
Definition with_blocked (p : Policy) (rs : list Rule) : Policy := MkPolicy (version p) (rules p) (mode p) rs (revision p).
Definition with_mode (p : Policy) (m : Mode) : Policy := MkPolicy (version p) (rules p) m (blocked p) (revision p).

Fixpoint push_rows (p : Policy) (rows : list Legacy) : result harness_error Policy :=
  match rows with
  | [] => Ok p
  | row :: rows =>
      rule ← legacy_rule row;
      push_rows (if existsb (fun r => teqb (rule_id r) (rule_id rule)) (rules p) then p
                 else with_rules p (rules p ++ [rule])) rows
  end.
Definition legacy (value : json) (max_rules : nat) : result harness_error Policy :=
  value ← match value with
          | JArr _ => Ok value
          | JObj [_] => ok_or (get value (T "entries")) policy_invalid
          | _ => Err policy_invalid
          end;
  rows ← ok_or (decode_rows value) policy_invalid;
  _ ← refuse_if (max_rules <? length rows)%nat policy_invalid;
  push_rows empty_policy rows.

(** Each rule valid, no ID twice; the IDs seen so far are threaded through. *)
Fixpoint check_rules (ok : Rule -> bool) (ids : list text) (rs : list Rule) : result harness_error (list text) :=
  match rs with
  | [] => Ok ids
  | r :: rs =>
      _ ← validate_rule r;
      _ ← refuse_if (negb (ok r) || bool_decide (rule_id r ∈ ids)) policy_invalid;
      check_rules ok (rule_id r :: ids) rs
  end.
Definition allow_ok (r : Rule) : bool := true.
Definition blocked_ok (r : Rule) : bool := teqb (group r) BLOCKED_GROUP && bool_decide (seeds r = []).

Definition check_policy (p : Policy) (max_rules : nat) : result harness_error unit :=
  _ ← refuse_if (negb (version p =? 1)) policy_invalid;
  _ ← refuse_if (max_rules <? length (rules p))%nat policy_invalid;
  _ ← refuse_if (max_rules <? length (blocked p))%nat policy_invalid;
  ids ← check_rules allow_ok [] (rules p);
  _ ← check_rules blocked_ok ids (blocked p);
  mret tt.

Definition parse_policy (bytes : text) (max_rules : nat) : result harness_error Policy :=
  _ ← refuse_if (max_policy_bytes max_rules <? byte_len bytes) policy_invalid;
  value ← ok_or (from_slice bytes) policy_invalid;
  policy ← match get value (T "version") with
           | Some _ => ok_or (decode_policy value) policy_invalid
           | None => legacy value max_rules
           end;
  _ ← check_policy policy max_rules;
  mret (MkPolicy (version policy) (rules policy) (mode policy) (blocked policy) (sha256_hex bytes)).

(** ** Changes by the administrator ([server/web_search.rs])

    The state is the policy file; [disk_ok] says whether its atomic
    replacement succeeds.  The answers' status documents are not modelled. *)

Context (max_rules : nat).

(** [Policy::load] *)
Definition load (file : option text) : result harness_error Policy :=
  bytes ← ok_or file (err_code "WEB_POLICY_UNAVAILABLE");
  parse_policy bytes max_rules.
Definition policy_for_change (file : option text) : result harness_error Policy :=
  match file with None => Ok empty_policy | Some _ => load file end.

Definition save_policy (p : Policy) : result harness_error text :=
  _ ← parse_policy (to_vec p) max_rules;
  mret (to_vec p).

(** What every change does with the policy it has computed. *)
Definition commit_policy (disk_ok : bool) (file : option text) (next : result harness_error Policy) : option text * result harness_error unit :=
  match next ≫= save_policy with
  | Err e => (file, Err e)
  | Ok bytes => if disk_ok then (Some bytes, Ok tt) else (file, Err (err_code "IO_ERROR"))
  end.

Fixpoint new_rules (raws : list text) (grp : text) : result harness_error (list Rule) :=
  match raws with
  | [] => Ok []
  | raw :: raws => r ← new_rule sha256_hex raw grp []; rs ← new_rules raws grp; mret (r :: rs)
  end.
Definition add_seed (seed : text) (target : Url) (r : Rule) : Rule :=
  if rule_permits r target && negb (bool_decide (seed ∈ seeds r))
  then MkRule (rule_id r) (pattern r) (group r) (seeds r ++ [seed]) else r.
Fixpoint add_seeds (rs : list Rule) (sds : list text) : result harness_error (list Rule) :=
  match sds with
  | [] => Ok rs
  | seed :: sds =>
      target ← canonical_url seed;
      _ ← refuse_if (negb (existsb (fun r => rule_permits r target) rs)) policy_invalid;
      add_seeds (map (add_seed seed target) rs) sds
  end.

Fixpoint replace_rule (rule : Rule) (rs : list Rule) : option (list Rule) :=
  match rs with
  | [] => None
  | r :: rs => if teqb (rule_id r) (rule_id rule) then Some (rule :: rs) else cons r <$> replace_rule rule rs
  end.
Fixpoint grant (p : Policy) (new : list Rule) : result harness_error Policy :=
  match new with
  | [] => Ok p
  | rule :: new =>
      match replace_rule rule (rules p) with
      | Some rs => grant (with_rules p rs) new
      | None =>
          _ ← refuse_if (max_rules <=? length (rules p))%nat (err_code "WEB_ALLOWLIST_FULL");
          grant (with_rules p (rules p ++ [rule])) new
      end
  end.
Definition allow_rules (disk_ok : bool) (patterns : list text) (grp : text) (sds : list text) (file : option text)
    : option text * result harness_error unit :=
  commit_policy disk_ok file (
    _ ← refuse_if (bool_decide (patterns = []) || (MAX_BATCH_URLS <? length patterns)%nat || (16 <? length sds)%nat) policy_invalid;
    rs ← new_rules patterns grp;
    rs ← add_seeds rs sds;
    p ← policy_for_change file;
    grant p rs).

Definition deny (disk_ok : bool) (raw : text) (file : option text) : option text * result harness_error unit :=
  commit_policy disk_ok file (
    p ← load file;
    let keep r :=
      negb (teqb (rule_id r) raw)
      && match new_rule sha256_hex raw (T "default") [] with Ok n => negb (teqb (pattern r) (pattern n)) | Err _ => true end in
    let rs := List.filter keep (rules p) in
    _ ← refuse_if (length rs =? length (rules p))%nat (err_code "WEB_RULE_UNKNOWN");
    mret (with_rules p rs)).

Definition set_mode (disk_ok : bool) (m : Mode) (confirm : bool) (file : option text) : option text * result harness_error unit :=
  commit_policy disk_ok file (
    _ ← refuse_if (bool_decide (m = Denylist) && negb confirm) (err_code "WEB_MODE_CONFIRM_REQUIRED");
    p ← policy_for_change file;
    mret (with_mode p m)).

Definition site_patterns (raw : text) : list text :=
  let raw := trim raw in
  match split_once (T "://") raw with
  | None => [raw]
  | Some (sch, rest) =>
      if existsb ends_authority rest || bool_decide (rest = []) then [raw]
      else match strip_prefix (T "*.") rest with
           | Some host => [sch ++ T "://*." ++ host ++ T "/*"]
           | None => [sch ++ T "://" ++ rest ++ T "/*"; sch ++ T "://*." ++ rest ++ T "/*"]
           end
  end.

Definition push_new (r : Rule) (rs : list Rule) : list Rule :=
  if existsb (fun x => teqb (rule_id x) (rule_id r)) rs then rs else rs ++ [r].
(** [first]: the next pattern is the first one of its [site_patterns]. *)
Fixpoint derive_blocked (first : bool) (ps : list text) (rs : list Rule) : result harness_error (list Rule) :=
  match ps with
  | [] => Ok rs
  | p :: ps =>
      match block_rule sha256_hex p with
      | Ok r => derive_blocked false ps (push_new r rs)
      | Err e => if first then Err e else derive_blocked false ps rs
      end
  end.
Fixpoint blocked_rules (raws : list text) (rs : list Rule) : result harness_error (list Rule) :=
  match raws with
  | [] => Ok rs
  | raw :: raws => rs ← derive_blocked true (site_patterns raw) rs; blocked_rules raws rs
  end.
Fixpoint push_blocked (p : Policy) (new : list Rule) : result harness_error Policy :=
  match new with
  | [] => Ok p
  | rule :: new =>
      if existsb (fun r => teqb (rule_id r) (rule_id rule)) (blocked p) then push_blocked p new
      else
        _ ← refuse_if (max_rules <=? length (blocked p))%nat (err_code "WEB_BLOCKLIST_FULL");
        push_blocked (with_blocked p (blocked p ++ [rule])) new
  end.
Definition block_rules (disk_ok : bool) (patterns : list text) (file : option text) : option text * result harness_error unit :=
  commit_policy disk_ok file (
    _ ← refuse_if (bool_decide (patterns = []) || (MAX_BATCH_URLS <? length patterns)%nat) policy_invalid;
    rs ← blocked_rules patterns [];
    p ← policy_for_change file;
    push_blocked p rs).

Definition block_pattern (p : text) : option text :=
  match block_rule sha256_hex p with Ok r => Some (pattern r) | Err _ => None end.
Definition unblock (disk_ok : bool) (raw : text) (file : option text) : option text * result harness_error unit :=
  commit_policy disk_ok file (
    p ← load file;
    let pats := omap block_pattern (site_patterns raw) in
    let rs := List.filter (fun r => negb (teqb (rule_id r) raw) && negb (bool_decide (pattern r ∈ pats))) (blocked p) in
    _ ← refuse_if (length rs =? length (blocked p))%nat (err_code "WEB_RULE_UNKNOWN");
    mret (with_blocked p rs)).
Inductive change :=
| Allow (patterns : list text) (grp : text) (sds : list text)
| Deny (raw : text)
| SetMode (m : Mode) (confirm : bool)
| Block (patterns : list text)
| Unblock (raw : text).
Definition apply_change (disk_ok : bool) (c : change) (file : option text) : option text * result harness_error unit :=
  match c with
  | Allow patterns grp sds => allow_rules disk_ok patterns grp sds file
  | Deny raw => deny disk_ok raw file
  | SetMode m confirm => set_mode disk_ok m confirm file
  | Block patterns => block_rules disk_ok patterns file
  | Unblock raw => unblock disk_ok raw file
  end.
(** Changes one after the other, each under the mutation lock. *)
Definition run_changes (cs : list (bool * change)) (file : option text) : option text :=
  foldl (fun f '(ok, c) => fst (apply_change ok c f)) file cs.
End Rules.

Section Proofs.
Context {UC : UrlCrate} {UL : UrlLaws UC}.

(** ** The administrator's changes *)

Context (sha256_hex : text -> text) (from_slice : text -> option json).
Context (decode_policy : json -> option Policy) (decode_rows : json -> option (list Legacy)) (to_vec : Policy -> text).
Context (max_rules : nat).

(** [serde_json] reads back what it wrote; the revision is not in the file. *)
Definition decodes_what_it_wrote : Prop :=
  forall p, version p = 1 ->
    exists v, from_slice (to_vec p) = Some v /\ is_Some (get v (T "version"))
              /\ decode_policy v = Some (MkPolicy (version p) (rules p) (mode p) (blocked p) []).

Local Abbreviation load' := (load sha256_hex from_slice decode_policy decode_rows max_rules).
Local Abbreviation for_change := (policy_for_change sha256_hex from_slice decode_policy decode_rows max_rules).
Local Abbreviation apply' := (apply_change sha256_hex from_slice decode_policy decode_rows to_vec max_rules).
Local Abbreviation commit' := (commit_policy sha256_hex from_slice decode_policy decode_rows to_vec max_rules).
Local Abbreviation parse' := (parse_policy sha256_hex from_slice decode_policy decode_rows).
Local Abbreviation grant' := (grant max_rules).

Record good_policy (p : Policy) : Prop := {
  gp_version : version p = 1;
  gp_bounds : (length (rules p) <= max_rules)%nat /\ (length (blocked p) <= max_rules)%nat;
  gp_ids : NoDup (map rule_id (rules p ++ blocked p));
  gp_valid : Forall (fun r => validate_rule r = Ok tt) (rules p ++ blocked p);
  gp_blocked : Forall (fun r => group r = BLOCKED_GROUP /\ seeds r = []) (blocked p);
}.

Lemma check_rules_sound ok ids rs ids' :
  check_rules ok ids rs = Ok ids' -> NoDup ids ->
  ids' = rev (map rule_id rs) ++ ids /\ NoDup ids' /\ Forall (fun r => validate_rule r = Ok tt /\ ok r = true) rs.
Proof.
  revert ids. induction rs as [|r rs IH]; intros ids H Hn; simpl in H; [by injection H as <-|].
  apply bind_Ok_inv in H as ([] & Hv & H). apply bind_Ok_inv in H as ([] & Hr & H).
  apply refuse_if_Ok, orb_false_iff in Hr as [Hok%negb_false_iff Hin%bool_decide_eq_false].
  destruct (IH _ H) as (-> & Hn' & Hf); [by constructor|]. simpl. rewrite <- app_assoc. repeat split; [done..|]. by constructor.
Qed.

Lemma check_policy_good p : check_policy p max_rules = Ok tt -> good_policy p.
Proof.
  unfold check_policy. intros H. apply bind_Ok_inv in H as ([] & H1 & H). apply refuse_if_Ok, negb_false_iff, Z.eqb_eq in H1.
  apply bind_Ok_inv in H as ([] & H2 & H). apply refuse_if_Ok, Nat.ltb_ge in H2.
  apply bind_Ok_inv in H as ([] & H3 & H). apply refuse_if_Ok, Nat.ltb_ge in H3.
  apply bind_Ok_inv in H as (ids & H4 & H). apply bind_Ok_inv in H as (ids' & H5 & _).
  apply check_rules_sound in H4 as (-> & Hn & Hf); [|constructor].
  apply check_rules_sound in H5 as (-> & Hn' & Hf'); [|done]. constructor; [done | done | | |].
  - rewrite app_nil_r, <- rev_app_distr, <- map_app in Hn'. by rewrite <- (Permutation_rev _) in Hn'.
  - apply Forall_app. split; (eapply Forall_impl; [eassumption|]); by intros r [? _].
  - eapply Forall_impl; [exact Hf'|]. intros r [_ [Hg%teqb_eq Hs%bool_decide_eq_true]%andb_true_iff]. done.
Qed.

Lemma parse_policy_inv bytes p : parse' bytes max_rules = Ok p ->
  good_policy p /\ exists v, from_slice bytes = Some v
    /\ (is_Some (get v (T "version")) -> exists q, decode_policy v = Some q
          /\ rules p = rules q /\ mode p = mode q /\ blocked p = blocked q /\ version p = version q).
Proof.
  unfold parse_policy. intros H. apply bind_Ok_inv in H as ([] & _ & H). apply bind_Ok_inv in H as (v & Hv & H). apply ok_or_Ok in Hv.
  apply bind_Ok_inv in H as (q & Hq & H). apply bind_Ok_inv in H as ([] & Hc & H). apply Ok_inj in H. subst p.
  split; [by apply check_policy_good in Hc as []; constructor|]. exists v. split; [done|].
  intros [j Hj]. rewrite Hj in Hq. apply ok_or_Ok in Hq. by exists q.
Qed.

Lemma for_change_good file p : for_change file = Ok p -> good_policy p.
Proof.
  destruct file as [b|]; simpl; [intros H; by apply parse_policy_inv in H as [H _]|].
  intros [= <-]. constructor; simpl; [done | lia | constructor..].
Qed.

(** A change leaves the file alone, or installs a policy that loads. *)
Lemma commit_inv ok file next file' r : decodes_what_it_wrote -> commit' ok file next = (file', r) ->
  (file' = file /\ exists e, r = Err e)
  \/ (r = Ok tt /\ exists q p, next = Ok q /\ for_change file' = Ok p
      /\ (version q = 1 -> rules p = rules q /\ mode p = mode q /\ blocked p = blocked q)).
Proof.
  intros Hj. unfold commit_policy, save_policy. destruct next as [q|e]; simpl; [|intros [= <- <-]; left; eauto].
  destruct (parse' (to_vec q) max_rules) as [p|e] eqn:E; simpl; [|intros [= <- <-]; left; eauto].
  destruct ok; intros [= <- <-]; [right | left; eauto]. split; [done|]. exists q, p. split; [done|]. split; [exact E|].
  intros Hv. destruct (Hj q Hv) as (v & Hv1 & Hv2 & Hv3). apply parse_policy_inv in E as (_ & v' & Hv' & Hd).
  assert (v' = v) as -> by congruence. destruct (Hd Hv2) as (q' & Hq' & E1 & E2 & E3 & _).
  rewrite Hv3 in Hq'. injection Hq' as <-. done.
Qed.

(** A rule as an administrator wrote it, up to its seeds. *)
Definition came_from (grp : text) (patterns : list text) (r : Rule) : Prop :=
  exists raw r0, raw ∈ patterns /\ new_rule sha256_hex raw grp [] = Ok r0
    /\ rule_id r = rule_id r0 /\ pattern r = pattern r0 /\ group r = group r0.

Lemma new_rules_from raws grp rs : new_rules sha256_hex raws grp = Ok rs -> Forall (came_from grp raws) rs.
Proof.
  revert rs. induction raws as [|raw raws IH]; intros rs H; simpl in H; [by injection H as <-; constructor|].
  apply bind_Ok_inv in H as (r & Hr & H). apply bind_Ok_inv in H as (rs' & Hrs & H). apply Ok_inj in H. subst rs. constructor.
  - exists raw, r. split; [apply list_elem_of_here | done].
  - eapply Forall_impl; [by apply IH|]. intros x (raw' & r0 & Hin & ?). exists raw', r0. split; [by right | done].
Qed.

Lemma add_seeds_from grp raws sds rs rs' : add_seeds rs sds = Ok rs' -> Forall (came_from grp raws) rs -> Forall (came_from grp raws) rs'.
Proof.
  revert rs. induction sds as [|s sds IH]; intros rs H Hf; simpl in H; [by injection H as <-|].
  apply bind_Ok_inv in H as (t & _ & H). apply bind_Ok_inv in H as ([] & _ & H). apply (IH _ H).
  apply Forall_map. eapply Forall_impl; [exact Hf|]. intros r (raw & r0 & ?). exists raw, r0. unfold add_seed. by destruct (_ && _).
Qed.

Lemma replace_rule_elem rule rs rs' r : replace_rule rule rs = Some rs' -> r ∈ rs' -> r ∈ rs \/ r = rule.
Proof.
  revert rs'. induction rs as [|x rs IH]; intros rs' H Hr; simpl in H; [done|].
  destruct (teqb _ _); [injection H as <-; apply elem_of_cons in Hr as [->|Hr]; [by right | left; by right]|].
  destruct (replace_rule rule rs) as [l|]; [|done]. injection H as <-.
  apply elem_of_cons in Hr as [->|Hr]; [left; apply list_elem_of_here|]. destruct (IH _ eq_refl Hr); [left; by right | by right].
Qed.

Lemma grant_inv p new p' : grant' p new = Ok p' ->
  version p' = version p /\ mode p' = mode p /\ blocked p' = blocked p /\ forall r, r ∈ rules p' -> r ∈ rules p \/ r ∈ new.
Proof.
  revert p. induction new as [|rule new IH]; intros p H; simpl in H; [injection H as <-; auto|].
  destruct (replace_rule rule (rules p)) as [rs|] eqn:E; [|apply bind_Ok_inv in H as ([] & _ & H)];
    apply IH in H as (Hv & Hm & Hb & Hr); (split; [done|]; split; [done|]; split; [done|]); intros r Hin;
    (destruct (Hr r Hin) as [Hin'|Hin']; [|right; by right]); simpl in Hin'.
  - destruct (replace_rule_elem _ _ _ _ E Hin') as [?| ->]; [by left | right; apply list_elem_of_here].
  - apply elem_of_app in Hin' as [?| ->%list_elem_of_singleton]; [by left | right; apply list_elem_of_here].
Qed.

Lemma push_blocked_inv p new p' : push_blocked max_rules p new = Ok p' ->
  version p' = version p /\ mode p' = mode p /\ rules p' = rules p /\ forall r, r ∈ blocked p -> r ∈ blocked p'.
Proof.
  revert p. induction new as [|rule new IH]; intros p H; simpl in H; [by injection H as <-|].
  destruct (existsb _ _); [by apply IH|]. apply bind_Ok_inv in H as ([] & _ & H).
  apply IH in H as (Hv & Hm & Hr & Hb). repeat split; [done..|]. intros r Hin. apply Hb. simpl. apply elem_of_app. by left.
Qed.

(** What one change may do to the loaded policy. *)
Definition changed (c : change) (p p' : Policy) : Prop :=
  (mode p' = Denylist -> mode p = Denylist \/ c = SetMode Denylist true)
  /\ (forall r, r ∈ rules p' -> r ∈ rules p \/ exists patterns grp sds, c = Allow patterns grp sds /\ came_from grp patterns r)
  /\ (forall r, r ∈ blocked p -> r ∈ blocked p' \/ exists raw, c = Unblock raw)
  /\ (forall m b, c = SetMode m b -> rules p' = rules p /\ blocked p' = blocked p)
  /\ (forall raw, c = Deny raw -> forall r, r ∈ rules p' -> r ∈ rules p /\ rule_id r <> raw).

Lemma changed_same c p p' : rules p' = rules p -> mode p' = mode p -> blocked p' = blocked p ->
  (forall raw, c <> Deny raw) -> changed c p p'.
Proof. intros Hr Hm Hb Hd. unfold changed. rewrite Hr, Hm, Hb. repeat split; auto; exfalso; by eapply Hd. Qed.

Lemma change_step ok c file p file' r : decodes_what_it_wrote -> for_change file = Ok p -> apply' ok c file = (file', r) ->
  (file' = file /\ exists e, r = Err e) \/ (r = Ok tt /\ exists p', for_change file' = Ok p' /\ changed c p p').
Proof.
  intros Hj Hp H. pose proof (for_change_good _ _ Hp) as [Hv _ _ _ _].
  assert (Hload : forall q, load' file = Ok q -> q = p) by (destruct file; [intros q Hq; simpl in Hp; congruence | done]).
  destruct c as [pats grp sds|raw|m b|pats|raw]; simpl in H;
    (apply (commit_inv _ _ _ _ _ Hj) in H as [H|(-> & q & p' & Hn & Hf & He)]; [by left|]); right; (split; [done|]); exists p'; (split; [done|]).
  - apply bind_Ok_inv in Hn as ([] & _ & Hn). apply bind_Ok_inv in Hn as (rs & Hrs & Hn). apply bind_Ok_inv in Hn as (rs' & Hrs' & Hn).
    apply bind_Ok_inv in Hn as (p0 & Hp0 & Hn). rewrite Hp in Hp0. apply Ok_inj in Hp0. subst p0.
    apply new_rules_from in Hrs. apply (add_seeds_from _ _ _ _ _ Hrs') in Hrs. rewrite Forall_forall in Hrs.
    apply grant_inv in Hn as (Hv' & Hm & Hb & Hr). destruct He as (E1 & E2 & E3); [by rewrite Hv'|].
    unfold changed. rewrite E1, E2, E3, Hm, Hb. repeat split; auto; try done.
    intros r Hin. destruct (Hr r Hin) as [?|Hin']; [by left|]. right. exists pats, grp, sds. auto.
  - apply bind_Ok_inv in Hn as (p0 & Hp0%Hload & Hn). subst p0. apply bind_Ok_inv in Hn as ([] & _ & Hn). apply Ok_inj in Hn. subst q.
    destruct He as (E1 & E2 & E3); [done|]. simpl in *. unfold changed. rewrite E1, E2, E3.
    assert (Hsub : forall r, r ∈ List.filter (fun r => negb (teqb (rule_id r) raw)
        && match new_rule sha256_hex raw (T "default") [] with Ok n => negb (teqb (pattern r) (pattern n)) | Err _ => true end) (rules p)
        -> r ∈ rules p /\ rule_id r <> raw).
    { intros r [Hin [Hne%negb_true_iff%teqb_neq _]%andb_true_iff]%list_elem_of_In%filter_In. split; [by apply list_elem_of_In | done]. }
    repeat split; auto; try done; [intros r Hr; left; by apply Hsub | by apply Hsub | intros; simplify_eq; by apply Hsub].
  - apply bind_Ok_inv in Hn as ([] & Hc & Hn). apply refuse_if_Ok in Hc. apply bind_Ok_inv in Hn as (p0 & Hp0 & Hn).
    rewrite Hp in Hp0. apply Ok_inj in Hp0. subst p0. apply Ok_inj in Hn. subst q. destruct He as (E1 & E2 & E3); [done|]. simpl in *.
    unfold changed. rewrite E1, E2, E3. repeat split; auto; try done. intros ->. right.
    rewrite bool_decide_true in Hc by done. simpl in Hc. apply negb_false_iff in Hc. by rewrite Hc.
  - apply bind_Ok_inv in Hn as ([] & _ & Hn). apply bind_Ok_inv in Hn as (rs & _ & Hn).
    apply bind_Ok_inv in Hn as (p0 & Hp0 & Hn). rewrite Hp in Hp0. apply Ok_inj in Hp0. subst p0.
    apply push_blocked_inv in Hn as (Hv' & Hm & Hr & Hb). destruct He as (E1 & E2 & E3); [by rewrite Hv'|].
    unfold changed. rewrite E1, E2, E3, Hm, Hr. repeat split; auto; done.
  - apply bind_Ok_inv in Hn as (p0 & Hp0%Hload & Hn). subst p0. apply bind_Ok_inv in Hn as ([] & _ & Hn). apply Ok_inj in Hn. subst q.
    destruct He as (E1 & E2 & E3); [done|]. simpl in *. unfold changed. rewrite E1, E2, E3. repeat split; auto; try done.
    intros r _. right. by exists raw.
Qed.

Lemma changes_inv cs : decodes_what_it_wrote -> forall file p, for_change file = Ok p ->
  exists p', for_change (run_changes sha256_hex from_slice decode_policy decode_rows to_vec max_rules cs file) = Ok p'
    /\ (mode p' = Denylist -> mode p = Denylist \/ exists ok, (ok, SetMode Denylist true) ∈ cs)
    /\ (forall r, r ∈ rules p' -> r ∈ rules p
          \/ exists ok patterns grp sds, (ok, Allow patterns grp sds) ∈ cs /\ came_from grp patterns r)
    /\ ((forall ok raw, (ok, Unblock raw) ∉ cs) -> forall r, r ∈ blocked p -> r ∈ blocked p')
    /\ (Forall (fun '(ok, c) => exists m b, c = SetMode m b) cs -> rules p' = rules p /\ blocked p' = blocked p).
Proof.
  intros Hj. induction cs as [|[ok c] cs IH]; intros file p Hp; [exists p; naive_solver|].
  unfold run_changes. cbn [foldl]. destruct (apply' ok c file) as [file1 r] eqn:E. cbn [fst].
  assert (Hp1 : exists p1, for_change file1 = Ok p1 /\ (p1 = p \/ changed c p p1)).
  { destruct (change_step _ _ _ _ _ _ Hj Hp E) as [(-> & _)|(_ & p1 & H1 & H2)]; eauto. }
  destruct Hp1 as (p1 & Hp1 & Hc). destruct (IH file1 p1 Hp1) as (p' & Hp' & Hm & Hr & Hb & Hs). exists p'. split; [exact Hp'|].
  assert (Hc' : (mode p1 = Denylist -> mode p = Denylist \/ c = SetMode Denylist true)
    /\ (forall r, r ∈ rules p1 -> r ∈ rules p \/ exists patterns grp sds, c = Allow patterns grp sds /\ came_from grp patterns r)
    /\ (forall r, r ∈ blocked p -> r ∈ blocked p1 \/ exists raw, c = Unblock raw)
    /\ (forall m b, c = SetMode m b -> rules p1 = rules p /\ blocked p1 = blocked p)).
  { destruct Hc as [->|(C1 & C2 & C3 & C4 & _)]; repeat split; auto; by eapply C4. }
  clear Hc. destruct Hc' as (C1 & C2 & C3 & C4). split; [|split; [|split]].
  - intros Hd. destruct (Hm Hd) as [H|[o H]]; [|right; exists o; by right].
    destruct (C1 H) as [?| ->]; [by left | right; exists ok; apply list_elem_of_here].
  - intros x Hx. destruct (Hr x Hx) as [H|(o & a & g & s & H & Hf)]; [|right; exists o, a, g, s; split; [by right | done]].
    destruct (C2 x H) as [?|(a & g & s & -> & Hf)]; [by left | right; exists ok, a, g, s; split; [apply list_elem_of_here | done]].
  - intros Hu x Hx. apply Hb; [intros o raw Hin; apply (Hu o raw); by right|].
    destruct (C3 x Hx) as [?|(raw & ->)]; [done|]. destruct (Hu ok raw). apply list_elem_of_here.
  - intros [(m & b & ->) Hall]%Forall_cons. destruct (Hs Hall) as [-> ->]. by eapply C4.
Qed.

(** Changes by the administrator keep the policy file valid and widen access
    only where they say so.  A refused or failed change leaves the file as it
    was.  After any sequence of changes on a missing or valid file, the policy
    still loads, with at most [max_rules] rules of each kind, all valid and
    their IDs distinct; the denylist is open only if it was or a confirmed
    change opened it; every allow rule was there or comes from a pattern that
    was granted; no blocked rule is lost without an unblock; and switching
    modes back and forth changes no rule. *)
Theorem policy_changes_safe (cs : list (bool * change)) (file : option text) (p : Policy) :
  decodes_what_it_wrote -> for_change file = Ok p ->
  (forall ok c file' e, snd (apply' ok c file') = Err e -> fst (apply' ok c file') = file')
  /\ exists p', for_change (run_changes sha256_hex from_slice decode_policy decode_rows to_vec max_rules cs file) = Ok p'
    /\ good_policy p'
    /\ (mode p' = Denylist -> mode p = Denylist \/ exists ok, (ok, SetMode Denylist true) ∈ cs)
    /\ (forall r, r ∈ rules p' -> r ∈ rules p
          \/ exists ok patterns grp sds, (ok, Allow patterns grp sds) ∈ cs /\ came_from grp patterns r)
    /\ ((forall ok raw, (ok, Unblock raw) ∉ cs) -> forall r, r ∈ blocked p -> r ∈ blocked p')
    /\ (Forall (fun '(ok, c) => exists m b, c = SetMode m b) cs -> rules p' = rules p /\ blocked p' = blocked p).
Proof.
  intros Hj Hp. split.
  - intros ok c f e. destruct c; cbn [apply_change]; unfold allow_rules, deny, set_mode, block_rules, unblock, commit_policy;
      (destruct (_ ≫= save_policy _ _ _ _ _ _); cbn [snd fst]; [by destruct ok | done]).
  - destruct (changes_inv cs Hj file p Hp) as (p' & Hp' & H). exists p'. split; [exact Hp'|]. split; [|exact H].
    by eapply for_change_good.
Qed.
End Proofs.

(** ** A run *)

Section Small.
Import SmallUrl.

Definition rule_tuple (r : Rule) : text * text * text * list text := (rule_id r, pattern r, group r, seeds r).
Definition policy_tuple (p : Policy) : Z * list (text * text * text * list text) * bool * list (text * text * text * list text) * text :=
  (version p, map rule_tuple (rules p), bool_decide (mode p = Denylist), map rule_tuple (blocked p), revision p).
Definition tuple_rule (t : text * text * text * list text) : Rule := let '(i, p, g, s) := t in MkRule i p g s.
Definition tuple_policy (t : Z * list (text * text * text * list text) * bool * list (text * text * text * list text) * text) : Policy :=
  let '(v, rs, m, bs, rev) := t in MkPolicy v (map tuple_rule rs) (if m : bool then Denylist else Allowlist) (map tuple_rule bs) rev.

Lemma tuple_rules rs : map tuple_rule (map rule_tuple rs) = rs.
Proof. induction rs as [|[i p g s] rs IH]; simpl; [done | by f_equal]. Qed.
Lemma tuple_policy_of p : tuple_policy (policy_tuple p) = p.
Proof. destruct p as [v rs m bs rev]. unfold tuple_policy, policy_tuple. simpl. rewrite !tuple_rules. by destruct m. Qed.

(** A file of one number. *)
Definition small_vec (p : Policy) : text := [Zpos (encode (policy_tuple p))].
Definition small_slice (s : text) : option json :=
  match s with [Zpos n] => Some (JObj [(T "version", JInt 1); (T "document", JInt (Zpos n))]) | _ => None end.
Definition small_decode (j : json) : option Policy :=
  match j with
  | JObj [_; (_, JInt (Zpos n))] =>
      t ← decode n; let p := tuple_policy t in Some (MkPolicy (version p) (rules p) (mode p) (blocked p) [])
  | _ => None
  end.
Definition no_rows (j : json) : option (list Legacy) := None.

Lemma small_decodes : decodes_what_it_wrote small_slice small_decode small_vec.
Proof.
  intros p _. exists (JObj [(T "version", JInt 1); (T "document", JInt (Zpos (encode (policy_tuple p))))]).
  split; [done|]. split; [by eexists|]. unfold small_decode. rewrite decode_encode. cbn [mbind option_bind]. by rewrite tuple_policy_of.
Qed.

Definition small_run : list (bool * change) :=
  [(true, Allow [T "https://docs.example.org/*"] (T "docs") []); (true, SetMode Denylist false); (true, SetMode Denylist true);
   (true, Block [T "https://example.net"]); (false, Allow [T "https://lost.example.org/*"] (T "docs") []); (true, SetMode Allowlist false)].
Definition small_file : option text := run_changes small_sha small_slice small_decode no_rows small_vec 4 small_run None.

Lemma policy_changes_safe_witness :
  (exists p, policy_for_change small_sha small_slice small_decode no_rows 4 small_file = Ok p /\ good_policy 4 p
     /\ (forall r, r ∈ rules p -> r ∈ rules empty_policy
           \/ exists ok patterns grp sds, (ok, Allow patterns grp sds) ∈ small_run /\ came_from small_sha grp patterns r))
  /\ (p ← policy_for_change small_sha small_slice small_decode no_rows 4 small_file;
      Ok (map pattern (rules p), mode p, map pattern (blocked p)) : result harness_error _)
     = Ok ([T "https://docs.example.org/*"], Allowlist, [T "https://example.net/*"; T "https://*.example.net/*"]).
Proof.
  destruct (policy_changes_safe small_sha small_slice small_decode no_rows small_vec 4 small_run None empty_policy small_decodes eq_refl)
    as (_ & p & Hp & Hg & _ & Hr & _).
  split; [|vm_compute; reflexivity]. exists p. split; [exact Hp|]. split; [exact Hg | exact Hr].
Defined.

(** A row of the old file whose host starts with a wildcard becomes a rule for
    every subdomain, although a row is meant to name one host: the host is
    checked for being non-empty only. *)
Lemma legacy_host_wildcard_widens :
  exists r, legacy_rule small_sha (MkLegacy (T "https") (T "*.example.org") [] (T "/docs") []) = Ok r
    /\ rule_permits r (MkUrl (T "https") (T "a.example.org") (T "/docs") None None) = true
    /\ rule_permits r (MkUrl (T "https") (T "b.a.example.org") (T "/docs") None None) = true.
Proof. eexists. split; [vm_compute; reflexivity|]. split; vm_compute; reflexivity. Qed.
End Small.
