(* ===== verification/WebFetch.v ===== *)
(** Reading one page, [get_raw_paced] and what it calls in
    [server/web_search.rs], with the saved pages of an account.

    The policy file may be changed by others whenever the fetch does not hold
    it, so every step that reads it first lets [others] run.  DNS, the HTTP
    exchange and the extraction worker are operations of the environment; any
    of them may answer with the error of the deadline.  The pacing of public
    searches ([pace]) is left out: page reads pass [None]. *)

From S2P Require Import Prelude Text Effects Owners NetScope PublicAddr WebPolicy WebRules.
Local Open Scope Z_scope.

Definition MAX_PINNED_ADDRESSES : nat := 32.
Definition MAX_HEADER_BYTES : Z := 16384.

Record Page := MkPage {
  page_url : text; title : text; page_text : text; links : list text;
  page_status : Z; content_type : text; bytes : Z; transfer_bytes : Z; chars : Z;
  fetched_at : Z; content_hash : text; extraction_version : Z; policy_revision : text;
  etag : option text; last_modified : option text; via : option text;
}.

(** What came back; the body is the chunks, each one read or a failed read. *)
Record Response := MkResponse {
  status_code : Z; header_bytes : Z; content_length : option Z; content_encoding : option text;
  type_header : option text; etag_header : option text; modified_header : option text;
  chunks : list (option (list Z));
}.

Definition web (c : string) : harness_error := err_code c.

(** [validate_addresses] *)
Definition validate_addresses (addresses : list IpAddr) : result harness_error unit :=
  _ ← refuse_if (bool_decide (addresses = [])) (web "WEB_DNS");
  refuse_if ((MAX_PINNED_ADDRESSES <? length addresses)%nat || existsb (fun a => negb (is_public_ip a)) addresses) (web "WEB_SSRF_DENIED").

Definition is_redirection (s : Z) : bool := in_range 300 399 s.
Definition is_success (s : Z) : bool := in_range 200 299 s.

(** [str::trim_matches] for the brackets of an IPv6 host. *)
Definition bracket (c : char) : bool := (c =? 91) || (c =? 93).
Definition trim_brackets (s : text) : text := trim_end bracket (trim_start bracket s).

(** The media type without its parameters. *)
Definition media_type (h : option text) : text := map to_ascii_lower (trim (before (fun c => c =? 59) (from_option id [] h))).
Definition TEXT_TYPES : list text := [T "text/plain"; T "text/html"; T "application/xhtml+xml"; T "text/markdown"].

(** The body, at most [limit] bytes. *)
Fixpoint read_chunks (limit : Z) (acc : list Z) (cs : list (option (list Z))) : result harness_error (list Z) :=
  match cs with
  | [] => Ok acc
  | None :: _ => Err (web "WEB_FETCH_FAILED")
  | Some c :: cs =>
      if limit <? Z.of_nat (length acc + length c) then Err (web "WEB_TOO_LARGE") else read_chunks limit (acc ++ c) cs
  end.

Section Fetch.
Context {UC : UrlCrate} (sha256_hex : text -> text).

Definition validate_page (page : Page) (p : Policy) (g : option text) : result harness_error unit :=
  _ ← authorize p (page_url page) g;
  refuse_if (negb (extraction_version page =? 1) || negb (byte_len (policy_revision page) =? 64)
             || negb (teqb (content_hash page) (sha256_hex (page_text page))) || (128 <? length (links page))%nat) (web "WEB_EVIDENCE_INVALID").

(** A request carries the validators of the cached page. *)
Record Request := MkRequest { target : Url; addresses : list IpAddr; if_none_match : option text; if_modified_since : option text }.

Inductive fetch_act :=
| Loaded (p : Policy)
| Resolved (host : text) (port : Z)
| Sent (r : Request).

Context {W : Type}.
Record fetch_env := MkEnv {
  others : W -> W;
  load_policy : W -> result harness_error Policy;
  lookup_host : text -> Z -> W -> W * result harness_error (list IpAddr);
  send : Request -> W -> W * result harness_error Response;
  (* the body as text, its title, its text, its links *)
  extract : list Z -> text -> Url -> W -> W * result harness_error (text * (text * text * list text));
  now_ts : W -> Z;
}.
Context (env : fetch_env) (response_bytes : Z).

Abbreviation fetching := (eff W fetch_act harness_error).

(** [WebTool::policy] *)
Definition read_policy : fetching Policy := fun s =>
  let w := others env (world s) in
  match load_policy env w with
  | Ok p => (St w (trace s ++ [Did (Loaded p)]), Ok p)
  | Err e => (St w (trace s), Err e)
  end.

(** [lookup_bounded] keeps one answer more than may be pinned. *)
Definition lookup_bounded (host : text) (port : Z) (w : W) : W * result harness_error (list IpAddr) :=
  let '(w, r) := lookup_host env host port w in
  (w, match r with Ok answers => Ok (take (MAX_PINNED_ADDRESSES + 1) answers) | Err _ => Err (web "WEB_DNS") end).

(** [pinned_client]: the addresses that the client may connect to. *)
Definition pinned_client (u : Url) : fetching (list IpAddr) :=
  let host := trim_brackets (from_option id [] (host_str u)) in
  let port := from_option id 0 (port_or_known_default u) in
  addresses ← call (Resolved host port) (lookup_bounded host port);
  _ ← lift (validate_addresses addresses);
  mret addresses.

(** The validators of the cached page, when it is still valid evidence of this target. *)
Definition conditional (current : Policy) (g : option text) (u : Url) (cached : option Page) : result harness_error (option text * option text) :=
  match cached with
  | None => Ok (None, None)
  | Some page =>
      _ ← validate_page page current g;
      _ ← refuse_if (negb (teqb (page_url page) (to_string u))) (web "WEB_EVIDENCE_INVALID");
      mret (etag page, last_modified page)
  end.

Definition with_transfer (p : Page) (n : Z) : Page :=
  MkPage (page_url p) (title p) (page_text p) (links p) (page_status p) (content_type p) (bytes p) n (chars p)
    (fetched_at p) (content_hash p) (extraction_version p) (policy_revision p) (etag p) (last_modified p) (via p).
Definition stamped (p : Page) (at_ : Z) (rev : text) : Page :=
  MkPage (page_url p) (title p) (page_text p) (links p) (page_status p) (content_type p) (bytes p) (transfer_bytes p) (chars p)
    at_ (content_hash p) (extraction_version p) rev (etag p) (last_modified p) (via p).

Definition extract_in_worker (body : list Z) (kind : text) (u : Url) : fetching (text * (text * text * list text)) :=
  fun s => let '(w, x) := extract env body kind u (world s) in (St w (trace s), x).

(** The page of a response: the cached one for 304, else the extracted body. *)
Definition page_of (policy : Policy) (u : Url) (cached : option Page) (r : Response) : fetching (Page * text) :=
  _ ← lift (refuse_if (MAX_HEADER_BYTES <? header_bytes r) (web "WEB_HEADERS_TOO_LARGE"));
  if status_code r =? 304 then
    page ← lift (ok_or cached (web "WEB_FETCH_FAILED"));
    mret (with_transfer page 0, [])
  else
    _ ← lift (refuse_if (is_redirection (status_code r)) (web "WEB_REDIRECT_REFUSED"));
    _ ← lift (refuse_if (negb (is_success (status_code r))) (web "WEB_FETCH_FAILED"));
    _ ← lift (refuse_if (match content_length r with Some n => response_bytes <? n | None => false end) (web "WEB_TOO_LARGE"));
    _ ← lift (refuse_if (match content_encoding r with Some v => negb (teqb v (T "identity")) | None => false end) (web "WEB_ENCODING_REFUSED"));
    let kind := media_type (type_header r) in
    _ ← lift (refuse_if (negb (bool_decide (kind ∈ TEXT_TYPES))) (web "WEB_NOT_TEXT"));
    body ← lift (read_chunks response_bytes [] (chunks r));
    '(raw_body, (ttl, txt, lks)) ← extract_in_worker body kind u;
    mret (MkPage (to_string u) ttl txt lks (status_code r) kind (Z.of_nat (length body)) (Z.of_nat (length body)) (Z.of_nat (length txt))
            0 (sha256_hex txt) 1 (revision policy) (etag_header r) (modified_header r) None, raw_body).

(** [get_raw_paced] with no pace. *)
Definition get_raw (raw : text) (g : option text) (cached : option Page) : fetching (Page * text) :=
  policy ← read_policy;
  u ← lift (authorize_read policy raw g);
  addresses ← pinned_client u;
  current ← read_policy;
  _ ← lift (authorize_read current (to_string u) g);
  _ ← lift (refuse_if (negb (teqb (revision current) (revision policy))) (web "WEB_POLICY_CHANGED"));
  '(tag, modified) ← lift (conditional current g u cached);
  let request := MkRequest u addresses tag modified in
  response ← call (Sent request) (send env request);
  '(page, raw_body) ← page_of policy u cached response;
  current ← read_policy;
  _ ← lift (authorize_read current (page_url page) g);
  _ ← lift (refuse_if (negb (teqb (revision current) (revision policy))) (web "WEB_POLICY_CHANGED"));
  at_ ← asks (now_ts env);
  mret (stamped page at_ (revision current), raw_body).
End Fetch.

(** ** Proofs *)

Section Proofs.
Context {UC : UrlCrate} (sha256_hex : text -> text) {W : Type} (env : @fetch_env UC W) (response_bytes : Z).

Local Abbreviation evs := (list (effect (@fetch_act UC))).

Lemma lift_inv {F E A} (x : result E A) (s s' : st W F) r : lift x s = (s', r) -> s' = s /\ r = x.
Proof. by intros [= <- <-]. Qed.

Lemma read_policy_inv s s' r : read_policy env s = (s', r) ->
  (exists p, r = Ok p /\ trace s' = trace s ++ [Did (Loaded p)]) \/ (exists e, r = Err e /\ trace s' = trace s).
Proof. unfold read_policy. destruct (load_policy env _) as [p|e]; intros [= <- <-]; [left | right]; eauto. Qed.

Lemma validate_addresses_Ok l : validate_addresses l = Ok tt ->
  l <> [] /\ (length l <= MAX_PINNED_ADDRESSES)%nat /\ Forall (fun a => is_public_ip a = true) l.
Proof.
  unfold validate_addresses. intros H. apply bind_Ok_inv in H as ([] & H1 & H2).
  apply refuse_if_Ok, bool_decide_eq_false in H1. apply refuse_if_Ok, orb_false_iff in H2 as [H2%Nat.ltb_ge H3].
  split; [done|]. split; [done|]. apply Forall_forall. intros a Ha.
  destruct (is_public_ip a) eqn:E; [done|]. rewrite <- not_true_iff_false, existsb_exists in H3.
  destruct H3. exists a. rewrite E. split; [by apply list_elem_of_In | done].
Qed.

Lemma pinned_client_inv u s s' r : pinned_client env u s = (s', r) ->
  exists host port, trace s' = trace s ++ [Did (Resolved host port)] /\ host = trim_brackets (from_option id [] (host_str u))
    /\ forall l, r = Ok l -> validate_addresses l = Ok tt.
Proof.
  unfold pinned_client, mbind, eff_bind, call. intros H. do 2 eexists.
  destruct (lookup_bounded env _ _ (world s)) as [w [l|e]]; [|by injection H as <- <-].
  unfold lift in H. destruct (validate_addresses l) as [[]|e] eqn:E; injection H as <- <-; (split; [done|]; split; [done|]); [|done].
  by intros l' [= <-].
Qed.

Lemma read_chunks_bound limit acc cs b : (Z.of_nat (length acc) <= limit) -> read_chunks limit acc cs = Ok b -> Z.of_nat (length b) <= limit.
Proof.
  revert acc. induction cs as [|[c|] cs IH]; intros acc Ha H; simpl in H; [by injection H as <-| |done].
  destruct (Z.ltb_spec limit (Z.of_nat (length acc + length c))); [done|]. apply (IH (acc ++ c)); [rewrite length_app; lia | done].
Qed.

(** A page is the extracted body of this exchange, or the cached one. *)
Lemma page_of_inv pol u cached x s s' r : page_of sha256_hex env response_bytes pol u cached x s = (s', r) ->
  trace s' = trace s
  /\ forall page body, r = Ok (page, body) ->
       (page_url page = to_string u /\ content_hash page = sha256_hex (page_text page) /\ extraction_version page = 1
        /\ (0 <= response_bytes -> bytes page <= response_bytes))
       \/ (exists old, cached = Some old /\ page_url page = page_url old /\ content_hash page = content_hash old
             /\ page_text page = page_text old /\ extraction_version page = extraction_version old /\ bytes page = bytes old).
Proof.
  unfold page_of. intros H. eff_step H; [apply lift_inv in H0 as [-> _]; done|]. apply lift_inv in H0 as [-> _].
  destruct (status_code x =? 304).
  - eff_step H; [apply lift_inv in H0 as [-> _]; done|]. apply lift_inv in H0 as [-> H0]. injection H as <- <-. split; [done|].
    intros page body [= <- <-]. right. symmetry in H0. apply ok_or_Ok in H0. by exists a0.
  - do 5 (eff_step H; [apply lift_inv in H0 as [-> _]; done|]; apply lift_inv in H0 as [-> _]).
    eff_step H; [apply lift_inv in H0 as [-> _]; done|]. apply lift_inv in H0 as [-> Hb]. symmetry in Hb.
    unfold extract_in_worker, mbind, eff_bind in H. cbv beta in H.
    destruct (extract env _ _ _ _) as [w [[raw_body [[ttl txt] lks]]|e]]; injection H as <- <-; (split; [done|]); [|done].
    intros page body [= <- <-]. left. repeat split. intros Hr. apply read_chunks_bound in Hb; [exact Hb | simpl; lia].
Qed.

Lemma conditional_inv current g u cached v : conditional sha256_hex current g u cached = Ok v ->
  forall old, cached = Some old -> page_url old = to_string u /\ content_hash old = sha256_hex (page_text old) /\ extraction_version old = 1.
Proof.
  intros H old ->. simpl in H. apply bind_Ok_inv in H as ([] & Hv & H). apply bind_Ok_inv in H as ([] & Hu & _).
  apply refuse_if_Ok, negb_false_iff, teqb_eq in Hu. unfold validate_page in Hv. apply bind_Ok_inv in Hv as (x & _ & Hv).
  apply refuse_if_Ok in Hv. apply orb_false_iff in Hv as [Hv _]. apply orb_false_iff in Hv as [Hv H3]. apply orb_false_iff in Hv as [H1 _].
  apply negb_false_iff in H1, H3. apply Z.eqb_eq in H1. apply teqb_eq in H3. done.
Qed.

(** The events before a request, and what was checked on the way to it. *)
Record asked_policy (raw : text) (g : option text) (q : Request) (before : evs) : Prop := {
  ap_shape : exists p1 port p2,
    before = [Did (Loaded p1); Did (Resolved (trim_brackets (from_option id [] (host_str (target q)))) port); Did (Loaded p2)]
    /\ authorize_read p1 raw g = Ok (target q) /\ is_ok (authorize_read p2 (to_string (target q)) g) = true
    /\ revision p2 = revision p1;
  ap_addresses : addresses q <> [] /\ (length (addresses q) <= MAX_PINNED_ADDRESSES)%nat;
  ap_public : Forall (fun a => is_ip a -> ~ special a) (addresses q);
}.
(** A page that is handed out: still permitted by the policy that was loaded
    last, which is the one the fetch began with. *)
Record delivered (g : option text) (l : evs) (cached : option Page) (page : Page) : Prop := {
  dv_policy : exists p1 p3 l1, l = Did (Loaded p1) :: l1 ++ [Did (Loaded p3)]
    /\ is_ok (authorize_read p3 (page_url page) g) = true /\ revision p3 = revision p1 /\ policy_revision page = revision p3;
  dv_sent : exists q, Did (Sent q) ∈ l /\ page_url page = to_string (target q);
  dv_hash : content_hash page = sha256_hex (page_text page) /\ extraction_version page = 1;
  dv_bytes : bytes page <= response_bytes \/ exists old, cached = Some old /\ page_text page = page_text old;
}.

Definition sends_nothing (l : evs) : Prop := forall q, Did (Sent q) ∉ l.

(** What the trace of a fetch has to be. *)
Definition fetch_ok (raw : text) (g : option text) (cached : option Page) (l : evs) (r : result harness_error (Page * text)) : Prop :=
  (sends_nothing l \/ exists q before after, l = before ++ [Did (Sent q)] ++ after /\ sends_nothing before /\ sends_nothing after
                                             /\ asked_policy raw g q before)
  /\ forall page body, r = Ok (page, body) -> delivered g l cached page.

Lemma public_not_special l : validate_addresses l = Ok tt -> Forall (fun a => is_ip a -> ~ special a) l.
Proof.
  intros (_ & _ & H)%validate_addresses_Ok. eapply Forall_impl; [exact H|]. intros [a|g] Ha Hip; simpl in Ha.
  - by apply (public_v4_exact a).
  - by apply (public_v6_exact g).
Qed.

Lemma fetch_stopped raw g cached l e : sends_nothing l -> fetch_ok raw g cached l (Err e).
Proof. intros H. split; [by left | done]. Qed.

(** The fetch from the request on. *)
Definition rest_of_fetch (g : option text) (cached : option Page) (policy : Policy) (q : Request) : eff W fetch_act harness_error (Page * text) :=
  response ← call (Sent q) (send env q);
  '(page, raw_body) ← page_of sha256_hex env response_bytes policy (target q) cached response;
  current ← read_policy env;
  _ ← lift (authorize_read current (page_url page) g);
  _ ← lift (refuse_if (negb (teqb (revision current) (revision policy))) (web "WEB_POLICY_CHANGED"));
  at_ ← asks (now_ts env);
  mret (stamped page at_ (revision current), raw_body).

Lemma after_send raw g cached (s : st W fetch_act) q before p1 p2 v s1 s' r :
  0 <= response_bytes -> asked_policy raw g q before -> sends_nothing before -> (exists l, before = Did (Loaded p1) :: l) ->
  conditional sha256_hex p2 g (target q) cached = Ok v ->
  trace s1 = trace s ++ before -> rest_of_fetch g cached p1 q s1 = (s', r) ->
  exists l, trace s' = trace s ++ l /\ fetch_ok raw g cached l r.
Proof.
  intros Hlim Hask Hno Hex Hc T H. unfold rest_of_fetch in H.
  assert (Hstop : forall after e, sends_nothing after -> fetch_ok raw g cached (before ++ [Did (Sent q)] ++ after) (Err e)).
  { intros after e Ha. split; [|done]. right. exists q, before, after. done. }
  eff_step H; unfold call in H0; destruct (send env q (world s1)) as [w x]; injection H0 as <- Hx.
  { exists (before ++ [Did (Sent q)] ++ []). simpl. rewrite T, app_assoc. split; [done|]. apply Hstop. intros y. apply not_elem_of_nil. }
  set (s2 := St w _) in *. assert (T2 : trace s2 = trace s ++ before ++ [Did (Sent q)]) by (unfold s2; simpl; by rewrite T, app_assoc). clearbody s2.
  eff_step H; apply page_of_inv in H0 as [T3 Hpage]; rewrite T2 in T3.
  { exists (before ++ [Did (Sent q)] ++ []). split; [done|]. apply Hstop. intros y. apply not_elem_of_nil. }
  destruct a0 as [page body]. specialize (Hpage _ _ eq_refl).
  eff_step H.
  { apply read_policy_inv in H0 as [(p & ? & _)|(e' & _ & T4)]; [done|]. rewrite T3 in T4.
    exists (before ++ [Did (Sent q)] ++ []). split; [done|]. apply Hstop. intros y. apply not_elem_of_nil. }
  apply read_policy_inv in H0 as [(p3 & Hp3 & T4)|(? & ? & _)]; [|done]. injection Hp3 as <-. rewrite T3, <- !app_assoc in T4.
  assert (Hn3 : sends_nothing [Did (Loaded a0)]) by (intros y; rewrite list_elem_of_singleton; done).
  eff_step H; apply lift_inv in H0 as [-> Ha3]; [eexists; split; [exact T4 | by apply Hstop]|].
  eff_step H; apply lift_inv in H0 as [-> Hrev]; [eexists; split; [exact T4 | by apply Hstop]|]. symmetry in Ha3, Hrev. apply refuse_if_Ok, negb_false_iff, teqb_eq in Hrev.
  unfold asks, mbind, eff_bind in H. injection H as <- <-. eexists. split; [exact T4|]. split.
  { right. exists q, before, [Did (Loaded a0)]. done. }
  intros page' body' [= <- <-]. constructor; simpl.
  - destruct Hex as [l0 ->]. exists p1, a0, (l0 ++ [Did (Sent q)]). simpl. rewrite <- app_assoc, Ha3. done.
  - exists q. split; [rewrite !elem_of_app; right; left; apply list_elem_of_here|].
    destruct Hpage as [(Hu & _)|(old & Hold & Hu & _)]; [done|]. by destruct (conditional_inv _ _ _ _ _ Hc _ Hold) as [<- _].
  - destruct Hpage as [(_ & Hh & Hv & _)|(old & Hold & _ & -> & -> & -> & _)]; [done|].
    by destruct (conditional_inv _ _ _ _ _ Hc _ Hold) as (_ & ? & ?).
  - destruct Hpage as [(_ & _ & _ & Hb)|(old & Hold & _ & _ & Ht & _)]; [left; by apply Hb | right; eauto].
Qed.

Lemma get_raw_ok raw g cached (s s' : st W fetch_act) r : 0 <= response_bytes -> get_raw sha256_hex env response_bytes raw g cached s = (s', r) ->
  exists l, trace s' = trace s ++ l /\ fetch_ok raw g cached l r.
Proof.
  intros Hlim. unfold get_raw. intros H.
  eff_step H.
  { apply read_policy_inv in H0 as [(p & ? & _)|(e' & _ & ->)]; [done|]. exists []. rewrite app_nil_r. split; [done|]. apply fetch_stopped. intros q. apply not_elem_of_nil. }
  apply read_policy_inv in H0 as [(p1 & Hp1 & T1)|(? & ? & _)]; [|done]. injection Hp1 as <-.
  eff_step H; [apply lift_inv in H0 as [-> _]; eexists; split; [exact T1|]; apply fetch_stopped; intros q; set_solver|].
  apply lift_inv in H0 as [-> Ha1]. symmetry in Ha1.
  eff_step H; apply pinned_client_inv in H0 as (host & port & T2 & Hh & Hadr); rewrite T1, <- app_assoc in T2;
    [eexists; split; [exact T2|]; apply fetch_stopped; intros q; set_solver|].
  specialize (Hadr _ eq_refl).
  eff_step H.
  { apply read_policy_inv in H0 as [(p & ? & _)|(e' & _ & T3)]; [done|]. rewrite T2 in T3. eexists. split; [exact T3|]. apply fetch_stopped. intros q. set_solver. }
  apply read_policy_inv in H0 as [(p2 & Hp2 & T3)|(? & ? & _)]; [|done]. injection Hp2 as <-. rewrite T2, <- app_assoc in T3.
  assert (Hstop : forall e, fetch_ok raw g cached [Did (Loaded a); Did (Resolved host port); Did (Loaded a2)] (Err e)) by (intros e; apply fetch_stopped; intros q; set_solver).
  eff_step H; apply lift_inv in H0 as [-> Ha2]; [eexists; split; [exact T3 | apply Hstop]|].
  eff_step H; apply lift_inv in H0 as [-> Hrev]; [eexists; split; [exact T3 | apply Hstop]|].
  eff_step H; apply lift_inv in H0 as [-> Hc]; [eexists; split; [exact T3 | apply Hstop]|]. symmetry in Ha2, Hrev, Hc.
  apply refuse_if_Ok, negb_false_iff, teqb_eq in Hrev. destruct a5 as [tag modified].
  set (q := MkRequest _ _ tag modified) in *. cbn [app] in T3.
  pose (before := [Did (Loaded a); Did (Resolved host port); Did (Loaded a2)] : evs).
  assert (Hask : asked_policy raw g q before).
  { constructor; [|by destruct (validate_addresses_Ok _ Hadr) as (? & ? & _) | by apply public_not_special].
    exists a, port, a2. unfold before. rewrite Hh. repeat split; [exact Ha1 | unfold q; cbn [target]; by rewrite Ha2 | done]. }
  refine (after_send raw g cached s q before a a2 (tag, modified) _ s' r Hlim Hask _ _ Hc T3 H); [intros y; unfold before; set_solver | by eexists].
Qed.

(** C8. A page read asks the policy before, during and after.  At most one
    request leaves the program.  Before it, the policy file was loaded, the
    target is a URL that this policy permits, the host was resolved to between
    one and 32 addresses, none of them in a special-purpose block, and the file
    was loaded again: it still permits the target and has the same revision.
    A page is handed out only if the file, loaded a last time, still has that
    revision and permits the page; it is the page of the requested URL, its
    hash is the hash of its text, and its body is within the limit unless the
    server confirmed the cached page. *)
Theorem fetch_asks_policy (raw : text) (g : option text) (cached : option Page) (s s' : st W fetch_act) r :
  0 <= response_bytes -> get_raw sha256_hex env response_bytes raw g cached s = (s', r) ->
  exists l, trace s' = trace s ++ l /\ fetch_ok raw g cached l r.
Proof. apply get_raw_ok. Qed.
End Proofs.

Section Run.
Import SmallUrl.

Definition with_revision (p : Policy) (rev : text) : Policy := MkPolicy (version p) (rules p) (mode p) (blocked p) rev.
(** The world counts the times that others ran; they change the file at the
    [change_at]-th. *)
Definition run_env (change_at : nat) (answers : list IpAddr) : @fetch_env small_crate nat := {|
  others := S;
  load_policy w := Ok (with_revision docs_policy (T (if (w <? change_at)%nat then "one" else "two")));
  lookup_host host port w := (w, Ok answers);
  send q w := (w, Ok (MkResponse 200 100 (Some 2) None (Some (T "Text/HTML; charset=utf-8")) None None [Some [104; 105]]));
  extract body kind u w := (w, Ok (body, (T "title", body, [])));
  now_ts w := Z.of_nat w;
|}.
Definition public_answer : list IpAddr := [V4 (ipv4 93 184 216 34)].
Definition run (change_at : nat) (answers : list IpAddr) :=
  get_raw small_sha (run_env change_at answers) 1024 (T "https://a.example.org/docs/x") None None (St O []).
Definition sent_count (l : list (effect (@fetch_act small_crate))) : nat :=
  length (List.filter (fun e => match e with Did (Sent _) => true | _ => false end) l).

Lemma fetch_asks_policy_witness :
  (exists l, trace (fst (run 9 public_answer)) = l /\ fetch_ok small_sha 1024 (T "https://a.example.org/docs/x") None None l (snd (run 9 public_answer)))
  /\ is_ok (snd (run 9 public_answer)) = true /\ sent_count (trace (fst (run 9 public_answer))) = 1%nat
  /\ snd (run 2 public_answer) = Err (web "WEB_POLICY_CHANGED") /\ sent_count (trace (fst (run 2 public_answer))) = 0%nat
  /\ snd (run 3 public_answer) = Err (web "WEB_POLICY_CHANGED") /\ sent_count (trace (fst (run 3 public_answer))) = 1%nat
  /\ snd (run 9 [V4 (ipv4 10 0 0 1)]) = Err (web "WEB_SSRF_DENIED").
Proof.
  split; [|repeat split; vm_compute; reflexivity].
  destruct (fetch_asks_policy small_sha (run_env 9 public_answer) 1024 (T "https://a.example.org/docs/x") None None (St O [])
              (fst (run 9 public_answer)) (snd (run 9 public_answer))) as (l & Hl & Hok); [lia | by destruct (run 9 public_answer) eqn:E; exact E|].
  exists l. split; [exact Hl | exact Hok].
Defined.
End Run.
