(* ===== verification/LoopRunner.v ===== *)
(** The server-side [/loop] runner, [server/loop_runner.rs]: the manager of
    runs, the stop conditions, the stall detector and the turn loop
    [run_turns].

    A chat turn ([chat_inner]), the account check ([current_authority]), the
    cancellation token and the run's entry in the manager are reached through
    parameters of the world; the recognition of the completion marker is a
    regular expression and a parameter.  Unicode lower-casing and the
    alphanumeric class are parameters. *)

From S2P Require Import Prelude Text Effects.
Local Open Scope Z_scope.

Definition LOOP_GOAL_REMINDER_CHARS : nat := 2000.
Definition LOOP_STALL_MAX_WORDS : nat := 2000.
Definition LOOP_BLOCKING_WEB_CODES : list text :=
  map T ["WEB_ALLOWLIST_EMPTY"; "WEB_GOOGLE_PERMISSION"; "WEB_TOOL_DENIED"; "WEB_POLICY_UNAVAILABLE"; "WEB_DISABLED"]%string.

Definition sat_add_u64 (a b : Z) : Z := Z.min (2 ^ 64 - 1) (a + b).

(** ** Web events of a turn *)

Definition event_ok (b : bool) (e : json) : bool :=
  match get e (T "ok") with Some (JBool b') => Bool.eqb b b' | _ => false end.
Definition event_code (e : json) : option text := get e (T "code") ≫= as_str.
Definition has_code (codes : list text) (e : json) : bool :=
  match event_code e with Some c => bool_decide (c ∈ codes) | None => false end.
Definition is_empty {A} (l : list A) : bool := match l with [] => true | _ => false end.

Definition loop_blocking_web_code (events : list json) : option text :=
  let failed := List.filter (event_ok false) events in
  if is_empty failed then None else
  match List.find (has_code LOOP_BLOCKING_WEB_CODES) failed with
  | Some e => event_code e
  | None =>
      if negb (existsb (event_ok true) events)
         && forallb (fun e => has_code [T "WEB_TOKEN_BUDGET"] e
                              && match get e (T "tool") ≫= as_str with Some t => teqb t (T "web") | None => false end) failed
      then Some (T "WEB_TOKEN_BUDGET") else None
  end.

Definition next_tool_failures (previous : Z) (events : list json) : Z :=
  let failed := List.filter (event_ok false) events in
  if is_empty failed || existsb (event_ok true) events then 0
  else if forallb (has_code [T "WEB_SEARCH_COOLDOWN"; T "WEB_SEARCH_PACED"]) failed then previous
  else previous + 1.

(** ** The stall detector *)

Section Stall.
Context (lower : text -> text) (alphanumeric : char -> bool).

Fixpoint words_from (current s : text) : list text :=
  match s with
  | [] => if is_empty current then [] else [current]
  | c :: s =>
      if alphanumeric c || (c =? 95) then words_from (current ++ [c]) s
      else if is_empty current then words_from [] s
      else current :: words_from [] s
  end.
Definition loop_words (t : text) : list text := words_from [] (lower t).

(** One row of the table: [diag] is [prev[j]], [left] is [row[j]]. *)
Fixpoint next_row (aw : text) (bs : list text) (diag left : nat) (above : list nat) : list nat :=
  match bs, above with
  | bw :: bs, up :: above =>
      let here := if teqb aw bw then S diag else Nat.max up left in
      here :: next_row aw bs up here above
  | _, _ => []
  end.

(** The row after the words [ws], from the row before them; [row[0]] is 0. *)
Fixpoint rows (ws bs : list text) (row : list nat) : list nat :=
  match ws with [] => row | aw :: ws => rows ws bs (next_row aw bs 0 0 row) end.

Definition lcs_row (ws bs : list text) : nat := List.last (rows ws bs (repeat O (length bs))) O.

(** [2.0 * l / n >= 0.9] on f64 agrees with the exact comparison for the sizes
    at hand, [n <= 4000]. *)
Definition replies_nearly_repeat (previous next : text) : bool :=
  let a := take LOOP_STALL_MAX_WORDS (loop_words previous) in
  let b := take LOOP_STALL_MAX_WORDS (loop_words next) in
  if is_empty a || is_empty b then teqb (trim previous) (trim next)
  else if bool_decide (a = b) then true
  else if (length a <? 12)%nat || (length b <? 12)%nat then false
  else (9 * (length a + length b) <=? 20 * lcs_row a b)%nat.
End Stall.

(** ** Runs *)

Record LoopLimits := MkLimits { max_turns : Z; max_total_completion_tokens : Z; max_failures : Z; cooldown_ms : Z }.

Inductive LoopRunState := Running | Paused | Stopped | Failed | Done.
#[export] Instance LoopRunState_eq_dec : EqDecision LoopRunState.
Proof. solve_decision. Defined.
Definition terminal (s : LoopRunState) : bool := match s with Running | Paused => false | _ => true end.

Record LoopStats := MkStats {
  turns_completed : Z;
  total_completion_tokens : Z;
  consecutive_failures : Z;
  tool_failures : Z;
  last_reply_preview : text;
}.
Definition default_stats : LoopStats := MkStats 0 0 0 0 [].

(** Why a run is in its state; the source formats these as messages. *)
Inductive run_reason :=
| NoReason
| StoppedByOperator
| TurnBudget (turns : Z)
| TokenBudget (tokens : Z)
| AuthorityLost (why : text)
| BlockingCode (code : text)
| WebReadsFailed (turns : Z)
| GoalDone
| Stalled
| GoalChanged (message : text)
| ChatFailures (n : Z)
| TurnFailed (turn : Z) (code : text).

Record LoopRun := MkRun {
  run_id : text;
  session_id : text;
  goal : text;
  config : LoopLimits;
  state : LoopRunState;
  reason : run_reason;
  stats : LoopStats;
}.
Definition with_stats (r : LoopRun) (s : LoopStats) : LoopRun :=
  MkRun (run_id r) (session_id r) (goal r) (config r) (state r) (reason r) s.
Definition with_reason (r : LoopRun) (why : run_reason) : LoopRun :=
  MkRun (run_id r) (session_id r) (goal r) (config r) (state r) why (stats r).
Definition with_state (r : LoopRun) (s : LoopRunState) (why : run_reason) : LoopRun :=
  MkRun (run_id r) (session_id r) (goal r) (config r) s why (stats r).

(** *** The manager *)

Record LoopEntry := MkEntry { run : LoopRun; cancelled : bool; owner : text }.
Abbreviation LoopManager := (gmap text LoopEntry).

Definition live (e : LoopEntry) : bool := negb (terminal (state (run e))).
Definition of_session (sid : text) (e : LoopEntry) : bool := teqb (session_id (run e)) sid.

Definition start (m : LoopManager) (r : LoopRun) (owner : text) : LoopManager * result harness_error LoopRun :=
  if bool_decide (Exists (fun '(_, e) => of_session (session_id r) e && live e = true) (map_to_list m))
  then (m, Err (err_code "LOOP_IN_FLIGHT"))
  else (<[run_id r := MkEntry r false owner]> (filter (fun '(_, e) => of_session (session_id r) e = false) m), Ok r).

Definition owned_entry (m : LoopManager) (who rid : text) : option LoopEntry :=
  e ← m !! rid; if teqb (owner e) who then Some e else None.
Definition get_run (m : LoopManager) (who rid : text) : option LoopRun := run <$> owned_entry m who rid.

Definition stop (m : LoopManager) (who rid : text) : LoopManager * option LoopRun :=
  match owned_entry m who rid with
  | Some e => (<[rid := MkEntry (run e) true (owner e)]> m, Some (run e))
  | None => (m, None)
  end.

Definition active_for_session (m : LoopManager) (who sid : text) : option LoopRun :=
  (fun '(_, e) => run e) <$>
  List.find (fun '(_, e) => teqb (owner e) who && of_session sid e && live e) (map_to_list m).

(** The turn task stores its progress. *)
Definition store (m : LoopManager) (rid : text) (r : LoopRun) : LoopManager :=
  match m !! rid with
  | Some e => <[rid := MkEntry r (cancelled e) (owner e)]> m
  | None => m
  end.

(** *** A turn's outcome *)

Record ChatValue := MkChatValue { reply : text; completion_tokens : Z; web_tools : list json }.
Record ChatError := MkChatError {
  error_code : text;
  error_message : text;
  known_completion_tokens : option Z;
  error_completion_tokens : option Z;
}.

Section Turns.
Context (lower : text -> text) (alphanumeric : char -> bool) (goal_done : text -> bool).

(** The run after a turn, whether it ends, and the reply to compare with. *)
Definition after_turn (r : LoopRun) (turn : Z) (last_reply : option text) (res : ChatValue + ChatError)
    : LoopRun * option (LoopRunState * run_reason) * option text :=
  let s := stats r in
  match res with
  | inl v =>
      let s' := MkStats (turns_completed s + 1) (sat_add_u64 (total_completion_tokens s) (completion_tokens v)) 0
                        (next_tool_failures (tool_failures s) (web_tools v)) (take 200 (reply v)) in
      let r' := with_stats r s' in
      match loop_blocking_web_code (web_tools v) with
      | Some code => (r', Some (Done, BlockingCode code), last_reply)
      | None =>
          if max_failures (config r) <=? tool_failures s' then (r', Some (Done, WebReadsFailed (max_failures (config r))), last_reply)
          else if goal_done (reply v) then (r', Some (Done, GoalDone), last_reply)
          else if match last_reply with Some p => replies_nearly_repeat lower alphanumeric p (reply v) | None => false end
          then (r', Some (Done, Stalled), last_reply)
          else (r', None, Some (reply v))
      end
  | inr e =>
      if teqb (error_code e) (T "LOOP_GOAL_CHANGED") then (r, Some (Stopped, GoalChanged (error_message e)), last_reply) else
      let spent := match known_completion_tokens e with Some n => n | None => from_option id 0 (error_completion_tokens e) end in
      let s' := MkStats (turns_completed s) (sat_add_u64 (total_completion_tokens s) spent) (consecutive_failures s + 1)
                        (tool_failures s) (last_reply_preview s) in
      let r' := with_reason (with_stats r s') (TurnFailed turn (error_code e)) in
      if max_failures (config r) <=? consecutive_failures s'
      then (r', Some (Failed, ChatFailures (max_failures (config r))), last_reply)
      else (r', None, last_reply)
  end.

(** ** The turn loop *)

Definition split_whitespace (s : text) : list text :=
  (fix go (current s : text) : list text :=
     match s with
     | [] => if is_empty current then [] else [current]
     | c :: s => if is_whitespace c then (if is_empty current then go [] s else current :: go [] s)
                 else go (current ++ [c]) s
     end) [] s.

Definition loop_turn_prompt (turn : Z) (total : option Z) (goal : text) : text :=
  let reminder := take LOOP_GOAL_REMINDER_CHARS (join [c_space] (split_whitespace goal)) in
  let total_label := match total with Some n => show_nat n | None => T "unlimited" end in
  T "Loop turn " ++ show_nat turn ++ T " of " ++ total_label ++ T ". Session goal: " ++ reminder ++ [c_newline]
  ++ T "Follow every constraint in the full stored goal in system context. Do the next concrete step toward this goal; do not repeat or re-summarize earlier replies. Be concise. If the goal is fully satisfied, give a short summary and end with GOAL_DONE on its own line. Stay in this chat; do not request a real-repo write.".

Inductive loop_act :=
| Chatted (user : text) (prompt : text) (r : LoopRun)
| Persisted (r : LoopRun)
| Sent (what : text) (r : LoopRun)
| Slept (ms : Z).

(** What the task reaches outside. *)
Record loop_env (W : Type) := MkLoopEnv {
  entry : W -> option LoopRun;
  put : LoopRun -> W -> W;
  is_cancelled : W -> bool;
  current_authority : W -> result text text;
  chat_inner : text -> text -> LoopRun -> W -> W * (ChatValue + ChatError);
  sleep : Z -> W -> W * bool;
}.
Arguments entry {W} _ _. Arguments put {W} _ _ _. Arguments is_cancelled {W} _ _.
Arguments current_authority {W} _ _. Arguments chat_inner {W} _ _ _ _ _. Arguments sleep {W} _ _ _.

Section Loop.
Context {W : Type} (env : loop_env W).
Abbreviation M := (eff W loop_act Empty_set).

Definition finish (r : LoopRun) (final : LoopRunState) (why : run_reason) : M unit :=
  let r := with_state r final why in
  update (put env r);;
  call (Persisted r) (fun w => (w, Ok tt));;
  log (Event "loop_run_finished" [("run_id", JStr (run_id r)); ("session_id", JStr (session_id r));
         ("turns_completed", JInt (turns_completed (stats r)));
         ("total_completion_tokens", JInt (total_completion_tokens (stats r)))]);;
  call (Sent (T "state") r) (fun w => (w, Ok tt)).

Definition out_of_turns (r : LoopRun) : bool :=
  (0 <? max_turns (config r)) && (max_turns (config r) <=? turns_completed (stats r)).
Definition out_of_tokens (r : LoopRun) : bool :=
  (0 <? max_total_completion_tokens (config r))
  && (max_total_completion_tokens (config r) <=? total_completion_tokens (stats r)).

(** [None] when the fuel runs out. *)
Fixpoint run_turns (fuel : nat) (turn : Z) (last_reply : option text) : M (option unit) :=
  match fuel with
  | O => mret None
  | S fuel =>
      e ← asks (entry env);
      match e with
      | None => mret (Some tt)
      | Some r =>
          c ← asks (is_cancelled env);
          if (c : bool) then finish r Stopped StoppedByOperator;; mret (Some tt)
          else if out_of_turns r then finish r Done (TurnBudget (turns_completed (stats r)));; mret (Some tt)
          else if out_of_tokens r then finish r Done (TokenBudget (total_completion_tokens (stats r)));; mret (Some tt)
          else
            a ← asks (current_authority env);
            match a with
            | Err why => finish r Failed (AuthorityLost why);; mret (Some tt)
            | Ok user =>
                let turn := turn + 1 in
                let total := if 0 <? max_turns (config r) then Some (max_turns (config r)) else None in
                let framed := loop_turn_prompt turn total (goal r) in
                res ← call (Chatted user framed r) (fun w => let '(w, x) := chat_inner env user framed r w in (w, Ok x));
                match res with inl _ => call (Sent (T "exchange") r) (fun w => (w, Ok tt)) | inr _ => mret tt end;;
                let '(r', ending, last_reply) := after_turn r turn last_reply res in
                match ending with
                | Some (final, why) => finish r' final why;; mret (Some tt)
                | None =>
                    update (put env r');;
                    call (Persisted r') (fun w => (w, Ok tt));;
                    call (Sent (T "turn") r') (fun w => (w, Ok tt));;
                    if 0 <? cooldown_ms (config r')
                    then stopped ← call (Slept (cooldown_ms (config r')))
                           (fun w => let '(w, b) := sleep env (cooldown_ms (config r')) w in (w, Ok b));
                         if (stopped : bool) then finish r' Stopped StoppedByOperator;; mret (Some tt)
                         else run_turns fuel turn last_reply
                    else run_turns fuel turn last_reply
                end
            end
      end
  end.
End Loop.
End Turns.
Arguments entry {W} _ _. Arguments put {W} _ _ _. Arguments is_cancelled {W} _ _.
Arguments current_authority {W} _ _. Arguments chat_inner {W} _ _ _ _ _. Arguments sleep {W} _ _ _.

(** ** The stall detector computes a longest common subsequence *)

Fixpoint lcs (a b : list text) : nat :=
  match a with
  | [] => O
  | x :: a' =>
      (fix go (b : list text) : nat :=
         match b with
         | [] => O
         | y :: b' => if teqb x y then S (lcs a' b') else Nat.max (lcs a' b) (go b')
         end) b
  end.

Lemma lcs_cons x a y b :
  lcs (x :: a) (y :: b) = if teqb x y then S (lcs a b) else Nat.max (lcs a (y :: b)) (lcs (x :: a) b).
Proof. done. Qed.
Lemma lcs_nil_r a : lcs a [] = O.
Proof. by destruct a. Qed.

(** [n] is the length of the longest common subsequences. *)
Definition longest_common (n : nat) (a b : list text) : Prop :=
  (exists s, s `sublist_of` a /\ s `sublist_of` b /\ length s = n)
  /\ forall s, s `sublist_of` a -> s `sublist_of` b -> (length s <= n)%nat.

Lemma lcs_longest a b : longest_common (lcs a b) a b.
Proof.
  revert b. induction a as [|x a IHa].
  { intros b. split; [exists []; split; [done|]; split; [apply sublist_nil_l | done]|].
    intros s Hs _. apply sublist_nil_r in Hs as ->. done. }
  induction b as [|y b IHb].
  { rewrite lcs_nil_r. split; [exists []; split; [apply sublist_nil_l|]; done|].
    intros s _ Hs. apply sublist_nil_r in Hs as ->. done. }
  rewrite lcs_cons. destruct (teqb x y) eqn:E.
  - apply teqb_eq in E as ->. destruct (IHa b) as [(s & Ha & Hb & Hl) Hmax]. split.
    + exists (y :: s). split; [by apply sublist_skip|]. split; [by apply sublist_skip | simpl; by rewrite Hl].
    + intros t Hta Htb. destruct t as [|z t]; [simpl; lia|]. simpl. apply le_n_S, Hmax.
      * apply sublist_cons_r in Hta as [Hta|(l & [= -> ->] & Hta)]; [|done].
        etransitivity; [|exact Hta]. by apply sublist_cons.
      * apply sublist_cons_r in Htb as [Htb|(l & [= -> ->] & Htb)]; [|done].
        etransitivity; [|exact Htb]. by apply sublist_cons.
  - apply teqb_neq in E. destruct (IHa (y :: b)) as [(s1 & H1 & H2 & H3) Hm1], IHb as [(s2 & H4 & H5 & H6) Hm2]. split.
    + destruct (Nat.max_spec (lcs a (y :: b)) (lcs (x :: a) b)) as [[_ ->]|[_ ->]].
      * exists s2. split; [done|]. split; [by apply sublist_cons | done].
      * exists s1. split; [by apply sublist_cons|]. done.
    + intros t Hta Htb. apply sublist_cons_r in Hta as [Hta|(l & -> & Hta)].
      * specialize (Hm1 t Hta Htb). lia.
      * apply sublist_cons_r in Htb as [Htb|(l' & [= -> ->] & Htb)]; [|done].
        specialize (Hm2 (x :: l) ltac:(by apply sublist_skip) Htb). lia.
Qed.

Lemma longest_common_unique n m a b : longest_common n a b -> longest_common m a b -> n = m.
Proof.
  intros [(s & Ha & Hb & Hl) Hn] [(t & Ha' & Hb' & Hl') Hm].
  specialize (Hn t Ha' Hb'). specialize (Hm s Ha Hb). lia.
Qed.

Lemma sublist_rev (a b : list text) : a `sublist_of` b -> rev a `sublist_of` rev b.
Proof.
  induction 1 as [|x a b H IH|x a b H IH]; simpl; [done | by apply sublist_app|].
  rewrite <- (app_nil_r (rev a)). apply sublist_app; [done | apply sublist_nil_l].
Qed.

Lemma longest_common_rev n a b : longest_common n (rev a) (rev b) -> longest_common n a b.
Proof.
  intros [(s & Ha & Hb & Hl) Hm]. split.
  - exists (rev s). apply sublist_rev in Ha, Hb. rewrite rev_involutive in Ha, Hb. rewrite length_rev. done.
  - intros t Hta Htb. rewrite <- length_rev. apply Hm; by apply sublist_rev.
Qed.

(** The table's row for the words [pr] (reversed) against the prefixes of [bs]
    after [qr] (reversed). *)
Fixpoint row_of (pr qr bs : list text) : list nat :=
  match bs with [] => [] | b :: bs => lcs pr (b :: qr) :: row_of pr (b :: qr) bs end.

Lemma next_row_spec aw pr qr bs :
  next_row aw bs (lcs pr qr) (lcs (aw :: pr) qr) (row_of pr qr bs) = row_of (aw :: pr) qr bs.
Proof.
  revert qr. induction bs as [|bw bs IH]; intros qr; [done|]. cbn [next_row row_of]. cbv zeta.
  rewrite <- lcs_cons. f_equal. apply IH.
Qed.

Lemma rows_spec ws bs pr : rows ws bs (row_of pr [] bs) = row_of (rev ws ++ pr) [] bs.
Proof.
  revert pr. induction ws as [|aw ws IH]; intros pr; [done|]. cbn [rows].
  pose proof (next_row_spec aw pr [] bs) as H. rewrite !lcs_nil_r in H. rewrite H, IH. simpl. by rewrite <- app_assoc.
Qed.

Lemma row_of_last pr qr bs d : bs <> [] -> List.last (row_of pr qr bs) d = lcs pr (rev bs ++ qr).
Proof.
  revert qr. induction bs as [|b bs IH]; intros qr H; [done|]. cbn [row_of rev].
  destruct bs as [|b' bs]; [done|]. transitivity (List.last (row_of pr (b :: qr) (b' :: bs)) d); [done|].
  rewrite IH by done. cbn [rev]. by rewrite <- !app_assoc.
Qed.

Lemma lcs_row_longest ws bs : longest_common (lcs_row ws bs) ws bs.
Proof.
  destruct bs as [|b bs].
  - assert (H : lcs_row ws [] = O).
    { unfold lcs_row. simpl. induction ws as [|w ws IH]; [done|]. exact IH. }
    rewrite H, <- (lcs_nil_r ws). apply lcs_longest.
  - apply longest_common_rev. unfold lcs_row.
    assert (H0 : forall qr l, repeat O (length l) = row_of [] qr l).
    { intros qr l. revert qr. induction l as [|x l IH]; intros qr; [done|]. simpl. f_equal. apply IH. }
    rewrite (H0 [] (b :: bs)), rows_spec, app_nil_r, row_of_last, app_nil_r by done. apply lcs_longest.
Qed.

(** The stall detector is exact.  For two replies of at least twelve words
    each that are not the same words, the two-row table decides whether they
    have a common subsequence that makes up nine tenths of their average
    length, over the first [LOOP_STALL_MAX_WORDS] words of each. *)
Theorem stall_detector_exact lower alphanumeric previous next :
  let a := take LOOP_STALL_MAX_WORDS (loop_words lower alphanumeric previous) in
  let b := take LOOP_STALL_MAX_WORDS (loop_words lower alphanumeric next) in
  (12 <= length a)%nat -> (12 <= length b)%nat -> a <> b ->
  (replies_nearly_repeat lower alphanumeric previous next = true <->
   exists s, s `sublist_of` a /\ s `sublist_of` b /\ (9 * (length a + length b) <= 20 * length s)%nat).
Proof.
  intros a b Ha Hb Hne. unfold replies_nearly_repeat. fold a b.
  destruct a as [|x a'] eqn:Ea; [simpl in Ha; lia|]. destruct b as [|y b'] eqn:Eb; [simpl in Hb; lia|].
  rewrite <- Ea, <- Eb in *. replace (is_empty a) with false by (by rewrite Ea). replace (is_empty b) with false by (by rewrite Eb).
  cbn [orb]. rewrite bool_decide_false by done.
  destruct (Nat.ltb_spec (length a) 12) as [|_]; [lia|]. destruct (Nat.ltb_spec (length b) 12) as [|_]; [lia|]. cbn [orb].
  rewrite Nat.leb_le. destruct (lcs_row_longest a b) as [(s & Hsa & Hsb & Hl) Hmax]. split.
  - intros H. exists s. split; [done|]. split; [done|]. lia.
  - intros (t & Hta & Htb & Ht). specialize (Hmax t Hta Htb). lia.
Qed.

(** ** The turn loop ends *)

(** The manager keeps the entry of a live run: other tasks change its
    cancellation token, not the run. *)
Class LoopHost {W} (env : loop_env W) : Prop := {
  entry_put r w : is_Some (entry env w) -> entry env (put env r w) = Some r;
  entry_chat user prompt r w : entry env (fst (chat_inner env user prompt r w)) = entry env w;
  entry_sleep ms w : entry env (fst (sleep env ms w)) = entry env w;
}.

Definition is_chat (e : effect loop_act) : bool := match e with Did (Chatted _ _ _) => true | _ => false end.
Definition chats (l : list (effect loop_act)) : nat := length (List.filter is_chat l).

Lemma chats_app l l' : chats (l ++ l') = (chats l + chats l')%nat.
Proof. unfold chats. by rewrite List.filter_app, length_app. Qed.

Section Termination.
Context (lower : text -> text) (alphanumeric : char -> bool) (goal_done : text -> bool).
Context {W : Type} (env : loop_env W) {LH : LoopHost env}.
Abbreviation turns := (run_turns lower alphanumeric goal_done env).

(** A turn is started only for a live entry that was not cancelled, with the
    account's current authority and budget left. *)
Definition chat_allowed (e : effect loop_act) : Prop :=
  match e with
  | Did (Chatted user _ r) =>
      exists w, entry env w = Some r /\ is_cancelled env w = false /\ current_authority env w = Ok user
                /\ out_of_turns r = false /\ out_of_tokens r = false
  | _ => True
  end.

Lemma no_chats_allowed l : chats l = O -> Forall chat_allowed l.
Proof using.
  induction l as [|e l IH]; [constructor|]. unfold chats. simpl. destruct e as [ev|[]]; simpl; intros H;
    try discriminate H; (constructor; [exact I | by apply IH]).
Qed.

(** The run has ended: it is stored and reported in a terminal state. *)
Definition run_ended (s s' : st W loop_act) (n : nat) : Prop :=
  exists r l, entry env (world s') = Some r /\ terminal (state r) = true
    /\ trace s' = trace s ++ l ++ [Did (Sent (T "state") r)] /\ (chats l <= n)%nat /\ Forall chat_allowed l.

Lemma finish_ended r final why s :
  is_Some (entry env (world s)) -> terminal final = true ->
  exists s', finish env r final why s = (s', Ok tt) /\ run_ended s s' 0.
Proof using LH.
  intros He Hf. eexists. split; [reflexivity|]. unfold run_ended. cbn [world trace]. exists (with_state r final why). eexists. split.
  - by apply entry_put.
  - split; [exact Hf|]. split; [rewrite (app_assoc (trace s)); f_equal; symmetry; apply app_assoc|].
    split; [cbn; lia | by apply no_chats_allowed].
Qed.

Lemma finish_then r final why s :
  is_Some (entry env (world s)) -> terminal final = true ->
  exists s', (finish env r final why;; mret (Some tt)) s = (s', Ok (Some tt)) /\ run_ended s s' 0.
Proof using LH.
  intros He Hf. destruct (finish_ended r final why s He Hf) as (s' & H & He'). exists s'. split; [|done].
  unfold mbind, eff_bind. by rewrite H.
Qed.

Lemma ended_after s1 s2 s3 l n m :
  trace s2 = trace s1 ++ l -> (chats l + n <= m)%nat -> Forall chat_allowed l -> run_ended s2 s3 n -> run_ended s1 s3 m.
Proof using.
  intros Ht Hn Hl (r & l' & He & Hs & Ht' & Hc & Hl'). exists r, (l ++ l'). split; [done|]. split; [done|].
  rewrite Ht', Ht, chats_app, <- !app_assoc. split; [done|]. split; [lia | by apply Forall_app].
Qed.

(** The pause between turns: a cancellation ends the run, else [k] goes on. *)
Lemma cool_down r' (k : eff W loop_act Empty_set (option unit)) s (P : st W loop_act -> Prop) :
  entry env (world s) = Some r' ->
  (forall s4 l, entry env (world s4) = Some r' -> trace s4 = trace s ++ l -> chats l = O ->
     exists s', k s4 = (s', Ok (Some tt)) /\ P s') ->
  (forall s', run_ended s s' 0 -> P s') ->
  exists s', (if 0 <? cooldown_ms (config r')
              then stopped ← call (Slept (cooldown_ms (config r')))
                     (fun w => let '(w, b) := sleep env (cooldown_ms (config r')) w in (w, Ok b));
                   if (stopped : bool) then finish env r' Stopped StoppedByOperator;; mret (Some tt) else k
              else k) s = (s', Ok (Some tt)) /\ P s'.
Proof using LH.
  intros He Hk Hend. destruct (0 <? _); [|by apply (Hk s []); [|rewrite app_nil_r|]].
  unfold mbind at 1, eff_bind at 1, call at 1.
  pose proof (entry_sleep (cooldown_ms (config r')) (world s)) as Hs.
  destruct (sleep env _ (world s)) as [w4 stopped]. simpl in Hs.
  assert (He4 : entry env w4 = Some r') by congruence. destruct stopped.
  - destruct (finish_then r' Stopped StoppedByOperator
      (St w4 (trace s ++ [Did (Slept (cooldown_ms (config r')))])) (mk_is_Some _ _ He4) eq_refl) as (s' & H & He').
    exists s'. split; [exact H|]. apply Hend. revert He'. apply (ended_after s _ s' [Did (Slept (cooldown_ms (config r')))] 0 0); [done | done | by repeat constructor].
  - by eapply Hk; [exact He4 | reflexivity |].
Qed.

(** What a turn does to the counters. *)
Lemma after_turn_counts r turn last res r' ending last' :
  after_turn lower alphanumeric goal_done r turn last res = (r', ending, last') ->
  config r' = config r
  /\ match ending with
     | Some (final, _) => terminal final = true
     | None =>
         (turns_completed (stats r') = turns_completed (stats r) + 1 /\ consecutive_failures (stats r') = 0)
         \/ (turns_completed (stats r') = turns_completed (stats r)
             /\ consecutive_failures (stats r') = consecutive_failures (stats r) + 1
             /\ consecutive_failures (stats r') < max_failures (config r))
     end.
Proof.
  unfold after_turn. destruct res as [v|e].
  - destruct (loop_blocking_web_code _); [by intros [= <- <- _]|].
    destruct (_ <=? _); [by intros [= <- <- _]|]. destruct (goal_done _); [by intros [= <- <- _]|].
    destruct (match last with Some p => _ | None => false end); [by intros [= <- <- _]|].
    intros [= <- <- _]. split; [done|]. by left.
  - destruct (teqb _ _); [by intros [= <- <- _]|].
    destruct (Z.leb_spec (max_failures (config r)) (consecutive_failures (stats r) + 1)) as [Hl|Hl]; simpl.
    + destruct (Z.leb_spec (max_failures (config r)) (consecutive_failures (stats r) + 1)); [|lia]. by intros [= <- <- _].
    + destruct (Z.leb_spec (max_failures (config r)) (consecutive_failures (stats r) + 1)); [lia|].
      intros [= <- <- _]. split; [done|]. right. simpl. lia.
Qed.

(** The attempts that a run has left. *)
Definition attempts_left (r : LoopRun) : Z :=
  (max_turns (config r) - turns_completed (stats r)) * max_failures (config r) - consecutive_failures (stats r).

Lemma run_turns_ends fuel n turn last s r :
  entry env (world s) = Some r -> 0 < max_turns (config r) ->
  0 <= consecutive_failures (stats r) < max_failures (config r) ->
  (turns_completed (stats r) < max_turns (config r) -> attempts_left r <= Z.of_nat n) -> (n < fuel)%nat ->
  exists s', turns fuel turn last s = (s', Ok (Some tt)) /\ run_ended s s' n.
Proof using LH.
  revert n turn last s r. induction fuel as [|fuel IH]; intros n turn last s r He Ht Hc Hn Hf; [lia|].
  cbn [run_turns]. unfold mbind at 1, eff_bind at 1, asks at 1. rewrite He.
  assert (Hfin : forall final why, terminal final = true ->
            exists s', (finish env r final why;; mret (Some tt)) (St (world s) (trace s)) = (s', Ok (Some tt)) /\ run_ended s s' n).
  { intros final why Hterm. destruct (finish_then r final why s (mk_is_Some _ _ He) Hterm) as (s' & H & Hend).
    exists s'. destruct s. split; [exact H|]. eapply (ended_after _ _ _ [] 0); [by rewrite app_nil_r | simpl; lia | constructor | done]. }
  unfold mbind at 1, eff_bind at 1, asks at 1.
  destruct s as [w tr]. simpl world in *. simpl trace in *.
  cbn [world trace]. destruct (is_cancelled env w) eqn:Ecan; [by apply Hfin|].
  destruct (out_of_turns r) eqn:Eot; [by apply Hfin|]. destruct (out_of_tokens r) eqn:Etok; [by apply Hfin|].
  unfold mbind at 1, eff_bind at 1, asks at 1. cbn [world].
  destruct (current_authority env w) as [user|why] eqn:Eauth; [|by apply Hfin]. cbv zeta.
  pose proof Eot as Hot. unfold out_of_turns in Eot. apply andb_false_iff in Eot as [Eot|Eot]; [apply Z.ltb_ge in Eot; lia|]. apply Z.leb_gt in Eot.
  specialize (Hn Eot).
  set (framed := loop_turn_prompt _ _ _).
  unfold mbind at 1, eff_bind at 1, call at 1. cbn [world trace].
  pose proof (entry_chat user framed r w) as Hchat. destruct (chat_inner env user framed r w) as [w1 res]. simpl in Hchat.
  unfold mbind at 1, eff_bind at 1.
  set (s1 := St w1 _). set (ex := match res with inl _ => _ | inr _ => _ end).
  assert (Hex : exists l, ex s1 = (St w1 (trace s1 ++ l), Ok tt) /\ chats l = O).
  { subst ex. destruct res; [by exists [Did (Sent (T "exchange") r)] | exists []; by rewrite app_nil_r]. }
  destruct Hex as (lx & -> & Hlx). clear ex.
  destruct (after_turn lower alphanumeric goal_done r (turn + 1) last res) as [[r' ending] last'] eqn:Ea.
  apply after_turn_counts in Ea as [Hcfg Hend].
  assert (Hallow : Forall chat_allowed ([Did (Chatted user framed r)] ++ lx)).
  { constructor; [|by apply no_chats_allowed]. exists w. by repeat split. }
  set (s2 := St w1 _). assert (Htr2 : trace s2 = tr ++ [Did (Chatted user framed r)] ++ lx) by (simpl; by rewrite <- app_assoc).
  assert (He2 : is_Some (entry env (world s2))) by (simpl; rewrite Hchat, He; by eexists).
  assert (H1n : (1 <= n)%nat) by (unfold attempts_left in Hn; nia).
  destruct ending as [[final why]|].
  { destruct (finish_then r' final why s2 He2 Hend) as (s' & H & Hend'). exists s'. split; [exact H|].
    eapply (ended_after (St w tr) s2 s' _ 0 n); [exact Htr2 | rewrite chats_app, Hlx; simpl; lia | exact Hallow | done]. }
  (* The next turn, from the state after the progress was stored. *)
  assert (Hnext : forall s3 l3, entry env (world s3) = Some r' -> trace s3 = trace s2 ++ l3 -> chats l3 = O ->
            exists s', turns fuel (turn + 1) last' s3 = (s', Ok (Some tt)) /\ run_ended (St w tr) s' n).
  { intros s3 l3 He3 Ht3 Hl3. unfold attempts_left in Hn. destruct (IH (pred n) (turn + 1) last' s3 r' He3) as (s' & H & Hend').
    - by rewrite Hcfg.
    - rewrite Hcfg. destruct Hend as [[_ ->]|(_ & -> & H)]; lia.
    - unfold attempts_left. rewrite Hcfg. intros Hlt. destruct Hend as [[-> ->]|(-> & -> & H)]; nia.
    - lia.
    - exists s'. split; [exact H|]. eapply (ended_after (St w tr) s3 s' _ (pred n) n); [| | | exact Hend'].
      + rewrite Ht3, Htr2, <- app_assoc. reflexivity.
      + rewrite !chats_app, Hlx, Hl3. simpl. lia.
      + apply Forall_app. split; [exact Hallow | by apply no_chats_allowed]. }
  unfold mbind at 1, eff_bind at 1, update at 1. unfold mbind at 1, eff_bind at 1, call at 1.
  unfold mbind at 1, eff_bind at 1, call at 1. cbn [world trace].
  set (s3 := St (put env r' (world s2)) ((trace s2 ++ [Did (Persisted r')]) ++ [Did (Sent (T "turn") r')])).
  assert (Ht3 : trace s3 = trace s2 ++ [Did (Persisted r')] ++ [Did (Sent (T "turn") r')]) by (simpl; by rewrite <- !app_assoc).
  destruct (cool_down r' (turns fuel (turn + 1) last') s3 (fun s' => run_ended (St w tr) s' n)) as (s' & H & Hend').
  - by apply entry_put.
  - intros s4 l4 He4 Ht4 Hl4. eapply Hnext; [exact He4 | rewrite Ht4, Ht3, <- app_assoc; reflexivity |].
    rewrite chats_app, Hl4. done.
  - intros s' H3. eapply (ended_after (St w tr) s3 s' _ 0 n); [rewrite Ht3, Htr2, <- app_assoc; reflexivity | | | exact H3].
    + rewrite !chats_app, Hlx. simpl. lia.
    + apply Forall_app. split; [exact Hallow | by apply no_chats_allowed].
  - exists s'. split; [exact H | exact Hend'].
Qed.
End Termination.

(** C39. A bounded run ends.  With a positive turn budget and failure limit, a
    fresh run that the manager holds returns with enough fuel, whatever the
    model, the account store and the operator do: it is stored and reported in
    a terminal state after at most [max_turns * max_failures] chat turns, and
    each turn was started for the live entry, uncancelled, within its turn and
    token budgets, and with the account's authority re-read just before. *)
Theorem loop_run_terminates lower alphanumeric goal_done {W} (env : loop_env W) (LH : LoopHost env) fuel r (s : st W loop_act) :
  entry env (world s) = Some r -> stats r = default_stats -> 1 <= max_turns (config r) -> 1 <= max_failures (config r) ->
  max_turns (config r) * max_failures (config r) < Z.of_nat fuel ->
  exists s' r' l,
    run_turns lower alphanumeric goal_done env fuel 0 None s = (s', Ok (Some tt))
    /\ entry env (world s') = Some r' /\ terminal (state r') = true
    /\ trace s' = trace s ++ l ++ [Did (Sent (T "state") r')]
    /\ Z.of_nat (chats l) <= max_turns (config r) * max_failures (config r)
    /\ Forall (chat_allowed env) l.
Proof.
  intros He Hs Ht Hm Hf.
  destruct (run_turns_ends lower alphanumeric goal_done env fuel (Z.to_nat (max_turns (config r) * max_failures (config r)))
              0 None s r He) as (s' & H & r' & l & He' & Hterm & Htr & Hc & Hall).
  - lia.
  - rewrite Hs. simpl. lia.
  - intros _. unfold attempts_left. rewrite Hs. simpl. lia.
  - lia.
  - exists s', r', l. do 4 (split; [done|]). split; [lia | done].
Qed.

(** ** The manager *)

Inductive manager_op :=
| OStart (r : LoopRun) (who : text)
| OStop (who rid : text)
| OStore (rid : text) (r : LoopRun).

Definition manager_step (m : LoopManager) (op : manager_op) : LoopManager :=
  match op with
  | OStart r who => fst (start m r who)
  | OStop who rid => fst (stop m who rid)
  | OStore rid r => store m rid r
  end.

(** New run identifiers are fresh; the turn task stores its own run. *)
Definition op_valid (m : LoopManager) (op : manager_op) : Prop :=
  match op with
  | OStart r _ => m !! run_id r = None
  | OStop _ _ => True
  | OStore rid r => forall e, m !! rid = Some e -> session_id r = session_id (run e)
  end.

Inductive managed : LoopManager -> Prop :=
| managed_new : managed ∅
| managed_step m op : managed m -> op_valid m op -> managed (manager_step m op).

Definition one_per_session (m : LoopManager) : Prop :=
  forall i j e e', m !! i = Some e -> m !! j = Some e' -> session_id (run e) = session_id (run e') -> i = j.

Lemma one_per_session_insert m rid e e' :
  one_per_session m -> m !! rid = Some e -> session_id (run e') = session_id (run e) -> one_per_session (<[rid := e']> m).
Proof.
  intros H He Hs i j x y Hx Hy Hxy. apply lookup_insert_Some in Hx as [[<- <-]|[Hi Hx]], Hy as [[<- <-]|[Hj Hy]]; [done| | |].
  - apply (H rid j e y He Hy). congruence.
  - apply (H i rid x e Hx He). congruence.
  - by apply (H i j x y).
Qed.

Lemma start_refuses (m : LoopManager) r (who : text) :
  (exists rid e, m !! rid = Some e /\ session_id (run e) = session_id r /\ live e = true)
  <-> bool_decide (Exists (fun '(_, e) => of_session (session_id r) e && live e = true) (map_to_list m)) = true.
Proof.
  rewrite bool_decide_eq_true, Exists_exists. split.
  - intros (rid & e & He & Hs & Hl). exists (rid, e). split; [by apply elem_of_map_to_list|].
    apply andb_true_iff. split; [by apply teqb_eq | done].
  - intros ([rid e] & He & H). apply elem_of_map_to_list in He. apply andb_true_iff in H as [Hs Hl].
    exists rid, e. unfold of_session in Hs. apply teqb_eq in Hs. done.
Qed.

Lemma managed_one m : managed m -> one_per_session m.
Proof.
  induction 1 as [|m op _ IH Hv]; [intros i j e e' H; by rewrite lookup_empty in H|].
  destruct op as [r who|who rid|rid r]; simpl in *.
  - unfold start. destruct (bool_decide _); [exact IH|]. simpl. intros i j e e' Hi Hj Hs.
    apply lookup_insert_Some in Hi as [[<- <-]|[Hi He]], Hj as [[<- <-]|[Hj He']]; [done| | |].
    + apply map_lookup_filter_Some in He' as [_ He']. unfold of_session in He'. apply teqb_neq in He'. simpl in Hs. congruence.
    + apply map_lookup_filter_Some in He as [_ He]. unfold of_session in He. apply teqb_neq in He. simpl in Hs. congruence.
    + apply map_lookup_filter_Some in He as [He _], He' as [He' _]. by apply (IH i j e e').
  - unfold stop. destruct (owned_entry m who rid) as [e|] eqn:E; [|exact IH]. simpl.
    unfold owned_entry in E. destruct (m !! rid) as [e0|] eqn:E0; [|done]. simpl in E. destruct (teqb _ _); [|done]. injection E as ->.
    by eapply one_per_session_insert.
  - unfold store. destruct (m !! rid) as [e|] eqn:E; [|exact IH]. eapply one_per_session_insert; [done | exact E | by apply Hv].
Qed.

(** The manager keeps one run per session and only its owner's hands on
    it.  Over any operations a session has at most one entry, so at most one
    live run; a start is refused exactly while one is live; a live run stays,
    with its owner, until its own task stores a terminal state; another
    account can neither read nor stop it, and a stop request is never lost. *)
Theorem manager_one_run_per_session (m : LoopManager) :
  managed m ->
  one_per_session m
  /\ (forall r who, snd (start m r who) = Err (err_code "LOOP_IN_FLIGHT") <->
        exists rid e, m !! rid = Some e /\ session_id (run e) = session_id r /\ live e = true)
  /\ (forall op rid e, op_valid m op -> m !! rid = Some e -> live e = true ->
        exists e', manager_step m op !! rid = Some e' /\ owner e' = owner e /\ (cancelled e = true -> cancelled e' = true))
  /\ (forall who rid e, m !! rid = Some e -> owner e <> who -> get_run m who rid = None /\ stop m who rid = (m, None)).
Proof.
  intros Hm. split; [by apply managed_one|]. split; [|split].
  - intros r who. rewrite start_refuses by exact who. unfold start. by destruct (bool_decide _).
  - intros op rid e Hv He Hl. destruct op as [r who|who rid'|rid' r]; simpl in *.
    + unfold start. destruct (bool_decide _) eqn:E; [by exists e|]. simpl. exists e. split; [|done].
      rewrite lookup_insert_ne by congruence. apply map_lookup_filter_Some. split; [done|].
      destruct (of_session (session_id r) e) eqn:Es; [|done]. exfalso.
      assert (H : bool_decide (Exists (fun '(_, e) => of_session (session_id r) e && live e = true) (map_to_list m)) = true); [|congruence].
      apply (start_refuses m r who). exists rid, e. split; [done|]. split; [|done]. unfold of_session in Es. by apply teqb_eq in Es.
    + unfold stop, owned_entry. destruct (m !! rid') as [e0|] eqn:E0; simpl; [|by exists e]. destruct (teqb _ _); simpl; [|by exists e].
      destruct (decide (rid' = rid)) as [->|Hne]; [|rewrite lookup_insert_ne by done; by exists e].
      rewrite lookup_insert_eq. eexists. split; [reflexivity|]. simpl. split; [congruence | done].
    + unfold store. destruct (m !! rid') as [e0|] eqn:E0; [|by exists e].
      destruct (decide (rid' = rid)) as [->|Hne]; [|rewrite lookup_insert_ne by done; by exists e].
      rewrite lookup_insert_eq. eexists. split; [reflexivity|]. simpl. rewrite He in E0. by injection E0 as ->.
  - intros who rid e He Hne. assert (Ho : owned_entry m who rid = None).
    { unfold owned_entry. rewrite He. simpl. destruct (teqb (owner e) who) eqn:E; [by apply teqb_eq in E | done]. }
    unfold get_run, stop. by rewrite Ho.
Qed.

(** ** Concrete runs *)

Section Demo.
Definition demo_run_state : LoopRun := MkRun (T "r1") (T "s1") (T "goal") (MkLimits 2 0 2 0) Running NoReason default_stats.
(** The second turn's chat fails; the third completes the budget. *)
Definition demo_loop_env : loop_env (LoopRun * nat) := {|
  entry w := Some (fst w); put r w := (r, snd w); is_cancelled _ := false; current_authority _ := Ok (T "local");
  chat_inner _ _ _ w := ((fst w, S (snd w)),
    if (snd w =? 1)%nat then inr (MkChatError (T "LLM") [] None (Some 3)) else inl (MkChatValue (show_nat (Z.of_nat (snd w))) 10 []));
  sleep _ w := (w, false);
|}.
#[local] Instance demo_loop_host : LoopHost demo_loop_env.
Proof. by constructor. Qed.
Definition demo_turns : st (LoopRun * nat) loop_act * result Empty_set (option unit) :=
  run_turns id is_ascii_digit (fun _ => false) demo_loop_env 5 0 None (St (demo_run_state, O) []).
Definition not_space (c : char) : bool := negb (c =? c_space).
Definition words (l : list string) : text := join [c_space] (map T l).
Definition demo_words (x : string) : text :=
  words ["a"; "b"; "c"; "d"; "e"; "f"; "g"; "h"; "i"; "j"; "k"; x]%string.
End Demo.

Lemma loop_run_terminates_witness :
  exists r l, snd demo_turns = Ok (Some tt) /\ terminal (state r) = true
    /\ trace (fst demo_turns) = l ++ [Did (Sent (T "state") r)] /\ Z.of_nat (chats l) <= 4
    /\ total_completion_tokens (stats r) = 23.
Proof.
  destruct (loop_run_terminates id is_ascii_digit (fun _ => false) demo_loop_env demo_loop_host 5 demo_run_state
              (St (demo_run_state, O) []) eq_refl eq_refl ltac:(simpl; lia) ltac:(simpl; lia) ltac:(simpl; lia))
    as (s' & r' & l & H & He & Ht & Htr & Hc & _).
  fold demo_turns in H. exists r', l. rewrite H. split; [reflexivity|]. split; [exact Ht|]. split; [exact Htr|]. split; [exact Hc|].
  assert (Hw : total_completion_tokens (stats (fst (world (fst demo_turns)))) = 23) by (vm_compute; reflexivity).
  rewrite H in Hw. simpl in He. injection He as He. simpl in Hw. rewrite He in Hw. exact Hw.
Defined.

Lemma stall_detector_exact_witness :
  replies_nearly_repeat id not_space (demo_words "l") (demo_words "m") = true
  /\ exists s, s `sublist_of` loop_words id not_space (demo_words "l")
               /\ (9 * 24 <= 20 * length s)%nat.
Proof.
  assert (H : replies_nearly_repeat id not_space (demo_words "l") (demo_words "m") = true)
    by (vm_compute; reflexivity).
  split; [exact H|].
  destruct (stall_detector_exact id not_space (demo_words "l") (demo_words "m")) as [Hs _];
    [apply Nat.leb_le; vm_compute; reflexivity | apply Nat.leb_le; vm_compute; reflexivity | vm_compute; discriminate |].
  destruct (Hs H) as (s & Ha & _ & Hl). exists s. split.
  - assert (Ht : take LOOP_STALL_MAX_WORDS (loop_words id not_space (demo_words "l"))
                 = loop_words id not_space (demo_words "l")) by (vm_compute; reflexivity).
    rewrite Ht in Ha. exact Ha.
  - assert (Hn : (length (take LOOP_STALL_MAX_WORDS (loop_words id not_space (demo_words "l")))
                  + length (take LOOP_STALL_MAX_WORDS (loop_words id not_space (demo_words "m"))))%nat = 24%nat)
      by (vm_compute; reflexivity).
    rewrite Hn in Hl. exact Hl.
Defined.

Lemma manager_one_run_per_session_witness :
  let m := fst (start ∅ demo_run_state (T "alice")) in
  get_run m (T "alice") (T "r1") = Some demo_run_state /\ get_run m (T "bob") (T "r1") = None
  /\ snd (start m (MkRun (T "r2") (T "s1") [] (MkLimits 1 0 1 0) Running NoReason default_stats) (T "bob")) = Err (err_code "LOOP_IN_FLIGHT").
Proof.
  intros m. assert (Hm : managed m).
  { change m with (manager_step ∅ (OStart demo_run_state (T "alice"))). constructor; [constructor | apply lookup_empty]. }
  assert (He : m !! T "r1" = Some (MkEntry demo_run_state false (T "alice"))) by (vm_compute; reflexivity).
  destruct (manager_one_run_per_session m Hm) as (_ & Hs & _ & Hf).
  split; [vm_compute; reflexivity|]. split.
  - apply (Hf (T "bob") (T "r1") _ He). vm_compute. discriminate.
  - apply Hs. exists (T "r1"), (MkEntry demo_run_state false (T "alice")). split; [exact He|]. split; reflexivity.
Defined.
