(* ===== verification/Jobs.v ===== *)
(** Background runs, [server/agent_jobs.rs]: the job store, its durable file
    and recovery after a restart.

    A store is a map of jobs, the content of its file, the task handles that
    were aborted and the completions handed to the notifier.  Times are [f64]
    seconds in the source and exact integers here.  Whether an atomic write of
    the file succeeds is an argument of each operation ([disk_ok]); the JSON
    printer is a parameter, with the law that the parser inverts it. *)

From S2P Require Import Prelude Text Effects Owners.
Local Open Scope Z_scope.

Inductive job_status := Running | Finished | Failed | Cancelled | Interrupted.
#[export] Instance job_status_eq_dec : EqDecision job_status.
Proof. solve_decision. Defined.

Definition status_text (s : job_status) : text :=
  match s with
  | Running => T "running" | Finished => T "finished" | Failed => T "failed"
  | Cancelled => T "cancelled" | Interrupted => T "interrupted"
  end.

(** Terminal jobs retained per process. *)
Definition MAX_RETAINED_JOBS : nat := 32.
Definition MAX_JOB_FILE_BYTES : Z := 16 * 1024 * 1024.

Record Job := MkJob {
  job_id : text;
  owner : option text;
  action : text;
  created_at : Z;
  finished_at : option Z;
  status : job_status;
  result_body : option json;
  error : option (Z * json);
  handle : option nat;
}.

Record completion := MkCompletion { c_owner : text; c_job_id : text; c_status : job_status; c_created : Z; c_finished : Z }.

Record JobStore := MkStore {
  inner : gmap text Job;
  disk : option text;
  aborted : list nat;
  enqueued : list completion;
}.

(** ** Rows of the file *)

Definition opt_json {A} (f : A -> json) (o : option A) : json := match o with Some a => f a | None => JNull end.

(** [Job::to_json] *)
Definition job_json (j : Job) : json :=
  JObj ([(T "job_id", JStr (job_id j));
         (T "schema_version", JInt (match owner j with Some _ => 1 | None => 0 end));
         (T "owner", opt_json JStr (owner j));
         (T "action", JStr (action j));
         (T "status", JStr (status_text (status j)));
         (T "created_at", JInt (created_at j));
         (T "finished_at", opt_json JInt (finished_at j))]
        ++ match result_body j with Some r => [(T "result", r)] | None => [] end
        ++ match error j with
           | Some (code, body) =>
               [(T "error", JObj [(T "http_status", JInt code); (T "detail", index body (T "detail"))])]
           | None => []
           end).

Definition as_f64 (j : json) : option Z := match j with JInt n => Some n | _ => None end.

Definition str_at (row : json) (key : text) : option text := get row key ≫= as_str.

Definition recovered_status (s : text) : option job_status :=
  if teqb s (T "running") || teqb s (T "interrupted") then Some Interrupted
  else if teqb s (T "finished") then Some Finished
  else if teqb s (T "failed") then Some Failed
  else if teqb s (T "cancelled") then Some Cancelled
  else None.

Definition recovered_owner (row : json) : result harness_error (option text) :=
  version ← match get row (T "schema_version") with
            | None => Ok 0
            | Some v => ok_or (as_u64 v) err_harness_config
            end;
  o ← match get row (T "owner") with
      | None | Some JNull => Ok None
      | Some v => Some <$> ok_or (as_str v) err_harness_config
      end;
  match o with
  | None => if version =? 0 then Ok None else Err err_harness_config
  | Some o => if (version =? 1) && valid_owner o then Ok (Some o) else Err err_harness_config
  end.

Definition recovered_error (row : json) : option (Z * json) :=
  e ← get row (T "error");
  code ← as_u64 (index e (T "http_status"));
  Some (code mod 65536, JObj [(T "detail", index e (T "detail"))]).

Definition recover_row (now : Z) (row : json) : result harness_error Job :=
  id' ← ok_or (str_at row (T "job_id")) err_harness_config;
  _ ← refuse_if (negb (is_lower_hex id' 32)) err_harness_config;
  st ← ok_or (str_at row (T "status") ≫= recovered_status) err_harness_config;
  o ← recovered_owner row;
  mret (MkJob id' o (from_option id (T "real-repo-run") (str_at row (T "action")))
              (from_option id 0 (as_f64 (index row (T "created_at"))))
              (if bool_decide (st = Interrupted) then Some now else as_f64 (index row (T "finished_at")))
              st (get row (T "result")) (recovered_error row) None).

Fixpoint recover_rows (now : Z) (rows : list json) (jobs : gmap text Job) : result harness_error (gmap text Job) :=
  match rows with
  | [] => Ok jobs
  | row :: rest => j ← recover_row now row; recover_rows now rest (<[job_id j := j]> jobs)
  end.

Section Store.
Context (to_vec : list json -> text) (from_str : text -> option (list json)).
Context (notifier : bool).

(** The values in the order of their keys. *)
Definition job_values (jobs : gmap text Job) : list Job := omap (fun k => jobs !! k) (sorted_keys jobs).

Definition with_inner (st : JobStore) (m : gmap text Job) : JobStore := MkStore m (disk st) (aborted st) (enqueued st).

(** [persist]; [disk_ok] is the outcome of the atomic write. *)
Definition persist (disk_ok : bool) (st : JobStore) : JobStore * result harness_error unit :=
  let bytes := to_vec (map job_json (job_values (inner st))) in
  if MAX_JOB_FILE_BYTES <? byte_len bytes then (st, Err err_harness_config)
  else if disk_ok then (MkStore (inner st) (Some bytes) (aborted st) (enqueued st), Ok tt)
  else (st, Err (err_code "IO_ERROR")).

Definition open (now : Z) (file : option text) (disk_ok : bool) : result harness_error JobStore :=
  jobs ← match file with
         | None => Ok ∅
         | Some t =>
             _ ← refuse_if (MAX_JOB_FILE_BYTES <? byte_len t) err_harness_config;
             rows ← ok_or (from_str t) err_harness_config;
             _ ← refuse_if (S MAX_RETAINED_JOBS <? length rows)%nat err_harness_config;
             recover_rows now rows ∅
         end;
  match persist disk_ok (MkStore jobs file [] []) with
  | (st, Ok _) => Ok st
  | (_, Err e) => Err e
  end.

Definition notify (st : JobStore) (j : Job) : JobStore :=
  match notifier, finished_at j, owner j with
  | true, Some finished, Some o =>
      if bool_decide (status j ∈ [Finished; Failed; Cancelled])
      then MkStore (inner st) (disk st) (aborted st)
                   (enqueued st ++ [MkCompletion o (job_id j) (status j) (created_at j) finished])
      else st
  | _, _, _ => st
  end.

Definition with_notifications (st : JobStore) : JobStore := foldl notify st (job_values (inner st)).

Definition abort (st : JobStore) (h : option nat) : JobStore :=
  match h with
  | Some h => MkStore (inner st) (disk st) (aborted st ++ [h]) (enqueued st)
  | None => st
  end.

(** Stable sort by creation time, as [sort_by] with [partial_cmp]. *)
Definition created_le (a b : Z * text) : Prop := fst a <= fst b.
#[export] Instance created_le_dec a b : Decision (created_le a b) := decide (fst a <= fst b).

Definition terminal_jobs (m : gmap text Job) : list (Z * text) :=
  map (fun j => (created_at j, job_id j)) (List.filter (fun j => negb (bool_decide (status j = Running))) (job_values m)).

(** The oldest terminal jobs that make room for one more. *)
Definition evicted (m : gmap text Job) : list text :=
  let terminal := terminal_jobs m in
  if (length terminal <? MAX_RETAINED_JOBS)%nat then []
  else map snd (take (length terminal + 1 - MAX_RETAINED_JOBS) (merge_sort created_le terminal)).

Definition remove_all (ids : list text) (m : gmap text Job) : gmap text Job := foldl (fun m k => delete k m) m ids.

Definition try_insert_running (now : Z) (disk_ok : bool) (st : JobStore) (owner job_id action : text) (h : nat)
    : JobStore * result harness_error unit :=
  if negb (valid_owner owner) then (abort st (Some h), Err err_harness_config) else
  let kept := remove_all (evicted (inner st)) (inner st) in
  let job := MkJob job_id (Some owner) action now None Running None None (Some h) in
  match persist disk_ok (with_inner st (<[job_id := job]> kept)) with
  | (st', Ok _) => (st', Ok tt)
  | (st', Err e) => (abort (with_inner st' (delete job_id (inner st'))) (Some h), Err e)
  end.

(** The error envelope of the synchronous route. *)
Record api_error := MkApiError { e_status : Z; e_body : json }.

Definition ended (now : Z) (j : Job) (outcome : result api_error json) : Job :=
  match outcome with
  | Ok v => MkJob (job_id j) (owner j) (action j) (created_at j) (Some now)
                  (match get v (T "ok") with Some (JBool false) => Failed | _ => Finished end)
                  (Some v) (error j) None
  | Err e => MkJob (job_id j) (owner j) (action j) (created_at j) (Some now) Failed
                   (result_body j) (Some (e_status e, e_body e)) None
  end.

Definition detail (code message : text) : json :=
  JObj [(T "detail", JObj [(T "code", JStr code); (T "message", JStr message)])].

Definition set_error (j : Job) (st : job_status) (e : Z * json) : Job :=
  MkJob (job_id j) (owner j) (action j) (created_at j) (finished_at j) st (result_body j) (Some e) (handle j).

Definition persist_failed : json :=
  detail (T "JOB_PERSIST_FAILED")
    (T "Outcome could not be saved. Inspect the persistent run record before any retry.").

(** Persist the outcome; a failure to do so is made visible on the job. *)
Definition save_outcome (disk_ok : bool) (st : JobStore) (id' : text) : JobStore :=
  let '(st1, r) := persist disk_ok st in
  let st2 := match r with
             | Ok _ => st1
             | Err _ => with_inner st1 (alter (fun j => set_error j Failed (500, persist_failed)) id' (inner st1))
             end in
  match inner st2 !! id' with Some j => notify st2 j | None => st2 end.

Definition finish (now : Z) (disk_ok : bool) (st : JobStore) (id' : text) (outcome : result api_error json) : JobStore :=
  match inner st !! id' with
  | Some j => if bool_decide (status j = Running)
              then save_outcome disk_ok (with_inner st (<[id' := ended now j outcome]> (inner st))) id'
              else st
  | None => save_outcome disk_ok st id'
  end.

Definition metadata_failed : json :=
  detail (T "JOB_METADATA_PERSIST_FAILED")
    (T "Completed result retained; memory receipt could not be saved in the job record. Inspect memory run history.").

Definition set_result (j : Job) (r : json) : Job :=
  MkJob (job_id j) (owner j) (action j) (created_at j) (finished_at j) (status j) (Some r) (error j) (handle j).

Definition annotate_completion (disk_ok : bool) (st : JobStore) (id' : text) (completed : json -> json) : JobStore :=
  match inner st !! id' with
  | None => st
  | Some j =>
      if negb (bool_decide (status j ∈ [Finished; Failed])) || bool_decide (is_Some (error j)) then st else
      match result_body j with
      | None => st
      | Some r =>
          let '(st', res) := persist disk_ok (with_inner st (<[id' := set_result j (completed r)]> (inner st))) in
          match res with
          | Ok _ => st'
          | Err _ => with_inner st' (alter (fun j => set_error j (status j) (500, metadata_failed)) id' (inner st'))
          end
      end
  end.

Definition owned (o : text) (j : Job) : bool := bool_decide (owner j = Some o).

Definition get_job (st : JobStore) (o id' : text) : option json :=
  j ← inner st !! id'; if owned o j then Some (job_json j) else None.

Definition newest_first (a b : Job) : Prop := created_at b <= created_at a.
#[export] Instance newest_first_dec a b : Decision (newest_first a b) := decide (created_at b <= created_at a).

Definition list_jobs (st : JobStore) (o : text) : list json :=
  map (fun j => JObj [(T "job_id", JStr (job_id j)); (T "action", JStr (action j));
                      (T "status", JStr (status_text (status j))); (T "created_at", JInt (created_at j));
                      (T "finished_at", opt_json JInt (finished_at j))])
      (merge_sort newest_first (List.filter (owned o) (job_values (inner st)))).

Definition cancelled (now : Z) (j : Job) : Job :=
  MkJob (job_id j) (owner j) (action j) (created_at j) (Some now) Cancelled (result_body j) (error j) None.

Definition cancel (now : Z) (disk_ok : bool) (st : JobStore) (o id' : text) : JobStore * option json :=
  match inner st !! id' with
  | None => (st, None)
  | Some j =>
      if negb (owned o j) then (st, None) else
      let changed := bool_decide (status j = Running) in
      let j' := if changed then cancelled now j else j in
      let st1 := if changed then abort (with_inner st (<[id' := j']> (inner st))) (handle j) else st in
      let '(st2, _) := persist disk_ok st1 in
      let st3 := if changed then notify st2 j' else st2 in
      (st3, Some (job_json j'))
  end.

Definition cancel_all_for_shutdown (now : Z) (disk_ok : bool) (st : JobStore) : JobStore :=
  foldl (fun st j => match owner j with Some o => fst (cancel now disk_ok st o (job_id j)) | None => st end)
        st (job_values (inner st)).

Definition running_count (st : JobStore) : nat :=
  length (List.filter (fun j => bool_decide (status j = Running)) (job_values (inner st))).
End Store.

(** ** Lemmas *)

Inductive job_op :=
| OpInsert (now : Z) (disk_ok : bool) (owner job_id action : text) (h : nat)
| OpFinish (now : Z) (disk_ok : bool) (job_id : text) (outcome : result api_error json)
| OpAnnotate (disk_ok : bool) (job_id : text) (completed : json -> json)
| OpCancel (now : Z) (disk_ok : bool) (owner job_id : text).

(** The identifier a registration uses. *)
Definition registers (op : job_op) : option text :=
  match op with OpInsert _ _ _ id' _ _ => Some id' | _ => None end.

Section StoreLemmas.
Context (to_vec : list json -> text) (notifier : bool).

Definition apply_op (st : JobStore) (op : job_op) : JobStore :=
  match op with
  | OpInsert now ok o id' a h => fst (try_insert_running to_vec now ok st o id' a h)
  | OpFinish now ok id' out => finish to_vec notifier now ok st id' out
  | OpAnnotate ok id' f => annotate_completion to_vec ok st id' f
  | OpCancel now ok o id' => fst (cancel to_vec notifier now ok st o id')
  end.

(** Jobs are stored under their own identifiers. *)
Definition keyed (m : gmap text Job) : Prop := forall k j, m !! k = Some j -> job_id j = k.

Lemma job_values_elem m j : j ∈ job_values m <-> exists k, m !! k = Some j.
Proof.
  unfold job_values. rewrite list_elem_of_omap. split.
  - intros (k & _ & Hk). eauto.
  - intros (k & Hk). exists k. split; [|done]. apply elem_of_sorted_keys. eauto.
Qed.

Lemma persist_inner ok st : inner (fst (persist to_vec ok st)) = inner st.
Proof. unfold persist. destruct (_ <? _); [done|]. by destruct ok. Qed.
Lemma notify_inner st j : inner (notify notifier st j) = inner st.
Proof. unfold notify. repeat case_match; done. Qed.
Lemma abort_inner st h : inner (abort st h) = inner st.
Proof. by destruct h. Qed.

Lemma evicted_terminal m k :
  keyed m -> k ∈ evicted m -> exists j, m !! k = Some j /\ status j <> Running.
Proof.
  intros Hk. unfold evicted. destruct (_ <? _)%nat; [by intros ?%elem_of_nil|].
  intros Hin. apply list_elem_of_In, in_map_iff in Hin as ([c k'] & <- & Hin). simpl.
  apply list_elem_of_In, elem_of_take in Hin as (i & Hin & _). apply list_elem_of_lookup_2 in Hin.
  rewrite merge_sort_Permutation in Hin. unfold terminal_jobs in Hin.
  apply list_elem_of_In, in_map_iff in Hin as (j & [= <- <-] & Hin).
  apply filter_In in Hin as [Hin Hs]. apply list_elem_of_In, job_values_elem in Hin as (k'' & Hj).
  exists j. rewrite (Hk _ _ Hj). split; [done|]. by apply negb_true_iff, bool_decide_eq_false in Hs.
Qed.

Lemma remove_all_lookup ids m k : k ∉ ids -> remove_all ids m !! k = m !! k.
Proof.
  unfold remove_all. revert m. induction ids as [|i ids IH]; intros m Hk; simpl; [done|].
  apply not_elem_of_cons in Hk as [Hne Hk]. rewrite IH by done. by rewrite lookup_delete_ne.
Qed.

Lemma remove_all_sub ids m k j : remove_all ids m !! k = Some j -> m !! k = Some j.
Proof.
  unfold remove_all. revert m. induction ids as [|i ids IH]; intros m H; simpl in H; [done|].
  apply IH in H. by apply lookup_delete_Some in H as [_ ?].
Qed.

(** What one operation can make of the job under [k]. *)
Inductive job_step (op : job_op) (k : text) (j : Job) : Job -> Prop :=
| js_same : job_step op k j j
| js_finished now ok out j' :
    op = OpFinish now ok k out -> status j = Running ->
    status j' = Finished \/ status j' = Failed -> finished_at j' = Some now -> handle j' = None ->
    owner j' = owner j -> job_id j' = job_id j -> job_step op k j j'
| js_cancelled now ok o :
    op = OpCancel now ok o k -> status j = Running -> owner j = Some o -> job_step op k j (cancelled now j)
| js_annotated ok f r j' :
    op = OpAnnotate ok k f -> status j = Finished \/ status j = Failed -> error j = None ->
    result_body j = Some r -> result_body j' = Some (f r) ->
    status j' = status j -> finished_at j' = finished_at j -> owner j' = owner j -> job_id j' = job_id j ->
    job_step op k j j'.

Lemma save_outcome_inner ok st id' :
  inner (save_outcome to_vec notifier ok st id') = inner st
  \/ inner (save_outcome to_vec notifier ok st id')
     = alter (fun j => set_error j Failed (500, persist_failed)) id' (inner st).
Proof.
  unfold save_outcome. pose proof (persist_inner ok st) as Hp.
  destruct (persist to_vec ok st) as [st1 [u|e]]; simpl in Hp; rewrite <- Hp.
  - left. destruct (inner st1 !! id'); by rewrite ?notify_inner.
  - right. simpl. destruct (alter _ id' (inner st1) !! id'); by rewrite ?notify_inner.
Qed.

Lemma finish_job now ok st id' out k j :
  inner st !! k = Some j ->
  exists j', inner (finish to_vec notifier now ok st id' out) !! k = Some j'
             /\ job_step (OpFinish now ok id' out) k j j'.
Proof.
  intros Hj. unfold finish. destruct (decide (k = id')) as [<-|Hne].
  - rewrite Hj. case_bool_decide as Hr; [|exists j; split; [done | constructor]].
    assert (Hst : status (ended now j out) = Finished \/ status (ended now j out) = Failed)
      by (destruct out; simpl; repeat case_match; auto).
    assert (Hfi : finished_at (ended now j out) = Some now /\ handle (ended now j out) = None
                  /\ owner (ended now j out) = owner j /\ job_id (ended now j out) = job_id j)
      by (by destruct out).
    destruct Hfi as (Hf1 & Hf2 & Hf3 & Hf4).
    destruct (save_outcome_inner ok (with_inner st (<[k:=ended now j out]> (inner st))) k) as [->| ->]; simpl.
    + rewrite lookup_insert_eq. eexists. split; [reflexivity|]. by eapply js_finished.
    + rewrite lookup_alter_eq, lookup_insert_eq. eexists. split; [reflexivity|].
      eapply js_finished; simpl; eauto.
  - exists j. split; [|constructor].
    assert (Hrest : forall st1, inner st1 !! k = Some j -> inner (save_outcome to_vec notifier ok st1 id') !! k = Some j).
    { intros st1 H1. destruct (save_outcome_inner ok st1 id') as [->| ->]; [done|]. by rewrite lookup_alter_ne. }
    destruct (inner st !! id') as [j0|]; [|by apply Hrest].
    case_bool_decide; [|done]. apply Hrest. simpl. by rewrite lookup_insert_ne.
Qed.

Lemma annotate_job ok st id' f k j :
  inner st !! k = Some j ->
  exists j', inner (annotate_completion to_vec ok st id' f) !! k = Some j'
             /\ job_step (OpAnnotate ok id' f) k j j'.
Proof.
  intros Hj. unfold annotate_completion. destruct (decide (k = id')) as [<-|Hne].
  - rewrite Hj. destruct (negb _ || _) eqn:Hg; [exists j; split; [done | constructor]|].
    apply orb_false_iff in Hg as [Hs He]. apply negb_false_iff, bool_decide_eq_true in Hs.
    apply bool_decide_eq_false, eq_None_not_Some in He.
    rewrite !elem_of_cons, elem_of_nil in Hs. assert (Hs' : status j = Finished \/ status j = Failed) by tauto.
    destruct (result_body j) as [r|] eqn:Er; [|exists j; split; [done | constructor]].
    set (st1 := with_inner _ _). assert (H1 : inner st1 !! k = Some (set_result j (f r))) by apply lookup_insert_eq.
    pose proof (persist_inner ok st1) as Hp. destruct (persist to_vec ok st1) as [st2 [u|e]]; cbn [fst] in Hp.
    + rewrite Hp, H1. eexists. split; [reflexivity|]. by eapply js_annotated.
    + simpl. rewrite Hp, lookup_alter_eq, H1. eexists. split; [reflexivity|]. by eapply js_annotated.
  - exists j. split; [|constructor]. destruct (inner st !! id') as [j0|]; [|done].
    destruct (_ || _); [done|]. destruct (result_body j0) as [r|]; [|done].
    set (st1 := with_inner _ _). assert (H1 : inner st1 !! k = Some j) by (simpl; by rewrite lookup_insert_ne).
    pose proof (persist_inner ok st1) as Hp. destruct (persist to_vec ok st1) as [st2 [u|e]]; cbn [fst] in Hp.
    + by rewrite Hp.
    + simpl. by rewrite lookup_alter_ne, Hp.
Qed.

Lemma cancel_job now ok st o id' k j :
  inner st !! k = Some j ->
  exists j', inner (fst (cancel to_vec notifier now ok st o id')) !! k = Some j'
             /\ job_step (OpCancel now ok o id') k j j'.
Proof.
  intros Hj. unfold cancel.
  assert (Hsame : exists j', inner st !! k = Some j' /\ job_step (OpCancel now ok o id') k j j')
    by (exists j; split; [done | constructor]).
  destruct (inner st !! id') as [j0|] eqn:E0; [|exact Hsame].
  destruct (owned o j0) eqn:Eo; [|exact Hsame]. simpl. unfold owned in Eo. apply bool_decide_eq_true in Eo.
  case_bool_decide as Hr.
  - set (st1 := abort _ _). pose proof (persist_inner ok st1) as Hp. destruct (persist to_vec ok st1) as [st2 r].
    cbn [fst] in Hp. cbn [fst]. rewrite notify_inner, Hp. unfold st1. rewrite abort_inner. simpl.
    destruct (decide (k = id')) as [<-|Hne].
    + rewrite E0 in Hj. injection Hj as ->. rewrite lookup_insert_eq. eexists. split; [reflexivity|].
      by eapply js_cancelled.
    + rewrite lookup_insert_ne by done. exact Hsame.
  - pose proof (persist_inner ok st) as Hp. destruct (persist to_vec ok st) as [st2 r]. simpl in Hp. simpl.
    by rewrite Hp.
Qed.

(** Operations other than registration do not add jobs. *)
Lemma op_none st op k :
  registers op <> Some k ->
  inner st !! k = None -> inner (apply_op st op) !! k = None.
Proof.
  intros Hop Hn. destruct op as [now ok o id' a h|now ok id' out|ok id' f|now ok o id']; simpl.
  - simpl in Hop. unfold try_insert_running. destruct (negb _); [done|].
    set (st1 := with_inner _ _). pose proof (persist_inner ok st1) as Hp.
    assert (H1 : inner st1 !! k = None).
    { simpl. rewrite lookup_insert_ne by congruence. destruct (remove_all _ _ !! k) eqn:E; [|done].
      apply remove_all_sub in E. congruence. }
    destruct (persist to_vec ok st1) as [st2 [u|e]]; cbn [fst] in *; [by rewrite Hp|].
    simpl. rewrite lookup_delete_ne by congruence. by rewrite Hp.
  - unfold finish.
    assert (Hrest : forall st1, inner st1 !! k = None -> inner (save_outcome to_vec notifier ok st1 id') !! k = None).
    { intros st1 H1. destruct (save_outcome_inner ok st1 id') as [->| ->]; [done|].
      destruct (decide (k = id')) as [<-|]; [by rewrite lookup_alter_eq, H1 | by rewrite lookup_alter_ne]. }
    destruct (inner st !! id') as [j|] eqn:E; [|by apply Hrest]. case_bool_decide; [|done].
    apply Hrest. simpl. rewrite lookup_insert_ne; [done | congruence].
  - unfold annotate_completion. destruct (inner st !! id') as [j|] eqn:E; [|done].
    destruct (_ || _); [done|]. destruct (result_body j); [|done].
    set (st1 := with_inner _ _). pose proof (persist_inner ok st1) as Hp.
    assert (H1 : inner st1 !! k = None) by (simpl; rewrite lookup_insert_ne; [done | congruence]).
    destruct (persist to_vec ok st1) as [st2 [u|e]]; cbn [fst] in *; [by rewrite Hp|].
    simpl. rewrite lookup_alter_ne by congruence. by rewrite Hp.
  - unfold cancel. destruct (inner st !! id') as [j|] eqn:E; [|done]. destruct (negb _); [done|].
    case_bool_decide.
    + set (st1 := abort _ _). pose proof (persist_inner ok st1) as Hp.
      destruct (persist to_vec ok st1) as [st2 r]. cbn [fst] in *. rewrite notify_inner, Hp. unfold st1.
      rewrite abort_inner. simpl. rewrite lookup_insert_ne; [done | congruence].
    + pose proof (persist_inner ok st) as Hp. destruct (persist to_vec ok st) as [st2 r]. cbn [fst] in *.
      by rewrite Hp.
Qed.

Lemma insert_job now ok st o id' a h k j :
  keyed (inner st) -> inner st !! k = Some j -> id' <> k ->
  inner (fst (try_insert_running to_vec now ok st o id' a h)) !! k = Some j
  \/ (inner (fst (try_insert_running to_vec now ok st o id' a h)) !! k = None
      /\ status j <> Running /\ k ∈ evicted (inner st)).
Proof.
  intros Hk Hj Hne. unfold try_insert_running. destruct (negb (valid_owner o)); [by left|].
  set (st1 := with_inner _ _). pose proof (persist_inner ok st1) as Hp.
  assert (H1 : inner st1 !! k = remove_all (evicted (inner st)) (inner st) !! k)
    by (simpl; by rewrite lookup_insert_ne).
  assert (H2 : remove_all (evicted (inner st)) (inner st) !! k = Some j
               \/ (remove_all (evicted (inner st)) (inner st) !! k = None /\ status j <> Running /\ k ∈ evicted (inner st))).
  { destruct (decide (k ∈ evicted (inner st))) as [Hin|Hn]; [|left; by rewrite remove_all_lookup].
    destruct (remove_all _ _ !! k) as [j'|] eqn:E.
    - left. apply remove_all_sub in E. congruence.
    - right. destruct (evicted_terminal _ _ Hk Hin) as (j0 & Hj0 & Hs). split; [done|]. split; [congruence | done]. }
  rewrite <- H1, <- Hp in H2. destruct (persist to_vec ok st1) as [st2 [u|e]]; cbn [fst] in *; [done|].
  rewrite abort_inner. simpl. by rewrite lookup_delete_ne.
Qed.

Lemma op_job st op k j :
  keyed (inner st) -> inner st !! k = Some j ->
  registers op <> Some k ->
  (exists j', inner (apply_op st op) !! k = Some j' /\ job_step op k j j')
  \/ (inner (apply_op st op) !! k = None /\ status j <> Running /\ k ∈ evicted (inner st)).
Proof.
  intros Hk Hj Hop. destruct op as [now ok o id' a h|now ok id' out|ok id' f|now ok o id']; simpl.
  - destruct (insert_job now ok st o id' a h k j Hk Hj ltac:(simpl in Hop; congruence)) as [H|H]; [left | by right].
    exists j. split; [done | constructor].
  - left. by apply finish_job.
  - left. by apply annotate_job.
  - left. by apply cancel_job.
Qed.

Lemma insert_own now ok st o k a h j :
  inner (fst (try_insert_running to_vec now ok st o k a h)) !! k = Some j ->
  inner st !! k = Some j \/ job_id j = k.
Proof.
  unfold try_insert_running. destruct (negb _); [by left|].
  set (st1 := with_inner _ _). pose proof (persist_inner ok st1) as Hp.
  destruct (persist to_vec ok st1) as [st2 [u|e]]; cbn [fst] in *.
  - rewrite Hp. simpl. rewrite lookup_insert_eq. intros [= <-]. by right.
  - simpl. by rewrite lookup_delete_eq.
Qed.

Lemma op_keyed st op : keyed (inner st) -> keyed (inner (apply_op st op)).
Proof.
  intros Hk k j' Hj'.
  destruct (decide (registers op = Some k)) as [Hi|Hi].
  { destruct op as [now ok o id' a h| | |]; [injection Hi as -> | done..].
    apply insert_own in Hj' as [Hj'|Hj']; [by apply Hk | done]. }
  destruct (inner st !! k) as [j|] eqn:E; [|by rewrite op_none in Hj'].
  destruct (op_job st op k j Hk E) as [(j'' & H1 & H2)|[H1 _]]; [done| |congruence].
  rewrite H1 in Hj'. injection Hj' as ->. specialize (Hk k j E). destruct H2; simpl; congruence.
Qed.
End StoreLemmas.

Section Sequences.
Context (to_vec : list json -> text) (notifier : bool).
Abbreviation apply := (apply_op to_vec notifier).

(** A job that can no longer change, and one whose outcome is settled. *)
Definition settled (j j' : Job) : Prop :=
  owner j' = owner j
  /\ (status j <> Running -> status j' = status j /\ finished_at j' = finished_at j)
  /\ (status j = Cancelled \/ status j = Interrupted -> j' = j).

Lemma job_step_settled op k j j' : job_step op k j j' -> settled j j'.
Proof.
  intros H. destruct H; unfold settled; simpl; split_and!; try done; intuition congruence.
Qed.

Lemma settled_trans j1 j2 j3 : settled j1 j2 -> settled j2 j3 -> settled j1 j3.
Proof.
  intros (H1 & H2 & H3) (H4 & H5 & H6). split_and!; [congruence| |].
  - intros Hr. destruct (H2 Hr) as [Hs Hf]. destruct H5 as [Hs' Hf']; [congruence|]. split; congruence.
  - intros Hc. rewrite (H3 Hc) in *. by apply H6.
Qed.

Lemma ops_keyed st ops : keyed (inner st) -> keyed (inner (foldl apply st ops)).
Proof. revert st. induction ops as [|op ops IH]; intros st Hk; simpl; [done|]. apply IH, op_keyed, Hk. Qed.
End Sequences.

(** ** Eviction *)

Lemma merge_sort_split {A} (R : relation A) `{!RelDecision R, !Transitive R, !Total R} (l : list A) n x y :
  x ∈ take n (merge_sort R l) -> y ∈ drop n (merge_sort R l) -> R x y.
Proof.
  apply StronglySorted_app_1_elem_of. rewrite take_drop. by apply StronglySorted_merge_sort.
Qed.

#[export] Instance created_le_total : Total created_le.
Proof. intros a b. unfold created_le. lia. Qed.
#[export] Instance created_le_trans : Transitive created_le.
Proof. intros a b c. unfold created_le. lia. Qed.

Lemma NoDup_sorted_keys {A} (m : gmap text A) : NoDup (sorted_keys m).
Proof. unfold sorted_keys. rewrite merge_sort_Permutation. apply NoDup_elements. Qed.

Lemma job_ids m : keyed m -> map job_id (job_values m) = sorted_keys m.
Proof.
  intros Hk. unfold job_values.
  assert (Hs : Forall (fun k => is_Some (m !! k)) (sorted_keys m)).
  { apply Forall_forall. intros k. apply elem_of_sorted_keys. }
  induction Hs as [|k ks [j Hj] Hs IH]; simpl; [done|].
  rewrite Hj. simpl. f_equal; [by apply Hk | exact IH].
Qed.

Lemma terminal_ids_NoDup m : keyed m -> NoDup (map snd (terminal_jobs m)).
Proof.
  intros Hk. unfold terminal_jobs. rewrite map_map. simpl.
  pose proof (NoDup_sorted_keys m) as Hn. rewrite <- job_ids in Hn by done.
  induction (job_values m) as [|j l IH]; simpl in *; [constructor|].
  apply NoDup_cons in Hn as [Hj Hn]. destruct (negb _); [|by apply IH]. simpl. constructor; [|by apply IH].
  intros Hin. apply Hj. apply list_elem_of_In, in_map_iff in Hin as (j' & <- & Hin).
  apply filter_In in Hin as [Hin _]. by apply list_elem_of_In, in_map.
Qed.

Lemma terminal_jobs_elem m c k :
  keyed m -> (c, k) ∈ terminal_jobs m <-> exists j, m !! k = Some j /\ status j <> Running /\ created_at j = c.
Proof.
  intros Hk. unfold terminal_jobs. rewrite list_elem_of_In, in_map_iff. split.
  - intros (j & [= <- <-] & Hin). apply filter_In in Hin as [Hin Hs].
    apply list_elem_of_In, job_values_elem in Hin as (k' & Hj).
    apply negb_true_iff, bool_decide_eq_false in Hs. exists j. by rewrite (Hk _ _ Hj).
  - intros (j & Hj & Hs & <-). exists j. rewrite (Hk _ _ Hj). split; [done|]. apply filter_In.
    split; [apply list_elem_of_In, job_values_elem; eauto | by apply negb_true_iff, bool_decide_eq_false].
Qed.

(** The terminal jobs that registration keeps. *)
Definition retained (m : gmap text Job) : list (Z * text) :=
  drop (if (length (terminal_jobs m) <? MAX_RETAINED_JOBS)%nat then 0
        else length (terminal_jobs m) + 1 - MAX_RETAINED_JOBS) (merge_sort created_le (terminal_jobs m)).

Lemma length_retained m : (length (retained m) < MAX_RETAINED_JOBS)%nat.
Proof.
  unfold retained. rewrite length_drop, (Permutation_length (merge_sort_Permutation _ _)).
  unfold MAX_RETAINED_JOBS. destruct (_ <? _)%nat eqn:E; [apply Nat.ltb_lt in E; lia | lia].
Qed.

Lemma evicted_or_retained m c k : (c, k) ∈ terminal_jobs m -> k ∈ evicted m \/ (c, k) ∈ retained m.
Proof.
  intros Hin. rewrite <- (merge_sort_Permutation created_le) in Hin. unfold retained, evicted.
  destruct (_ <? _)%nat; [by right|]. set (n := (length (terminal_jobs m) + 1 - MAX_RETAINED_JOBS)%nat).
  rewrite <- (take_drop n (merge_sort created_le (terminal_jobs m))) in Hin.
  apply elem_of_app in Hin as [Hin|Hin]; [left | by right].
  apply list_elem_of_In. apply list_elem_of_In in Hin. exact (in_map snd _ _ Hin).
Qed.

Lemma evicted_older m k c' k' :
  k ∈ evicted m -> (c', k') ∈ retained m -> exists c, (c, k) ∈ terminal_jobs m /\ c <= c'.
Proof.
  unfold evicted, retained. destruct (_ <? _)%nat; [by intros ?%elem_of_nil|].
  intros Hin Hr. apply list_elem_of_In, in_map_iff in Hin as ([c k0] & <- & Hin). apply list_elem_of_In in Hin.
  exists c. split.
  - rewrite <- (merge_sort_Permutation created_le). apply elem_of_take in Hin as (i & Hi & _).
    by apply list_elem_of_lookup_2 in Hi.
  - exact (merge_sort_split created_le _ _ _ _ Hin Hr).
Qed.

Lemma remove_all_gone ids m k : k ∈ ids -> remove_all ids m !! k = None.
Proof.
  unfold remove_all. revert m. induction ids as [|i ids IH]; intros m Hk; [by apply elem_of_nil in Hk|].
  simpl. destruct (decide (k ∈ ids)) as [Hin|Hn]; [by apply IH|].
  apply elem_of_cons in Hk as [->|]; [|done].
  pose proof (remove_all_lookup ids (delete i m) i Hn) as Hl. unfold remove_all in Hl. rewrite Hl.
  apply lookup_delete_eq.
Qed.

(** ** Recovery *)

(** What a restart makes of a job. *)
Definition restarted (now : Z) (j : Job) : Job :=
  let interrupted := bool_decide (status j = Running) || bool_decide (status j = Interrupted) in
  MkJob (job_id j) (owner j) (action j) (created_at j)
        (if interrupted then Some now else finished_at j)
        (if interrupted then Interrupted else status j) (result_body j)
        ((fun e => (fst e, JObj [(T "detail", index (snd e) (T "detail"))])) <$> error j) None.

(** A job as the server makes them. *)
Record job_wf (j : Job) : Prop := {
  wf_id : is_lower_hex (job_id j) 32 = true;
  wf_owner : match owner j with Some o => valid_owner o = true | None => True end;
  wf_code : match error j with Some (code, _) => 0 <= code < 65536 | None => True end;
}.

Lemma field_hit k v rest : field k ((k, v) :: rest) = Some v.
Proof. simpl. by rewrite teqb_refl. Qed.
Lemma field_miss k k' v rest : k' <> k -> field k ((k', v) :: rest) = field k rest.
Proof. intros H. simpl. by rewrite (proj2 (teqb_neq _ _) H). Qed.

Ltac fields := repeat (rewrite field_hit || rewrite field_miss by discriminate).

Lemma recovered_status_text s :
  recovered_status (status_text s) = Some (if bool_decide (s = Running) || bool_decide (s = Interrupted) then Interrupted else s).
Proof. by destruct s; vm_compute. Qed.

Lemma job_json_head j :
  get (job_json j) (T "job_id") = Some (JStr (job_id j))
  /\ get (job_json j) (T "schema_version") = Some (JInt (match owner j with Some _ => 1 | None => 0 end))
  /\ get (job_json j) (T "owner") = Some (opt_json JStr (owner j))
  /\ get (job_json j) (T "action") = Some (JStr (action j))
  /\ get (job_json j) (T "status") = Some (JStr (status_text (status j)))
  /\ get (job_json j) (T "created_at") = Some (JInt (created_at j))
  /\ get (job_json j) (T "finished_at") = Some (opt_json JInt (finished_at j)).
Proof. unfold job_json, get. simpl app. split_and!; by fields. Qed.

Lemma job_json_result j : get (job_json j) (T "result") = result_body j.
Proof.
  unfold job_json, get. simpl app. fields. destruct (result_body j) as [r|]; simpl app; [by fields|].
  destruct (error j) as [[code body]|]; [by fields | done].
Qed.

Lemma job_json_error j :
  get (job_json j) (T "error")
  = (fun e => JObj [(T "http_status", JInt (fst e)); (T "detail", index (snd e) (T "detail"))]) <$> error j.
Proof.
  unfold job_json, get. simpl app. fields. destruct (result_body j) as [r|]; simpl app; fields;
    (destruct (error j) as [[code body]|]; [by fields | done]).
Qed.

Lemma recovered_owner_json j : job_wf j -> recovered_owner (job_json j) = Ok (owner j).
Proof.
  intros [_ Ho _]. unfold recovered_owner. destruct (job_json_head j) as (_ & -> & -> & _).
  destruct (owner j) as [o|]; simpl; [by rewrite Ho | done].
Qed.

Lemma recovered_error_json j :
  job_wf j -> recovered_error (job_json j)
              = (fun e => (fst e, JObj [(T "detail", index (snd e) (T "detail"))])) <$> error j.
Proof.
  intros [_ _ Hc]. unfold recovered_error. rewrite job_json_error.
  destruct (error j) as [[code body]|]; [|done]. simpl. unfold as_u64.
  destruct (0 <=? code) eqn:E1; [|apply Z.leb_gt in E1; lia].
  destruct (code <? 2 ^ 64) eqn:E2; [|apply Z.ltb_ge in E2; lia]. simpl.
  by rewrite Z.mod_small.
Qed.

Lemma recover_row_json now j : job_wf j -> recover_row now (job_json j) = Ok (restarted now j).
Proof.
  intros Hwf. unfold recover_row, str_at, index. rewrite job_json_result, recovered_error_json by done.
  destruct (job_json_head j) as (H1 & _ & _ & H4 & H5 & H6 & H7). rewrite H1, H4, H5, H6, H7. simpl.
  rewrite (wf_id _ Hwf). simpl. rewrite recovered_status_text. simpl. rewrite recovered_owner_json by done.
  unfold restarted. simpl. unfold mret, result_ret. f_equal. f_equal.
  destruct (status j); simpl; try done; by destruct (finished_at j).
Qed.

Lemma recover_rows_json (now : Z) (js : list Job) (m : gmap text Job) :
  Forall job_wf js ->
  recover_rows now (map job_json js) m = Ok (foldl (fun (m : gmap text Job) j => <[job_id j := restarted now j]> m) m js).
Proof.
  intros Hf. revert m. induction Hf as [|j js Hj Hf IH]; intros m; simpl; [done|].
  rewrite recover_row_json by done. simpl. apply IH.
Qed.

Lemma foldl_insert_lookup (now : Z) (js : list Job) (m : gmap text Job) k :
  NoDup (map job_id js) ->
  foldl (fun (m : gmap text Job) j => <[job_id j := restarted now j]> m) m js !! k
  = match list_find (fun j => job_id j = k) js with Some (_, j) => Some (restarted now j) | None => m !! k end.
Proof.
  revert m. induction js as [|j js IH]; intros m Hn; simpl in *; [done|].
  apply NoDup_cons in Hn as [Hj Hn]. rewrite IH by done. destruct (decide (job_id j = k)) as [<-|Hne]; simpl.
  - destruct (list_find _ js) as [[i j']|] eqn:E; simpl; [|by rewrite lookup_insert_eq].
    apply list_find_Some in E as (Hl & He & _). exfalso. apply Hj. rewrite <- He.
    apply list_elem_of_In, in_map, list_elem_of_In. by apply list_elem_of_lookup_2 in Hl.
  - destruct (list_find _ js) as [[i j']|]; simpl; [done|]. by rewrite lookup_insert_ne.
Qed.

Lemma recovered_map (now : Z) (m : gmap text Job) :
  keyed m ->
  foldl (fun (m : gmap text Job) j => <[job_id j := restarted now j]> m) ∅ (job_values m) = restarted now <$> m.
Proof.
  intros Hk. apply map_eq. intros k. rewrite foldl_insert_lookup, lookup_fmap.
  2: { rewrite job_ids by done. apply NoDup_sorted_keys. }
  destruct (list_find _ (job_values m)) as [[i j]|] eqn:E.
  - apply list_find_Some in E as (Hl & He & _). apply list_elem_of_lookup_2, job_values_elem in Hl as (k' & Hj).
    rewrite <- He, (Hk _ _ Hj), Hj. done.
  - rewrite lookup_empty. apply list_find_None in E. destruct (m !! k) as [j|] eqn:Ej; [|done].
    rewrite Forall_forall in E. exfalso. apply (E j); [apply job_values_elem; eauto | by apply Hk].
Qed.

(** ** Properties *)

(** C35. The life of a job.  Over any sequence of registrations of other jobs,
    completions, annotations and cancellations, a job keeps its owner; once it
    is terminal its status and its end time are fixed, and a cancelled or
    interrupted job does not change at all: a task that finishes after the
    cancellation cannot overwrite it.  A job leaves the store only by
    eviction at a registration, and never while it is running. *)
Theorem job_lifecycle (to_vec : list json -> text) (notifier : bool) (st : JobStore) (ops : list job_op)
    (k : text) (j : Job) :
  keyed (inner st) -> Forall (fun op => registers op <> Some k) ops -> inner st !! k = Some j ->
  match inner (foldl (apply_op to_vec notifier) st ops) !! k with
  | Some j' =>
      owner j' = owner j
      /\ (status j <> Running -> status j' = status j /\ finished_at j' = finished_at j)
      /\ (status j = Cancelled \/ status j = Interrupted -> j' = j)
  | None =>
      exists before op after j1,
        ops = before ++ op :: after /\ is_Some (registers op)
        /\ inner (foldl (apply_op to_vec notifier) st before) !! k = Some j1 /\ status j1 <> Running
        /\ k ∈ evicted (inner (foldl (apply_op to_vec notifier) st before))
  end.
Proof.
  intros Hk Hr. revert st j Hk. induction Hr as [|op ops Hop Hr IH]; intros st j Hk Hj; simpl.
  { by rewrite Hj. }
  destruct (op_job to_vec notifier st op k j Hk Hj Hop) as [(j1 & Hj1 & Hs)|(Hn & Hnr & Hev)].
  - specialize (IH _ _ (op_keyed to_vec notifier st op Hk) Hj1).
    apply job_step_settled in Hs. destruct (inner (foldl _ _ ops) !! k) as [j'|].
    + exact (settled_trans j j1 j' Hs IH).
    + destruct IH as (before & op' & after & j2 & -> & H). by exists (op :: before), op', after, j2.
  - assert (Hev' : is_Some (registers op)).
    { destruct op as [?????? |?|?|?]; [by eexists|..];
        exfalso; (destruct (finish_job to_vec notifier now disk_ok st job_id0 outcome k j Hj) as (? & ? & _)
                  || destruct (annotate_job to_vec disk_ok st job_id0 completed k j Hj) as (? & ? & _)
                  || destruct (cancel_job to_vec notifier now disk_ok st owner0 job_id0 k j Hj) as (? & ? & _));
        simpl in Hn; congruence. }
    assert (Hgone : forall l, Forall (fun op => registers op <> Some k) l -> forall st1, inner st1 !! k = None ->
              inner (foldl (apply_op to_vec notifier) st1 l) !! k = None).
    { induction 1 as [|o l Ho Hl IHl]; intros st1 H1; simpl; [done|]. by apply IHl, op_none. }
    rewrite (Hgone ops Hr _ Hn). exists [], op, ops, j. done.
Qed.

(** Retention.  A successful registration leaves the new job running and
    at most 31 terminal jobs beside it; it removes only terminal jobs, the
    oldest first: every terminal job that it keeps was created no earlier
    than any it removed, and every running job is kept as it is. *)
Theorem registration_evicts_oldest (to_vec : list json -> text) (now : Z) (disk_ok : bool) (st st' : JobStore)
    (o id' a : text) (h : nat) :
  keyed (inner st) -> inner st !! id' = None ->
  try_insert_running to_vec now disk_ok st o id' a h = (st', Ok tt) ->
  inner st' !! id' = Some (MkJob id' (Some o) a now None Running None None (Some h))
  /\ (length (terminal_jobs (inner st')) < MAX_RETAINED_JOBS)%nat
  /\ (forall k j, inner st !! k = Some j -> inner st' !! k = Some j
        \/ (inner st' !! k = None /\ status j <> Running
            /\ forall k1 j1, inner st !! k1 = Some j1 -> inner st' !! k1 = Some j1 -> status j1 <> Running ->
                created_at j <= created_at j1)).
Proof.
  intros Hk Hfresh H. unfold try_insert_running in H. destruct (negb (valid_owner o)); [discriminate H|].
  set (kept := remove_all (evicted (inner st)) (inner st)) in H.
  set (job := MkJob _ _ _ _ _ _ _ _ _) in H.
  pose proof (persist_inner to_vec disk_ok (with_inner st (<[id' := job]> kept))) as Hp.
  destruct (persist _ _ _) as [st1 [u|e]]; [|discriminate H]. injection H as <-. cbn [fst] in Hp. simpl in Hp.
  assert (Hkept : forall k, k <> id' -> inner st1 !! k = kept !! k) by (intros k Hne; by rewrite Hp, lookup_insert_ne).
  assert (Hk1 : keyed (inner st1)).
  { intros k j Hj. destruct (decide (k = id')) as [->|Hne].
    - rewrite Hp, lookup_insert_eq in Hj. by injection Hj as <-.
    - rewrite Hkept in Hj by done. apply remove_all_sub in Hj. by apply Hk. }
  assert (Hret : forall c k, (c, k) ∈ terminal_jobs (inner st1) -> (c, k) ∈ retained (inner st)).
  { intros c k Hin. apply terminal_jobs_elem in Hin as (j & Hj & Hs & <-); [|done].
    destruct (decide (k = id')) as [->|Hne]; [rewrite Hp, lookup_insert_eq in Hj; by injection Hj as <-|].
    rewrite Hkept in Hj by done.
    destruct (evicted_or_retained (inner st) (created_at j) k) as [He|He]; [| |done].
    - apply terminal_jobs_elem; [done|]. exists j. split; [by apply remove_all_sub in Hj | done].
    - unfold kept in Hj. by rewrite remove_all_gone in Hj. }
  split; [by rewrite Hp, lookup_insert_eq|]. split.
  - apply Nat.le_lt_trans with (length (retained (inner st))); [|apply length_retained].
    apply NoDup_incl_length.
    + apply NoDup_ListNoDup. apply (NoDup_fmap_1 snd). by apply terminal_ids_NoDup.
    + intros [c k] Hin. apply list_elem_of_In, Hret. by apply list_elem_of_In.
  - intros k j Hj. assert (Hne : k <> id') by congruence.
    destruct (decide (k ∈ evicted (inner st))) as [He|He].
    + right. destruct (evicted_terminal _ _ Hk He) as (j0 & Hj0 & Hs). assert (j0 = j) as -> by congruence.
      rewrite Hkept by done. unfold kept. rewrite remove_all_gone by done. split; [done|]. split; [done|].
      intros k1 j1 Hj1 Hin1 Hs1. destruct (evicted_older (inner st) k (created_at j1) k1 He) as (c & Hc & Hle).
      * apply Hret, terminal_jobs_elem; [done|]. eauto.
      * apply terminal_jobs_elem in Hc as (j2 & Hj2 & _ & <-); [|done]. congruence.
    + left. rewrite Hkept by done. unfold kept. by rewrite remove_all_lookup.
Qed.

(** Restart.  A store written by the server and opened again gives every
    job back under its identifier, with its owner, times, result and error
    detail; a job that was running (or already interrupted) comes back as
    interrupted at the time of the restart, so that nothing is running, and
    no other status changes. *)
Theorem restart_round_trip (to_vec : list json -> text) (from_str : text -> option (list json)) (now : Z)
    (st : JobStore) :
  from_str (to_vec (map job_json (job_values (inner st)))) = Some (map job_json (job_values (inner st))) ->
  keyed (inner st) -> map_Forall (fun _ => job_wf) (inner st) ->
  (size (inner st) <= S MAX_RETAINED_JOBS)%nat ->
  byte_len (to_vec (map job_json (job_values (inner st)))) <= MAX_JOB_FILE_BYTES ->
  byte_len (to_vec (map job_json (job_values (restarted now <$> inner st)))) <= MAX_JOB_FILE_BYTES ->
  exists st', open to_vec from_str now (disk (fst (persist to_vec true st))) true = Ok st'
    /\ inner st' = restarted now <$> inner st /\ running_count st' = 0%nat.
Proof.
  intros Hparse Hk Hwf Hsize Hb1 Hb2. unfold persist at 1.
  destruct (MAX_JOB_FILE_BYTES <? _) eqn:E1; [apply Z.ltb_lt in E1; lia|]. simpl. unfold open. rewrite E1. simpl.
  rewrite Hparse. simpl. rewrite length_map.
  assert (Hlen : length (job_values (inner st)) = size (inner st)).
  { rewrite <- (length_map job_id), job_ids by done. unfold sorted_keys.
    rewrite (Permutation_length (merge_sort_Permutation _ _)). rewrite <- size_dom. reflexivity. }
  rewrite Hlen. destruct (_ <? size _)%nat eqn:E2; [apply Nat.ltb_lt in E2; lia|]. simpl.
  rewrite recover_rows_json.
  2: { apply Forall_forall. intros j Hj. apply job_values_elem in Hj as (k & Hj). exact (Hwf k j Hj). }
  simpl. rewrite recovered_map by done. unfold persist. simpl.
  destruct (MAX_JOB_FILE_BYTES <? byte_len (to_vec (map job_json (job_values (restarted now <$> inner st))))) eqn:E3;
    [apply Z.ltb_lt in E3; lia|].
  eexists. split; [reflexivity|]. split; [done|]. unfold running_count. simpl.
  assert (Hno : forall j, j ∈ job_values (restarted now <$> inner st) -> status j <> Running).
  { intros j Hj. apply job_values_elem in Hj as (k & Hj). rewrite lookup_fmap in Hj.
    apply fmap_Some in Hj as (j0 & _ & ->). simpl. by destruct (status j0). }
  clear -Hno. revert Hno. generalize (job_values (restarted now <$> inner st)). intros l Hno.
  induction l as [|j l IH]; simpl; [reflexivity|].
  rewrite bool_decide_false by (apply Hno; left). apply IH. intros j' Hj'. apply Hno. by right.
Qed.

(** ** Witnesses *)

Section Witnesses.
(** A length-prefixed encoding of values, for the printer parameter. *)
Fixpoint enc (j : json) : text :=
  match j with
  | JNull => [0]
  | JBool b => [1; if b then 1 else 0]
  | JInt n => [2; n]
  | JFloat r => 3 :: Z.of_nat (length r) :: r
  | JStr s => 4 :: Z.of_nat (length s) :: s
  | JArr l => 5 :: Z.of_nat (length l) :: concat (map enc l)
  | JObj f => 6 :: Z.of_nat (length f) :: concat (map (fun e => Z.of_nat (length (fst e)) :: fst e ++ enc (snd e)) f)
  end.

Fixpoint dec (fuel : nat) (t : text) : option (json * text) :=
  match fuel with
  | O => None
  | S fuel =>
      let many := fix many (n : nat) (t : text) : option (list json * text) :=
        match n with
        | O => Some ([], t)
        | S n => match dec fuel t with
                 | Some (v, t) => match many n t with Some (vs, t) => Some (v :: vs, t) | None => None end
                 | None => None
                 end
        end in
      let members := fix members (n : nat) (t : text) : option (list (text * json) * text) :=
        match n, t with
        | O, _ => Some ([], t)
        | S n, k :: t =>
            match dec fuel (drop (Z.to_nat k) t) with
            | Some (v, t') => match members n t' with
                              | Some (vs, t') => Some ((take (Z.to_nat k) t, v) :: vs, t')
                              | None => None
                              end
            | None => None
            end
        | S _, [] => None
        end in
      match t with
      | 0 :: t => Some (JNull, t)
      | 1 :: b :: t => Some (JBool (b =? 1), t)
      | 2 :: n :: t => Some (JInt n, t)
      | 3 :: n :: t => Some (JFloat (take (Z.to_nat n) t), drop (Z.to_nat n) t)
      | 4 :: n :: t => Some (JStr (take (Z.to_nat n) t), drop (Z.to_nat n) t)
      | 5 :: n :: t => match many (Z.to_nat n) t with Some (l, t) => Some (JArr l, t) | None => None end
      | 6 :: n :: t => match members (Z.to_nat n) t with Some (l, t) => Some (JObj l, t) | None => None end
      | _ => None
      end
  end.

Definition demo_to_vec (rows : list json) : text := enc (JArr rows).
Definition demo_from_str (t : text) : option (list json) :=
  match dec 8 t with Some (JArr rows, []) => Some rows | _ => None end.

Definition demo_id (c : string) : text := concat (repeat (T c) 32).
Definition demo_empty : JobStore := MkStore ∅ None [] [].
Definition demo_ops : list job_op :=
  [OpInsert 10 true (T "local") (demo_id "a") (T "real-repo-run") 1;
   OpInsert 11 true (T "local") (demo_id "b") (T "real-repo-run") 2;
   OpFinish 12 true (demo_id "a") (Ok (JObj [(T "ok", JBool true)]))].
Definition demo_store : JobStore := foldl (apply_op demo_to_vec true) demo_empty demo_ops.

Lemma demo_keyed ops : keyed (inner (foldl (apply_op demo_to_vec true) demo_empty ops)).
Proof. apply ops_keyed. intros k j Hj. exfalso. exact (lookup_empty_Some k j Hj). Qed.
End Witnesses.

Definition demo_cancelled : JobStore := apply_op demo_to_vec true demo_store (OpCancel 13 true (T "local") (demo_id "b")).
Definition demo_late : list job_op := [OpFinish 14 true (demo_id "b") (Ok JNull)].

Lemma job_lifecycle_witness :
  exists j, inner (foldl (apply_op demo_to_vec true) demo_cancelled demo_late) !! demo_id "b" = Some j
            /\ status j = Cancelled.
Proof.
  assert (Hj : exists j, inner demo_cancelled !! demo_id "b" = Some j /\ status j = Cancelled)
    by (eexists; split; vm_compute; reflexivity).
  destruct Hj as (j & Hj & Hs).
  pose proof (job_lifecycle demo_to_vec true demo_cancelled demo_late (demo_id "b") j
                (op_keyed _ _ _ _ (demo_keyed demo_ops)) ltac:(repeat constructor; discriminate) Hj) as H.
  assert (Hin : exists j', inner (foldl (apply_op demo_to_vec true) demo_cancelled demo_late) !! demo_id "b" = Some j')
    by (eexists; vm_compute; reflexivity).
  destruct Hin as (j' & Hj'). exists j'. split; [exact Hj'|]. rewrite Hj' in H.
  destruct H as (_ & _ & H). rewrite (H (or_introl Hs)). exact Hs.
Defined.

Lemma registration_evicts_oldest_witness :
  exists st', try_insert_running demo_to_vec 15 true demo_store (T "user_ann") (demo_id "c") (T "real-repo-run") 3
              = (st', Ok tt)
  /\ inner st' !! demo_id "c"
     = Some (MkJob (demo_id "c") (Some (T "user_ann")) (T "real-repo-run") 15 None Running None None (Some 3%nat)).
Proof.
  assert (H : exists st', try_insert_running demo_to_vec 15 true demo_store (T "user_ann") (demo_id "c")
                            (T "real-repo-run") 3 = (st', Ok tt)) by (eexists; vm_compute; reflexivity).
  destruct H as (st' & H). exists st'. split; [exact H|].
  assert (Hn : inner demo_store !! demo_id "c" = None) by (vm_compute; reflexivity).
  exact (proj1 (registration_evicts_oldest demo_to_vec 15 true demo_store st' (T "user_ann") (demo_id "c")
                  (T "real-repo-run") 3 (demo_keyed demo_ops) Hn H)).
Defined.

Lemma restart_round_trip_witness :
  exists st', open demo_to_vec demo_from_str 20 (disk (fst (persist demo_to_vec true demo_store))) true = Ok st'
    /\ running_count st' = 0%nat.
Proof.
  assert (Hp : demo_from_str (demo_to_vec (map job_json (job_values (inner demo_store))))
               = Some (map job_json (job_values (inner demo_store)))) by (vm_compute; reflexivity).
  assert (Hwf : map_Forall (fun _ => job_wf) (inner demo_store)).
  { intros k j Hj. assert (Hin : j ∈ job_values (inner demo_store)) by (apply job_values_elem; eauto).
    assert (Hall : Forall job_wf (job_values (inner demo_store))).
    { vm_compute. repeat constructor. }
    rewrite Forall_forall in Hall. by apply Hall. }
  assert (Hs : (size (inner demo_store) <= S MAX_RETAINED_JOBS)%nat) by (apply Nat.leb_le; vm_compute; reflexivity).
  assert (Hb1 : byte_len (demo_to_vec (map job_json (job_values (inner demo_store)))) <= MAX_JOB_FILE_BYTES)
    by (apply Z.leb_le; vm_compute; reflexivity).
  assert (Hb2 : byte_len (demo_to_vec (map job_json (job_values (restarted 20 <$> inner demo_store)))) <= MAX_JOB_FILE_BYTES)
    by (apply Z.leb_le; vm_compute; reflexivity).
  destruct (restart_round_trip demo_to_vec demo_from_str 20 demo_store Hp (demo_keyed demo_ops) Hwf Hs Hb1 Hb2)
    as (st' & H1 & _ & H3).
  exists st'. split; [exact H1 | exact H3].
Defined.
