(* ===== verification/Notifications.v ===== *)
(** Completion webhooks, [server/notifications.rs] and
    [server/notification_outbox.rs]: the settings, the durable outbox and the
    worker that delivers it.

    The outbox is locked from its copy to its commit, so each locked region is
    one step; between them completions are enqueued, deliveries replayed, and
    the process may end.  The worker's place in its pass is part of the state.
    What it learns from outside (clock, accounts, configuration, disk, DNS,
    HTTP, jitter) is the oracle of a step.  Times are [f64] seconds in the
    source and exact integers here, [second] of them in a second.  SHA-256 and
    the JSON printers are parameters; the length of the outbox file is that of
    its fields over the lengths of its strings and numbers, of which [JsonLaws]
    states what [serde_json] promises. *)

From S2P Require Import Prelude Text Effects Owners NetScope PublicAddr WebPolicy Jobs.
Local Open Scope Z_scope.

Definition MAX_OUTBOX_BYTES : Z := 4 * 1024 * 1024.
Definition MAX_PAYLOAD_BYTES : Z := 65536.

#[global] Instance completion_eq_dec : EqDecision completion.
Proof. solve_decision. Defined.

(** [Completion::valid] *)
Definition valid_completion (c : completion) : bool :=
  valid_owner (c_owner c) && is_lower_hex (c_job_id c) 32
  && match c_status c with Finished | Failed | Cancelled => true | _ => false end
  && (0 <=? c_created c) && (0 <=? c_finished c).

(** ** The outbox *)

Inductive delivery_state := Pending | Delivered | DeliveryFailed | Revoked.
#[global] Instance delivery_state_eq_dec : EqDecision delivery_state.
Proof. solve_decision. Defined.

Record Delivery := MkDelivery {
  delivery_id : text; event_id : text; d_owner : text; destination_id : text; destination_revision : text;
  d_completion : completion; d_state : delivery_state; attempts : Z; replays : Z; next_attempt_at : Z; last_code : option text;
}.
#[global] Instance Delivery_eq_dec : EqDecision Delivery.
Proof. solve_decision. Defined.

Record Data := MkData { deliveries : gmap text Delivery; next_send_at : gmap text Z }.
#[global] Instance Data_eq_dec : EqDecision Data.
Proof. solve_decision. Defined.
Definition empty_data : Data := MkData ∅ ∅.

Definition with_state (d : Delivery) (s : delivery_state) (c : option text) : Delivery :=
  MkDelivery (delivery_id d) (event_id d) (d_owner d) (destination_id d) (destination_revision d) (d_completion d) s
    (attempts d) (replays d) (next_attempt_at d) c.
Definition scheduled (d : Delivery) (n at_ : Z) : Delivery :=
  MkDelivery (delivery_id d) (event_id d) (d_owner d) (destination_id d) (destination_revision d) (d_completion d) (d_state d)
    n (replays d) at_ (last_code d).

(** What a write of the file came to: the new file is in place; it was not
    replaced; it was replaced but the directory was not synced. *)
Inductive write_outcome := Committed | NotWritten | Unsynced.
Record disk_oracle := MkDisk { is_file : bool; outcome : write_outcome }.

(** *** The length of the file *)

(** [serde_json::to_vec] of the outbox: objects without blanks.  Parameters:
    the bytes of a printed string and of a printed [f64]. *)
Section Json.
Context (string_len : text -> Z) (f64_len : Z -> Z).

Definition sum_of (l : list Z) : Z := foldr Z.add 0 l.
Definition member (key : text) (value : Z) : Z := string_len key + 1 + value.
Definition object_len (members : list Z) : Z := 2 + sum_of members + Z.max 0 (Z.of_nat (length members) - 1).
Definition u64_len (n : Z) : Z := Z.of_nat (length (show_nat n)).
Definition state_text (s : delivery_state) : text :=
  match s with Pending => T "pending" | Delivered => T "delivered" | DeliveryFailed => T "failed" | Revoked => T "revoked" end.
Definition completion_len (c : completion) : Z :=
  object_len [member (T "owner") (string_len (c_owner c)); member (T "job_id") (string_len (c_job_id c));
    member (T "status") (string_len (status_text (c_status c))); member (T "created_at") (f64_len (c_created c));
    member (T "finished_at") (f64_len (c_finished c))].
Definition delivery_len (d : Delivery) : Z :=
  object_len [member (T "delivery_id") (string_len (delivery_id d)); member (T "event_id") (string_len (event_id d));
    member (T "owner") (string_len (d_owner d)); member (T "destination_id") (string_len (destination_id d));
    member (T "destination_revision") (string_len (destination_revision d)); member (T "completion") (completion_len (d_completion d));
    member (T "state") (string_len (state_text (d_state d))); member (T "attempts") (u64_len (attempts d));
    member (T "replays") (u64_len (replays d)); member (T "next_attempt_at") (f64_len (next_attempt_at d));
    member (T "last_code") (match last_code d with Some c => string_len c | None => 4 end)].
Definition outbox_len (x : Data) : Z :=
  object_len [member (T "version") 1;
    member (T "deliveries") (object_len (map (fun '(id, d) => member id (delivery_len d)) (map_to_list (deliveries x))));
    member (T "next_send_at") (object_len (map (fun '(id, t) => member id (f64_len t)) (map_to_list (next_send_at x))))].

(** A byte of a string is printed as itself or as an escape of up to six
    bytes, between quotes; an [f64] in up to 24 bytes. *)
Record JsonLaws : Prop := {
  string_len_bound s : string_len s <= 6 * byte_len s + 2;
  f64_len_bound t : f64_len t <= 24;
}.
End Json.

(** ** Destinations and settings *)

Record DestinationSpec := MkSpec {
  spec_id : text; spec_owner : text; enabled : bool; spec_url : text; events : list job_status; use_bearer : bool; rate_per_minute : Z;
}.

(** A row of [auth.list_users]. *)
Record User := MkUser { user_id : text; disabled : bool; must_change_password : bool; role : text }.

Section Notifications.
Context {UC : UrlCrate} (sha256_hex : text -> text).

Record Destination := MkDestination {
  spec : DestinationSpec; d_url : Url; private : bool; revision : text; bearer : option text; bearer_hash : option text;
}.
Record Settings := MkSettings {
  destinations : list Destination; capacity : nat; batch_size : nat; batch_interval : Z; poll_interval : Z; max_attempts : Z;
  retry_delay : Z; max_backoff : Z; jitter_percent : Z; retention : Z; max_replays : Z; timeout : Z;
}.

(** The notification section of a configuration, as the YAML crate reads it,
    with the files it is combined with: revoked owners, the tokens of
    bearers.json and the legacy token. *)
Record Config := MkConfig {
  schema_version : option Z; webhook_url : text; specs : option (list DestinationSpec); grants : option (list (option text));
  numbers : text -> option Z;
  revoked_owners : result harness_error (gset text);
  bearer_tokens : result harness_error (gmap text text);
  legacy_token : result harness_error (option text);
}.

Definition invalid : harness_error := err_config.

(** [serde_json::to_vec] of a destination's spec and grant. *)
Context (grant_json : DestinationSpec -> bool -> text).
Definition revision_of (s : DestinationSpec) (private : bool) : text := sha256_hex (grant_json s private).

Definition bounded (cfg : Config) (key : string) (lo hi : Z) : result harness_error Z :=
  match numbers cfg (T key) with
  | Some n => if (lo <=? n) && (n <=? hi) then Ok n else Err invalid
  | None => Err invalid
  end.

Definition good_id (id : text) : bool :=
  negb (bool_decide (id = [])) && (byte_len id <=? 64)
  && forallb (fun c => is_ascii_alphanumeric c || (c =? 95) || (c =? c_dash)) id.
Definition subscribable (s : job_status) : bool := match s with Finished | Failed | Cancelled => true | _ => false end.

Fixpoint parse_grants (gs : list (option text)) : result harness_error (list Url) :=
  match gs with
  | [] => Ok []
  | g :: gs =>
      raw ← ok_or g invalid;
      u ← map_err (fun _ => invalid) (canonical_http_url raw true);
      us ← parse_grants gs;
      mret (u :: us)
  end.

(** The loop over the specs; [ids] are the identifiers seen so far. *)
Fixpoint parse_specs (allowed : list Url) (ids : list text) (ss : list DestinationSpec) : result harness_error (list Destination) :=
  match ss with
  | [] => Ok []
  | s :: ss =>
      _ ← refuse_if (negb (good_id (spec_id s)) || bool_decide (spec_id s ∈ ids) || negb (valid_owner (spec_owner s))
                     || bool_decide (events s = []) || (3 <? length (events s))%nat || existsb (fun e => negb (subscribable e)) (events s)
                     || negb ((1 <=? rate_per_minute s) && (rate_per_minute s <=? 120))) invalid;
      u ← map_err (fun _ => invalid) (canonical_http_url (spec_url s) true);
      let private := existsb (fun a => teqb (to_string a) (to_string u)) allowed in
      _ ← refuse_if (bool_decide (is_Some (fragment u)) || negb (teqb (scheme u) (T "https")) && negb private) invalid;
      ds ← parse_specs allowed (spec_id s :: ids) ss;
      mret (MkDestination s u private [] None None :: ds)
  end.

Definition disable (s : DestinationSpec) : DestinationSpec :=
  MkSpec (spec_id s) (spec_owner s) false (spec_url s) (events s) (use_bearer s) (rate_per_minute s).
Definition revise (revoked : gset text) (d : Destination) : Destination :=
  let s := if bool_decide (spec_owner (spec d) ∈ revoked) then disable (spec d) else spec d in
  MkDestination s (d_url d) (private d) (revision_of s (private d)) (bearer d) (bearer_hash d).

Definition wants_bearer (d : Destination) : bool := enabled (spec d) && use_bearer (spec d).
Definition with_bearer (d : Destination) (secret : text) : Destination :=
  MkDestination (spec d) (d_url d) (private d) (revision d) (Some secret) (Some (sha256_hex secret)).
Fixpoint assign_each (tokens : gmap text text) (legacy : option text) (owners : gset text) (ds : list Destination)
    : result harness_error (list Destination) :=
  match ds with
  | [] => Ok []
  | d :: ds =>
      d' ← (if wants_bearer d then
              match tokens !! spec_id (spec d) with
              | Some secret => Ok (with_bearer d secret)
              | None =>
                  if (base.size owners =? 1)%nat then with_bearer d <$> ok_or legacy invalid else Err invalid
              end
            else Ok d);
      ds' ← assign_each tokens legacy owners ds;
      mret (d' :: ds')
  end.
Definition assign_bearers (cfg : Config) (ds : list Destination) : result harness_error (list Destination) :=
  tokens ← bearer_tokens cfg;
  legacy ← legacy_token cfg;
  let owners := list_to_set (map (fun d => spec_owner (spec d)) (List.filter wants_bearer ds)) in
  assign_each tokens legacy owners ds.

(** Seconds to the unit of time. *)
Context (second : Z).

(** [Settings::load] *)
Definition load_settings (cfg : Config) : result harness_error Settings :=
  _ ← refuse_if (negb (bool_decide (schema_version cfg = Some 1)) || negb (bool_decide (webhook_url cfg = []))) invalid;
  ss ← ok_or (specs cfg) invalid;
  _ ← refuse_if (8 <? length ss)%nat invalid;
  gs ← ok_or (grants cfg) invalid;
  _ ← refuse_if (8 <? length gs)%nat invalid;
  allowed ← parse_grants gs;
  ds ← parse_specs allowed [] ss;
  revoked ← revoked_owners cfg;
  ds ← assign_bearers cfg (map (revise revoked) ds);
  cap ← bounded cfg "notifications.queue_capacity" 1 512;
  size ← bounded cfg "notifications.batch_size" 1 32;
  interval ← bounded cfg "notifications.batch_interval_sec" 1 3600;
  poll ← bounded cfg "notifications.poll_interval_sec" 1 60;
  tries ← bounded cfg "notifications.max_attempts" 1 3;
  delay ← bounded cfg "notifications.retry_delay_sec" 1 60;
  backoff ← bounded cfg "notifications.max_backoff_sec" 1 3600;
  jitter ← bounded cfg "notifications.jitter_percent" 0 50;
  keep ← bounded cfg "notifications.retention_sec" 60 2592000;
  again ← bounded cfg "notifications.max_replays" 0 10;
  limit ← bounded cfg "notifications.timeout_sec" 1 30;
  mret (MkSettings ds (Z.to_nat cap) (Z.to_nat size) (interval * second) (poll * second) tries delay backoff jitter
          (keep * second) again (limit * second)).

(** ** Authority *)

(** What a check sees outside: the accounts (when authentication is on), the
    owners disabled in this process, and the configuration on disk with its
    two switches. *)
Record Outside := MkOutside {
  users : option (list User); suppressed : gset text;
  on_disk : result harness_error Config; notifications_on : bool; auth_on : bool;
}.
Definition may_receive (o : Outside) (owner : text) : bool :=
  match users o with
  | Some us => existsb (fun u => teqb (user_id u) owner && negb (disabled u) && negb (must_change_password u)
                                 && (teqb (role u) (T "admin") || teqb (role u) (T "operator"))) us
  | None => teqb owner (T "local")
  end.
Definition current_settings (o : Outside) : result harness_error Settings :=
  cfg ← on_disk o;
  _ ← refuse_if (negb (notifications_on o) || negb (eqb (auth_on o) (bool_decide (is_Some (users o))))) invalid;
  load_settings cfg.
Definition same_grant (d now : Destination) : bool :=
  enabled (spec now) && teqb (spec_id (spec now)) (spec_id (spec d)) && teqb (revision now) (revision d)
  && (negb (use_bearer (spec d)) || bool_decide (bearer_hash now = bearer_hash d)).
Definition authorized (o : Outside) (d : Destination) : bool :=
  if negb (enabled (spec d)) || bool_decide (spec_owner (spec d) ∈ suppressed o) then false
  else if negb (may_receive o (spec_owner (spec d))) then false
  else match current_settings o with Ok s => existsb (same_grant d) (destinations s) | Err _ => false end.

(** ** Outbox operations *)

Context (completion_json : completion -> text) (encoded_len : Data -> Z) (payload_len : list Delivery -> Z).

Definition completion_event_id (c : completion) : text := sha256_hex (completion_json c).
Definition delivery_key (event destination rev : text) : text :=
  sha256_hex (event ++ [c_colon] ++ destination ++ [c_colon] ++ rev).

(** [Outbox::commit]: the outbox in memory afterwards, and whether it answered [Ok]. *)
Definition commit (o : disk_oracle) (data next : Data) : Data * bool :=
  if bool_decide (next = data) && is_file o then (data, true)
  else if MAX_OUTBOX_BYTES <? encoded_len next then (data, false)
  else match outcome o with
       | Committed => (next, true)
       | Unsynced => (next, false)
       | NotWritten => (data, false)
       end.

(** What [Outbox::open] demands of a row. *)
Definition row_ok (id : text) (d : Delivery) : bool :=
  teqb id (delivery_id d) && (byte_len id =? 64) && forallb is_hex_char id
  && valid_owner (d_owner d) && teqb (c_owner (d_completion d)) (d_owner d) && valid_completion (d_completion d)
  && teqb (event_id d) (completion_event_id (d_completion d))
  && negb (bool_decide (destination_id d = [])) && (byte_len (destination_id d) <=? 64)
  && (byte_len (destination_revision d) =? 64) && forallb is_hex_char (destination_revision d)
  && teqb (delivery_id d) (delivery_key (event_id d) (destination_id d) (destination_revision d))
  && match last_code d with Some c => byte_len c <=? 64 | None => true end
  && (0 <=? next_attempt_at d) && (attempts d <=? 3) && (replays d <=? 10).
Definition open_ok (data : Data) : bool :=
  (base.size (deliveries data) <=? 512)%nat && (base.size (next_send_at data) <=? 8)%nat
  && forallb (fun id => match deliveries data !! id with Some d => row_ok id d | None => true end) (sorted_keys (deliveries data))
  && forallb (fun id => match next_send_at data !! id with Some t => 0 <=? t | None => true end) (sorted_keys (next_send_at data)).

Section Steps.
Context (cfg : Settings).

(** [retain]: rows whose retention has not run out. *)
Definition unexpired (now : Z) (d : Delivery) : bool := now <? c_finished (d_completion d) + retention cfg.
Definition prune (now : Z) (m : gmap text Delivery) : gmap text Delivery := filter (fun '(_, d) => unexpired now d = true) m.

(** The oldest row that is not pending, first in key order among equals. *)
Definition older (a b : Z * text) : bool := fst a <? fst b.
Fixpoint oldest (best : option (Z * text)) (l : list (Z * text)) : option (Z * text) :=
  match l with
  | [] => best
  | x :: l => oldest (match best with Some b => if older x b then Some x else best | None => Some x end) l
  end.
Definition settled_rows (m : gmap text Delivery) : list (Z * text) :=
  omap (fun id => d ← m !! id; if bool_decide (d_state d = Pending) then None else Some (c_finished (d_completion d), id)) (sorted_keys m).
Definition evictable (m : gmap text Delivery) : option text := snd <$> oldest None (settled_rows m).

Definition new_row (now : Z) (event : completion) (d : Destination) : Delivery :=
  let e := completion_event_id event in
  MkDelivery (delivery_key e (spec_id (spec d)) (revision d)) e (c_owner event) (spec_id (spec d)) (revision d) event Pending 0 0
    (now + batch_interval cfg) None.

(** The loop over the owner's subscribed destinations: the rows, the
    identifiers inserted, and whether one found no room. *)
Fixpoint add_rows (o : Outside) (now : Z) (event : completion) (ds : list Destination) (m : gmap text Delivery)
    : gmap text Delivery * list text * bool :=
  match ds with
  | [] => (m, [], false)
  | d :: ds =>
      if negb (teqb (spec_owner (spec d)) (c_owner event) && bool_decide (c_status event ∈ events (spec d))) || negb (authorized o d)
      then add_rows o now event ds m
      else
        let row := new_row now event d in
        let id := delivery_id row in
        if bool_decide (is_Some (m !! id)) then add_rows o now event ds m
        else
          let room :=
            if (capacity cfg <=? base.size m)%nat
            then (match evictable m with Some old => Some (delete old m) | None => None end)
            else Some m in
          match room with
          | Some m => let '(m', ins, full) := add_rows o now event ds (<[id := row]> m) in (m', id :: ins, full)
          | None => let '(m', ins, _) := add_rows o now event ds m in (m', ins, true)
          end
  end.

Inductive enqueue_answer := Enqueued | InvalidEvent | OutboxPersistFailed | QueueFull.

(** [Inner::enqueue], with the identifiers inserted into the outbox in memory. *)
Definition enqueue (disk : disk_oracle) (o : Outside) (now : Z) (event : completion) (data : Data) : Data * list text * enqueue_answer :=
  if negb (valid_completion event) then (data, [], InvalidEvent)
  else if negb (now <? c_finished event + retention cfg) then (data, [], Enqueued)
  else
    let '(rows, ins, pressure) := add_rows o now event (destinations cfg) (prune now (deliveries data)) in
    let next := MkData rows (next_send_at data) in
    let '(data', ok) := commit disk data next in
    (data', if bool_decide (data' = next) then ins else [],
     if negb ok then OutboxPersistFailed else if pressure then QueueFull else Enqueued).

Definition replayed (now : Z) (d : Delivery) : Delivery :=
  MkDelivery (delivery_id d) (event_id d) (d_owner d) (destination_id d) (destination_revision d) (d_completion d) Pending
    0 (replays d + 1) (now + batch_interval cfg) None.
Definition grant_of (d : Delivery) : option Destination :=
  find (fun x => teqb (spec_id (spec x)) (destination_id d) && teqb (revision x) (destination_revision d)) (destinations cfg).

(** [Notifier::replay] *)
Definition replay (disk : disk_oracle) (o : Outside) (now : Z) (owner id : text) (data : Data) : Data * result harness_error unit :=
  match deliveries data !! id with
  | Some d =>
      if negb (teqb (d_owner d) owner) then (data, Err (err_code "DELIVERY_NOT_FOUND"))
      else match grant_of d with
           | None => (data, Err (err_code "DELIVERY_REVOKED"))
           | Some dest =>
               if negb (authorized o dest) then (data, Err (err_code "DELIVERY_REVOKED"))
               else if negb (bool_decide (d_state d = DeliveryFailed \/ d_state d = Delivered)) || (max_replays cfg <=? replays d)
                       || (c_finished (d_completion d) + retention cfg <=? now)
               then (data, Err (err_code "DELIVERY_REPLAY_REFUSED"))
               else
                 let '(data', ok) := commit disk data (MkData (<[id := replayed now d]> (deliveries data)) (next_send_at data)) in
                 (data', if ok then Ok tt else Err (err_code "IO_ERROR"))
           end
  | None => (data, Err (err_code "DELIVERY_NOT_FOUND"))
  end.

(** ** One pass of the worker *)

Definition exhausted (d : Delivery) : Delivery :=
  if max_attempts cfg <=? attempts d then with_state d DeliveryFailed (Some (T "attempts_exhausted")) else d.
(** Pending rows without authority are revoked, those without attempts fail. *)
Definition settle_pending (revoked : Delivery -> bool) (d : Delivery) : Delivery :=
  if negb (bool_decide (d_state d = Pending)) then d
  else if revoked d then with_state d Revoked (Some (T "authority_revoked"))
  else exhausted d.

Definition sweep (o : Outside) (now : Z) (data : Data) : Data :=
  let allowed := map (fun d => (spec_id (spec d), revision d)) (List.filter (authorized o) (destinations cfg)) in
  MkData (settle_pending (fun d => negb (bool_decide ((destination_id d, destination_revision d) ∈ allowed))) <$> prune now (deliveries data))
    (next_send_at data).

(** Exponential backoff in seconds, [u64] saturating. *)
Definition backoff (n : Z) : Z := Z.min (Z.min (retry_delay cfg * Z.shiftl 1 (n - 1)) (2 ^ 64 - 1)) (max_backoff cfg).
Definition claim_row (now jitter : Z) (d : Delivery) : Delivery :=
  let n := attempts d + 1 in scheduled d n (now + timeout cfg + backoff n * second + jitter).

Definition due (dest : Destination) (now : Z) (d : Delivery) : bool :=
  bool_decide (d_state d = Pending) && teqb (destination_id d) (spec_id (spec dest)) && teqb (destination_revision d) (revision dest)
  && (next_attempt_at d <=? now).
(** The first due rows in key order, claimed. *)
Definition batch_of (dest : Destination) (now : Z) (jitter : text -> Z) (m : gmap text Delivery) : list Delivery :=
  map (fun d => claim_row now (jitter (delivery_id d)) d)
    (take (batch_size cfg) (List.filter (due dest now) (omap (fun id => m !! id) (sorted_keys m)))).
Definition put_rows (rows : list Delivery) (m : gmap text Delivery) : gmap text Delivery :=
  foldl (fun m d => <[delivery_id d := d]> m) m rows.

Definition claim (auth : bool) (now : Z) (jitter : text -> Z) (dest : Destination) (data : Data) : Data * list Delivery :=
  let exists_ d := existsb (fun x => teqb (spec_id (spec x)) (destination_id d) && teqb (revision x) (destination_revision d)) (destinations cfg) in
  let rows := settle_pending (fun d => negb (exists_ d) || teqb (destination_id d) (spec_id (spec dest)) && negb auth)
                <$> prune now (deliveries data) in
  let rate_ok := match next_send_at data !! spec_id (spec dest) with Some t => t <=? now | None => true end in
  let batch := if auth && rate_ok then batch_of dest now jitter rows else [] in
  let sends := if bool_decide (batch = []) then next_send_at data
               else <[spec_id (spec dest) := now + 60 * second / rate_per_minute (spec dest)]> (next_send_at data) in
  (MkData (put_rows batch rows)
     (filter (fun '(id, _) => existsb (fun d => teqb (spec_id (spec d)) id) (destinations cfg) = true) sends), batch).

Inductive send_error :=
| Timeout | TransportFailed | DnsFailed | RetryableStatus
| StatusRefused | DestinationRefused | InvalidUrl | ClientFailed | PayloadTooLarge | AuthorityRevoked.
Definition retryable (e : send_error) : bool :=
  match e with Timeout | TransportFailed | DnsFailed | RetryableStatus => true | _ => false end.
Definition code_text (e : send_error) : text :=
  match e with
  | Timeout => T "timeout" | TransportFailed => T "transport_failed" | DnsFailed => T "dns_failed" | RetryableStatus => T "retryable_status"
  | StatusRefused => T "status_refused" | DestinationRefused => T "destination_refused" | InvalidUrl => T "invalid_url"
  | ClientFailed => T "client_failed" | PayloadTooLarge => T "payload_too_large" | AuthorityRevoked => T "authority_revoked"
  end.

Definition settle_row (result : option send_error) (now : Z) (later : text -> Z) (sent d : Delivery) : Delivery :=
  let state :=
    match result with
    | None => Delivered
    | Some AuthorityRevoked => Revoked
    | Some e => if retryable e && (attempts d <? max_attempts cfg) then Pending else DeliveryFailed
    end in
  let d := with_state d state (code_text <$> result) in
  if bool_decide (state = Pending)
  then scheduled d (attempts d) (later (delivery_id d) + Z.max (next_attempt_at sent - now - timeout cfg) 0)
  else d.
Definition settle (result : option send_error) (now : Z) (later : text -> Z) (batch : list Delivery) (data : Data) : Data :=
  MkData (foldl (fun m sent => match m !! delivery_id sent with
                               | Some d => <[delivery_id sent := settle_row result now later sent d]> m
                               | None => m
                               end) (deliveries data) batch)
    (next_send_at data).

(** ** Delivery *)

Inductive dns_answer := DnsAddresses (l : list IpAddr) | DnsError | DnsTimeout.
Inductive http_answer := HttpStatus (n : Z) | HttpError | HttpTimeout.

Definition private_v6 (s : list Z) : bool :=
  bool_decide (s = [0; 0; 0; 0; 0; 0; 0; 1]) || (Z.land (nth 0 s 0) 65024 =? 64512).
Definition private_v4 (a : Z) : bool :=
  match octets a with [b0; b1; _; _] => (b0 =? 127) || v4_is_private b0 b1 | _ => false end.
Definition allowed_addresses (l : list IpAddr) (private : bool) : bool :=
  negb (bool_decide (l = [])) && (length l <=? 32)%nat
  && forallb (fun a => is_public_ip a || private && match a with V4 x => private_v4 x | V6 s => private_v6 s end) l.

(** [deliver] and [send_pinned]: the addresses that a POST went to, when one
    was sent, and the answer. *)
Definition deliver (dest : Destination) (dns : dns_answer) (client_ok : bool) (http : http_answer) : option (list IpAddr) * option send_error :=
  match host_str (d_url dest) with
  | None => (None, Some InvalidUrl)
  | Some _ =>
      match port_or_known_default (d_url dest) with
      | None => (None, Some InvalidUrl)
      | Some _ =>
          match dns with
          | DnsError => (None, Some DnsFailed)
          | DnsTimeout => (None, Some Timeout)
          | DnsAddresses answers =>
              let addresses := take 33 answers in
              if negb (allowed_addresses addresses (private dest))
                 || negb (teqb (scheme (d_url dest)) (T "https")) && existsb is_public_ip addresses
              then (None, Some DestinationRefused)
              else if negb client_ok then (None, Some ClientFailed)
              else (Some addresses,
                    match http with
                    | HttpError => Some TransportFailed
                    | HttpTimeout => Some Timeout
                    | HttpStatus n =>
                        if in_range 200 299 n then None
                        else if (n =? 429) || in_range 500 599 n then Some RetryableStatus
                        else Some StatusRefused
                    end)
          end
      end
  end.
End Steps.

(** ** The system *)

(** Where the worker is in its pass. *)
Inductive place :=
| Idle
| Visiting (rest : list Destination)
| Sending (dest : Destination) (batch : list Delivery) (claimed : Z) (rest : list Destination)
| Settling (result : option send_error) (batch : list Delivery) (claimed : Z) (rest : list Destination).

Record Sys := MkSys { cfg : Settings; box : Data; at_ : place }.

(** What a step learns from outside. *)
Record oracle := MkOracle {
  outside : Outside; now : Z; disk : disk_oracle; stopped : bool; jitter : text -> Z;
  dns : dns_answer; client_ok : bool; http : http_answer; later : text -> Z;
}.

(** [Restart]: the worker or the process ended, at any point, and the outbox
    was opened again with the settings of that time. *)
Inductive action :=
| Work
| Enqueue (event : completion)
| Replay (owner id : text)
| Restart (s : Settings).

Inductive event_label :=
| Inserted (id : text)
| Posted (dest : Destination) (addresses : list IpAddr) (batch : list Delivery) (checked : Outside).

(** One locked region of [tick], or the delivery between two of them; a step
    of an idle worker starts the next pass. *)
Definition work (o : oracle) (s : Sys) : Sys * list event_label :=
  let c := cfg s in
  match at_ s with
  | Idle =>
      let '(data, ok) := commit (disk o) (box s) (sweep c (outside o) (now o) (box s)) in
      (MkSys c data (if ok then Visiting (destinations c) else Idle), [])
  | Visiting [] => (MkSys c (box s) Idle, [])
  | Visiting (dest :: rest) =>
      if stopped o then (MkSys c (box s) Idle, [])
      else
        let '(next, batch) := claim c (authorized (outside o) dest) (now o) (jitter o) dest (box s) in
        let '(data, ok) := commit (disk o) (box s) next in
        (MkSys c data (if ok && negb (bool_decide (batch = [])) then Sending dest batch (now o) rest else Visiting rest), [])
  | Sending dest batch claimed rest =>
      let '(sent, result) :=
        if MAX_PAYLOAD_BYTES <? payload_len batch then (None, Some PayloadTooLarge)
        else if negb (authorized (outside o) dest) then (None, Some AuthorityRevoked)
        else deliver dest (dns o) (client_ok o) (http o) in
      (MkSys c (box s) (Settling result batch claimed rest),
       match sent with Some addresses => [Posted dest addresses batch (outside o)] | None => [] end)
  | Settling result batch claimed rest =>
      let '(data, _) := commit (disk o) (box s) (settle c result claimed (later o) batch (box s)) in
      (MkSys c data (Visiting rest), [])
  end.

Definition step (a : action) (o : oracle) (s : Sys) : Sys * list event_label :=
  match a with
  | Work => work o s
  | Enqueue event =>
      let '(data, ins, _) := enqueue (cfg s) (disk o) (outside o) (now o) event (box s) in
      (MkSys (cfg s) data (at_ s), map Inserted ins)
  | Replay owner id => (MkSys (cfg s) (fst (replay (cfg s) (disk o) (outside o) (now o) owner id (box s))) (at_ s), [])
  | Restart c => (if open_ok (box s) then MkSys c (box s) Idle else s, [])
  end.

Fixpoint run (l : list (action * oracle)) (s : Sys) : Sys * list event_label :=
  match l with
  | [] => (s, [])
  | (a, o) :: l => let '(s1, l1) := step a o s in let '(s2, l2) := run l s1 in (s2, l1 ++ l2)
  end.

(** ** Rows keep their identity *)

Lemma commit_cases o data next data' ok : commit o data next = (data', ok) -> (data' = data \/ data' = next) /\ (ok = true -> data' = next).
Proof.
  unfold commit. intros H. repeat case_match; simplify_eq; guards; (split; [auto | done || auto]).
Qed.

Record same_ident (d d' : Delivery) : Prop := {
  si_id : delivery_id d' = delivery_id d; si_event : event_id d' = event_id d; si_owner : d_owner d' = d_owner d;
  si_dest : destination_id d' = destination_id d; si_rev : destination_revision d' = destination_revision d;
  si_comp : d_completion d' = d_completion d;
}.
#[local] Instance same_ident_pre : PreOrder same_ident.
Proof. split; [by intros d|]. intros a b c [] []. split; congruence. Qed.

Definition keyed (m : gmap text Delivery) : Prop := forall id d, m !! id = Some d -> delivery_id d = id.

Section Budget.
Context (A R : Z).

(** Attempts that a row may still have. *)
Definition remaining (d : Delivery) : Z := A - attempts d + (R - replays d) * A.
Definition within (d : Delivery) : Prop := 0 <= attempts d <= A /\ 0 <= replays d <= R.

(** [d'] is [d] later, after [n] more attempts. *)
Definition ages (n : Z) (d d' : Delivery) : Prop := same_ident d d' /\ (within d -> within d' /\ remaining d' + n <= remaining d).
(** Every row of [m'] is a row of [m] later. *)
Definition grows (n : text -> Z) (m m' : gmap text Delivery) : Prop :=
  forall id d', m' !! id = Some d' -> exists d, m !! id = Some d /\ ages (n id) d d'.
Abbreviation still := (fun _ : text => 0).

Lemma ages_refl d : ages 0 d d.
Proof. split; [done|]. lia || (intros H; split; [done | lia]). Qed.
Lemma ages_same d d' : same_ident d d' -> attempts d' = attempts d -> replays d' = replays d -> ages 0 d d'.
Proof. intros Hi Ha Hr. split; [done|]. unfold within, remaining. rewrite Ha, Hr. intros H. split; [done | lia]. Qed.
Lemma ages_trans n n' d d' d'' : ages n d d' -> ages n' d' d'' -> ages (n + n') d d''.
Proof. intros [H1 H2] [H3 H4]. split; [by etrans|]. intros H. destruct (H2 H) as [H5 H6]. destruct (H4 H5). split; [done | lia]. Qed.

Lemma grows_refl m : grows still m m.
Proof. intros id d H. exists d. split; [done | apply ages_refl]. Qed.
Lemma grows_trans n m1 m2 m3 : grows still m1 m2 -> grows n m2 m3 -> grows n m1 m3.
Proof.
  intros H1 H2 id d H. destruct (H2 id d H) as (d2 & H3 & H4). destruct (H1 id d2 H3) as (d1 & H5 & H6).
  exists d1. split; [done|]. pose proof (ages_trans _ _ _ _ _ H6 H4) as H7. done.
Qed.
Lemma grows_keyed n m m' : keyed m -> grows n m m' -> keyed m'.
Proof. intros Hk H id d Hd. destruct (H id d Hd) as (d0 & H0 & [[E _ _ _ _ _] _]). rewrite E. by apply Hk. Qed.

Lemma grows_prune c now m : grows still m (prune c now m).
Proof. intros id d [H _]%map_lookup_filter_Some. exists d. split; [done | apply ages_refl]. Qed.

Lemma ages_settle c f d : ages 0 d (settle_pending c f d).
Proof. unfold settle_pending, exhausted. repeat case_match; try apply ages_refl; by apply ages_same. Qed.
Lemma grows_settle c f m : grows still m (settle_pending c f <$> m).
Proof.
  intros id d' H. rewrite lookup_fmap in H. destruct (m !! id) as [d|]; [|done]. injection H as <-. exists d. split; [done | apply ages_settle].
Qed.

Lemma grows_sweep c o now data : grows still (deliveries data) (deliveries (sweep c o now data)).
Proof. eapply grows_trans; [apply grows_prune | apply grows_settle]. Qed.

(** ** What is claimed *)

Lemma settled_pending c f d : d_state (settle_pending c f d) = Pending -> attempts (settle_pending c f d) < max_attempts c.
Proof.
  unfold settle_pending, exhausted. destruct (bool_decide (d_state d = Pending)) eqn:E; simpl;
    [apply bool_decide_eq_true in E | by apply bool_decide_eq_false in E].
  destruct (f d); [done|]. destruct (Z.leb_spec (max_attempts c) (attempts d)); [done | lia].
Qed.

Lemma omap_lookup_ids m l : keyed m -> sublist (map delivery_id (omap (fun id => m !! id) l)) l.
Proof.
  intros Hk. induction l as [|id l IH]; simpl; [done|]. destruct (m !! id) as [d|] eqn:E; simpl; [|by constructor].
  rewrite (Hk _ _ E). by constructor.
Qed.

Lemma claim_row_id now j d c : delivery_id (claim_row c now j d) = delivery_id d.
Proof. done. Qed.

Lemma take_elem_of {B} n (l : list B) x : x ∈ take n l -> x ∈ l.
Proof. revert n. induction l as [|y l IH]; intros [|n] H; simpl in H; [done..| |]; [by apply not_elem_of_nil in H|]. apply elem_of_cons in H as [->|H]; [left | right; by eapply IH]. Qed.

Lemma batch_spec c dest now j m row : keyed m -> row ∈ batch_of c dest now j m ->
  exists d, m !! delivery_id row = Some d /\ row = claim_row c now (j (delivery_id d)) d /\ due dest now d = true.
Proof.
  intros Hk H. unfold batch_of in H. apply list_elem_of_In, in_map_iff in H as (d & <- & Hd).
  apply list_elem_of_In, take_elem_of, list_elem_of_In, filter_In in Hd as [Hd Hdue].
  apply list_elem_of_In, list_elem_of_omap in Hd as (id & _ & Hid). exists d. rewrite claim_row_id, (Hk _ _ Hid). done.
Qed.

Lemma sublist_map {B C} (f : B -> C) l l' : sublist l l' -> sublist (map f l) (map f l').
Proof. induction 1; simpl; by constructor. Qed.

Lemma sublist_filter_List {B} (f : B -> bool) l : sublist (List.filter f l) l.
Proof. induction l as [|x l IH]; simpl; [done|]. destruct (f x); by constructor. Qed.

Lemma batch_NoDup c dest now j m : keyed m -> NoDup (map delivery_id (batch_of c dest now j m)).
Proof.
  intros Hk. unfold batch_of. rewrite map_map.
  assert (E : forall l, map (fun d => delivery_id (claim_row c now (j (delivery_id d)) d)) l = map delivery_id l) by (intros l; by apply map_ext).
  rewrite E. eapply sublist_NoDup; [apply (NoDup_sorted_keys m)|].
  etrans; [|by apply omap_lookup_ids]. apply sublist_map. etrans; [apply sublist_take | apply sublist_filter_List].
Qed.

Definition count (id : text) (rows : list Delivery) : Z := Z.of_nat (length (List.filter (fun d => teqb (delivery_id d) id) rows)).

Lemma count_nonneg id rows : 0 <= count id rows.
Proof. unfold count. lia. Qed.
Lemma count_cons id d rows : count id (d :: rows) = (if teqb (delivery_id d) id then 1 else 0) + count id rows.
Proof. unfold count. simpl. destruct (teqb _ _); simpl; lia. Qed.
Lemma count_absent id rows : id ∉ map delivery_id rows -> count id rows = 0.
Proof.
  induction rows as [|d rows IH]; [done|]. cbn [map]. rewrite not_elem_of_cons, count_cons. intros [Hne Hn].
  rewrite (proj2 (teqb_neq _ _)) by congruence. by rewrite IH.
Qed.
Lemma count_present d rows : NoDup (map delivery_id rows) -> d ∈ rows -> count (delivery_id d) rows = 1.
Proof.
  induction rows as [|x rows IH]; cbn [map]; [intros _ H; by apply not_elem_of_nil in H|].
  intros [Hn Hd]%NoDup_cons H. rewrite count_cons. apply elem_of_cons in H as [->|H].
  - rewrite teqb_refl, count_absent by done. done.
  - rewrite (proj2 (teqb_neq _ _)); [by rewrite IH|]. intros E. apply Hn. rewrite E. apply list_elem_of_In, in_map, list_elem_of_In, H.
Qed.

Lemma put_rows_absent rows m id : id ∉ map delivery_id rows -> put_rows rows m !! id = m !! id.
Proof.
  unfold put_rows. revert m. induction rows as [|d rows IH]; intros m; [done|]. cbn [map foldl]. rewrite not_elem_of_cons.
  intros [Hne Hn]. rewrite IH by done. by apply lookup_insert_ne.
Qed.
Lemma put_rows_present rows m d : NoDup (map delivery_id rows) -> d ∈ rows -> put_rows rows m !! delivery_id d = Some d.
Proof.
  revert m. induction rows as [|x rows IH]; intros m; cbn [map]; [intros _ H; by apply not_elem_of_nil in H|].
  intros [Hn Hd]%NoDup_cons H. apply elem_of_cons in H as [->|H].
  - change (put_rows rows (<[delivery_id x := x]> m) !! delivery_id x = Some x). rewrite put_rows_absent by done. apply lookup_insert_eq.
  - by apply IH.
Qed.

Lemma grows_put rows m : NoDup (map delivery_id rows) ->
  (forall d, d ∈ rows -> exists d0, m !! delivery_id d = Some d0 /\ ages 1 d0 d) ->
  grows (fun id => count id rows) m (put_rows rows m).
Proof.
  intros Hn Hr id d' H. destruct (decide (id ∈ map delivery_id rows)) as [Hin|Hin].
  - apply list_elem_of_In, in_map_iff in Hin as (d & <- & Hd%list_elem_of_In). rewrite put_rows_present in H by done. injection H as <-.
    destruct (Hr d Hd) as (d0 & H0 & Ha). exists d0. split; [done|]. by rewrite count_present.
  - rewrite put_rows_absent in H by done. exists d'. split; [done|]. rewrite count_absent by done. apply ages_refl.
Qed.

Lemma ages_claim c dest now0 now j d : max_attempts c <= A -> due dest now0 d = true -> attempts d < max_attempts c ->
  ages 1 d (claim_row c now j d).
Proof.
  intros HA _ Ha. split; [done|]. unfold within, remaining. cbn [claim_row scheduled attempts replays]. intros [H1 H2]. split; [lia | lia].
Qed.

(** The rows of a batch are pending rows of this destination, claimed. *)
Definition claimed_from (c : Settings) (dest : Destination) (now : Z) (m : gmap text Delivery) (row : Delivery) : Prop :=
  exists d j, m !! delivery_id row = Some d /\ row = claim_row c now j d /\ due dest now d = true /\ attempts d < max_attempts c.

Lemma claim_spec c auth now j dest data next batch : keyed (deliveries data) -> claim c auth now j dest data = (next, batch) ->
  exists m, grows still (deliveries data) m /\ deliveries next = put_rows batch m /\ NoDup (map delivery_id batch)
    /\ Forall (claimed_from c dest now m) batch /\ (batch <> [] -> auth = true).
Proof.
  intros Hk H. unfold claim in H. injection H as <- Hb. eexists. split; [eapply grows_trans; [apply grows_prune | apply grows_settle]|].
  set (m := settle_pending _ _ <$> _) in *.
  assert (Hm : keyed m) by (eapply grows_keyed; [exact Hk|]; eapply grows_trans; [apply grows_prune | apply grows_settle]).
  rewrite Hb. split; [done|]. destruct (auth && _) eqn:Ea; [|subst batch; split; [constructor | by split; [constructor|]]].
  rewrite <- Hb. split; [by apply batch_NoDup|]. split.
  - apply Forall_forall. intros row Hr. destruct (batch_spec _ _ _ _ _ _ Hm Hr) as (d & Hd & E & Hdue).
    exists d, (j (delivery_id d)). split; [done|]. split; [done|]. split; [done|].
    unfold m in Hd. rewrite lookup_fmap in Hd. destruct (prune _ _ _ !! _) as [d0|]; [|done]. injection Hd as <-.
    apply settled_pending. unfold due in Hdue. by guards.
  - intros _. by guards.
Qed.

Lemma grows_claim c auth now j dest data next batch : max_attempts c <= A -> keyed (deliveries data) ->
  claim c auth now j dest data = (next, batch) -> grows (fun id => count id batch) (deliveries data) (deliveries next).
Proof.
  intros HA Hk H. destruct (claim_spec _ _ _ _ _ _ _ _ Hk H) as (m & Hm & -> & Hn & Hc & _).
  eapply grows_trans; [exact Hm|]. apply grows_put; [done|]. intros d Hd. rewrite Forall_forall in Hc.
  destruct (Hc d Hd) as (d0 & j0 & H0 & -> & Hdue & Ha). exists d0. split; [done|]. by eapply ages_claim.
Qed.

Lemma ages_settle_row c result now l sent d : ages 0 d (settle_row c result now l sent d).
Proof. unfold settle_row. by case_match; apply ages_same. Qed.

Lemma grows_settle_batch c result now l batch data : keyed (deliveries data) -> grows still (deliveries data) (deliveries (settle c result now l batch data)).
Proof.
  unfold settle. cbn [deliveries]. generalize (deliveries data). induction batch as [|d batch IH]; intros m Hk; [apply grows_refl|]. cbn [foldl].
  assert (H : grows still m (match m !! delivery_id d with Some d0 => <[delivery_id d := settle_row c result now l d d0]> m | None => m end)).
  { destruct (m !! delivery_id d) as [d0|] eqn:E; [|apply grows_refl]. intros id d' H.
    destruct (decide (id = delivery_id d)) as [->|Hne].
    - rewrite lookup_insert_eq in H. injection H as <-. exists d0. split; [done | apply ages_settle_row].
    - rewrite lookup_insert_ne in H by done. exists d'. split; [done | apply ages_refl]. }
  eapply grows_trans; [exact H|]. apply IH. by eapply grows_keyed.
Qed.

Lemma grows_replay c dk o now owner id data : max_replays c <= R -> 0 <= A ->
  grows still (deliveries data) (deliveries (fst (replay c dk o now owner id data))).
Proof.
  intros HR HA. unfold replay. destruct (deliveries data !! id) as [d|] eqn:E; [|apply grows_refl].
  destruct (negb _); [apply grows_refl|]. destruct (grant_of c d); [|apply grows_refl]. destruct (negb _); [apply grows_refl|].
  destruct (_ || _) eqn:Eg; [apply grows_refl|].
  destruct (commit _ _ _) as [data' ok] eqn:Ec. apply commit_cases in Ec as [[->| ->] _]; [apply grows_refl|]. cbn [fst deliveries].
  intros id' d' H. destruct (decide (id' = id)) as [->|Hne].
  - rewrite lookup_insert_eq in H. injection H as <-. exists d. split; [done|]. split; [done|].
    apply orb_false_iff in Eg as [Eg _]. apply orb_false_iff in Eg as [_ Eg%Z.leb_gt].
    unfold within, remaining. cbn [replayed attempts replays]. intros [H1 H2]. split; [lia | nia].
  - rewrite lookup_insert_ne in H by done. exists d'. split; [done | apply ages_refl].
Qed.
End Budget.

(** ** Insertions *)

Definition inserted_for (c : Settings) (o : Outside) (now : Z) (event : completion) (ds : list Destination) (d : Delivery) : Prop :=
  exists dest, dest ∈ ds /\ d = new_row c now event dest /\ spec_owner (spec dest) = c_owner event
    /\ c_status event ∈ events (spec dest) /\ authorized o dest = true.

Lemma oldest_elem best l x : oldest best l = Some x -> x ∈ l \/ best = Some x.
Proof.
  revert best. induction l as [|y l IH]; intros best H; simpl in H; [by right|].
  destruct (IH _ H) as [Hin|Hb]; [left; by right|]. destruct best as [b|]; [|injection Hb as ->; left; apply list_elem_of_here].
  destruct (older y b); injection Hb as ->; [left; apply list_elem_of_here | by right].
Qed.

Lemma evictable_spec m id : evictable m = Some id -> exists d, m !! id = Some d /\ d_state d <> Pending.
Proof.
  unfold evictable. destruct (oldest None (settled_rows m)) as [[t i]|] eqn:E; [|done]. intros [= <-].
  apply oldest_elem in E as [E|]; [|done]. unfold settled_rows in E. apply list_elem_of_omap in E as (k & _ & Hk).
  destruct (m !! k) as [d|] eqn:Ed; [|done]. simpl in Hk. case_bool_decide; [done|]. injection Hk as _ <-. by exists d.
Qed.

Lemma add_rows_spec c o now event ds m m' ins full : add_rows c o now event ds m = (m', ins, full) ->
  forall id d, m' !! id = Some d -> m !! id = Some d \/ (id ∈ ins /\ id = delivery_id d /\ inserted_for c o now event ds d).
Proof.
  revert m m' ins full. induction ds as [|dest ds IH]; intros m m' ins full H; simpl in H; [injection H as <- <- <-; auto|].
  assert (Hw : forall d, inserted_for c o now event ds d -> inserted_for c o now event (dest :: ds) d).
  { intros d (x & Hx & ?). exists x. split; [by right | done]. }
  assert (Hskip : forall m0 m1 ins1 full1, add_rows c o now event ds m0 = (m1, ins1, full1) -> (forall id d, m0 !! id = Some d -> m !! id = Some d) ->
            forall id d, m1 !! id = Some d -> m !! id = Some d \/ (id ∈ ins1 /\ id = delivery_id d /\ inserted_for c o now event (dest :: ds) d)).
  { intros m0 m1 ins1 full1 H1 Hm id d Hd. destruct (IH _ _ _ _ H1 id d Hd) as [?|(? & ? & ?)]; [left; by apply Hm | right; auto]. }
  destruct (negb _ || negb _) eqn:Eg; [eapply Hskip; [exact H | done]|].
  case_bool_decide as Hp; [eapply Hskip; [exact H | done]|].
  apply orb_false_iff in Eg as [Eg1 Eg2]. apply negb_false_iff in Eg1, Eg2. apply andb_true_iff in Eg1 as [Ho Hev].
  apply teqb_eq in Ho. apply bool_decide_eq_true in Hev.
  destruct (if (_ <=? _)%nat then _ else _) as [m0|] eqn:Er.
  - destruct (add_rows c o now event ds (<[_ := _]> m0)) as [[m1 ins1] full1] eqn:E1. injection H as <- <- <-.
    intros id d Hd. destruct (IH _ _ _ _ E1 id d Hd) as [Hin|(? & ? & ?)]; [|right; split; [by right | auto]].
    destruct (decide (id = delivery_id (new_row c now event dest))) as [->|Hne].
    + rewrite lookup_insert_eq in Hin. injection Hin as <-. right. split; [apply list_elem_of_here|]. split; [done|].
      exists dest. split; [apply list_elem_of_here | done].
    + rewrite lookup_insert_ne in Hin by done. left. destruct (_ <=? _)%nat; [|by injection Er as <-].
      destruct (evictable m); [|done]. injection Er as <-. by apply lookup_delete_Some in Hin as [_ ?].
  - destruct (add_rows c o now event ds m) as [[m1 ins1] full1] eqn:E1. injection H as <- <- <-. by eapply Hskip.
Qed.

Lemma enqueue_spec c dk o now event data data' ins ans : enqueue c dk o now event data = (data', ins, ans) ->
  next_send_at data' = next_send_at data
  /\ forall id d, deliveries data' !! id = Some d -> deliveries data !! id = Some d
       \/ (id ∈ ins /\ id = delivery_id d /\ valid_completion event = true /\ inserted_for c o now event (destinations c) d).
Proof.
  unfold enqueue. destruct (negb (valid_completion event)) eqn:Ev; [intros [= <- <- <-]; auto|]. apply negb_false_iff in Ev.
  destruct (negb _); [intros [= <- <- <-]; auto|].
  destruct (add_rows _ _ _ _ _ _) as [[rows ins0] pressure] eqn:Ea. destruct (commit _ _ _) as [d1 ok] eqn:Ec.
  intros [= <- <- _]. apply commit_cases in Ec as [[->| ->] _]; [auto|]. split; [done|]. intros id d Hd. cbn [deliveries] in Hd.
  rewrite bool_decide_true by done. destruct (add_rows_spec _ _ _ _ _ _ _ _ _ Ea id d Hd) as [Hin|(? & ? & ?)]; [|right; auto].
  left. by apply map_lookup_filter_Some in Hin as [? _].
Qed.

(** ** Every post is paid for *)

Definition posts (id : text) (ls : list event_label) : Z :=
  foldr (fun l n => match l with Posted _ _ batch _ => count id batch | Inserted _ => 0 end + n) 0 ls.
Definition inserts (id : text) (ls : list event_label) : Z :=
  foldr (fun l n => match l with Inserted i => if teqb i id then 1 else 0 | Posted _ _ _ _ => 0 end + n) 0 ls.

Lemma posts_app id l l' : posts id (l ++ l') = posts id l + posts id l'.
Proof. induction l; simpl; lia. Qed.
Lemma inserts_app id l l' : inserts id (l ++ l') = inserts id l + inserts id l'.
Proof. induction l; simpl; lia. Qed.
Lemma inserts_inserted id ins : 0 <= inserts id (map Inserted ins) /\ (id ∈ ins -> 1 <= inserts id (map Inserted ins)).
Proof.
  induction ins as [|i ins IH]; simpl; [split; [lia | intros H; by apply not_elem_of_nil in H]|].
  destruct (teqb i id) eqn:E; split; try lia. intros [->|H]%elem_of_cons; [by rewrite teqb_refl in E | destruct IH; auto].
Qed.
Lemma posts_inserted id ins : posts id (map Inserted ins) = 0.
Proof. induction ins; simpl; lia. Qed.

Section Bound.
Context (A R : Z) (HA : 0 <= A) (HR : 0 <= R).

Definition credit (s : Sys) (id : text) : Z := match deliveries (box s) !! id with Some d => remaining A R d | None => 0 end.
Definition inflight (s : Sys) (id : text) : Z := match at_ s with Sending _ batch _ _ => count id batch | _ => 0 end.

Record budget (s : Sys) (p i : text -> Z) : Prop := {
  bu_cfg : max_attempts (cfg s) <= A /\ max_replays (cfg s) <= R;
  bu_keyed : keyed (deliveries (box s));
  bu_within : forall id d, deliveries (box s) !! id = Some d -> within A R d;
  bu_paid : forall id, p id + inflight s id + credit s id <= (1 + R) * A * i id;
}.

Lemma remaining_nonneg d : within A R d -> 0 <= remaining A R d.
Proof. unfold within, remaining. nia. Qed.
Lemma credit_nonneg s p i id : budget s p i -> 0 <= credit s id.
Proof. intros [_ _ Hw _]. unfold credit. destruct (deliveries (box s) !! id) eqn:E; [by eapply remaining_nonneg, Hw | lia]. Qed.

(** A step that only ages rows, by what is now in flight. *)
Lemma budget_grows n s p i c data pl p' :
  budget s p i -> max_attempts c <= A -> max_replays c <= R -> grows A R n (deliveries (box s)) (deliveries data) ->
  (forall id, 0 <= n id /\ (is_Some (deliveries data !! id) \/ n id = 0)) ->
  (forall id, p' id + inflight (MkSys c data pl) id <= p id + inflight s id + n id) ->
  budget (MkSys c data pl) p' i.
Proof.
  intros Hb H1 H2 Hg Hn Hi. pose proof Hb as [_ Hk Hw Hp]. constructor; cbn [cfg box at_].
  - done.
  - by eapply grows_keyed.
  - intros id d Hd. destruct (Hg id d Hd) as (d0 & H0 & [_ Ha]). apply Ha. by eapply Hw.
  - intros id. specialize (Hp id). specialize (Hi id). destruct (Hn id) as [Hn0 Hsome]. pose proof (credit_nonneg s p i id Hb) as Hc.
    unfold credit in *. cbn [box] in *. destruct (deliveries data !! id) as [d|] eqn:Ed.
    + destruct (Hg id d Ed) as (d0 & H0 & [_ Ha]). rewrite H0 in *. destruct (Ha (Hw _ _ H0)) as [_ Hr]. lia.
    + destruct Hsome as [[? ?]|Hz]; [done|]. rewrite Hz in *. lia.
Qed.

Lemma budget_same s p i c pl p' : budget s p i -> max_attempts c <= A -> max_replays c <= R ->
  (forall id, p' id + inflight (MkSys c (box s) pl) id <= p id + inflight s id) -> budget (MkSys c (box s) pl) p' i.
Proof.
  intros Hb H1 H2 H. eapply (budget_grows (fun _ => 0)); [exact Hb | done | done | apply grows_refl | intros id; split; [lia | by right] |].
  intros id. specialize (H id). lia.
Qed.

Lemma inflight_nonneg s id : 0 <= inflight s id.
Proof. unfold inflight. destruct (at_ s); try lia. apply count_nonneg. Qed.

Lemma work_budget o s s' ls p i : budget s p i -> work o s = (s', ls) ->
  budget s' (fun id => p id + posts id ls) (fun id => i id + inserts id ls).
Proof.
  intros Hb H. pose proof Hb as [[H1 H2] Hk _ _]. unfold work in H.
  assert (Hnil : forall s1, budget s1 p i -> budget s1 (fun id => p id + posts id []) (fun id => i id + inserts id [])).
  { intros s1 [? ? ? Hp]. constructor; [done..|]. intros id. specialize (Hp id). simpl. lia. }
  destruct (at_ s) as [|[|dest rest]|dest batch claimed rest|result batch claimed rest] eqn:Epl.
  - destruct (commit _ _ _) as [data ok] eqn:Ec. injection H as <- <-. apply Hnil. apply commit_cases in Ec as [Ec _].
    assert (Hi : forall id, inflight (MkSys (cfg s) data (if ok then Visiting (destinations (cfg s)) else Idle)) id = 0) by (by destruct ok).
    destruct Ec as [->| ->].
    + apply (budget_same s p i); [done..|]. intros id. rewrite Hi. pose proof (inflight_nonneg s id). lia.
    + eapply (budget_grows (fun _ => 0)); [exact Hb | done | done | apply grows_sweep | intros id; split; [lia | by right] |].
      intros id. rewrite Hi. pose proof (inflight_nonneg s id). lia.
  - injection H as <- <-. apply Hnil, (budget_same s p i); [done..|]. intros id. pose proof (inflight_nonneg s id); unfold inflight at 1; cbn [at_]; lia.
  - destruct (stopped o).
    { injection H as <- <-. apply Hnil, (budget_same s p i); [done..|]. intros id. pose proof (inflight_nonneg s id); unfold inflight at 1; cbn [at_]; lia. }
    destruct (claim _ _ _ _ _ _) as [next batch] eqn:Ecl. destruct (commit _ _ _) as [data ok] eqn:Ec. injection H as <- <-.
    apply Hnil. pose proof (commit_cases _ _ _ _ _ Ec) as [Hd Hok].
    set (pl := if ok && _ then _ else _) in *.
    assert (Hi : forall id, inflight (MkSys (cfg s) data pl) id <= count id batch /\ (data <> next -> inflight (MkSys (cfg s) data pl) id = 0)).
    { intros id. unfold pl, inflight. cbn [at_]. pose proof (count_nonneg id batch). destruct ok; simpl; [|lia].
      destruct (negb _); [split; [lia|] | lia]. intros Hne. by destruct Hne, Hok. }
    assert (Hs0 : forall id, inflight s id = 0) by (intros id; unfold inflight; by rewrite Epl).
    destruct (decide (data = next)) as [->|Hne].
    + eapply (budget_grows (fun id => count id batch)); [exact Hb | done | done | by eapply grows_claim | |].
      * intros id. split; [apply count_nonneg|]. destruct (decide (id ∈ map delivery_id batch)) as [Hin|Hin]; [left | right; by apply count_absent].
        destruct (claim_spec A R _ _ _ _ _ _ _ _ Hk Ecl) as (m & _ & -> & Hn & _).
        apply list_elem_of_In, in_map_iff in Hin as (d & <- & Hin%list_elem_of_In). rewrite put_rows_present by done. by eexists.
      * intros id. rewrite Hs0. destruct (Hi id). lia.
    + destruct Hd as [->|]; [|done]. apply (budget_same s p i); [done..|]. intros id. destruct (Hi id) as [_ Hz].
      rewrite Hz by done. rewrite Hs0. lia.
  - destruct (if _ <? _ then _ else _) as [sent result]. injection H as <- <-.
    assert (Hpost : forall id, 0 <= posts id (match sent with Some a => [Posted dest a batch (outside o)] | None => [] end) <= count id batch
                            /\ inserts id (match sent with Some a => [Posted dest a batch (outside o)] | None => [] end) = 0).
    { intros id. pose proof (count_nonneg id batch). destruct sent; simpl; lia. }
    assert (Hb' : budget (MkSys (cfg s) (box s) (Settling result batch claimed rest))
                    (fun id => p id + posts id (match sent with Some a => [Posted dest a batch (outside o)] | None => [] end)) i).
    { apply (budget_same s p i); [done..|]. intros id. destruct (Hpost id) as [? _]. unfold inflight; cbn [at_]; rewrite Epl; lia. }
    destruct Hb' as [? ? ? Hp]. constructor; [done..|]. intros id. specialize (Hp id). destruct (Hpost id) as [_ ->].
    replace (i id + 0) with (i id) by lia. exact Hp.
  - destruct (commit _ _ _) as [data ok] eqn:Ec. injection H as <- <-. apply Hnil. apply commit_cases in Ec as [[->| ->] _].
    + apply (budget_same s p i); [done..|]. intros id. pose proof (inflight_nonneg s id); unfold inflight at 1; cbn [at_]; lia.
    + eapply (budget_grows (fun _ => 0)); [exact Hb | done | done | by apply grows_settle_batch | intros id; split; [lia | by right] |].
      intros id. pose proof (inflight_nonneg s id); unfold inflight at 1; cbn [at_]; lia.
Qed.

Lemma enqueue_budget o event s s' ls p i : budget s p i -> step (Enqueue event) o s = (s', ls) ->
  budget s' (fun id => p id + posts id ls) (fun id => i id + inserts id ls).
Proof.
  intros Hb H. pose proof Hb as [Hc Hk Hw Hp]. cbn [step] in H.
  destruct (enqueue _ _ _ _ _ _) as [[data ins] ans] eqn:E. injection H as <- <-.
  destruct (enqueue_spec _ _ _ _ _ _ _ _ _ E) as [_ Hr]. destruct Hc as [H1 H2].
  assert (Hnew : forall d, inserted_for (cfg s) (outside o) (now o) event (destinations (cfg s)) d -> attempts d = 0 /\ replays d = 0).
  { intros d (dest & _ & -> & _). done. }
  constructor; cbn [cfg box at_].
  - done.
  - intros id d Hd. destruct (Hr id d Hd) as [Ho|(_ & -> & _)]; [by apply Hk | done].
  - intros id d Hd. destruct (Hr id d Hd) as [Ho|(_ & _ & _ & Hi)]; [by eapply Hw|]. destruct (Hnew d Hi) as [E1 E2].
    unfold within. rewrite E1, E2. lia.
  - intros id. rewrite posts_inserted. specialize (Hp id). pose proof (credit_nonneg s p i id Hb) as Hcr.
    destruct (inserts_inserted id ins) as [Hi0 Hi1].
    change (inflight (MkSys (cfg s) data (at_ s)) id) with (inflight s id). unfold credit in *. cbn [box].
    destruct (deliveries data !! id) as [d|] eqn:Ed; [|nia].
    destruct (Hr id d Ed) as [Ho|(Hin & _ & _ & Hi)]; [rewrite Ho in *; nia|].
    destruct (Hnew d Hi) as [E1 E2]. specialize (Hi1 Hin). unfold remaining at 1. rewrite E1, E2. nia.
Qed.

Lemma step_budget a o s s' ls p i : budget s p i ->
  (forall c, a = Restart c -> max_attempts c <= A /\ max_replays c <= R) -> step a o s = (s', ls) ->
  budget s' (fun id => p id + posts id ls) (fun id => i id + inserts id ls).
Proof.
  intros Hb Hr H. pose proof Hb as [[H1 H2] Hk _ _]. destruct a as [|event|owner id|c].
  - by eapply work_budget.
  - by eapply enqueue_budget.
  - cbn [step] in H. injection H as <- <-.
    assert (Hb' : budget (MkSys (cfg s) (fst (replay (cfg s) (disk o) (outside o) (now o) owner id (box s))) (at_ s)) p i).
    { eapply (budget_grows (fun _ => 0)); [exact Hb | done | done | by apply grows_replay | intros x; split; [lia | by right] |].
      intros x. change (inflight (MkSys (cfg s) _ (at_ s)) x) with (inflight s x). lia. }
    destruct Hb' as [? ? ? Hp]. constructor; [done..|]. intros x. specialize (Hp x). simpl. lia.
  - cbn [step] in H. injection H as <- <-. destruct (Hr c eq_refl) as [H3 H4].
    assert (Hb' : budget (if open_ok (box s) then MkSys c (box s) Idle else s) p i).
    { destruct (open_ok (box s)); [|done]. apply (budget_same s p i); [done..|]. intros x. pose proof (inflight_nonneg s x); unfold inflight at 1; cbn [at_]; lia. }
    destruct Hb' as [? ? ? Hp]. constructor; [done..|]. intros x. specialize (Hp x). simpl. lia.
Qed.

Lemma run_budget l s p i : budget s p i ->
  Forall (fun '(a, _) => forall c, a = Restart c -> max_attempts c <= A /\ max_replays c <= R) l ->
  budget (fst (run l s)) (fun id => p id + posts id (snd (run l s))) (fun id => i id + inserts id (snd (run l s))).
Proof.
  revert s p i. induction l as [|[a o] l IH]; intros s p i Hb Hl; cbn [run].
  - destruct Hb as [? ? ? Hp]. constructor; [done..|]. intros id. specialize (Hp id). simpl. lia.
  - apply Forall_cons in Hl as [Ha Hl]. destruct (step a o s) as [s1 l1] eqn:E1.
    pose proof (step_budget _ _ _ _ _ _ _ Hb Ha E1) as Hb1. specialize (IH _ _ _ Hb1 Hl).
    destruct (run l s1) as [s2 l2]. cbn [fst snd] in *. destruct IH as [? ? ? Hp]. constructor; [done..|].
    intros id. specialize (Hp id). rewrite posts_app, inserts_app. lia.
Qed.
End Bound.

(** ** Loaded settings *)

Record good_destination (d : Destination) : Prop := {
  gd_revision : revision d = revision_of (spec d) (private d);
  gd_id : good_id (spec_id (spec d)) = true;
  gd_owner : valid_owner (spec_owner (spec d)) = true;
  gd_events : Forall (fun e => subscribable e = true) (events (spec d));
  gd_rate : 1 <= rate_per_minute (spec d) <= 120;
  gd_https : scheme (d_url d) = T "https" \/ private d = true;
}.
Record good_settings (s : Settings) : Prop := {
  gs_destinations : Forall good_destination (destinations s);
  gs_ids : NoDup (map (fun d => spec_id (spec d)) (destinations s));
  gs_count : (length (destinations s) <= 8)%nat;
  gs_capacity : (1 <= capacity s <= 512)%nat /\ (1 <= batch_size s)%nat;
  gs_times : 0 < second -> 0 < batch_interval s <= 3600 * second /\ 0 < timeout s <= 30 * second /\ 0 < retention s;
  gs_attempts : 1 <= max_attempts s <= 3;
  gs_backoff : 1 <= retry_delay s <= 60 /\ 1 <= max_backoff s <= 3600 /\ 0 <= jitter_percent s <= 50;
  gs_replays : 0 <= max_replays s <= 10;
}.

Lemma bounded_Ok c key lo hi n : bounded c key lo hi = Ok n -> lo <= n <= hi.
Proof. unfold bounded. intros H. repeat case_match; simplify_eq; guards; lia. Qed.

(** A destination up to its revision and bearer. *)
Record parsed_destination (d : Destination) : Prop := {
  pd_id : good_id (spec_id (spec d)) = true;
  pd_owner : valid_owner (spec_owner (spec d)) = true;
  pd_events : Forall (fun e => subscribable e = true) (events (spec d));
  pd_rate : 1 <= rate_per_minute (spec d) <= 120;
  pd_https : scheme (d_url d) = T "https" \/ private d = true;
}.

Lemma parse_specs_good allowed ids ss ds : parse_specs allowed ids ss = Ok ds ->
  Forall parsed_destination ds /\ length ds = length ss
  /\ NoDup (map (fun d => spec_id (spec d)) ds) /\ (forall d, d ∈ ds -> spec_id (spec d) ∉ ids).
Proof.
  revert ids ds. induction ss as [|s ss IH]; intros ids ds H; simpl in H.
  { injection H as <-. split; [constructor|]. split; [done|]. split; [constructor|]. intros d Hd. by apply not_elem_of_nil in Hd. }
  apply bind_Ok_inv in H as ([] & H1 & H). apply refuse_if_Ok in H1. apply bind_Ok_inv in H as (u & _ & H).
  apply bind_Ok_inv in H as ([] & H2 & H). apply refuse_if_Ok, orb_false_iff in H2 as [_ H2].
  apply bind_Ok_inv in H as (ds' & H3 & H). apply Ok_inj in H. subst ds.
  destruct (IH _ _ H3) as (Hf & Hl & Hn & Hd). guards.
  split; [constructor; [constructor; cbn [spec d_url private]; try done|exact Hf]|split; [cbn [length]; lia|split]].
  - apply Forall_forall. intros e He. destruct (subscribable e) eqn:E; [done|].
    match goal with Hx : existsb _ (events s) = false |- _ => rewrite <- not_true_iff_false, existsb_exists in Hx; destruct Hx end.
    exists e. rewrite E. split; [by apply list_elem_of_In | done].
  - destruct (teqb (scheme u) (T "https")) eqn:E; [left; by apply teqb_eq in E|]. cbn [negb andb] in H2. right. by apply negb_false_iff in H2.
  - cbn [map spec]. constructor; [|done]. intros Hin. apply list_elem_of_In, in_map_iff in Hin as (d & E & Hin%list_elem_of_In).
    apply (Hd d Hin). rewrite E. apply list_elem_of_here.
  - intros d [->|Hin]%elem_of_cons; cbn [spec]; [done|]. intros E. apply (Hd d Hin). by right.
Qed.

Lemma assign_each_spec tokens legacy owners ds ds' : assign_each tokens legacy owners ds = Ok ds' ->
  Forall2 (fun d d' => spec d' = spec d /\ d_url d' = d_url d /\ private d' = private d /\ revision d' = revision d
    /\ (wants_bearer d = true -> exists secret, bearer d' = Some secret /\ bearer_hash d' = Some (sha256_hex secret)
          /\ (tokens !! spec_id (spec d) = Some secret \/ tokens !! spec_id (spec d) = None /\ legacy = Some secret /\ base.size owners = 1%nat))
    /\ (wants_bearer d = false -> d' = d)) ds ds'.
Proof.
  revert ds'. induction ds as [|d ds IH]; intros ds' H; simpl in H; [injection H as <-; constructor|].
  apply bind_Ok_inv in H as (d1 & H1 & H). apply bind_Ok_inv in H as (ds1 & H2 & H). apply Ok_inj in H. subst ds'.
  constructor; [|by apply IH]. destruct (wants_bearer d); [|by injection H1 as <-].
  destruct (tokens !! spec_id (spec d)) as [secret|] eqn:E.
  - injection H1 as <-. cbn. split; [done|]. split; [done|]. split; [done|]. split; [done|]. split; [|done]. intros _; exists secret; naive_solver.
  - destruct (Nat.eqb_spec (base.size owners) 1) as [Es|]; [|done]. destruct legacy as [secret|]; [|done]. injection H1 as <-. cbn.
    split; [done|]. split; [done|]. split; [done|]. split; [done|]. split; [|done]. intros _; exists secret; naive_solver.
Qed.

Lemma revise_good revoked d : parsed_destination d -> good_destination (revise revoked d).
Proof. intros []. unfold revise. case_bool_decide; constructor; done. Qed.

Lemma load_settings_good c s : load_settings c = Ok s -> good_settings s.
Proof.
  unfold load_settings. intros H. apply bind_Ok_inv in H as ([] & _ & H). apply bind_Ok_inv in H as (ss & _ & H).
  apply bind_Ok_inv in H as ([] & Hlen & H). apply refuse_if_Ok, Nat.ltb_ge in Hlen. apply bind_Ok_inv in H as (gs & _ & H).
  apply bind_Ok_inv in H as ([] & _ & H). apply bind_Ok_inv in H as (allowed & _ & H). apply bind_Ok_inv in H as (ds & Hds & H).
  apply bind_Ok_inv in H as (revoked & _ & H). apply bind_Ok_inv in H as (ds' & Hb & H).
  do 11 (apply bind_Ok_inv in H as (? & ?%bounded_Ok & H)). apply Ok_inj in H. subst s.
  apply parse_specs_good in Hds as (Hf & Hl & Hn & _).
  unfold assign_bearers in Hb. apply bind_Ok_inv in Hb as (tokens & _ & Hb). apply bind_Ok_inv in Hb as (legacy & _ & Hb).
  apply assign_each_spec in Hb.
  assert (Hids : map (fun d => spec_id (spec d)) ds' = map (fun d => spec_id (spec d)) ds).
  { clear -Hb. revert Hb. generalize (list_to_set (C:=gset text) (map (fun d => spec_owner (spec d)) (List.filter wants_bearer (map (revise revoked) ds)))) as owners.
    intros owners Hb. revert ds' Hb. induction ds as [|d ds IH]; intros ds' Hb; inversion Hb as [|? y ? l' Hy Hl]; subst; [done|]. cbn [map].
    f_equal; [|exact (IH _ Hl)]. destruct Hy as (-> & _). cbn [revise spec]. by destruct (bool_decide _). }
  constructor; cbn [destinations capacity batch_size batch_interval timeout retention max_attempts retry_delay max_backoff jitter_percent max_replays];
    try lia.
  - apply Forall_forall. intros d' Hd'. apply list_elem_of_lookup in Hd' as (k & Hk).
    apply (Forall2_lookup_r _ _ _ _ _ Hb) in Hk as (d & Hd & (E1 & E2 & E3 & E4 & _)).
    apply list_elem_of_lookup_2, list_elem_of_In, in_map_iff in Hd as (d0 & <- & Hd0%list_elem_of_In).
    rewrite Forall_forall in Hf. pose proof (revise_good revoked d0 (Hf d0 Hd0)) as [R1 R2 R3 R4 R5 R6].
    constructor; rewrite ?E1, ?E2, ?E3, ?E4; done.
  - by rewrite Hids.
  - apply Forall2_length in Hb. rewrite length_map in Hb. lia.
  - intros Hs. nia.
Qed.

(** ** What a row promises *)

Record proven (d : Delivery) : Prop := {
  pv_grant : exists sp priv, destination_revision d = revision_of sp priv /\ destination_id d = spec_id sp /\ good_id (spec_id sp) = true
                             /\ d_owner d = spec_owner sp /\ c_status (d_completion d) ∈ events sp;
  pv_owner : c_owner (d_completion d) = d_owner d /\ valid_owner (d_owner d) = true;
  pv_completion : valid_completion (d_completion d) = true;
  pv_event : event_id d = completion_event_id (d_completion d);
  pv_key : delivery_id d = delivery_key (event_id d) (destination_id d) (destination_revision d);
}.
Lemma proven_same d d' : same_ident d d' -> proven d -> proven d'.
Proof. intros [E1 E2 E3 E4 E5 E6] []. constructor; rewrite ?E1, ?E2, ?E3, ?E4, ?E5, ?E6; done. Qed.

Lemma proven_new c now event dest : good_destination dest -> valid_completion event = true -> spec_owner (spec dest) = c_owner event ->
  c_status event ∈ events (spec dest) -> proven (new_row c now event dest).
Proof.
  intros [] Hv Ho He. constructor; cbn; [|split; congruence|done..]. exists (spec dest), (private dest). done.
Qed.

(** The numbers and the code of a row are in the ranges of [Outbox::open]. *)
Definition tidy (d : Delivery) : Prop := 0 <= next_attempt_at d /\ match last_code d with Some c => byte_len c <= 64 | None => True end.
Definition keeps_tidy (m m' : gmap text Delivery) : Prop :=
  (forall id d, m !! id = Some d -> tidy d) -> forall id d, m' !! id = Some d -> tidy d.

Lemma keeps_tidy_refl m : keeps_tidy m m.
Proof. exact (fun H => H). Qed.

Lemma tidy_settle c f d : tidy d -> tidy (settle_pending c f d).
Proof.
  intros [H1 H2]. unfold settle_pending, exhausted.
  destruct (negb _); [done|]. destruct (f d); [split; [exact H1 | by apply Z.leb_le]|].
  destruct (_ <=? _); [split; [exact H1 | by apply Z.leb_le] | done].
Qed.
Lemma keeps_tidy_swept c f now m : keeps_tidy m (settle_pending c f <$> prune c now m).
Proof.
  intros H id d Hd. rewrite lookup_fmap in Hd. destruct (prune c now m !! id) as [d0|] eqn:E; [|done]. injection Hd as <-.
  apply map_lookup_filter_Some in E as [E _]. by apply tidy_settle, (H id).
Qed.

Lemma backoff_nonneg c n : good_settings c -> 1 <= n -> 0 <= backoff c n.
Proof.
  intros Hg Hn. destruct (gs_backoff _ Hg) as (H1 & H2 & _). unfold backoff. rewrite Z.shiftl_1_l.
  assert (0 <= 2 ^ (n - 1)) by (apply Z.pow_nonneg; lia). apply Z.min_glb; [apply Z.min_glb; nia | lia].
Qed.

Lemma tidy_claim c now j d : 0 < second -> good_settings c -> 0 <= now -> 0 <= j -> 0 <= attempts d -> tidy d -> tidy (claim_row c now j d).
Proof.
  intros Hs Hg Hn Hj Ha [_ H2]. split; [|done]. cbn [claim_row scheduled next_attempt_at].
  pose proof (backoff_nonneg c (attempts d + 1) Hg ltac:(lia)). destruct (gs_times _ Hg Hs) as (_ & Ht & _).
  assert (0 <= backoff c (attempts d + 1) * second) by (apply Z.mul_nonneg_nonneg; lia). lia.
Qed.

Lemma tidy_settle_row c r now l sent d : 0 <= l (delivery_id d) -> tidy d -> tidy (settle_row c r now l sent d).
Proof.
  intros Hl [H1 H2]. unfold settle_row.
  assert (Hc : match code_text <$> r with Some t => byte_len t <= 64 | None => True end) by (destruct r as [[]|]; try done; by apply Z.leb_le).
  destruct (bool_decide _); (split; [|exact Hc]); cbn [scheduled with_state next_attempt_at delivery_id]; lia.
Qed.

Section Sane.
Context (second_pos : 0 < second).

Definition sane_oracle (o : oracle) : Prop := 0 <= now o /\ (forall id, 0 <= jitter o id) /\ (forall id, 0 <= later o id).

Definition matching (dest : Destination) (batch : list Delivery) : Prop :=
  Forall (fun d => proven d /\ destination_id d = spec_id (spec dest) /\ destination_revision d = revision dest) batch.
Definition sane_place (c : Settings) (p : place) : Prop :=
  match p with
  | Idle => True
  | Visiting rest | Settling _ _ _ rest => Forall (fun d => d ∈ destinations c) rest
  | Sending dest batch _ rest => Forall (fun d => d ∈ destinations c) (dest :: rest) /\ matching dest batch
  end.
(** The times of the next sends, under identifiers of destinations. *)
Definition sound_sends (m : gmap text Z) : Prop :=
  (base.size m <= 8)%nat /\ forall id t, m !! id = Some t -> 0 <= t /\ byte_len id <= 64.
Record sane (s : Sys) : Prop := {
  sn_cfg : good_settings (cfg s);
  sn_keyed : keyed (deliveries (box s));
  sn_rows : forall id d, deliveries (box s) !! id = Some d -> proven d /\ within 3 10 d /\ tidy d;
  sn_size : (base.size (deliveries (box s)) <= 512)%nat;
  sn_sends : sound_sends (next_send_at (box s));
  sn_place : sane_place (cfg s) (at_ s);
}.

Lemma grows_size n m m' : grows 3 10 n m m' -> (base.size m' <= base.size m)%nat.
Proof.
  intros H. rewrite <- !size_dom. apply subseteq_size. intros id [d Hd]%elem_of_dom. destruct (H id d Hd) as (d0 & H0 & _).
  apply elem_of_dom. by exists d0.
Qed.

(** A step that ages the rows and keeps their numbers in range. *)
Lemma sane_grows n s c data pl : sane s -> good_settings c -> grows 3 10 n (deliveries (box s)) (deliveries data) -> (forall id, 0 <= n id) ->
  keeps_tidy (deliveries (box s)) (deliveries data) ->
  sound_sends (next_send_at data) -> sane_place c pl ->
  sane (MkSys c data pl).
Proof.
  intros [_ Hk Hr Hsz _ _] Hc Hg Hn Ht Hs Hp. constructor; cbn [cfg box at_]; try done.
  - by eapply grows_keyed.
  - intros id d Hd. destruct (Hg id d Hd) as (d0 & H0 & [Hi Ha]). destruct (Hr id d0 H0) as (Hpv & Hw & _).
    split; [by eapply proven_same|]. split; [by apply Ha|]. apply (Ht (fun i x Hx => proj2 (proj2 (Hr i x Hx))) id d Hd).
  - pose proof (grows_size _ _ _ Hg). lia.
Qed.

Lemma sane_same s c pl : sane s -> good_settings c -> sane_place c pl -> sane (MkSys c (box s) pl).
Proof. intros [] Hc Hp. by constructor. Qed.

Lemma claim_sends c auth now0 j dest data next batch : good_settings c -> good_destination dest -> 0 <= now0 ->
  claim c auth now0 j dest data = (next, batch) ->
  sound_sends (next_send_at data) -> sound_sends (next_send_at next).
Proof.
  intros Hc Hd Hn H [_ Hs]. unfold claim in H. injection H as <- Hb. cbn [next_send_at].
  set (sends := if bool_decide _ then _ else _).
  assert (Hs' : forall id t, sends !! id = Some t -> 0 <= t).
  { intros id t Ht. unfold sends in Ht. destruct (bool_decide _); [by eapply (Hs id t)|].
    apply lookup_insert_Some in Ht as [[_ <-]|[_ Ht]]; [|by eapply (Hs id t)].
    destruct (gd_rate _ Hd). pose proof (Z.div_pos (60 * second) (rate_per_minute (spec dest)) ltac:(lia) ltac:(lia)). lia. }
  split.
  - pose proof (gs_count _ Hc) as H8. rewrite <- size_dom.
    etrans; [apply (subseteq_size _ (list_to_set (map (fun d => spec_id (spec d)) (destinations c)) : gset text))|].
    + intros id [t Ht]%elem_of_dom. apply map_lookup_filter_Some in Ht as [_ Ht]. apply existsb_exists in Ht as (d & Hin & E).
      apply teqb_eq in E. apply elem_of_list_to_set, list_elem_of_In, in_map_iff. by exists d.
    + etrans; [|exact H8]. rewrite <- (length_map (fun d => spec_id (spec d))). generalize (map (fun d => spec_id (spec d)) (destinations c)).
      induction l as [|x l IH]; [done|]. cbn [list_to_set length]. rewrite size_union_alt. 
      pose proof (subseteq_size (list_to_set l ∖ {[x]}) (list_to_set l : gset text)) as Hsub. rewrite size_singleton.
      specialize (Hsub ltac:(set_solver)). lia.
  - intros id t [Ht Hf]%map_lookup_filter_Some. split; [by eapply Hs'|]. apply existsb_exists in Hf as (d & Hin & E).
    apply teqb_eq in E. subst id. pose proof (gs_destinations _ Hc) as Hds. rewrite Forall_forall in Hds.
    apply list_elem_of_In, Hds in Hin. pose proof (gd_id _ Hin) as Hg. unfold good_id in Hg. guards. done.
Qed.

Lemma keeps_tidy_claim c auth now0 j dest data next batch : good_settings c -> keyed (deliveries data) -> 0 <= now0 -> (forall id, 0 <= j id) ->
  (forall id d, deliveries data !! id = Some d -> within 3 10 d) -> claim c auth now0 j dest data = (next, batch) ->
  keeps_tidy (deliveries data) (deliveries next).
Proof.
  intros Hc Hk Hn Hj Hw H. unfold claim in H. injection H as <- Hb. cbn [deliveries].
  set (m := settle_pending _ _ <$> _) in *. intros Ht.
  assert (Hm : keyed m) by (eapply (grows_keyed 3 10); [exact Hk|]; eapply grows_trans; [apply grows_prune | apply grows_settle]).
  assert (Htm : forall id d, m !! id = Some d -> tidy d) by (by apply keeps_tidy_swept).
  assert (Hgm : grows 3 10 (fun _ => 0) (deliveries data) m) by (eapply grows_trans; [apply grows_prune | apply grows_settle]).
  destruct (auth && _); [|exact Htm].
  assert (Hrow : Forall tidy (batch_of c dest now0 j m)).
  { apply Forall_forall. intros row Hr. destruct (batch_spec _ _ _ _ _ _ Hm Hr) as (d & Hd & -> & _).
    destruct (Hgm _ _ Hd) as (d0 & H0 & [_ Hage]). destruct (Hage (Hw _ _ H0)) as [[Hat _] _].
    apply tidy_claim; try done; [lia | by apply (Htm _ _ Hd)]. }
  intros id d Hd. destruct (decide (id ∈ map delivery_id (batch_of c dest now0 j m))) as [Hin|Hin].
  - apply list_elem_of_In, in_map_iff in Hin as (x & <- & Hx%list_elem_of_In).
    rewrite put_rows_present in Hd by (done || by apply batch_NoDup). injection Hd as <-. rewrite Forall_forall in Hrow. by apply Hrow.
  - rewrite put_rows_absent in Hd by done. by eapply Htm.
Qed.

Lemma keeps_tidy_batch c r now0 l batch data : (forall id, 0 <= l id) -> keeps_tidy (deliveries data) (deliveries (settle c r now0 l batch data)).
Proof.
  intros Hl. unfold settle. cbn [deliveries]. generalize (deliveries data). induction batch as [|x batch IH]; intros m; [apply keeps_tidy_refl|]. cbn [foldl].
  intros Ht. apply IH. intros id d Hd. destruct (m !! delivery_id x) as [d0|] eqn:E; [|by eapply Ht].
  apply lookup_insert_Some in Hd as [[_ <-]|[_ Hd]]; [|by eapply Ht]. apply tidy_settle_row; [done | by eapply Ht].
Qed.

Lemma keeps_tidy_replay c dk o now0 owner id data : 0 <= now0 -> good_settings c ->
  keeps_tidy (deliveries data) (deliveries (fst (replay c dk o now0 owner id data))).
Proof.
  intros Hn Hc. unfold replay. destruct (deliveries data !! id) as [d|] eqn:E; [|apply keeps_tidy_refl].
  destruct (negb _); [apply keeps_tidy_refl|]. destruct (grant_of c d); [|apply keeps_tidy_refl]. destruct (negb _); [apply keeps_tidy_refl|]. destruct (_ || _); [apply keeps_tidy_refl|].
  destruct (commit _ _ _) as [data' ok] eqn:Ec. apply commit_cases in Ec as [[->| ->] _]; [apply keeps_tidy_refl|]. cbn [fst deliveries].
  intros Ht i x Hx. apply lookup_insert_Some in Hx as [[_ <-]|[_ Hx]]; [|by eapply Ht].
  split; [|done]. cbn [replayed next_attempt_at]. destruct (gs_times _ Hc second_pos) as (H & _). lia.
Qed.

Lemma replay_sends c dk o now0 owner id data : next_send_at (fst (replay c dk o now0 owner id data)) = next_send_at data.
Proof.
  unfold replay. destruct (deliveries data !! id) as [d|]; [|done].
  destruct (negb _); [done|]. destruct (grant_of c d); [|done]. destruct (negb _); [done|]. destruct (_ || _); [done|].
  destruct (commit _ _ _) as [data' ok] eqn:Ec. by apply commit_cases in Ec as [[->| ->] _].
Qed.

Lemma add_rows_size c o now0 event ds m m' ins full : (capacity c <= 512)%nat -> add_rows c o now0 event ds m = (m', ins, full) ->
  (base.size m <= 512)%nat -> (base.size m' <= 512)%nat.
Proof.
  intros Hcap. revert m m' ins full. induction ds as [|dest ds IH]; intros m m' ins full H Hm; simpl in H; [by injection H as <- _ _|].
  destruct (negb _ || negb _); [by eapply IH|]. case_bool_decide as Hp; [by eapply IH|].
  destruct (if (_ <=? _)%nat then _ else _) as [m0|] eqn:Er.
  - destruct (add_rows c o now0 event ds (<[_ := _]> m0)) as [[m1 ins1] full1] eqn:E1. injection H as <- _ _. eapply IH; [exact E1|].
    destruct (Nat.leb_spec (capacity c) (base.size m)) as [Hle|Hlt].
    + destruct (evictable m) as [old|] eqn:Ee; [|done]. injection Er as <-. apply evictable_spec in Ee as (d & Hd & _).
      rewrite map_size_insert. pose proof (map_size_delete_Some old m ltac:(by exists d)) as Hdel.
      assert (Hne : base.size m <> 0%nat) by (intros Hz; apply map_size_empty_inv in Hz; by rewrite Hz, lookup_empty in Hd).
      destruct (delete old m !! _); unfold id in *; lia.
    + injection Er as <-. rewrite map_size_insert. destruct (m !! _); unfold id; lia.
  - destruct (add_rows c o now0 event ds m) as [[m1 ins1] full1] eqn:E1. injection H as <- _ _. by eapply IH.
Qed.

(** What a post promises. *)
Record good_post (c : Settings) (dest : Destination) (addresses : list IpAddr) (batch : list Delivery) (o : Outside) : Prop := {
  po_dest : dest ∈ destinations c;
  po_auth : authorized o dest = true;
  po_batch : matching dest batch;
  po_addresses : allowed_addresses addresses (private dest) = true
                 /\ (scheme (d_url dest) = T "https" \/ existsb is_public_ip addresses = false);
}.

Lemma deliver_sent dest dns ok http addresses r : deliver dest dns ok http = (Some addresses, r) ->
  allowed_addresses addresses (private dest) = true /\ (scheme (d_url dest) = T "https" \/ existsb is_public_ip addresses = false).
Proof.
  unfold deliver. destruct (host_str (d_url dest)); [|done]. destruct (port_or_known_default (d_url dest)); [|done].
  destruct dns as [l0| |]; [|done..]. destruct (_ || _) eqn:E; [done|]. destruct (negb ok); [done|]. intros [= <- _].
  apply orb_false_iff in E as [E1 E2]. apply negb_false_iff in E1. split; [done|].
  destruct (teqb (scheme (d_url dest)) (T "https")) eqn:Es; [left; by apply teqb_eq in Es | right; done].
Qed.

(** The outboxes that a pass makes. *)
Lemma sweep_sane o t s : sane s -> sane (MkSys (cfg s) (sweep (cfg s) o t (box s)) Idle).
Proof.
  intros Hs. pose proof Hs as [Hc _ _ _ Hse _].
  eapply (sane_grows (fun _ => 0)); [exact Hs | done | apply grows_sweep | done | apply keeps_tidy_swept | done | done].
Qed.
Lemma claim_sane auth t j dest s next batch : sane s -> good_destination dest -> 0 <= t -> (forall id, 0 <= j id) ->
  claim (cfg s) auth t j dest (box s) = (next, batch) -> sane (MkSys (cfg s) next Idle).
Proof.
  intros Hs Hgd Hn Hj Ecl. pose proof Hs as [Hc Hk Hr _ Hse _]. destruct (gs_attempts _ Hc) as [_ Hat].
  eapply (sane_grows (fun id => count id batch)); [exact Hs | done | by eapply grows_claim | intros; apply count_nonneg | | | done].
  - apply (keeps_tidy_claim _ _ _ _ _ _ _ _ Hc Hk Hn Hj) with (2 := Ecl). intros id d Hd. by destruct (Hr id d Hd) as (_ & ? & _).
  - exact (claim_sends _ _ _ _ _ _ _ _ Hc Hgd Hn Ecl Hse).
Qed.
Lemma settle_sane r t l batch s : sane s -> (forall id, 0 <= l id) -> sane (MkSys (cfg s) (settle (cfg s) r t l batch (box s)) Idle).
Proof.
  intros Hs Hl. pose proof Hs as [Hc Hk _ _ Hse _].
  eapply (sane_grows (fun _ => 0)); [exact Hs | done | by apply grows_settle_batch | done | by apply keeps_tidy_batch | done | done].
Qed.
(** At another place of the pass. *)
Lemma sane_at s c data pl : sane (MkSys c data Idle) -> cfg s = c -> sane_place c pl -> sane (MkSys c data pl).
Proof. intros Hs _ Hp. exact (sane_same (MkSys c data Idle) c pl Hs (sn_cfg _ Hs) Hp). Qed.

Lemma work_sane o s s' ls : sane s -> sane_oracle o -> work o s = (s', ls) ->
  sane s' /\ forall dest addresses batch out, Posted dest addresses batch out ∈ ls -> good_post (cfg s) dest addresses batch out.
Proof.
  intros Hs (Hn & Hj & Hl) H. pose proof Hs as [Hc Hk Hr Hsz Hse Hp]. unfold work in H.
  assert (Hnil : forall s1, sane s1 -> sane s1 /\ forall dest addresses batch out, Posted dest addresses batch out ∈ @nil event_label -> good_post (cfg s) dest addresses batch out).
  { intros s1 H1. split; [done|]. intros dest addresses batch out Hin. by apply not_elem_of_nil in Hin. }
  pose proof (gs_destinations _ Hc) as Hds. rewrite Forall_forall in Hds.
  destruct (at_ s) as [|[|dest rest]|dest batch claimed rest|result batch claimed rest] eqn:Epl; cbn [sane_place] in Hp.
  - destruct (commit _ _ _) as [data ok] eqn:Ec. injection H as <- <-. apply Hnil. apply commit_cases in Ec as [Ec _].
    assert (Hpl : sane_place (cfg s) (if ok then Visiting (destinations (cfg s)) else Idle)) by (destruct ok; [by apply Forall_forall | done]).
    destruct Ec as [->| ->]; [by apply sane_same|]. by apply (sane_at s); [apply sweep_sane| |].
  - injection H as <- <-. by apply Hnil, sane_same.
  - destruct (stopped o); [injection H as <- <-; by apply Hnil, sane_same|].
    apply Forall_cons in Hp as [Hdest Hrest]. pose proof (Hds dest Hdest) as Hgd.
    destruct (claim _ _ _ _ _ _) as [next batch] eqn:Ecl. destruct (commit _ _ _) as [data ok] eqn:Ec. injection H as <- <-.
    apply Hnil. pose proof (commit_cases _ _ _ _ _ Ec) as [Hd Hok].
    assert (Hpl : sane_place (cfg s) (if ok && negb (bool_decide (batch = [])) then Sending dest batch (now o) rest else Visiting rest)).
    { destruct (ok && _); [|done]. cbn [sane_place]. split; [by apply Forall_cons|].
      destruct (claim_spec 3 10 _ _ _ _ _ _ _ _ Hk Ecl) as (m & Hm & _ & _ & Hcl & _). eapply Forall_impl; [exact Hcl|].
      intros row (d & j & Hd0 & -> & Hdue & _). destruct (Hm _ _ Hd0) as (d1 & Hd1 & [Hi _]). destruct (Hr _ _ Hd1) as [Hpv _].
      unfold due in Hdue. guards. split; [|split; cbn; by apply teqb_eq].
      eapply proven_same; [|exact Hpv]. etrans; [exact Hi|]. done. }
    destruct Hd as [->| ->]; [by apply sane_same|]. apply (sane_at s); [exact (claim_sane _ _ _ _ _ _ _ Hs Hgd Hn Hj Ecl) | done | exact Hpl].
  - destruct Hp as [[Hdest Hrest]%Forall_cons Hm].
    destruct (if _ <? _ then _ else _) as [sent result] eqn:Es. injection H as <- <-. split; [by apply sane_same|].
    intros dest' addresses batch' out Hin. destruct sent as [a|]; [|by apply not_elem_of_nil in Hin].
    apply list_elem_of_singleton in Hin. injection Hin as -> -> -> ->.
    destruct (_ <? _); [done|]. destruct (authorized (outside o) dest) eqn:Ea; [|done]. cbn [negb] in Es.
    apply deliver_sent in Es. by constructor.
  - destruct (commit _ _ _) as [data ok] eqn:Ec. injection H as <- <-. apply Hnil. apply commit_cases in Ec as [[->| ->] _]; [by apply sane_same|].
    by apply (sane_at s); [apply settle_sane| |].
Qed.

Lemma enqueue_sane o event s s' ls : sane s -> sane_oracle o -> step (Enqueue event) o s = (s', ls) -> sane s'.
Proof.
  intros Hs (Hn & _) H. pose proof Hs as [Hc Hk Hr Hsz Hse Hp]. cbn [step] in H.
  destruct (enqueue _ _ _ _ _ _) as [[data ins] ans] eqn:E. injection H as <- _.
  destruct (enqueue_spec _ _ _ _ _ _ _ _ _ E) as [Hsends Hrows]. pose proof (gs_destinations _ Hc) as Hds. rewrite Forall_forall in Hds.
  constructor; cbn [cfg box at_]; try done.
  - intros id d Hd. destruct (Hrows id d Hd) as [Ho|(_ & -> & _)]; [by apply Hk | done].
  - intros id d Hd. destruct (Hrows id d Hd) as [Ho|(_ & _ & Hv & (dest & Hin & -> & Hown & Hev & _))]; [by eapply Hr|].
    split; [by apply proven_new; auto|]. split; [unfold within; cbn; lia|]. split; [|done]. cbn [new_row next_attempt_at].
    destruct (gs_times _ Hc second_pos) as (Hb & _). lia.
  - unfold enqueue in E. destruct (negb _); [by injection E as <- _ _|]. destruct (negb _); [by injection E as <- _ _|].
    destruct (add_rows _ _ _ _ _ _) as [[rows ins0] pressure] eqn:Ea. destruct (commit _ _ _) as [d1 ok] eqn:Ec. injection E as <- _ _.
    apply commit_cases in Ec as [[->| ->] _]; [done|]. cbn [deliveries]. destruct (gs_capacity _ Hc) as [[_ Hcap] _].
    eapply add_rows_size; [exact Hcap | exact Ea|]. unfold prune. etrans; [apply (grows_size (fun _ => 0)), (grows_prune 3 10 (cfg s) (now o)) | exact Hsz].
  - by rewrite Hsends.
Qed.

Lemma step_sane a o s s' ls : sane s -> sane_oracle o -> (forall c, a = Restart c -> good_settings c) -> step a o s = (s', ls) ->
  sane s' /\ forall dest addresses batch out, Posted dest addresses batch out ∈ ls -> good_post (cfg s) dest addresses batch out.
Proof.
  intros Hs Ho Ha H. destruct a as [|event|owner id|c].
  - by eapply work_sane.
  - split; [by eapply enqueue_sane|]. cbn [step] in H. destruct (enqueue _ _ _ _ _ _) as [[data ins] ans]. injection H as _ <-.
    intros dest addresses batch out Hin. apply list_elem_of_In, in_map_iff in Hin as (x & Hx & _). done.
  - cbn [step] in H. injection H as <- <-. split; [|intros ? ? ? ? Hin; by apply not_elem_of_nil in Hin].
    pose proof Hs as [Hc Hk Hr Hsz Hse Hp]. destruct Ho as (Hn & _).
    eapply (sane_grows (fun _ => 0)); [exact Hs | done | apply grows_replay; [by destruct (gs_replays _ Hc) | lia] | done | by apply keeps_tidy_replay | by rewrite replay_sends | done].
  - cbn [step] in H. injection H as <- <-. split; [|intros ? ? ? ? Hin; by apply not_elem_of_nil in Hin].
    destruct (open_ok (box s)); [|done]. apply sane_same; [done | by apply Ha | done].
Qed.

Lemma run_sane l s : sane s -> Forall (fun '(a, o) => sane_oracle o /\ forall c, a = Restart c -> good_settings c) l ->
  sane (fst (run l s))
  /\ forall dest addresses batch out, Posted dest addresses batch out ∈ snd (run l s) -> exists c, good_settings c /\ good_post c dest addresses batch out.
Proof.
  revert s. induction l as [|[a o] l IH]; intros s Hs Hl; cbn [run].
  { split; [done|]. intros ? ? ? ? Hin. by apply not_elem_of_nil in Hin. }
  apply Forall_cons in Hl as [[Ho Ha] Hl]. destruct (step a o s) as [s1 l1] eqn:E1.
  destruct (step_sane _ _ _ _ _ Hs Ho Ha E1) as [Hs1 Hp1]. specialize (IH s1 Hs1 Hl). destruct (run l s1) as [s2 l2]. cbn [fst snd] in *.
  destruct IH as [Hs2 Hp2]. split; [done|]. intros dest addresses batch out Hin. apply elem_of_app in Hin as [Hin|Hin]; [|by eapply Hp2].
  exists (cfg s). split; [apply Hs | by apply Hp1].
Qed.

(** A sane outbox passes every check of [Outbox::open]. *)
Lemma sane_opens s : (forall t, byte_len (sha256_hex t) = 64 /\ forallb is_hex_char (sha256_hex t) = true) -> sane s -> open_ok (box s) = true.
Proof.
  intros sha_hex [_ Hk Hr Hsz [Hs8 Hst] _]. unfold open_ok. repeat (apply andb_true_iff; split).
  - by apply Nat.leb_le.
  - by apply Nat.leb_le.
  - apply forallb_forall. intros id _. destruct (deliveries (box s) !! id) as [d|] eqn:E; [|done].
    destruct (Hr id d E) as ([(sp & priv & Hrev & Hdi & Hgid & Hown & Hst') [Hco Hvo] Hvc Hev Hkey] & [[Ha0 Ha] [Hr0 Hr1]] & Hat & Hcode).
    pose proof (Hk id d E) as Hid. unfold row_ok.
    destruct (sha_hex (event_id d ++ [c_colon] ++ destination_id d ++ [c_colon] ++ destination_revision d)) as [Hl1 Hx1].
    destruct (sha_hex (grant_json sp priv)) as [Hl2 Hx2].
    unfold good_id in Hgid. apply andb_true_iff in Hgid as [Hgid _]. apply andb_true_iff in Hgid as [Hne Hlen].
    assert (Hid64 : byte_len id = 64 /\ forallb is_hex_char id = true) by (rewrite <- Hid, Hkey; split; [exact Hl1 | exact Hx1]).
    destruct Hid64 as [Hid1 Hid2]. rewrite Hco, Hvo, Hvc, Hid1, Hid2, Hrev, Hdi, Hne, Hlen.
    unfold revision_of at 1 2. rewrite Hl2, Hx2, Hid, teqb_refl, teqb_refl. cbn [andb].
    rewrite (proj2 (teqb_eq _ _) Hev). rewrite <- Hdi, <- Hrev. rewrite <- Hid, (proj2 (teqb_eq _ _) Hkey). cbn [andb].
    rewrite (proj2 (Z.leb_le _ _) Hat), (proj2 (Z.leb_le _ _) Ha), (proj2 (Z.leb_le _ _) Hr1), !andb_true_r.
    destruct (last_code d); [by apply Z.leb_le | done].
  - apply forallb_forall. intros id _. destruct (next_send_at (box s) !! id) as [t|] eqn:E; [|done]. apply Z.leb_le. by eapply (Hst id t).
Qed.
End Sane.

Definition bearer_owners (ds : list Destination) : gset text := list_to_set (map (fun d => spec_owner (spec d)) (List.filter wants_bearer ds)).
Lemma in_bearer_owners d ds : d ∈ ds -> wants_bearer d = true -> spec_owner (spec d) ∈ bearer_owners ds.
Proof.
  intros Hd Hw. apply elem_of_list_to_set, list_elem_of_In, in_map_iff. exists d. split; [done|]. apply filter_In. split; [by apply list_elem_of_In | done].
Qed.
Lemma load_settings_bearers f c : load_settings f = Ok c -> exists ds tokens legacy,
  bearer_tokens f = Ok tokens /\ legacy_token f = Ok legacy /\ assign_each tokens legacy (bearer_owners ds) ds = Ok (destinations c).
Proof.
  unfold load_settings. intros H. do 6 (apply bind_Ok_inv in H as (? & _ & H)). apply bind_Ok_inv in H as (ds & _ & H).
  apply bind_Ok_inv in H as (revoked & _ & H). apply bind_Ok_inv in H as (ds' & Hb & H).
  do 11 (apply bind_Ok_inv in H as (? & _ & H)). apply Ok_inj in H. subst c. cbn [destinations].
  unfold assign_bearers in Hb. apply bind_Ok_inv in Hb as (tokens & E1 & Hb). apply bind_Ok_inv in Hb as (legacy & E2 & Hb).
  by exists (map (revise revoked) ds), tokens, legacy.
Qed.

(** ** From the empty outbox *)

Definition fresh (c : Settings) : Sys := MkSys c empty_data Idle.
Definition loaded (c : Settings) : Prop := exists f, load_settings f = Ok c.
(** Every restart of the run loads its settings from some configuration. *)
Definition loaded_restarts (l : list (action * oracle)) : Prop := Forall (fun '(a, _) => forall c, a = Restart c -> loaded c) l.

Lemma fresh_budget A R c : max_attempts c <= A -> max_replays c <= R -> budget A R (fresh c) (fun _ => 0) (fun _ => 0).
Proof.
  intros HA HR. constructor; [done | intros id d Hd; cbn [fresh box empty_data deliveries] in Hd; by rewrite lookup_empty in Hd.. |]. intros id. unfold credit, inflight, fresh. cbn [box at_ empty_data deliveries]. rewrite lookup_empty. lia.
Qed.

Lemma fresh_sane c : loaded c -> sane (fresh c).
Proof.
  intros [f H]. constructor; [by eapply load_settings_good | | | | | done]; cbn [fresh box empty_data deliveries next_send_at].
  - intros id d Hd. by rewrite lookup_empty in Hd.
  - intros id d Hd. by rewrite lookup_empty in Hd.
  - rewrite map_size_empty. lia.
  - split; [rewrite map_size_empty; lia|]. intros id t Ht. by rewrite lookup_empty in Ht.
Qed.

Lemma loaded_run l : loaded_restarts l -> Forall (fun '(_, o) => sane_oracle o) l ->
  Forall (fun '(a, o) => sane_oracle o /\ forall c, a = Restart c -> good_settings c) l.
Proof.
  intros H1 H2. apply Forall_forall. intros [a o] Hin. unfold loaded_restarts in H1. rewrite Forall_forall in H1, H2.
  split; [exact (H2 _ Hin)|]. intros c E. destruct (H1 _ Hin c E) as [f Hf]. by eapply load_settings_good.
Qed.

(** C5. No crash, restart, lost write or lost answer makes the worker post a
    delivery without bound: over any run from the empty outbox, in any order
    of passes, completions, replays and restarts and with any failures of
    disk, DNS and network, a delivery is posted at most max_attempts times for
    each time it was queued and for each replay allowed to it, that is at most
    33 times per insertion into the outbox. *)
Theorem posts_bounded c l id : loaded c -> loaded_restarts l ->
  posts id (snd (run l (fresh c))) <= 33 * inserts id (snd (run l (fresh c))).
Proof.
  intros [f Hf] Hl. pose proof (load_settings_good _ _ Hf) as Hg.
  assert (Hb : budget 3 10 (fresh c) (fun _ => 0) (fun _ => 0)) by (apply fresh_budget; [apply (gs_attempts _ Hg) | apply (gs_replays _ Hg)]).
  assert (Hr : Forall (fun '(a, _) => forall c, a = Restart c -> max_attempts c <= 3 /\ max_replays c <= 10) l).
  { eapply Forall_impl; [exact Hl|]. intros [a o] H c' E. destruct (H c' E) as [f' Hf']. apply load_settings_good in Hf'.
    split; [apply (gs_attempts _ Hf') | apply (gs_replays _ Hf')]. }
  destruct (run_budget 3 10 ltac:(lia) ltac:(lia) _ _ _ _ Hb Hr) as [_ _ Hw Hp]. specialize (Hp id).
  pose proof (inflight_nonneg (fst (run l (fresh c))) id).
  assert (0 <= credit 3 10 (fst (run l (fresh c))) id).
  { unfold credit. destruct (deliveries (box (fst (run l (fresh c)))) !! id) as [d|] eqn:E; [|lia]. pose proof (Hw _ _ E) as Hwd. by apply remaining_nonneg. }
  lia.
Qed.

(** C40. The worker never writes an outbox that it would refuse to open: after
    any run from the empty outbox, every row is under its own identifier,
    which is the hash of its event, destination and revision, its event is
    that of its completion, and its numbers are within the limits, so that the
    next start opens the file. *)
Theorem outbox_always_reopens c l :
  (forall t, byte_len (sha256_hex t) = 64 /\ forallb is_hex_char (sha256_hex t) = true) -> 0 < second ->
  loaded c -> loaded_restarts l -> Forall (fun '(_, o) => sane_oracle o) l ->
  open_ok (box (fst (run l (fresh c)))) = true.
Proof.
  intros Hsha Hs Hc Hl Ho. exact (sane_opens _ Hsha (proj1 (run_sane Hs l (fresh c) (fresh_sane c Hc) (loaded_run l Hl Ho)))).

Qed.

(** Metadata goes only where its owner's grant allows: whatever happened
    before, when the worker posts a batch the destination is one of the loaded
    settings and authorised at that moment, the addresses are those that were
    checked (public, or private under a private grant, and then without TLS
    only private ones), and each row of the batch belongs to the destination's
    owner and reports an event subscribed to, unless two different grants have
    the same SHA-256 revision. *)
Theorem posts_only_granted c l dest addresses batch out :
  0 < second -> loaded c -> loaded_restarts l -> Forall (fun '(_, o) => sane_oracle o) l ->
  Posted dest addresses batch out ∈ snd (run l (fresh c)) ->
  authorized out dest = true /\ allowed_addresses addresses (private dest) = true
  /\ (scheme (d_url dest) = T "https" \/ existsb is_public_ip addresses = false)
  /\ Forall (fun d => destination_id d = spec_id (spec dest) /\ valid_completion (d_completion d) = true
       /\ ((c_owner (d_completion d) = spec_owner (spec dest) /\ c_status (d_completion d) ∈ events (spec dest))
           \/ exists s p, s <> spec dest /\ revision_of s p = revision_of (spec dest) (private dest))) batch.
Proof.
  intros Hs Hc Hl Ho Hin.
  destruct (run_sane Hs l (fresh c) (fresh_sane c Hc) (loaded_run l Hl Ho)) as [_ Hp].
  destruct (Hp _ _ _ _ Hin) as (c' & Hg & [Hd Ha Hm [Ha1 Ha2]]). do 3 (split; [done|]).
  pose proof (gs_destinations _ Hg) as Hds. rewrite Forall_forall in Hds. pose proof (gd_revision _ (Hds _ Hd)) as Hrev.
  eapply Forall_impl; [exact Hm|]. intros d ([(sp & priv & Hr & Hi & _ & Hown & Hev) [Hco _] Hv _ _] & Hdi & Hdr). split; [done|]. split; [done|].
  destruct (decide (spec_owner sp = spec_owner (spec dest) /\ events sp = events (spec dest))) as [[E1 E2]|Hne].
  - left. rewrite Hco, Hown, <- E2. done.
  - right. exists sp, priv. split; [intros ->; by apply Hne|]. congruence.
Qed.

(** No owner's secret reaches another owner's destination: when settings
    load, every enabled destination that asks for a bearer has one, and it is
    the token filed under that destination's own identifier, or else the
    single legacy token, and then all the enabled bearer destinations belong
    to one owner. *)
Theorem bearers_isolated f c d : load_settings f = Ok c -> d ∈ destinations c -> wants_bearer d = true ->
  exists secret tokens, bearer_tokens f = Ok tokens /\ bearer d = Some secret /\ bearer_hash d = Some (sha256_hex secret)
  /\ (tokens !! spec_id (spec d) = Some secret
      \/ (tokens !! spec_id (spec d) = None /\ legacy_token f = Ok (Some secret)
          /\ forall d', d' ∈ destinations c -> wants_bearer d' = true -> spec_owner (spec d') = spec_owner (spec d))).
Proof.
  intros H Hd Hw. destruct (load_settings_bearers _ _ H) as (ds & tokens & legacy & E1 & E2 & Hb). apply assign_each_spec in Hb.
  assert (Hback : forall d', d' ∈ destinations c -> exists d0, d0 ∈ ds /\ spec d' = spec d0
    /\ (wants_bearer d0 = true -> exists secret, bearer d' = Some secret /\ bearer_hash d' = Some (sha256_hex secret)
          /\ (tokens !! spec_id (spec d0) = Some secret \/ tokens !! spec_id (spec d0) = None /\ legacy = Some secret /\ base.size (bearer_owners ds) = 1%nat))).
  { intros d' Hd'. apply list_elem_of_lookup in Hd' as (k & Hk). apply (Forall2_lookup_r _ _ _ _ _ Hb) in Hk as (d0 & Hd0 & (Es & _ & _ & _ & Hwb & _)).
    exists d0. split; [by eapply list_elem_of_lookup_2|]. done. }
  destruct (Hback d Hd) as (d0 & Hd0 & Es & Hs). unfold wants_bearer in Hw, Hs. rewrite Es in *. destruct (Hs Hw) as (secret & Hb1 & Hb2 & Hcase).
  exists secret, tokens. do 3 (split; [done|]). destruct Hcase as [Hc|(Hn & -> & Hsz)]; [by left|]. right. do 2 (split; [done|]).
  intros d' Hd' Hw'. destruct (Hback d' Hd') as (d1 & Hd1 & Es' & _). unfold wants_bearer in Hw'. rewrite Es' in *.
  apply size_1_elem_of in Hsz as [x Hx]. apply (in_bearer_owners d0) in Hd0; [|done]. apply (in_bearer_owners d1) in Hd1; [|done].
  rewrite Hx, elem_of_singleton in Hd0, Hd1. congruence.
Qed.

(** ** Every delivery is settled *)

Section Live.
Context (c : Settings).

(** The attempts that a pending row may still have, and one. *)
Definition tries (d : Delivery) : nat := S (Z.to_nat (max_attempts c - attempts d)).
Definition weight (o : option Delivery) : nat :=
  match o with Some d => if bool_decide (d_state d = Pending) then tries d else 0%nat | None => 0%nat end.
Definition lighter (m m' : gmap text Delivery) : Prop := forall id, (weight (m' !! id) <= weight (m !! id))%nat.
Definition progress (x x' : Data) : Prop :=
  lighter (deliveries x) (deliveries x') /\ exists id, (weight (deliveries x' !! id) < weight (deliveries x !! id))%nat.
Definition pending_in (x : Data) (id : text) (d : Delivery) : Prop := deliveries x !! id = Some d /\ d_state d = Pending.
(** Nothing happened to the pending rows, and no send was put off. *)
Definition stuck (x x' : Data) : Prop :=
  lighter (deliveries x) (deliveries x') /\ (forall id d, pending_in x id d <-> pending_in x' id d) /\ next_send_at x' ⊆ next_send_at x.

Lemma lighter_trans m1 m2 m3 : lighter m1 m2 -> lighter m2 m3 -> lighter m1 m3.
Proof. intros H1 H2 id. specialize (H1 id). specialize (H2 id). lia. Qed.
Lemma progress_l x1 x2 x3 : progress x1 x2 -> lighter (deliveries x2) (deliveries x3) -> progress x1 x3.
Proof. intros [H1 [id H2]] H3. split; [by eapply lighter_trans|]. exists id. specialize (H3 id). lia. Qed.
Lemma progress_r x1 x2 x3 : lighter (deliveries x1) (deliveries x2) -> progress x2 x3 -> progress x1 x3.
Proof. intros H1 [H2 [id H3]]. split; [by eapply lighter_trans|]. exists id. specialize (H1 id). lia. Qed.
Lemma stuck_trans x1 x2 x3 : stuck x1 x2 -> stuck x2 x3 -> stuck x1 x3.
Proof.
  intros (H1 & H2 & H3) (H4 & H5 & H6). split; [by eapply lighter_trans|]. split; [|by etrans].
  intros id d. by rewrite H2, H5.
Qed.

Lemma weight_pending x id d : pending_in x id d -> weight (deliveries x !! id) = tries d.
Proof. intros [-> H]. simpl. by rewrite bool_decide_true. Qed.
Lemma weight_le_tries d : (weight (Some d) <= tries d)%nat.
Proof. simpl. destruct (bool_decide _); lia. Qed.

(** Retention and the verdict on authority. *)
Definition swept (f : Delivery -> bool) (t : Z) (m : gmap text Delivery) : gmap text Delivery := settle_pending c f <$> prune c t m.

Lemma swept_at f t m id : swept f t m !! id = (d ← m !! id; if unexpired c t d then Some (settle_pending c f d) else None).
Proof.
  unfold swept, prune. rewrite lookup_fmap, map_lookup_filter. destruct (m !! id) as [d|]; [|done]. cbn.
  case_guard as H; [by rewrite H | by destruct (unexpired c t d)].
Qed.

Definition holds (f : Delivery -> bool) (t : Z) (d : Delivery) : bool := unexpired c t d && negb (f d) && (attempts d <? max_attempts c).

Lemma swept_row f t d : d_state d = Pending ->
  (holds f t d = true -> (if unexpired c t d then Some (settle_pending c f d) else None) = Some d)
  /\ (holds f t d = false -> weight (if unexpired c t d then Some (settle_pending c f d) else None) = 0%nat).
Proof.
  intros E. unfold holds, settle_pending, exhausted. rewrite E. cbn.
  destruct (unexpired c t d); [|done]. destruct (f d); [done|]. cbn.
  destruct (Z.ltb_spec (attempts d) (max_attempts c)) as [H|H];
    [rewrite (proj2 (Z.leb_gt _ _)) by lia | rewrite (proj2 (Z.leb_le _ _)) by lia]; done.
Qed.

Lemma swept_pending f t m id d : swept f t m !! id = Some d -> d_state d = Pending -> m !! id = Some d /\ holds f t d = true.
Proof.
  rewrite swept_at. destruct (m !! id) as [d0|]; [|done]. cbn. intros H E.
  destruct (decide (d_state d0 = Pending)) as [E0|E0].
  - destruct (swept_row f t d0 E0) as [H1 H2]. destruct (holds f t d0) eqn:Eh.
    + rewrite H1 in H by done. injection H as <-. done.
    + rewrite H in H2. specialize (H2 eq_refl). simpl in H2. by rewrite bool_decide_true in H2.
  - unfold settle_pending in H. destruct (unexpired c t d0); [|done]. rewrite bool_decide_false in H by done. injection H as <-. done.
Qed.

Lemma swept_lighter f t m : lighter m (swept f t m).
Proof.
  intros id. destruct (swept f t m !! id) as [d|] eqn:E; [|simpl; lia]. simpl. case_bool_decide as Hp; [|lia].
  destruct (swept_pending _ _ _ _ _ E Hp) as [-> _]. simpl. rewrite bool_decide_true by done. lia.
Qed.

Lemma swept_moves f t m :
  (exists id, (weight (swept f t m !! id) < weight (m !! id))%nat)
  \/ forall id d, m !! id = Some d -> d_state d = Pending -> swept f t m !! id = Some d /\ holds f t d = true.
Proof.
  destruct (decide (map_Forall (fun _ d => d_state d = Pending -> holds f t d = true) m)) as [H|H].
  - right. intros id d Hd Hp. pose proof (H id d Hd Hp) as Hh. split; [|done]. rewrite swept_at, Hd. by apply swept_row.
  - left. apply map_not_Forall in H as (id & d & Hd & H); [|apply _]. exists id. rewrite swept_at, Hd.
    destruct (decide (d_state d = Pending)) as [Hp|Hp]; [|by destruct H].
    destruct (holds f t d) eqn:Eh; [by destruct H|]. cbn [mbind option_bind]. rewrite (proj2 (swept_row f t d Hp) Eh). simpl.
    rewrite bool_decide_true by done. unfold tries. lia.
Qed.

(** A visit: rows claimed, sent and settled. *)
Lemma due_in_batch dest t j m id d : keyed m -> (1 <= batch_size c)%nat -> m !! id = Some d -> due dest t d = true -> batch_of c dest t j m <> [].
Proof.
  intros Hk Hb Hd Hdue. unfold batch_of. destruct (List.filter (due dest t) _) as [|x l] eqn:E.
  - assert (Hin : In d (List.filter (due dest t) (omap (fun i => m !! i) (sorted_keys m)))).
    { apply filter_In. split; [|done]. apply list_elem_of_In, list_elem_of_omap. exists id. split; [|done]. apply elem_of_sorted_keys. by exists d. }
    rewrite E in Hin. done.
  - destruct (batch_size c); [lia | done].
Qed.

Definition window_open (dest : Destination) (t : Z) (x : Data) : Prop :=
  match next_send_at x !! spec_id (spec dest) with Some w => w <= t | None => True end.

Lemma claim_nothing auth t j dest x next : keyed (deliveries x) -> (1 <= batch_size c)%nat -> claim c auth t j dest x = (next, []) ->
  progress x next \/ (stuck x next /\ forall id d, pending_in x id d -> due dest t d = true -> window_open dest t x -> False).
Proof.
  intros Hk Hbs H. unfold claim in H. injection H as <- Hb. rewrite Hb, (bool_decide_true ([] = [])) by done. cbn [put_rows foldl].
  set (f := fun d => _ || _) in *. change (settle_pending c f <$> prune c t (deliveries x)) with (swept f t (deliveries x)) in *.
  pose proof (swept_lighter f t (deliveries x)) as Hl.
  destruct (swept_moves f t (deliveries x)) as [Hs|Hs]; [by left|]. right. split.
  - split; [exact Hl|]. split; [|apply map_filter_subseteq]. intros id d. unfold pending_in. cbn [deliveries]. split; intros [H1 H2]; (split; [|done]).
    + by apply Hs.
    + by apply (swept_pending f t).
  - intros id d [Hd Hp] Hdue Hw. destruct (Hs id d Hd Hp) as [Hsd Hh]. unfold holds in Hh.
    apply andb_true_iff in Hh as [Hh _]. apply andb_true_iff in Hh as [_ Hh%negb_true_iff]. unfold f in Hh.
    apply orb_false_iff in Hh as [_ Hh]. unfold due in Hdue. 
    assert (Hid : teqb (destination_id d) (spec_id (spec dest)) = true) by (guards; done). rewrite Hid in Hh.
    destruct auth; [|done]. unfold window_open in Hw.
    assert (Hrate : match next_send_at x !! spec_id (spec dest) with Some t0 => t0 <=? t | None => true end = true).
    { destruct (next_send_at x !! _); [by apply Z.leb_le | done]. }
    rewrite Hrate in Hb. cbn [andb] in Hb. revert Hb. eapply due_in_batch; [|done|exact Hsd | exact Hdue].
    eapply (grows_keyed 0 0); [exact Hk|]. eapply grows_trans; [apply grows_prune | apply grows_settle].
Qed.

Lemma settle_row_tries r t l sent d : tries (settle_row c r t l sent d) = tries d.
Proof. unfold settle_row. by destruct (bool_decide _). Qed.

Lemma settle_at r t l batch x id :
  (id ∉ map delivery_id batch -> deliveries (settle c r t l batch x) !! id = deliveries x !! id)
  /\ forall d, deliveries x !! id = Some d -> (weight (deliveries (settle c r t l batch x) !! id) <= tries d)%nat.
Proof.
  unfold settle. cbn [deliveries]. generalize (deliveries x). induction batch as [|b batch IH]; intros m; cbn [map foldl].
  { split; [done|]. intros d ->. apply weight_le_tries. }
  destruct (m !! delivery_id b) as [d0|] eqn:E.
  - destruct (IH (<[delivery_id b := settle_row c r t l b d0]> m)) as [H1 H2]. split.
    + rewrite not_elem_of_cons. intros [Hne Hn]. rewrite H1 by done. by apply lookup_insert_ne.
    + intros d Hd. destruct (decide (id = delivery_id b)) as [->|Hne].
      * rewrite E in Hd. injection Hd as ->. rewrite <- (settle_row_tries r t l b d). apply H2, lookup_insert_eq.
      * apply H2. by rewrite lookup_insert_ne.
  - destruct (IH m) as [H1 H2]. split; [|exact H2]. rewrite not_elem_of_cons. intros [_ Hn]. by apply H1.
Qed.

Lemma claim_progress auth t j dest x next batch r t' l : keyed (deliveries x) -> claim c auth t j dest x = (next, batch) -> batch <> [] ->
  progress x (settle c r t' l batch next).
Proof.
  intros Hk H Hne. unfold claim in H. injection H as <- Hb. revert Hb. set (f := fun d => _ || _).
  change (settle_pending c f <$> prune c t (deliveries x)) with (swept f t (deliveries x)). intros Hb.
  assert (Hm : keyed (swept f t (deliveries x))).
  { eapply (grows_keyed 0 0); [exact Hk|]. eapply grows_trans; [apply grows_prune | apply grows_settle]. }
  rewrite Hb. set (next := MkData _ _).
  destruct (auth && _); [|by destruct Hne].
  assert (Hrow : forall row, row ∈ batch -> (weight (deliveries (settle c r t' l batch next) !! delivery_id row) < weight (deliveries x !! delivery_id row))%nat).
  { intros row Hr. pose proof Hr as Hr0. rewrite <- Hb in Hr. destruct (batch_spec _ _ _ _ _ _ Hm Hr) as (d & Hd & Erow & Hdue).
    assert (Hp : d_state d = Pending) by (unfold due in Hdue; guards; done).
    destruct (swept_pending _ _ _ _ _ Hd Hp) as [Hx Hh]. rewrite Hx. cbn [weight]. rewrite (bool_decide_true _ Hp).
    assert (Hput : deliveries next !! delivery_id row = Some row).
    { apply put_rows_present; [|done]. rewrite <- Hb. by apply batch_NoDup. }
    destruct (settle_at r t' l batch next (delivery_id row)) as [_ Hs]. specialize (Hs row Hput).
    assert (Ht : (tries row < tries d)%nat).
    { rewrite Erow. unfold tries, holds in *. cbn [claim_row scheduled attempts]. apply andb_true_iff in Hh as [_ Hlt%Z.ltb_lt]. lia. }
    lia. }
  split.
  - intros id. destruct (decide (id ∈ map delivery_id batch)) as [Hin|Hin].
    + apply list_elem_of_In, in_map_iff in Hin as (row & <- & Hin%list_elem_of_In). specialize (Hrow row Hin). lia.
    + rewrite (proj1 (settle_at r t' l batch next id) Hin). unfold next. cbn [deliveries]. rewrite put_rows_absent by done. apply swept_lighter.
  - destruct batch as [|row batch]; [done|]. exists (delivery_id row). apply Hrow, list_elem_of_here.
Qed.

(** ** Passes *)

Context (second_pos : 0 < second) (fits : forall s, sane s -> encoded_len (box s) <= MAX_OUTBOX_BYTES).

Fixpoint works (os : nat -> oracle) (n : nat) (s : Sys) : Sys :=
  match n with O => s | S n => works (fun k => os (S k)) n (fst (work (os O) s)) end.

Lemma works_add n m os s : works os (n + m) s = works (fun k => os (n + k)%nat) m (works os n s).
Proof. revert os s. induction n as [|n IH]; intros os s; [done|]. cbn [Nat.add works]. by rewrite IH. Qed.

(** Writes commit, nobody stops the worker, and the clock goes on. *)
Record fair (os : nat -> oracle) : Prop := {
  fa_sane : forall k, sane_oracle (os k);
  fa_commits : forall k, outcome (disk (os k)) = Committed;
  fa_goes_on : forall k, stopped (os k) = false;
  fa_forward : forall k, now (os k) <= now (os (S k));
  fa_unbounded : forall t, exists k, t <= now (os k);
}.
Lemma fair_forward os n m : fair os -> now (os n) <= now (os (n + m)%nat).
Proof.
  intros Hf. induction m as [|m IH]; [rewrite Nat.add_0_r; lia|]. rewrite Nat.add_succ_r. pose proof (fa_forward _ Hf (n + m)). lia.
Qed.
Lemma fair_later os n : fair os -> fair (fun k => os (n + k)%nat).
Proof.
  intros Hf. pose proof Hf as [H1 H2 H3 H4 H5]. constructor; [done..| |].
  - intros k. rewrite Nat.add_succ_r. apply H4.
  - intros t. destruct (H5 t) as [k Hk]. exists k. pose proof (fair_forward os k n Hf). rewrite Nat.add_comm in H. lia.
Qed.

Record live (s : Sys) : Prop := { li_sane : sane s; li_cfg : cfg s = c }.

Lemma work_cfg o s : cfg (fst (work o s)) = cfg s.
Proof. unfold work. repeat case_match; done. Qed.
Lemma work_live o s : sane_oracle o -> live s -> live (fst (work o s)).
Proof.
  intros Ho [Hs Hc]. destruct (work o s) as [s' ls] eqn:E. constructor; [|by rewrite <- Hc, <- (work_cfg o s), E].
  by destruct (work_sane second_pos _ _ _ _ Hs Ho E).
Qed.
Lemma works_live n os s : fair os -> live s -> live (works os n s).
Proof.
  revert os s. induction n as [|n IH]; intros os s Hf Hs; [done|]. cbn [works].
  apply IH; [exact (fair_later os 1 Hf) | by apply work_live; [apply Hf|]].
Qed.
Lemma committed o x x' : outcome o = Committed -> sane (MkSys c x' Idle) -> commit o x x' = (x', true).
Proof.
  intros Ho Hs. unfold commit. destruct (bool_decide (x' = x) && is_file o) eqn:E; [by guards; subst|].
  rewrite (proj2 (Z.ltb_ge _ _)) by (exact (fits _ Hs)). by rewrite Ho.
Qed.

Definition at_rest (rest : list Destination) (s : Sys) : Prop := live s /\ at_ s = Visiting rest.

Lemma work_visit os s dest rest next batch : fair os -> at_rest (dest :: rest) s ->
  claim c (authorized (outside (os O)) dest) (now (os O)) (jitter (os O)) dest (box s) = (next, batch) ->
  fst (work (os O) s) = MkSys c next (if bool_decide (batch = []) then Visiting rest else Sending dest batch (now (os O)) rest)
  /\ sane (MkSys c next Idle).
Proof.
  intros Hf [[Hs Hc] Hat] Ecl. destruct (fa_sane _ Hf O) as (Hn0 & Hj & _).
  assert (Hgd : good_destination dest).
  { pose proof (sn_place _ Hs) as Hp. rewrite Hat in Hp. apply Forall_cons in Hp as [Hin _].
    pose proof (gs_destinations _ (sn_cfg _ Hs)) as Hds. rewrite Forall_forall in Hds. by apply Hds. }
  rewrite <- Hc in Ecl. pose proof (claim_sane second_pos _ _ _ _ _ _ _ Hs Hgd Hn0 Hj Ecl) as Hn. rewrite Hc in Ecl, Hn.
  split; [|exact Hn].
  unfold work. rewrite Hat, (fa_goes_on _ Hf), Hc, Ecl, (committed _ _ _ (fa_commits _ Hf O) Hn). cbn [fst andb].
  by destruct (bool_decide (batch = [])).
Qed.

Lemma visit os s dest rest : fair os -> at_rest (dest :: rest) s -> exists n, at_rest rest (works os (S n) s)
  /\ (progress (box s) (box (works os (S n) s))
      \/ (stuck (box s) (box (works os (S n) s))
          /\ forall id d, pending_in (box s) id d -> due dest (now (os O)) d = true -> window_open dest (now (os O)) (box s) -> False)).
Proof.
  intros Hf Hs. pose proof Hs as [[Hsane Hc] _]. pose proof Hsane as [Hg Hk _ _ _ _]. rewrite Hc in Hg.
  destruct (claim c (authorized (outside (os O)) dest) (now (os O)) (jitter (os O)) dest (box s)) as [next batch] eqn:Ecl.
  destruct (work_visit os s dest rest next batch Hf Hs Ecl) as (E0 & Hsn).
  destruct (decide (batch = [])) as [->|Hne].
  - exists O. assert (E : works os 1 s = MkSys c next (Visiting rest)) by (cbn [works]; by rewrite E0).
    split; [split; [by apply works_live, Hs | by rewrite E]|]. rewrite E. cbn [box]. apply (claim_nothing _ _ _ _ _ _ Hk) in Ecl; [done|].
    by destruct (gs_capacity _ Hg).
  - exists 2%nat. rewrite bool_decide_false in E0 by done.
    assert (E1 : exists r, fst (work (os 1%nat) (fst (work (os O) s))) = MkSys c next (Settling r batch (now (os O)) rest)).
    { rewrite E0. unfold work. cbn [at_ cfg box]. destruct (if _ <? _ then _ else _) as [sent r]. by exists r. }
    destruct E1 as [r E1].
    assert (E2 : works os 3 s = MkSys c (settle c r (now (os O)) (later (os 2%nat)) batch next) (Visiting rest)).
    { cbn [works]. rewrite E1. unfold work. cbn [at_ cfg box]. rewrite committed; [done | by apply Hf|].
      apply (settle_sane r (now (os O)) (later (os 2%nat)) batch _ Hsn). by destruct (fa_sane _ Hf 2%nat) as (_ & _ & ?). }
    split; [split; [by apply works_live, Hs | by rewrite E2]|]. left. rewrite E2. cbn [box]. by eapply claim_progress.
Qed.

(** [t] is past every delay. *)
Definition ripe (t : Z) (x : Data) : Prop :=
  (forall id d, pending_in x id d -> next_attempt_at d <= t) /\ forall id w, next_send_at x !! id = Some w -> w <= t.
Lemma ripe_stuck t x x' : stuck x x' -> ripe t x -> ripe t x'.
Proof.
  intros (_ & Hp & Hs) [H1 H2]. split; [intros id d Hd; by eapply H1, Hp|]. intros id w Hw. eapply H2, lookup_weaken; [exact Hw | exact Hs].
Qed.
Lemma ripe_later t t' x : t <= t' -> ripe t x -> ripe t' x.
Proof. intros Ht [H1 H2]. split; [intros id d Hd; specialize (H1 id d Hd); lia | intros id w Hw; specialize (H2 id w Hw); lia]. Qed.
Definition for_dest (dest : Destination) (d : Delivery) : Prop := destination_id d = spec_id (spec dest) /\ destination_revision d = revision dest.

Lemma ripe_due dest t x id d : ripe t x -> pending_in x id d -> for_dest dest d -> due dest t d = true /\ window_open dest t x.
Proof.
  intros [H1 H2] Hp [E1 E2]. split.
  - unfold due. destruct Hp as [Hd Hp]. rewrite (bool_decide_true _ Hp), E1, E2, !teqb_refl. cbn [andb]. apply Z.leb_le. by eapply H1.
  - unfold window_open. destruct (next_send_at x !! _) eqn:E; [by eapply H2 | done].
Qed.

Lemma visit_all rest os s : fair os -> at_rest rest s -> exists n, live (works os n s) /\ at_ (works os n s) = Idle
  /\ (progress (box s) (box (works os n s))
      \/ (stuck (box s) (box (works os n s))
          /\ forall dest id d, dest ∈ rest -> ripe (now (os O)) (box s) -> pending_in (box s) id d -> for_dest dest d -> False)).
Proof.
  revert os s. induction rest as [|dest rest IH]; intros os s Hf Hs.
  { exists 1%nat. split; [by apply works_live, Hs|]. destruct Hs as [Hl Hat]. cbn [works]. unfold work. rewrite Hat. cbn [fst at_ box]. split; [done|].
    right. split; [split; [by intros id|]; split; [done | apply map_subseteq_po]|]. intros dest id d Hin. by apply not_elem_of_nil in Hin. }
  destruct (visit os s dest rest Hf Hs) as (n & Hn & Hcase).
  destruct (IH (fun k => os (S n + k)%nat) (works os (S n) s) (fair_later _ _ Hf) Hn) as (m & Hl & Hi & Hrest).
  exists (S n + m)%nat. rewrite works_add. split; [done|]. split; [done|].
  destruct Hcase as [Hp|[Hst Hno]].
  { left. eapply progress_l; [exact Hp|]. by destruct Hrest as [[? _]|[(? & _) _]]. }
  destruct Hrest as [Hp|[Hst' Hno']]; [left; eapply progress_r; [apply Hst | exact Hp]|].
  right. split; [by eapply stuck_trans|]. intros dest' id d [->|Hin]%elem_of_cons Hr Hpe Hfor.
  - destruct (ripe_due _ _ _ _ _ Hr Hpe Hfor). by eapply Hno.
  - apply (Hno' dest' id d Hin); [|by apply (proj1 (proj2 Hst))|done]. eapply ripe_stuck; [exact Hst|]. eapply ripe_later; [|exact Hr].
    exact (fair_forward os 0 (S n + 0) Hf).
Qed.

Lemma pass os s : fair os -> live s -> at_ s = Idle -> exists n, live (works os (S n) s) /\ at_ (works os (S n) s) = Idle
  /\ (progress (box s) (box (works os (S n) s))
      \/ (stuck (box s) (box (works os (S n) s)) /\ forall id d, ripe (now (os O)) (box s) -> pending_in (box s) id d -> False)).
Proof.
  intros Hf Hl Hat. pose proof Hl as [Hs Hc]. pose proof Hs as [Hg Hk _ Hsz _ _].
  set (allowed := map (fun d => (spec_id (spec d), revision d)) (List.filter (authorized (outside (os O))) (destinations c))).
  set (f := fun d => negb (bool_decide ((destination_id d, destination_revision d) ∈ allowed))).
  set (x := MkData (swept f (now (os O)) (deliveries (box s))) (next_send_at (box s))).
  assert (E0 : fst (work (os O) s) = MkSys c x (Visiting (destinations c))).
  { unfold work. rewrite Hat, Hc. change (sweep c (outside (os O)) (now (os O)) (box s)) with x. rewrite committed; [done | by apply Hf|].
    pose proof (sweep_sane (outside (os O)) (now (os O)) s Hs) as Hx. by rewrite Hc in Hx. }
  pose proof (works_live 1 os s Hf Hl) as Hl1. cbn [works] in Hl1.
  destruct (visit_all (destinations c) (fun k => os (S k)) (fst (work (os O) s)) (fair_later os 1 Hf)) as (n & Hn & Hi & Hcase);
    [split; [done | by rewrite E0]|].
  exists n. cbn [works]. split; [done|]. split; [done|].
  assert (Hx : box (fst (work (os O) s)) = x) by (by rewrite E0). rewrite Hx in Hcase.
  destruct (swept_moves f (now (os O)) (deliveries (box s))) as [Hlt|Hkeep].
  { left. apply (progress_l _ x); [split; [apply swept_lighter | exact Hlt]|]. by destruct Hcase as [[? _]|[(? & _) _]]. }
  assert (Hst : stuck (box s) x).
  { split; [apply swept_lighter|]. split; [|done]. intros id d. split; intros [H1 H2]; (split; [|done]); [by apply Hkeep | by apply (swept_pending f (now (os O)))]. }
  destruct Hcase as [Hp|[Hst' Hno]]; [left; eapply progress_r; [apply Hst | exact Hp]|].
  right. split; [by eapply stuck_trans|]. intros id d Hr [Hd Hpe]. destruct (Hkeep id d Hd Hpe) as [Hxd Hh].
  unfold holds in Hh. apply andb_true_iff in Hh as [Hh _]. apply andb_true_iff in Hh as [_ Hh%negb_true_iff].
  apply negb_false_iff, bool_decide_eq_true in Hh. apply list_elem_of_In, in_map_iff in Hh as (dest & [= E1 E2] & Hin).
  apply filter_In in Hin as [Hin _]. eapply (Hno dest id d); [by apply list_elem_of_In | | done | done].
  eapply ripe_stuck; [exact Hst|]. eapply ripe_later; [|exact Hr]. apply (fair_forward os 0 1 Hf).
Qed.

(** The weights of all rows together. *)
Definition total_weight (ids : list text) (x : Data) : nat := foldr (fun id n => (weight (deliveries x !! id) + n)%nat) O ids.
Definition covers_pending (ids : list text) (x : Data) : Prop := forall id, weight (deliveries x !! id) <> O -> id ∈ ids.
Lemma covers_pending_lighter ids x x' : lighter (deliveries x) (deliveries x') -> covers_pending ids x -> covers_pending ids x'.
Proof. intros Hl Hc id Hid. apply Hc. specialize (Hl id). lia. Qed.
Lemma covers_pending_keys x : covers_pending (sorted_keys (deliveries x)) x.
Proof. intros id H. apply elem_of_sorted_keys. destruct (deliveries x !! id); [by eexists | done]. Qed.
Lemma total_cons id ids x : total_weight (id :: ids) x = (weight (deliveries x !! id) + total_weight ids x)%nat.
Proof. done. Qed.
Lemma total_lighter ids x x' : lighter (deliveries x) (deliveries x') -> (total_weight ids x' <= total_weight ids x)%nat.
Proof. intros H. induction ids as [|i ids IH]; [done|]. rewrite !total_cons. specialize (H i). lia. Qed.
Lemma total_progress ids x x' : covers_pending ids x -> progress x x' -> (total_weight ids x' < total_weight ids x)%nat.
Proof.
  intros Hids [Hl [id Hid]]. assert (Hin : id ∈ ids) by (apply Hids; lia).
  clear Hids. induction ids as [|i ids IH]; [by apply not_elem_of_nil in Hin|]. rewrite !total_cons.
  pose proof (total_lighter ids _ _ Hl). apply elem_of_cons in Hin as [->|Hin]; [lia|]. specialize (IH Hin). specialize (Hl i). lia.
Qed.

Lemma bounded_above (m : gmap text Z) : exists t, forall id w, m !! id = Some w -> w <= t.
Proof.
  induction m as [|i w m Hi IH] using map_ind; [exists 0; intros id w H; by rewrite lookup_empty in H|]. destruct IH as [t IH].
  exists (Z.max w t). intros id v [[_ <-]|[_ H]]%lookup_insert_Some; [lia|]. specialize (IH id v H). lia.
Qed.
Lemma ripens x : exists t, ripe t x.
Proof.
  destruct (bounded_above (next_attempt_at <$> deliveries x)) as [t1 H1]. destruct (bounded_above (next_send_at x)) as [t2 H2].
  exists (Z.max t1 t2). split.
  - intros id d [Hd _]. specialize (H1 id (next_attempt_at d)). rewrite lookup_fmap, Hd in H1. specialize (H1 eq_refl). lia.
  - intros id w Hw. specialize (H2 id w Hw). lia.
Qed.

Lemma settles_from k ids n0 os s : fair os -> live s -> at_ s = Idle -> covers_pending ids (box s) -> (total_weight ids (box s) < k)%nat ->
  (exists t, ripe t (box s) /\ t <= now (os n0)) ->
  exists n, forall id d, pending_in (box (works os n s)) id d -> False.
Proof.
  revert n0 os s. induction k as [|k IHk]; intros n0 os s; [lia|]. revert os s.
  induction n0 as [n0 IHn] using lt_wf_ind; intros os s Hf Hl Hat Hcov Hload (t & Hr & Ht).
  destruct (pass os s Hf Hl Hat) as (n & Hl' & Hat' & Hcase). pose proof (fair_later os (S n) Hf) as Hf'.
  assert (Hlater : (exists m, forall id d, pending_in (box (works (fun k => os (S n + k)%nat) m (works os (S n) s))) id d -> False) ->
            exists m, forall id d, pending_in (box (works os m s)) id d -> False).
  { intros [m Hm]. exists (S n + m)%nat. intros id d. rewrite works_add. apply Hm. }
  destruct Hcase as [Hp|[Hst Hno]].
  - apply Hlater. destruct (ripens (box (works os (S n) s))) as [t' Hr']. destruct (fa_unbounded _ Hf' t') as [n1 Hn1].
    pose proof (total_progress ids _ _ Hcov Hp) as Hlt.
    apply (IHk n1); [done..| | lia | by exists t']. by eapply covers_pending_lighter; [apply Hp|].
  - destruct n0 as [|n0].
    + exists O. intros id d Hd. apply (Hno id d); [eapply ripe_later; [exact Ht | exact Hr] | done].
    + apply Hlater. pose proof (fair_forward os (S n0) n Hf) as Hfw.
      assert (Hlt : (n0 - n < S n0)%nat) by lia. apply (IHn (n0 - n)%nat Hlt); [done..| by eapply covers_pending_lighter; [apply Hst|] | |].
      * apply (Nat.le_lt_trans _ (total_weight ids (box s))); [|exact Hload]. apply total_lighter, Hst.
      * exists t. split; [by eapply ripe_stuck|]. destruct (Nat.le_gt_cases n n0) as [Hle|Hgt].
        { replace (S n + (n0 - n))%nat with (S n0) by lia. done. }
        { replace (S n + (n0 - n))%nat with (S n0 + (n - n0))%nat by lia. pose proof (fair_forward os (S n0) (n - n0) Hf). lia. }
Qed.

(** From any place, the worker comes to the end of its pass. *)
Lemma rests rest os s : fair os -> at_rest rest s -> exists n, live (works os n s) /\ at_ (works os n s) = Idle.
Proof. intros Hf Hs. destruct (visit_all rest os s Hf Hs) as (n & H1 & H2 & _). by exists n. Qed.

Lemma comes_to_rest os s : fair os -> live s -> exists n, live (works os n s) /\ at_ (works os n s) = Idle.
Proof.
  intros Hf Hl.
  assert (Hsettling : forall os s r b t rest, fair os -> live s -> at_ s = Settling r b t rest ->
            exists n, live (works os n s) /\ at_ (works os n s) = Idle).
  { clear os s Hf Hl. intros os s r b t rest Hf Hl Hat. pose proof (works_live 1 os s Hf Hl) as Hl1.
    destruct (rests rest (fun k => os (1 + k)%nat) (works os 1 s) (fair_later os 1 Hf)) as (n & Hn).
    - split; [done|]. cbn [works]. unfold work. rewrite Hat. by destruct (commit _ _ _).
    - exists (1 + n)%nat. by rewrite works_add. }
  destruct (at_ s) as [|rest|dest b t rest|r b t rest] eqn:Hat.
  - exists O. done.
  - by apply (rests rest).
  - pose proof (works_live 1 os s Hf Hl) as Hl1.
    assert (H1 : exists r, at_ (works os 1 s) = Settling r b t rest).
    { cbn [works]. unfold work. rewrite Hat. destruct (if _ <? _ then _ else _) as [sent r]. by exists r. }
    destruct H1 as [r H1]. destruct (Hsettling _ _ _ _ _ _ (fair_later os 1 Hf) Hl1 H1) as (n & Hn). exists (1 + n)%nat. by rewrite works_add.
  - by eapply Hsettling.
Qed.

Lemma all_settle os s : fair os -> live s -> exists n, forall id d, pending_in (box (works os n s)) id d -> False.
Proof.
  intros Hf Hl. destruct (comes_to_rest os s Hf Hl) as (n & Hl' & Hat). pose proof (fair_later os n Hf) as Hf'.
  destruct (ripens (box (works os n s))) as [t Hr]. destruct (fa_unbounded _ Hf' t) as [n0 Hn0].
  destruct (settles_from _ _ n0 _ _ Hf' Hl' Hat (covers_pending_keys _) (Nat.lt_succ_diag_r _) ltac:(by exists t)) as [m Hm].
  exists (n + m)%nat. rewrite works_add. exact Hm.
Qed.
End Live.

Lemma run_app l l' s : fst (run (l ++ l') s) = fst (run l' (fst (run l s))).
Proof.
  revert s. induction l as [|[a o] l IH]; intros s; [done|]. cbn [app run]. destruct (step a o s) as [s1 l1]. specialize (IH s1).
  destruct (run (l ++ l') s1) as [s2 l2]. destruct (run l s1) as [s3 l3]. exact IH.
Qed.
Lemma run_works os n s : fst (run (map (fun k => (Work, os k)) (seq 0 n)) s) = works os n s.
Proof.
  revert os s. induction n as [|n IH]; intros os s; [done|]. cbn [seq map run works step]. destruct (work (os O) s) as [s1 l1].
  rewrite <- seq_shift, map_map. specialize (IH (fun k => os (S k)) s1). cbn [fst]. rewrite <- IH.
  by destruct (run _ s1).
Qed.

Lemma settles_in_the_end c l os :
  0 < second -> (forall s, sane s -> encoded_len (box s) <= MAX_OUTBOX_BYTES) ->
  loaded c -> loaded_restarts l -> Forall (fun '(_, o) => sane_oracle o) l -> fair os ->
  exists n, forall id d,
    deliveries (box (fst (run (l ++ map (fun k => (Work, os k)) (seq 0 n)) (fresh c)))) !! id = Some d -> d_state d <> Pending.
Proof.
  intros Hs Hfits Hc Hl Ho Hf. destruct (run_sane Hs l (fresh c) (fresh_sane c Hc) (loaded_run l Hl Ho)) as [Hsane _].
  destruct (all_settle (cfg (fst (run l (fresh c)))) Hs Hfits os (fst (run l (fresh c))) Hf) as [n Hn]; [by constructor|].
  exists n. intros id d. rewrite run_app, run_works. intros H1 H2. by apply (Hn id d).
Qed.

(** *** The outbox fits its file *)

Section Fits.
Context (string_len : text -> Z) (f64_len : Z -> Z) (json_laws : JsonLaws string_len f64_len).
Context (sha_hex : forall t, byte_len (sha256_hex t) = 64 /\ forallb is_hex_char (sha256_hex t) = true).

Lemma sum_of_bound (B : Z) l : Forall (fun n => n <= B) l -> sum_of l <= B * Z.of_nat (length l).
Proof. induction 1 as [|n l Hn _ IH]; [cbn; lia|]. cbn [sum_of foldr length] in *. unfold sum_of in IH. lia. Qed.

Lemma object_len_bound (B : Z) (n : nat) l : 0 <= B -> Forall (fun m => m <= B) l -> (length l <= n)%nat -> object_len l <= 2 + (B + 1) * Z.of_nat n.
Proof.
  intros HB H Hn. pose proof (sum_of_bound B l H). unfold object_len.
  pose proof (Z.mul_le_mono_nonneg_l (Z.of_nat (length l)) (Z.of_nat n) B HB). lia.
Qed.

Lemma hex_len t : byte_len (sha256_hex t) = 64.
Proof using sha_hex. apply sha_hex. Qed.
Lemma owner_len o : valid_owner o = true -> byte_len o <= 37.
Proof.
  unfold valid_owner, labeled_owner. intros H. apply orb_true_iff in H as [H|H]; [apply orb_true_iff in H as [H|H]|].
  - apply teqb_eq in H as ->. by apply Z.leb_le.
  - guards. lia.
  - destruct (strip_prefix (T "user_") o) as [rest|] eqn:E; [|done]. apply strip_prefix_spec in E. subst o. guards. rewrite byte_len_app.
    change (byte_len (T "user_")) with 5. lia.
Qed.
Lemma small_u64_len n : 0 <= n <= 10 -> u64_len n <= 2.
Proof.
  intros H. assert (Hall : Forall (fun n => u64_len n <= 2) (seqZ 0 11)) by (repeat (constructor; [by apply Z.leb_le|]); constructor).
  rewrite Forall_forall in Hall. apply Hall, elem_of_seqZ. lia.
Qed.

(** Replace every printed string by its bound. *)
Ltac bound_strings :=
  repeat match goal with
  | |- context [string_len ?s] => let n := fresh "n" in pose proof (string_len_bound _ _ json_laws s); set (n := string_len s) in *; clearbody n
  | |- context [f64_len ?x] => let n := fresh "n" in pose proof (f64_len_bound _ _ json_laws x); set (n := f64_len x) in *; clearbody n
  end;
  repeat match goal with
  | H : context [byte_len (T ?k)] |- _ => let v := eval vm_compute in (byte_len (T k)) in change (byte_len (T k)) with v in H
  end.

Lemma completion_fits c : valid_completion c = true -> completion_len string_len f64_len c <= 1100.
Proof using json_laws.
  unfold valid_completion, is_lower_hex. intros H. guards. pose proof (owner_len (c_owner c) ltac:(assumption)).
  assert (Hs : byte_len (status_text (c_status c)) <= 16) by (destruct (c_status c); by apply Z.leb_le).
  unfold completion_len, object_len, member. cbn [sum_of foldr length]. bound_strings. lia.
Qed.

Lemma delivery_fits d : proven d -> within 3 10 d -> tidy d -> byte_len (delivery_id d) = 64 /\ delivery_len string_len f64_len d <= 5500.
Proof using json_laws sha_hex.
  intros [(sp & priv & Hrev & Hdi & Hgid & _) [_ Hvo] Hvc Hev Hkey] [Ha Hr] [_ Hcode].
  assert (H1 : byte_len (delivery_id d) = 64) by (rewrite Hkey; apply hex_len). assert (H2 : byte_len (event_id d) = 64) by (rewrite Hev; apply hex_len).
  assert (H3 : byte_len (destination_revision d) = 64) by (rewrite Hrev; apply hex_len).
  assert (H4 : byte_len (destination_id d) <= 64) by (rewrite Hdi; unfold good_id in Hgid; guards; done).
  apply owner_len in Hvo. apply completion_fits in Hvc. pose proof (small_u64_len (attempts d) ltac:(lia)). pose proof (small_u64_len (replays d) Hr).
  assert (Hst : byte_len (state_text (d_state d)) <= 16) by (destruct (d_state d); by apply Z.leb_le).
  assert (Hc : match last_code d with Some c => string_len c | None => 4 end <= 386).
  { destruct (last_code d) as [c|]; [|lia]. pose proof (string_len_bound _ _ json_laws c). lia. }
  split; [exact H1|]. unfold delivery_len, object_len, member. set (code := match last_code d with Some c => string_len c | None => 4 end) in *. clearbody code.
  cbn [sum_of foldr length]. bound_strings. lia.
Qed.

Lemma sane_fits s : sane s -> outbox_len string_len f64_len (box s) <= MAX_OUTBOX_BYTES.
Proof using json_laws sha_hex.
  intros [_ Hk Hr Hsz [Hs8 Hst] _].
  assert (Hd : object_len (map (fun '(id, d) => member string_len id (delivery_len string_len f64_len d)) (map_to_list (deliveries (box s)))) <= 2 + (6000 + 1) * Z.of_nat 512).
  { apply object_len_bound; [done | | by rewrite length_map, length_map_to_list]. apply Forall_map, Forall_forall. intros [id d] Hin%elem_of_map_to_list.
    destruct (Hr id d Hin) as (H1 & H2 & H3). destruct (delivery_fits d H1 H2 H3) as [Hid Hlen]. rewrite (Hk id d Hin) in Hid.
    cbn. unfold member. pose proof (string_len_bound _ _ json_laws id). lia. }
  assert (Hn : object_len (map (fun '(id, t) => member string_len id (f64_len t)) (map_to_list (next_send_at (box s)))) <= 2 + (500 + 1) * Z.of_nat 8).
  { apply object_len_bound; [done | | by rewrite length_map, length_map_to_list]. apply Forall_map, Forall_forall. intros [id t] Hin%elem_of_map_to_list.
    destruct (Hst id t Hin) as [_ Hid]. cbn. unfold member. pose proof (string_len_bound _ _ json_laws id). pose proof (f64_len_bound _ _ json_laws t). lia. }
  unfold outbox_len. set (ds := object_len _) in Hd |- *. set (ns := object_len _) in Hn |- *. clearbody ds ns.
  unfold object_len, member, MAX_OUTBOX_BYTES. cbn [sum_of foldr length]. bound_strings. lia.
Qed.
End Fits.
End Notifications.


(** ** One subscriber *)
Module SmallNotifications.
Import SmallUrl.

Definition flat_grant (s : DestinationSpec) (p : bool) : text := spec_id s ++ [c_colon] ++ spec_owner s ++ [if p then 1 else if enabled s then 2 else 3].
Definition flat_completion (c : completion) : text := c_owner c ++ [c_colon] ++ c_job_id c.
(** Strings with the escapes of JSON; a number with a fraction, cut where an
    [f64] goes over to an exponent. *)
Definition escape_len (c : char) : Z := if (c =? 34) || (c =? 92) then 2 else if c <? 32 then 6 else utf8_width c.
Definition quoted_len (s : text) : Z := 2 + foldr (fun c n => escape_len c + n) 0 s.
Definition number_len (t : Z) : Z := Z.min 24 (u64_len (Z.abs t) + 3).
Definition no_payload (_ : list Delivery) : Z := 0.

Definition hook : DestinationSpec := MkSpec (T "hook") (T "local") true (T "https://hooks.example.org/h") [Finished; Failed] true 60.
Definition other_hook : DestinationSpec :=
  MkSpec (T "other") (T "0123456789abcdef0123456789abcdef") true (T "https://b.example.org/h") [Finished] true 60.
Definition small_numbers (key : text) : option Z := if teqb key (T "notifications.retention_sec") then Some 3600 else Some 2.
Definition small_config : Config :=
  MkConfig (Some 1) [] (Some [hook; other_hook]) (Some []) small_numbers (Ok ∅)
    (Ok {[T "hook" := T "s1"; T "other" := T "s2"]}) (Ok (Some (T "legacy"))).
Definition load_small (f : Config) : result harness_error Settings := load_settings small_sha flat_grant 1 f.
Definition small_settings : Settings := match load_small small_config with Ok c => c | Err _ => MkSettings [] 0 0 0 0 0 0 0 0 0 0 0 end.

Definition job_done : completion := MkCompletion (T "local") (T "00112233445566778899aabbccddeeff") Finished 5 10.
Definition outside_now : Outside := MkOutside None ∅ (Ok small_config) true false.
(** The endpoint is in trouble until [up]. *)
Definition moment (up : nat) (k : nat) : oracle :=
  MkOracle outside_now (Z.of_nat k) (MkDisk false Committed) false (fun _ => 0) (DnsAddresses [V4 134744072]) true
    (HttpStatus (if (up <=? k)%nat then 200 else 503)) (fun _ => Z.of_nat k).
Definition small_run (up n : nat) (s : Sys) : Sys * list event_label :=
  run small_sha flat_grant 1 flat_completion (outbox_len quoted_len number_len) no_payload ((Enqueue job_done, moment up 10) :: map (fun k => (Work, moment up k)) (seq 11 n)) s.
Definition job_row : text := delivery_key small_sha (completion_event_id small_sha flat_completion job_done) (T "hook") (revision_of small_sha flat_grant hook false).

Lemma json_laws : JsonLaws quoted_len number_len.
Proof.
  split; [|unfold number_len; lia]. intros s. unfold quoted_len.
  assert (Hc : forall c, escape_len c <= 6 * utf8_width c).
  { intros c. unfold escape_len. pose proof (utf8_width_pos c). repeat case_match; lia. }
  induction s as [|c s IH]; [done|]. cbn [foldr byte_len]. specialize (Hc c). lia.
Qed.
Lemma loads : loaded small_sha flat_grant 1 small_settings.
Proof. exists small_config. vm_compute. reflexivity. Qed.
Lemma no_restarts up n : loaded_restarts small_sha flat_grant 1 ((Enqueue job_done, moment up 10) :: map (fun k => (Work, moment up k)) (seq 11 n)).
Proof. constructor; [done|]. apply Forall_forall. intros [a o] Hin. apply list_elem_of_In, in_map_iff in Hin as (k & [= <- <-] & _). by intros c E. Qed.
Lemma moments_sane up n : Forall (fun '(_, o) => sane_oracle o) ((Enqueue job_done, moment up 10) :: map (fun k => (Work, moment up k)) (seq 11 n)).
Proof.
  assert (Hm : forall k, sane_oracle (moment up k)) by (intros k; split; [|split]; intros; cbn; lia).
  constructor; [apply Hm|]. apply Forall_forall. intros [a o] Hin. apply list_elem_of_In, in_map_iff in Hin as (k & [= <- <-] & _). apply Hm.
Qed.
Lemma moments_fair up : fair (moment up).
Proof.
  constructor; cbn; try done; try (intros; lia).
  - intros k. split; [|split]; intros; cbn; lia.
  - intros t. exists (Z.to_nat t). lia.
Qed.

Lemma hex_digits n : 0 <= n < 16 -> is_hex_char (hex_upper n) = true /\ hex_upper n < 128.
Proof.
  intros Hn. unfold hex_upper, is_hex_char, is_lower_hex_char, is_ascii_digit, in_range.
  destruct (Z.ltb_spec n 10); split; try lia; repeat (rewrite orb_true_iff || rewrite andb_true_iff || rewrite Z.leb_le); lia.
Qed.
Lemma small_sha_hex t : byte_len (small_sha t) = 64 /\ forallb is_hex_char (small_sha t) = true.
Proof.
  unfold small_sha. generalize (foldl (fun h c => (h * 131 + c) mod 2 ^ 64) 7 t) as h. intros h.
  assert (Hd : forall i, 0 <= h / 16 ^ i mod 16 < 16) by (intros i; apply Z.mod_pos_bound; lia). split.
  - rewrite byte_len_ascii; [by rewrite length_map, length_seqZ|]. apply Forall_forall. intros c Hc.
    apply list_elem_of_In, in_map_iff in Hc as (i & <- & _). by apply hex_digits.
  - apply forallb_forall. intros c Hc. apply in_map_iff in Hc as (i & <- & _). by apply hex_digits.
Qed.

(** Two attempts fail, a third would have gone through. *)
Lemma posts_bounded_witness :
  posts job_row (snd (small_run 40 20 (fresh small_settings))) = 2
  /\ inserts job_row (snd (small_run 40 20 (fresh small_settings))) = 1
  /\ posts job_row (snd (small_run 40 20 (fresh small_settings))) <= 33 * inserts job_row (snd (small_run 40 20 (fresh small_settings))).
Proof.
  split; [vm_compute; reflexivity|]. split; [vm_compute; reflexivity|]. unfold small_run.
  exact (posts_bounded small_sha flat_grant 1 flat_completion (outbox_len quoted_len number_len) no_payload small_settings _ job_row loads (no_restarts 40 20)).
Defined.

Lemma outbox_always_reopens_witness :
  base.size (deliveries (box (fst (small_run 40 20 (fresh small_settings))))) = 1%nat
  /\ open_ok small_sha flat_completion (box (fst (small_run 40 20 (fresh small_settings)))) = true.
Proof.
  split; [vm_compute; reflexivity|]. unfold small_run.
  exact (outbox_always_reopens small_sha flat_grant 1 flat_completion (outbox_len quoted_len number_len) no_payload small_settings _ small_sha_hex eq_refl loads
           (no_restarts 40 20) (moments_sane 40 20)).
Defined.

Lemma posts_only_granted_witness :
  exists dest addresses batch out, Posted dest addresses batch out ∈ snd (small_run 40 20 (fresh small_settings))
    /\ authorized small_sha flat_grant 1 out dest = true /\ allowed_addresses addresses (private dest) = true.
Proof.
  assert (H : match nth_error (snd (small_run 40 20 (fresh small_settings))) 1 with Some (Posted _ _ _ _) => true | _ => false end = true)
    by (vm_compute; reflexivity).
  destruct (nth_error (snd (small_run 40 20 (fresh small_settings))) 1) as [[i|dest addresses batch out]|] eqn:E; [discriminate H | clear H | discriminate H].
  apply nth_error_In, list_elem_of_In in E. exists dest, addresses, batch, out. split; [exact E|].
  destruct (posts_only_granted small_sha flat_grant 1 flat_completion (outbox_len quoted_len number_len) no_payload small_settings _ dest addresses batch out eq_refl loads
              (no_restarts 40 20) (moments_sane 40 20) E) as (H1 & H2 & _).
  split; [exact H1 | exact H2].
Defined.

Lemma bearers_isolated_witness : exists d, d ∈ destinations small_settings /\ wants_bearer d = true /\ bearer d = Some (T "s1").
Proof.
  assert (H : match destinations small_settings with d :: _ => wants_bearer d && teqb (spec_id (spec d)) (T "hook") | [] => false end = true)
    by (vm_compute; reflexivity).
  assert (Hl : load_small small_config = Ok small_settings) by (vm_compute; reflexivity).
  destruct (destinations small_settings) as [|d ds] eqn:E; [discriminate H|]. apply andb_true_iff in H as [Hw Hid%teqb_eq]. exists d.
  assert (Hd : d ∈ destinations small_settings) by (rewrite E; apply list_elem_of_here). rewrite E in Hd. split; [exact Hd|]. split; [exact Hw|].
  rewrite <- E in Hd. destruct (bearers_isolated small_sha flat_grant 1 small_config small_settings d Hl Hd Hw) as (secret & tokens & Ht & Hb & _ & Hcase).
  apply Ok_inj in Ht. subst tokens. rewrite Hid in Hcase. rewrite Hb. destruct Hcase as [Hc|(Hn & _)]; [|discriminate Hn]. exact (eq_sym Hc).
Defined.

End SmallNotifications.
