(* ===== verification/Schedules.v ===== *)
(** Recurring jobs, [server/agent_schedules.rs]: the preview that a schedule
    is activated from, the durable rows, recovery after a restart, and the
    dispatch of a due occurrence.

    Every operation of the store holds its lock, so an operation runs as one
    step on the world: the rows, the pending previews and the file.  The trace
    records the calls of the two callbacks of a dispatch and every attempt to
    write the file; [disk_ok n] says whether the [n]-th one succeeds (the
    write is atomic: a failed one leaves the file as it was).  Times are [f64]
    seconds in the source and exact integers here, [tick] to the second; the
    finiteness tests and the [f64::EPSILON] slack of [due] are vacuous.  The
    derived serialisation is a parameter, as are equality of the
    requests' JSON values and the calendar (see ScheduleTime). *)

From S2P Require Import Prelude Text Effects ScheduleTime Owners.
Local Open Scope Z_scope.

Definition ACTIVE : text := T "active".
Definition CANCELLED : text := T "cancelled".
Definition EXHAUSTED : text := T "exhausted".

Inductive DispatchOutcome := Accepted | Revoked | Refused.
#[export] Instance DispatchOutcome_eq_dec : EqDecision DispatchOutcome.
Proof. solve_decision. Defined.
#[export] Instance ScheduleSpec_eq_dec : EqDecision ScheduleSpec.
Proof. solve_decision. Defined.

Record Settings := MkSettings {
  poll_interval_ms : Z;
  dispatch_grace_secs : Z;
  preview_ttl_secs : Z;
  max_previews : nat;
  max_schedules : nat;
}.

(** One bounded setting, from the configuration or the shipped defaults. *)
Definition setting (cfg defaults : text -> option json) (name : string) (lo hi : Z) : result harness_error Z :=
  let key := T "scheduling." ++ T name in
  let value := match cfg key with Some v => Some v | None => defaults key end in
  match value ≫= as_u64 with
  | Some v => if (lo <=? v) && (v <=? hi) then Ok v else Err err_harness_config
  | None => Err err_harness_config
  end.

Definition from_config (cfg defaults : text -> option json) : result harness_error Settings :=
  _ ← refuse_if (match cfg (T "scheduling") with Some (JObj _) | None => false | Some _ => true end)
                err_harness_config;
  poll ← setting cfg defaults "poll_interval_ms" 250 5000;
  grace ← setting cfg defaults "dispatch_grace_secs" 5 30;
  ttl ← setting cfg defaults "preview_ttl_secs" 30 900;
  previews ← setting cfg defaults "max_previews" 1 128;
  schedules ← setting cfg defaults "max_schedules" 1 128;
  mret (MkSettings poll grace ttl (Z.to_nat previews) (Z.to_nat schedules)).

Record Preview := MkPreview {
  p_owner : text;
  p_spec : ScheduleSpec;
  p_request : json;
  anchor : Z;
  expires : Z;
  occurrences : list Occurrence;
}.

Definition MAX_FILE_BYTES : Z := 16 * 1024 * 1024.

Record Schedule := MkSchedule {
  schedule_id : text;
  schema_version : Z;
  schedule : option ScheduleSpec;
  next_occurrence_id : text;
  last_occurrence_id : option text;
  last_dispatch : option text;
  interval_secs : Z;
  request : json;
  next_fire_at : Z;
  last_fired_at : option Z;
  created_at : Z;
  status : text;
  owner : text;
}.

(** ** Assignments to a row *)

Definition set_status (r : Schedule) (s : text) : Schedule :=
  MkSchedule (schedule_id r) (schema_version r) (schedule r) (next_occurrence_id r) (last_occurrence_id r)
    (last_dispatch r) (interval_secs r) (request r) (next_fire_at r) (last_fired_at r) (created_at r) s (owner r).
Definition set_dispatch (r : Schedule) (d : text) : Schedule :=
  MkSchedule (schedule_id r) (schema_version r) (schedule r) (next_occurrence_id r) (last_occurrence_id r)
    (Some d) (interval_secs r) (request r) (next_fire_at r) (last_fired_at r) (created_at r) (status r) (owner r).
(** The occurrence is behind us: record it and what became of it. *)
Definition set_fired (r : Schedule) (d : text) : Schedule :=
  MkSchedule (schedule_id r) (schema_version r) (schedule r) (next_occurrence_id r) (Some (next_occurrence_id r))
    (Some d) (interval_secs r) (request r) (next_fire_at r) (Some (next_fire_at r)) (created_at r) (status r) (owner r).
Definition set_next (r : Schedule) (o : Occurrence) : Schedule :=
  MkSchedule (schedule_id r) (schema_version r) (schedule r) (identity o) (last_occurrence_id r)
    (last_dispatch r) (interval_secs r) (request r) (at_time o) (last_fired_at r) (created_at r) (status r) (owner r).

(** [format!("{:.0}", n / d)]: the nearest integer, ties to even. *)
Definition round_quotient (n d : Z) : Z :=
  let q := n / d in
  let r := n mod d in
  if 2 * r <? d then q else if d <? 2 * r then q + 1 else if Z.even q then q else q + 1.

(** What happened at a callback or at the disk. *)
Inductive act :=
| Gated
| Wrote (rows : list Schedule) (ok : bool)
| Started (id : text) (fire : Z).

Section Store.
Context (chrono : Chrono) (tick : Z).
Context (bytes : Type) (size_of : bytes -> Z) (to_vec : list Schedule -> bytes)
        (from_str : bytes -> option (list Schedule)).
Context (value_eqb : json -> json -> bool) (disk_ok : nat -> bool) (settings : Settings).

Record World := MkWorld {
  rows : gmap text Schedule;
  previews : gmap text Preview;
  file : option bytes;
  writes : nat;
}.

Abbreviation m := (eff World act harness_error).

Definition with_rows (g : gmap text Schedule) (w : World) : World := MkWorld g (previews w) (file w) (writes w).
Definition with_previews (p : gmap text Preview) (w : World) : World := MkWorld (rows w) p (file w) (writes w).

Definition sched_err (e : schedule_error) : harness_error :=
  err_code (match e with Invalid => "INVALID_SCHEDULE" | Exhausted => "SCHEDULE_EXHAUSTED" end).

Definition validate_spec (spec : ScheduleSpec) : result harness_error unit :=
  map_err sched_err (validate chrono spec).
Definition next_of (spec : ScheduleSpec) (after anchor : Z) : result harness_error Occurrence :=
  map_err sched_err (next chrono tick spec after anchor).

(** Move the row to its next occurrence after [now], or end it. *)
Definition advance (spec : ScheduleSpec) (now : Z) (r : Schedule) : Schedule :=
  match next_of spec now (created_at r) with
  | Ok o => set_next r o
  | Err _ => set_status r EXHAUSTED
  end.

Definition values (g : gmap text Schedule) : list Schedule := omap (fun k => g !! k) (sorted_keys g).

Definition persist (g : gmap text Schedule) : m unit :=
  let b := to_vec (values g) in
  if MAX_FILE_BYTES <? size_of b then fail err_harness_config else
  ok ← asks (fun w => disk_ok (writes w));
  call (Wrote (values g) ok)
    (fun w => if ok then (MkWorld (rows w) (previews w) (Some b) (S (writes w)), Ok tt)
              else (MkWorld (rows w) (previews w) (file w) (S (writes w)), Err (err_code "IO_ERROR"))).

(** ** Recovery *)

Definition spec_of_row (row : Schedule) : result harness_error ScheduleSpec :=
  match schema_version row, schedule row with
  | 0, None => Ok (Interval (interval_secs row))
  | 1, Some spec => Ok spec
  | _, _ => Err err_harness_config
  end.

Definition upgrade (row : Schedule) (spec : ScheduleSpec) : Schedule :=
  if schema_version row =? 0
  then MkSchedule (schedule_id row) 1 (Some spec)
         (T "interval:" ++ show_Z (round_quotient (next_fire_at row - created_at row) (interval_secs row * tick)))
         (last_occurrence_id row) (last_dispatch row) (interval_secs row) (request row) (next_fire_at row)
         (last_fired_at row) (created_at row) (status row) (owner row)
  else row.

Definition row_metadata_ok (row : Schedule) : bool :=
  negb ((created_at row <? 0) || (next_fire_at row <=? created_at row)
        || match last_fired_at row with Some v => v <? 0 | None => false end
        || (negb (teqb (owner row) []) && negb (valid_owner (owner row)))).

Definition recover_row (now : Z) (row : Schedule) : result harness_error Schedule :=
  _ ← refuse_if (negb (is_lower_hex (schedule_id row) 32)) err_harness_config;
  _ ← refuse_if (negb (existsb (teqb (status row)) [ACTIVE; CANCELLED; EXHAUSTED])) err_harness_config;
  _ ← refuse_if (negb (row_metadata_ok row)) err_harness_config;
  spec ← spec_of_row row;
  _ ← validate_spec spec;
  let row := upgrade row spec in
  _ ← refuse_if ((byte_len (next_occurrence_id row) =? 0) || (128 <? byte_len (next_occurrence_id row)))
                err_harness_config;
  mret (if teqb (status row) ACTIVE && (next_fire_at row <=? now)
        then advance spec now (set_fired row (T "skipped_downtime"))
        else row).

Fixpoint recover_rows (now : Z) (parsed : list Schedule) (g : gmap text Schedule)
    : result harness_error (gmap text Schedule) :=
  match parsed with
  | [] => Ok g
  | row :: rest =>
      r ← recover_row now row;
      if bool_decide (is_Some (g !! schedule_id r)) then Err err_harness_config
      else recover_rows now rest (<[schedule_id r := r]> g)
  end.

Definition recovered (now : Z) (b : option bytes) : result harness_error (gmap text Schedule) :=
  match b with
  | None => Ok ∅
  | Some b =>
      _ ← refuse_if (MAX_FILE_BYTES <? size_of b) err_harness_config;
      parsed ← ok_or (from_str b) err_harness_config;
      _ ← refuse_if (max_schedules settings <? length parsed)%nat err_harness_config;
      recover_rows now parsed ∅
  end.

(** A new process: of the old one only the file is left. *)
Definition open_at (now : Z) : m unit :=
  _ ← update (fun w => MkWorld ∅ ∅ (file w) (writes w));
  b ← asks file;
  g ← lift (recovered now b);
  _ ← persist g;
  update (with_rows g).

(** ** Creation *)

Definition interval_of (spec : ScheduleSpec) : Z := match spec with Interval s => s | Cron _ _ => 0 end.

(** [retain], when the table is full. *)
Definition make_room (g : gmap text Schedule) : gmap text Schedule :=
  if (max_schedules settings <=? size g)%nat then filter (fun kr => status kr.2 = ACTIVE) g else g.

Definition create_spec (fresh : text) (spec : ScheduleSpec) (req : json) (o : text) (anchor now : Z) : m Schedule :=
  if negb (valid_owner o) then fail err_harness_config else
  occ ← lift (next_of spec now anchor);
  previous ← asks rows;
  let g := make_room previous in
  _ ← update (with_rows g);
  if (max_schedules settings <=? size g)%nat then fail (err_code "SCHEDULE_LIMIT") else
  let row := MkSchedule fresh 1 (Some spec) (identity occ) None None (interval_of spec) req (at_time occ) None
                        anchor ACTIVE o in
  let g := <[fresh := row]> g in
  _ ← update (with_rows g);
  r ← catch (persist g);
  match r with
  | Err e => _ ← update (with_rows previous); fail e
  | Ok _ => mret row
  end.

Fixpoint occurrences_of (n : nat) (spec : ScheduleSpec) (after anchor : Z) : result harness_error (list Occurrence) :=
  match n with
  | O => Ok []
  | S n =>
      o ← next_of spec after anchor;
      rest ← occurrences_of n spec (at_time o) anchor;
      mret (o :: rest)
  end.

(** The [occurrences[0]] of the source; indexing an empty vector panics. *)
Definition first_of (l : list Occurrence) : result harness_error Occurrence := ok_or (head l) (err_code "PANIC").

Definition preview (token : text) (spec : ScheduleSpec) (req : json) (o : text) (now : Z)
    : m (text * ScheduleSpec * Z * list Occurrence) :=
  if negb (valid_owner o) then fail err_harness_config else
  occs ← lift (occurrences_of 5 spec now now);
  first ← lift (first_of occs);
  let exp := Z.min (now + preview_ttl_secs settings * tick) (at_time first) in
  ps ← asks previews;
  let ps := filter (fun kp => now < expires kp.2) ps in
  _ ← update (with_previews ps);
  if (max_previews settings <=? size ps)%nat then fail (err_code "SCHEDULE_PREVIEW_LIMIT") else
  _ ← update (with_previews (<[token := MkPreview o spec req now exp occs]> ps));
  mret (token, spec, exp, occs).

Definition preview_matches (p : Preview) (spec : ScheduleSpec) (req : json) (o : text) (now : Z) : bool :=
  teqb (p_owner p) o && (now <? expires p) && (anchor p <=? now) && bool_decide (p_spec p = spec)
  && value_eqb (p_request p) req.

Definition activate (fresh id' : text) (spec : ScheduleSpec) (req : json) (o : text) (now : Z) : m Schedule :=
  ps ← asks previews;
  match ps !! id' with
  | None => fail (err_code "SCHEDULE_PREVIEW_REQUIRED")
  | Some p =>
      if negb (preview_matches p spec req o now) then fail (err_code "SCHEDULE_PREVIEW_REQUIRED") else
      first ← lift (first_of (occurrences p));
      if at_time first <=? now then fail (err_code "SCHEDULE_PREVIEW_REQUIRED") else
      created ← create_spec fresh spec req o (anchor p) now;
      _ ← update (with_previews (delete id' ps));
      mret created
  end.

(** ** Reading and cancelling *)

Definition owned (o : text) (r : Schedule) : bool := negb (teqb o []) && teqb (owner r) o.

Definition get_schedule (w : World) (o id' : text) : option Schedule :=
  r ← rows w !! id'; if owned o r then Some r else None.

Definition newest_first (a b : Schedule) : Prop := created_at b <= created_at a.
#[export] Instance newest_first_dec a b : Decision (newest_first a b) := decide (created_at b <= created_at a).

Definition list_schedules (w : World) (o : text) : list Schedule :=
  merge_sort newest_first (List.filter (owned o) (values (rows w))).

Definition cancel (o id' : text) : m (option Schedule) :=
  g ← asks rows;
  match g !! id' with
  | None => mret None
  | Some r =>
      if negb (owned o r) then mret None else
      let g' := <[id' := set_status r CANCELLED]> g in
      _ ← update (with_rows g');
      res ← catch (persist g');
      match res with
      | Err e => _ ← update (with_rows (<[id' := set_status (set_status r CANCELLED) (status r)]> g')); fail e
      | Ok _ => mret (Some (set_status r CANCELLED))
      end
  end.

Definition owner_active (o : text) (r : Schedule) : bool := teqb (owner r) o && teqb (status r) ACTIVE.

Definition cancel_owner (o : text) : m nat :=
  if negb (valid_owner o) then mret 0%nat else
  previous ← asks rows;
  let g := (fun r => if owner_active o r then set_status r CANCELLED else r) <$> previous in
  let count := length (List.filter (owner_active o) (values previous)) in
  _ ← update (with_rows g);
  if (count =? 0)%nat then mret 0%nat else
  res ← catch (persist g);
  match res with
  | Err e => _ ← update (with_rows previous); fail e
  | Ok _ => mret count
  end.

Definition due (w : World) (now : Z) : list Schedule :=
  List.filter (fun r => teqb (status r) ACTIVE && (next_fire_at r <=? now)) (values (rows w)).

(** ** Dispatch *)

(** The row is still the one that was found due. *)
Definition still_due (row d : Schedule) (now : Z) : bool :=
  teqb (status row) ACTIVE && (next_fire_at row =? next_fire_at d)
  && teqb (next_occurrence_id row) (next_occurrence_id d) && (next_fire_at row <=? now).

Definition timely (row : Schedule) (now : Z) : bool :=
  now - next_fire_at row <=? dispatch_grace_secs settings * tick.

Definition reserved (row : Schedule) (now : Z) (outcome : DispatchOutcome) : text :=
  if negb (timely row now) && negb (bool_decide (outcome = Refused)) then T "skipped_late" else T "skipped_refused".

(** The row of a revoked owner. *)
Definition revoked_row (row : Schedule) : Schedule := set_fired (set_status row CANCELLED) (T "skipped_revoked").

(** The row after the start callback answered. *)
Definition outcome_row (started : DispatchOutcome) (r : Schedule) : Schedule :=
  match started with
  | Accepted => set_dispatch r (T "attempted")
  | Revoked => set_dispatch (set_status r CANCELLED) (T "skipped_revoked")
  | Refused => set_dispatch r (T "skipped_refused")
  end.

(** Write the rows with [r] in them; put [previous] back when that fails. *)
Definition replace_row (id' : text) (r previous : Schedule) : m bool :=
  g ← asks rows;
  let g' := <[id' := r]> g in
  _ ← update (with_rows g');
  res ← catch (persist g');
  match res with
  | Err _ => _ ← update (with_rows (<[id' := previous]> g')); mret false
  | Ok _ => mret true
  end.

Definition start_run (d row : Schedule) (start : DispatchOutcome) : m (option DispatchOutcome) :=
  started ← call (Started (schedule_id d) (next_fire_at row)) (fun w => (w, Ok start));
  _ ← update (fun w => with_rows (alter (outcome_row started) (schedule_id d) (rows w)) w);
  g ← asks rows;
  _ ← catch (persist g);
  mret (Some started).

Definition consume_and_dispatch (d : Schedule) (now : Z) (gate start : DispatchOutcome) : m (option DispatchOutcome) :=
  g ← asks rows;
  match g !! schedule_id d with
  | None => mret None
  | Some row =>
      if negb (still_due row d now) then mret None else
      outcome ← call Gated (fun w => (w, Ok gate));
      if bool_decide (outcome = Revoked) then
        saved ← replace_row (schedule_id d) (revoked_row row) row;
        mret (if (saved : bool) then Some Revoked else None)
      else
        let consumed := set_fired row (reserved row now outcome) in
        match schedule consumed with
        | None => _ ← update (with_rows (<[schedule_id d := consumed]> g)); mret None
        | Some spec =>
            saved ← replace_row (schedule_id d) (advance spec now consumed) row;
            if negb saved then mret None else
            if bool_decide (outcome = Refused) || negb (timely row now)
            then mret (if bool_decide (outcome = Refused) then Some Refused else None)
            else start_run d row start
        end
  end.

(** ** Lemmas *)

Lemma next_of_after spec after anchor o : next_of spec after anchor = Ok o -> after < at_time o.
Proof.
  unfold next_of. destruct (next _ _ _ _ _) as [o'|e] eqn:E; [|done]. intros [= <-].
  destruct spec as [s|x t].
  - unfold next in E. apply bind_Ok_inv in E as (_ & _ & E). destruct (_ || _); [done|].
    case_match; [done|]. apply bind_Ok_inv in E as (shown & _ & E). injection E as <-. simpl. guards. lia.
  - apply next_cron_inv in E as (cal & z & w & c & u & _ & _ & _ & _ & -> & H). exact H.
Qed.

(** The runs that were started, in order. *)
Definition starts (l : list (effect act)) : list (text * Z) :=
  omap (fun e => match e with Did (Started k t) => Some (k, t) | _ => None end) l.

Lemma starts_app l l' : starts (l ++ l') = starts l ++ starts l'.
Proof. apply omap_app. Qed.

Lemma values_elem g r : r ∈ values g <-> exists k, g !! k = Some r.
Proof.
  unfold values. rewrite list_elem_of_omap. split; [intros (k & _ & H); eauto|].
  intros (k & H). exists k. split; [|done]. apply elem_of_sorted_keys. eauto.
Qed.

Lemma persist_spec g s s' r :
  persist g s = (s', r) ->
  rows (world s') = rows (world s) /\ previews (world s') = previews (world s)
  /\ match r with
     | Ok _ => file (world s') = Some (to_vec (values g)) /\ trace s' = trace s ++ [Did (Wrote (values g) true)]
     | Err _ => file (world s') = file (world s)
                /\ (trace s' = trace s \/ trace s' = trace s ++ [Did (Wrote (values g) false)])
     end.
Proof.
  unfold persist. destruct (_ <? _).
  - intros [= <- <-]. split_and!; try done. by left.
  - unfold mbind, eff_bind, asks, call. destruct (disk_ok _); intros [= <- <-]; simpl; split_and!; try done. by right.
Qed.

Lemma replace_row_spec id' r previous s s' res :
  rows (world s) !! id' = Some previous ->
  replace_row id' r previous s = (s', res) ->
  previews (world s') = previews (world s)
  /\ ((res = Ok true /\ rows (world s') = <[id' := r]> (rows (world s))
       /\ file (world s') = Some (to_vec (values (<[id' := r]> (rows (world s)))))
       /\ trace s' = trace s ++ [Did (Wrote (values (<[id' := r]> (rows (world s)))) true)])
      \/ (res = Ok false /\ rows (world s') = rows (world s) /\ file (world s') = file (world s)
          /\ starts (trace s') = starts (trace s))).
Proof.
  intros Hp. unfold replace_row, mbind, eff_bind, asks, update, catch. cbn [world trace].
  set (g' := <[id' := r]> (rows (world s))).
  destruct (persist g' _) as [s1 [u|e]] eqn:E; apply persist_spec in E as (H1 & H2 & H3 & H4); simpl in *.
  - intros [= <- <-]. split; [done|]. left. done.
  - intros [= <- <-]. simpl. split; [done|]. right. split; [done|]. split.
    + unfold g'. by rewrite insert_insert_eq, insert_id.
    + split; [done|]. destruct H4 as [-> | ->]; [done|]. rewrite starts_app. simpl. by rewrite app_nil_r.
Qed.

(** ** At most once *)

(** Rows are stored under their own identifiers. *)
Definition keyed (g : gmap text Schedule) : Prop := forall k r, g !! k = Some r -> schedule_id r = k.

(** The rows in memory and those that a restart would read. *)
Definition src (w : World) (r : Schedule) : Prop :=
  (exists k, rows w !! k = Some r)
  \/ (exists b parsed, file w = Some b /\ from_str b = Some parsed /\ r ∈ parsed).

(** An active row was active before and fires no earlier. *)
Definition progress (r r' : Schedule) : Prop :=
  schedule_id r' = schedule_id r
  /\ (status r' = ACTIVE -> status r = ACTIVE /\ next_fire_at r <= next_fire_at r').

Definition derived (w : World) (fresh : option text) (r' : Schedule) : Prop :=
  (exists r, src w r /\ progress r r') \/ fresh = Some (schedule_id r').

Definition all_derived (w : World) (fresh : option text) (g : gmap text Schedule) : Prop :=
  keyed g /\ forall k r', g !! k = Some r' -> derived w fresh r'.

Lemma progress_refl r : progress r r.
Proof. split; [done|]. intros H. split; [done | lia]. Qed.

Lemma set_status_progress r t : t <> ACTIVE -> progress r (set_status r t).
Proof. intros H. split; [done|]. simpl. done. Qed.

Lemma advance_progress spec now r : next_fire_at r <= now -> progress r (advance spec now r).
Proof.
  intros H. unfold advance. destruct (next_of spec now (created_at r)) as [o|e] eqn:E.
  - apply next_of_after in E. split; [done|]. simpl. intros Ha. split; [done | lia].
  - by apply set_status_progress.
Qed.

Lemma advance_later spec now r :
  next_fire_at r <= now -> status (advance spec now r) = ACTIVE -> now < next_fire_at (advance spec now r).
Proof.
  intros H. unfold advance. destruct (next_of spec now (created_at r)) as [o|e] eqn:E; [|done].
  apply next_of_after in E. done.
Qed.

Lemma src_row w k r : rows w !! k = Some r -> src w r.
Proof. left. eauto. Qed.

Lemma derived_self w fresh k r : rows w !! k = Some r -> derived w fresh r.
Proof. intros H. left. exists r. split; [by eapply src_row | apply progress_refl]. Qed.

Lemma all_derived_self w fresh : keyed (rows w) -> all_derived w fresh (rows w).
Proof. intros H. split; [done|]. intros k r'. apply derived_self. Qed.

Lemma all_derived_insert w fresh g k r :
  all_derived w fresh g -> schedule_id r = k -> derived w fresh r -> all_derived w fresh (<[k := r]> g).
Proof.
  intros [Hk Hd] Hi Hr. split; intros k' r'; destruct (decide (k' = k)) as [->|Hne];
    rewrite ?lookup_insert_eq, ?lookup_insert_ne by done; [by intros [= <-] | apply Hk | by intros [= <-] | apply Hd].
Qed.

(** An operation that starts nothing. *)
Definition step_ok (fresh : option text) (s s' : st World act) : Prop :=
  keyed (rows (world s')) /\ starts (trace s') = starts (trace s)
  /\ forall r', src (world s') r' -> derived (world s) fresh r'.

(** An operation that starts the occurrence of [k] at [t]. *)
Definition step_start (k : text) (t : Z) (s s' : st World act) : Prop :=
  keyed (rows (world s')) /\ starts (trace s') = starts (trace s) ++ [(k, t)]
  /\ (exists row, rows (world s) !! k = Some row /\ status row = ACTIVE /\ next_fire_at row = t)
  /\ forall r', src (world s') r' ->
       derived (world s) None r' /\ (schedule_id r' = k -> status r' = ACTIVE -> t < next_fire_at r').

Context (round_trip : forall l, from_str (to_vec l) = Some l).

Lemma src_inv w g r :
  file w = Some (to_vec (values g)) -> src w r -> (exists k, rows w !! k = Some r) \/ exists k, g !! k = Some r.
Proof.
  intros Hf [H|(b & parsed & Hb & Hp & Hr)]; [by left|]. right. rewrite Hf in Hb. injection Hb as <-.
  rewrite round_trip in Hp. injection Hp as <-. by apply values_elem.
Qed.

Lemma src_same w w' r : file w' = file w -> src w' r -> (exists k, rows w' !! k = Some r) \/ src w r.
Proof. intros Hf [H|(b & parsed & Hb & Hp & Hr)]; [by left|]. right. right. exists b, parsed. by rewrite <- Hf. Qed.

Lemma step_intro fresh s s' :
  all_derived (world s) fresh (rows (world s')) -> starts (trace s') = starts (trace s) ->
  file (world s') = file (world s)
  \/ (exists g, file (world s') = Some (to_vec (values g)) /\ all_derived (world s) fresh g) ->
  step_ok fresh s s'.
Proof.
  intros [Hk Hd] Ht Hf. split; [done|]. split; [done|]. intros r' Hr'. destruct Hf as [Hf|(g & Hf & _ & Hg)].
  - destruct (src_same _ _ _ Hf Hr') as [(k & Hk')|Hs]; [by eapply Hd|]. left. exists r'. split; [done | apply progress_refl].
  - destruct (src_inv _ _ _ Hf Hr') as [(k & Hk')|(k & Hk')]; [by eapply Hd | by eapply Hg].
Qed.

Lemma step_same fresh s s' :
  keyed (rows (world s)) -> rows (world s') = rows (world s) -> file (world s') = file (world s) ->
  starts (trace s') = starts (trace s) -> step_ok fresh s s'.
Proof. intros Hk Hr Hf Ht. apply step_intro; [rewrite Hr; by apply all_derived_self | done | by left]. Qed.

Lemma catch_persist_spec g s s' res :
  catch (persist g) s = (s', res) ->
  rows (world s') = rows (world s) /\ previews (world s') = previews (world s)
  /\ starts (trace s') = starts (trace s)
  /\ ((res = Ok (Ok tt) /\ file (world s') = Some (to_vec (values g)))
      \/ (exists e, res = Ok (Err e) /\ file (world s') = file (world s))).
Proof.
  unfold catch. destruct (persist g s) as [s1 r] eqn:E. intros [= <- <-].
  apply persist_spec in E as (H1 & H2 & H3). split; [done|]. split; [done|].
  destruct r as [[]|e]; destruct H3 as [Hf Ht]; (split; [|eauto]).
  - rewrite Ht, starts_app. simpl. by rewrite app_nil_r.
  - destruct Ht as [-> | ->]; [done|]. rewrite starts_app. simpl. by rewrite app_nil_r.
Qed.

Lemma replace_row_step id' r previous s s' res :
  keyed (rows (world s)) -> rows (world s) !! id' = Some previous -> progress previous r ->
  replace_row id' r previous s = (s', res) ->
  step_ok None s s'.
Proof.
  intros Hk Hp Hr H. assert (Hd : all_derived (world s) None (<[id' := r]> (rows (world s)))).
  { apply all_derived_insert; [by apply all_derived_self | |].
    - rewrite (proj1 Hr). by apply Hk.
    - left. exists previous. split; [by eapply src_row | done]. }
  destruct (replace_row_spec _ _ _ _ _ _ Hp H) as (_ & [(_ & Hrows & Hf & Ht)|(_ & Hrows & Hf & Ht)]).
  - apply step_intro; [by rewrite Hrows | | right; eauto].
    rewrite Ht, starts_app. simpl. by rewrite app_nil_r.
  - by apply step_same.
Qed.

Lemma set_fired_progress r d : progress r (set_fired r d).
Proof. split; [done|]. simpl. intros H. split; [done | lia]. Qed.
Lemma revoked_progress r : progress r (revoked_row r).
Proof. split; [done|]. done. Qed.
Lemma outcome_progress started r : progress r (outcome_row started r).
Proof. destruct started; (split; [done|]); simpl; intros H; try done; split; try done; lia. Qed.
Lemma progress_trans r1 r2 r3 : progress r1 r2 -> progress r2 r3 -> progress r1 r3.
Proof.
  intros [H1 H2] [H3 H4]. split; [congruence|]. intros H. destruct (H4 H) as [Ha Hb]. destruct (H2 Ha). split; [done | lia].
Qed.

Lemma start_run_spec d row start s s' res r2 :
  rows (world s) !! schedule_id d = Some r2 ->
  start_run d row start s = (s', res) ->
  res = Ok (Some start) /\ rows (world s') = <[schedule_id d := outcome_row start r2]> (rows (world s))
  /\ starts (trace s') = starts (trace s) ++ [(schedule_id d, next_fire_at row)]
  /\ (file (world s') = file (world s)
      \/ file (world s') = Some (to_vec (values (<[schedule_id d := outcome_row start r2]> (rows (world s)))))).
Proof.
  intros Hr2. unfold start_run, mbind, eff_bind, call, update, asks. cbn [world trace].
  assert (Ha : rows (with_rows (alter (outcome_row start) (schedule_id d) (rows (world s))) (world s))
               = <[schedule_id d := outcome_row start r2]> (rows (world s))).
  { apply map_eq. intros k. simpl. destruct (decide (k = schedule_id d)) as [->|Hne].
    - by rewrite lookup_alter_eq, Hr2, lookup_insert_eq.
    - by rewrite lookup_alter_ne, lookup_insert_ne. }
  destruct (catch _ _) as [s1 r] eqn:E. apply catch_persist_spec in E as (H1 & _ & H3 & H4). cbn [world trace] in *.
  destruct H4 as [[-> Hf]|(e & -> & Hf)]; intros [= <- <-]; (split; [done|]); rewrite H1, Ha, H3, starts_app;
    split_and!; try done; [right | left; exact Hf]. by rewrite Hf, Ha.
Qed.

(** The row that a dispatch writes before it may start anything. *)
Definition consumed (spec : ScheduleSpec) (row : Schedule) (now : Z) (gate : DispatchOutcome) : Schedule :=
  advance spec now (set_fired row (reserved row now gate)).

(** The paths of a dispatch. *)
Inductive dispatch_case (d : Schedule) (now : Z) (gate start : DispatchOutcome) (s s' : st World act)
    : option DispatchOutcome -> Prop :=
| dc_skip :
    (forall row, rows (world s) !! schedule_id d = Some row -> still_due row d now = false) -> s' = s ->
    dispatch_case d now gate start s s' None
| dc_revoked row res s1 :
    rows (world s) !! schedule_id d = Some row -> still_due row d now = true -> gate = Revoked ->
    s1 = St (world s) (trace s ++ [Did Gated]) ->
    replace_row (schedule_id d) (revoked_row row) row s1 = (s', Ok res) ->
    dispatch_case d now gate start s s' (if res then Some Revoked else None)
| dc_no_schedule row :
    rows (world s) !! schedule_id d = Some row -> still_due row d now = true -> gate <> Revoked ->
    schedule row = None ->
    s' = St (with_rows (<[schedule_id d := set_fired row (reserved row now gate)]> (rows (world s))) (world s))
            (trace s ++ [Did Gated]) ->
    dispatch_case d now gate start s s' None
| dc_unsaved row spec s1 :
    rows (world s) !! schedule_id d = Some row -> still_due row d now = true -> gate <> Revoked ->
    schedule row = Some spec -> s1 = St (world s) (trace s ++ [Did Gated]) ->
    replace_row (schedule_id d) (consumed spec row now gate) row s1 = (s', Ok false) ->
    dispatch_case d now gate start s s' None
| dc_skipped row spec s1 :
    rows (world s) !! schedule_id d = Some row -> still_due row d now = true -> gate <> Revoked ->
    schedule row = Some spec -> s1 = St (world s) (trace s ++ [Did Gated]) ->
    replace_row (schedule_id d) (consumed spec row now gate) row s1 = (s', Ok true) ->
    gate = Refused \/ timely row now = false ->
    dispatch_case d now gate start s s' (if bool_decide (gate = Refused) then Some Refused else None)
| dc_started row spec s1 s2 :
    rows (world s) !! schedule_id d = Some row -> still_due row d now = true -> gate = Accepted ->
    timely row now = true ->
    schedule row = Some spec -> s1 = St (world s) (trace s ++ [Did Gated]) ->
    replace_row (schedule_id d) (consumed spec row now gate) row s1 = (s2, Ok true) ->
    start_run d row start s2 = (s', Ok (Some start)) ->
    dispatch_case d now gate start s s' (Some start).

Lemma replace_row_total id' r previous s : exists s' b, replace_row id' r previous s = (s', Ok b).
Proof.
  unfold replace_row, mbind, eff_bind, asks, update, catch. cbn [world trace].
  destruct (persist _ _) as [s1 [u|e]]; eexists _, _; reflexivity.
Qed.

Lemma consume_cases d now gate start s s' res :
  consume_and_dispatch d now gate start s = (s', res) ->
  exists o, res = Ok o /\ dispatch_case d now gate start s s' o.
Proof.
  unfold consume_and_dispatch. unfold mbind at 1, eff_bind at 1, asks at 1.
  destruct (rows (world s) !! schedule_id d) as [row|] eqn:Hrow.
  2: { intros [= <- <-]. exists None. split; [done|]. apply dc_skip; [by rewrite Hrow | done]. }
  destruct (still_due row d now) eqn:Hdue; simpl negb; cbn [negb].
  2: { intros [= <- <-]. exists None. split; [done|]. apply dc_skip; [|done]. rewrite Hrow. by intros ? [= <-]. }
  unfold mbind at 1, eff_bind at 1, call at 1. set (s1 := St (world s) (trace s ++ [Did Gated])).
  destruct (decide (gate = Revoked)) as [Hg|Hg]; [rewrite bool_decide_true by done | rewrite bool_decide_false by done].
  { destruct (replace_row_total (schedule_id d) (revoked_row row) row s1) as (s2 & b & E).
    unfold mbind at 1, eff_bind at 1. rewrite E. intros [= <- <-]. eexists. split; [reflexivity|]. by eapply dc_revoked. }
  change (schedule (set_fired row (reserved row now gate))) with (schedule row).
  destruct (schedule row) as [spec|] eqn:Hs.
  2: { unfold mbind at 1, eff_bind at 1, update at 1. intros [= <- <-]. eexists. split; [reflexivity|].
       by eapply dc_no_schedule. }
  change (advance spec now (set_fired row (reserved row now gate))) with (consumed spec row now gate).
  destruct (replace_row_total (schedule_id d) (consumed spec row now gate) row s1) as (s2 & b & E).
  unfold mbind at 1, eff_bind at 1. rewrite E. destruct b; cbn [negb].
  2: { intros [= <- <-]. eexists. split; [reflexivity|]. by eapply dc_unsaved. }
  destruct (bool_decide (gate = Refused) || negb (timely row now)) eqn:Hskip.
  { intros [= <- <-]. eexists. split; [reflexivity|]. eapply dc_skipped; try done.
    apply orb_true_iff in Hskip as [H|H]; [left; by apply bool_decide_eq_true in H | right; by apply negb_true_iff]. }
  apply orb_false_iff in Hskip as [H1 H2]. apply bool_decide_eq_false in H1. apply negb_false_iff in H2.
  intros H. pose proof E as E'. apply replace_row_spec in E' as (_ & [(_ & Hr & _)|(Hno & _)]); [|done|done].
  destruct (start_run_spec d row start s2 s' res (consumed spec row now gate)) as (-> & _); [|done|].
  { rewrite Hr. apply lookup_insert_eq. }
  eexists. split; [reflexivity|]. eapply dc_started; try done. by destruct gate.
Qed.

Lemma still_due_inv row d now :
  still_due row d now = true ->
  status row = ACTIVE /\ next_fire_at row = next_fire_at d /\ next_occurrence_id row = next_occurrence_id d
  /\ next_fire_at row <= now.
Proof.
  unfold still_due. rewrite !andb_true_iff, !teqb_eq, Z.eqb_eq, Z.leb_le. tauto.
Qed.

Lemma consumed_progress spec row now gate : next_fire_at row <= now -> progress row (consumed spec row now gate).
Proof. intros H. eapply progress_trans; [apply set_fired_progress | by apply advance_progress]. Qed.

Lemma consumed_later spec row now gate :
  next_fire_at row <= now -> status (consumed spec row now gate) = ACTIVE ->
  next_fire_at row < next_fire_at (consumed spec row now gate).
Proof. intros H Ha. pose proof (advance_later spec now (set_fired row (reserved row now gate)) H Ha). unfold consumed. lia. Qed.

Lemma with_gate_step fresh s s' :
  step_ok fresh (St (world s) (trace s ++ [Did Gated])) s' -> step_ok fresh s s'.
Proof. intros (H1 & H2 & H3). split; [done|]. split; [|done]. rewrite H2. simpl. rewrite starts_app. simpl. by rewrite app_nil_r. Qed.

Lemma consume_step d now gate start s s' res :
  keyed (rows (world s)) -> consume_and_dispatch d now gate start s = (s', res) ->
  step_ok None s s' \/ exists t, step_start (schedule_id d) t s s'.
Proof.
  intros Hk H. apply consume_cases in H as (o & -> & Hc).
  destruct Hc as [Hno ->|row b s1 Hr Hd -> -> H|row Hr Hd Hg Hs ->|row spec s1 Hr Hd Hg Hs -> H
                 |row spec s1 Hr Hd Hg Hs -> H Hw|row spec s1 s2 Hr Hd -> Htm Hs -> H Hst].
  - left. by apply step_same.
  - left. apply with_gate_step. refine (replace_row_step _ _ _ (St (world s) _) _ _ Hk Hr _ H); apply revoked_progress.
  - left. apply step_intro; [|simpl; rewrite starts_app; simpl; by rewrite app_nil_r | by left].
    apply all_derived_insert; [by apply all_derived_self | by apply (Hk _ _ Hr) |].
    left. exists row. split; [by eapply src_row | apply set_fired_progress].
  - left. apply with_gate_step. refine (replace_row_step _ _ _ (St (world s) _) _ _ Hk Hr _ H).
    apply consumed_progress. by apply still_due_inv in Hd as (_ & _ & _ & Hle).
  - left. apply with_gate_step. refine (replace_row_step _ _ _ (St (world s) _) _ _ Hk Hr _ H).
    apply consumed_progress. by apply still_due_inv in Hd as (_ & _ & _ & Hle).
  - right. exists (next_fire_at row). apply still_due_inv in Hd as (Ha & _ & _ & Hle).
    destruct (replace_row_spec _ _ _ (St (world s) _) _ _ Hr H) as (_ & [(_ & Hrows & Hf & Htr)|(Hno & _)]); [|done].
    simpl in Hrows, Hf, Htr. set (k := schedule_id d) in *. set (r2 := consumed spec row now Accepted) in *.
    assert (Hr2 : rows (world s2) !! k = Some r2) by (rewrite Hrows; apply lookup_insert_eq).
    destruct (start_run_spec d row start s2 s' _ r2 Hr2 Hst) as (_ & Hrows' & Hts & Hf').
    rewrite Hrows, insert_insert_eq in Hrows', Hf'.
    set (r3 := outcome_row start r2) in *. fold k in Hts.
    assert (P2 : progress row r2) by (by apply consumed_progress).
    assert (P3 : progress r2 r3) by apply outcome_progress.
    assert (Hlater : forall r, progress r2 r -> status r = ACTIVE -> next_fire_at row < next_fire_at r).
    { intros r [_ Hp] Hact. destruct (Hp Hact) as [Ha2 Hle2].
      pose proof (consumed_later spec row now Accepted Hle Ha2) as Hl. fold r2 in Hl. lia. }
    assert (Hall : forall r g, progress r2 r -> g = <[k := r]> (rows (world s)) ->
              keyed g /\ forall k' r', g !! k' = Some r' ->
                derived (world s) None r' /\ (schedule_id r' = k -> status r' = ACTIVE -> next_fire_at row < next_fire_at r')).
    { intros r g Hp ->. assert (Hid : schedule_id r = k).
      { rewrite (proj1 Hp), (proj1 P2). by apply Hk. }
      assert (Hder : derived (world s) None r).
      { left. exists row. split; [by eapply src_row | by eapply progress_trans]. }
      destruct (all_derived_insert (world s) None (rows (world s)) k r (all_derived_self _ _ Hk) Hid Hder) as [Hk' Hd'].
      split; [done|]. intros k' r' Hr'. split; [by eapply Hd'|]. intros Hid' Hact.
      rewrite (Hk' _ _ Hr') in Hid'. subst k'. rewrite lookup_insert_eq in Hr'. injection Hr' as <-. by apply Hlater. }
    destruct (Hall r3 _ P3 Hrows') as [Hk3 Hd3].
    destruct (Hall r2 _ (progress_refl r2) eq_refl) as [_ Hd2].
    split; [done|]. split; [rewrite Hts, Htr, !starts_app; simpl; by rewrite !app_nil_r|]. split; [eauto|].
    intros r' Hsrc. destruct Hf' as [Hf'|Hf'].
    + rewrite Hf in Hf'. destruct (src_inv _ _ _ Hf' Hsrc) as [(k' & H')|(k' & H')]; [by eapply Hd3 | by eapply Hd2].
    + destruct (src_inv _ _ _ Hf' Hsrc) as [(k' & H')|(k' & H')]; [by eapply Hd3|].
      by eapply (proj2 (Hall r3 _ P3 eq_refl)).
Qed.

(** What recovery makes of one row of the file. *)
Definition recovered_from (now : Z) (row r : Schedule) : Prop :=
  exists spec, spec_of_row row = Ok spec
    /\ r = (if teqb (status row) ACTIVE && (next_fire_at row <=? now)
            then advance spec now (set_fired (upgrade row spec) (T "skipped_downtime"))
            else upgrade row spec).

Lemma upgrade_fields row spec :
  schedule_id (upgrade row spec) = schedule_id row /\ status (upgrade row spec) = status row
  /\ next_fire_at (upgrade row spec) = next_fire_at row /\ owner (upgrade row spec) = owner row
  /\ request (upgrade row spec) = request row /\ created_at (upgrade row spec) = created_at row.
Proof. unfold upgrade. by destruct (_ =? _). Qed.

Lemma recover_row_inv now row r :
  recover_row now row = Ok r ->
  is_lower_hex (schedule_id row) 32 = true /\ row_metadata_ok row = true /\ recovered_from now row r.
Proof.
  unfold recover_row. intros H.
  apply bind_Ok_inv in H as (? & H1%refuse_if_Ok & H). apply bind_Ok_inv in H as (? & _ & H).
  apply bind_Ok_inv in H as (? & H3%refuse_if_Ok & H). apply bind_Ok_inv in H as (spec & H4 & H).
  apply bind_Ok_inv in H as (? & _ & H). apply bind_Ok_inv in H as (? & _ & H).
  split; [by apply negb_false_iff|]. split; [by apply negb_false_iff|]. exists spec. split; [done|].
  destruct (upgrade_fields row spec) as (_ & <- & <- & _). unfold mret, result_ret in H. by injection H as <-.
Qed.

Lemma recovered_progress now row r :
  recovered_from now row r -> progress row r /\ (status r = ACTIVE -> now < next_fire_at r).
Proof.
  intros (spec & _ & ->). destruct (upgrade_fields row spec) as (Hi & Hs & Hn & _).
  assert (Hup : progress row (upgrade row spec)).
  { split; [done|]. rewrite Hs, Hn. intros H. split; [done | lia]. }
  destruct (teqb (status row) ACTIVE && (next_fire_at row <=? now)) eqn:E.
  - apply andb_true_iff in E as [_ E%Z.leb_le]. split.
    + eapply progress_trans; [exact Hup|]. eapply progress_trans; [apply set_fired_progress|].
      apply advance_progress. simpl. by rewrite Hn.
    + apply advance_later. simpl. by rewrite Hn.
  - split; [done|]. rewrite Hs, Hn. intros Ha. rewrite Ha in E. simpl in E. by apply Z.leb_gt in E.
Qed.

Lemma recover_rows_spec now parsed g g' :
  recover_rows now parsed g = Ok g' -> keyed g ->
  keyed g' /\ (forall k r, g' !! k = Some r -> g !! k = Some r \/ exists row, row ∈ parsed /\ recovered_from now row r)
  /\ (forall k r, g !! k = Some r -> g' !! k = Some r)
  /\ (forall row, row ∈ parsed -> exists r, g' !! schedule_id row = Some r /\ recovered_from now row r).
Proof.
  revert g. induction parsed as [|row rest IH]; intros g H Hk; simpl in H.
  { injection H as <-. split; [done|]. split; [by left|]. split; [done|]. by intros row ?%elem_of_nil. }
  apply bind_Ok_inv in H as (r & Hr & H). apply recover_row_inv in Hr as (_ & _ & Hrec).
  case_bool_decide as Hdup; [done|]. assert (Hnone : g !! schedule_id r = None) by (by apply eq_None_not_Some).
  apply IH in H as (Hk' & Hfrom & Hkeep & Hall).
  2: { intros k r0. destruct (decide (k = schedule_id r)) as [->|Hne]; [rewrite lookup_insert_eq; by intros [= <-]|].
       rewrite lookup_insert_ne by done. apply Hk. }
  split; [done|]. split; [|split].
  - intros k r0 H0. destruct (Hfrom k r0 H0) as [H1|(row' & Hin & H1)]; [|right; exists row'; split; [by right | done]].
    destruct (decide (k = schedule_id r)) as [->|Hne].
    + rewrite lookup_insert_eq in H1. injection H1 as <-. right. exists row. split; [left | done].
    + rewrite lookup_insert_ne in H1 by done. by left.
  - intros k r0 H0. apply Hkeep. rewrite lookup_insert_ne; [done|]. intros <-. congruence.
  - intros row' [->|Hin]%elem_of_cons; [|by apply Hall]. exists r. split; [|done].
    rewrite <- (proj1 (proj1 (recovered_progress _ _ _ Hrec))). apply Hkeep, lookup_insert_eq.
Qed.

Lemma recovered_spec now b g :
  recovered now b = Ok g ->
  keyed g
  /\ (forall k r, g !! k = Some r ->
        exists bs parsed row, b = Some bs /\ from_str bs = Some parsed /\ row ∈ parsed /\ recovered_from now row r)
  /\ (forall bs parsed row, b = Some bs -> from_str bs = Some parsed -> row ∈ parsed ->
        exists r, g !! schedule_id row = Some r /\ recovered_from now row r).
Proof.
  unfold recovered. destruct b as [bs|].
  2: { intros [= <-]. split; [by intros k r ?%lookup_empty_Some|]. split; [by intros k r ?%lookup_empty_Some | done]. }
  intros H. apply bind_Ok_inv in H as (? & _ & H). apply bind_Ok_inv in H as (parsed & Hp%ok_or_Ok & H).
  apply bind_Ok_inv in H as (? & _ & H).
  apply recover_rows_spec in H as (Hk & Hfrom & _ & Hall); [|by intros k r ?%lookup_empty_Some].
  split; [done|]. split.
  - intros k r Hr. destruct (Hfrom k r Hr) as [?%lookup_empty_Some|(row & Hin & Hrec)]; [done|].
    exists bs, parsed, row. done.
  - intros ? parsed' row [= <-] Hp' Hin. rewrite Hp in Hp'. injection Hp' as <-. by apply Hall.
Qed.

Lemma open_at_spec now s s' res :
  open_at now s = (s', res) ->
  starts (trace s') = starts (trace s)
  /\ match res with
     | Ok _ => recovered now (file (world s)) = Ok (rows (world s'))
               /\ file (world s') = Some (to_vec (values (rows (world s')))) /\ previews (world s') = ∅
     | Err _ => rows (world s') = ∅ /\ file (world s') = file (world s)
     end.
Proof.
  unfold open_at. unfold mbind at 1, eff_bind at 1, update at 1. unfold mbind at 1, eff_bind at 1, asks at 1.
  cbn [world file trace]. unfold mbind at 1, eff_bind at 1, lift.
  destruct (recovered now (file (world s))) as [g|e] eqn:Hg; [|by intros [= <- <-]].
  unfold mbind, eff_bind. destruct (persist g _) as [s1 [u|e]] eqn:E; apply persist_spec in E as (H1 & H2 & H3 & H4);
    cbn [world trace rows previews file] in *.
  - intros [= <- <-]. simpl. rewrite H4, starts_app. simpl. by rewrite app_nil_r.
  - intros [= <- <-]. split; [|done]. destruct H4 as [-> | ->]; [done|]. rewrite starts_app. simpl. by rewrite app_nil_r.
Qed.

Lemma open_at_step now s s' res : open_at now s = (s', res) -> step_ok None s s'.
Proof.
  intros H. apply open_at_spec in H as (Ht & Hres). destruct res as [u|e].
  - destruct Hres as (Hg & Hf & _). apply recovered_spec in Hg as (Hk & Hfrom & _).
    assert (Hall : all_derived (world s) None (rows (world s'))).
    { split; [done|]. intros k r Hr. destruct (Hfrom k r Hr) as (b & parsed & row & Hb & Hp & Hin & Hrec).
      left. exists row. split; [right; eauto 6 | by apply recovered_progress in Hrec as [? _]]. }
    apply step_intro; [done | done|]. right. eauto.
  - destruct Hres as [Hr Hf]. apply step_intro; [|done | by left]. rewrite Hr. split; by intros k r ?%lookup_empty_Some.
Qed.

Lemma cancel_spec o id' s s' res :
  cancel o id' s = (s', res) ->
  previews (world s') = previews (world s) /\ starts (trace s') = starts (trace s)
  /\ match res with
     | Ok None => rows (world s') = rows (world s) /\ file (world s') = file (world s)
     | Ok (Some r') =>
         exists r, rows (world s) !! id' = Some r /\ owned o r = true /\ r' = set_status r CANCELLED
                   /\ rows (world s') = <[id' := r']> (rows (world s))
                   /\ file (world s') = Some (to_vec (values (rows (world s'))))
     | Err _ => rows (world s') = rows (world s) /\ file (world s') = file (world s)
     end.
Proof.
  unfold cancel. unfold mbind at 1, eff_bind at 1, asks at 1.
  destruct (rows (world s) !! id') as [r|] eqn:Hr; [|by intros [= <- <-]].
  destruct (owned o r) eqn:Ho; cbn [negb]; [|by intros [= <- <-]].
  unfold mbind, eff_bind, update. cbn [world trace].
  destruct (catch (persist _) _) as [s1 c] eqn:E. apply catch_persist_spec in E as (H1 & H2 & H3 & H4).
  cbn [world trace rows file previews with_rows] in *.
  destruct H4 as [[-> Hf]|(e & -> & Hf)]; intros [= <- <-]; cbn [world trace rows file previews with_rows] in *;
    (split; [done|]); (split; [done|]).
  - exists r. split; [done|]. split; [done|]. split; [done|]. split; [done|]. by rewrite H1.
  - split; [|done]. rewrite insert_insert_eq. replace (set_status _ _) with r by (by destruct r). by rewrite insert_id.
Qed.

Lemma cancel_step o id' s s' res : keyed (rows (world s)) -> cancel o id' s = (s', res) -> step_ok None s s'.
Proof.
  intros Hk H. apply cancel_spec in H as (_ & Ht & Hres).
  destruct res as [[r'|]|e]; [|destruct Hres; by apply step_same..].
  destruct Hres as (r & Hr & _ & -> & Hrows & Hf).
  assert (Hd : all_derived (world s) None (rows (world s'))).
  { rewrite Hrows. apply all_derived_insert; [by apply all_derived_self | by apply (Hk _ _ Hr) |].
    left. exists r. split; [by eapply src_row | by apply set_status_progress]. }
  apply step_intro; [done | done|]. right. eauto.
Qed.

Lemma cancel_owner_spec o s s' res :
  cancel_owner o s = (s', res) ->
  previews (world s') = previews (world s) /\ starts (trace s') = starts (trace s)
  /\ ((rows (world s') = rows (world s) /\ file (world s') = file (world s))
      \/ (exists n, res = Ok n
          /\ rows (world s') = (fun r => if owner_active o r then set_status r CANCELLED else r) <$> rows (world s)
          /\ (file (world s') = file (world s) \/ file (world s') = Some (to_vec (values (rows (world s'))))))).
Proof.
  unfold cancel_owner. destruct (negb (valid_owner o)); [intros [= <- <-]; by auto|].
  unfold mbind, eff_bind, asks, update. cbn [world trace]. set (g := _ <$> _).
  destruct (_ =? 0)%nat.
  { intros [= <- <-]. simpl. split; [done|]. split; [done|]. right. exists 0%nat. auto. }
  destruct (catch (persist g) _) as [s1 c] eqn:E. apply catch_persist_spec in E as (H1 & H2 & H3 & H4).
  cbn [world trace rows file previews with_rows] in *.
  destruct H4 as [[-> Hf]|(e & -> & Hf)]; intros [= <- <-]; cbn [world trace rows file previews with_rows] in *;
    (split; [done|]); (split; [done|]); [right | by left].
  eexists. split; [reflexivity|]. rewrite H1. auto.
Qed.

Lemma cancel_owner_step o s s' res : keyed (rows (world s)) -> cancel_owner o s = (s', res) -> step_ok None s s'.
Proof.
  intros Hk H. apply cancel_owner_spec in H as (_ & Ht & [[Hr Hf]|(n & _ & Hr & Hf)]); [by apply step_same|].
  assert (Hd : all_derived (world s) None (rows (world s'))).
  { rewrite Hr. split; intros k r' H; rewrite lookup_fmap in H; apply fmap_Some in H as (r & Hr0 & ->).
    - rewrite <- (Hk _ _ Hr0). by destruct (owner_active o r).
    - left. exists r. split; [by eapply src_row|].
      destruct (owner_active o r); [by apply set_status_progress | apply progress_refl]. }
  apply step_intro; [done | done|]. destruct Hf as [Hf|Hf]; [by left | right; eauto].
Qed.

Definition new_row (fresh : text) (spec : ScheduleSpec) (req : json) (o : text) (anchor : Z) (occ : Occurrence) : Schedule :=
  MkSchedule fresh 1 (Some spec) (identity occ) None None (interval_of spec) req (at_time occ) None anchor ACTIVE o.

Lemma create_spec_spec fresh spec req o anchor now s s' res :
  create_spec fresh spec req o anchor now s = (s', res) ->
  previews (world s') = previews (world s) /\ starts (trace s') = starts (trace s)
  /\ match res with
     | Ok r =>
         exists occ, valid_owner o = true /\ next_of spec now anchor = Ok occ /\ r = new_row fresh spec req o anchor occ
           /\ (size (make_room (rows (world s))) < max_schedules settings)%nat
           /\ rows (world s') = <[fresh := r]> (make_room (rows (world s)))
           /\ file (world s') = Some (to_vec (values (rows (world s'))))
     | Err e => file (world s') = file (world s)
                /\ (rows (world s') = rows (world s)
                    \/ (e = err_code "SCHEDULE_LIMIT" /\ rows (world s') = make_room (rows (world s))))
     end.
Proof.
  unfold create_spec. destruct (valid_owner o) eqn:Ho; cbn [negb]; [|intros [= <- <-]; by auto].
  unfold mbind at 1, eff_bind at 1, lift. destruct (next_of spec now anchor) as [occ|e] eqn:Hocc; [|intros [= <- <-]; by auto].
  unfold mbind, eff_bind, asks, update. cbn [world trace].
  destruct (_ <=? _)%nat eqn:Hsize; [intros [= <- <-]; simpl; by auto 7|]. apply Nat.leb_gt in Hsize.
  set (r := MkSchedule _ _ _ _ _ _ _ _ _ _ _ _ _). cbn [world rows trace with_rows previews file].
  destruct (catch (persist _) _) as [s1 c] eqn:E. apply catch_persist_spec in E as (H1 & H2 & H3 & H4).
  cbn [world trace rows file previews with_rows writes] in *.
  destruct H4 as [[-> Hf]|(e & -> & Hf)]; intros [= <- <-]; cbn [world trace rows file previews with_rows] in *;
    (split; [done|]); (split; [done|]); [|by auto].
  exists occ. rewrite H1. done.
Qed.

Lemma make_room_sub g k r : make_room g !! k = Some r -> g !! k = Some r.
Proof. unfold make_room. destruct (_ <=? _)%nat; [|done]. intros H. by apply map_lookup_filter_Some in H as [? _]. Qed.

Lemma make_room_derived w fresh g : all_derived w fresh g -> all_derived w fresh (make_room g).
Proof. intros [Hk Hd]. split; intros k r H%make_room_sub; [by apply Hk | by eapply Hd]. Qed.

Lemma create_step fresh spec req o anchor now s s' res :
  keyed (rows (world s)) -> create_spec fresh spec req o anchor now s = (s', res) -> step_ok (Some fresh) s s'.
Proof.
  intros Hk H. apply create_spec_spec in H as (_ & Ht & Hres). pose proof (all_derived_self _ (Some fresh) Hk) as Hd.
  destruct res as [r|e].
  - destruct Hres as (occ & _ & _ & -> & _ & Hr & Hf).
    assert (Hd' : all_derived (world s) (Some fresh) (rows (world s'))).
    { rewrite Hr. apply all_derived_insert; [by apply make_room_derived | done | by right]. }
    apply step_intro; [done | done|]. right. eauto.
  - destruct Hres as [Hf [Hr|[_ Hr]]]; [by apply step_same|].
    apply step_intro; [rewrite Hr; by apply make_room_derived | done | by left].
Qed.

Lemma activate_spec fresh id' spec req o now s s' res :
  activate fresh id' spec req o now s = (s', res) ->
  (exists e, s' = s /\ res = Err e)
  \/ (exists p first s1 r1,
        previews (world s) !! id' = Some p /\ preview_matches p spec req o now = true
        /\ head (occurrences p) = Some first /\ now < at_time first
        /\ create_spec fresh spec req o (anchor p) now s = (s1, r1) /\ res = r1 /\ trace s' = trace s1
        /\ world s' = match r1 with
                      | Ok _ => with_previews (delete id' (previews (world s))) (world s1)
                      | Err _ => world s1
                      end).
Proof.
  unfold activate. unfold mbind at 1, eff_bind at 1, asks at 1.
  destruct (previews (world s) !! id') as [p|] eqn:Hp; [|intros [= <- <-]; left; eauto].
  destruct (preview_matches p spec req o now) eqn:Hm; cbn [negb]; [|intros [= <- <-]; left; eauto].
  unfold mbind at 1, eff_bind at 1, lift, first_of. destruct (head (occurrences p)) as [first|] eqn:Hh;
    [|intros [= <- <-]; left; eauto]. simpl ok_or. cbn [ok_or].
  destruct (at_time first <=? now) eqn:Hle; [intros [= <- <-]; left; eauto|]. apply Z.leb_gt in Hle.
  unfold mbind, eff_bind, update. destruct (create_spec _ _ _ _ _ _ s) as [s1 [r|e]] eqn:E; intros [= <- <-]; right.
  - by exists p, first, s1, (Ok r).
  - by exists p, first, s1, (Err e).
Qed.

Lemma activate_step fresh id' spec req o now s s' res :
  keyed (rows (world s)) -> activate fresh id' spec req o now s = (s', res) -> step_ok (Some fresh) s s'.
Proof.
  intros Hk H. apply activate_spec in H as [(e & -> & _)|(p & first & s1 & r1 & _ & _ & _ & _ & H & _ & Ht & Hw)].
  - by apply step_same.
  - apply (create_step _ _ _ _ _ _ _ _ _ Hk) in H as (H1 & H2 & H3). unfold step_ok. rewrite Ht, Hw.
    destruct r1; [|done]. split; [done|]. split; [done|]. intros r' Hr'. by apply H3.
Qed.

Lemma preview_spec token spec req o now s s' res :
  preview token spec req o now s = (s', res) ->
  rows (world s') = rows (world s) /\ file (world s') = file (world s) /\ trace s' = trace s
  /\ match res with
     | Ok (t, spec', exp, occs) =>
         t = token /\ spec' = spec /\ valid_owner o = true /\ occurrences_of 5 spec now now = Ok occs
         /\ (exists first, head occs = Some first
             /\ exp = Z.min (now + preview_ttl_secs settings * tick) (at_time first))
         /\ previews (world s') = <[token := MkPreview o spec req now exp occs]>
                                    (filter (fun kp => now < expires kp.2) (previews (world s)))
     | Err _ => previews (world s') = previews (world s)
                \/ previews (world s') = filter (fun kp => now < expires kp.2) (previews (world s))
     end.
Proof.
  unfold preview. destruct (valid_owner o) eqn:Ho; cbn [negb]; [|intros [= <- <-]; by auto].
  unfold mbind at 1, eff_bind at 1, lift at 1. destruct (occurrences_of 5 spec now now) as [occs|e] eqn:Hoc;
    [|intros [= <- <-]; by auto].
  unfold mbind at 1, eff_bind at 1, lift, first_of. destruct (head occs) as [first|] eqn:Hh;
    [|intros [= <- <-]; by auto].
  cbn [ok_or]. unfold mbind, eff_bind, asks, update. cbn [world trace].
  destruct (_ <=? _)%nat; intros [= <- <-]; simpl; split_and!; try done; [by right | eauto].
Qed.

(** ** Sequences of operations *)

Inductive op :=
| OpPreview (token : text) (spec : ScheduleSpec) (req : json) (o : text) (now : Z)
| OpActivate (fresh id' : text) (spec : ScheduleSpec) (req : json) (o : text) (now : Z)
| OpCancel (o id' : text)
| OpCancelOwner (o : text)
| OpDispatch (d : Schedule) (now : Z) (gate start : DispatchOutcome)
| OpRestart (now : Z).

(** The identifier that an activation draws. *)
Definition draws (x : op) : option text := match x with OpActivate fresh _ _ _ _ _ => Some fresh | _ => None end.

Definition run_op (s : st World act) (x : op) : st World act :=
  match x with
  | OpPreview token spec req o now => fst (preview token spec req o now s)
  | OpActivate fresh id' spec req o now => fst (activate fresh id' spec req o now s)
  | OpCancel o id' => fst (cancel o id' s)
  | OpCancelOwner o => fst (cancel_owner o s)
  | OpDispatch d now gate start => fst (consume_and_dispatch d now gate start s)
  | OpRestart now => fst (open_at now s)
  end.

Lemma op_step x s :
  keyed (rows (world s)) -> step_ok (draws x) s (run_op s x) \/ exists k t, step_start k t s (run_op s x).
Proof.
  intros Hk. destruct x; simpl.
  - left. destruct (preview _ _ _ _ _ s) as [s' r] eqn:E. apply preview_spec in E as (H1 & H2 & H3 & _).
    apply step_same; [done..|]. simpl. by rewrite H3.
  - left. destruct (activate _ _ _ _ _ _ s) as [s' r] eqn:E. by apply (activate_step _ _ _ _ _ _ _ _ _ Hk) in E.
  - left. destruct (cancel _ _ s) as [s' r] eqn:E. by apply (cancel_step _ _ _ _ _ Hk) in E.
  - left. destruct (cancel_owner _ s) as [s' r] eqn:E. by apply (cancel_owner_step _ _ _ _ Hk) in E.
  - destruct (consume_and_dispatch _ _ _ _ s) as [s' r] eqn:E.
    apply (consume_step _ _ _ _ _ _ _ Hk) in E as [E|(t & E)]; [by left | right; eauto].
  - left. destruct (open_at _ s) as [s' r] eqn:E. by apply open_at_step in E.
Qed.

(** An occurrence that was started is over for every row that could fire. *)
Definition over (s : st World act) : Prop :=
  forall k t r, (k, t) ∈ starts (trace s) -> src (world s) r -> schedule_id r = k -> status r = ACTIVE ->
    t < next_fire_at r.

(** The identifiers that are in use. *)
Definition used (s : st World act) (k : text) : Prop :=
  (exists r, src (world s) r /\ schedule_id r = k) \/ exists t, (k, t) ∈ starts (trace s).

Lemma step_ok_over fresh s s' :
  over s -> (forall k, fresh = Some k -> ~ used s k) -> step_ok fresh s s' -> over s'.
Proof.
  intros Ho Hfresh (_ & Ht & Hd) k t r Hin Hr Hid Ha. rewrite Ht in Hin.
  destruct (Hd r Hr) as [(r0 & Hr0 & Hid0 & Hp)|Hf].
  - destruct (Hp Ha) as [Ha0 Hle]. pose proof (Ho k t r0 Hin Hr0 ltac:(congruence) Ha0). lia.
  - exfalso. apply (Hfresh k); [congruence|]. right. eauto.
Qed.

Lemma step_start_over k t s s' :
  keyed (rows (world s)) -> over s -> step_start k t s s' -> over s' /\ (k, t) ∉ starts (trace s).
Proof.
  intros Hkey Ho (Hk' & Ht & (row & Hrow & Ha & Hn) & Hd). split.
  - intros k1 t1 r Hin Hr Hid Hact. rewrite Ht, elem_of_app, list_elem_of_singleton in Hin.
    destruct (Hd r Hr) as [[(r0 & Hr0 & Hid0 & Hp)|Hf] Hl]; [|done].
    destruct Hin as [Hin|[= -> ->]]; [|by apply Hl]. destruct (Hp Hact) as [Ha0 Hle].
    pose proof (Ho k1 t1 r0 Hin Hr0 ltac:(congruence) Ha0). lia.
  - intros Hin. pose proof (Ho k t row Hin (src_row _ _ _ Hrow) (Hkey k row Hrow) Ha). lia.
Qed.

Lemma step_used k s x : keyed (rows (world s)) -> used (run_op s x) k -> used s k \/ draws x = Some k.
Proof.
  intros Hk Hu. destruct (op_step x s Hk) as [(_ & Ht & Hd)|(k0 & t0 & _ & Ht & (row & Hrow & _) & Hd)].
  - destruct Hu as [(r & Hr & <-)|(t & Hin)]; [|left; right; exists t; by rewrite <- Ht].
    destruct (Hd r Hr) as [(r0 & Hr0 & -> & _)|Hf]; [left; left; eauto | by right].
  - destruct Hu as [(r & Hr & <-)|(t & Hin)].
    + destruct (Hd r Hr) as [[(r0 & Hr0 & -> & _)|Hf] _]; [left; left; eauto | done].
    + rewrite Ht, elem_of_app, list_elem_of_singleton in Hin. destruct Hin as [Hin|[= -> ->]]; [left; right; eauto|].
      left. left. exists row. split; [by eapply src_row | by apply Hk].
Qed.

(** C4. At most one run per occurrence, across restarts.  Over any sequence of
    previews, activations, cancellations, dispatches (of any snapshot of a row,
    at any clock reading, whatever the callbacks answer and whichever writes of
    the file fail) and restarts from the file, no occurrence of a schedule is
    started twice: the identifier and the fire time of the started runs are
    distinct.  Activations draw identifiers that are not in use. *)
Theorem dispatch_at_most_once (w : World) (ops : list op) :
  keyed (rows w) -> NoDup (omap draws ops) -> Forall (fun k => ~ used (St w []) k) (omap draws ops) ->
  NoDup (starts (trace (foldl run_op (St w []) ops))).
Proof.
  intros Hk Hn Hf. assert (H0 : over (St w []) /\ NoDup (starts (trace (St w [] : st World act)))).
  { split; [by intros k t r ?%elem_of_nil | constructor]. }
  change (keyed (rows (world (St w [] : st World act)))) in Hk. revert H0 Hk Hf.
  generalize (St w [] : st World act) as s. induction ops as [|x ops IH]; intros s [Ho Hs] Hk Hf; simpl; [done|].
  assert (Hx : forall k, draws x = Some k -> ~ used s k /\ k ∉ omap draws ops).
  { intros k Hd. simpl in Hn, Hf. rewrite Hd in Hn, Hf. apply NoDup_cons in Hn as [? _].
    by apply Forall_cons in Hf as [? _]. }
  assert (Hn' : NoDup (omap draws ops)).
  { simpl in Hn. destruct (draws x); [by apply NoDup_cons in Hn as [_ ?] | done]. }
  assert (Hf' : Forall (fun k => ~ used (run_op s x) k) (omap draws ops)).
  { apply Forall_forall. intros k Hin Hu. apply step_used in Hu as [Hu|Hd]; [| |done].
    - assert (Hall : Forall (fun k => ~ used s k) (omap draws ops)).
      { simpl in Hf. destruct (draws x); [by apply Forall_cons in Hf as [_ ?] | done]. }
      rewrite Forall_forall in Hall. exact (Hall k Hin Hu).
    - by apply (proj2 (Hx k Hd)). }
  apply (IH Hn'); [| |exact Hf'].
  - destruct (op_step x s Hk) as [Hstep|(k & t & Hstep)].
    + split; [eapply step_ok_over; [exact Ho | intros k Hd; by apply Hx | exact Hstep]|].
      destruct Hstep as (_ & -> & _). done.
    + destruct (step_start_over k t s _ Hk Ho Hstep) as [Ho' Hnew]. split; [done|].
      destruct Hstep as (_ & -> & _). apply NoDup_app. split; [done|]. split; [|apply NoDup_singleton].
      intros p Hp ->%list_elem_of_singleton. done.
  - by destruct (op_step x s Hk) as [(? & _)|(k & t & ? & _)].
Qed.

Lemma revoked_row_fired row :
  last_fired_at (revoked_row row) = Some (next_fire_at row)
  /\ last_occurrence_id (revoked_row row) = Some (next_occurrence_id row).
Proof. done. Qed.

Lemma consumed_fired spec row now gate :
  last_fired_at (consumed spec row now gate) = Some (next_fire_at row)
  /\ last_occurrence_id (consumed spec row now gate) = Some (next_occurrence_id row).
Proof. unfold consumed, advance. by destruct (next_of _ _ _). Qed.

Lemma with_gate_trace (s s' : st World act) :
  starts (trace s') = starts (trace (St (world s) (trace s ++ [Did Gated] : list (effect act)))) ->
  starts (trace s') = starts (trace s).
Proof. simpl. intros ->. rewrite starts_app. simpl. by rewrite app_nil_r. Qed.

Lemma start_run_trace d row start s s' res :
  start_run d row start s = (s', res) ->
  exists rest, starts rest = [] /\ trace s' = trace s ++ Did (Started (schedule_id d) (next_fire_at row)) :: rest.
Proof.
  unfold start_run, mbind, eff_bind, call, update, asks, catch. cbn [world trace].
  destruct (persist _ _) as [s1 r] eqn:E. apply persist_spec in E as (_ & _ & H). cbn [world trace] in H.
  intros [= <- <-]. destruct r as [[]|e]; destruct H as [_ H].
  - rewrite H, <- app_assoc. eexists [_]. split; [|reflexivity]. reflexivity.
  - destruct H as [-> | ->]; [exists []; split; reflexivity|].
    rewrite <- app_assoc. eexists [_]. split; [|reflexivity]. reflexivity.
Qed.

(** What a dispatch does with a row that is still due.  The gate is asked
    first.  If the rows cannot be saved, nothing changes, nothing is started
    and the occurrence stays due.  If the owner is revoked, the row is
    cancelled.  If the run is refused, or is later than the grace period, the
    occurrence is passed over.  Otherwise the run is started, and only then:
    right before it the file was written with the row moved past this
    occurrence, so a crash at any later point cannot start it again.  Every
    saved row records the occurrence as fired, and one that stays active
    fires later than now. *)
Theorem dispatch_contract (d row : Schedule) (spec : ScheduleSpec) (now : Z) (gate start : DispatchOutcome)
    (s s' : st World act) (res : result harness_error (option DispatchOutcome)) :
  rows (world s) !! schedule_id d = Some row -> still_due row d now = true -> schedule row = Some spec ->
  consume_and_dispatch d now gate start s = (s', res) ->
  let past := consumed spec row now gate in
  let saved r := file (world s') = Some (to_vec (values (<[schedule_id d := r]> (rows (world s))))) in
  last_fired_at past = Some (next_fire_at row) /\ last_occurrence_id past = Some (next_occurrence_id row)
  /\ (status past = ACTIVE -> now < next_fire_at past)
  /\ ((rows (world s') = rows (world s) /\ file (world s') = file (world s)
       /\ starts (trace s') = starts (trace s) /\ res = Ok None)
      \/ (gate = Revoked /\ rows (world s') = <[schedule_id d := revoked_row row]> (rows (world s))
          /\ saved (revoked_row row) /\ starts (trace s') = starts (trace s) /\ res = Ok (Some Revoked))
      \/ (gate = Refused \/ (gate = Accepted /\ timely row now = false))
         /\ rows (world s') = <[schedule_id d := past]> (rows (world s)) /\ saved past
         /\ starts (trace s') = starts (trace s)
         /\ res = Ok (if bool_decide (gate = Refused) then Some Refused else None)
      \/ (gate = Accepted /\ timely row now = true
          /\ rows (world s') = <[schedule_id d := outcome_row start past]> (rows (world s))
          /\ (saved past \/ saved (outcome_row start past)) /\ res = Ok (Some start)
          /\ exists rest, starts rest = []
               /\ trace s' = trace s ++ Did Gated
                               :: Did (Wrote (values (<[schedule_id d := past]> (rows (world s)))) true)
                               :: Did (Started (schedule_id d) (next_fire_at row)) :: rest)).
Proof.
  intros Hrow Hdue Hspec H past saved. destruct (consumed_fired spec row now gate) as [Hf1 Hf2].
  split; [done|]. split; [done|]. pose proof (still_due_inv _ _ _ Hdue) as (_ & _ & _ & Hle). split.
  { intros Ha. exact (advance_later spec now (set_fired row _) Hle Ha). }
  apply consume_cases in H as (o & -> & Hc).
  destruct Hc as [Hno ->|row' b s1 Hr Hd -> -> H|row' Hr Hd Hg Hs ->|row' spec' s1 Hr Hd Hg Hs -> H
                 |row' spec' s1 Hr Hd Hg Hs -> H Hw|row' spec' s1 s2 Hr Hd -> Htm Hs -> H Hst];
    try (assert (row' = row) as -> by congruence); try (assert (spec' = spec) as -> by congruence); [| |congruence|..].
  - rewrite (Hno _ Hrow) in Hdue. discriminate.
  - destruct (replace_row_spec _ _ _ (St (world s) _) _ _ Hrow H) as (_ & [([= ->] & Hrs & Hf & Ht)|([= ->] & Hrs & Hf & Ht)]).
    + right. left. split_and!; try done. simpl in Ht. rewrite Ht, !starts_app. simpl. by rewrite !app_nil_r.
    + left. apply with_gate_trace in Ht. done.
  - destruct (replace_row_spec _ _ _ (St (world s) _) _ _ Hrow H) as (_ & [(Hno & _)|(_ & Hrs & Hf & Ht)]); [done|].
    left. apply with_gate_trace in Ht. done.
  - destruct (replace_row_spec _ _ _ (St (world s) _) _ _ Hrow H) as (_ & [(_ & Hrs & Hf & Ht)|(Hno & _)]); [|done].
    right. right. left. split; [destruct gate; [right; by destruct Hw | done | by left]|].
    split_and!; try done. simpl in Ht. rewrite Ht, !starts_app. simpl. by rewrite !app_nil_r.
  - right. right. right. destruct (start_run_trace _ _ _ _ _ _ Hst) as (rest & Hrest & Htr).
    destruct (replace_row_spec _ _ _ (St (world s) _) _ _ Hrow H) as (_ & [(_ & Hrs & Hf & Ht)|(Hno & _)]); [|done].
    simpl in Hrs, Hf, Ht.
    destruct (start_run_spec d row start s2 s' _ past ltac:(rewrite Hrs; apply lookup_insert_eq) Hst)
      as (_ & Hrs' & _ & Hf').
    rewrite Hrs, insert_insert_eq in Hrs', Hf'. split_and!; try done.
    + unfold saved. destruct Hf' as [Hf'|Hf']; [left; rewrite Hf'; exact Hf | right; exact Hf'].
    + exists rest. split; [done|]. rewrite Htr, Ht, <- !app_assoc. done.
Qed.

(** Recovery dispatches nothing.  When the store opens, no run is
    started, every row of the file is kept under its identifier with its
    owner, request and creation time, and no row is due: an active row whose
    time has passed is recorded as skipped and moved past the present (or
    ended), and any other row keeps its status and its fire time.  The
    recovered rows are in the file before the store is used. *)
Theorem recovery_dispatches_nothing (now : Z) (s s' : st World act) :
  open_at now s = (s', Ok tt) ->
  starts (trace s') = starts (trace s) /\ due (world s') now = []
  /\ file (world s') = Some (to_vec (values (rows (world s')))) /\ previews (world s') = ∅
  /\ (file (world s) = None -> rows (world s') = ∅)
  /\ forall b parsed row, file (world s) = Some b -> from_str b = Some parsed -> row ∈ parsed ->
       exists r, rows (world s') !! schedule_id row = Some r
         /\ owner r = owner row /\ request r = request row /\ created_at r = created_at row
         /\ if teqb (status row) ACTIVE && (next_fire_at row <=? now)
            then last_dispatch r = Some (T "skipped_downtime") /\ last_fired_at r = Some (next_fire_at row)
                 /\ (status r = EXHAUSTED \/ (status r = ACTIVE /\ now < next_fire_at r))
            else status r = status row /\ next_fire_at r = next_fire_at row.
Proof.
  intros H. apply open_at_spec in H as (Ht & Hg & Hf & Hp). pose proof (recovered_spec _ _ _ Hg) as (_ & Hfrom & Hall).
  split; [done|]. split.
  { unfold due. destruct (List.filter _ _) as [|r l] eqn:E; [done|]. exfalso.
    assert (Hin : In r (r :: l)) by by left. rewrite <- E in Hin. apply filter_In in Hin as [Hin Hd].
    apply list_elem_of_In, values_elem in Hin as (k & Hr). destruct (Hfrom k r Hr) as (b & parsed & row & _ & _ & _ & Hrec).
    apply andb_true_iff in Hd as [Ha%teqb_eq Hle%Z.leb_le].
    pose proof (proj2 (recovered_progress _ _ _ Hrec) Ha). lia. }
  split; [done|]. split; [done|]. split.
  { intros Hn. rewrite Hn in Hg. by injection Hg. }
  intros b parsed row Hb Hparse Hin. destruct (Hall b parsed row Hb Hparse Hin) as (r & Hr & spec & _ & ->).
  eexists. split; [exact Hr|]. destruct (upgrade_fields row spec) as (_ & Hs & Hn & Ho & Hq & Hc).
  destruct (teqb (status row) ACTIVE && (next_fire_at row <=? now)) eqn:E; [|done].
  apply andb_true_iff in E as [Ha%teqb_eq _]. unfold advance.
  destruct (next_of spec now (created_at (set_fired (upgrade row spec) (T "skipped_downtime")))) as [o|e] eqn:En; simpl;
    rewrite ?Hn, ?Hs; split_and!; try done; [right | by left].
  split; [done|]. by apply next_of_after in En.
Qed.

(** The previews were made by [preview]. *)
Definition previews_made (w : World) : Prop :=
  map_Forall (fun _ p => occurrences_of 5 (p_spec p) (anchor p) (anchor p) = Ok (occurrences p)) (previews w).

Lemma preview_made token spec req o now s :
  previews_made (world s) -> previews_made (world (fst (preview token spec req o now s))).
Proof.
  intros Hm. destruct (preview _ _ _ _ _ s) as [s' res] eqn:E. apply preview_spec in E as (_ & _ & _ & E). simpl.
  assert (Hf : forall k p, filter (fun kp : text * Preview => now < expires kp.2) (previews (world s)) !! k = Some p ->
            occurrences_of 5 (p_spec p) (anchor p) (anchor p) = Ok (occurrences p)).
  { intros k p Hp. apply map_lookup_filter_Some in Hp as [Hp _]. exact (Hm k p Hp). }
  destruct res as [[[[t spec'] exp] occs]|e].
  - destruct E as (-> & -> & _ & Hoc & _ & Hp). intros k p Hk. rewrite Hp in Hk.
    apply lookup_insert_Some in Hk as [[_ <-]|[_ Hk]]; [exact Hoc | exact (Hf k p Hk)].
  - destruct E as [Hp|Hp]; intros k p Hk; rewrite Hp in Hk; [exact (Hm k p Hk) | exact (Hf k p Hk)].
Qed.

Lemma interval_next_inv seconds after start_at o :
  next_of (Interval seconds) after start_at = Ok o ->
  let ordinal := Z.max ((after - start_at) / (seconds * tick)) 0 + 1 in
  exists shown, utc_time chrono tick (start_at + ordinal * (seconds * tick)) = Ok shown
    /\ o = MkOccurrence (start_at + ordinal * (seconds * tick)) (T "interval:" ++ show_nat ordinal) shown.
Proof.
  unfold next_of. destruct (next _ _ _ _ _) as [o'|e] eqn:E; [|done]. intros [= <-].
  unfold next in E. apply bind_Ok_inv in E as (_ & _ & E). destruct (_ || _); [done|].
  case_match; [done|]. apply bind_Ok_inv in E as (shown & Hs & E). injection E as <-. eauto.
Qed.

(** Until the first occurrence the next one stays the first. *)
Lemma interval_first_stable seconds start_at now o o' :
  next_of (Interval seconds) start_at start_at = Ok o -> start_at <= now < at_time o ->
  next_of (Interval seconds) now start_at = Ok o' -> o' = o.
Proof.
  intros H Hn H'. pose proof (next_of_after _ _ _ _ H) as Hpos.
  apply interval_next_inv in H as (shown & Hs & ->). apply interval_next_inv in H' as (shown' & Hs' & ->).
  cbn [at_time] in Hn, Hpos. rewrite Z.sub_diag, Zdiv_0_l, Z.max_id in *.
  rewrite (Z.div_small (now - start_at)), Z.max_id in * by lia. rewrite Hs in Hs'. by injection Hs' as <-.
Qed.

Lemma preview_matches_inv p spec req o now :
  preview_matches p spec req o now = true ->
  p_owner p = o /\ p_spec p = spec /\ value_eqb (p_request p) req = true /\ anchor p <= now < expires p.
Proof.
  unfold preview_matches. rewrite !andb_true_iff, teqb_eq, Z.ltb_lt, Z.leb_le, bool_decide_eq_true. tauto.
Qed.

Lemma make_room_id g : (size g <= max_schedules settings)%nat -> (max_schedules settings <= size (make_room g))%nat ->
  make_room g = g.
Proof.
  intros Hle Hge. apply map_subseteq_size_eq; [|lia].
  unfold make_room. destruct (_ <=? _)%nat; [apply map_filter_subseteq | done].
Qed.

Lemma make_room_keeps g k r :
  (size g <= max_schedules settings)%nat -> g !! k = Some r ->
  make_room g !! k = Some r \/ (status r <> ACTIVE /\ size g = max_schedules settings).
Proof.
  intros Hsize Hr. unfold make_room. destruct (_ <=? _)%nat eqn:E; [|by left]. apply Nat.leb_le in E.
  destruct (decide (status r = ACTIVE)) as [Ha|Ha]; [left | right; split; [done | lia]].
  apply map_lookup_filter_Some. done.
Qed.

Lemma activate_keeps fresh id' spec req o now s k r :
  (size (rows (world s)) <= max_schedules settings)%nat -> rows (world s) !! k = Some r -> fresh <> k ->
  rows (world (fst (activate fresh id' spec req o now s))) !! k = Some r
  \/ (status r <> ACTIVE /\ is_Some (Some fresh) /\ size (rows (world s)) = max_schedules settings).
Proof.
  intros Hsize Hr Hd. destruct (activate _ _ _ _ _ _ s) as [s' res] eqn:E.
  apply activate_spec in E as [(e & -> & _)|(p & first & s1 & r1 & _ & _ & _ & _ & Hc & _ & _ & Hw)]; [by left|].
  simpl. apply create_spec_spec in Hc as (_ & _ & Hc).
  assert (Hrows : rows (world s') = rows (world s1)) by (rewrite Hw; by destruct r1). rewrite Hrows.
  destruct (make_room_keeps _ k r Hsize Hr) as [Hk|[Hs Hf]]; [|right; eauto]. left.
  destruct r1 as [row|e].
  - destruct Hc as (occ & _ & _ & _ & _ & -> & _). by rewrite lookup_insert_ne.
  - by destruct Hc as [_ [-> |[_ ->]]].
Qed.

Lemma cancel_keeps o id' s k r :
  rows (world s) !! k = Some r -> owner r <> o -> rows (world (fst (cancel o id' s))) !! k = Some r.
Proof.
  intros Hr Hne. destruct (cancel o id' s) as [s' res] eqn:E. apply cancel_spec in E as (_ & _ & E). simpl.
  destruct res as [[r'|]|e]; [|by destruct E as [-> _]..].
  destruct E as (r0 & Hr0 & Ho & _ & -> & _). rewrite lookup_insert_ne; [done|]. intros ->.
  rewrite Hr in Hr0. injection Hr0 as <-. unfold owned in Ho. by apply andb_true_iff in Ho as [_ Ho%teqb_eq].
Qed.

Lemma create_spec_limit fresh spec req o start_at now s s' :
  create_spec fresh spec req o start_at now s = (s', Err (err_code "SCHEDULE_LIMIT")) ->
  rows (world s') = make_room (rows (world s)) ->
  rows (world s') = rows (world s) \/ (max_schedules settings <= size (make_room (rows (world s))))%nat.
Proof.
  intros H Hr. unfold create_spec in H. destruct (negb _); [by injection H as <-; left|].
  unfold mbind at 1, eff_bind at 1, lift in H. destruct (next_of spec now start_at) as [occ|e]; [|injection H as <- _; by left].
  unfold mbind, eff_bind, asks, update in H. cbn [world trace] in H.
  destruct (_ <=? _)%nat eqn:E; [right; by apply Nat.leb_le in E|].
  destruct (catch (persist _) _) as [s1 c] eqn:Ec. apply catch_persist_spec in Ec as (_ & _ & _ & Ec).
  destruct Ec as [[-> _]|(e & -> & _)]; [done|]. injection H as <- _. by left.
Qed.

Lemma activate_err fresh id' spec req o now s s' e :
  (size (rows (world s)) <= max_schedules settings)%nat -> activate fresh id' spec req o now s = (s', Err e) ->
  rows (world s') = rows (world s) /\ previews (world s') = previews (world s) /\ file (world s') = file (world s).
Proof.
  intros Hsize H. apply activate_spec in H as [(e' & -> & _)|(p & first & s1 & r1 & _ & _ & _ & _ & Hc & <- & _ & ->)];
    [done|].
  pose proof Hc as Hc'. apply create_spec_spec in Hc' as (Hp & _ & Hf & [Hr|[-> Hr]]); [done|].
  split; [|done]. destruct (create_spec_limit _ _ _ _ _ _ _ _ Hc Hr) as [?|Hge]; [done|].
  rewrite Hr. by apply make_room_id.
Qed.

(** A schedule is created from an exact, live, one-time preview.  An
    activation succeeds only with a preview of the same owner, specification
    and request that has not expired; the preview is spent, so it cannot be
    activated again; the new row is active, belongs to the owner, is anchored
    at the preview and fires in the future (for an interval: exactly at the
    first occurrence that was previewed); the table stays within its bound. *)
Theorem activation_bound_to_preview (fresh id' : text) (spec : ScheduleSpec) (req : json) (o : text) (now : Z)
    (s s' : st World act) (r : Schedule) :
  previews_made (world s) -> activate fresh id' spec req o now s = (s', Ok r) ->
  exists p, previews (world s) !! id' = Some p
    /\ p_owner p = o /\ p_spec p = spec /\ value_eqb (p_request p) req = true /\ anchor p <= now < expires p
    /\ previews (world s') = delete id' (previews (world s))
    /\ (forall fresh2 spec2 req2 o2 now2, activate fresh2 id' spec2 req2 o2 now2 s'
                                          = (s', Err (err_code "SCHEDULE_PREVIEW_REQUIRED")))
    /\ rows (world s') !! fresh = Some r /\ (size (rows (world s')) <= max_schedules settings)%nat
    /\ status r = ACTIVE /\ owner r = o /\ request r = req /\ schedule r = Some spec /\ created_at r = anchor p
    /\ now < next_fire_at r
    /\ (forall seconds, spec = Interval seconds ->
          exists first, head (occurrences p) = Some first
            /\ next_fire_at r = at_time first /\ next_occurrence_id r = identity first).
Proof.
  intros Hmade H. apply activate_spec in H as [(e & _ & He)|(p & first & s1 & r1 & Hp & Hm & Hh & Hlt & Hc & <- & _ & Hw)];
    [done|].
  exists p. split; [done|]. apply preview_matches_inv in Hm as (<- & <- & Hreq & Hnow).
  split; [done|]. split; [done|]. split; [done|]. split; [done|].
  apply create_spec_spec in Hc as (_ & _ & occ & _ & Hocc & -> & Hsize & Hrows & _).
  assert (Hprev : previews (world s') = delete id' (previews (world s))) by by rewrite Hw.
  split; [done|]. split.
  { intros. unfold activate. unfold mbind, eff_bind, asks. by rewrite Hprev, lookup_delete_eq. }
  rewrite Hw. simpl. rewrite Hrows. split; [apply lookup_insert_eq|]. split.
  { rewrite map_size_insert. destruct (make_room _ !! fresh); cbn; lia. }
  pose proof (next_of_after _ _ _ _ Hocc). split_and!; try done.
  intros seconds Hs. exists first. split; [done|]. pose proof (Hmade id' p Hp) as Hocs. simpl in Hocs.
  rewrite Hs in Hocs, Hocc. apply bind_Ok_inv in Hocs as (o1 & Ho1 & Hocs). apply bind_Ok_inv in Hocs as (? & _ & Hocs).
  unfold mret, result_ret in Hocs. injection Hocs as Hocs. rewrite <- Hocs in Hh. simpl in Hh. injection Hh as ->.
  rewrite (interval_first_stable seconds (anchor p) now first occ Ho1) by (done || lia). done.
Qed.

(** The account an operation acts for. *)
Definition acts_for (x : op) : option text :=
  match x with
  | OpPreview _ _ _ o _ | OpActivate _ _ _ _ o _ | OpCancel o _ | OpCancelOwner o => Some o
  | OpDispatch _ _ _ _ | OpRestart _ => None
  end.

(** Failed changes are undone and owners are isolated.  While the table is
    within its bound, an activation or a cancellation that fails (the table
    is full, the file cannot be written, ...) leaves the rows, the previews
    and the file as they were.  Whatever an account does, the rows of every
    other account stay as they are; the one exception is that an activation
    that finds the table full may drop rows that are no longer active. *)
Theorem changes_atomic_and_isolated (s : st World act) :
  (size (rows (world s)) <= max_schedules settings)%nat ->
  (forall s' e, (exists fresh id' spec req o now, activate fresh id' spec req o now s = (s', Err e))
                \/ (exists o id', cancel o id' s = (s', Err e)) \/ (exists o, cancel_owner o s = (s', Err e)) ->
     rows (world s') = rows (world s) /\ previews (world s') = previews (world s) /\ file (world s') = file (world s))
  /\ (forall x o k r, acts_for x = Some o -> rows (world s) !! k = Some r -> owner r <> o -> draws x <> Some k ->
        rows (world (run_op s x)) !! k = Some r
        \/ (status r <> ACTIVE /\ is_Some (draws x) /\ size (rows (world s)) = max_schedules settings)).
Proof.
  intros Hsize. split.
  - intros s' e [(fresh & id' & spec & req & o & now & H)|[(o & id' & H)|(o & H)]].
    + exact (activate_err _ _ _ _ _ _ _ _ _ Hsize H).
    + apply cancel_spec in H as (Hp & _ & Hr & Hf). done.
    + apply cancel_owner_spec in H as (Hp & _ & [[Hr Hf]|(n & ? & _)]); done.
  - intros x o k r Ho Hr Hne Hd. destruct x; simpl in Ho; try discriminate Ho; injection Ho as ->; simpl.
    + left. destruct (preview _ _ _ _ _ s) as [s' res] eqn:E. apply preview_spec in E as (H1 & _). simpl. by rewrite H1.
    + simpl in Hd. apply activate_keeps; [done | done | congruence].
    + left. by apply cancel_keeps.
    + left. destruct (cancel_owner o s) as [s' res] eqn:E.
      apply cancel_owner_spec in E as (_ & _ & [[H1 _]|(n & _ & H1 & _)]); simpl; rewrite H1; [done|].
      rewrite lookup_fmap, Hr. simpl. unfold owner_active. by rewrite (proj2 (teqb_neq (owner r) o) Hne).
Qed.
End Store.

(** ** Witnesses *)

(** A calendar that knows no cron expression, thousandths of a second, a file
    that holds the rows themselves and a disk whose fourth write fails. *)
Section Demo.
Definition demo_eqb (a b : json) : bool :=
  match a, b with JStr x, JStr y => teqb x y | JNull, JNull => true | _, _ => false end.
Definition demo_disk (n : nat) : bool := negb (n =? 3)%nat.
Definition demo_settings : Settings := MkSettings 1000 10 600 8 4.
Definition demo_chrono : Chrono :=
  MkChrono unit unit (fun _ => None) (fun _ => None) (fun _ t => Some t) (fun _ _ => []) (fun _ t => LSingle t)
           (fun _ => []) (fun _ _ => []) (fun t => Some (show_nat t)).
Definition demo_run : st (World (list Schedule)) act -> op -> st (World (list Schedule)) act :=
  run_op demo_chrono 1000 (list Schedule) (fun b => Z.of_nat (length b)) (fun b => b) Some demo_eqb demo_disk demo_settings.
Definition demo_id (c : string) : text := concat (repeat (T c) 32).
Definition demo_world : World (list Schedule) := MkWorld (list Schedule) ∅ ∅ None 0.
Definition demo_start : st (World (list Schedule)) act := St demo_world [].
Definition demo_spec : ScheduleSpec := Interval 60.
Definition demo_setup : list op :=
  [OpPreview (T "p1") demo_spec JNull (T "local") 100000;
   OpActivate (demo_id "a") (T "p1") demo_spec JNull (T "local") 110000].
Definition demo_ready : st (World (list Schedule)) act := foldl demo_run demo_start demo_setup.
Definition demo_row (r : option Schedule) : Schedule :=
  from_option id (new_row [] demo_spec JNull [] 0 (MkOccurrence 0 [] [])) r.
(** The row as the scheduler finds it due. *)
Definition demo_due : Schedule := demo_row (rows _ (world demo_ready) !! demo_id "a").
Definition demo_ops : list op :=
  demo_setup ++ [OpDispatch demo_due 161000 Accepted Accepted; OpDispatch demo_due 162000 Accepted Accepted;
                 OpRestart 163000; OpDispatch demo_due 164000 Accepted Accepted].
End Demo.

Lemma dispatch_at_most_once_witness :
  starts (trace (foldl demo_run demo_start demo_ops)) = [(demo_id "a", 160000)]
  /\ NoDup (starts (trace (foldl demo_run demo_start demo_ops))).
Proof.
  split; [vm_compute; reflexivity|].
  apply (dispatch_at_most_once demo_chrono 1000 (list Schedule) (fun b => Z.of_nat (length b)) (fun b => b) Some
           demo_eqb demo_disk demo_settings ltac:(reflexivity) demo_world demo_ops).
  - intros k r H. exfalso. exact (lookup_empty_Some _ _ H).
  - simpl. repeat constructor. apply not_elem_of_nil.
  - simpl. repeat constructor. intros [(r & [(k & H)|(b & parsed & H & _)] & _)|(t & H)].
    + exact (lookup_empty_Some _ _ H).
    + discriminate H.
    + by apply elem_of_nil in H.
Defined.

Lemma dispatch_contract_witness :
  exists s' rest,
    consume_and_dispatch demo_chrono 1000 (list Schedule) (fun b => Z.of_nat (length b)) (fun b => b)
      demo_disk demo_settings demo_due 161000 Accepted Accepted demo_ready = (s', Ok (Some Accepted))
    /\ starts rest = [] /\ trace s' = trace demo_ready
       ++ Did Gated :: Did (Wrote (values (<[demo_id "a" := set_next (set_fired demo_due (T "skipped_refused"))
                                                  (MkOccurrence 220000 (T "interval:2") (T "220"))]>
                                            (rows _ (world demo_ready)))) true)
       :: Did (Started (demo_id "a") 160000) :: rest.
Proof.
  destruct (consume_and_dispatch demo_chrono 1000 (list Schedule) (fun b => Z.of_nat (length b)) (fun b => b)
      demo_disk demo_settings demo_due 161000 Accepted Accepted demo_ready) as [s' res] eqn:E.
  assert (Hrow : rows _ (world demo_ready) !! schedule_id demo_due = Some demo_due) by (vm_compute; reflexivity).
  assert (Hdue : still_due demo_due demo_due 161000 = true) by (vm_compute; reflexivity).
  assert (Hs : schedule demo_due = Some demo_spec) by (vm_compute; reflexivity).
  assert (Hres : res = Ok (Some Accepted))
    by (apply (f_equal snd) in E; vm_compute in E; symmetry; exact E).
  destruct (dispatch_contract demo_chrono 1000 (list Schedule) (fun b => Z.of_nat (length b)) (fun b => b)
      demo_disk demo_settings demo_due demo_due demo_spec 161000 Accepted Accepted demo_ready s' res Hrow Hdue Hs E)
    as (_ & _ & _ & [(_ & _ & _ & H)|[(H & _)|[(_ & _ & _ & _ & H)|(_ & _ & _ & _ & _ & rest & Hrest & Ht)]]]);
    [congruence | discriminate H | rewrite Hres in H; discriminate H |].
  exists s', rest. split; [by rewrite Hres|]. split; [exact Hrest|]. rewrite Ht. reflexivity.
Defined.

Lemma recovery_dispatches_nothing_witness :
  exists s', open_at demo_chrono 1000 (list Schedule) (fun b => Z.of_nat (length b)) (fun b => b) Some
      demo_disk demo_settings 161000 demo_ready = (s', Ok tt)
    /\ starts (trace s') = [] /\ due _ (world s') 161000 = [].
Proof.
  destruct (open_at demo_chrono 1000 (list Schedule) (fun b => Z.of_nat (length b)) (fun b => b) Some
      demo_disk demo_settings 161000 demo_ready) as [s' res] eqn:E.
  assert (Hres : res = Ok tt) by (apply (f_equal snd) in E; vm_compute in E; symmetry; exact E).
  rewrite Hres in E.
  destruct (recovery_dispatches_nothing demo_chrono 1000 (list Schedule) (fun b => Z.of_nat (length b)) (fun b => b) Some
      demo_disk demo_settings 161000 demo_ready s' E) as (H1 & H2 & _).
  exists s'. split; [by rewrite Hres|]. split; [rewrite H1; vm_compute; reflexivity | exact H2].
Defined.

Definition demo_previewed : st (World (list Schedule)) act :=
  demo_run demo_start (OpPreview (T "p1") demo_spec JNull (T "local") 100000).

Lemma activation_bound_to_preview_witness :
  exists s' r, activate demo_chrono 1000 (list Schedule) (fun b => Z.of_nat (length b)) (fun b => b)
      demo_eqb demo_disk demo_settings (demo_id "a") (T "p1") demo_spec JNull (T "local") 110000 demo_previewed
      = (s', Ok r)
    /\ owner r = T "local" /\ 110000 < next_fire_at r.
Proof.
  destruct (activate demo_chrono 1000 (list Schedule) (fun b => Z.of_nat (length b)) (fun b => b)
      demo_eqb demo_disk demo_settings (demo_id "a") (T "p1") demo_spec JNull (T "local") 110000 demo_previewed)
    as [s' res] eqn:E.
  assert (Hres : exists r, res = Ok r) by (apply (f_equal snd) in E; vm_compute in E; eexists; symmetry; exact E).
  destruct Hres as (r & Hres). rewrite Hres in E.
  destruct (activation_bound_to_preview demo_chrono 1000 (list Schedule) (fun b => Z.of_nat (length b)) (fun b => b)
      demo_eqb demo_disk demo_settings (demo_id "a") (T "p1") demo_spec JNull (T "local") 110000 demo_previewed s' r)
    as (p & _ & _ & _ & _ & _ & _ & _ & _ & _ & _ & Ho & _ & _ & _ & Hn & _).
  - apply preview_made. intros k p Hp. exfalso. exact (lookup_empty_Some _ _ Hp).
  - exact E.
  - exists s', r. split; [by rewrite Hres|]. split; [exact Ho | exact Hn].
Defined.

Lemma changes_atomic_and_isolated_witness :
  rows _ (world (demo_run demo_ready (OpCancelOwner (T "user_ann")))) !! demo_id "a" = Some demo_due.
Proof.
  assert (Hsize : (size (rows _ (world demo_ready)) <= max_schedules demo_settings)%nat)
    by (apply Nat.leb_le; vm_compute; reflexivity).
  assert (Hrow : rows _ (world demo_ready) !! demo_id "a" = Some demo_due) by (vm_compute; reflexivity).
  assert (Hne : owner demo_due <> T "user_ann") by (vm_compute; discriminate).
  destruct (proj2 (changes_atomic_and_isolated demo_chrono 1000 (list Schedule) (fun b => Z.of_nat (length b)) (fun b => b) Some
           demo_eqb demo_disk demo_settings demo_ready Hsize) (OpCancelOwner (T "user_ann")) (T "user_ann")
           (demo_id "a") demo_due eq_refl Hrow Hne ltac:(discriminate)) as [H|(H & _)]; [exact H|].
  exfalso. apply H. vm_compute. reflexivity.
Defined.
