(* ===== verification/ToolBroker.v ===== *)
(** The tool name gate, [common/tool_broker.rs]: an empty allowlist denies
    everything, and the audit line carries a digest of the arguments, never
    the arguments.  SHA-256 is a parameter; what is hashed is modelled to the
    character. *)

From S2P Require Import Prelude Text Effects.
Local Open Scope Z_scope.

Record ToolVerdict := MkVerdict { allowed : bool; reason : text; tool : text; digest : text }.

(** ** The hashed payload *)

(** One digit of [{:04x}]. *)
Definition hex_digit (n : Z) : char := if n <? 10 then 48 + n else 87 + n.
(** [\u{:04x}] *)
Definition unicode_escape (u : Z) : text :=
  [92; 117; hex_digit (u / 4096 mod 16); hex_digit (u / 256 mod 16); hex_digit (u / 16 mod 16); hex_digit (u mod 16)].

(** [char::encode_utf16] *)
Definition encode_utf16 (c : char) : list Z :=
  if c <? 65536 then [c]
  else [55296 + Z.shiftr (c - 65536) 10; 56320 + Z.land (c - 65536) 1023].

Definition escape_char (c : char) : text :=
  if c =? 34 then [92; 34]
  else if c =? 92 then [92; 92]
  else if c =? 10 then [92; 110]
  else if c =? 13 then [92; 114]
  else if c =? 9 then [92; 116]
  else if c <? 32 then unicode_escape c
  else if c <? 128 then [c]
  else concat (map unicode_escape (encode_utf16 c)).

Definition quoted (arg : text) : text := [34] ++ concat (map escape_char arg) ++ [34].
Definition compact_ascii_json (argv : list text) : text := [91] ++ join [44] (map quoted argv) ++ [93].

Section Broker.
Context {W F : Type}.
Context (sha256_hex : text -> text).

Definition argv_digest (argv : list text) : text := sha256_hex (compact_ascii_json argv).

(** [decide] *)
Definition broker_decide (name : text) (argv : list text) (allowlist : gset text) : ToolVerdict :=
  let d := argv_digest argv in
  let t := trim name in
  if bool_decide (t = []) then MkVerdict false (T "empty tool name") t d
  else if negb (bool_decide (t ∈ allowlist)) then MkVerdict false (T "unknown tool") t d
  else MkVerdict true (T "allowlisted") t d.

Definition verdict_event (v : ToolVerdict) : audit_event :=
  Event "tool_broker_decision"
    [("tool", JStr (tool v)); ("argv_digest", JStr (digest v)); ("allowed", JBool (allowed v));
     ("reason", JStr (reason v))].

Definition assert_allowed (name : text) (argv : list text) (allowlist : gset text) : eff W F harness_error ToolVerdict :=
  let v := broker_decide name argv allowlist in
  _ ← log (verdict_event v);
  if negb (allowed v) then fail err_tool_denied else mret v.
End Broker.

(** ** Lemmas *)

(** A Unicode scalar value. *)
Definition scalar (c : char) : Prop := 0 <= c < 1114112 /\ ~ (55296 <= c < 57344).

(** The UTF-16 unit behind one escape; [char] of an escape below 128. *)
Definition escape_unit (u : Z) : text :=
  if u =? 34 then [92; 34]
  else if u =? 92 then [92; 92]
  else if u =? 10 then [92; 110]
  else if u =? 13 then [92; 114]
  else if u =? 9 then [92; 116]
  else if u <? 32 then unicode_escape u
  else if u <? 128 then [u]
  else unicode_escape u.

Definition hex_value (c : char) : Z := if c <? 58 then c - 48 else c - 87.

(** Read one escape. *)
Definition read_unit (t : text) : option (Z * text) :=
  match t with
  | 92 :: 117 :: a :: b :: c :: d :: r =>
      Some (hex_value a * 4096 + hex_value b * 256 + hex_value c * 16 + hex_value d, r)
  | 92 :: e :: r =>
      Some (if e =? 110 then 10 else if e =? 114 then 13 else if e =? 116 then 9 else e, r)
  | c :: r => Some (c, r)
  | [] => None
  end.

Lemma hex_value_digit n : 0 <= n < 16 -> hex_value (hex_digit n) = n.
Proof.
  intros H. unfold hex_value, hex_digit. destruct (n <? 10) eqn:E.
  - apply Z.ltb_lt in E. replace (48 + n <? 58) with true by (symmetry; apply Z.ltb_lt; lia). lia.
  - apply Z.ltb_ge in E. replace (87 + n <? 58) with false by (symmetry; apply Z.ltb_ge; lia). lia.
Qed.

Lemma read_unicode u r : 0 <= u < 65536 -> read_unit (unicode_escape u ++ r) = Some (u, r).
Proof.
  intros H. unfold unicode_escape. simpl app. unfold read_unit.
  rewrite !hex_value_digit by (apply Z.mod_pos_bound; lia). f_equal. f_equal.
  rewrite (Z.mod_small (u / 4096)) by (split; [apply Z.div_pos; lia | apply Z.div_lt_upper_bound; lia]).
  pose proof (Z.div_mod u 16 ltac:(lia)). pose proof (Z.div_mod (u / 16) 16 ltac:(lia)).
  pose proof (Z.div_mod (u / 16 / 16) 16 ltac:(lia)).
  rewrite !Z.div_div in * by lia. change (16 * 16) with 256 in *. change (256 * 16) with 4096 in *. lia.
Qed.

Lemma read_escape_unit u r : 0 <= u < 65536 -> read_unit (escape_unit u ++ r) = Some (u, r).
Proof.
  intros H. unfold escape_unit.
  repeat (match goal with |- context [if ?b then _ else _] => destruct b eqn:? end; guards; subst; [try done|]);
    try (by apply read_unicode).
  simpl. repeat case_match; subst; try done; lia.
Qed.

Lemma escape_unit_head u : 0 <= u -> exists c t, escape_unit u = c :: t /\ c <> 34.
Proof.
  intros H. unfold escape_unit.
  repeat (match goal with |- context [if ?b then _ else _] => destruct b eqn:? end; guards);
    (eexists _, _; split; [reflexivity | lia]).
Qed.

Lemma encode_utf16_range c : scalar c -> Forall (fun u => 0 <= u < 65536) (encode_utf16 c).
Proof.
  intros [H _]. unfold encode_utf16. destruct (c <? 65536) eqn:E; guards; [by repeat constructor; lia|].
  assert (0 <= Z.shiftr (c - 65536) 10 < 1024).
  { rewrite Z.shiftr_div_pow2 by lia. split; [apply Z.div_pos; lia | apply Z.div_lt_upper_bound; lia]. }
  change 1023 with (Z.ones 10). rewrite Z.land_ones by lia. pose proof (Z.mod_pos_bound (c - 65536) (2 ^ 10) ltac:(lia)).
  repeat constructor; lia.
Qed.

(** Reading UTF-16 back. *)
Fixpoint decode_utf16 (us : list Z) : text :=
  match us with
  | [] => []
  | u :: rest =>
      if (55296 <=? u) && (u <? 56320)
      then match rest with
           | v :: rest' => (65536 + (u - 55296) * 1024 + (v - 56320)) :: decode_utf16 rest'
           | [] => []
           end
      else u :: decode_utf16 rest
  end.

Lemma decode_encode c us : scalar c -> decode_utf16 (encode_utf16 c ++ us) = c :: decode_utf16 us.
Proof.
  intros [H Hs]. unfold encode_utf16. destruct (c <? 65536) eqn:E; guards; simpl.
  - replace ((55296 <=? c) && (c <? 56320)) with false; [done|]. symmetry. apply andb_false_iff.
    destruct (Z.leb_spec 55296 c); [right; apply Z.ltb_ge; lia | by left].
  - rewrite Z.shiftr_div_pow2 by lia. change 1023 with (Z.ones 10). rewrite Z.land_ones by lia.
    change (2 ^ 10) with 1024. pose proof (Z.div_mod (c - 65536) 1024 ltac:(lia)).
    assert (0 <= (c - 65536) / 1024 < 1024) by (split; [apply Z.div_pos; lia | apply Z.div_lt_upper_bound; lia]).
    rewrite (proj2 (Z.leb_le _ _)), (proj2 (Z.ltb_lt _ _)) by lia. simpl. f_equal. lia.
Qed.

Definition units (s : text) : list Z := concat (map encode_utf16 s).

Lemma decode_units s : Forall scalar s -> decode_utf16 (units s) = s.
Proof.
  unfold units. induction 1 as [|c s Hc Hs IH]; [done|]. simpl. rewrite decode_encode by done. by rewrite IH.
Qed.

Lemma escape_units s : Forall scalar s -> concat (map escape_char s) = concat (map escape_unit (units s)).
Proof.
  unfold units. induction 1 as [|c s Hc Hs IH]; [done|]. simpl. rewrite map_app, concat_app, IH. f_equal.
  unfold escape_char, encode_utf16.
  destruct (c <? 65536) eqn:E; guards; simpl; rewrite ?app_nil_r.
  - unfold escape_unit. repeat case_match; try done; simpl; by rewrite ?app_nil_r.
  - assert (Hr := encode_utf16_range c Hc). unfold encode_utf16 in Hr.
    rewrite (proj2 (Z.ltb_ge _ _)) in Hr by lia. apply Forall_cons in Hr as [H1 Hr]. apply Forall_cons in Hr as [H2 _].
    assert (Hbig : forall u, 55296 <= u -> escape_unit u = unicode_escape u).
    { intros u Hu. unfold escape_unit. repeat case_match; guards; lia || done. }
    replace (c =? 34) with false by (symmetry; apply Z.eqb_neq; lia).
    replace (c =? 92) with false by (symmetry; apply Z.eqb_neq; lia).
    replace (c =? 10) with false by (symmetry; apply Z.eqb_neq; lia).
    replace (c =? 13) with false by (symmetry; apply Z.eqb_neq; lia).
    replace (c =? 9) with false by (symmetry; apply Z.eqb_neq; lia).
    replace (c <? 32) with false by (symmetry; apply Z.ltb_ge; lia).
    replace (c <? 128) with false by (symmetry; apply Z.ltb_ge; lia).
    assert (0 <= Z.shiftr (c - 65536) 10) by (apply Z.shiftr_nonneg; lia).
    assert (0 <= Z.land (c - 65536) 1023) by (apply Z.land_nonneg; lia).
    rewrite !Hbig by lia. done.
Qed.

(** What follows the closing quote tells two argument bodies apart. *)
Lemma escape_body_inj us vs r r' :
  Forall (fun u => 0 <= u < 65536) us -> Forall (fun u => 0 <= u < 65536) vs ->
  concat (map escape_unit us) ++ 34 :: r = concat (map escape_unit vs) ++ 34 :: r' -> us = vs /\ r = r'.
Proof.
  intros Hu. revert vs. induction Hu as [|u us Hu Hus IH]; intros vs Hv H; destruct Hv as [|v vs Hv Hvs]; simpl in H.
  - split; [done | congruence].
  - destruct (escape_unit_head v) as (c & t & E & Hc); [lia|]. rewrite E in H. simpl in H. congruence.
  - destruct (escape_unit_head u) as (c & t & E & Hc); [lia|]. rewrite E in H. simpl in H. congruence.
  - rewrite <- !app_assoc in H. apply (f_equal read_unit) in H. rewrite !read_escape_unit in H by done.
    injection H as -> H. destruct (IH vs Hvs H) as [-> ->]. done.
Qed.

Lemma units_range s : Forall scalar s -> Forall (fun u => 0 <= u < 65536) (units s).
Proof.
  unfold units. induction 1 as [|c s Hc Hs IH]; simpl; [constructor|]. apply Forall_app. split; [by apply encode_utf16_range | done].
Qed.

Lemma quoted_inj a b r r' :
  Forall scalar a -> Forall scalar b -> quoted a ++ r = quoted b ++ r' -> a = b /\ r = r'.
Proof.
  intros Ha Hb H. unfold quoted in H. simpl in H. injection H as H. rewrite <- !app_assoc in H. simpl in H.
  rewrite !escape_units in H by done. apply escape_body_inj in H as [H ->]; [|by apply units_range..].
  split; [|done]. apply (f_equal decode_utf16) in H. by rewrite !decode_units in H.
Qed.

Lemma join_quoted a b l : join [44] (map quoted (a :: b :: l)) = quoted a ++ [44] ++ join [44] (map quoted (b :: l)).
Proof. reflexivity. Qed.

Lemma joined_inj l l' :
  Forall (Forall scalar) l -> Forall (Forall scalar) l' ->
  join [44] (map quoted l) ++ [93] = join [44] (map quoted l') ++ [93] -> l = l'.
Proof.
  intros Hl. revert l'. induction Hl as [|a l Ha Hl IH]; intros l' Hl' H; destruct Hl' as [|b l' Hb Hl']; [done|..].
  - exfalso. destruct l'; discriminate H.
  - exfalso. destruct l; discriminate H.
  - destruct l as [|a2 l], l' as [|b2 l'].
    + simpl in H. apply quoted_inj in H as [-> _]; done.
    + exfalso. rewrite join_quoted in H. simpl join in H. rewrite <- !app_assoc in H.
      apply quoted_inj in H as [_ H]; [discriminate H | done..].
    + exfalso. rewrite join_quoted in H. simpl join in H. rewrite <- !app_assoc in H.
      apply quoted_inj in H as [_ H]; [discriminate H | done..].
    + rewrite !join_quoted, <- !app_assoc in H. apply quoted_inj in H as [-> H]; [|done..].
      simpl in H. injection H as H. f_equal. apply IH; [done | exact H].
Qed.

Lemma compact_ascii_json_inj l l' :
  Forall (Forall scalar) l -> Forall (Forall scalar) l' -> compact_ascii_json l = compact_ascii_json l' -> l = l'.
Proof. intros Hl Hl' H. unfold compact_ascii_json in H. simpl in H. injection H as H. by apply joined_inj. Qed.

Definition printable (c : char) : Prop := 32 <= c < 128.

Lemma hex_digit_printable n : 0 <= n < 16 -> printable (hex_digit n).
Proof. intros H. unfold printable, hex_digit. destruct (n <? 10) eqn:E; guards; lia. Qed.

Lemma escape_unit_printable u : 0 <= u < 65536 -> Forall printable (escape_unit u).
Proof.
  intros H. assert (Hx : forall n, printable (hex_digit (n mod 16))).
  { intros n. apply hex_digit_printable. apply Z.mod_pos_bound. lia. }
  assert (He : Forall printable (unicode_escape u)).
  { unfold unicode_escape. repeat (apply Forall_cons; split); try apply Hx; try constructor; done. }
  unfold escape_unit. repeat case_match; guards; try exact He;
    repeat (apply Forall_cons; split); try constructor; try done; lia.
Qed.

Lemma quoted_printable a : Forall scalar a -> Forall printable (quoted a).
Proof.
  intros Ha. unfold quoted. rewrite escape_units by done. repeat (apply Forall_app; split); try by repeat constructor.
  pose proof (units_range a Ha) as Hr. induction Hr as [|u us Hu Hus IH]; simpl; [constructor|].
  apply Forall_app. split; [by apply escape_unit_printable | exact IH].
Qed.

Lemma compact_ascii_json_printable l : Forall (Forall scalar) l -> Forall printable (compact_ascii_json l).
Proof.
  intros Hl. unfold compact_ascii_json. repeat (apply Forall_app; split); try by repeat constructor.
  induction Hl as [|a l Ha Hl IH]; [constructor|]. destruct l as [|b l]; [by apply quoted_printable|].
  rewrite join_quoted. apply Forall_app. split; [by apply quoted_printable|]. apply Forall_cons. split; [done | exact IH].
Qed.

(** ** Properties *)

(** The tool gate.  A tool is allowed exactly when its trimmed name is not
    empty and is in the allowlist, so an empty allowlist denies everything; a
    denial is the error TOOL_DENIED.  Either way exactly one audit line is
    written, before the answer, with the name, the verdict and the digest of
    the arguments and nothing else of them.  The digest is of a payload that
    is printable ASCII and from which the argument list can be read back: two
    lists of Unicode strings with the same payload are the same list. *)
Theorem tool_gate_exact {W F : Type} (sha256_hex : text -> text) (name : text) (argv argv' : list text)
    (allowlist : gset text) (s s' : st W F) (r : result harness_error ToolVerdict) :
  Forall (Forall scalar) argv -> Forall (Forall scalar) argv' ->
  assert_allowed sha256_hex name argv allowlist s = (s', r) ->
  let granted := negb (bool_decide (trim name = [])) && bool_decide (trim name ∈ allowlist) in
  world s' = world s
  /\ (exists why, trace s' = trace s ++ [Audited (Event "tool_broker_decision"
        [("tool", JStr (trim name)); ("argv_digest", JStr (sha256_hex (compact_ascii_json argv)));
         ("allowed", JBool granted); ("reason", JStr why)])])
  /\ (granted = true -> exists v, r = Ok v /\ tool v = trim name /\ allowed v = true)
  /\ (granted = false -> r = Err err_tool_denied)
  /\ (allowlist = ∅ -> r = Err err_tool_denied)
  /\ Forall printable (compact_ascii_json argv)
  /\ (compact_ascii_json argv' = compact_ascii_json argv -> argv' = argv).
Proof.
  intros Hv Hv' H granted.
  assert (Hcase : allowed (broker_decide sha256_hex name argv allowlist) = granted
                  /\ tool (broker_decide sha256_hex name argv allowlist) = trim name
                  /\ digest (broker_decide sha256_hex name argv allowlist) = sha256_hex (compact_ascii_json argv)).
  { unfold broker_decide, granted. do 2 case_bool_decide; done. }
  destruct Hcase as (H1 & H2 & H3). unfold assert_allowed, mbind, eff_bind, log in H. rewrite H1 in H.
  assert (Hs : s' = St (world s) (trace s ++ [Audited (verdict_event (broker_decide sha256_hex name argv allowlist))])
               /\ r = if granted then Ok (broker_decide sha256_hex name argv allowlist) else Err err_tool_denied).
  { by destruct granted; injection H as <- <-. }
  destruct Hs as [-> ->]. split; [done|]. split.
  { exists (reason (broker_decide sha256_hex name argv allowlist)). unfold verdict_event. by rewrite H1, H2, H3. }
  split; [intros ->; eauto|]. split; [by intros ->|]. split.
  { intros ->. unfold granted. rewrite (bool_decide_false (_ ∈ _)) by set_solver. by rewrite andb_false_r. }
  split; [by apply compact_ascii_json_printable | by apply compact_ascii_json_inj].
Qed.

Lemma tool_gate_exact_witness :
  compact_ascii_json [T "-n"; [233; 128512; 34]] = T "[" ++ quoted (T "-n") ++ T ","
    ++ [34] ++ T "\u00e9\ud83d\ude00" ++ [92; 34; 34] ++ T "]"
  /\ snd (assert_allowed (W := unit) (F := unit) (fun t => t) (T " gh ") [T "-n"] {[ T "gh" ]} (St tt []))
     = Ok (MkVerdict true (T "allowlisted") (T "gh") (compact_ascii_json [T "-n"])).
Proof.
  split; [vm_compute; reflexivity|].
  destruct (assert_allowed (W := unit) (F := unit) (fun t => t) (T " gh ") [T "-n"] {[ T "gh" ]} (St tt [])) as [s' r] eqn:E.
  assert (Hv : Forall (Forall scalar) [T "-n"]).
  { change (T "-n") with [45; 110]. repeat (apply Forall_cons; split); try apply Forall_nil_2; unfold scalar; lia. }
  destruct (tool_gate_exact (W := unit) (F := unit) (fun t => t) (T " gh ") [T "-n"] [T "-n"] {[ T "gh" ]}
              (St tt []) s' r Hv Hv E) as (_ & _ & H & _).
  destruct (H ltac:(vm_compute; reflexivity)) as (v & -> & _).
  apply (f_equal snd) in E. simpl in E. rewrite <- E. vm_compute. reflexivity.
Defined.
