(* ===== verification/Ranking.v ===== *)
(** Retrieval support, [server/retrieval_ranking.rs]: cutting a document into
    chunks, and choosing a diverse set of the best-scored candidates.

    The query parser's regular expressions and the search index are not
    modelled.  A score is an [f32] compared by [total_cmp]; that order is the
    order of an integer, which stands for it here.  SHA-256 is a parameter. *)

From S2P Require Import Prelude Text.
Local Open Scope Z_scope.

(** ** [chunk_text] *)

Definition CHUNK_CHARS : nat := 1200.

(** [rfind] of a newline or a space, as a character position. *)
Fixpoint last_break (s : text) : option nat :=
  match s with
  | [] => None
  | c :: s' => match last_break s' with
               | Some n => Some (S n)
               | None => if (c =? c_newline) || (c =? c_space) then Some O else None
               end
  end.

(** The characters of the next chunk. *)
Definition chunk_len (tail : text) : nat :=
  let head := take CHUNK_CHARS tail in
  if (length head <? length tail)%nat
  then match last_break head with
       | Some i => if byte_len head / 2 <? byte_len (take i head) then S i else length head
       | None => length head
       end
  else length head.

(** [trim_start_matches("# ")] *)
Fixpoint trim_marks (fuel : nat) (s : text) : text :=
  match fuel, s with
  | S fuel, 35 :: 32 :: rest => trim_marks fuel rest
  | _, _ => s
  end.
Definition label (line : text) : text := trim (trim_marks (length line) line).

Definition is_heading (line : text) : bool := starts_with (T "# ") line.
Definition first_heading (chunk : text) : option text := label <$> List.find is_heading (lines chunk).
Definition last_heading (chunk : text) : option text := label <$> List.find is_heading (rev (lines chunk)).

Fixpoint chunk_from (fuel : nat) (start : Z) (heading : text) (tail : text) : list (Z * Z * text * text) :=
  match fuel, tail with
  | O, _ | _, [] => []
  | S fuel, _ =>
      let chunk := take (chunk_len tail) tail in
      let end_ := start + byte_len chunk in
      let heading := from_option id heading (last_heading chunk) in
      let rest := chunk_from fuel end_ heading (drop (chunk_len tail) tail) in
      if bool_decide (trim chunk = []) then rest
      else (start, end_, from_option id heading (first_heading chunk), chunk) :: rest
  end.

Definition chunk_text (document : text) : list (Z * Z * text * text) := chunk_from (length document) 0 [] document.

(** ** [select_diverse] *)

Definition HIT_CAP : nat := 16.

Record RankedCandidate (A : Type) := MkCandidate { item : A; score : Z; tie_key : text; diversity_key : text }.
Arguments MkCandidate {A} _ _ _ _.
Arguments item {A} _.
Arguments score {A} _.
Arguments tie_key {A} _.
Arguments diversity_key {A} _.

(** Best score first, ties by key. *)
Definition ranks_before {A} (a b : RankedCandidate A) : Prop :=
  score b < score a \/ (score a = score b /\ text_le (tie_key a) (tie_key b)).
#[export] Instance ranks_before_dec {A} (a b : RankedCandidate A) : Decision (ranks_before a b).
Proof. unfold ranks_before. apply _. Defined.

(** Fewer than nine tenths of the words of two texts may be shared. *)
Definition too_similar (current old : gset text) : bool :=
  negb (bool_decide (current = ∅)) && (size (current ∪ old) * 9 <? size (current ∩ old) * 10)%nat.

Section Select.
Context {A : Type} (sha256_hex : text -> text) (text_of : A -> text).
Abbreviation candidate := (RankedCandidate A).

Definition normalized (c : candidate) : text := join [c_space] (split_whitespace (text_of (item c))).
Definition hash_of (c : candidate) : text := sha256_hex (normalized c).
Definition words (c : candidate) : gset text := list_to_set (split_whitespace (normalized c)).

Record picks := MkPicks { selected : list candidate; seen_text : gset text; source_counts : gmap text nat }.

Definition count_of (p : picks) (key : text) : nat := from_option id O (source_counts p !! key).

Definition consider (limit cap : nat) (p : picks) (c : candidate) : picks :=
  if (limit <=? length (selected p))%nat then p
  else if (cap <=? count_of p (diversity_key c))%nat then p
  else if bool_decide (hash_of c ∈ seen_text p) || existsb (fun old => too_similar (words c) (words old)) (selected p)
  then p
  else MkPicks (selected p ++ [c]) ({[ hash_of c ]} ∪ seen_text p)
               (<[diversity_key c := S (count_of p (diversity_key c))]> (source_counts p)).

Definition sorted (candidates : list candidate) : list candidate := merge_sort ranks_before candidates.

Definition pass (limit cap : nat) (candidates : list candidate) (p : picks) : picks :=
  foldl (consider limit cap) p candidates.

Definition select_candidates (candidates : list candidate) (limit : nat) : list candidate :=
  let limit := Nat.min limit HIT_CAP in
  let cs := sorted candidates in
  selected (pass limit 2 cs (pass limit 1 cs (MkPicks [] ∅ ∅))).

Definition select_diverse (candidates : list candidate) (limit : nat) : list A :=
  map item (select_candidates candidates limit).
End Select.

(** ** Lemmas *)

Lemma last_break_bound s i : last_break s = Some i -> (i < length s)%nat.
Proof.
  revert i. induction s as [|c s IH]; intros i; simpl; [done|].
  destruct (last_break s) as [n|]; [intros [= <-]; specialize (IH n eq_refl); lia|].
  destruct (_ || _); [intros [= <-]; lia | done].
Qed.

Lemma chunk_len_bounds tail : tail <> [] -> (0 < chunk_len tail <= Nat.min CHUNK_CHARS (length tail))%nat.
Proof.
  intros Hne. unfold chunk_len. set (head := take CHUNK_CHARS tail).
  assert (Hl : length head = Nat.min CHUNK_CHARS (length tail)) by apply length_take.
  assert (H0 : (0 < length tail)%nat) by (destruct tail; simpl; [done | lia]).
  assert (Hp : (0 < length head)%nat) by (rewrite Hl; unfold CHUNK_CHARS; lia).
  destruct (length head <? length tail)%nat; [|lia]. destruct (last_break head) as [i|] eqn:E; [|lia].
  apply last_break_bound in E. destruct (_ <? _); lia.
Qed.

(** The heading in force after some pieces. *)
Definition heading_after (heading : text) (pieces : list text) : text :=
  foldl (fun h c => from_option id h (last_heading c)) heading pieces.

(** The entries of [chunk_from], piece by piece. *)
Fixpoint entries (start : Z) (heading : text) (pieces : list text) : list (Z * Z * text * text) :=
  match pieces with
  | [] => []
  | c :: rest =>
      let heading' := from_option id heading (last_heading c) in
      let more := entries (start + byte_len c) heading' rest in
      if bool_decide (trim c = []) then more
      else (start, start + byte_len c, from_option id heading' (first_heading c), c) :: more
  end.

Lemma chunk_from_entries fuel start heading tail :
  (length tail <= fuel)%nat ->
  exists pieces, concat pieces = tail /\ Forall (fun c => c <> [] /\ (length c <= CHUNK_CHARS)%nat) pieces
    /\ chunk_from fuel start heading tail = entries start heading pieces.
Proof.
  revert start heading tail. induction fuel as [|fuel IH]; intros start heading tail Hf.
  - destruct tail; [|simpl in Hf; lia]. exists []. done.
  - destruct tail as [|x tl]; [exists []; done|]. set (tail := x :: tl) in *.
    pose proof (chunk_len_bounds tail ltac:(done)) as Hb.
    set (c := take (chunk_len tail) tail). set (rest := drop (chunk_len tail) tail).
    assert (Hlc : length c = chunk_len tail) by (unfold c; rewrite length_take; lia).
    destruct (IH (start + byte_len c) (from_option id heading (last_heading c)) rest) as (pieces & Hc & Hall & He).
    { unfold rest. rewrite length_drop. lia. }
    exists (c :: pieces). split; [simpl; rewrite Hc; apply take_drop|]. split.
    { apply Forall_cons. split; [|done]. split; [intros E; rewrite E in Hlc; simpl in Hlc; lia | lia]. }
    change (chunk_from (S fuel) start heading tail)
      with (let heading := from_option id heading (last_heading c) in
            let more := chunk_from fuel (start + byte_len c) heading rest in
            if bool_decide (trim c = []) then more
            else (start, start + byte_len c, from_option id heading (first_heading c), c) :: more).
    cbv zeta. by rewrite He.
Qed.

Lemma entries_text start heading pieces :
  map snd (entries start heading pieces) = List.filter (fun c => negb (bool_decide (trim c = []))) pieces.
Proof.
  revert start heading. induction pieces as [|c rest IH]; intros start heading; simpl; [done|].
  case_bool_decide; simpl; by rewrite IH.
Qed.

Lemma entries_spec start heading pieces s e h c :
  (s, e, h, c) ∈ entries start heading pieces ->
  exists before after, pieces = before ++ c :: after
    /\ s = start + byte_len (concat before) /\ e = s + byte_len c
    /\ h = from_option id (heading_after heading before) (first_heading c).
Proof.
  revert start heading. induction pieces as [|c0 rest IH]; intros start heading Hin; simpl in Hin.
  { by apply elem_of_nil in Hin. }
  assert (Hmore : (s, e, h, c) ∈ entries (start + byte_len c0) (from_option id heading (last_heading c0)) rest ->
    exists before after, c0 :: rest = before ++ c :: after /\ s = start + byte_len (concat before)
      /\ e = s + byte_len c /\ h = from_option id (heading_after heading before) (first_heading c)).
  { intros H. destruct (IH _ _ H) as (before & after & -> & -> & -> & ->). exists (c0 :: before), after.
    split; [done|]. simpl. rewrite byte_len_app. split; [lia|]. done. }
  case_bool_decide; [by apply Hmore|]. apply elem_of_cons in Hin as [E|Hin]; [|by apply Hmore].
  injection E as -> -> -> ->. exists [], rest. split; [done|]. simpl. split; [lia|]. split; [lia|].
  unfold heading_after. simpl. unfold first_heading, last_heading.
  destruct (List.find is_heading (lines c0)) as [l|] eqn:Ef; simpl; [done|].
  destruct (List.find is_heading (rev (lines c0))) as [l|] eqn:El; [|done]. exfalso.
  apply find_some in El as [Hl1 Hl2]. rewrite <- in_rev in Hl1. by rewrite (find_none _ _ Ef l Hl1) in Hl2.
Qed.

(** Chunks cover the document.  The document is cut into consecutive,
    non-empty pieces of at most 1200 characters; the chunks are exactly the
    pieces that are not blank, in order, each with the byte offsets at which
    it stands in the document, and under the first heading inside it or else
    the last heading before it.  Nothing else is dropped, for any document:
    the loop always ends. *)
Theorem chunk_text_covers (document : text) :
  exists pieces,
    concat pieces = document
    /\ Forall (fun c => c <> [] /\ (length c <= CHUNK_CHARS)%nat) pieces
    /\ map snd (chunk_text document) = List.filter (fun c => negb (bool_decide (trim c = []))) pieces
    /\ forall s e h c, (s, e, h, c) ∈ chunk_text document ->
         exists before after, pieces = before ++ c :: after
           /\ s = byte_len (concat before) /\ e = byte_len (concat (before ++ [c]))
           /\ h = from_option id (heading_after [] before) (first_heading c).
Proof.
  unfold chunk_text. destruct (chunk_from_entries (length document) 0 [] document (le_n _)) as (pieces & Hc & Hall & ->).
  exists pieces. split; [done|]. split; [done|]. split; [apply entries_text|].
  intros s e h c Hin. destruct (entries_spec _ _ _ _ _ _ _ Hin) as (before & after & -> & -> & -> & ->).
  exists before, after. split; [done|]. split; [done|]. split; [|done].
  rewrite concat_app, byte_len_app. simpl. rewrite app_nil_r. lia.
Qed.

Section SelectLemmas.
Context {A : Type} (sha256_hex : text -> text) (text_of : A -> text).
Abbreviation candidate := (RankedCandidate A).
Abbreviation hash_of := (hash_of sha256_hex text_of).
Abbreviation words := (words text_of).
Abbreviation consider := (consider sha256_hex text_of).
Abbreviation pass := (pass sha256_hex text_of).

#[local] Instance ranks_before_total : Total (@ranks_before A).
Proof.
  intros a b. unfold ranks_before. destruct (Z.lt_trichotomy (score a) (score b)) as [H|[H|H]]; [by right; left| |by left; left].
  destruct (total text_le (tie_key a) (tie_key b)); [left | right]; right; split; auto.
Qed.
#[local] Instance ranks_before_trans : Transitive (@ranks_before A).
Proof.
  intros a b c [H1|[H1 H2]] [H3|[H3 H4]]; [left; lia | left; lia | left; lia|]. right. split; [lia | by etrans].
Qed.

Lemma sorted_head (cs : list candidate) c l : sorted cs = c :: l -> forall d, d ∈ cs -> ranks_before c d \/ d = c.
Proof.
  intros E d Hd. rewrite <- (merge_sort_Permutation ranks_before cs) in Hd. unfold sorted in E. rewrite E in Hd.
  apply elem_of_cons in Hd as [->|Hd]; [by right | left].
  pose proof (StronglySorted_merge_sort ranks_before cs) as Hs. rewrite E in Hs.
  apply StronglySorted_inv in Hs as [_ Hs]. rewrite Forall_forall in Hs. by apply Hs.
Qed.

Definition with_key (key : text) (l : list candidate) : list candidate :=
  List.filter (fun c => bool_decide (diversity_key c = key)) l.

Definition similar (current old : candidate) : bool := too_similar (words current) (words old).

(** What holds of the picks at every point of the loop. *)
Record picks_ok (limit : nat) (cs : list candidate) (p : picks) : Prop := {
  ok_limit : (length (selected p) <= limit)%nat;
  ok_from : forall c, c ∈ selected p -> c ∈ cs;
  ok_seen : forall h, h ∈ seen_text p <-> h ∈ map hash_of (selected p);
  ok_count : forall key, count_of p key = length (with_key key (selected p));
  ok_two : forall key, (length (with_key key (selected p)) <= 2)%nat;
  ok_distinct : NoDup (map hash_of (selected p));
  ok_diverse : forall before c after, selected p = before ++ c :: after -> Forall (fun old => similar c old = false) before;
}.

Lemma with_key_app key l l' : with_key key (l ++ l') = with_key key l ++ with_key key l'.
Proof. apply List.filter_app. Qed.

Lemma empty_picks_ok limit cs : picks_ok limit cs (MkPicks [] ∅ ∅).
Proof.
  split; simpl; [lia | by intros c ?%elem_of_nil | | done | intros; lia | constructor |].
  - intros h. split; [set_solver | by intros ?%elem_of_nil].
  - intros before c after H. by destruct before.
Qed.

Lemma consider_ok limit cs cap p c :
  (cap <= 2)%nat -> c ∈ cs -> picks_ok limit cs p -> picks_ok limit cs (consider limit cap p c).
Proof.
  intros Hcap Hc [H1 H2 H3 H4 H5 H6 H7]. unfold Ranking.consider.
  destruct (limit <=? _)%nat eqn:El; [done|]. apply Nat.leb_gt in El.
  destruct (cap <=? _)%nat eqn:Ek; [done|]. apply Nat.leb_gt in Ek.
  destruct (_ || _) eqn:Eb; [done|]. apply orb_false_iff in Eb as [Eh Es]. apply bool_decide_eq_false in Eh.
  split; simpl.
  - rewrite length_app. simpl. lia.
  - intros d [Hd| ->%list_elem_of_singleton]%elem_of_app; [by apply H2 | done].
  - intros h. rewrite map_app, elem_of_union, elem_of_app, H3. simpl. rewrite elem_of_singleton, list_elem_of_singleton. tauto.
  - intros key. rewrite with_key_app, length_app. unfold with_key at 2. simpl. unfold count_of. simpl.
    destruct (decide (diversity_key c = key)) as [<-|Hne].
    + rewrite lookup_insert_eq, bool_decide_true by done. simpl. specialize (H4 (diversity_key c)). unfold count_of in *. lia.
    + rewrite lookup_insert_ne, bool_decide_false by done. simpl. specialize (H4 key). unfold count_of in *. lia.
  - intros key. rewrite with_key_app, length_app. unfold with_key at 2. simpl.
    case_bool_decide as Hk; simpl; [|specialize (H5 key); lia]. subst key. rewrite <- H4. lia.
  - rewrite map_app. simpl. apply NoDup_app. split; [done|]. split; [|apply NoDup_singleton].
    intros h Hh ->%list_elem_of_singleton. by apply Eh, H3.
  - intros before d after E. destruct after as [|x after _] using rev_ind.
    + apply app_inj_tail in E as [E1 E2]; subst before d. apply Forall_forall. intros old Hold. destruct (similar c old) eqn:Esim; [|done].
      rewrite <- Es. symmetry. apply existsb_exists. exists old. split; [by apply list_elem_of_In | exact Esim].
    + rewrite app_comm_cons, app_assoc in E. apply app_inj_tail in E as [E _]. by apply (H7 before d after).
Qed.

Lemma pass_ok limit cs cap l p :
  (cap <= 2)%nat -> (forall c, c ∈ l -> c ∈ cs) -> picks_ok limit cs p -> picks_ok limit cs (pass limit cap l p).
Proof.
  intros Hcap. unfold Ranking.pass. revert p. induction l as [|c l IH]; intros p Hl Hp; simpl; [done|].
  apply IH; [intros d Hd; apply Hl; by right|]. apply consider_ok; [done | apply Hl; by left | done].
Qed.

Lemma consider_grows limit cap p c : exists more, selected (consider limit cap p c) = selected p ++ more.
Proof.
  unfold Ranking.consider. repeat case_match; try (exists []; by rewrite app_nil_r). by exists [c].
Qed.

Lemma pass_grows limit cap l p : exists more, selected (pass limit cap l p) = selected p ++ more.
Proof.
  unfold Ranking.pass. revert p. induction l as [|c l IH]; intros p; simpl; [exists []; by rewrite app_nil_r|].
  destruct (IH (consider limit cap p c)) as (m & ->). destruct (consider_grows limit cap p c) as (m' & ->).
  exists (m' ++ m). by rewrite app_assoc.
Qed.

(** Why a candidate is not worth another place. *)
Definition settled (limit : nat) (out : list candidate) (c : candidate) : Prop :=
  (limit <= length out)%nat \/ (2 <= length (with_key (diversity_key c) out))%nat
  \/ hash_of c ∈ map hash_of out \/ exists old, old ∈ out /\ similar c old = true.

Lemma settled_app limit out more c : settled limit out c -> settled limit (out ++ more) c.
Proof.
  unfold settled. rewrite length_app, with_key_app, length_app, map_app, elem_of_app.
  intros [H|[H|[H|(old & H & Hs)]]]; [left; lia | right; left; lia | by right; right; left; left|].
  right. right. right. exists old. rewrite elem_of_app. auto.
Qed.

Lemma consider_settles limit cs p c :
  picks_ok limit cs p -> settled limit (selected (consider limit 2 p c)) c.
Proof.
  intros [_ _ H3 H4 _ _ _]. unfold settled, Ranking.consider.
  destruct (limit <=? _)%nat eqn:El; [left; by apply Nat.leb_le|].
  destruct (2 <=? _)%nat eqn:Ek; [right; left; apply Nat.leb_le in Ek; by rewrite <- H4|].
  destruct (_ || _) eqn:Eb.
  - apply orb_true_iff in Eb as [Eb%bool_decide_eq_true|Eb].
    + right. right. left. by apply H3.
    + apply existsb_exists in Eb as (old & Hin & Hs). right. right. right. exists old.
      split; [by apply list_elem_of_In | exact Hs].
  - right. right. left. simpl. rewrite map_app, elem_of_app. right. by left.
Qed.

Lemma pass_settles limit cs l p :
  (forall c, c ∈ l -> c ∈ cs) -> picks_ok limit cs p ->
  forall c, c ∈ l -> settled limit (selected (pass limit 2 l p)) c.
Proof.
  unfold Ranking.pass. revert p. induction l as [|d l IH]; intros p Hl Hp c Hc; simpl; [by apply elem_of_nil in Hc|].
  assert (Hp' : picks_ok limit cs (consider limit 2 p d)) by (apply consider_ok; [lia | apply Hl; by left | done]).
  apply elem_of_cons in Hc as [->|Hc].
  - destruct (pass_grows limit 2 l (consider limit 2 p d)) as (more & Hm). unfold Ranking.pass in Hm. rewrite Hm.
    apply settled_app. by eapply consider_settles.
  - apply IH; [intros x Hx; apply Hl; by right | done | done].
Qed.

Lemma sorted_elem (cs : list candidate) c : c ∈ sorted cs <-> c ∈ cs.
Proof. unfold sorted. by rewrite merge_sort_Permutation. Qed.

Lemma select_diverse_subset (candidates : list candidate) (limit : nat) :
  exists out, select_diverse sha256_hex text_of candidates limit = map item out /\ forall c, c ∈ out -> c ∈ candidates.
Proof.
  exists (select_candidates sha256_hex text_of candidates limit). split; [done|]. unfold select_candidates.
  set (lim := Nat.min limit HIT_CAP). set (cs := sorted candidates).
  assert (Hp : picks_ok lim cs (pass lim 2 cs (pass lim 1 cs (MkPicks [] ∅ ∅)))) by (apply pass_ok; [done..|]; apply pass_ok; [lia | done | apply empty_picks_ok]).
  intros c Hc. by apply sorted_elem, (ok_from _ _ _ Hp).
Qed.

(** The selection is bounded, diverse and full.  At most the limit, and
    never more than 16, of the candidates are chosen; the best-scored one
    comes first; no source is chosen more than twice; no two chosen texts
    have the same digest, and none shares more than nine tenths of its words
    with one chosen before it.  A candidate is left out only because the limit
    was reached, its source already has two places, or its text is (almost)
    there already. *)
Theorem select_diverse_spec (candidates : list candidate) (limit : nat) :
  exists out, select_diverse sha256_hex text_of candidates limit = map item out
    /\ (length out <= Nat.min limit 16)%nat
    /\ (forall c, c ∈ out -> c ∈ candidates)
    /\ (forall key, (length (with_key key out) <= 2)%nat)
    /\ NoDup (map hash_of out)
    /\ (forall before c after old, out = before ++ c :: after -> old ∈ before ->
          (size (words c ∩ words old) * 10 <= size (words c ∪ words old) * 9)%nat \/ words c = ∅)
    /\ (forall c, c ∈ candidates -> settled (Nat.min limit 16) out c)
    /\ (limit <> 0%nat -> candidates <> [] ->
        exists best rest, out = best :: rest /\ forall d, d ∈ candidates -> ranks_before best d \/ d = best).
Proof.
  exists (select_candidates sha256_hex text_of candidates limit). split; [done|]. unfold select_candidates.
  set (lim := Nat.min limit HIT_CAP). set (cs := sorted candidates).
  set (p1 := pass lim 1 cs (MkPicks [] ∅ ∅)).
  assert (Hp1 : picks_ok lim cs p1) by (apply pass_ok; [lia | done | apply empty_picks_ok]).
  assert (Hp2 : picks_ok lim cs (pass lim 2 cs p1)) by (by apply pass_ok).
  pose proof (pass_settles lim cs cs p1 (fun c H => H) Hp1) as Hsettle.
  destruct Hp2 as [H1 H2 _ _ H5 H6 H7]. split; [exact H1|].
  split; [intros c Hc; by apply sorted_elem, H2|]. split; [exact H5|]. split; [exact H6|]. split; [|split].
  - intros before c after old E Hold. pose proof (H7 before c after E) as Hf. rewrite Forall_forall in Hf.
    specialize (Hf old Hold). unfold similar, too_similar in Hf. apply andb_false_iff in Hf as [Hf|Hf].
    + right. by apply negb_false_iff, bool_decide_eq_true in Hf.
    + left. by apply Nat.ltb_ge in Hf.
  - intros c Hc. apply Hsettle. by apply sorted_elem.
  - intros Hl Hne. destruct cs as [|best rest] eqn:Ecs.
    { destruct candidates as [|d l]; [done|]. exfalso. apply (elem_of_nil d).
      rewrite <- Ecs. apply sorted_elem. by left. }
    destruct (pass_grows lim 2 (best :: rest) p1) as (m2 & ->).
    assert (Hfirst : exists m1, selected p1 = best :: m1).
    { unfold p1, Ranking.pass. simpl.
      assert (Hfirst : selected (consider lim 1 (MkPicks [] ∅ ∅) best) = [best]).
      { unfold Ranking.consider. simpl. destruct lim as [|lim'] eqn:E; [unfold lim, HIT_CAP in E; lia|]. simpl.
        rewrite bool_decide_false by set_solver. done. }
      destruct (pass_grows lim 1 rest (consider lim 1 (MkPicks [] ∅ ∅) best)) as (m1 & E). unfold Ranking.pass in E.
      rewrite E, Hfirst. by exists m1. }
    destruct Hfirst as (m1 & ->). exists best, (m1 ++ m2). split; [done|]. by apply (sorted_head candidates best rest).
Qed.
End SelectLemmas.
