(* ===== verification/Jail.v ===== *)
(** The directory of a store under the harness home and the system calls on
    it: what server/attachments.rs and server/notes_corpus.rs share
    ([atomic_write_in_jail], [owner_rel], [unlink_all]).

    The handle [cap_std::fs::Dir] is the whole disk of the model: a file is at
    the root or in the directory of an owner.  A system call does what it
    promises, fails, or is where the process dies, as a script says that the
    world carries; an empty script is a machine without faults.  A write that
    fails or dies has put a prefix on the disk.  A rename is atomic, and
    a process that dies at it has not renamed; death between a rename and the
    return is the death at the next call, or, after the last one, an operation
    whose answer nobody received.  Links, and
    the checks of [open_jail] against them, are not modelled.

    Parameters: [uuid n], the [n]-th identifier that [Uuid::new_v4] draws, in
    the hyphenated form, and [parse_uuid] (the crate [uuid]); [sha256_hex] (the
    crate [sha2]); the laws of [Ids] are their documented behaviour. *)

From S2P Require Import Prelude Text.
Local Open Scope Z_scope.

(** ** The disk and the world *)

(** The owner's directory, or none at the root; and the name. *)
Definition path : Type := option text * text.
Record Disk := MkDisk { files : gmap path (list Z); dirs : gset text }.
Definition empty_disk : Disk := MkDisk ∅ ∅.

Inductive verdict := Works | Fails (written : nat) | Dies (written : nat).
Record World := MkWorld { disk : Disk; drawn : nat; script : list verdict }.

Inductive io_error := NotFound | OtherError.
#[export] Instance io_error_eq_dec : EqDecision io_error.
Proof. solve_decision. Defined.

(** [None]: the process is dead. *)
Definition io (E A : Type) : Type := World -> World * option (result E A).

#[export] Instance io_ret {E} : MRet (io E) := fun A a w => (w, Some (Ok a)).
#[export] Instance io_bind {E} : MBind (io E) := fun A B f m w =>
  match m w with
  | (w', Some (Ok a)) => f a w'
  | (w', Some (Err e)) => (w', Some (Err e))
  | (w', None) => (w', None)
  end.
Definition lift {E A} (r : result E A) : io E A := fun w => (w, Some r).
(** The error of [m] as a value. *)
Definition attempt {E E' A} (m : io E A) : io E' (result E A) := fun w =>
  match m w with
  | (w', Some r) => (w', Some (Ok r))
  | (w', None) => (w', None)
  end.

Section Bind.
Context {E A B : Type} (f : A -> io E B).
Lemma bind_ok (m : io E A) w w' a : m w = (w', Some (Ok a)) -> (m ≫= f) w = f a w'.
Proof. intros H. unfold mbind, io_bind. by rewrite H. Qed.
Lemma bind_err (m : io E A) w w' e : m w = (w', Some (Err e)) -> (m ≫= f) w = (w', Some (Err e)).
Proof. intros H. unfold mbind, io_bind. by rewrite H. Qed.
Lemma bind_dead (m : io E A) w w' : m w = (w', None) -> (m ≫= f) w = (w', None).
Proof. intros H. unfold mbind, io_bind. by rewrite H. Qed.
Lemma bind_lift r w : (lift r ≫= f) w = match r with Ok a => f a w | Err e => (w, Some (Err e)) end.
Proof. by destruct r. Qed.
End Bind.
Lemma bind_refused {E A} c (e : E) (f : unit -> io E A) w : (lift (refuse_if c e) ≫= f) w = if c then (w, Some (Err e)) else f tt w.
Proof. by destruct c. Qed.

(** ** System calls *)

Definition system_call {A} (partial : nat -> Disk -> Disk) (op : Disk -> result io_error (A * Disk)) : io io_error A := fun w =>
  let worked s :=
    match op (disk w) with
    | Ok (a, d) => (MkWorld d (drawn w) s, Some (Ok a))
    | Err e => (MkWorld (disk w) (drawn w) s, Some (Err e))
    end in
  match script w with
  | [] => worked []
  | Works :: s => worked s
  | Fails n :: s => (MkWorld (partial n (disk w)) (drawn w) s, Some (Err OtherError))
  | Dies n :: s => (MkWorld (partial n (disk w)) (drawn w) s, None)
  end.
Definition no_part (n : nat) (d : Disk) : Disk := d.

Definition put (p : path) (data : list Z) (d : Disk) : Disk := MkDisk (<[p := data]> (files d)) (dirs d).
Definition drop_file (p : path) (d : Disk) : Disk := MkDisk (delete p (files d)) (dirs d).
Definition parent_exists (p : path) (d : Disk) : bool := match fst p with None => true | Some o => bool_decide (o ∈ dirs d) end.

(** [open_with] a new file *)
Definition create_new (p : path) : io io_error unit :=
  system_call no_part (fun d =>
    if bool_decide (is_Some (files d !! p)) then Err OtherError
    else if parent_exists p d then Ok (tt, put p [] d) else Err NotFound).
Definition write_all (p : path) (data : list Z) : io io_error unit :=
  system_call (fun n => put p (take n data)) (fun d => Ok (tt, put p data d)).
Definition sync_all : io io_error unit := system_call no_part (fun d => Ok (tt, d)).
Definition rename (p q : path) : io io_error unit :=
  system_call no_part (fun d => match files d !! p with Some data => Ok (tt, put q data (drop_file p d)) | None => Err NotFound end).
Definition remove_file (p : path) : io io_error unit :=
  system_call no_part (fun d => match files d !! p with Some _ => Ok (tt, drop_file p d) | None => Err NotFound end).
Definition read (p : path) : io io_error (list Z) :=
  system_call no_part (fun d => match files d !! p with Some data => Ok (data, d) | None => Err NotFound end).
Definition create_dir_all (o : text) : io io_error unit := system_call no_part (fun d => Ok (tt, MkDisk (files d) ({[o]} ∪ dirs d))).
(** The names at the root, each with whether it is a directory; the files of a
    directory.  The order is that of the map. *)
Definition root_entries : io io_error (list (text * bool)) :=
  system_call no_part (fun d =>
    Ok (map (fun o => (o, true)) (elements (dirs d))
        ++ omap (fun p => match p with (None, name) => Some (name, false) | _ => None end) (elements (dom (files d))), d)).
Definition dir_entries (o : text) : io io_error (list text) :=
  system_call no_part (fun d =>
    Ok (omap (fun p => match p with (Some o', name) => if bool_decide (o' = o) then Some name else None | _ => None end) (elements (dom (files d))), d)).
(** [file_type], [open_dir] and the like: calls that only may fail. *)
Definition probe : io io_error unit := system_call no_part (fun d => Ok (tt, d)).

Definition err_io : harness_error := err_code "IO_ERROR".

Section Jail.
Context (uuid : nat -> text) (parse_uuid : text -> option text) (sha256_hex : text -> text).

Definition new_v4 {E} : io E text := fun w => (MkWorld (disk w) (S (drawn w)) (script w), Some (Ok (uuid (drawn w)))).
(** [Uuid::simple]: the digits without the hyphens. *)
Definition simple (u : text) : text := List.filter (fun c => negb (c =? c_dash)) u.
Definition tmp_of (rel : path) (u : text) : path := (fst rel, snd rel ++ T "." ++ simple u ++ T ".tmp").

Definition staged_write (tmp rel : path) (data : list Z) (before_rename : io io_error unit) : io io_error unit :=
  _ ← create_new tmp;
  _ ← write_all tmp data;
  _ ← sync_all;
  _ ← before_rename;
  rename tmp rel.

Definition atomic_write_in_jail (rel : path) (data : list Z) (before_rename : io io_error unit) : io harness_error unit :=
  u ← new_v4;
  let tmp := tmp_of rel u in
  r ← attempt (staged_write tmp rel data before_rename);
  match r with
  | Ok _ => mret tt
  | Err _ => _ ← attempt (E' := harness_error) (remove_file tmp); lift (Err err_io)
  end.

Fixpoint unlink_all (rels : list path) : io harness_error unit :=
  match rels with
  | [] => mret tt
  | rel :: rels => _ ← attempt (remove_file rel); unlink_all rels
  end.

Definition is_ascii_hexdigit (c : char) : bool := is_ascii_digit c || in_range 97 102 c || in_range 65 70 c.

(** [<sha256(owner)>/<uuid>] *)
Definition owner_rel (owner id : text) (e : harness_error) : result harness_error path :=
  id ← ok_or (parse_uuid (trim id)) e;
  let owner_key := sha256_hex owner in
  _ ← refuse_if (negb (byte_len owner_key =? 64) || negb (forallb is_ascii_hexdigit owner_key)) e;
  mret (Some owner_key, id).

(** What the crates promise: identifiers differ, and parse to themselves; a
    parsed identifier has digits and hyphens only; a digest has 64 digits. *)
Definition uuid_char (c : char) : bool := is_ascii_hexdigit c || (c =? c_dash).
Record Ids : Prop := {
  simple_inj : Inj eq eq (fun n => simple (uuid n));
  uuid_parses n : parse_uuid (uuid n) = Some (uuid n);
  parsed_plain s h : parse_uuid s = Some h -> Forall (fun c => uuid_char c = true) h;
  digest_length o : byte_len (sha256_hex o) = 64;
  digest_digits o : forallb is_ascii_hexdigit (sha256_hex o) = true;
}.
End Jail.

(** ** What a system call may do *)

Definition faultless (w : World) : Prop := script w = [].
Definition with_disk (w : World) (d : Disk) (s : list verdict) : World := MkWorld d (drawn w) s.

(** The three ways, with the script left over. *)
Lemma system_call_cases {A} partial (op : Disk -> result io_error (A * Disk)) w :
  (exists s, (faultless w -> s = []) /\
     system_call partial op w = match op (disk w) with
                                | Ok (a, d) => (with_disk w d s, Some (Ok a))
                                | Err e => (with_disk w (disk w) s, Some (Err e))
                                end)
  \/ (~ faultless w /\ exists n s r, (r = Some (Err OtherError) \/ r = None) /\
       system_call partial op w = (with_disk w (partial n (disk w)) s, r)).
Proof.
  unfold system_call, faultless, with_disk. destruct (script w) as [|[|n|n] s]; [left; by exists [] | left; by exists s | |];
    right; (split; [done|]); eexists n, s, _; (split; [|done]); auto.
Qed.

(** A call that never changes the disk. *)
Lemma system_call_reads {A} (op : Disk -> result io_error (A * Disk)) w :
  (forall d, match op d with Ok (_, d') => d' = d | Err _ => True end) ->
  exists s r, (faultless w -> s = [] /\ r = Some (fst <$> op (disk w))) /\ system_call no_part op w = (with_disk w (disk w) s, r)
              /\ (forall a, r = Some (Ok a) -> op (disk w) = Ok (a, disk w)).
Proof.
  intros Hop. specialize (Hop (disk w)). destruct (system_call_cases no_part op w) as [(s & Hs & E)|(Hn & n & s & r & Hr & E)].
  - destruct (op (disk w)) as [[a d]|e]; [subst d|].
    + exists s, (Some (Ok a)). repeat split; auto. by intros ? [= ->].
    + exists s, (Some (Err e)). repeat split; auto. done.
  - exists s, r. split; [done|]. split; [done|]. intros a ->. by destruct Hr.
Qed.

(** ** An atomic write *)

(** Nothing but files of [P] changed. *)
Definition same_except (P : path -> Prop) (d d' : Disk) : Prop :=
  dirs d' = dirs d /\ forall p, ~ P p -> files d' !! p = files d !! p.

Lemma same_except_refl P d : same_except P d d.
Proof. by split. Qed.
Lemma same_except_trans P d d' d'' : same_except P d d' -> same_except P d' d'' -> same_except P d d''.
Proof. intros [H1 H2] [H3 H4]. split; [congruence|]. intros p Hp. by rewrite H4, H2. Qed.
Lemma same_except_impl (P Q : path -> Prop) d d' : (forall p, P p -> Q p) -> same_except P d d' -> same_except Q d d'.
Proof. intros HPQ [H1 H2]. split; [done|]. intros p Hp. apply H2. auto. Qed.
Lemma same_except_put (P : path -> Prop) p data d : P p -> same_except P d (put p data d).
Proof. intros Hp. split; [done|]. intros q Hq. cbn. rewrite lookup_insert_ne; [done|]. by intros <-. Qed.
Lemma same_except_drop (P : path -> Prop) p d : P p -> same_except P d (drop_file p d).
Proof. intros Hp. split; [done|]. intros q Hq. cbn. rewrite lookup_delete_ne; [done|]. by intros <-. Qed.
#[export] Hint Resolve same_except_refl same_except_put same_except_drop : harness.

Lemma staged_write_spec tmp rel data w : tmp <> rel ->
  let '(w', r) := staged_write tmp rel data (mret tt) w in
  drawn w' = drawn w
  /\ same_except (fun p => p = tmp \/ p = rel) (disk w) (disk w')
  /\ match r with
     | Some (Ok _) => files (disk w') !! rel = Some data /\ files (disk w') !! tmp = None
     | _ => files (disk w') !! rel = files (disk w) !! rel
     end
  /\ (faultless w -> files (disk w) !! tmp = None -> parent_exists rel (disk w) = true -> fst tmp = fst rel ->
      r = Some (Ok tt) /\ faultless w').
Proof.
  intros Hne. destruct w as [d n s]. unfold staged_write, create_new, write_all, sync_all, rename, mbind, io_bind, mret, io_ret.
  unfold system_call at 1. cbn [disk script drawn].
  set (d1 := put tmp [] d). assert (H1 : same_except (fun p => p = tmp \/ p = rel) d d1) by (apply same_except_put; auto).
  set (d3 := put tmp data d1).
  assert (H3 : same_except (fun p => p = tmp \/ p = rel) d d3) by (eapply same_except_trans; [exact H1 | apply same_except_put; auto]).
  assert (E1 : files d1 !! rel = files d !! rel) by (unfold d1; cbn; by rewrite lookup_insert_ne).
  assert (E3 : files d3 !! rel = files d !! rel) by (unfold d3; cbn; by rewrite lookup_insert_ne).
  assert (Et : files d3 !! tmp = Some data) by (unfold d3; cbn; by rewrite lookup_insert_eq).
  assert (Hp : forall k, same_except (fun p => p = tmp \/ p = rel) d (put tmp (take k data) d1)).
  { intros k. eapply same_except_trans; [exact H1 | apply same_except_put; auto]. }
  assert (Ep : forall k, files (put tmp (take k data) d1) !! rel = files d !! rel) by (intros k; cbn; rewrite lookup_insert_ne; done).
  assert (H4 : same_except (fun p => p = tmp \/ p = rel) d (put rel data (drop_file tmp d3))).
  { eapply same_except_trans; [exact H3|]. eapply same_except_trans; [apply same_except_drop | apply same_except_put]; auto. }
  assert (E4 : files (put rel data (drop_file tmp d3)) !! rel = Some data /\ files (put rel data (drop_file tmp d3)) !! tmp = None).
  { cbn. split; [by rewrite lookup_insert_eq|]. rewrite lookup_insert_ne by done. by rewrite lookup_delete_eq. }
  destruct (decide (is_Some (files d !! tmp))) as [Hex|Hex];
    [rewrite bool_decide_eq_true_2 by done | rewrite bool_decide_eq_false_2 by done].
  { destruct s as [|[|k|k] s]; cbn; (repeat split; auto with harness); intros; destruct Hex; congruence. }
  destruct (parent_exists tmp d) eqn:Epar.
  2: { assert (Hno : parent_exists rel d = true -> fst tmp = fst rel -> False) by (intros ? Ef; unfold parent_exists in *; rewrite Ef in Epar; congruence).
       destruct s as [|[|k|k] s]; cbn; (split; [done|]); (split; [apply same_except_refl|]); (split; [done|]); intros; by exfalso; auto. }
  fold d1. clearbody d1.
  destruct s as [|[|k|k] s];
  repeat match goal with
  | |- context [system_call _ _ (MkWorld _ _ ?s)] => unfold system_call at 1; cbn [disk script drawn]; fold d3; rewrite ?Et;
      lazymatch s with [] => idtac | _ => destruct s as [|[|? | ?] ?] end
  end; cbn [disk drawn];
  (split; [done|]); (split; [auto with harness|]); (split; [auto|]); unfold faultless; cbn; intros; done || auto.
Qed.

Lemma remove_file_spec p w :
  let '(w', r) := remove_file p w in
  drawn w' = drawn w
  /\ same_except (eq p) (disk w) (disk w')
  /\ (r = Some (Ok tt) \/ r = Some (Err NotFound) -> files (disk w') !! p = None)
  /\ (r <> Some (Ok tt) -> disk w' = disk w)
  /\ (files (disk w') !! p = files (disk w) !! p \/ files (disk w') !! p = None)
  /\ (faultless w -> faultless w' /\ (r = Some (Ok tt) \/ r = Some (Err NotFound))).
Proof.
  unfold remove_file. match goal with |- context [system_call no_part ?op w] => destruct (system_call_cases no_part op w) as [(s & Hs & E)|(Hn & n & s & r & Hr & E)] end; rewrite E; clear E.
  - destruct (files (disk w) !! p) as [data|] eqn:Ep; cbn [fst snd disk drawn with_disk faultless script].
    + split; [done|]. split; [by apply same_except_drop|]. cbn. rewrite lookup_delete_eq. split; [done|]. split; [done|]. split; [by right|]. intros Hw. split; [exact (Hs Hw) | auto].
    + split; [done|]. split; [apply same_except_refl|]. rewrite Ep. split; [done|]. split; [done|]. split; [by left|]. intros Hw. split; [exact (Hs Hw) | auto].
  - cbn. split; [done|]. split; [apply same_except_refl|]. split; [by intros [-> | ->]; destruct Hr|]. repeat split; auto; intros; exfalso; auto.
Qed.

(** Files only disappear. *)
Definition shrinks (d d' : Disk) : Prop := dirs d' = dirs d /\ forall p, files d' !! p = files d !! p \/ files d' !! p = None.
Lemma shrinks_refl d : shrinks d d.
Proof. split; auto. Qed.
Lemma shrinks_trans d d' d'' : shrinks d d' -> shrinks d' d'' -> shrinks d d''.
Proof. intros [H1 H2] [H3 H4]. split; [congruence|]. intros p. destruct (H2 p) as [<- | E], (H4 p) as [-> | ->]; auto. Qed.

Lemma remove_file_shrinks p w : shrinks (disk w) (disk (fst (remove_file p w))).
Proof.
  pose proof (remove_file_spec p w) as H. destruct (remove_file p w) as [w' r]. destruct H as (_ & [H1 H2] & _ & _ & H3 & _).
  split; [done|]. intros q. destruct (decide (p = q)) as [<-|]; [done|]. left. by apply H2.
Qed.
Lemma unlink_all_shrinks rels w : shrinks (disk w) (disk (fst (unlink_all rels w))).
Proof.
  revert w. induction rels as [|rel rels IH]; intros w; [apply shrinks_refl|]. cbn [unlink_all]. unfold attempt, mbind, io_bind.
  pose proof (remove_file_shrinks rel w) as H. destruct (remove_file rel w) as [w1 [r1|]]; [|done]. eapply shrinks_trans; [exact H | apply IH].
Qed.

Section Paths.
Context (uuid : nat -> text) (parse_uuid : text -> option text) (sha256_hex : text -> text) (ids : Ids uuid parse_uuid sha256_hex).

Lemma tmp_of_ne rel u : tmp_of rel u <> rel.
Proof.
  destruct rel as [o name]. intros [= H]. apply (f_equal length) in H. rewrite length_app in H. simpl in H. lia.
Qed.

Lemma atomic_write_spec rel data w :
  let tmp := tmp_of rel (uuid (drawn w)) in
  let '(w', r) := atomic_write_in_jail uuid rel data (mret tt) w in
  drawn w' = S (drawn w)
  /\ same_except (fun p => p = tmp \/ p = rel) (disk w) (disk w')
  /\ match r with
     | Some (Ok _) => files (disk w') !! rel = Some data /\ files (disk w') !! tmp = None
     | _ => files (disk w') !! rel = files (disk w) !! rel
     end
  /\ (faultless w -> files (disk w) !! tmp = None -> parent_exists rel (disk w) = true -> r = Some (Ok tt) /\ faultless w')
  /\ (forall e, r = Some (Err e) -> e = err_io).
Proof.
  intros tmp. unfold atomic_write_in_jail, new_v4, attempt, mbind, io_bind. cbn zeta. fold tmp.
  set (w0 := MkWorld (disk w) (S (drawn w)) (script w)).
  pose proof (staged_write_spec tmp rel data w0 (tmp_of_ne rel _)) as H.
  destruct (staged_write tmp rel data (mret tt) w0) as [w1 [[[]|e]|]].
  - destruct H as (H1 & H2 & H3 & H4). do 3 (split; [done|]). split; [|done]. intros Hw Hf Hp. split; [done|]. by apply H4.
  - destruct H as (H1 & H2 & H3 & H4). pose proof (remove_file_spec tmp w1) as H5.
    assert (Hf : ~ (faultless w /\ files (disk w) !! tmp = None /\ parent_exists rel (disk w) = true)).
    { intros (? & ? & ?). by destruct H4 as [H4 _]. }
    assert (Hne : tmp <> rel) by apply tmp_of_ne.
    destruct (remove_file tmp w1) as [w2 r2]. destruct H5 as (G1 & G2 & _ & _ & _ & _).
    assert (Hse : same_except (fun p => p = tmp \/ p = rel) (disk w) (disk w2)).
    { eapply same_except_trans; [exact H2|]. eapply same_except_impl; [|exact G2]. intros p <-. by left. }
    assert (Hrel : files (disk w2) !! rel = files (disk w) !! rel) by (rewrite (proj2 G2) by done; exact H3).
    destruct r2 as [r2|]; cbn; (split; [by rewrite G1|]); (split; [done|]); (split; [done|]); (split; [by intros; exfalso; auto|]); try done.
    by intros ? [= <-].
  - destruct H as (H1 & H2 & H3 & H4). do 3 (split; [done|]). split; [|done]. intros Hw Hf Hp. by destruct (H4 Hw Hf Hp eq_refl) as [[=] _].
Qed.

Lemma unlink_all_spec rels w :
  let '(w', r) := unlink_all rels w in
  drawn w' = drawn w /\ same_except (fun p => p ∈ rels) (disk w) (disk w') /\ (r = Some (Ok tt) \/ r = None)
  /\ (faultless w -> faultless w' /\ r = Some (Ok tt)).
Proof.
  revert w. induction rels as [|rel rels IH]; intros w; [cbn; auto with harness|].
  cbn [unlink_all]. unfold attempt, mbind, io_bind. pose proof (remove_file_spec rel w) as H.
  destruct (remove_file rel w) as [w1 r1]. destruct H as (H1 & H2 & _ & _ & _ & H3).
  assert (H2' : same_except (fun p => p ∈ rel :: rels) (disk w) (disk w1)) by (eapply same_except_impl; [|exact H2]; intros p <-; by left).
  destruct r1 as [r1|].
  - specialize (IH w1). destruct (unlink_all rels w1) as [w2 r2]. destruct IH as (G1 & G2 & G3 & G4).
    split; [congruence|]. split; [|split; [done|]]; [|intros Hw; apply G4, H3, Hw].
    eapply same_except_trans; [exact H2'|]. eapply same_except_impl; [|exact G2]. intros p Hp. by right.
  - split; [done|]. split; [done|]. split; [by right|]. intros Hw. by destruct (H3 Hw) as [_ [? | ?]].
Qed.

(** *** Names *)

Lemma uuid_char_no_dot h : Forall (fun c => uuid_char c = true) h -> c_dot ∉ h.
Proof. intros H Hin. rewrite Forall_forall in H. by apply H in Hin. Qed.

Lemma uuid_plain n : Forall (fun c => uuid_char c = true) (uuid n).
Proof using ids. eapply parsed_plain; [exact ids|]. apply uuid_parses with (1 := ids). Qed.

Lemma uuid_inj n m : uuid n = uuid m -> n = m.
Proof using ids. intros H. apply (simple_inj _ _ _ ids). by rewrite H. Qed.

Lemma uuid_char_solid c : uuid_char c = true -> is_whitespace c = false.
Proof.
  unfold uuid_char, is_ascii_hexdigit, is_ascii_digit, in_range, is_whitespace, in_range, c_dash. intros H.
  destruct ((9 <=? c) && (c <=? 13)) eqn:E; lia.
Qed.

Lemma trim_uuid n : trim (uuid n) = uuid n.
Proof using ids. apply trim_plain. eapply Forall_impl; [apply uuid_plain|]. exact uuid_char_solid. Qed.

Lemma owner_rel_ok owner n e : owner_rel parse_uuid sha256_hex owner (uuid n) e = Ok (Some (sha256_hex owner), uuid n).
Proof using ids.
  unfold owner_rel. rewrite trim_uuid, (uuid_parses _ _ _ ids). cbn [ok_or mbind result_bind].
  rewrite (digest_length _ _ _ ids), (digest_digits _ _ _ ids). reflexivity.
Qed.

Lemma owner_rel_inv owner id e p : owner_rel parse_uuid sha256_hex owner id e = Ok p ->
  exists h, p = (Some (sha256_hex owner), h) /\ Forall (fun c => uuid_char c = true) h.
Proof using ids. unfold owner_rel. intros H. results. injection H as <-. eexists. split; [done|]. by eapply parsed_plain. Qed.

(** A temporary name is not the name of a stored file, and not the temporary
    name of another draw. *)
Lemma tmp_of_inj rel rel' n m : tmp_of rel (uuid n) = tmp_of rel' (uuid m) -> n = m.
Proof using ids.
  intros H. apply (simple_inj _ _ _ ids). cbn beta. destruct rel as [o a], rel' as [o' b]. apply (f_equal snd) in H. unfold tmp_of in H. cbn [snd] in H.
  rewrite !app_assoc in H. apply app_inv_tail in H. rewrite <- !app_assoc in H.
  assert (Hs : forall k, c_dot ∉ simple (uuid k)).
  { intros k Hin. unfold simple in Hin. apply list_elem_of_In, filter_In in Hin as [Hin _]. apply list_elem_of_In in Hin.
    by eapply uuid_char_no_dot in Hin; [|apply uuid_plain]. }
  apply (f_equal (fun s => rsplit_once [c_dot] s)) in H.
  assert (Hr : forall p s, c_dot ∉ s -> rsplit_once [c_dot] (p ++ T "." ++ s) = Some (p, s)).
  { clear. intros p s Hs. unfold rsplit_once.
    assert (E : forall s, c_dot ∉ s -> rfind_sub [c_dot] s = None).
    { clear. induction s as [|c s IH]; intros H; [done|]. apply not_elem_of_cons in H as [Hc H]. cbn [rfind_sub starts_with].
      rewrite IH by done. destruct (Z.eqb_spec c_dot c); [congruence | done]. }
    assert (E2 : rfind_sub [c_dot] (p ++ T "." ++ s) = Some (length p)).
    { induction p as [|c p IH]; cbn [app rfind_sub length].
      - cbn. rewrite E by done. done.
      - cbn [app] in IH. by rewrite IH. }
    rewrite E2, take_app_length, <- drop_drop, drop_app_length. done. }
  rewrite !Hr in H by done. congruence.
Qed.

Lemma tmp_of_dot rel n : c_dot ∈ snd (tmp_of rel (uuid n)).
Proof. cbn. apply elem_of_app. right. by left. Qed.
End Paths.
