(* ===== verification/Multipart.v ===== *)
(** The request of an upload, server/attachments.rs: the [Content-Length], the
    boundary, the parts of the body with their file names, and what a file may
    hold.

    Bytes and text are both lists of integers; the source decodes a header as
    UTF-8 before it looks at it.  The loop over the parts has fuel, one unit for
    a byte of the body, and [parse_multipart_total] shows that it is enough.
    The extraction of text from a [.docx] (server/docx.rs, a reader on the
    crates [zip] and [quick_xml] with a deadline of two seconds) is a
    parameter.  Error codes are modelled, messages and details are not. *)

From S2P Require Import Prelude Text Utf8.
Local Open Scope Z_scope.

Definition MAX_FILE_BYTES : Z := 15 * 1024 * 1024.
Definition MAX_FILES_PER_REQUEST : nat := 3.
Definition MULTIPART_OVERHEAD : Z := 256 * 1024.
Definition MAX_REQUEST_BYTES : Z := MAX_FILE_BYTES * Z.of_nat MAX_FILES_PER_REQUEST + MULTIPART_OVERHEAD.
Definition MAX_LOSSY_REPLACEMENTS : nat := 32.

Definition err_too_large : harness_error := err_code "ATTACHMENT_TOO_LARGE".
Definition err_content_length : harness_error := err_code "ATTACHMENT_CONTENT_LENGTH".
Definition err_media : harness_error := err_code "ATTACHMENT_MEDIA".
Definition err_empty : harness_error := err_code "ATTACHMENT_EMPTY".
Definition err_type : harness_error := err_code "ATTACHMENT_TYPE".
Definition err_nul : harness_error := err_code "ATTACHMENT_NUL".
Definition err_encoding : harness_error := err_code "ATTACHMENT_ENCODING".
Definition too_many : harness_error := err_code "ATTACHMENT_TOO_MANY".

Record IncomingFile := MkFile { filename : text; data : list Z }.

Definition c_quote : char := 34.
Definition c_semicolon : char := 59.
Definition c_equals : char := 61.
Definition crlf : text := [c_cr; c_newline].
Definition eq_ignore_ascii_case (a b : text) : bool := teqb (map to_ascii_lower a) (map to_ascii_lower b).

(** ** The header fields of the request *)

Definition check_content_length (declared : option Z) (actual : Z) : result harness_error unit :=
  _ ← match declared with
      | None => Ok tt
      | Some n =>
          _ ← refuse_if (MAX_REQUEST_BYTES <? n) err_too_large;
          refuse_if (negb (n =? actual)) err_content_length
      end;
  refuse_if (MAX_REQUEST_BYTES <? actual) err_too_large.

Definition parse_content_length (header : option text) : result harness_error (option Z) :=
  match header with
  | None => Ok None
  | Some raw =>
      let raw := trim raw in
      if bool_decide (raw = []) then Ok None else Some <$> ok_or (parse_uint usize_max raw) err_content_length
  end.

Definition is_quote (c : char) : bool := c =? c_quote.
Fixpoint boundary_of (parts : list text) : option text :=
  match parts with
  | [] => None
  | part :: parts =>
      match split_once [c_equals] (trim part) with
      | None => boundary_of parts
      | Some (k, v) =>
          if eq_ignore_ascii_case (trim k) (T "boundary") then
            let v := trim_end is_quote (trim_start is_quote (trim v)) in
            if bool_decide (v = []) || (70 <? byte_len v) || contains (T "..") v then None else Some v
          else boundary_of parts
      end
  end.

Definition multipart_boundary (content_type : text) : result harness_error text :=
  if starts_with (T "multipart/form-data") (map to_ascii_lower content_type)
  then ok_or (boundary_of (tail (split_on c_semicolon content_type))) err_media
  else Err err_media.

(** ** The parameters of a part *)

(** The state of the loop: the items, the current one, inside quotes, after a
    backslash. *)
Fixpoint split_params_from (value : text) (out : list text) (current : text) (quoted escaped : bool) : list text :=
  match value with
  | [] => if bool_decide (trim current = []) then out else out ++ [current]
  | c :: value =>
      if escaped then split_params_from value out (current ++ [c]) quoted false
      else if (c =? c_backslash) && quoted then split_params_from value out (current ++ [c]) quoted true
      else if c =? c_quote then split_params_from value out (current ++ [c]) (negb quoted) false
      else if (c =? c_semicolon) && negb quoted then split_params_from value (out ++ [current]) [] quoted false
      else split_params_from value out (current ++ [c]) quoted false
  end.
Definition split_params (value : text) : list text := split_params_from value [] [] false false.

Fixpoint unescape (s : text) : text :=
  match s with
  | [] => []
  | c :: s =>
      if c =? c_backslash then match s with [] => [] | next :: s => next :: unescape s end
      else c :: unescape s
  end.
Definition unquote_param (value : text) : text :=
  match v ← strip_prefix [c_quote] value; strip_suffix [c_quote] v with
  | Some inner => unescape inner
  | None => value
  end.

Definition filename_item (found : option text) (item : text) : option text :=
  match split_once [c_equals] (trim item) with
  | Some (k, v) => if eq_ignore_ascii_case (trim k) (T "filename") then Some (unquote_param (trim v)) else found
  | None => found
  end.
Definition filename_line (found : option text) (line : text) : option text :=
  match split_once [c_colon] line with
  | Some (name, value) =>
      if eq_ignore_ascii_case name (T "content-disposition") then foldl filename_item found (split_params value) else found
  | None => found
  end.
Definition disposition_filename (headers : text) : option text :=
  match foldl filename_line None (split_sub (S (length headers)) crlf headers) with
  | Some [] => None
  | found => found
  end.

(** ** The body *)

(** The needle is never empty. *)
Definition find_subslice (hay needle : list Z) : option nat := find_sub needle hay.

Fixpoint parse_parts (fuel : nat) (delim line_delim : list Z) (max_files : nat) (files : list IncomingFile) (rest : list Z)
  : option (result harness_error (list IncomingFile)) :=
  match fuel with
  | O => None
  | S fuel =>
      if starts_with (T "--") rest then Some (if bool_decide (files = []) then Err err_empty else Ok files)
      else
        let rest := if starts_with crlf rest then drop 2 rest else rest in
        match find_subslice rest (crlf ++ crlf) with
        | None => Some (Err err_media)
        | Some header_end =>
            match from_utf8 (take header_end rest) with
            | None => Some (Err err_media)
            | Some headers =>
                let rest := drop (header_end + 4) rest in
                match find_subslice rest line_delim with
                | None => Some (Err err_media)
                | Some closer =>
                    let data := take closer rest in
                    let rest := drop (closer + 2) rest in
                    if negb (starts_with delim rest) then Some (Err err_media)
                    else
                      let rest := drop (length delim) rest in
                      match disposition_filename headers with
                      | None => parse_parts fuel delim line_delim max_files files rest
                      | Some filename =>
                          if (max_files <=? length files)%nat then Some (Err too_many)
                          else parse_parts fuel delim line_delim max_files (files ++ [MkFile filename data]) rest
                      end
                end
            end
        end
  end.

Definition delimiter (boundary : text) : list Z := T "--" ++ as_bytes boundary.
Definition parse_multipart_limited (body : list Z) (boundary : text) (max_files : nat)
  : option (result harness_error (list IncomingFile)) :=
  let delim := delimiter boundary in
  match find_subslice body delim with
  | None => Some (Err err_media)
  | Some first => parse_parts (S (length body)) delim (crlf ++ delim) max_files [] (drop (first + length delim) body)
  end.
Definition parse_multipart (body : list Z) (boundary : text) : option (result harness_error (list IncomingFile)) :=
  parse_multipart_limited body boundary MAX_FILES_PER_REQUEST.

(** ** What a file may hold *)

Record ClassifiedText := MkClass { magic_mime : text; class_text : text }.

Definition BINARY_SIGS : list (list Z) :=
  [T "%PDF"; T "PK" ++ [3; 4]; [137] ++ T "PNG"; [255; 216; 255]; [31; 139]; [127] ++ T "ELF"; T "{\rtf"].

Definition docx_mime : text := T "application/vnd.openxmlformats-officedocument.wordprocessingml.document".

(** [rsplit(['/', '\\']).next()] *)
Definition is_separator (c : char) : bool := (c =? c_slash) || (c =? c_backslash).
Fixpoint after_separator (s : text) : text :=
  match s with
  | [] => []
  | c :: s' => if existsb is_separator s' then after_separator s' else if is_separator c then s' else s
  end.

Definition allowed_extensions : list text := [T "txt"; T "md"; T "json"; T "csv"; T "log"; T "docx"].
Definition allowed_extension (filename : text) : result harness_error text :=
  let base := trim (after_separator filename) in
  _ ← refuse_if (bool_decide (base = []) || contains (T "..") base) err_type;
  let ext := map to_ascii_lower (match rsplit_once [c_dot] base with Some (_, e) => e | None => [] end) in
  _ ← refuse_if (negb (existsb (teqb ext) allowed_extensions)) err_type;
  mret ext.

Definition guessed_ext_from_mime (mime : text) : text :=
  if teqb mime (T "text/markdown") then T "md"
  else if teqb mime (T "text/csv") then T "csv"
  else if teqb mime (T "application/json") then T "json"
  else if teqb mime docx_mime then T "docx"
  else T "txt".

(** [u8::is_ascii_whitespace] *)
Definition is_ascii_whitespace (b : Z) : bool := (b =? 32) || (b =? 9) || (b =? 10) || (b =? 12) || (b =? 13).
Definition looks_like_json (data : list Z) : bool :=
  let data := if starts_with [239; 187; 191] data then drop 3 data else data in
  match trim_start is_ascii_whitespace data with b :: _ => (b =? 123) || (b =? 91) | [] => false end.

Definition decode_text (data : list Z) : result harness_error text :=
  match from_utf8 data with
  | Some s => Ok s
  | None =>
      let lossy := from_utf8_lossy data in
      if (MAX_LOSSY_REPLACEMENTS <? length (List.filter (Z.eqb replacement) lossy))%nat then Err err_encoding else Ok lossy
  end.

Section Classify.
Context (extract : list Z -> result harness_error text).

Definition text_mime (data : list Z) (ext : text) : result harness_error text :=
  if teqb ext (T "txt") || teqb ext (T "log") then Ok (T "text/plain")
  else if teqb ext (T "md") then Ok (T "text/markdown")
  else if teqb ext (T "csv") then Ok (T "text/csv")
  else if teqb ext (T "json") then (if looks_like_json data then Ok (T "application/json") else Err err_type)
  else Err err_type.

Definition classify_bytes (data : list Z) (ext : text) : result harness_error ClassifiedText :=
  if teqb ext (T "docx") then MkClass docx_mime <$> extract data
  else
    _ ← refuse_if (existsb (Z.eqb 0) data) err_nul;
    _ ← refuse_if (existsb (fun sig => starts_with sig data) BINARY_SIGS) err_type;
    t ← decode_text data;
    m ← text_mime data ext;
    mret (MkClass m t).

Definition zlen {A} (l : list A) : Z := Z.of_nat (length l).
Definition classify_file (file : IncomingFile) : result harness_error ClassifiedText :=
  _ ← refuse_if (MAX_FILE_BYTES <? zlen (data file)) err_too_large;
  _ ← refuse_if (bool_decide (data file = [])) err_empty;
  ext ← allowed_extension (filename file);
  classify_bytes (data file) ext.
End Classify.

(** The error status of an upload. *)
Definition upload_status (e : harness_error) : Z :=
  if bool_decide (code e ∈ ["ATTACHMENT_TOO_LARGE"; "ATTACHMENT_QUOTA"]%string) then 413
  else if bool_decide (code e = "ATTACHMENT_MEDIA"%string) then 415
  else if bool_decide (code e = "ATTACHMENT_BUSY"%string) then 503
  else if bool_decide (code e = "ATTACHMENT_TIMEOUT"%string) then 408
  else if bool_decide (code e = "ATTACHMENT_OWNER_GONE"%string) then 403
  else if bool_decide (code e = "IO_ERROR"%string) then 500
  else if bool_decide (code e = "ATTACHMENT_NOT_FOUND"%string) then 404
  else 400.

(** A file that was accepted reads back the same under the extension guessed
    from its media type. *)
Lemma classify_again extract data ext c :
  classify_bytes extract data ext = Ok c -> classify_bytes extract data (guessed_ext_from_mime (magic_mime c)) = Ok c.
Proof.
  unfold classify_bytes at 1. destruct (teqb ext (T "docx")) eqn:Ed.
  - intros H. destruct (extract data) as [t|e] eqn:E; [|done]. injection H as <-. unfold classify_bytes. cbn [magic_mime].
    replace (teqb (guessed_ext_from_mime docx_mime) (T "docx")) with true by done. by rewrite E.
  - intros H. results. unfold text_mime in *.
    assert (Hm : exists ext', guessed_ext_from_mime a2 = ext' /\ teqb ext' (T "docx") = false
                  /\ text_mime data ext' = Ok a2).
    { unfold text_mime. repeat case_match; simplify_eq; eexists; (split; [done|]); split; try done. }
    injection H as <-. cbn [magic_mime]. destruct Hm as (ext' & -> & Hd & Hm). unfold classify_bytes. rewrite Hd, Hb, Hb0, Hb1. cbn [refuse_if mbind result_bind].
    rewrite Hm. done.
Qed.

(** ** The loop ends, and takes no more files than allowed *)

Lemma parse_parts_total fuel delim line_delim max files rest :
  (length rest < fuel)%nat -> exists r, parse_parts fuel delim line_delim max files rest = Some r.
Proof.
  revert files rest. induction fuel as [|fuel IH]; intros files rest Hf; [lia|]. cbn [parse_parts].
  destruct (starts_with (T "--") rest); [eauto|].
  assert (Hd : (length (if starts_with crlf rest then drop 2 rest else rest) <= length rest)%nat).
  { destruct (starts_with crlf rest); [rewrite length_drop|]; lia. }
  revert Hd. set (rest' := if starts_with crlf rest then _ else _). intros Hd. unfold find_subslice.
  destruct (find_sub (crlf ++ crlf) rest') as [n|] eqn:En; [|eauto]. apply find_sub_bound in En. cbn [length app crlf] in En.
  destruct (from_utf8 _) as [headers|]; [|eauto]. cbn zeta.
  destruct (find_sub line_delim _) as [k|]; [|eauto]. destruct (negb _); [eauto|].
  destruct (disposition_filename headers); [destruct (_ <=? _)%nat; [eauto|]|]; apply IH; rewrite !length_drop; lia.
Qed.

(** The parser answers on every body. *)
Lemma parse_multipart_total body boundary max : exists r, parse_multipart_limited body boundary max = Some r.
Proof.
  unfold parse_multipart_limited. destruct (find_subslice body (delimiter boundary)); [|eauto].
  apply parse_parts_total. rewrite length_drop. lia.
Qed.

Lemma parse_parts_bounded fuel delim line_delim max files rest fs :
  (length files <= max)%nat -> parse_parts fuel delim line_delim max files rest = Some (Ok fs) -> (0 < length fs <= max)%nat.
Proof.
  revert files rest. induction fuel as [|fuel IH]; intros files rest Hm H; [done|]. cbn [parse_parts] in H.
  destruct (starts_with (T "--") rest).
  { destruct files as [|f files]; [done|]. rewrite bool_decide_eq_false_2 in H by done. injection H as <-. simpl in *. lia. }
  cbn zeta in H. destruct (find_subslice _ (crlf ++ crlf)); [|done]. destruct (from_utf8 _) as [headers|]; [|done].
  destruct (find_subslice _ line_delim); [|done]. destruct (negb _); [done|].
  destruct (disposition_filename headers); [|by eapply IH].
  destruct (Nat.leb_spec max (length files)); [done|]. eapply IH; [|exact H]. rewrite length_app. simpl. lia.
Qed.

Lemma parse_multipart_bounded body boundary max fs :
  parse_multipart_limited body boundary max = Some (Ok fs) -> (0 < length fs <= max)%nat.
Proof.
  unfold parse_multipart_limited. destruct (find_subslice body (delimiter boundary)); [|done].
  apply parse_parts_bounded. simpl. lia.
Qed.

(** ** A body that a client sends *)

Definition escape (s : text) : text := flat_map (fun c => if (c =? c_quote) || (c =? c_backslash) then [c_backslash; c] else [c]) s.
Definition part_headers (fn : text) : text :=
  T "Content-Disposition: form-data; name=file; filename=" ++ c_quote :: escape fn ++ [c_quote] ++ crlf
  ++ T "Content-Type: application/octet-stream".
Definition part_bytes (boundary : text) (f : IncomingFile) : list Z :=
  crlf ++ as_bytes (part_headers (filename f)) ++ (crlf ++ crlf) ++ data f ++ crlf ++ delimiter boundary.
Definition multipart_body (boundary : text) (files : list IncomingFile) : list Z :=
  delimiter boundary ++ flat_map (part_bytes boundary) files ++ T "--" ++ crlf.

(** A file that can be sent with this boundary: its name is one line of text,
    and its bytes do not contain the boundary at the start of a line. *)
Record Sendable (boundary : text) (f : IncomingFile) : Prop := {
  name_given : filename f <> [];
  name_text : Forall (fun c => is_scalar c = true) (filename f);
  name_one_line : c_cr ∉ filename f;
  no_boundary_inside : contains (crlf ++ delimiter boundary) (data f) = false;
}.

(** A pattern whose first character occurs in it once is found at its end of a
    text that does not contain it. *)
Lemma find_sub_after c p w s :
  c ∉ p -> contains (c :: p) w = false -> find_sub (c :: p) (w ++ (c :: p) ++ s) = Some (length w).
Proof.
  intros Hc. induction w as [|x w IH]; intros Hw; [exact (find_sub_here (c :: p) s)|].
  rewrite contains_cons in Hw. apply orb_false_iff in Hw as [Hs Hw]. cbn [app find_sub].
  replace (starts_with (c :: p) (x :: w ++ c :: p ++ s)) with false.
  - cbn [app] in IH. by rewrite IH.
  - symmetry. apply not_true_iff_false. intros E. cbn [starts_with] in E, Hs. destruct (c =? x); [|done]. cbn [andb] in E, Hs.
    apply starts_with_no_a in E; [congruence | done].
Qed.


(** *** The file name survives its quotes *)

Lemma unescape_escape s : unescape (escape s) = s.
Proof.
  induction s as [|c s IH]; [done|]. unfold escape in *. cbn [flat_map].
  destruct ((c =? c_quote) || (c =? c_backslash)) eqn:E; cbn [app].
  - change (unescape (c_backslash :: c :: flat_map (fun c => if (c =? c_quote) || (c =? c_backslash) then [c_backslash; c] else [c]) s))
      with (c :: unescape (flat_map (fun c => if (c =? c_quote) || (c =? c_backslash) then [c_backslash; c] else [c]) s)). by rewrite IH.
  - apply orb_false_iff in E as [_ E]. cbn [unescape]. by rewrite E, IH.
Qed.

Lemma escape_absent a s : a <> c_backslash -> a ∉ s -> a ∉ escape s.
Proof.
  intros Ha. induction s as [|c s IH]; intros H; [done|]. apply not_elem_of_cons in H as [Hc H]. unfold escape in *. cbn [flat_map].
  rewrite elem_of_app. intros [Hin|Hin]; [|by apply IH]. destruct (_ || _); rewrite ?elem_of_cons, elem_of_nil in Hin; naive_solver.
Qed.

Lemma unquote_quoted s : unquote_param (c_quote :: escape s ++ [c_quote]) = s.
Proof.
  unfold unquote_param. replace (strip_prefix [c_quote] (c_quote :: escape s ++ [c_quote])) with (Some (escape s ++ [c_quote]))
    by (symmetry; by apply strip_prefix_spec). cbn [mbind option_bind].
  replace (strip_suffix [c_quote] (escape s ++ [c_quote])) with (Some (escape s)) by (symmetry; by apply strip_suffix_spec).
  apply unescape_escape.
Qed.

(** Outside of quotes, up to the next separator. *)
Lemma split_params_plain w s out current :
  Forall (fun c => (c =? c_quote) || (c =? c_semicolon) = false) w ->
  split_params_from (w ++ s) out current false false = split_params_from s out (current ++ w) false false.
Proof.
  intros H. revert current. induction H as [|c w Hc _ IH]; intros current; [by rewrite app_nil_r|]. apply orb_false_iff in Hc as [Hq Hs].
  cbn [app split_params_from]. rewrite Hq, Hs, andb_false_r. cbn [andb]. rewrite IH, <- app_assoc. done.
Qed.

Lemma split_params_semicolon s out current :
  split_params_from (c_semicolon :: s) out current false false = split_params_from s (out ++ [current]) [] false false.
Proof. done. Qed.

Lemma split_params_quoted w s out current :
  split_params_from (escape w ++ c_quote :: s) out current true false
  = split_params_from s out (current ++ escape w ++ [c_quote]) false false.
Proof.
  revert current. induction w as [|c w IH]; intros current; [done|]. unfold escape in *. cbn [flat_map].
  destruct ((c =? c_quote) || (c =? c_backslash)) eqn:E; cbn [app].
  - change (split_params_from (flat_map (fun c => if (c =? c_quote) || (c =? c_backslash) then [c_backslash; c] else [c]) w ++ c_quote :: s)
      out ((current ++ [c_backslash]) ++ [c]) true false = split_params_from s out
      (current ++ c_backslash :: c :: flat_map (fun c => if (c =? c_quote) || (c =? c_backslash) then [c_backslash; c] else [c]) w ++ [c_quote]) false false).
    rewrite IH, <- !app_assoc. done.
  - apply orb_false_iff in E as [Hq Hb]. cbn [split_params_from]. rewrite Hb, Hq. cbn [andb negb]. rewrite andb_false_r, IH, <- !app_assoc. done.
Qed.

Lemma trim_solid s : match s with c :: _ => is_whitespace c = false | [] => True end ->
  match rev s with c :: _ => is_whitespace c = false | [] => True end -> trim s = s.
Proof.
  intros Ha Hz. unfold trim. replace (trim_start is_whitespace s) with s by (destruct s; [done | symmetry; by apply trim_start_id]).
  unfold trim_end. destruct (rev s) as [|c r] eqn:E; [by apply (f_equal (@rev char)) in E; rewrite rev_involutive in E|].
  rewrite trim_start_id by done. by rewrite <- E, rev_involutive.
Qed.

Lemma trim_quoted c w : is_whitespace c = false -> trim (c :: w ++ [c_quote]) = c :: w ++ [c_quote].
Proof. intros H. apply trim_solid; [done|]. by rewrite app_comm_cons, rev_app_distr. Qed.

Lemma params_of_headers fn :
  split_params (T " form-data; name=file; filename=" ++ c_quote :: escape fn ++ [c_quote])
  = [T " form-data"; T " name=file"; T " filename=" ++ c_quote :: escape fn ++ [c_quote]].
Proof.
  unfold split_params.
  change (T " form-data; name=file; filename=" ++ c_quote :: escape fn ++ [c_quote])
    with (T " form-data" ++ c_semicolon :: T " name=file" ++ c_semicolon :: T " filename=" ++ c_quote :: escape fn ++ [c_quote]).
  rewrite split_params_plain by (repeat constructor). rewrite split_params_semicolon.
  rewrite split_params_plain by (repeat constructor). rewrite split_params_semicolon.
  rewrite split_params_plain by (repeat constructor). cbn [app].
  change (split_params_from (c_quote :: escape fn ++ [c_quote]) [T " form-data"; T " name=file"] (T " filename=") false false)
    with (split_params_from (escape fn ++ c_quote :: []) [T " form-data"; T " name=file"] (T " filename=" ++ [c_quote]) true false).
  rewrite split_params_quoted. cbn [split_params_from].
  rewrite bool_decide_eq_false_2; [by rewrite <- !app_assoc|].
  change (trim ((T " filename=" ++ [c_quote]) ++ escape fn ++ [c_quote]) <> []).
  change ((T " filename=" ++ [c_quote]) ++ escape fn ++ [c_quote]) with (c_space :: T "filename=" ++ c_quote :: escape fn ++ [c_quote]).
  change (trim (c_space :: ?s)) with (trim s). change (T "filename=" ++ c_quote :: escape fn ++ [c_quote])
    with (102 :: (T "ilename=" ++ c_quote :: escape fn) ++ [c_quote]). by rewrite trim_quoted.
Qed.

Ltac absent_in_literal := match goal with H : ?c ∈ ?l |- False => revert H; exact (bool_decide_unpack (c ∉ l) I) end.

Lemma disposition_of_headers fn : fn <> [] -> c_cr ∉ fn -> disposition_filename (part_headers fn) = Some fn.
Proof.
  intros Hne Hcr. unfold disposition_filename, part_headers.
  set (head := T "Content-Disposition: form-data; name=file; filename=" ++ c_quote :: escape fn ++ [c_quote]).
  replace (T "Content-Disposition: form-data; name=file; filename=" ++ c_quote :: escape fn ++ [c_quote] ++ crlf
           ++ T "Content-Type: application/octet-stream")
    with (head ++ crlf ++ T "Content-Type: application/octet-stream") by (unfold head; rewrite <- !app_assoc; cbn [app]; rewrite <- !app_assoc; done).
  assert (Hh : c_cr ∉ head).
  { unfold head. rewrite elem_of_app, elem_of_cons, elem_of_app, list_elem_of_singleton. intros [H|[H|[H|H]]]; try done.
    - absent_in_literal.
    - by eapply escape_absent in H. }
  rewrite split_sub_S. unfold crlf at 1. rewrite find_sub_skip by done.
  change (find_sub [c_cr; c_newline] (crlf ++ T "Content-Type: application/octet-stream")) with (Some 0%nat).
  cbn [fmap option_fmap option_map]. rewrite Nat.add_0_r, take_app_length. cbn [length crlf].
  replace (drop (length head + 2) (head ++ crlf ++ T "Content-Type: application/octet-stream")) with (T "Content-Type: application/octet-stream")
    by (by rewrite drop_app_add).
  rewrite length_app. cbn [length Nat.add crlf app].
  replace (length head + _)%nat with (S (length head + length (c_newline :: T "Content-Type: application/octet-stream"))) by (simpl; lia).
  rewrite split_sub_S. change (find_sub crlf (T "Content-Type: application/octet-stream")) with (@None nat). cbn [foldl].
  replace (filename_line None head) with (Some fn); [by destruct fn|]. unfold filename_line, head.
  change (T "Content-Disposition: form-data; name=file; filename=" ++ ?s)
    with (T "Content-Disposition" ++ c_colon :: T " form-data; name=file; filename=" ++ s).
  rewrite split_once_first by exact (bool_decide_unpack (c_colon ∉ T "Content-Disposition") I).
  change (eq_ignore_ascii_case (T "Content-Disposition") (T "content-disposition")) with true. cbn iota.
  rewrite params_of_headers. cbn [foldl]. change (filename_item (filename_item None (T " form-data")) (T " name=file")) with (@None text).
  unfold filename_item. change (trim (T " filename=" ++ ?s)) with (trim (102 :: T "ilename=" ++ s)).
  replace (102 :: T "ilename=" ++ c_quote :: escape fn ++ [c_quote]) with (102 :: (T "ilename=" ++ c_quote :: escape fn) ++ [c_quote])
    by (by rewrite <- app_assoc).
  rewrite trim_quoted by done.
  replace (102 :: (T "ilename=" ++ c_quote :: escape fn) ++ [c_quote]) with (T "filename" ++ c_equals :: c_quote :: escape fn ++ [c_quote])
    by (by rewrite <- app_assoc).
  rewrite split_once_first by exact (bool_decide_unpack (c_equals ∉ T "filename") I).
  change (eq_ignore_ascii_case (trim (T "filename")) (T "filename")) with true. cbn iota.
  rewrite trim_quoted by done. by rewrite unquote_quoted.
Qed.

(** *** One part, then all of them *)

Section RoundTrip.
Context (boundary : text) (Hb : c_cr ∉ boundary).

Lemma delimiter_no_cr : c_cr ∉ c_newline :: delimiter boundary.
Proof using Hb.
  unfold delimiter. rewrite elem_of_cons, elem_of_app. intros [H|[H|H]]; [done| |].
  - absent_in_literal.
  - by eapply bytes_absent in H.
Qed.

Lemma headers_scalar fn : Forall (fun c => is_scalar c = true) fn -> Forall (fun c => is_scalar c = true) (part_headers fn).
Proof.
  intros H. unfold part_headers. rewrite Forall_app, Forall_cons, !Forall_app. split; [repeat constructor|]. split; [done|].
  split; [|split; [by repeat constructor|split; [by repeat constructor | by repeat constructor]]].
  unfold escape. apply Forall_flat_map, (Forall_impl _ _ _ H). intros c Hc. destruct (_ || _); repeat constructor; done.
Qed.

(** The blank line that ends the headers is the first one. *)
Lemma headers_end fn s : c_cr ∉ fn ->
  find_sub (crlf ++ crlf) (as_bytes (part_headers fn) ++ (crlf ++ crlf) ++ s) = Some (length (as_bytes (part_headers fn))).
Proof.
  intros Hcr. unfold part_headers.
  replace (T "Content-Disposition: form-data; name=file; filename=" ++ c_quote :: escape fn ++ [c_quote] ++ crlf
           ++ T "Content-Type: application/octet-stream")
    with ((T "Content-Disposition: form-data; name=file; filename=" ++ c_quote :: escape fn ++ [c_quote]) ++ crlf
           ++ T "Content-Type: application/octet-stream") by (rewrite <- !app_assoc; cbn [app]; rewrite <- !app_assoc; done).
  rewrite as_bytes_app, (as_bytes_app crlf). match goal with |- context [as_bytes (T ?a ++ ?b)] => set (head := as_bytes (T a ++ b)) end.
  change (as_bytes crlf) with crlf. change (as_bytes (T "Content-Type: application/octet-stream")) with (T "Content-Type: application/octet-stream").
  assert (Hh : c_cr ∉ head).
  { apply bytes_absent; [done|]. rewrite elem_of_app, elem_of_cons, elem_of_app, list_elem_of_singleton. intros [H|[H|[H|H]]]; try done.
    - absent_in_literal.
    - by eapply escape_absent in H. }
  rewrite <- app_assoc. change (crlf ++ crlf) with (c_cr :: c_newline :: crlf). rewrite find_sub_skip by done.
  replace (find_sub (c_cr :: c_newline :: crlf)
      ((crlf ++ T "Content-Type: application/octet-stream") ++ (c_cr :: c_newline :: crlf) ++ s)) with (Some 40%nat) by done.
  cbn [fmap option_fmap option_map]. by rewrite length_app.
Qed.

Lemma parse_part fuel max files f rest :
  Sendable boundary f -> (length files < max)%nat ->
  parse_parts (S fuel) (delimiter boundary) (crlf ++ delimiter boundary) max files (part_bytes boundary f ++ rest)
  = parse_parts fuel (delimiter boundary) (crlf ++ delimiter boundary) max (files ++ [f]) rest.
Proof using Hb.
  intros [Hne Ht Hcr Hd] Hm. cbn [parse_parts]. unfold part_bytes. set (hb := as_bytes (part_headers (filename f))).
  rewrite <- !app_assoc. change (starts_with (T "--") (crlf ++ ?s)) with false. change (starts_with crlf (crlf ++ ?s)) with (starts_with [] s).
  cbn [starts_with]. cbn iota zeta. change (drop 2 (crlf ++ ?s)) with s. unfold find_subslice.
  rewrite (app_assoc crlf crlf). unfold hb. rewrite headers_end by done. fold hb. rewrite take_app_length. unfold hb at 1.
  rewrite from_utf8_bytes by (by apply headers_scalar). cbn zeta.
  replace (drop (length hb + 4) (hb ++ (crlf ++ crlf) ++ data f ++ crlf ++ delimiter boundary ++ rest)) with (data f ++ crlf ++ delimiter boundary ++ rest)
    by (by rewrite drop_app_add).
  rewrite (app_assoc crlf (delimiter boundary) rest). change (crlf ++ delimiter boundary) with (c_cr :: c_newline :: delimiter boundary).
  rewrite find_sub_after; [|apply delimiter_no_cr | exact Hd]. rewrite take_app_length.
  replace (drop (length (data f) + 2) (data f ++ (c_cr :: c_newline :: delimiter boundary) ++ rest)) with (delimiter boundary ++ rest)
    by (by rewrite drop_app_add).
  rewrite starts_with_app, drop_app_length. cbn [negb]. rewrite disposition_of_headers by done.
  replace (max <=? length files)%nat with false by (symmetry; apply Nat.leb_gt; lia). by destruct f.
Qed.

Lemma parse_all_parts fs fuel max files :
  Forall (Sendable boundary) fs -> (length files + length fs <= max)%nat -> (length fs < fuel)%nat -> files ++ fs <> [] ->
  parse_parts fuel (delimiter boundary) (crlf ++ delimiter boundary) max files (flat_map (part_bytes boundary) fs ++ T "--" ++ crlf)
  = Some (Ok (files ++ fs)).
Proof using Hb.
  revert fuel files. induction fs as [|f fs IH]; intros [|fuel] files H Hm Hf Hne; simpl in Hf; try lia.
  - rewrite app_nil_r in *. cbn [parse_parts flat_map app]. change (starts_with (T "--") (T "--" ++ crlf)) with true. cbn iota.
    by rewrite bool_decide_eq_false_2.
  - inversion H as [|? ? Hs H']; subst. cbn [flat_map]. rewrite <- app_assoc. rewrite parse_part; [|done|simpl in Hm; lia].
    rewrite IH; [by rewrite <- app_assoc | done | rewrite length_app; simpl in Hm |- *; lia | lia|]. by destruct files.
Qed.
End RoundTrip.

(** C24. A multipart body is read as it was sent: whatever bytes the files hold,
    and whatever quotes and backslashes their names hold, the parser answers
    exactly these files, in order, provided that they are no more than allowed
    and that no file holds the boundary at the start of a line. *)
Theorem multipart_round_trip boundary files max
    (Hboundary : c_cr ∉ boundary) (Hsendable : Forall (Sendable boundary) files)
    (Hsome : files <> []) (Hmax : (length files <= max)%nat) :
  parse_multipart_limited (multipart_body boundary files) boundary max = Some (Ok files).
Proof.
  unfold parse_multipart_limited, multipart_body, find_subslice. rewrite find_sub_here. rewrite Nat.add_0_l, drop_app_length.
  apply parse_all_parts; try done. rewrite !length_app.
  assert (forall fs, (length fs <= length (flat_map (part_bytes boundary) fs))%nat).
  { induction fs as [|f fs IH]; [done|]. cbn [flat_map]. rewrite length_app. unfold part_bytes at 1. rewrite length_app. simpl length in *. lia. }
  specialize (H files). lia.
Qed.

Module SmallBody.
Definition boundary : text := T "XyZ".
(** A name with a quote, a semicolon, a backslash and an accent; bytes with the
    boundary inside a line. *)
Definition files : list IncomingFile :=
  [MkFile ([c_quote; c_semicolon; c_backslash; 233] ++ T ".txt") (T "a --XyZ b" ++ crlf ++ T "--"); MkFile (T "b.md") [0; 255]].
End SmallBody.

Lemma multipart_round_trip_witness :
  parse_multipart_limited (multipart_body SmallBody.boundary SmallBody.files) SmallBody.boundary 3 = Some (Ok SmallBody.files).
Proof.
  apply (multipart_round_trip SmallBody.boundary SmallBody.files 3).
  - exact (bool_decide_unpack (c_cr ∉ SmallBody.boundary) I).
  - repeat constructor; try done; by apply (bool_decide_unpack _).
  - done.
  - simpl. lia.
Defined.
