(* ===== verification/Attachments.v ===== *)
(** The attachment store of the chat, server/attachments.rs: the files that an
    account uploaded, their manifest, the quota, the clean-up after a deleted
    account, and the fence that shows the files to a model.

    An operation holds the lock of the store from its first to its last system
    call, so it is one step of the history of the server ([happens]); the
    accounts change between steps, and [owner_live] of the source asks them
    inside the step.  [sweep_dead_owners] takes the lock once for its list and
    once for each owner; in a history it is one step, and a step [Unlink] stands
    for a part of it on its own.  Any system call of a step may fail or be where
    the process dies ([Jail]).

    Parameters, fields of [Env]: those of [Jail]; [sha256_bytes_hex] (the crate
    [sha2]); [to_json] and [from_json] of the manifest (the crate
    [serde_json]); [extract] (server/docx.rs); [scan], the number of phrases
    that the injection scanner reports (common/injection.rs).  [extract] is a
    function of the bytes: the wall-clock deadline of server/docx.rs, two seconds
    for one document, is not modelled, so what is proved of a read says of a
    [.docx] only what holds while its extraction stays within the deadline. *)

From S2P Require Import Prelude Text Utf8 Jail Multipart.
Local Open Scope Z_scope.

Definition HOME_QUOTA_BYTES : Z := 64 * 1024 * 1024.
Definition MAX_HOME_BLOBS : nat := 512.
Definition INDEX : path := (None, T "index.json").

Definition err_owner_gone : harness_error := err_code "ATTACHMENT_OWNER_GONE".
Definition err_quota : harness_error := err_code "ATTACHMENT_QUOTA".
Definition err_not_found : harness_error := err_code "ATTACHMENT_NOT_FOUND".

Record AttachmentBlob := MkBlob { id : text; owner : text; sha256 : text; b_mime : text; byte_len : Z }.
#[export] Instance AttachmentBlob_eq_dec : EqDecision AttachmentBlob.
Proof. solve_decision. Defined.
Definition Manifest : Type := list AttachmentBlob.

Record VerifiedAttachment := MkVerified { blob : AttachmentBlob; v_text : text; sentinels_removed : nat; injection_hits : nat }.

Record Env := MkEnv {
  uuid : nat -> text;
  parse_uuid : text -> option text;
  sha256_hex : text -> text;
  sha256_bytes_hex : list Z -> text;
  extract : list Z -> result harness_error text;
  scan : text -> nat;
  to_json : Manifest -> list Z;
  from_json : list Z -> option Manifest;
}.

(** ** The reserved markers of the fence *)

Definition FENCE_OPEN : text := T "<<<ATTACHMENT_DATA>>>".
Definition FENCE_CLOSE : text := T "<<<END_ATTACHMENT_DATA>>>".
Definition MARKER_REMOVED : text := T "[reserved fence marker removed]".

Definition neutralize_marker (acc : text * nat) (marker : text) : text * nat :=
  let '(out, count) := acc in
  let hits := count_matches marker out in
  if (0 <? hits)%nat then (replace_all marker MARKER_REMOVED out, (count + hits)%nat) else (out, count).
Definition neutralize_sentinels (t : text) : text * nat := foldl neutralize_marker (t, 0%nat) [FENCE_CLOSE; FENCE_OPEN].

Section Store.
Context (env : Env).

Definition blob_rel (b : AttachmentBlob) : result harness_error path :=
  owner_rel (parse_uuid env) (sha256_hex env) (owner b) (id b) err_not_found.

Definition write_in_jail (rel : path) (data : list Z) : io harness_error unit := atomic_write_in_jail (uuid env) rel data (mret tt).

Definition load_manifest : io harness_error Manifest :=
  r ← attempt (read INDEX);
  match r with
  | Ok text => lift (ok_or (from_json env text) err_io)
  | Err NotFound => mret []
  | Err OtherError => lift (Err err_io)
  end.
Definition save_manifest (m : Manifest) : io harness_error unit := write_in_jail INDEX (to_json env m).

(** ** Upload *)

Fixpoint classify_all (files : list IncomingFile) : result harness_error (list ClassifiedText) :=
  match files with
  | [] => mret []
  | file :: files => c ← classify_file (extract env) file; cs ← classify_all files; mret (c :: cs)
  end.

Definition new_blob (id owner : text) (file : IncomingFile) (class : ClassifiedText) : AttachmentBlob :=
  MkBlob id owner (sha256_bytes_hex env (data file)) (magic_mime class) (zlen (data file)).

(** The failure of one file takes the files written before it back. *)
Definition undo {A} (written : list path) (e : harness_error) : io harness_error A := _ ← unlink_all written; lift (Err e).

Fixpoint store_files (o : text) (l : list (IncomingFile * ClassifiedText)) (stored : list AttachmentBlob) (written : list path)
  : io harness_error (list AttachmentBlob * list path) :=
  match l with
  | [] => mret (stored, written)
  | (file, class) :: l =>
      id ← new_v4 (uuid env);
      let blob := new_blob id o file class in
      match blob_rel blob with
      | Err e => undo written e
      | Ok rel =>
          r ← attempt (match fst rel with Some parent => create_dir_all parent | None => mret tt end);
          match r with
          | Err _ => undo written err_io
          | Ok _ =>
              r ← attempt (write_in_jail rel (data file));
              match r with
              | Err e => undo written e
              | Ok _ => store_files o l (stored ++ [blob]) (written ++ [rel])
              end
          end
      end
  end.

Definition sum_len (m : Manifest) : Z := foldr (fun b n => byte_len b + n) 0 m.
Definition sum_data (files : list IncomingFile) : Z := foldr (fun f n => zlen (data f) + n) 0 files.
Definition saturating_add (a b : Z) : Z := Z.min (a + b) usize_max.

(** The writes, once the upload is admitted. *)
Definition commit (o : text) (l : list (IncomingFile * ClassifiedText)) (m : Manifest) : io harness_error (list AttachmentBlob) :=
  out ← store_files o l [] [];
  let '(stored, written) := out in
  r ← attempt (save_manifest (m ++ stored));
  match r with
  | Ok _ => mret stored
  | Err e => undo written e
  end.

Definition store_guarded (o : text) (files : list IncomingFile) (owner_live : bool) : io harness_error (list AttachmentBlob) :=
  _ ← lift (refuse_if (MAX_FILES_PER_REQUEST <? length files)%nat too_many);
  _ ← lift (refuse_if (bool_decide (files = [])) err_empty);
  classified ← lift (classify_all files);
  _ ← lift (refuse_if (negb owner_live) err_owner_gone);
  manifest ← load_manifest;
  _ ← lift (refuse_if (HOME_QUOTA_BYTES <? saturating_add (sum_len manifest) (sum_data files)) err_quota);
  _ ← lift (refuse_if (MAX_HOME_BLOBS <? length manifest + length files)%nat err_quota);
  commit o (zip files classified) manifest.

(** ** Reading *)

Definition find_blob (m : Manifest) (o i : text) : option AttachmentBlob := List.find (fun b => teqb (id b) i && teqb (owner b) o) m.

Definition verified_text (m : Manifest) (o i : text) : io harness_error VerifiedAttachment :=
  blob ← lift (ok_or (find_blob m o i) err_not_found);
  rel ← lift (blob_rel blob);
  r ← attempt (read rel);
  bytes ← lift (map_err (fun _ => err_not_found) r);
  _ ← lift (refuse_if (negb (zlen bytes =? byte_len blob) || negb (teqb (sha256_bytes_hex env bytes) (sha256 blob))) err_not_found);
  class ← lift (classify_bytes (extract env) bytes (guessed_ext_from_mime (b_mime blob)));
  let '(t, removed) := neutralize_sentinels (class_text class) in
  mret (MkVerified blob t removed (scan env (class_text class))).

Fixpoint verified_list (m : Manifest) (o : text) (ids : list text) : io harness_error (list VerifiedAttachment) :=
  match ids with
  | [] => mret []
  | i :: ids => v ← verified_text m o i; vs ← verified_list m o ids; mret (v :: vs)
  end.
Definition verified_texts (o : text) (ids : list text) : io harness_error (list VerifiedAttachment) :=
  if bool_decide (ids = []) then mret [] else manifest ← load_manifest; verified_list manifest o ids.

Definition owned_blob (o i : text) : io harness_error (option AttachmentBlob) :=
  r ← attempt load_manifest;
  mret (match r with Ok m => find_blob m o i | Err _ => None end).

(** ** Clean-up *)

(** The rows whose file is still there, how many are gone, and whether a
    removal failed. *)
Fixpoint unlink_rows (rows keep : list AttachmentBlob) (removed : nat) (failed : bool) : io harness_error (list AttachmentBlob * nat * bool) :=
  match rows with
  | [] => mret (keep, removed, failed)
  | b :: rows =>
      match blob_rel b with
      | Err _ => unlink_rows rows (keep ++ [b]) removed true
      | Ok rel =>
          r ← attempt (remove_file rel);
          match r with
          | Ok _ | Err NotFound => unlink_rows rows keep (S removed) failed
          | Err OtherError => unlink_rows rows (keep ++ [b]) removed true
          end
      end
  end.

Definition of_owner (o : text) (b : AttachmentBlob) : bool := teqb (owner b) o.
Definition unlink_owner (o : text) : io harness_error nat :=
  manifest ← load_manifest;
  let keep := List.filter (fun b => negb (of_owner o b)) manifest in
  out ← unlink_rows (List.filter (of_owner o) manifest) keep 0 false;
  let '(keep, removed, failed) := out in
  _ ← save_manifest keep;
  if failed : bool then lift (Err err_io) else mret removed.

Fixpoint unlink_owners (owners : list text) (removed : nat) : io harness_error nat :=
  match owners with
  | [] => mret removed
  | o :: owners => n ← unlink_owner o; unlink_owners owners (removed + n)%nat
  end.
Definition dead_owners (live : text -> bool) (m : Manifest) : list text :=
  merge_sort text_le (remove_dups (map owner (List.filter (fun b => negb (live (owner b))) m))).
Definition sweep_dead_owners (live : text -> bool) : io harness_error nat :=
  manifest ← load_manifest;
  unlink_owners (dead_owners live manifest) 0.

Definition io_fails {A} (m : io io_error A) : io harness_error A := r ← attempt m; lift (map_err (fun _ => err_io) r).
Definition referenced (m : Manifest) : list path := omap (fun b => match blob_rel b with Ok p => Some p | Err _ => None end) m.

(** The next entry of a listing and its type. *)
Definition next_entry : io harness_error unit := _ ← io_fails probe; io_fails probe.

Fixpoint sweep_dir (refs : list path) (dir : text) (names : list text) (removed : nat) : io harness_error nat :=
  match names with
  | [] => mret removed
  | name :: names =>
      _ ← next_entry;
      if bool_decide ((Some dir, name) ∈ refs) then sweep_dir refs dir names removed
      else _ ← io_fails (remove_file (Some dir, name)); sweep_dir refs dir names (S removed)
  end.
Definition sweep_owner_dir (refs : list path) (dir : text) (removed : nat) : io harness_error nat :=
  _ ← io_fails probe;
  names ← io_fails (dir_entries dir);
  sweep_dir refs dir names removed.
Fixpoint sweep_entries (refs : list path) (entries : list (text * bool)) (removed : nat) : io harness_error nat :=
  match entries with
  | [] => mret removed
  | (name, is_dir) :: entries =>
      _ ← next_entry;
      if is_dir : bool then n ← sweep_owner_dir refs name removed; sweep_entries refs entries n
      else if bool_decide ((None, name) = INDEX) then sweep_entries refs entries removed
      else _ ← io_fails (remove_file (None, name)); sweep_entries refs entries (S removed)
  end.
Definition sweep_unreferenced_files : io harness_error nat :=
  manifest ← load_manifest;
  entries ← io_fails root_entries;
  sweep_entries (referenced manifest) entries 0.
End Store.

(** ** The server *)

Definition local : text := T "local".

(** The accounts by user id, each with whether it is disabled. *)
Record State := MkState { world : World; accounts : gmap text bool }.
Definition empty_state : State := MkState (MkWorld empty_disk 0 []) ∅.

(** The closure of [upload_attachments], and that of [delete_user] and of the
    start of the server.  Without accounts the owner is [local]. *)
Definition owner_live (accounts : gmap text bool) (o : text) : bool := teqb o local || bool_decide (accounts !! o = Some false).
Definition known (accounts : gmap text bool) (o : text) : bool := teqb o local || bool_decide (is_Some (accounts !! o)).

Inductive Event :=
| SetAccount (o : text) (disabled : bool)
| DeleteAccount (o : text)
| Upload (o : text) (files : list IncomingFile)
| Unlink (o : text)
| SweepDead
| SweepFiles.

Definition with_faults (w : World) (faults : list verdict) : World := MkWorld (disk w) (drawn w) faults.

(** A step: what happens, and what fails meanwhile. *)
Definition happens (env : Env) (s : State) (e : Event * list verdict) : State :=
  let w := with_faults (world s) (snd e) in
  match fst e with
  | SetAccount o disabled => MkState (world s) (<[o := disabled]> (accounts s))
  | DeleteAccount o => MkState (world s) (delete o (accounts s))
  | Upload o files => MkState (fst (store_guarded env o files (owner_live (accounts s) o) w)) (accounts s)
  | Unlink o => MkState (fst (unlink_owner env o w)) (accounts s)
  | SweepDead => MkState (fst (sweep_dead_owners env (known (accounts s)) w)) (accounts s)
  | SweepFiles => MkState (fst (sweep_unreferenced_files env w)) (accounts s)
  end.
Definition so_far (env : Env) (l : list (Event * list verdict)) (s : State) : State := foldl (happens env) s l.

(** ** What the manifest and the disk keep *)

Section Soundness.
Context (env : Env).

Record Laws : Prop := {
  laws_ids : Ids (uuid env) (parse_uuid env) (sha256_hex env);
  json_round_trip m : from_json env (to_json env m) = Some m;
  bytes_digest_digits d : forallb is_ascii_hexdigit (sha256_bytes_hex env d) = true;
}.

Definition file_of (b : AttachmentBlob) : path := (Some (sha256_hex env (owner b)), id b).
Definition Intact (b : AttachmentBlob) (data : list Z) : Prop := zlen data = byte_len b /\ sha256_bytes_hex env data = sha256 b.
Definition content (w : World) (p : path) : option (list Z) := files (disk w) !! p.

(** The manifest that the index holds. *)
Definition Reads (w : World) (m : Manifest) : Prop :=
  match content w INDEX with None => m = [] | Some bytes => from_json env bytes = Some m end.

(** A row whose fields have no angle bracket, so that none of them can be, or
    begin, a marker of the fence. *)
Definition plain_row (b : AttachmentBlob) : Prop := 60 ∉ id b /\ 60 ∉ b_mime b /\ 60 ∉ sha256 b.

(** The rows: their identifiers were drawn and differ, the quotas hold, and a
    file under a row is the one that the row describes. *)
Record Rows (w : World) (m : Manifest) : Prop := {
  rows_differ : NoDup (map id m);
  rows_drawn : Forall (fun b => exists n, (n < drawn w)%nat /\ id b = uuid env n) m;
  rows_lengths : Forall (fun b => 0 <= byte_len b) m;
  rows_quota : sum_len m <= HOME_QUOTA_BYTES;
  rows_count : (length m <= MAX_HOME_BLOBS)%nat;
  rows_intact : Forall (fun b => forall data, content w (file_of b) = Some data -> Intact b data) m;
  rows_plain : Forall plain_row m;
}.

(** The disk: no file has the temporary name of a later draw, and a file is in
    a directory that exists. *)
Record Tidy (w : World) : Prop := {
  tidy_tmp n rel : (drawn w <= n)%nat -> content w (tmp_of rel (uuid env n)) = None;
  tidy_dirs o name : is_Some (content w (Some o, name)) -> o ∈ dirs (disk w);
}.

Record Sound (w : World) (m : Manifest) : Prop := {
  sound_reads : Reads w m;
  sound_rows : Rows w m;
  sound_tidy : Tidy w;
}.

(** An operation in progress: the manifest and the files of its rows are as
    they were. *)
Record Working (w0 : World) (m : Manifest) (w : World) : Prop := {
  working_drawn : (drawn w0 <= drawn w)%nat;
  working_reads : Reads w m;
  working_files : Forall (fun b => content w (file_of b) = content w0 (file_of b)) m;
  working_tidy : Tidy w;
}.

Context (laws : Laws).
#[local] Notation ids := (laws_ids laws).

Lemma Working_refl w m : Sound w m -> Working w m w.
Proof using Type. intros [H1 H2 H3]. split; auto. by apply Forall_forall. Qed.

Lemma Rows_mono w w' m : (drawn w <= drawn w')%nat -> Forall (fun b => content w' (file_of b) = content w (file_of b)) m -> Rows w m -> Rows w' m.
Proof using Type.
  intros Hd Hf [H1 H2 H3 H4 H5 H6 H7]. split; auto.
  - eapply Forall_impl; [exact H2|]. intros b (n & Hn & E). exists n. split; [lia | done].
  - rewrite Forall_forall in *. intros b Hb data. rewrite Hf by done. by apply H6.
Qed.

Lemma Working_Sound w0 m w : Sound w0 m -> Working w0 m w -> Sound w m.
Proof using Type. intros [H1 H2 H3] [G1 G2 G3 G4]. split; auto. by eapply Rows_mono. Qed.

Lemma file_of_differs b b' : id b <> id b' -> file_of b <> file_of b'.
Proof using Type. by intros H [= _ E]. Qed.

Lemma row_not_tmp w m b rel n : Rows w m -> b ∈ m -> tmp_of rel (uuid env n) <> file_of b.
Proof using laws.
  intros Hr Hb E. pose proof (rows_drawn _ _ Hr) as Hd. rewrite Forall_forall in Hd. destruct (Hd b Hb) as (k & _ & Ei).
  pose proof (tmp_of_dot (uuid env) rel n) as Hdot. rewrite E in Hdot. cbn in Hdot. rewrite Ei in Hdot.
  by eapply uuid_char_no_dot in Hdot; [|eapply uuid_plain, ids].
Qed.

Lemma index_not_tmp rel u : tmp_of rel u <> INDEX.
Proof using Type.
  destruct rel as [o name]. unfold tmp_of, INDEX. intros E. apply (f_equal (fun p => rev (snd p))) in E. cbn [snd] in E.
  rewrite !rev_app_distr, <- !app_assoc in E. change (rev (T ".tmp")) with (T "pmt.") in E. done.
Qed.
Lemma index_not_row b : INDEX <> file_of b.
Proof using Type. done. Qed.

(** ** Writes *)

(** No file appeared but [rel]. *)
Definition NothingNew (rel : path) (w w' : World) : Prop := forall p, is_Some (content w' p) -> p = rel \/ is_Some (content w p).

Lemma NothingNew_disk rel w w' : disk w' = disk w -> NothingNew rel w w'.
Proof using Type. intros E p. unfold content. rewrite E. auto. Qed.
Lemma NothingNew_shrinks rel w w' : shrinks (disk w) (disk w') -> NothingNew rel w w'.
Proof using Type. intros [_ H] p [d Hp]. right. unfold content in *. destruct (H p) as [E|E]; [rewrite <- E; by eexists | congruence]. Qed.
Lemma NothingNew_trans rel w w' w'' : NothingNew rel w w' -> NothingNew rel w' w'' -> NothingNew rel w w''.
Proof using Type. intros H1 H2 p [->|Hp]%H2; [by left | by apply H1]. Qed.

Lemma write_spec rel d w :
  Tidy w -> (forall rel' n, tmp_of rel' (uuid env n) <> rel) -> parent_exists rel (disk w) = true ->
  let '(w', r) := write_in_jail env rel d w in
  Tidy w' /\ drawn w' = S (drawn w)
  /\ (forall p, p <> rel -> (forall rel' n, tmp_of rel' (uuid env n) <> p) -> content w' p = content w p)
  /\ match r with Some (Ok _) => content w' rel = Some d | _ => content w' rel = content w rel end
  /\ (faultless w -> r = Some (Ok tt) /\ faultless w')
  /\ dirs (disk w') = dirs (disk w)
  /\ (r = Some (Ok tt) -> NothingNew rel w w').
Proof using laws.
  intros [Ht Hd] Hrel Hpar. pose proof (atomic_write_spec (uuid env) rel d w) as H. cbn zeta in H. unfold write_in_jail.
  destruct (atomic_write_in_jail (uuid env) rel d (mret tt) w) as [w' r]. destruct H as (H1 & [H2 H2'] & H3 & H4 & _).
  set (tmp := tmp_of rel (uuid env (drawn w))) in *. assert (Hne : rel <> tmp) by (by apply not_eq_sym, Hrel).
  assert (Hout : forall p, p <> tmp -> p <> rel -> content w' p = content w p) by (intros p ? ?; apply H2'; naive_solver).
  split; [split|split; [done|split; [|split; [|split; [|split; [done|]]]]]].
  - intros n rel' Hn. rewrite H1 in Hn. rewrite Hout; [apply Ht; lia | | apply Hrel].
    intros E. apply (tmp_of_inj _ _ _ ids) in E. lia.
  - intros o name Hin. rewrite H2. destruct (decide ((Some o, name) = rel)) as [<-|Hr]; [|destruct (decide ((Some o, name) = tmp)) as [E|Htmp]].
    + unfold parent_exists in Hpar. cbn in Hpar. by apply bool_decide_eq_true in Hpar.
    + unfold parent_exists in Hpar. apply (f_equal fst) in E. cbn in E. rewrite <- E in Hpar. by apply bool_decide_eq_true in Hpar.
    + rewrite Hout in Hin by done. by eapply Hd.
  - intros p Hp Hpt. apply Hout; [|done]. by apply not_eq_sym, Hpt.
  - destruct r as [[[]|]|]; [apply H3 | exact H3 | exact H3].
  - intros Hw. apply H4; [done| |done]. apply Ht. lia.
  - intros -> p [x Hp]. destruct (decide (p = rel)) as [->|Hpr]; [by left | right]. destruct (decide (p = tmp)) as [->|Hpt].
    + destruct H3 as [_ H3]. unfold content in Hp. congruence.
    + rewrite <- Hout by done. by eexists.
Qed.

(** The index is written at the root. *)
Lemma save_manifest_spec m w :
  Tidy w ->
  let '(w', r) := save_manifest env m w in
  Tidy w' /\ drawn w' = S (drawn w)
  /\ (forall b k, id b = uuid env k -> content w' (file_of b) = content w (file_of b))
  /\ match r with Some (Ok _) => Reads w' m | _ => content w' INDEX = content w INDEX end
  /\ (faultless w -> r = Some (Ok tt) /\ faultless w')
  /\ (forall p, p <> INDEX -> (forall rel n, tmp_of rel (uuid env n) <> p) -> content w' p = content w p)
  /\ dirs (disk w') = dirs (disk w)
  /\ (r = Some (Ok tt) -> NothingNew INDEX w w').
Proof using laws.
  intros Ht. pose proof (write_spec INDEX (to_json env m) w Ht (fun rel n => index_not_tmp rel _) eq_refl) as H. unfold save_manifest.
  destruct (write_in_jail env INDEX (to_json env m) w) as [w' r]. destruct H as (H1 & H2 & H3 & H4 & H5 & H6).
  split; [done|]. split; [done|]. split; [|split; [|split; [done|split; [done|exact H6]]]].
  - intros b k Hb. apply H3; [done|]. intros rel n E. pose proof (tmp_of_dot (uuid env) rel n) as Hdot. rewrite E in Hdot. cbn in Hdot.
    rewrite Hb in Hdot. by eapply uuid_char_no_dot in Hdot; [|eapply uuid_plain, ids].
  - destruct r as [[[]|]|]; [|done..]. unfold Reads. rewrite H4. apply (json_round_trip laws).
Qed.

(** Removals keep the disk tidy. *)
Lemma shrinks_Tidy w w' : drawn w' = drawn w -> shrinks (disk w) (disk w') -> Tidy w -> Tidy w'.
Proof using Type.
  intros Hd [Hdirs Hc] [Ht Hp]. split.
  - intros n rel Hn. destruct (Hc (tmp_of rel (uuid env n))) as [E|E]; [|done]. unfold content. rewrite E. apply Ht. lia.
  - intros o name [data H]. rewrite Hdirs. unfold content in *. destruct (Hc (Some o, name)) as [E|E]; [|congruence]. rewrite E in H. by eapply Hp.
Qed.

(** ** Upload *)

Section Upload.
Context (w0 : World) (m : Manifest) (Hm : Rows w0 m).

(** A name that the upload may use: that of a row which is not yet in the
    manifest. *)
Definition fresh_path (p : path) : Prop := exists o n, p = (Some o, uuid env n) /\ (drawn w0 <= n)%nat.

Lemma fresh_not_row p b : fresh_path p -> b ∈ m -> p <> file_of b.
Proof using Hm laws.
  intros (o & n & -> & Hn) Hb [= _ E]. pose proof (rows_drawn _ _ Hm) as Hd. rewrite Forall_forall in Hd.
  destruct (Hd b Hb) as (k & Hk & Ek). rewrite Ek in E. apply (uuid_inj _ _ _ ids) in E. lia.
Qed.

Lemma undo_spec {A} written (e : harness_error) w :
  Working w0 m w -> Forall fresh_path written ->
  let '(w', r) := undo (A := A) written e w in Working w0 m w' /\ (r = Some (Err e) \/ r = None).
Proof using Hm laws.
  intros [W1 W2 W3 W4] Hf. unfold undo, mbind, io_bind, lift.
  pose proof (unlink_all_spec written w) as H. pose proof (unlink_all_shrinks written w) as Hs.
  destruct (unlink_all written w) as [w' r]. destruct H as (H1 & [H2 H3] & H4 & _). cbn [fst] in Hs.
  assert (Hw : Working w0 m w').
  { rewrite Forall_forall in Hf. split.
    - lia.
    - unfold Reads, content in *. rewrite H3; [done|]. intros Hin. by destruct (Hf _ Hin) as (o & n & [=] & _).
    - rewrite Forall_forall in *. intros b Hb. rewrite <- W3 by done. apply H3. intros Hin. by eapply fresh_not_row; [apply Hf | |].
    - by eapply shrinks_Tidy. }
  destruct r as [[[]|e']|]; [by auto | by destruct H4 | by auto].
Qed.

(** The rows made so far, for the files [done_]. *)
Record Stored (o : text) (w : World) (done_ : list (IncomingFile * ClassifiedText)) (stored : list AttachmentBlob) (written : list path) : Prop := {
  stored_written : written = map file_of stored;
  stored_rows : Forall2 (fun b fc => exists n, (drawn w0 <= n < drawn w)%nat /\ b = new_blob env (uuid env n) o (fst fc) (snd fc)
                                  /\ content w (file_of b) = Some (data (fst fc))) stored done_;
  stored_differ : NoDup (map id stored);
}.

Lemma Stored_nil o w : Stored o w [] [] [].
Proof using Type. split; [done | constructor | constructor]. Qed.

Lemma Stored_fresh o w done_ stored written : Stored o w done_ stored written -> Forall fresh_path written.
Proof using Type.
  intros [-> H _]. induction H as [|b fc st dn (n & Hn & -> & _) _ IH]; cbn; constructor; [|done]. eexists _, n. split; [done | lia].
Qed.

(** One more file, under the identifier drawn next. *)
Lemma Stored_next o w w' done_ stored written file class :
  Stored o w done_ stored written -> (drawn w0 <= drawn w)%nat -> (drawn w < drawn w')%nat ->
  let b := new_blob env (uuid env (drawn w)) o file class in
  (forall p, p <> file_of b -> (forall rel n, tmp_of rel (uuid env n) <> p) -> content w' p = content w p) ->
  content w' (file_of b) = Some (data file) ->
  Stored o w' (done_ ++ [(file, class)]) (stored ++ [b]) (written ++ [file_of b]).
Proof using laws.
  intros [-> H Hn] Hd Hlt b Hsame Hb.
  assert (Hid : Forall (fun b' => exists n, (drawn w0 <= n < drawn w)%nat /\ id b' = uuid env n) stored).
  { clear -H. induction H as [|b fc st dn (n & ? & -> & _) _ IH]; constructor; [|done]. by exists n. }
  assert (Hne : Forall (fun b' => id b' <> id b) stored).
  { eapply Forall_impl; [exact Hid|]. intros b' (n & Hn' & ->) E. apply (uuid_inj _ _ _ ids) in E. lia. }
  split.
  - by rewrite map_app.
  - apply Forall2_app; [|constructor; [|constructor]].
    + clear Hn. induction H as [|b' fc st dn (n & Hn' & E & Hc) _ IH]; [constructor|]. inversion Hid as [|? ? (k & Hk & Ek) Hid']; subst.
      inversion Hne; subst. constructor; [|by apply IH]. exists n. split; [lia|]. split; [done|]. rewrite Hsame; [done | by apply file_of_differs|].
      intros rel k' Ef. pose proof (tmp_of_dot (uuid env) rel k') as Hdot. rewrite Ef in Hdot. cbn in Hdot.
      by eapply uuid_char_no_dot in Hdot; [|eapply uuid_plain, ids].
    + exists (drawn w). split; [lia | done].
  - rewrite map_app. apply NoDup_app. split; [done|]. split; [|apply NoDup_singleton].
    intros i Hi Hin. apply list_elem_of_singleton in Hin. apply list_elem_of_fmap in Hi as (b' & -> & Hb'). rewrite Forall_forall in Hne. by apply (Hne b').
Qed.

Lemma create_dir_spec o w :
  let '(w', r) := create_dir_all o w in
  drawn w' = drawn w /\ files (disk w') = files (disk w) /\ dirs (disk w) ⊆ dirs (disk w')
  /\ (r = Some (Ok tt) -> o ∈ dirs (disk w')) /\ (faultless w -> r = Some (Ok tt) /\ faultless w').
Proof using Type.
  unfold create_dir_all.
  match goal with |- context [system_call no_part ?op w] => destruct (system_call_cases no_part op w) as [(s & Hs & E)|(Hn & n & s & r & Hr & E)] end; rewrite E; cbn.
  - split; [done|]. split; [done|]. split; [apply union_subseteq_r|]. split; [|intros Hw; split; [done | exact (Hs Hw)]].
    intros _. apply elem_of_union_l. by apply elem_of_singleton.
  - split; [done|]. split; [done|]. split; [done|]. split; [by intros ->; destruct Hr|]. by intros.
Qed.

(** Draws and directories alone. *)
Lemma Working_disk w w' :
  (drawn w <= drawn w')%nat -> files (disk w') = files (disk w) -> dirs (disk w) ⊆ dirs (disk w') -> Working w0 m w -> Working w0 m w'.
Proof using Type.
  intros Hd Hf Hs [W1 W2 W3 [T1 T2]]. assert (Hc : forall p, content w' p = content w p) by (intros p; unfold content; by rewrite Hf).
  split; [lia | | | split].
  - unfold Reads in *. by rewrite Hc.
  - eapply Forall_impl; [exact W3|]. intros b Hb. by rewrite Hc.
  - intros n rel Hn. rewrite Hc. apply T1. lia.
  - intros o name. rewrite Hc. intros Hin. eapply Hs, T2, Hin.
Qed.
Lemma Stored_disk o w w' done_ stored written :
  (drawn w <= drawn w')%nat -> files (disk w') = files (disk w) -> Stored o w done_ stored written -> Stored o w' done_ stored written.
Proof using Type.
  intros Hd Hf [H1 H2 H3]. split; [done| |done]. eapply Forall2_impl; [exact H2|]. intros b fc (n & Hn & E & Hc).
  exists n. split; [lia|]. split; [done|]. unfold content in *. by rewrite Hf.
Qed.

Lemma Working_write w rel d :
  Working w0 m w -> fresh_path rel -> parent_exists rel (disk w) = true ->
  let '(w', r) := write_in_jail env rel d w in
  Working w0 m w' /\ (drawn w < drawn w')%nat
  /\ (forall p, p <> rel -> (forall rel n, tmp_of rel (uuid env n) <> p) -> content w' p = content w p)
  /\ (r = Some (Ok tt) -> content w' rel = Some d)
  /\ (faultless w -> r = Some (Ok tt) /\ faultless w').
Proof using Hm laws.
  intros [W1 W2 W3 W4] Hf Hpar.
  assert (Htmp : forall rel' n, tmp_of rel' (uuid env n) <> rel).
  { intros rel' n E. pose proof (tmp_of_dot (uuid env) rel' n) as Hdot. rewrite E in Hdot. destruct Hf as (o & k & -> & _). cbn in Hdot.
    by eapply uuid_char_no_dot in Hdot; [|eapply uuid_plain, ids]. }
  pose proof (write_spec rel d w W4 Htmp Hpar) as H. destruct (write_in_jail env rel d w) as [w' r].
  destruct H as (H1 & H2 & H3 & H4 & H5 & _). split; [|split; [lia|split; [done|split; [by intros ->|done]]]]. split; [lia | | | done].
  - unfold Reads in *. rewrite H3; [done | by destruct Hf as (? & ? & -> & _) | intros; apply index_not_tmp].
  - rewrite Forall_forall in *. intros b Hb. rewrite <- W3 by done. apply H3; [intros E; by eapply fresh_not_row|].
    intros rel' n. by eapply row_not_tmp.
Qed.

Lemma store_files_spec o l w done_ stored written :
  Working w0 m w -> Stored o w done_ stored written ->
  let '(w', r) := store_files env o l stored written w in
  Working w0 m w'
  /\ match r with Some (Ok (stored', written')) => Stored o w' (done_ ++ l) stored' written' | _ => True end
  /\ (faultless w -> faultless w' /\ exists out, r = Some (Ok out)).
Proof using Hm laws.
  revert w done_ stored written. induction l as [|[file class] l IH]; intros w done_ stored written HW HS.
  { cbn. rewrite app_nil_r. split; [done|]. split; [done|]. eauto. }
  cbn [store_files]. unfold new_v4 at 1, mbind at 1, io_bind at 1. set (w1 := MkWorld (disk w) (S (drawn w)) (script w)).
  set (b := new_blob env (uuid env (drawn w)) o file class).
  assert (HW1 : Working w0 m w1) by (eapply Working_disk; [| | |exact HW]; cbn; [lia | done | done]).
  assert (HS1 : Stored o w1 done_ stored written) by (eapply Stored_disk; [| |exact HS]; cbn; [lia | done]).
  assert (Hrel : blob_rel env b = Ok (file_of b)) by exact (owner_rel_ok _ _ _ ids o (drawn w) err_not_found).
  rewrite Hrel. cbn [fst file_of]. unfold attempt, mbind, io_bind.
  assert (Hfresh : fresh_path (file_of b)).
  { exists (sha256_hex env o), (drawn w). split; [done|]. pose proof (working_drawn _ _ _ HW). lia. }
  pose proof (create_dir_spec (sha256_hex env (owner b)) w1) as Hc. destruct (create_dir_all (sha256_hex env (owner b)) w1) as [w2 r2].
  destruct Hc as (C1 & C2 & C3 & C4 & C5).
  assert (HW2 : Working w0 m w2) by (eapply Working_disk; [| | |exact HW1]; [lia | done | done]).
  assert (HS2 : Stored o w2 done_ stored written) by (eapply Stored_disk; [| |exact HS1]; [lia | done]).
  destruct r2 as [[[]|e2]|].
  2: { pose proof (undo_spec (A := list AttachmentBlob * list path) written err_io w2 HW2 (Stored_fresh _ _ _ _ _ HS2)) as Hu.
       destruct (undo written err_io w2) as [w3 r3]. destruct Hu as [Hu Hr]. split; [done|]. split; [by destruct Hr; subst|]. intros Hw. by destruct (C5 Hw) as [[=] _]. }
  2: { split; [done|]. split; [done|]. intros Hw. by destruct (C5 Hw) as [[=] _]. }
  assert (Hpar : parent_exists (file_of b) (disk w2) = true) by (unfold parent_exists; cbn; apply bool_decide_eq_true; by apply C4).
  pose proof (Working_write w2 (file_of b) (data file) HW2 Hfresh Hpar) as H3.
  destruct (write_in_jail env (file_of b) (data file) w2) as [w3 r3]. destruct H3 as (W3 & D3 & F3 & G3 & L3).
  destruct r3 as [[[]|e3]|].
  - assert (HS3 : Stored o w3 (done_ ++ [(file, class)]) (stored ++ [b]) (written ++ [file_of b])).
    { apply (Stored_next o w w3 done_ stored written file class HS); [apply HW | cbn in C1; lia | | by apply G3].
      intros p Hp Ht. rewrite F3 by done. unfold content. by rewrite C2. }
    specialize (IH w3 _ _ _ W3 HS3). destruct (store_files env o l (stored ++ [b]) (written ++ [file_of b]) w3) as [w4 r4].
    destruct IH as (I1 & I2 & I3). rewrite <- app_assoc in I2. split; [done|]. split; [done|]. intros Hw. apply I3. by apply L3, C5.
  - pose proof (undo_spec (A := list AttachmentBlob * list path) written e3 w3 W3) as Hu.
    assert (Hfr : Forall fresh_path written) by (eapply Stored_fresh, HS2). specialize (Hu Hfr).
    destruct (undo written e3 w3) as [w4 r4]. destruct Hu as [Hu Hr]. split; [done|]. split; [by destruct Hr; subst|].
    intros Hw. destruct (C5 Hw) as [_ Hw2]. by destruct (L3 Hw2) as [[=] _].
  - split; [done|]. split; [done|]. intros Hw. destruct (C5 Hw) as [_ Hw2]. by destruct (L3 Hw2) as [[=] _].
Qed.
End Upload.

(** *** The manifest *)

Lemma load_manifest_spec w m :
  Reads w m ->
  let '(w', r) := load_manifest env w in
  disk w' = disk w /\ drawn w' = drawn w
  /\ match r with Some (Ok m') => m' = m | Some (Err e) => e = err_io | None => True end
  /\ (faultless w -> r = Some (Ok m) /\ faultless w').
Proof using Type.
  intros Hm. unfold load_manifest, attempt, mbind, io_bind, read.
  match goal with |- context [system_call no_part ?op w] => destruct (system_call_reads op w) as (s & r & Hs & E & Hok); [intros d; by destruct (files d !! INDEX)|] end.
  rewrite E. unfold Reads, content in Hm.
  destruct r as [[bytes|[]]|]; cbn; (split; [done|]); (split; [done|]).
  - specialize (Hok bytes eq_refl). destruct (files (disk w) !! INDEX) as [bytes'|] eqn:Ei; [|done]. injection Hok as ->.
    rewrite Hm. cbn. split; [done|]. intros Hw. split; [done | apply (Hs Hw)].
  - (* not found *) destruct (files (disk w) !! INDEX) as [bytes'|] eqn:Ei.
    + exfalso. clear Hs Hok. revert E. unfold system_call. rewrite Ei. destruct (script w) as [|[| |] ?]; intros [=].
    + subst m. split; [done|]. intros Hw. split; [done | apply (Hs Hw)].
  - split; [done|]. intros Hw. destruct (Hs Hw) as [_ H]. by destruct (files (disk w) !! INDEX).
  - split; [done|]. intros Hw. destruct (Hs Hw) as [_ H]. by destruct (files (disk w) !! INDEX).
Qed.

Lemma Sound_disk w w' m : disk w' = disk w -> drawn w' = drawn w -> Sound w m -> Sound w' m.
Proof using Type.
  intros Hd Hn H. assert (Hc : forall p, content w' p = content w p) by (intros p; unfold content; by rewrite Hd).
  apply (Working_Sound w m w'); [done|]. destruct H as [H1 H2 [T1 T2]]. split; [lia | | | split].
  - unfold Reads in *. by rewrite Hc.
  - apply Forall_forall. intros b _. apply Hc.
  - intros n rel. rewrite Hc, Hn. apply T1.
  - intros o name. rewrite Hc, Hd. apply T2.
Qed.

Lemma sum_len_cons b m : sum_len (b :: m) = byte_len b + sum_len m.
Proof using Type. done. Qed.
Lemma sum_len_nonneg m : Forall (fun b => 0 <= byte_len b) m -> 0 <= sum_len m.
Proof using Type. induction 1 as [|b m Hb _ IH]; [done|]. rewrite sum_len_cons. lia. Qed.
Lemma sum_len_Permutation m m' : m ≡ₚ m' -> sum_len m = sum_len m'.
Proof using Type. induction 1 as [|x l l' _ IH|x y l|l l' l'' _ IH _ IH']; rewrite ?sum_len_cons; [done | lia | lia | lia]. Qed.
Lemma sum_len_app a b : sum_len (a ++ b) = sum_len a + sum_len b.
Proof using Type. induction a as [|x a IH]; [done|]. cbn [app sum_len foldr] in *. unfold sum_len in *. lia. Qed.

(** *** The whole upload *)

(** The rows of an upload, one for each file, with the file on the disk. *)
Definition Uploaded (o : text) (w : World) (files : list IncomingFile) (stored : list AttachmentBlob) : Prop :=
  Forall2 (fun f b => exists n class, classify_file (extract env) f = Ok class /\ b = new_blob env (uuid env n) o f class
                      /\ content w (file_of b) = Some (data f)) files stored.

Lemma Uploaded_sum o w files stored : Uploaded o w files stored -> sum_len stored = sum_data files.
Proof using Type.
  induction 1 as [|f b fs bs (n & class & _ & -> & _) _ IH]; [done|]. unfold sum_len, sum_data in *. cbn [foldr]. by rewrite IH.
Qed.

Lemma classify_all_length files classes : classify_all env files = Ok classes ->
  Forall2 (fun f c => classify_file (extract env) f = Ok c) files classes.
Proof using Type.
  revert classes. induction files as [|f files IH]; intros classes H; cbn [classify_all] in H; [injection H as <-; constructor|].
  results. injection H as <-. constructor; [done | by apply IH].
Qed.

Lemma Stored_Uploaded w0 o w files classes stored written :
  classify_all env files = Ok classes -> Stored w0 o w (zip files classes) stored written -> Uploaded o w files stored.
Proof using Type.
  intros Hc%classify_all_length [_ H _]. unfold Uploaded. revert stored H. induction Hc as [|f c fs cs Hf _ IH]; intros stored H.
  - by inversion H.
  - cbn [zip zip_with] in H. inversion H as [|b ? st ? (n & _ & E & Hd) H']; subst. constructor; [|by apply IH]. by eexists n, c.
Qed.

Lemma digits_plain s : forallb is_ascii_hexdigit s = true -> 60 ∉ s.
Proof using Type. intros H Hin. rewrite forallb_forall in H. by apply list_elem_of_In, H in Hin. Qed.
Lemma plain_uuid n : 60 ∉ uuid env n.
Proof using laws. intros Hin. pose proof (uuid_plain _ _ _ ids n) as H. rewrite Forall_forall in H. by apply H in Hin. Qed.
Lemma classify_file_plain f c : classify_file (extract env) f = Ok c -> 60 ∉ magic_mime c.
Proof using Type.
  unfold classify_file. intros H. results. unfold classify_bytes in H. destruct (teqb _ (T "docx")).
  { destruct (extract env (data f)); [|done]. injection H as <-. exact (bool_decide_unpack (60 ∉ docx_mime) I). }
  results. injection H as <-. cbn. unfold text_mime in *.
  repeat match goal with Hm : (if ?b then _ else _) = Ok _ |- _ => destruct b end; try done;
    match goal with Hm : Ok ?m = Ok _ |- _ => injection Hm as <-; exact (bool_decide_unpack (60 ∉ m) I) end.
Qed.

Lemma Rows_app w0 w m o files classes stored written :
  Rows w0 m -> Working w0 m w -> Stored w0 o w (zip files classes) stored written -> classify_all env files = Ok classes ->
  sum_len m + sum_data files <= HOME_QUOTA_BYTES -> (length m + length files <= MAX_HOME_BLOBS)%nat -> Rows w (m ++ stored).
Proof using laws.
  intros Hm HW HS Hcl Hq Hn. pose proof (Stored_Uploaded _ _ _ _ _ _ _ Hcl HS) as Hu.
  assert (Hm' : Rows w m) by (eapply Rows_mono; [apply HW | apply HW | done]). destruct HS as [_ HS Hnd].
  assert (Hfresh : Forall (fun b => exists n, (drawn w0 <= n < drawn w)%nat /\ id b = uuid env n) stored).
  { clear -HS. induction HS as [|b fc st dn (n & ? & -> & _) _ IH]; constructor; [|done]. by exists n. }
  split.
  - rewrite map_app. apply NoDup_app. split; [apply Hm|]. split; [|done]. intros i Hi Hin.
    apply list_elem_of_fmap in Hi as (b & -> & Hb). apply list_elem_of_fmap in Hin as (b' & E & Hb').
    pose proof (rows_drawn _ _ Hm) as Hd. rewrite Forall_forall in Hd, Hfresh. destruct (Hd b Hb) as (k & Hk & Ek), (Hfresh b' Hb') as (n & Hn' & En).
    rewrite Ek, En in E. apply (uuid_inj _ _ _ ids) in E. lia.
  - apply Forall_app. split; [apply Hm'|]. eapply Forall_impl; [exact Hfresh|]. intros b (n & ? & ?). exists n. split; [lia | done].
  - apply Forall_app. split; [apply Hm|]. clear -Hu. induction Hu as [|f b fs bs (n & c & _ & -> & _) _ IH]; constructor; [|done]. cbn. unfold zlen. lia.
  - by rewrite sum_len_app, (Uploaded_sum _ _ _ _ Hu).
  - apply Forall2_length in Hu. rewrite length_app. lia.
  - apply Forall_app. split; [apply Hm'|]. clear -Hu. induction Hu as [|f b fs bs (n & c & _ & -> & Hc) _ IH]; constructor; [|done].
    intros d Hd. rewrite Hc in Hd. injection Hd as <-. by split.
  - apply Forall_app. split; [apply Hm'|]. clear -Hu laws. induction Hu as [|f b fs bs (n & c & Hc & -> & _) _ IH]; constructor; [|done].
    split; [|split]; cbn.
    + apply plain_uuid.
    + by eapply classify_file_plain.
    + apply digits_plain, bytes_digest_digits, laws.
Qed.

(** What an upload is refused for, apart from faults. *)
Definition admitted (m : Manifest) (files : list IncomingFile) (live : bool) : Prop :=
  (0 < length files <= MAX_FILES_PER_REQUEST)%nat /\ is_ok (classify_all env files) = true /\ live = true
  /\ sum_len m + sum_data files <= HOME_QUOTA_BYTES /\ (length m + length files <= MAX_HOME_BLOBS)%nat.

Lemma quota_exact n : (HOME_QUOTA_BYTES <? Z.min n usize_max) = false <-> n <= HOME_QUOTA_BYTES.
Proof using Type. rewrite Z.ltb_ge. unfold HOME_QUOTA_BYTES, usize_max. lia. Qed.

(** The upload after its refusals: the manifest is still [m], or it has the new
    rows and their files. *)
Lemma commit_spec o files classes w0 m w :
  Rows w0 m -> Working w0 m w -> Stored w0 o w [] [] [] -> classify_all env files = Ok classes ->
  sum_len m + sum_data files <= HOME_QUOTA_BYTES -> (length m + length files <= MAX_HOME_BLOBS)%nat ->
  let '(w', r) := commit env o (zip files classes) m w in
  (drawn w0 <= drawn w')%nat /\ Forall (fun b => content w' (file_of b) = content w0 (file_of b)) m
  /\ match r with
     | Some (Ok stored) => Sound w' (m ++ stored) /\ Uploaded o w' files stored
     | _ => Sound w' m
     end
  /\ (faultless w -> exists stored, r = Some (Ok stored)).
Proof using laws.
  intros Hm HW HS Hcl Hq Hn. unfold commit, mbind, io_bind.
  assert (Hback : forall w', Working w0 m w' -> Sound w' m).
  { intros w' W'. split; [apply W' | | apply W']. eapply Rows_mono; [apply W' | apply W' | done]. }
  pose proof (store_files_spec w0 m Hm o (zip files classes) w [] [] [] HW HS) as H.
  destruct (store_files env o (zip files classes) [] [] w) as [w1 [[[st wr]|e]|]]; destruct H as (W1 & S1 & F1).
  2, 3: (split; [apply W1|]; split; [apply W1|]; split; [by apply Hback|]; intros Hw; by destruct (F1 Hw) as (_ & ? & [=])).
  cbn [app] in S1. unfold attempt.
  assert (R1 : Rows w1 (m ++ st)) by (eapply Rows_app; eauto).
  pose proof (save_manifest_spec (m ++ st) w1 (working_tidy _ _ _ W1)) as H2.
  destruct (save_manifest env (m ++ st) w1) as [w2 r2]. destruct H2 as (T2 & D2 & C2 & E2 & L2 & _ & _ & _).
  assert (Hrows : Forall (fun b => content w2 (file_of b) = content w1 (file_of b)) (m ++ st)).
  { eapply Forall_impl; [apply (rows_drawn _ _ R1)|]. intros b (n & _ & En). by eapply C2. }
  assert (Hsame : Forall (fun b => content w2 (file_of b) = content w0 (file_of b)) m).
  { apply Forall_app in Hrows as [Hrows _]. pose proof (working_files _ _ _ W1) as Hf. rewrite Forall_forall in *. intros b Hb. by rewrite Hrows, Hf. }
  pose proof (working_drawn _ _ _ W1) as Hdr.
  assert (W2 : content w2 INDEX = content w1 INDEX -> Working w0 m w2).
  { intros Ei. split; [lia | | done | done]. pose proof (working_reads _ _ _ W1) as Hr. unfold Reads in *. by rewrite Ei. }
  destruct r2 as [[[]|e]|].
  - cbn. split; [lia|]. split; [done|]. split; [|by eauto]. split.
    + split; [done | | done]. eapply Rows_mono; [| exact Hrows | exact R1]. lia.
    + pose proof (Stored_Uploaded _ _ _ _ _ _ _ Hcl S1) as Hu. apply Forall_app in Hrows as [_ Hrows]. clear -Hu Hrows.
      induction Hu as [|f b fs bs (n & c & ? & ? & Hc) _ IH]; [constructor|]. inversion Hrows as [|? ? Hb Hrows']; subst. constructor; [|by apply IH].
      exists n, c. split; [done|]. split; [done|]. by rewrite Hb.
  - specialize (W2 E2). pose proof (undo_spec (A := list AttachmentBlob) w0 m Hm wr e w2 W2 (Stored_fresh _ _ _ _ _ _ S1)) as Hu.
    destruct (undo wr e w2) as [w3 r3]. destruct Hu as [W3 Hr]. split; [apply W3|]. split; [apply W3|].
    split; [by destruct Hr; subst; apply Hback|]. intros Hw. destruct (F1 Hw) as [Hw1 _]. by destruct (L2 Hw1) as [[=] _].
  - specialize (W2 E2). split; [apply W2|]. split; [apply W2|]. split; [by apply Hback|].
    intros Hw. destruct (F1 Hw) as [Hw1 _]. by destruct (L2 Hw1) as [[=] _].
Qed.

Lemma store_guarded_spec o files live w m :
  Sound w m ->
  let '(w', r) := store_guarded env o files live w in
  (drawn w <= drawn w')%nat /\ Forall (fun b => content w' (file_of b) = content w (file_of b)) m
  /\ match r with
     | Some (Ok stored) => Sound w' (m ++ stored) /\ Uploaded o w' files stored /\ live = true
     | _ => Sound w' m
     end
  /\ (faultless w -> admitted m files live -> exists stored, r = Some (Ok stored)).
Proof using laws.
  intros Hs. unfold store_guarded. rewrite !bind_refused.
  assert (Hstop : forall e : harness_error, (drawn w <= drawn w)%nat /\ Forall (fun b => content w (file_of b) = content w (file_of b)) m /\ Sound w m /\
            (faultless w -> False -> exists stored : list AttachmentBlob, Some (Err e) = Some (Ok stored))).
  { intros e. split; [done|]. split; [by apply Forall_forall|]. split; [done|]. by intros _ []. }
  unfold admitted. destruct (MAX_FILES_PER_REQUEST <? length files)%nat eqn:E1.
  { destruct (Hstop too_many) as (? & ? & ? & _). do 3 (split; [done|]). intros _ [? _]. guards. lia. }
  destruct (decide (files = [])) as [->|Hne];
    [rewrite bool_decide_eq_true_2 by done | rewrite bool_decide_eq_false_2 by done].
  { destruct (Hstop err_empty) as (? & ? & ? & _). do 3 (split; [done|]). intros _ [[? _] _]. simpl in *. lia. }
  rewrite bind_lift. destruct (classify_all env files) as [classes|e] eqn:Ec; cbn [is_ok].
  2: { destruct (Hstop e) as (? & ? & ? & _). do 3 (split; [done|]). by intros _ (_ & ? & _). }
  rewrite bind_refused. destruct live; cbn [negb].
  2: { destruct (Hstop err_owner_gone) as (? & ? & ? & _). do 3 (split; [done|]). by intros _ (_ & _ & ? & _). }
  pose proof (load_manifest_spec w m (sound_reads _ _ Hs)) as Hl. destruct (load_manifest env w) as [w1 r1] eqn:El.
  destruct Hl as (D1 & N1 & R1 & L1). pose proof (Sound_disk w w1 m D1 N1 Hs) as Hs1.
  assert (Hc1 : forall b, content w1 (file_of b) = content w (file_of b)) by (intros b; unfold content; by rewrite D1).
  assert (Hsame1 : Forall (fun b => content w1 (file_of b) = content w (file_of b)) m) by (by apply Forall_forall).
  destruct r1 as [[m1|e]|]; [subst m1 | | ].
  2: rewrite (bind_err _ _ _ _ _ El). 3: rewrite (bind_dead _ _ _ _ El).
  2, 3: (split; [lia|]; split; [done|]; split; [done|]; intros Hw; by destruct (L1 Hw) as [[=] _]).
  rewrite (bind_ok _ _ _ _ _ El), bind_refused. unfold saturating_add.
  destruct (HOME_QUOTA_BYTES <? Z.min (sum_len m + sum_data files) usize_max) eqn:Eq.
  { split; [lia|]. split; [done|]. split; [done|]. intros _ (_ & _ & _ & Hq & _). apply quota_exact in Hq. congruence. }
  apply quota_exact in Eq.
  rewrite bind_refused. destruct (MAX_HOME_BLOBS <? length m + length files)%nat eqn:En.
  { split; [lia|]. split; [done|]. split; [done|]. intros _ (_ & _ & _ & _ & ?). guards. lia. }
  apply Nat.ltb_ge in En.
  pose proof (commit_spec o files classes w1 m w1 (sound_rows _ _ Hs1) (Working_refl _ _ Hs1)) as Hcommit.
  specialize (Hcommit (Stored_nil w1 o w1) Ec Eq En).
  destruct (commit env o (zip files classes) m w1) as [w2 r2]. destruct Hcommit as (H1 & H2 & H3 & H4). split; [lia|]. split.
  - eapply Forall_impl; [exact H2|]. intros b Hb. by rewrite Hb.
  - split; [by destruct r2 as [[st|]|]; [destruct H3 | |]|]. intros Hw _. apply H4. by apply L1.
Qed.

(** ** Clean-up *)

Lemma row_rel w m b : Rows w m -> b ∈ m -> blob_rel env b = Ok (file_of b).
Proof using laws.
  intros Hr Hb. pose proof (rows_drawn _ _ Hr) as Hd. rewrite Forall_forall in Hd. destruct (Hd b Hb) as (n & _ & En).
  unfold blob_rel. rewrite En, (owner_rel_ok _ _ _ ids). unfold file_of. by rewrite En.
Qed.

Lemma row_by_id w m b b' : Rows w m -> b ∈ m -> b' ∈ m -> id b = id b' -> b = b'.
Proof using Type.
  intros Hr Hb Hb' E. pose proof (rows_differ _ _ Hr) as Hn. clear Hr. induction m as [|c m IH]; [by apply elem_of_nil in Hb|].
  cbn in Hn. apply NoDup_cons in Hn as [Hc Hn]. apply elem_of_cons in Hb as [->|Hb], Hb' as [->|Hb']; [done | | | by apply IH].
  - exfalso. apply Hc. rewrite E. by apply list_elem_of_fmap_2.
  - exfalso. apply Hc. rewrite <- E. by apply list_elem_of_fmap_2.
Qed.

(** Fewer rows, over files that are the same or gone. *)
Lemma Rows_shrink w w' m m' :
  (drawn w <= drawn w')%nat -> m' ⊆+ m -> (forall b, b ∈ m -> content w' (file_of b) = content w (file_of b) \/ content w' (file_of b) = None) ->
  Rows w m -> Rows w' m'.
Proof using Type.
  intros Hd Hsub Hc [H1 H2 H3 H4 H5 H6 H7].
  assert (Hin : forall b, b ∈ m' -> b ∈ m) by (intros b Hb; by eapply elem_of_submseteq).
  apply submseteq_Permutation in Hsub as [k Hp]. rewrite Forall_forall in *. split.
  - rewrite Hp, map_app in H1. by apply NoDup_app in H1 as [? _].
  - apply Forall_forall. intros b Hb. destruct (H2 b (Hin b Hb)) as (n & ? & ?). exists n. split; [lia | done].
  - apply Forall_forall. auto.
  - assert (0 <= sum_len k) by (apply sum_len_nonneg, Forall_forall; intros b Hb; apply H3; rewrite Hp; apply elem_of_app; by right).
    rewrite (sum_len_Permutation _ _ Hp), sum_len_app in H4. lia.
  - apply Permutation_length in Hp. rewrite length_app in Hp. lia.
  - apply Forall_forall. intros b Hb data Hdata. apply H6; [by auto|]. destruct (Hc b (Hin b Hb)) as [E|E]; rewrite E in Hdata; done.
  - apply Forall_forall. auto.
Qed.

Lemma unlink_rows_spec rows keep removed failed w :
  (forall b, b ∈ rows -> blob_rel env b = Ok (file_of b)) ->
  let '(w', r) := unlink_rows env rows keep removed failed w in
  drawn w' = drawn w /\ shrinks (disk w) (disk w') /\ same_except (fun p => exists b, b ∈ rows /\ p = file_of b) (disk w) (disk w')
  /\ match r with
     | Some (Ok (keep', _, failed')) =>
         exists kept, keep' = keep ++ kept /\ sublist kept rows /\ (failed' = false -> kept = [] /\ failed = false)
                      /\ forall b, b ∈ rows -> b ∈ kept \/ content w' (file_of b) = None
     | Some (Err _) => False
     | None => True
     end
  /\ (faultless w -> r = Some (Ok (keep, (removed + length rows)%nat, failed)) /\ faultless w').
Proof using Type.
  revert keep removed failed w. induction rows as [|b rows IH]; intros keep removed failed w Hrel.
  { cbn. split; [done|]. split; [apply shrinks_refl|]. split; [apply same_except_refl|]. split.
    - exists []. rewrite app_nil_r. split; [done|]. split; [done|]. split; [by split|]. intros b Hb. by apply elem_of_nil in Hb.
    - intros Hw. by rewrite Nat.add_0_r. }
  cbn [unlink_rows]. rewrite (Hrel b ltac:(left)).
  pose proof (remove_file_spec (file_of b) w) as H. pose proof (remove_file_shrinks (file_of b) w) as Hs.
  assert (Hrel' : forall b, b ∈ rows -> blob_rel env b = Ok (file_of b)) by (intros c Hc; apply Hrel; by right).
  unfold attempt, mbind, io_bind. destruct (remove_file (file_of b) w) as [w1 r1]. cbn [fst] in Hs. destruct H as (D1 & X1 & G1 & _ & _ & F1).
  assert (X1' : same_except (fun p => exists c, c ∈ b :: rows /\ p = file_of c) (disk w) (disk w1)).
  { eapply same_except_impl; [|exact X1]. intros p <-. exists b. split; [left | done]. }
  assert (Hlift : forall w2, same_except (fun p => exists c, c ∈ rows /\ p = file_of c) (disk w1) (disk w2) ->
            same_except (fun p => exists c, c ∈ b :: rows /\ p = file_of c) (disk w) (disk w2)).
  { intros w2 Hx. eapply same_except_trans; [exact X1'|]. eapply same_except_impl; [|exact Hx]. intros p (c & Hc & ->). exists c. split; [by right | done]. }
  assert (Hgone : r1 = Some (Ok tt) \/ r1 = Some (Err NotFound) ->
    let '(w', r) := unlink_rows env rows keep (S removed) failed w1 in
    drawn w' = drawn w /\ shrinks (disk w) (disk w') /\ same_except (fun p => exists c, c ∈ b :: rows /\ p = file_of c) (disk w) (disk w')
    /\ match r with
       | Some (Ok (keep', _, failed')) =>
           exists kept, keep' = keep ++ kept /\ sublist kept (b :: rows) /\ (failed' = false -> kept = [] /\ failed = false)
                        /\ forall c, c ∈ b :: rows -> c ∈ kept \/ content w' (file_of c) = None
       | Some (Err _) => False
       | None => True
       end
    /\ (faultless w -> r = Some (Ok (keep, (removed + length (b :: rows))%nat, failed)) /\ faultless w')).
  { intros Hr. specialize (IH keep (S removed) failed w1 Hrel'). destruct (unlink_rows env rows keep (S removed) failed w1) as [w2 r2].
    destruct IH as (D2 & S2 & X2 & G2 & F2). split; [congruence|]. split; [by eapply shrinks_trans|]. split; [by apply Hlift|]. split.
    - destruct r2 as [[[[keep' removed'] failed']|]|]; [|done..]. destruct G2 as (kept & -> & Hsub & Hf & Hin). exists kept. split; [done|].
      split; [by constructor|]. split; [done|]. intros c [->|Hc]%elem_of_cons; [|by apply Hin]. right. unfold content.
      destruct (proj2 S2 (file_of b)) as [E|E]; [|done]. rewrite E. by apply G1.
    - intros Hw. destruct F1 as [F1 _]; [done|]. destruct (F2 F1) as [-> ?]. split; [|done]. by rewrite Nat.add_succ_comm. }
  destruct r1 as [[[]|[]]|]; [apply Hgone; by left | apply Hgone; by right | | ].
  - clear Hgone. specialize (IH (keep ++ [b]) removed true w1 Hrel'). destruct (unlink_rows env rows (keep ++ [b]) removed true w1) as [w2 r2].
    destruct IH as (D2 & S2 & X2 & G2 & F2). split; [congruence|]. split; [by eapply shrinks_trans|]. split; [by apply Hlift|]. split.
    + destruct r2 as [[[[keep' removed'] failed']|]|]; [|done..]. destruct G2 as (kept & -> & Hsub & Hf & Hin). exists (b :: kept).
      split; [by rewrite <- app_assoc|]. split; [by constructor|]. split; [intros E; by apply Hf in E as [_ ?]|].
      intros c [->|Hc]%elem_of_cons; [left; left|]. destruct (Hin c Hc); [left; by right | by right].
    + intros Hw. by destruct (F1 Hw) as [_ [[=]|[=]]].
  - split; [done|]. split; [done|]. split; [done|]. split; [done|]. intros Hw. by destruct (F1 Hw) as [_ [[=]|[=]]].
Qed.

(** What a clean-up that may remove the rows of [P] does to a store: no other
    row or file is touched, no new file appears, and a row goes only after its
    file. *)
Record Cleared (P : AttachmentBlob -> Prop) (w : World) (m : Manifest) (w' : World) (m' : Manifest) : Prop := {
  cleared_drawn : (drawn w <= drawn w')%nat;
  cleared_rows : m' ⊆+ m;
  cleared_spares b : b ∈ m -> ~ P b -> b ∈ m' /\ content w' (file_of b) = content w (file_of b);
  cleared_gone b : b ∈ m -> b ∈ m' \/ content w' (file_of b) = None;
  cleared_files o n : content w' (Some o, uuid env n) = content w (Some o, uuid env n) \/ content w' (Some o, uuid env n) = None;
}.

Lemma Cleared_refl P w m : Cleared P w m w m.
Proof using Type. split; auto. Qed.

Lemma Cleared_trans P w m w' m' w'' m'' : Rows w m -> Cleared P w m w' m' -> Cleared P w' m' w'' m'' -> Cleared P w m w'' m''.
Proof using Type.
  intros Hr [A1 A2 A3 A4 A5] [B1 B2 B3 B4 B5]. split.
  - lia.
  - by etrans.
  - intros b Hb HP. destruct (A3 b Hb HP) as [Hb' E]. destruct (B3 b Hb' HP) as [? E']. split; [done | congruence].
  - intros b Hb. destruct (A4 b Hb) as [Hb'|E]; [by apply B4|]. right. pose proof (rows_drawn _ _ Hr) as Hd. rewrite Forall_forall in Hd.
    destruct (Hd b Hb) as (n & _ & En). unfold file_of in *. rewrite En in *. destruct (B5 (sha256_hex env (owner b)) n); congruence.
  - intros o n. destruct (A5 o n) as [E|E], (B5 o n) as [E'|E']; rewrite E'; auto.
Qed.

Lemma Cleared_impl (P Q : AttachmentBlob -> Prop) w m w' m' : (forall b, P b -> Q b) -> Cleared P w m w' m' -> Cleared Q w m w' m'.
Proof using Type. intros HPQ [A1 A2 A3 A4 A5]. split; auto. Qed.

Lemma Cleared_Sound P w m w' m' : Sound w m -> Cleared P w m w' m' -> Reads w' m' -> Tidy w' -> Sound w' m'.
Proof using Type.
  intros Hs [A1 A2 A3 A4 A5] HR HT. split; [done| |done]. eapply Rows_shrink; [exact A1 | exact A2 | | apply Hs].
  intros b Hb. pose proof (rows_drawn _ _ (sound_rows _ _ Hs)) as Hd. rewrite Forall_forall in Hd. destruct (Hd b Hb) as (n & _ & En).
  unfold file_of. rewrite En. apply A5.
Qed.

Lemma filter_parts o m : m ≡ₚ List.filter (fun b => negb (of_owner o b)) m ++ List.filter (of_owner o) m.
Proof using Type.
  induction m as [|b m IH]; [done|]. cbn [List.filter]. destruct (of_owner o b); cbn [negb app].
  - rewrite IH at 1. apply Permutation_middle.
  - by rewrite IH at 1.
Qed.
Lemma elem_of_kept o b m : b ∈ List.filter (fun b => negb (of_owner o b)) m <-> b ∈ m /\ owner b <> o.
Proof using Type. rewrite !list_elem_of_In, filter_In. unfold of_owner. by rewrite negb_true_iff, teqb_neq. Qed.
Lemma elem_of_dropped o b m : b ∈ List.filter (of_owner o) m <-> b ∈ m /\ owner b = o.
Proof using Type. rewrite !list_elem_of_In, filter_In. unfold of_owner. by rewrite teqb_eq. Qed.

Definition owned_by (o : text) (b : AttachmentBlob) : Prop := owner b = o.

Lemma unlink_owner_spec o w m :
  Sound w m ->
  let '(w', r) := unlink_owner env o w in
  exists m', Sound w' m' /\ Cleared (owned_by o) w m w' m'
    /\ (forall n, r = Some (Ok n) -> m' = List.filter (fun b => negb (of_owner o b)) m /\ NothingNew INDEX w w')
    /\ (faultless w -> (exists n, r = Some (Ok n)) /\ faultless w').
Proof using laws.
  intros Hs. unfold unlink_owner. pose proof (load_manifest_spec w m (sound_reads _ _ Hs)) as Hl. destruct (load_manifest env w) as [w1 r1] eqn:El.
  destruct Hl as (D1 & N1 & R1 & L1). pose proof (Sound_disk w w1 m D1 N1 Hs) as Hs1.
  assert (C1 : forall P, Cleared P w m w1 m).
  { intros P. split; [lia | done | | auto |]; intros; (split; [done|]) || left; unfold content; by rewrite D1. }
  destruct r1 as [[m1|e]|]; [subst m1 | | ].
  2: rewrite (bind_err _ _ _ _ _ El). 3: rewrite (bind_dead _ _ _ _ El).
  2, 3: (exists m; split; [done|]; split; [done|]; split; [done|]; intros Hw; by destruct (L1 Hw) as [[=] _]).
  rewrite (bind_ok _ _ _ _ _ El). set (keep := List.filter (fun b => negb (of_owner o b)) m). set (rows := List.filter (of_owner o) m).
  assert (Hrel : forall b, b ∈ rows -> blob_rel env b = Ok (file_of b)).
  { intros b Hb. eapply row_rel; [apply Hs|]. by apply elem_of_dropped in Hb as [? _]. }
  pose proof (unlink_rows_spec rows keep 0 false w1 Hrel) as H2. destruct (unlink_rows env rows keep 0 false w1) as [w2 r2] eqn:E2.
  destruct H2 as (D2 & S2 & X2 & G2 & F2).
  assert (T2 : Tidy w2) by (eapply shrinks_Tidy; [exact D2 | exact S2 | apply Hs1]).
  assert (Hspare : forall b, b ∈ m -> owner b <> o -> content w2 (file_of b) = content w1 (file_of b)).
  { intros b Hb Ho. apply X2. intros (c & [Hc Hco]%elem_of_dropped & E). apply Ho. rewrite <- Hco.
    destruct (decide (id b = id c)) as [Ei|Ei]; [|by apply file_of_differs in Ei]. f_equal. eapply row_by_id; [apply Hs | done..]. }
  assert (Hfiles : forall k n, content w2 (Some k, uuid env n) = content w1 (Some k, uuid env n) \/ content w2 (Some k, uuid env n) = None).
  { intros k n. apply S2. }
  assert (Hindex : content w2 INDEX = content w1 INDEX) by (apply X2; intros (b & _ & E); by apply index_not_row in E).
  assert (C2 : Cleared (owned_by o) w1 m w2 m) by (split; [lia | done | by intros; split; auto | auto | done]).
  assert (Hm2 : Reads w2 m) by (pose proof (sound_reads _ _ Hs1) as Hr; unfold Reads in *; by rewrite Hindex).
  destruct r2 as [[[[keep' removed'] failed']|e]|]; [| by destruct G2 |].
  2: { rewrite (bind_dead _ _ _ _ E2). exists m. assert (C : Cleared (owned_by o) w m w2 m) by (eapply Cleared_trans; [apply Hs | apply C1 | apply C2]).
       split; [eapply Cleared_Sound; eauto|]. split; [done|]. split; [done|]. intros Hw. destruct (L1 Hw) as [_ Hw1]. by destruct (F2 Hw1) as [[=] _]. }
  rewrite (bind_ok _ _ _ _ _ E2). destruct G2 as (kept & -> & Hsub & Hfail & Hgone).
  assert (Hm' : keep ++ kept ⊆+ m).
  { rewrite (filter_parts o m). apply submseteq_app; [done|]. by apply sublist_submseteq. }
  pose proof (save_manifest_spec (keep ++ kept) w2 T2) as H3. destruct (save_manifest env (keep ++ kept) w2) as [w3 r3] eqn:E3.
  destruct H3 as (T3 & D3 & B3 & G3 & F3 & P3 & _ & N3).
  assert (Hfiles3 : forall k n, content w3 (Some k, uuid env n) = content w2 (Some k, uuid env n)).
  { intros k n. apply P3; [done|]. intros rel n' E. pose proof (tmp_of_dot (uuid env) rel n') as Hdot. rewrite E in Hdot. cbn in Hdot.
    by eapply uuid_char_no_dot in Hdot; [|eapply uuid_plain, ids]. }
  assert (Hrow3 : forall b, b ∈ m -> content w3 (file_of b) = content w2 (file_of b)).
  { intros b Hb. pose proof (rows_drawn _ _ (sound_rows _ _ Hs)) as Hd. rewrite Forall_forall in Hd. destruct (Hd b Hb) as (n & _ & En).
    unfold file_of. rewrite En. apply Hfiles3. }
  assert (Hold : content w3 INDEX = content w2 INDEX -> Sound w3 m /\ Cleared (owned_by o) w m w3 m).
  { intros Ei. assert (C3 : Cleared (owned_by o) w2 m w3 m) by (split; [lia | done | by intros; split; auto | auto | by intros; left]).
    assert (C : Cleared (owned_by o) w m w3 m) by (eapply Cleared_trans; [apply Hs | apply C1 |]; eapply Cleared_trans; [apply Hs1 | apply C2 | apply C3]).
    split; [|done]. eapply Cleared_Sound; [exact Hs | exact C | | done]. unfold Reads in *. by rewrite Ei. }
  destruct r3 as [[[]|e]|].
  - rewrite (bind_ok _ _ _ _ _ E3).
    assert (C3 : Cleared (owned_by o) w2 m w3 (keep ++ kept)).
    { split; [lia | done | | | by intros; left].
      - intros b Hb HP. split; [|by apply Hrow3]. apply elem_of_app. left. by apply elem_of_kept.
      - intros b Hb. destruct (decide (owner b = o)) as [Ho|Ho]; [|left; apply elem_of_app; left; by apply elem_of_kept].
        destruct (Hgone b) as [?|E]; [by apply elem_of_dropped | left; apply elem_of_app; by right | right]. by rewrite Hrow3. }
    assert (C : Cleared (owned_by o) w m w3 (keep ++ kept)) by (eapply Cleared_trans; [apply Hs | apply C1 |]; eapply Cleared_trans; [apply Hs1 | apply C2 | apply C3]).
    assert (Hok : Sound w3 (keep ++ kept)) by (eapply Cleared_Sound; [exact Hs | exact C | exact G3 | exact T3]).
    destruct failed'; [unfold lift | unfold mret, io_ret]; exists (keep ++ kept); (split; [done|]); (split; [done|]); (split; [|]).
    + done.
    + intros Hw. destruct (L1 Hw) as [_ Hw1]. by destruct (F2 Hw1) as [[=] _].
    + intros n _. destruct Hfail as [-> _]; [done|]. rewrite app_nil_r. split; [done|].
      eapply NothingNew_trans; [apply NothingNew_disk, D1|]. eapply NothingNew_trans; [apply NothingNew_shrinks, S2 | by apply N3].
    + intros Hw. destruct (L1 Hw) as [_ Hw1]. destruct (F2 Hw1) as [_ Hw2]. split; [by eexists | by apply F3].
  - rewrite (bind_err _ _ _ _ _ E3). exists m. destruct (Hold G3) as [? ?]. split; [done|]. split; [done|]. split; [done|].
    intros Hw. destruct (L1 Hw) as [_ Hw1]. destruct (F2 Hw1) as [_ Hw2]. by destruct (F3 Hw2) as [[=] _].
  - rewrite (bind_dead _ _ _ _ E3). exists m. destruct (Hold G3) as [? ?]. split; [done|]. split; [done|]. split; [done|].
    intros Hw. destruct (L1 Hw) as [_ Hw1]. destruct (F2 Hw1) as [_ Hw2]. by destruct (F3 Hw2) as [[=] _].
Qed.

Lemma unlink_owners_spec owners removed w m :
  Sound w m ->
  let '(w', r) := unlink_owners env owners removed w in
  exists m', Sound w' m' /\ Cleared (fun b => owner b ∈ owners) w m w' m'
    /\ (forall n, r = Some (Ok n) -> NothingNew INDEX w w' /\ forall b, b ∈ m' -> owner b ∉ owners)
    /\ (faultless w -> exists n, r = Some (Ok n)).
Proof using laws.
  revert removed w m. induction owners as [|o owners IH]; intros removed w m Hs.
  { cbn. exists m. split; [done|]. split; [apply Cleared_refl|]. split; [|by eexists].
    intros n _. split; [by apply NothingNew_disk | intros; apply not_elem_of_nil]. }
  cbn [unlink_owners]. pose proof (unlink_owner_spec o w m Hs) as H1. destruct (unlink_owner env o w) as [w1 r1] eqn:E1.
  destruct H1 as (m1 & S1 & C1 & O1 & F1).
  assert (C1' : Cleared (fun b => owner b ∈ o :: owners) w m w1 m1) by (eapply Cleared_impl; [|exact C1]; intros b ->; left).
  destruct r1 as [[n1|e]|].
  - rewrite (bind_ok _ _ _ _ _ E1). specialize (IH (removed + n1)%nat w1 m1 S1). destruct (unlink_owners env owners (removed + n1) w1) as [w2 r2].
    destruct IH as (m2 & S2 & C2 & O2 & F2). exists m2. split; [done|]. split; [|split].
    + eapply Cleared_trans; [apply Hs | exact C1' |]. eapply Cleared_impl; [|exact C2]. intros b Hb. by right.
    + intros n Hr. destruct (O2 n Hr) as [N2 O2'], (O1 n1 eq_refl) as [Em1 N1]. split; [by eapply NothingNew_trans|].
      intros b Hb. apply not_elem_of_cons. split; [|by eapply O2'].
      assert (Hb1 : b ∈ m1) by (by eapply elem_of_submseteq, cleared_rows). rewrite Em1 in Hb1. by apply elem_of_kept in Hb1 as [_ ?].
    + intros Hw. apply F2, F1, Hw.
  - rewrite (bind_err _ _ _ _ _ E1). exists m1. split; [done|]. split; [done|]. split; [done|]. intros Hw. by destruct (F1 Hw) as [[? [=]] _].
  - rewrite (bind_dead _ _ _ _ E1). exists m1. split; [done|]. split; [done|]. split; [done|]. intros Hw. by destruct (F1 Hw) as [[? [=]] _].
Qed.

Lemma elem_of_dead_owners live m o : o ∈ dead_owners live m <-> exists b, b ∈ m /\ owner b = o /\ live o = false.
Proof using Type.
  unfold dead_owners. rewrite merge_sort_Permutation, elem_of_remove_dups, list_elem_of_fmap. split.
  - intros (b & -> & Hb). apply list_elem_of_In, filter_In in Hb as [Hb Hl]. apply negb_true_iff in Hl. exists b. split; [by apply list_elem_of_In | done].
  - intros (b & Hb & <- & Hl). exists b. split; [done|]. apply list_elem_of_In, filter_In. split; [by apply list_elem_of_In | by rewrite Hl].
Qed.

Lemma sweep_dead_spec live w m :
  Sound w m ->
  let '(w', r) := sweep_dead_owners env live w in
  exists m', Sound w' m' /\ Cleared (fun b => live (owner b) = false) w m w' m'
    /\ (forall n, r = Some (Ok n) -> NothingNew INDEX w w' /\ forall b, b ∈ m' -> live (owner b) = true)
    /\ (faultless w -> exists n, r = Some (Ok n)).
Proof using laws.
  intros Hs. unfold sweep_dead_owners. pose proof (load_manifest_spec w m (sound_reads _ _ Hs)) as Hl. destruct (load_manifest env w) as [w1 r1] eqn:El.
  destruct Hl as (D1 & N1 & R1 & L1). pose proof (Sound_disk w w1 m D1 N1 Hs) as Hs1.
  assert (C1 : forall P, Cleared P w m w1 m).
  { intros P. split; [lia | done | | auto |]; intros; (split; [done|]) || left; unfold content; by rewrite D1. }
  destruct r1 as [[m1|e]|]; [subst m1 | | ].
  2: rewrite (bind_err _ _ _ _ _ El). 3: rewrite (bind_dead _ _ _ _ El).
  2, 3: (exists m; split; [done|]; split; [done|]; split; [done|]; intros Hw; by destruct (L1 Hw) as [[=] _]).
  rewrite (bind_ok _ _ _ _ _ El). pose proof (unlink_owners_spec (dead_owners live m) 0 w1 m Hs1) as H2.
  destruct (unlink_owners env (dead_owners live m) 0 w1) as [w2 r2]. destruct H2 as (m2 & S2 & C2 & O2 & F2). exists m2.
  split; [done|]. split; [|split].
  - eapply Cleared_trans; [apply Hs | apply C1|]. eapply Cleared_impl; [|exact C2]. intros b Hb.
    apply elem_of_dead_owners in Hb as (b' & _ & _ & Hl). exact Hl.
  - intros n Hr. destruct (O2 n Hr) as [N2 O2']. split; [by eapply NothingNew_trans; [apply NothingNew_disk, D1|]|].
    intros b Hb. destruct (live (owner b)) eqn:El2; [done|]. exfalso. apply (O2' b Hb).
    apply elem_of_dead_owners. exists b. split; [|done]. by eapply elem_of_submseteq, cleared_rows.
  - intros Hw. apply F2, L1, Hw.
Qed.

(** *** Files without a row *)

(** A call of the sweep: files outside of [refs] may disappear. *)
Definition sweeps (refs : list path) (w w' : World) : Prop :=
  drawn w' = drawn w /\ shrinks (disk w) (disk w') /\ same_except (fun p => p ∉ refs /\ p <> INDEX) (disk w) (disk w').
Lemma sweeps_refl refs w : sweeps refs w w.
Proof using Type. split; [done|]. split; [apply shrinks_refl | apply same_except_refl]. Qed.
Lemma sweeps_trans refs w w' w'' : sweeps refs w w' -> sweeps refs w' w'' -> sweeps refs w w''.
Proof using Type. intros (A1 & A2 & A3) (B1 & B2 & B3). split; [congruence|]. split; [by eapply shrinks_trans | by eapply same_except_trans]. Qed.
Lemma sweeps_gone refs w w' p : sweeps refs w w' -> content w p = None -> content w' p = None.
Proof using Type. intros (_ & [_ Hs] & _) H. unfold content in *. destruct (Hs p); congruence. Qed.

Lemma io_fails_spec {A} (m : io io_error A) w :
  io_fails m w = (let '(w', r) := m w in (w', match r with Some (Ok a) => Some (Ok a) | Some (Err _) => Some (Err err_io) | None => None end)).
Proof using Type. unfold io_fails, attempt, mbind, io_bind, lift. by destruct (m w) as [w' [[a|e]|]]. Qed.

Lemma io_fails_reads {A} refs (op : Disk -> result io_error (A * Disk)) w :
  (forall d, match op d with Ok (_, d') => d' = d | Err _ => False end) ->
  let '(w', r) := io_fails (system_call no_part op) w in
  sweeps refs w w' /\ disk w' = disk w /\ (forall a, r = Some (Ok a) -> op (disk w) = Ok (a, disk w))
  /\ (faultless w -> faultless w' /\ exists a, r = Some (Ok a)).
Proof using Type.
  intros Hop. rewrite io_fails_spec. destruct (system_call_reads op w) as (s & r & Hs & E & Hok).
  { intros d. specialize (Hop d). by destruct (op d) as [[? ?]|]. }
  rewrite E. split; [split; [done|]; split; [apply shrinks_refl | apply same_except_refl]|]. split; [done|]. split.
  - intros a Ha. apply Hok. by destruct r as [[|]|]; simplify_eq.
  - intros Hw. destruct (Hs Hw) as [-> ->]. split; [done|]. specialize (Hop (disk w)). destruct (op (disk w)) as [[a d]|]; [by eexists | done].
Qed.

(** A removal changes one file only. *)
Lemma remove_keeps p q w w' r : io_fails (remove_file p) w = (w', r) -> p <> q -> files (disk w') !! q = files (disk w) !! q.
Proof using Type.
  rewrite io_fails_spec. pose proof (remove_file_spec p w) as H. destruct (remove_file p w) as [w1 r1]. intros [= -> _] Hne.
  destruct H as (_ & [_ H] & _). by apply H.
Qed.

Lemma io_fails_remove refs p w :
  p ∉ refs -> p <> INDEX ->
  let '(w', r) := io_fails (remove_file p) w in
  sweeps refs w w' /\ (forall a, r = Some (Ok a) -> content w' p = None)
  /\ (faultless w -> is_Some (content w p) -> faultless w' /\ exists a, r = Some (Ok a)).
Proof using Type.
  intros Hp Hi. rewrite io_fails_spec. pose proof (remove_file_spec p w) as H. pose proof (remove_file_shrinks p w) as Hs.
  assert (Hpr : faultless w -> is_Some (content w p) -> exists w', remove_file p w = (w', Some (Ok tt))).
  { intros Hw [d Hd]. unfold remove_file, system_call, content in *. rewrite Hw, Hd. by eexists. }
  destruct (remove_file p w) as [w' r]. destruct H as (H1 & H2 & H3 & H4 & H5 & H6). split; [split; [done|]; split; [done|]|split].
  - eapply same_except_impl; [|exact H2]. by intros q <-.
  - intros a Ha. apply H3. destruct r as [[[]|]|]; [by left | done | done].
  - intros Hw Hc. destruct (Hpr Hw Hc) as [w2 [= -> ->]]. split; [by apply H6 | by eexists].
Qed.

Lemma probe_spec refs w :
  let '(w', r) := io_fails probe w in sweeps refs w w' /\ disk w' = disk w /\ (faultless w -> faultless w' /\ r = Some (Ok tt)).
Proof using Type.
  pose proof (io_fails_reads refs (fun d => Ok (tt, d)) w (fun d => eq_refl)) as H. unfold probe.
  destruct (io_fails _ w) as [w' r]. destruct H as (H1 & H2 & _ & H4). split; [done|]. split; [done|]. intros Hw. destruct (H4 Hw) as [? [[] ->]]. done.
Qed.

Lemma next_entry_spec refs w :
  let '(w', r) := next_entry w in sweeps refs w w' /\ disk w' = disk w /\ (faultless w -> faultless w' /\ r = Some (Ok tt)).
Proof using Type.
  unfold next_entry. pose proof (probe_spec refs w) as H1. destruct (io_fails probe w) as [w1 r1] eqn:E1. destruct H1 as (S1 & D1 & F1).
  destruct r1 as [[[]|e]|]; [rewrite (bind_ok _ _ _ _ _ E1) | by rewrite (bind_err _ _ _ _ _ E1) | by rewrite (bind_dead _ _ _ _ E1)].
  pose proof (probe_spec refs w1) as H2. destruct (io_fails probe w1) as [w2 r2]. destruct H2 as (S2 & D2 & F2).
  split; [by eapply sweeps_trans|]. split; [congruence|]. intros Hw. by apply F2, F1.
Qed.

Lemma sweep_dir_spec refs dir names removed w :
  NoDup names ->
  let '(w', r) := sweep_dir refs dir names removed w in
  sweeps refs w w' /\ (forall x, content w' (None, x) = content w (None, x))
  /\ (forall n, r = Some (Ok n) -> forall name, name ∈ names -> (Some dir, name) ∈ refs \/ content w' (Some dir, name) = None)
  /\ (faultless w -> (forall name, name ∈ names -> is_Some (content w (Some dir, name))) -> faultless w' /\ exists n, r = Some (Ok n)).
Proof using Type.
  revert removed w. induction names as [|name names IH]; intros removed w Hnd.
  { cbn. split; [apply sweeps_refl|]. split; [done|]. split; [|by eauto]. intros n _ x Hx. by apply elem_of_nil in Hx. }
  apply NoDup_cons in Hnd as [Hni Hnd]. cbn [sweep_dir].
  pose proof (next_entry_spec refs w) as H1. destruct (next_entry w) as [w2 r1] eqn:E1. destruct H1 as (S12 & D12 & F1).
  destruct r1 as [[[]|e]|]; [rewrite (bind_ok _ _ _ _ _ E1) | rewrite (bind_err _ _ _ _ _ E1) | rewrite (bind_dead _ _ _ _ E1)].
  2, 3: (split; [done|]; split; [by intros; unfold content; rewrite D12|]; split; [done|]; intros Hw; by destruct (F1 Hw)).
  assert (F12 : faultless w -> faultless w2) by (intros Hw; by apply F1).
  destruct (decide ((Some dir, name) ∈ refs)) as [Hin|Hin];
    [rewrite bool_decide_eq_true_2 by done | rewrite bool_decide_eq_false_2 by done].
  - specialize (IH removed w2 Hnd). destruct (sweep_dir refs dir names removed w2) as [w3 r3]. destruct IH as (S3 & N3 & O3 & F3).
    split; [by eapply sweeps_trans|]. split; [by intros x; rewrite N3; unfold content; rewrite D12|]. split.
    + intros n Hr x [->|Hx]%elem_of_cons; [by left | by eapply O3].
    + intros Hw Hc. apply F3; [by apply F12|]. intros x Hx. unfold content. rewrite D12. apply Hc. by right.
  - pose proof (io_fails_remove refs (Some dir, name) w2 Hin ltac:(done)) as H3.
    destruct (io_fails (remove_file (Some dir, name)) w2) as [w3 r3] eqn:E3. destruct H3 as (S3 & O3 & F3).
    pose proof (sweeps_trans _ _ _ _ S12 S3) as S13.
    assert (N13 : forall x, content w3 (None, x) = content w (None, x)).
    { intros x. unfold content. rewrite (remove_keeps _ _ _ _ _ E3) by done. by rewrite D12. }
    assert (F3' : faultless w -> (forall x, x ∈ name :: names -> is_Some (content w (Some dir, x))) -> faultless w3 /\ exists a, r3 = Some (Ok a)).
    { intros Hw Hc. apply F3; [by apply F12|]. unfold content. rewrite D12. apply Hc. by left. }
    destruct r3 as [[[]|e]|]; [rewrite (bind_ok _ _ _ _ _ E3) | rewrite (bind_err _ _ _ _ _ E3) | rewrite (bind_dead _ _ _ _ E3)].
    2, 3: (split; [done|]; split; [done|]; split; [done|]; intros Hw Hc; by destruct (F3' Hw Hc) as [_ [? [=]]]).
    specialize (IH (S removed) w3 Hnd). destruct (sweep_dir refs dir names (S removed) w3) as [w4 r4]. destruct IH as (S4 & N4 & O4 & F4).
    split; [by eapply sweeps_trans|]. split; [by intros x; rewrite N4|]. split.
    + intros n Hr x [->|Hx]%elem_of_cons; [right | by eapply O4]. eapply sweeps_gone; [exact S4|]. by eapply O3.
    + intros Hw Hc. destruct (F3' Hw Hc) as [Hw3 _]. apply F4; [done|]. intros x Hx. destruct (Hc x ltac:(by right)) as [d Hd].
      exists d. rewrite <- Hd. unfold content. rewrite <- D12. apply remove_keeps with (1 := E3). congruence.
Qed.

(** What a listing of a directory holds. *)
Definition in_dir (o : text) (p : path) : option text := match p with (Some o', name) => if bool_decide (o' = o) then Some name else None | _ => None end.
Lemma in_dir_Some o p name : in_dir o p = Some name <-> p = (Some o, name).
Proof using Type. destruct p as [[o'|] n]; cbn; [case_bool_decide|]; split; naive_solver. Qed.

Lemma NoDup_omap {A B} (f : A -> option B) (l : list A) :
  (forall x y z, f x = Some z -> f y = Some z -> x = y) -> NoDup l -> NoDup (omap f l).
Proof using Type.
  intros Hf. induction 1 as [|x l Hx _ IH]; cbn; [constructor|]. destruct (f x) as [z|] eqn:E; [|done]. constructor; [|done].
  intros Hz. apply list_elem_of_omap in Hz as (y & Hy & Ey). by rewrite (Hf x y z E Ey) in Hx.
Qed.

Lemma dir_names_spec refs o w :
  let '(w', r) := io_fails (dir_entries o) w in
  sweeps refs w w' /\ disk w' = disk w
  /\ (forall names, r = Some (Ok names) -> NoDup names /\ forall name, name ∈ names <-> is_Some (content w (Some o, name)))
  /\ (faultless w -> faultless w' /\ exists a, r = Some (Ok a)).
Proof using Type.
  unfold dir_entries. match goal with |- context [io_fails (system_call no_part ?op)] => pose proof (io_fails_reads refs op w (fun d => eq_refl)) as H end.
  destruct (io_fails _ w) as [w' r]. destruct H as (H1 & H2 & H3 & H4). split; [done|]. split; [done|]. split; [|done].
  intros names Hn. specialize (H3 names Hn). injection H3 as <-. change (omap _ _) with (omap (in_dir o) (elements (dom (files (disk w))))). split.
  - apply NoDup_omap; [|apply NoDup_elements]. intros x y z Hx Hy. apply in_dir_Some in Hx, Hy. congruence.
  - intros name. rewrite list_elem_of_omap. unfold content. rewrite <- elem_of_dom, <- elem_of_elements. split.
    + intros (p & Hp & E). apply in_dir_Some in E. by subst.
    + intros Hp. eexists. split; [exact Hp|]. by apply in_dir_Some.
Qed.

Definition swept_dir (refs : list path) (w : World) (dir : text) : Prop :=
  forall name, is_Some (content w (Some dir, name)) -> (Some dir, name) ∈ refs.

Lemma sweep_owner_dir_spec refs dir removed w :
  let '(w', r) := sweep_owner_dir refs dir removed w in
  sweeps refs w w' /\ (forall x, content w' (None, x) = content w (None, x))
  /\ (forall n, r = Some (Ok n) -> swept_dir refs w' dir)
  /\ (faultless w -> faultless w' /\ exists n, r = Some (Ok n)).
Proof using Type.
  unfold sweep_owner_dir. pose proof (probe_spec refs w) as H3. destruct (io_fails probe w) as [w3 r3] eqn:E3. destruct H3 as (S3 & D3 & F3).
  destruct r3 as [[[]|e]|]; [rewrite (bind_ok _ _ _ _ _ E3) | rewrite (bind_err _ _ _ _ _ E3) | rewrite (bind_dead _ _ _ _ E3)].
  2, 3: (split; [done|]; split; [by intros; unfold content; rewrite D3|]; split; [done|]; intros Hw; by destruct (F3 Hw)).
  pose proof (dir_names_spec refs dir w3) as H4. destruct (io_fails (dir_entries dir) w3) as [w4 r4] eqn:E4. destruct H4 as (S4 & D4 & O4 & F4).
  pose proof (sweeps_trans _ _ _ _ S3 S4) as S34. assert (D14 : disk w4 = disk w) by congruence.
  destruct r4 as [[names|e]|]; [rewrite (bind_ok _ _ _ _ _ E4) | rewrite (bind_err _ _ _ _ _ E4) | rewrite (bind_dead _ _ _ _ E4)].
  2, 3: (split; [done|]; split; [by intros; unfold content; rewrite D14|]; split; [done|]; intros Hw; destruct (F3 Hw) as [Hw3 _]; by destruct (F4 Hw3) as [_ [? [=]]]).
  destruct (O4 names eq_refl) as [Hnn Hnames]. assert (N34 : forall p, content w3 p = content w4 p) by (intros p; unfold content; by rewrite D4).
  pose proof (sweep_dir_spec refs dir names removed w4 Hnn) as H5. destruct (sweep_dir refs dir names removed w4) as [w5 r5].
  destruct H5 as (S5 & N5 & O5 & F5). split; [by eapply sweeps_trans|]. split; [by intros x; rewrite N5; unfold content; rewrite D14|]. split.
  - intros n Hr x [d Hd]. destruct (decide (x ∈ names)) as [Hx|Hx].
    + destruct (O5 n Hr x Hx) as [?|E]; [done|]. by rewrite E in Hd.
    + exfalso. apply Hx, Hnames. rewrite N34. destruct (content w4 (Some dir, x)) eqn:E; [by eexists|]. by rewrite (sweeps_gone _ _ _ _ S5 E) in Hd.
  - intros Hw. apply F5; [by apply F4, F3|]. intros x Hx. apply Hnames in Hx. by rewrite <- N34.
Qed.

(** An entry of the root that the sweep is done with. *)
Definition swept (refs : list path) (w : World) (entry : text * bool) : Prop :=
  if snd entry then swept_dir refs w (fst entry) else (None, fst entry) = INDEX \/ content w (None, fst entry) = None.

Lemma swept_later refs w w' entry : sweeps refs w w' -> swept refs w entry -> swept refs w' entry.
Proof using Type.
  intros Hs. unfold swept. destruct (snd entry).
  - intros H name [d Hd]. apply H. destruct (content w (Some (fst entry), name)) eqn:E; [by eexists|].
    by rewrite (sweeps_gone _ _ _ _ Hs E) in Hd.
  - intros [H|H]; [by left | right]. by eapply sweeps_gone.
Qed.

Section Entries.
Context (refs : list path) (Hrefs : forall x, (None, x) ∉ refs).

(** The sweep of one entry. *)
Definition sweep_entry (name : text) (is_dir : bool) (removed : nat) : io harness_error nat :=
  if is_dir : bool then sweep_owner_dir refs name removed
  else if bool_decide ((None, name) = INDEX) then mret removed
  else _ ← io_fails (remove_file (None, name)); mret (S removed).

Lemma sweep_entries_step name is_dir entries removed w :
  sweep_entries refs ((name, is_dir) :: entries) removed w
  = (_ ← next_entry; n ← sweep_entry name is_dir removed; sweep_entries refs entries n) w.
Proof using Type.
  cbn [sweep_entries]. unfold sweep_entry. destruct is_dir; [done|]. unfold mbind, io_bind.
  destruct (next_entry w) as [w1 [[[]|e]|]]; [|done..]. case_bool_decide; [done|].
  by destruct (io_fails (remove_file (None, name)) w1) as [w2 [[[]|e]|]].
Qed.

Lemma sweep_entry_spec name is_dir removed w :
  let '(w', r) := sweep_entry name is_dir removed w in
  sweeps refs w w' /\ (forall x, x <> name \/ is_dir = true -> content w' (None, x) = content w (None, x))
  /\ (forall n, r = Some (Ok n) -> swept refs w' (name, is_dir))
  /\ (faultless w -> (is_dir = false -> is_Some (content w (None, name))) -> faultless w' /\ exists n, r = Some (Ok n)).
Proof using Hrefs.
  unfold sweep_entry. destruct is_dir.
  { pose proof (sweep_owner_dir_spec refs name removed w) as H. destruct (sweep_owner_dir refs name removed w) as [w' r].
    destruct H as (H1 & H2 & H3 & H4). split; [done|]. split; [by intros|]. split; [done|]. intros Hw _. by apply H4. }
  case_bool_decide as Hi.
  { split; [apply sweeps_refl|]. split; [done|]. split; [by intros; left | by eauto]. }
  pose proof (io_fails_remove refs (None, name) w (Hrefs name) Hi) as H3.
  destruct (io_fails (remove_file (None, name)) w) as [w3 r3] eqn:E3. destruct H3 as (S3 & O3 & F3).
  assert (N3 : forall x, x <> name \/ false = true -> content w3 (None, x) = content w (None, x)).
  { intros x [Hx|[=]]. unfold content. apply remove_keeps with (1 := E3). congruence. }
  destruct r3 as [[[]|e]|]; [rewrite (bind_ok _ _ _ _ _ E3) | rewrite (bind_err _ _ _ _ _ E3) | rewrite (bind_dead _ _ _ _ E3)];
    (split; [done|]); (split; [done|]); split; try done.
  - intros n _. right. by eapply O3.
  - intros Hw Hc. destruct (F3 Hw (Hc eq_refl)) as [? _]. split; [done | by eexists].
  - intros Hw Hc. by destruct (F3 Hw (Hc eq_refl)) as [_ [? [=]]].
  - intros Hw Hc. by destruct (F3 Hw (Hc eq_refl)) as [_ [? [=]]].
Qed.

Lemma sweep_entries_spec entries removed w :
  NoDup entries ->
  let '(w', r) := sweep_entries refs entries removed w in
  sweeps refs w w'
  /\ (forall n, r = Some (Ok n) -> forall entry, entry ∈ entries -> swept refs w' entry)
  /\ (faultless w -> (forall name, (name, false) ∈ entries -> is_Some (content w (None, name))) -> exists n, r = Some (Ok n)).
Proof using Hrefs.
  revert removed w. induction entries as [|[name is_dir] entries IH]; intros removed w Hnd.
  { cbn. split; [apply sweeps_refl|]. split; [|by eauto]. intros n _ x Hx. by apply elem_of_nil in Hx. }
  apply NoDup_cons in Hnd as [Hni Hnd]. rewrite sweep_entries_step.
  pose proof (next_entry_spec refs w) as H1. destruct (next_entry w) as [w1 r1] eqn:E1. destruct H1 as (S1 & D1 & F1).
  destruct r1 as [[[]|e]|]; [rewrite (bind_ok _ _ _ _ _ E1) | rewrite (bind_err _ _ _ _ _ E1) | rewrite (bind_dead _ _ _ _ E1)].
  2, 3: (split; [done|]; split; [done|]; intros Hw; by destruct (F1 Hw)).
  pose proof (sweep_entry_spec name is_dir removed w1) as H2. destruct (sweep_entry name is_dir removed w1) as [w2 r2] eqn:E2.
  destruct H2 as (S2 & N2 & O2 & F2). pose proof (sweeps_trans _ _ _ _ S1 S2) as S12.
  assert (F12 : faultless w -> (forall x, (x, false) ∈ (name, is_dir) :: entries -> is_Some (content w (None, x))) -> faultless w2 /\ exists n, r2 = Some (Ok n)).
  { intros Hw Hc. apply F2; [by apply F1|]. intros ->. unfold content. rewrite D1. apply Hc. by left. }
  destruct r2 as [[n2|e]|]; [rewrite (bind_ok _ _ _ _ _ E2) | rewrite (bind_err _ _ _ _ _ E2) | rewrite (bind_dead _ _ _ _ E2)].
  2, 3: (split; [done|]; split; [done|]; intros Hw Hc; by destruct (F12 Hw Hc) as [_ [? [=]]]).
  specialize (IH n2 w2 Hnd). destruct (sweep_entries refs entries n2 w2) as [w3 r3]. destruct IH as (S3 & O3 & F3).
  split; [by eapply sweeps_trans|]. split.
  - intros n Hr entry [->|Hin]%elem_of_cons; [|by eapply O3]. eapply swept_later; [exact S3 | by eapply O2].
  - intros Hw Hc. destruct (F12 Hw Hc) as [Hw2 _]. apply F3; [done|]. intros x Hx. rewrite N2.
    + unfold content. rewrite D1. apply Hc. by right.
    + destruct is_dir; [by right | left; congruence].
Qed.
End Entries.

Lemma elem_of_referenced w m p : Rows w m -> p ∈ referenced env m <-> exists b, b ∈ m /\ p = file_of b.
Proof using laws.
  intros Hr. unfold referenced. rewrite list_elem_of_omap. split.
  - intros (b & Hb & E). rewrite (row_rel w m b Hr Hb) in E. injection E as <-. by exists b.
  - intros (b & Hb & ->). exists b. by rewrite (row_rel w m b Hr Hb).
Qed.

Definition at_root (p : path) : option (text * bool) := match p with (None, name) => Some (name, false) | _ => None end.
Lemma at_root_Some p e : at_root p = Some e <-> p = (None, fst e) /\ snd e = false.
Proof using Type. destruct p as [[o|] n], e as [e b]; cbn; split; naive_solver. Qed.

Lemma root_entries_spec refs w :
  let '(w', r) := io_fails root_entries w in
  sweeps refs w w' /\ disk w' = disk w
  /\ (forall entries, r = Some (Ok entries) -> NoDup entries
        /\ (forall o, (o, true) ∈ entries <-> o ∈ dirs (disk w)) /\ (forall x, (x, false) ∈ entries <-> is_Some (content w (None, x))))
  /\ (faultless w -> faultless w' /\ exists a, r = Some (Ok a)).
Proof using Type.
  unfold root_entries. match goal with |- context [io_fails (system_call no_part ?op)] => pose proof (io_fails_reads refs op w (fun d => eq_refl)) as H end.
  destruct (io_fails _ w) as [w' r]. destruct H as (H1 & H2 & H3 & H4). split; [done|]. split; [done|]. split; [|done].
  intros entries Hn. specialize (H3 entries Hn). injection H3 as <-. change (omap _ _) with (omap at_root (elements (dom (files (disk w))))).
  assert (Hfile : forall x, (x, false) ∈ omap at_root (elements (dom (files (disk w)))) <-> is_Some (content w (None, x))).
  { intros x. rewrite list_elem_of_omap. unfold content. rewrite <- elem_of_dom, <- elem_of_elements. split.
    - intros (p & Hp & E). apply at_root_Some in E as [-> _]. exact Hp.
    - intros Hp. eexists. split; [exact Hp | done]. }
  assert (Hdir : forall x, (x, true) ∈ omap at_root (elements (dom (files (disk w)))) -> False).
  { intros x. rewrite list_elem_of_omap. intros (p & _ & E). by apply at_root_Some in E as [_ ?]. }
  split; [|split].
  - apply NoDup_app. split; [apply (NoDup_fmap_2 _), NoDup_elements|]. split.
    + intros e He Hin. apply list_elem_of_fmap in He as (o & -> & _). by apply Hdir in Hin.
    + apply NoDup_omap; [|apply NoDup_elements]. intros x y z Hx Hy. apply at_root_Some in Hx as [-> _], Hy as [-> _]. done.
  - intros o. rewrite elem_of_app. split.
    + intros [Ho|Ho]; [|by apply Hdir in Ho]. apply list_elem_of_fmap in Ho as (o' & [= ->] & Ho). by apply elem_of_elements.
    + intros Ho. left. apply list_elem_of_fmap. exists o. split; [done|]. by apply elem_of_elements.
  - intros x. rewrite elem_of_app, Hfile. split; [|by right]. intros [Hx|Hx]; [|done]. by apply list_elem_of_fmap in Hx as (o & [=] & _).
Qed.

Lemma sweep_files_spec w m :
  Sound w m ->
  let '(w', r) := sweep_unreferenced_files env w in
  Sound w' m /\ Cleared (fun _ => False) w m w' m
  /\ (forall n, r = Some (Ok n) -> forall p, is_Some (content w' p) -> p = INDEX \/ exists b, b ∈ m /\ p = file_of b)
  /\ (faultless w -> exists n, r = Some (Ok n)).
Proof using laws.
  intros Hs. unfold sweep_unreferenced_files. pose proof (load_manifest_spec w m (sound_reads _ _ Hs)) as Hl. destruct (load_manifest env w) as [w1 r1] eqn:El.
  destruct Hl as (D1 & N1 & R1 & L1). pose proof (Sound_disk w w1 m D1 N1 Hs) as Hs1.
  assert (C1 : forall P, Cleared P w m w1 m).
  { intros P. split; [lia | done | | auto |]; intros; (split; [done|]) || left; unfold content; by rewrite D1. }
  set (refs := referenced env m). pose proof (elem_of_referenced w m) as Hrefs. fold refs in Hrefs.
  assert (Hnone : forall x, (None, x) ∉ refs) by (intros x Hx; apply Hrefs in Hx as (b & _ & E); [done | apply Hs]).
  assert (Hafter : forall w2, sweeps refs w1 w2 -> Sound w2 m /\ Cleared (fun _ => False) w m w2 m).
  { intros w2 (S1 & S2 & S3). assert (Hrow : forall b, b ∈ m -> content w2 (file_of b) = content w1 (file_of b)).
    { intros b Hb. apply S3. intros [Hn _]. apply Hn, Hrefs; [apply Hs|]. by exists b. }
    assert (C2 : Cleared (fun _ => False) w1 m w2 m) by (split; [lia | done | by intros; split; auto | auto | intros; apply S2]).
    assert (C : Cleared (fun _ => False) w m w2 m) by (eapply Cleared_trans; [apply Hs | apply C1 | apply C2]). split; [|done].
    eapply Cleared_Sound; [exact Hs | exact C | | eapply shrinks_Tidy; [exact S1 | exact S2 | apply Hs1]].
    pose proof (sound_reads _ _ Hs1) as Hr. unfold Reads in *. replace (content w2 INDEX) with (content w1 INDEX); [done|]. symmetry. apply S3. by intros [_ ?]. }
  destruct r1 as [[m1|e]|]; [subst m1 | | ].
  2: rewrite (bind_err _ _ _ _ _ El). 3: rewrite (bind_dead _ _ _ _ El).
  2, 3: (split; [done|]; split; [done|]; split; [done|]; intros Hw; by destruct (L1 Hw) as [[=] _]).
  rewrite (bind_ok _ _ _ _ _ El). pose proof (root_entries_spec refs w1) as H2. destruct (io_fails root_entries w1) as [w2 r2] eqn:E2.
  destruct H2 as (S2 & D2 & O2 & F2).
  destruct r2 as [[entries|e]|]; [rewrite (bind_ok _ _ _ _ _ E2) | rewrite (bind_err _ _ _ _ _ E2) | rewrite (bind_dead _ _ _ _ E2)].
  2, 3: (destruct (Hafter _ S2); split; [done|]; split; [done|]; split; [done|]; intros Hw; destruct (L1 Hw) as [_ Hw1]; by destruct (F2 Hw1) as [_ [? [=]]]).
  destruct (O2 entries eq_refl) as (Hnd & Hdirs & Hfiles). fold refs.
  pose proof (sweep_entries_spec refs Hnone entries 0 w2 Hnd) as H3. destruct (sweep_entries refs entries 0 w2) as [w3 r3]. destruct H3 as (S3 & O3 & F3).
  destruct (Hafter w3) as [Hs3 C3]; [by eapply sweeps_trans|]. split; [done|]. split; [done|]. split.
  - intros n Hr [[o|] x] [d Hd].
    + right. assert (Hw1 : is_Some (content w1 (Some o, x))).
      { destruct (content w1 (Some o, x)) eqn:E; [by eexists|]. pose proof (sweeps_trans _ _ _ _ S2 S3) as S23. by rewrite (sweeps_gone _ _ _ _ S23 E) in Hd. }
      apply Hrefs; [apply Hs|]. refine (O3 n Hr (o, true) _ x (mk_is_Some _ _ Hd)). apply Hdirs. eapply tidy_dirs; [apply Hs1 | exact Hw1].
    + left. assert (Hw1 : is_Some (content w1 (None, x))).
      { destruct (content w1 (None, x)) eqn:E; [by eexists|]. pose proof (sweeps_trans _ _ _ _ S2 S3) as S23. by rewrite (sweeps_gone _ _ _ _ S23 E) in Hd. }
      destruct (O3 n Hr (x, false)) as [E|E]; [by apply Hfiles | exact E|]. cbn [fst] in E. congruence.
  - intros Hw. destruct (L1 Hw) as [_ Hw1]. destruct (F2 Hw1) as [Hw2 _]. apply F3; [done|]. intros x Hx. unfold content. rewrite D2. by apply Hfiles.
Qed.

(** ** A step of the server *)

(** What the operations promise over the rows alone.  An upload that answers
    rows has appended exactly these and their files, for an owner that was
    live; any other answer, and death, have appended nothing.  A clean-up
    removes rows of its owner only, and answers only when all of them are
    gone. *)
Definition Promise (s : State) (e : Event * list verdict) (m : Manifest) (w' : World) (m' : Manifest) : Prop :=
  let w := with_faults (world s) (snd e) in
  match fst e with
  | SetAccount _ _ | DeleteAccount _ => m' = m /\ w' = world s
  | Upload o files =>
      Forall (fun b => content w' (file_of b) = content (world s) (file_of b)) m
      /\ match snd (store_guarded env o files (owner_live (accounts s) o) w) with
         | Some (Ok stored) => m' = m ++ stored /\ Uploaded o w' files stored /\ owner_live (accounts s) o = true
         | _ => m' = m
         end
  | Unlink o =>
      Cleared (owned_by o) (world s) m w' m'
      /\ forall n, snd (unlink_owner env o w) = Some (Ok n) -> m' = List.filter (fun b => negb (of_owner o b)) m
  | SweepDead =>
      Cleared (fun b => known (accounts s) (owner b) = false) (world s) m w' m'
      /\ forall n, snd (sweep_dead_owners env (known (accounts s)) w) = Some (Ok n) -> forall b, b ∈ m' -> known (accounts s) (owner b) = true
  | SweepFiles =>
      m' = m /\ Cleared (fun _ => False) (world s) m w' m
      /\ forall n, snd (sweep_unreferenced_files env w) = Some (Ok n) ->
         forall p, is_Some (content w' p) -> p = INDEX \/ exists b, b ∈ m /\ p = file_of b
  end.

Lemma Cleared_faults P w faults m w' m' : Cleared P (with_faults w faults) m w' m' -> Cleared P w m w' m'.
Proof using Type. intros [A1 A2 A3 A4 A5]. split; done. Qed.

Lemma step_sound s e m :
  Sound (world s) m -> exists m', Sound (world (happens env s e)) m' /\ Promise s e m (world (happens env s e)) m'.
Proof using laws.
  destruct e as [e faults]. intros Hs. assert (Hw : Sound (with_faults (world s) faults) m) by exact (Sound_disk (world s) (with_faults (world s) faults) m eq_refl eq_refl Hs).
  unfold happens, Promise. cbn [fst snd]. destruct e as [o d|o|o fs|o| |]; [by exists m | by exists m | | | |].
  - pose proof (store_guarded_spec o fs (owner_live (accounts s) o) _ m Hw) as H.
    destruct (store_guarded env o fs (owner_live (accounts s) o) (with_faults (world s) faults)) as [w' r]. destruct H as (_ & H2 & H3 & _).
    destruct r as [[stored|e]|]; cbn [fst snd world].
    + destruct H3 as (H3 & H4 & H5). by exists (m ++ stored).
    + by exists m.
    + by exists m.
  - pose proof (unlink_owner_spec o _ m Hw) as H. destruct (unlink_owner env o (with_faults (world s) faults)) as [w' r].
    destruct H as (m' & H1 & H2%Cleared_faults & H3 & _). exists m'. split; [done|]. split; [done|]. intros n Hn. by apply (H3 n).
  - pose proof (sweep_dead_spec (known (accounts s)) _ m Hw) as H. destruct (sweep_dead_owners env (known (accounts s)) (with_faults (world s) faults)) as [w' r].
    destruct H as (m' & H1 & H2%Cleared_faults & H3 & _). exists m'. split; [done|]. split; [done|]. intros n Hn. by apply (H3 n).
  - pose proof (sweep_files_spec _ m Hw) as H. destruct (sweep_unreferenced_files env (with_faults (world s) faults)) as [w' r].
    destruct H as (H1 & H2%Cleared_faults & H3 & _). by exists m.
Qed.

Lemma empty_store_sound : Sound (world empty_state) [].
Proof using Type.
  split; [done | | split].
  - split; [constructor.. | | | constructor | constructor]; cbn; unfold HOME_QUOTA_BYTES, MAX_HOME_BLOBS; lia.
  - done.
  - intros o name [d Hd]. done.
Qed.

Lemma attachments_so_far_sound l s m : Sound (world s) m -> exists m', Sound (world (so_far env l s)) m'.
Proof using laws.
  revert s m. induction l as [|e l IH]; intros s m Hs; [by exists m|]. destruct (step_sound s e m Hs) as (m1 & H1 & _). exact (IH _ _ H1).
Qed.

(** *** What is kept of an upload *)

Definition Held (o : text) (w : World) (b : AttachmentBlob) (d : list Z) : Prop := owner b = o /\ content w (file_of b) = Some d.

(** A step that is no clean-up of the owner. *)
Definition spares (o : text) (e : Event * list verdict) : Prop := fst e <> Unlink o /\ fst e <> DeleteAccount o.

Lemma known_step s o e : spares o e -> known (accounts s) o = true -> known (accounts (happens env s e)) o = true.
Proof using Type.
  intros [_ Hd] Hk. destruct e as [[o' d|o'|o' fs|o'| |] faults]; try done; unfold happens, known in *; cbn [fst snd accounts] in *;
    apply orb_true_iff in Hk as [->|Hk]; try done; apply orb_true_iff; right; apply bool_decide_eq_true in Hk; apply bool_decide_eq_true.
  - apply lookup_insert_is_Some. destruct (decide (o' = o)); auto.
  - rewrite lookup_delete_ne; [done|]. intros ->. by apply Hd.
Qed.

Lemma step_holds s e m o b d :
  Sound (world s) m -> spares o e -> known (accounts s) o = true -> b ∈ m -> Held o (world s) b d ->
  exists m', Sound (world (happens env s e)) m' /\ b ∈ m' /\ Held o (world (happens env s e)) b d.
Proof using laws.
  intros Hs [Hu Hd] Hk Hb [Ho Hc]. destruct (step_sound s e m Hs) as (m' & Hs' & HP). exists m'. split; [done|].
  destruct e as [e faults]. unfold Promise, Held in *. cbn [fst snd] in *.
  destruct e as [o' di|o'|o' fs|o'| |].
  - by destruct HP as [-> ->].
  - by destruct HP as [-> ->].
  - destruct HP as [Hf HP]. rewrite Forall_forall in Hf. rewrite Hf by done. split; [|done].
    destruct (snd (store_guarded _ _ _ _ _)) as [[stored|]|]; [destruct HP as [-> _]; apply elem_of_app; by left | by subst..].
  - destruct HP as [HC _]. destruct (cleared_spares _ _ _ _ _ HC b Hb) as [? E]; [unfold owned_by; congruence|]. by rewrite E.
  - destruct HP as [HC _]. destruct (cleared_spares _ _ _ _ _ HC b Hb) as [? E]; [congruence|]. by rewrite E.
  - destruct HP as (-> & HC & _). destruct (cleared_spares _ _ _ _ _ HC b Hb) as [? E]; [by intros []|]. by rewrite E.
Qed.

Lemma so_far_holds l s m o stored files :
  Forall (spares o) l -> Sound (world s) m -> known (accounts s) o = true -> (forall b, b ∈ stored -> b ∈ m) ->
  Forall2 (fun f b => Held o (world s) b (data f)) files stored ->
  exists m', Sound (world (so_far env l s)) m' /\ (forall b, b ∈ stored -> b ∈ m')
             /\ Forall2 (fun f b => Held o (world (so_far env l s)) b (data f)) files stored.
Proof using laws.
  intros Hl. revert s m. induction Hl as [|e l He _ IH]; intros s m Hs Hk Hin Hst; [by exists m|].
  destruct (step_sound s e m Hs) as (m1 & H1 & _).
  assert (Hone : forall b d, b ∈ stored -> Held o (world s) b d -> b ∈ m1 /\ Held o (world (happens env s e)) b d).
  { intros b d Hb Hh. destruct (step_holds s e m o b d Hs He Hk (Hin b Hb) Hh) as (m2 & H2 & Hb2 & Hh2). split; [|done].
    replace m1 with m2; [done|]. pose proof (sound_reads _ _ H1) as R1. pose proof (sound_reads _ _ H2) as R2. unfold Reads in *.
    destruct (content _ INDEX); congruence. }
  cbn [so_far foldl]. apply (IH (happens env s e) m1); [done | by apply known_step | |].
  - intros b Hb. apply list_elem_of_lookup in Hb as Hb'. destruct Hb' as (i & Hi). destruct (Forall2_lookup_r _ _ _ _ _ Hst Hi) as (f & _ & Hh). by eapply Hone.
  - clear -Hst Hone. induction Hst as [|f b fs bs Hh _ IH]; [constructor|]. constructor; [apply Hone; [by left | done]|].
    apply IH. intros b' d Hb'. apply Hone. by right.
Qed.

(** ** Reading back *)

(** What a read shows of a file: its text with the markers of the fence
    replaced. *)
Definition Shows (o : text) (f : IncomingFile) (v : VerifiedAttachment) : Prop :=
  exists class, classify_file (extract env) f = Ok class
    /\ v_text v = fst (neutralize_sentinels (class_text class))
    /\ owner (blob v) = o /\ sha256 (blob v) = sha256_bytes_hex env (data f).

Lemma find_blob_row w m o b : Rows w m -> b ∈ m -> owner b = o -> find_blob m o (id b) = Some b.
Proof using Type.
  intros Hr Hb Ho. unfold find_blob.
  destruct (List.find (fun c => teqb (id c) (id b) && teqb (owner c) o) m) as [c|] eqn:E.
  - apply find_some in E as [Hc E]. apply andb_true_iff in E as [Ei _]. apply teqb_eq in Ei. f_equal.
    eapply row_by_id; [exact Hr | by apply list_elem_of_In | done | done].
  - eapply find_none in E; [|by apply list_elem_of_In]. by rewrite Ho, !teqb_refl in E.
Qed.

Lemma read_faultless p d w : faultless w -> content w p = Some d -> read p w = (w, Some (Ok d)).
Proof using Type. destruct w as [dk n s]. unfold faultless, content, read, system_call. cbn. intros -> ->. done. Qed.

Lemma classify_file_again f class :
  classify_file (extract env) f = Ok class -> classify_bytes (extract env) (data f) (guessed_ext_from_mime (magic_mime class)) = Ok class.
Proof using Type. unfold classify_file. intros H. results. by eapply classify_again. Qed.

Lemma verified_text_spec w m o f b n class :
  Rows w m -> faultless w -> b ∈ m -> Held o w b (data f) -> classify_file (extract env) f = Ok class -> b = new_blob env (uuid env n) o f class ->
  exists v, verified_text env m o (id b) w = (w, Some (Ok v)) /\ Shows o f v.
Proof using laws.
  intros Hr Hw Hb [Ho Hc] Hcl Eb. unfold verified_text. rewrite bind_lift, (find_blob_row w m o b) by done. cbn [ok_or].
  rewrite bind_lift, (row_rel w m b Hr Hb).
  rewrite (bind_ok (E := harness_error) _ (attempt (read (file_of b))) w w (Ok (data f))) by (unfold attempt; by rewrite (read_faultless _ _ _ Hw Hc)).
  rewrite bind_lift. cbn [map_err]. rewrite bind_refused.
  replace (zlen (data f) =? byte_len b) with true by (symmetry; apply Z.eqb_eq; by subst b).
  replace (teqb (sha256_bytes_hex env (data f)) (sha256 b)) with true by (symmetry; apply teqb_eq; by subst b). cbn [negb orb].
  rewrite bind_lift. replace (b_mime b) with (magic_mime class) by (by subst b). rewrite (classify_file_again f class Hcl).
  destruct (neutralize_sentinels (class_text class)) as [u removed] eqn:En. eexists. split; [reflexivity|].
  exists class. split; [done|]. split; [by rewrite En|]. by subst b.
Qed.

Lemma verified_list_spec w m o files stored :
  Rows w m -> faultless w -> (forall b, b ∈ stored -> b ∈ m) -> Forall2 (fun f b => Held o w b (data f)) files stored ->
  Forall2 (fun f b => exists n class, classify_file (extract env) f = Ok class /\ b = new_blob env (uuid env n) o f class) files stored ->
  exists vs, verified_list env m o (map id stored) w = (w, Some (Ok vs)) /\ Forall2 (Shows o) files vs.
Proof using laws.
  intros Hr Hw Hin Hh Hu. induction Hh as [|f b fs bs Hh _ IH]; [by exists []|].
  inversion Hu as [|? ? ? ? (n & class & Hcl & Eb) Hu']; subst.
  destruct (verified_text_spec w m o f _ n class Hr Hw (Hin _ ltac:(left)) Hh Hcl eq_refl) as (v & Ev & Hv).
  destruct IH as (vs & Evs & Hvs); [intros b Hb; apply Hin; by right | done|]. exists (v :: vs). split; [|by constructor].
  cbn [map verified_list]. by rewrite (bind_ok _ _ _ _ _ Ev), (bind_ok _ _ _ _ _ Evs).
Qed.

Lemma verified_texts_spec w m o files stored :
  Sound w m -> faultless w -> (forall b, b ∈ stored -> b ∈ m) -> Forall2 (fun f b => Held o w b (data f)) files stored ->
  Forall2 (fun f b => exists n class, classify_file (extract env) f = Ok class /\ b = new_blob env (uuid env n) o f class) files stored ->
  exists vs, snd (verified_texts env o (map id stored) w) = Some (Ok vs) /\ Forall2 (Shows o) files vs.
Proof using laws.
  intros Hs Hw Hin Hh Hu. unfold verified_texts. case_bool_decide as E.
  { apply map_eq_nil in E. subst. exists []. by inversion Hh. }
  pose proof (load_manifest_spec w m (sound_reads _ _ Hs)) as Hl. destruct (load_manifest env w) as [w1 r1] eqn:El.
  destruct Hl as (D1 & N1 & _ & L1). destruct (L1 Hw) as [-> Hw1]. rewrite (bind_ok _ _ _ _ _ El).
  assert (Hww : w1 = w) by (destruct w, w1; unfold faultless in *; cbn in *; congruence). subst w1.
  destruct (verified_list_spec w m o files stored (sound_rows _ _ Hs) Hw Hin Hh Hu) as (vs & -> & Hvs). by exists vs.
Qed.
End Soundness.

(** ** The properties *)

(** C21. The store keeps its promises through failures and crashes: in any
    history of uploads, clean-ups and account changes, whichever system calls
    fail and wherever the process dies, the next operation is one step on the
    rows alone.  An upload that answers has added exactly its files; an upload
    that fails or dies has added nothing; a clean-up removes only rows of its
    owner, a row only after its file, and touches no other row and no other
    file. *)
Theorem attachments_refine_rows env (Hlaws : Laws env) l e :
  let s := so_far env l empty_state in
  exists m m', Reads env (world s) m /\ Reads env (world (happens env s e)) m' /\ Promise env s e m (world (happens env s e)) m'.
Proof.
  intros s. destruct (attachments_so_far_sound env Hlaws l empty_state [] (empty_store_sound env)) as (m & Hm).
  destruct (step_sound env Hlaws s e m Hm) as (m' & Hm' & HP). exists m, m'. split; [apply Hm|]. split; [apply Hm' | exact HP].
Qed.

(** In every history the manifest is readable, its identifiers differ, the
    files it lists stay within the byte quota and the count quota of the home,
    and a file that is there under a row is the one that was uploaded: its
    length and digest are those of the row. *)
Theorem attachment_store_sound env (Hlaws : Laws env) l :
  let w := world (so_far env l empty_state) in
  exists m, Reads env w m /\ NoDup (map id m) /\ sum_len m <= HOME_QUOTA_BYTES /\ (length m <= MAX_HOME_BLOBS)%nat
    /\ forall b d, b ∈ m -> content w (file_of env b) = Some d -> Intact env b d.
Proof.
  intros w. destruct (attachments_so_far_sound env Hlaws l empty_state [] (empty_store_sound env)) as (m & [H1 [R1 _ _ R2 R3 R4 _] _]).
  exists m. do 4 (split; [done|]). intros b d Hb. rewrite Forall_forall in R4. by apply R4.
Qed.

(** C20. What an upload answered can be read back: if the server answered the
    rows of an upload, then after any further history, with failures and
    crashes, in which nobody clears the attachments or deletes the account of
    the owner, a read of these rows shows, file by file, the text that was
    uploaded with the markers of the fence replaced. *)
Theorem uploads_read_back env (Hlaws : Laws env) l o files faults stored l'
    (Hstored : let s := so_far env l empty_state in
       snd (store_guarded env o files (owner_live (accounts s) o) (with_faults (world s) faults)) = Some (Ok stored))
    (Hspares : Forall (spares o) l') :
  let s := so_far env l' (happens env (so_far env l empty_state) (Upload o files, faults)) in
  exists vs, snd (verified_texts env o (map id stored) (with_faults (world s) [])) = Some (Ok vs) /\ Forall2 (Shows env o) files vs.
Proof.
  set (s0 := so_far env l empty_state) in *. cbn zeta in *. destruct (attachments_so_far_sound env Hlaws l empty_state [] (empty_store_sound env)) as (m & Hm). fold s0 in Hm.
  destruct (step_sound env Hlaws s0 (Upload o files, faults) m Hm) as (m1 & H1 & HP). unfold Promise in HP. cbn [fst snd] in HP.
  destruct HP as [_ HP]. rewrite Hstored in HP. destruct HP as (-> & Hup & Hlive).
  set (s1 := happens env s0 (Upload o files, faults)) in *.
  assert (Hk : known (accounts s1) o = true).
  { unfold known, owner_live in *. apply orb_true_iff in Hlive as [->|Hl]; [done|]. apply orb_true_iff. right. guards. apply bool_decide_eq_true.
    unfold s1, happens. cbn. by rewrite Hl. }
  assert (Hheld : Forall2 (fun f b => Held env o (world s1) b (data f)) files stored).
  { eapply Forall2_impl; [exact Hup|]. intros f b (n & class & _ & -> & Hc). by split. }
  destruct (so_far_holds env Hlaws l' s1 (m ++ stored) o stored files Hspares H1 Hk) as (m2 & H2 & Hin & Hheld2); [intros b Hb; apply elem_of_app; by right | done|].
  apply (verified_texts_spec env Hlaws _ m2); [|done|done| |].
  - exact (Sound_disk env (world (so_far env l' s1)) (with_faults (world (so_far env l' s1)) []) m2 eq_refl eq_refl H2).
  - eapply Forall2_impl; [exact Hheld2|]. done.
  - eapply Forall2_impl; [exact Hup|]. intros f b (n & class & ? & ? & _). by exists n, class.
Qed.

Section Deletion.
Context (env : Env) (laws : Laws env) (o : text).

Definition no_row (m : Manifest) : Prop := forall b, b ∈ m -> owner b <> o.
(** A step that does not make the account again. *)
Definition not_created (e : Event * list verdict) : Prop := forall d, fst e <> SetAccount o d.

Lemma unknown_step s e : not_created e -> known (accounts s) o = false -> known (accounts (happens env s e)) o = false.
Proof using Type.
  intros He Hk. destruct e as [[o' d|o'|o' fs|o'| |] faults]; try done; unfold happens, known in *; cbn [fst snd accounts] in *;
    apply orb_false_iff in Hk as [-> Hk]; cbn [orb]; apply bool_decide_eq_false in Hk; apply bool_decide_eq_false.
  - rewrite lookup_insert_is_Some. intros [-> | [_ ?]]; [by apply (He d) | done].
  - intros H. apply Hk. by apply lookup_delete_is_Some in H as [_ ?].
Qed.

Lemma step_no_row s e m :
  Sound env (world s) m -> known (accounts s) o = false -> no_row m ->
  exists m', Sound env (world (happens env s e)) m' /\ no_row m'.
Proof using laws.
  intros Hs Hk Hno. destruct (step_sound env laws s e m Hs) as (m' & Hs' & HP). exists m'. split; [done|].
  assert (Hsub : m' ⊆+ m -> no_row m') by (intros Hm b Hb; apply Hno; by eapply elem_of_submseteq).
  destruct e as [e faults]. unfold Promise in HP. cbn [fst snd] in *. destruct e as [o' di|o'|o' fs|o'| |].
  - by destruct HP as [-> _].
  - by destruct HP as [-> _].
  - destruct HP as [_ HP]. destruct (snd (store_guarded _ _ _ _ _)) as [[stored|]|]; [|by subst..]. destruct HP as (-> & Hup & Hl).
    intros b [Hb|Hb]%elem_of_app; [by apply Hno|]. apply list_elem_of_lookup in Hb as (i & Hi).
    destruct (Forall2_lookup_r _ _ _ _ _ Hup Hi) as (f & _ & (n & c & _ & -> & _)). cbn. intros ->.
    unfold owner_live, known in *. apply orb_false_iff in Hk as [Hl' Hk]. rewrite Hl' in Hl. cbn in Hl. guards. apply Hk. by eexists.
  - destruct HP as [HC _]. apply Hsub, (cleared_rows _ _ _ _ _ _ HC).
  - destruct HP as [HC _]. apply Hsub, (cleared_rows _ _ _ _ _ _ HC).
  - by destruct HP as [-> _].
Qed.

Lemma so_far_no_row l s m :
  Forall not_created l -> Sound env (world s) m -> known (accounts s) o = false -> no_row m ->
  exists m', Sound env (world (so_far env l s)) m' /\ no_row m'.
Proof using laws.
  intros Hl. revert s m. induction Hl as [|e l He _ IH]; intros s m Hs Hk Hno; [by exists m|].
  destruct (step_no_row s e m Hs Hk Hno) as (m1 & H1 & Hno1). exact (IH _ _ H1 (unknown_step s e He Hk) Hno1).
Qed.

(** The two sweeps of a start with accounts, without faults, in their order:
    the files that no row names, then the rows and files of the accounts that
    are gone. *)
Definition restart : list (Event * list verdict) := [(SweepFiles, []); (SweepDead, [])].

Lemma restart_clean s m :
  Sound env (world s) m ->
  exists m', Sound env (world (so_far env restart s)) m' /\ accounts (so_far env restart s) = accounts s
    /\ (forall b, b ∈ m' -> known (accounts s) (owner b) = true)
    /\ forall p, is_Some (content (world (so_far env restart s)) p) -> p = INDEX \/ exists b, b ∈ m' /\ p = file_of env b.
Proof using laws.
  intros Hs. set (w0 := with_faults (world s) []). assert (H0 : Sound env w0 m) by exact (Sound_disk env (world s) w0 m eq_refl eq_refl Hs).
  pose proof (sweep_files_spec env laws w0 m H0) as H1. destruct (sweep_unreferenced_files env w0) as [w1 r1] eqn:E1.
  destruct H1 as (S1 & _ & O1 & F1). destruct (F1 eq_refl) as [n1 ->].
  set (w2 := with_faults w1 []). assert (H2 : Sound env w2 m) by exact (Sound_disk env w1 w2 m eq_refl eq_refl S1).
  pose proof (sweep_dead_spec env laws (known (accounts s)) w2 m H2) as H3.
  destruct (sweep_dead_owners env (known (accounts s)) w2) as [w3 r3] eqn:E3.
  destruct H3 as (m3 & S3 & C3 & O3 & F3). destruct (F3 eq_refl) as [n3 ->]. destruct (O3 n3 eq_refl) as [N3 K3].
  assert (E : so_far env restart s = MkState w3 (accounts s)).
  { cbn [restart so_far foldl happens fst snd]. fold w0. rewrite E1. cbn [fst world accounts]. fold w2. by rewrite E3. }
  rewrite E. exists m3. split; [done|]. split; [done|]. split; [done|]. cbn [world]. intros p [d Hp].
  destruct (N3 p (mk_is_Some _ _ Hp)) as [->|Hp1]; [by left|]. destruct (O1 n1 eq_refl p Hp1) as [->|(b & Hb & ->)]; [by left | right].
  exists b. split; [|done]. destruct (cleared_gone _ _ _ _ _ _ C3 b Hb); congruence.
Qed.
End Deletion.

(** C23. A deleted account leaves nothing behind: whatever failed or died
    before, once the account is gone and the server has made its two sweeps at a
    start without faults, of files that no row names and then of accounts that
    are gone, every file in the directory is the index or an attachment
    of an account that exists; and no row of the deleted account ever appears
    again, not from an upload that was already under way and not through later
    failures, as long as nobody makes an account with its identifier. *)
Theorem deleted_account_leaves_nothing env (Hlaws : Laws env) l o l'
    (Hgone : known (accounts (so_far env l empty_state)) o = false) (Hnot : Forall (not_created o) l') :
  let s := so_far env restart (so_far env l empty_state) in
  (exists m, Reads env (world s) m
     /\ forall p, is_Some (content (world s) p) -> p = INDEX \/ exists b, b ∈ m /\ p = file_of env b /\ known (accounts s) (owner b) = true)
  /\ exists m', Reads env (world (so_far env l' s)) m' /\ forall b, b ∈ m' -> owner b <> o.
Proof.
  intros s. destruct (attachments_so_far_sound env Hlaws l empty_state [] (empty_store_sound env)) as (m & Hm).
  destruct (restart_clean env Hlaws _ m Hm) as (m1 & H1 & Ha & Hk & Hp). fold s in H1, Ha, Hp. split.
  - exists m1. split; [apply H1|]. intros p Hin. destruct (Hp p Hin) as [->|(b & Hb & ->)]; [by left | right]. exists b.
    split; [done|]. split; [done|]. rewrite Ha. by apply Hk.
  - destruct (so_far_no_row env Hlaws o l' s m1 Hnot H1) as (m2 & H2 & Hno).
    + by rewrite Ha.
    + intros b Hb E. specialize (Hk b Hb). congruence.
    + exists m2. split; [apply H2 | done].
Qed.

(** What a read answers, row by row. *)
Definition ReadOf (env : Env) (m : Manifest) (o i : text) (v : VerifiedAttachment) : Prop :=
  blob v ∈ m /\ owner (blob v) = o /\ id (blob v) = i
  /\ exists bytes class, Intact env (blob v) bytes
      /\ classify_bytes (extract env) bytes (guessed_ext_from_mime (b_mime (blob v))) = Ok class
      /\ v_text v = fst (neutralize_sentinels (class_text class)).

Lemma verified_text_reads env m o i w w' v : verified_text env m o i w = (w', Some (Ok v)) -> ReadOf env m o i v.
Proof.
  intros Ev. unfold verified_text in Ev. rewrite bind_lift in Ev. destruct (find_blob m o i) as [b|] eqn:Ef; [|done]. cbn [ok_or] in Ev.
  apply find_some in Ef as [Hin Ef]. apply list_elem_of_In in Hin. apply andb_true_iff in Ef as [Ei Eo]. apply teqb_eq in Ei, Eo.
  rewrite bind_lift in Ev. destruct (blob_rel env b) as [rel|]; [|done].
  destruct (attempt (E' := harness_error) (read rel) w) as [w4 [[r|e]|]] eqn:Er; [|by rewrite (bind_err _ _ _ _ _ Er) in Ev|by rewrite (bind_dead _ _ _ _ Er) in Ev].
  rewrite (bind_ok _ _ _ _ _ Er), bind_lift in Ev. destruct r as [bytes|]; [|done]. cbn [map_err] in Ev. rewrite bind_refused in Ev.
  destruct (negb (zlen bytes =? byte_len b) || negb (teqb (sha256_bytes_hex env bytes) (sha256 b))) eqn:Eq; [done|].
  rewrite bind_lift in Ev. destruct (classify_bytes _ _ _) as [class|] eqn:Ec; [|done].
  destruct (neutralize_sentinels (class_text class)) as [u removed] eqn:En. injection Ev as _ <-. unfold ReadOf. cbn [blob v_text]. guards.
  split; [done|]. split; [done|]. split; [done|]. exists bytes, class. split; [split; [done | by apply teqb_eq]|]. split; [done|]. by rewrite En.
Qed.

Lemma verified_list_reads env m o ids w w' vs : verified_list env m o ids w = (w', Some (Ok vs)) -> Forall2 (ReadOf env m o) ids vs.
Proof.
  revert w vs. induction ids as [|i ids IH]; intros w vs; cbn [verified_list]; [by intros [= _ <-]|].
  destruct (verified_text env m o i w) as [w2 [[v|e]|]] eqn:Ev; [|by rewrite (bind_err _ _ _ _ _ Ev)|by rewrite (bind_dead _ _ _ _ Ev)].
  rewrite (bind_ok _ _ _ _ _ Ev). destruct (verified_list env m o ids w2) as [w3 [[vs'|e]|]] eqn:Evs; [|by rewrite (bind_err _ _ _ _ _ Evs)|by rewrite (bind_dead _ _ _ _ Evs)].
  rewrite (bind_ok _ _ _ _ _ Evs). intros [= -> <-]. constructor; [by eapply verified_text_reads | by eapply IH].
Qed.

Lemma verified_texts_reads env o ids w w' vs : verified_texts env o ids w = (w', Some (Ok vs)) ->
  exists m, Forall2 (ReadOf env m o) ids vs /\ (forall m0, Reads env w m0 -> ids <> [] -> m = m0).
Proof.
  unfold verified_texts. case_bool_decide as E; [subst; by intros [= _ <-]; exists []|].
  destruct (load_manifest env w) as [w1 [[m|e]|]] eqn:El; [|by rewrite (bind_err _ _ _ _ _ El)|by rewrite (bind_dead _ _ _ _ El)].
  rewrite (bind_ok _ _ _ _ _ El). intros H. exists m. split; [by eapply verified_list_reads|]. intros m0 Hm _.
  pose proof (load_manifest_spec env w m0 Hm) as Hl. rewrite El in Hl. by destruct Hl as (_ & _ & ? & _).
Qed.

(** A read shows only what its caller owns, whatever is on the disk: each
    attachment that a read answers is a row of that owner with one of the
    requested identifiers, and its text is that of bytes which have the length
    and the digest of the row, with the markers of the fence replaced. *)
Theorem reads_owned_and_verified env o ids w vs
    (Hread : snd (verified_texts env o ids w) = Some (Ok vs)) :
  Forall2 (fun i v =>
    owner (blob v) = o /\ id (blob v) = i
    /\ exists bytes class, Intact env (blob v) bytes
        /\ classify_bytes (extract env) bytes (guessed_ext_from_mime (b_mime (blob v))) = Ok class
        /\ v_text v = fst (neutralize_sentinels (class_text class))) ids vs.
Proof.
  destruct (verified_texts env o ids w) as [w' r] eqn:E. cbn [snd] in Hread. subst r. apply verified_texts_reads in E as (m & H & _).
  eapply Forall2_impl; [exact H|]. by intros i v (_ & ?).
Qed.

(** ** A small environment *)

Module SmallAttachments.
(** The manifest as one number. *)
Definition flat (b : AttachmentBlob) : text * text * text * text * Z := (id b, owner b, sha256 b, b_mime b, byte_len b).
Definition unflat (x : text * text * text * text * Z) : AttachmentBlob := let '(i, o, s, m, n) := x in MkBlob i o s m n.
Definition to_json (m : Manifest) : list Z := [Zpos (encode (map flat m))].
Definition from_json (bytes : list Z) : option Manifest :=
  match bytes with [Zpos p] => map unflat <$> (decode p : option (list (text * text * text * text * Z))) | _ => None end.

Definition env : Env := {|
  uuid n := show_nat (Z.of_nat n);
  parse_uuid s := if forallb uuid_char s then Some s else None;
  sha256_hex o := replicate 64 97;
  sha256_bytes_hex d := show_nat (foldl (fun h b => (h * 257 + b) mod 65521) 1 d);
  extract d := Err (err_code "ATTACHMENT_DOCX");
  scan t := 0%nat;
  Attachments.to_json := to_json;
  Attachments.from_json := from_json;
|}.

Lemma digits n : Forall (fun c => is_ascii_digit c = true) (show_nat (Z.of_nat n)).
Proof. apply show_nat_digits. lia. Qed.
Lemma digits_uuid n : forallb uuid_char (show_nat (Z.of_nat n)) = true.
Proof.
  apply forallb_forall. intros c Hc. pose proof (digits n) as H. rewrite Forall_forall in H. apply list_elem_of_In, H in Hc.
  unfold uuid_char, is_ascii_hexdigit. by rewrite Hc.
Qed.
Lemma digits_simple n : simple (show_nat (Z.of_nat n)) = show_nat (Z.of_nat n).
Proof.
  unfold simple. pose proof (digits n) as H. induction H as [|c l Hc _ IH]; [done|]. cbn [List.filter].
  destruct (Z.eqb_spec c c_dash) as [->|]; [done|]. cbn [negb]. by rewrite IH.
Qed.

Lemma laws : Laws env.
Proof.
  split; [split| |].
  - intros n m H. change (simple (show_nat (Z.of_nat n)) = simple (show_nat (Z.of_nat m))) in H. rewrite !digits_simple in H. apply (f_equal (parse_digits 0)) in H. rewrite !show_nat_parses in H by lia.
    injection H as H. lia.
  - intros n. cbn [parse_uuid uuid env]. by rewrite digits_uuid.
  - intros s h. cbn [parse_uuid env]. destruct (forallb uuid_char s) eqn:E; [|done]. intros [= <-]. apply Forall_forall. intros c Hc.
    rewrite forallb_forall in E. apply E. by apply list_elem_of_In.
  - done.
  - done.
  - intros m. cbn [Attachments.to_json Attachments.from_json env]. unfold to_json, from_json. rewrite decode_encode. cbn. f_equal. rewrite map_map.
    rewrite <- (map_id m) at 2. apply map_ext. by intros [].
  - intros d. cbn [sha256_bytes_hex env]. apply forallb_forall. intros c Hc. unfold is_ascii_hexdigit.
    assert (0 <= foldl (fun h b => (h * 257 + b) mod 65521) 1 d).
    { induction d as [|b d _] using rev_ind; [done|]. rewrite foldl_app. cbn. apply Z.mod_pos_bound. lia. }
    pose proof (show_nat_digits _ H) as Hd. rewrite Forall_forall in Hd. apply list_elem_of_In, Hd in Hc. by rewrite Hc.
Qed.

(** A note, a page and a server that stops between the bytes and the
    manifest. *)
Definition note : IncomingFile := MkFile (T "note.txt") (T "hello <<<END_ATTACHMENT_DATA>>>").
Definition page : IncomingFile := MkFile (T "page.md") (T "# page").
Definition before : list (Event * list verdict) :=
  [(SetAccount (T "u1") false, []); (Upload (T "u1") [page], [Works; Works; Works; Works; Works; Works; Dies 0]); (SetAccount (T "u2") false, [])].
Definition later : list (Event * list verdict) :=
  [(Upload (T "u2") [page], [Works; Works; Fails 3]); (Unlink (T "u2"), [Works; Fails 0]); (SweepFiles, []); (DeleteAccount (T "u2"), []); (SweepDead, [Works; Dies 1])].
Definition mid : State := so_far env before empty_state.
Definition answer : option (result harness_error (list AttachmentBlob)) :=
  snd (store_guarded env (T "u1") [note] (owner_live (accounts mid) (T "u1")) (with_faults (world mid) [])).
End SmallAttachments.

Lemma attachments_refine_rows_witness :
  exists m m', Reads SmallAttachments.env (world SmallAttachments.mid) m
    /\ Promise SmallAttachments.env SmallAttachments.mid (Upload (T "u1") [SmallAttachments.note], []) m
         (world (happens SmallAttachments.env SmallAttachments.mid (Upload (T "u1") [SmallAttachments.note], []))) m'.
Proof.
  destruct (attachments_refine_rows SmallAttachments.env SmallAttachments.laws SmallAttachments.before (Upload (T "u1") [SmallAttachments.note], []))
    as (m & m' & H1 & _ & H2). exists m, m'. split; [exact H1 | exact H2].
Defined.

Lemma attachment_store_sound_witness :
  exists m, Reads SmallAttachments.env (world (so_far SmallAttachments.env (SmallAttachments.before ++ SmallAttachments.later) empty_state)) m
    /\ sum_len m <= HOME_QUOTA_BYTES.
Proof.
  destruct (attachment_store_sound SmallAttachments.env SmallAttachments.laws (SmallAttachments.before ++ SmallAttachments.later)) as (m & H1 & _ & H2 & _).
  exists m. split; [exact H1 | exact H2].
Defined.

Lemma uploads_read_back_witness :
  exists stored vs, SmallAttachments.answer = Some (Ok stored)
    /\ snd (verified_texts SmallAttachments.env (T "u1") (map id stored)
              (with_faults (world (so_far SmallAttachments.env SmallAttachments.later
                 (happens SmallAttachments.env (so_far SmallAttachments.env SmallAttachments.before empty_state)
                   (Upload (T "u1") [SmallAttachments.note], [])))) [])) = Some (Ok vs)
    /\ Forall2 (Shows SmallAttachments.env (T "u1")) [SmallAttachments.note] vs.
Proof.
  assert (Ha : exists b, SmallAttachments.answer = Some (Ok [b])) by (eexists; vm_compute; reflexivity). destruct Ha as [b Ha].
  assert (Hs : Forall (spares (T "u1")) SmallAttachments.later) by (repeat constructor; done).
  destruct (uploads_read_back SmallAttachments.env SmallAttachments.laws SmallAttachments.before (T "u1") [SmallAttachments.note] [] [b]
    SmallAttachments.later Ha Hs) as (vs & H1 & H2). exists [b], vs. split; [exact Ha|]. split; [exact H1 | exact H2].
Defined.

Lemma deleted_account_leaves_nothing_witness :
  let l := SmallAttachments.before ++ [(Upload (T "u1") [SmallAttachments.note], []); (DeleteAccount (T "u1"), [])] in
  let s := so_far SmallAttachments.env restart (so_far SmallAttachments.env l empty_state) in
  length (map_to_list (files (disk (world (so_far SmallAttachments.env l empty_state))))) = 3%nat
  /\ exists m', Reads SmallAttachments.env (world (so_far SmallAttachments.env [(Upload (T "u1") [SmallAttachments.page], [])] s)) m'
               /\ forall b, b ∈ m' -> owner b <> T "u1".
Proof.
  intros l s. split; [vm_compute; reflexivity|].
  assert (Hgone : known (accounts (so_far SmallAttachments.env l empty_state)) (T "u1") = false) by (vm_compute; reflexivity).
  assert (Hnot : Forall (not_created (T "u1")) [(Upload (T "u1") [SmallAttachments.page], [])]) by (repeat constructor; done).
  exact (proj2 (deleted_account_leaves_nothing SmallAttachments.env SmallAttachments.laws l (T "u1") _ Hgone Hnot)).
Defined.

Lemma reads_owned_and_verified_witness :
  let w := with_faults (world (happens SmallAttachments.env SmallAttachments.mid (Upload (T "u1") [SmallAttachments.note], []))) [] in
  exists v, snd (verified_texts SmallAttachments.env (T "u1") [T "3"] w) = Some (Ok [v]) /\ owner (blob v) = T "u1".
Proof.
  intros w. assert (Hr : exists v, snd (verified_texts SmallAttachments.env (T "u1") [T "3"] w) = Some (Ok [v])) by (eexists; vm_compute; reflexivity).
  destruct Hr as [v Hr]. exists v. split; [exact Hr|].
  pose proof (reads_owned_and_verified SmallAttachments.env (T "u1") [T "3"] w [v] Hr) as H. inversion H as [|? ? ? ? Hv _]. exact (proj1 Hv).
Defined.
