(* ===== verification/RunLifecycle.v ===== *)
(** The life of a real-repo run after its loop: the records of
    [agentic/run_store.rs], the source checks and the push of
    [agentic/workspace.rs], and the decide, push, publish and discard commands
    of [agentic/commands.rs].

    A command that changes a settled run holds the run's lease from before it
    reads the record until after it saves it, so a command is one step on the
    records.  What a command does outside of them (git, the [gh] binary, the
    clone, the finalisation of a decision) goes through the operations of
    [host]; the trace records every save, git process, write of the GitHub
    gate, decision and removal of a clone.  Console output is not modelled. *)

From S2P Require Import Prelude Text Effects RepoPaths Owners WriteGate.
Local Open Scope Z_scope.

Definition EXIT_OK : Z := 0.
Definition EXIT_FAIL : Z := 2.
Definition EXIT_ENV : Z := 3.
Definition EXIT_REFUSED : Z := 4.

Definition exit_code_for (e : harness_error) : Z :=
  if bool_decide (code e = "AGENTIC_WRITE_REFUSED"%string) then EXIT_REFUSED
  else if bool_decide (code e ∈ ["GH_NOT_INSTALLED"; "GH_VERSION_TOO_OLD"; "AGENTIC_CONFIG_INVALID"; "CONFIG_ERROR";
                                 "HARD_SANDBOX_UNAVAILABLE"]%string) then EXIT_ENV
  else EXIT_FAIL.

Definition PENDING_DECISION : text := T "pending_decision".
Definition APPROVED : text := T "approved".
Definition REJECTED : text := T "rejected".
Definition RUNNING : text := T "running".
Definition INTERRUPTED : text := T "interrupted".
Definition DISCARDED : text := T "discarded".
Definition TERMINAL : list text := [APPROVED; REJECTED; T "exhausted"; T "failed"].

(** The provider, plan digest and retrieval trace of a record are never read
    here and are left out. *)
Record RealRepoRunRecord := MkRun {
  run_id : text;
  dest : text;
  status : text;
  branch_name : option text;
  commit_message : option text;
  changed_files : list text;
  error : option text;
  pushed : bool;
  pr_url : option text;
  acceptance_digest : option text;
  acceptance_base_head : option text;
  approved_commit : option text;
  origin_url : option text;
  created_at : text;
  updated_at : text;
}.

(** ** Assignments *)

Definition set_times (r : RealRepoRunRecord) (now : text) : RealRepoRunRecord :=
  MkRun (run_id r) (dest r) (status r) (branch_name r) (commit_message r) (changed_files r) (error r) (pushed r)
    (pr_url r) (acceptance_digest r) (acceptance_base_head r) (approved_commit r) (origin_url r)
    (if teqb (created_at r) [] then now else created_at r) now.
Definition set_status (r : RealRepoRunRecord) (s : text) : RealRepoRunRecord :=
  MkRun (run_id r) (dest r) s (branch_name r) (commit_message r) (changed_files r) (error r) (pushed r)
    (pr_url r) (acceptance_digest r) (acceptance_base_head r) (approved_commit r) (origin_url r)
    (created_at r) (updated_at r).
Definition set_interrupted (r : RealRepoRunRecord) (e : text) : RealRepoRunRecord :=
  MkRun (run_id r) (dest r) INTERRUPTED (branch_name r) (commit_message r) (changed_files r) (Some e) (pushed r)
    (pr_url r) (acceptance_digest r) (acceptance_base_head r) (approved_commit r) (origin_url r)
    (created_at r) (updated_at r).
Definition set_decided (r : RealRepoRunRecord) (s : text) (commit : option text) : RealRepoRunRecord :=
  MkRun (run_id r) (dest r) s (branch_name r) (commit_message r) (changed_files r) (error r) (pushed r)
    (pr_url r) (acceptance_digest r) (acceptance_base_head r) commit (origin_url r)
    (created_at r) (updated_at r).
Definition set_pushed (r : RealRepoRunRecord) : RealRepoRunRecord :=
  MkRun (run_id r) (dest r) (status r) (branch_name r) (commit_message r) (changed_files r) (error r) true
    (pr_url r) (acceptance_digest r) (acceptance_base_head r) (approved_commit r) (origin_url r)
    (created_at r) (updated_at r).
Definition set_pr_url (r : RealRepoRunRecord) (url : option text) : RealRepoRunRecord :=
  MkRun (run_id r) (dest r) (status r) (branch_name r) (commit_message r) (changed_files r) (error r) (pushed r)
    url (acceptance_digest r) (acceptance_base_head r) (approved_commit r) (origin_url r)
    (created_at r) (updated_at r).

(** ** The gates of [run_store.rs] *)

Definition require_pending_decision (r : RealRepoRunRecord) : result harness_error unit :=
  _ ← refuse_if (existsb (teqb (status r)) TERMINAL) err_agentic;
  refuse_if (negb (teqb (status r) PENDING_DECISION)) err_agentic.

Definition require_approved_for_push (r : RealRepoRunRecord) : result harness_error unit :=
  _ ← refuse_if (negb (teqb (status r) APPROVED)) err_agentic;
  refuse_if (pushed r) err_agentic.

Definition require_pushed_for_publish (r : RealRepoRunRecord) : result harness_error unit :=
  _ ← refuse_if (negb (teqb (status r) APPROVED)) err_agentic;
  _ ← refuse_if (negb (pushed r)) err_agentic;
  refuse_if (bool_decide (is_Some (pr_url r))) err_agentic.

Definition run_path (id' : text) : result harness_error unit := refuse_if (negb (is_lower_hex id' 32)) err_agentic.

Inductive run_act :=
| Saved (r : RealRepoRunRecord)
| Git (tool : text) (args : list text)
| GateAct (a : gate_act)
| Decided (id' decision : text)
| Closed (dest : text).

(** What a path holds: nothing, a directory, or something else. *)
Inductive dest_state := Gone | IsDir | Other.

(** The operations outside of the records. *)
Record host (X : Type) := MkHost {
  lower : text -> text;
  branch_prefix_env : text;
  load_policy : X -> result harness_error AgenticConfig;
  kill_switch : X -> text;
  attached : AgenticConfig;
  new_body_file : X -> X * result harness_error text;
  checked_gh_binary : (Z * Z * Z) -> X -> X * result harness_error text;
  process_run : list text -> Z -> X -> X * result process_error process_output;
  git : list text -> X -> X * result harness_error (option Z * text);
  credential_args : text -> X -> result harness_error (list text);
  is_absolute_dir : text -> X -> bool;
  attach : text -> X -> result harness_error unit;
  dest_at : text -> X -> dest_state;
  rmtree : text -> X -> X;
  finalize : RealRepoRunRecord -> text -> text -> bool -> X -> X * result harness_error json;
  iso_now : X -> text;
  write_ok : X -> bool;
}.
Arguments lower {X} _ _. Arguments branch_prefix_env {X} _. Arguments load_policy {X} _ _.
Arguments kill_switch {X} _ _. Arguments attached {X} _. Arguments new_body_file {X} _ _.
Arguments checked_gh_binary {X} _ _ _. Arguments process_run {X} _ _ _ _. Arguments git {X} _ _ _.
Arguments credential_args {X} _ _ _. Arguments is_absolute_dir {X} _ _ _. Arguments attach {X} _ _ _.
Arguments dest_at {X} _ _ _. Arguments rmtree {X} _ _ _. Arguments finalize {X} _ _ _ _ _ _.
Arguments iso_now {X} _ _. Arguments write_ok {X} _ _.

(** The record files ([None]: one that cannot be read), the lease files that
    exist, and those that another process holds. *)
Record World (X : Type) := MkWorld {
  disk : gmap text (option RealRepoRunRecord);
  leases : gset text;
  held : gset text;
  outside : X;
}.
Arguments MkWorld {X} _ _ _ _.
Arguments disk {X} _.
Arguments leases {X} _.
Arguments held {X} _.
Arguments outside {X} _.

Definition on_outside {X A} (f : X -> X * A) (w : World X) : World X * A :=
  let '(x, a) := f (outside w) in (MkWorld (disk w) (leases w) (held w) x, a).

Section Commands.
Context {X : Type} (h : host X).
Abbreviation M := (eff (World X) run_act harness_error).

(** ** [run_store.rs] *)

Definition save_run (r : RealRepoRunRecord) : M RealRepoRunRecord :=
  now ← asks (fun w => iso_now h (outside w));
  let r := set_times r now in
  _ ← lift (run_path (run_id r));
  call (Saved r) (fun w => if write_ok h (outside w)
                           then (MkWorld (<[run_id r := Some r]> (disk w)) (leases w) (held w) (outside w), Ok r)
                           else (w, Err err_agentic)).

Definition load_run (id' : text) : M RealRepoRunRecord :=
  _ ← lift (run_path id');
  found ← asks (fun w => disk w !! id');
  match found with Some (Some r) => mret r | _ => fail err_agentic end.

(** The lease is free again when the command ends. *)
Definition acquire_run_lease (id' : text) (create : bool) : M unit :=
  _ ← lift (run_path id');
  taken ← asks (fun w => bool_decide (id' ∈ held w) || (negb create && negb (bool_decide (id' ∈ leases w))));
  if (taken : bool) then fail err_agentic
  else update (fun w => if create then MkWorld (disk w) ({[ id' ]} ∪ leases w) (held w) (outside w) else w).

Definition INTERRUPTED_ERROR : text :=
  T "Worker ownership ended before completion. Inspect retained evidence; no operation was resumed.".

Definition reconcile_run (r : RealRepoRunRecord) : M RealRepoRunRecord :=
  if negb (teqb (status r) RUNNING) then mret r else
  lease ← catch (acquire_run_lease (run_id r) false);
  match lease with
  | Err _ => mret r
  | Ok _ =>
      r ← load_run (run_id r);
      if teqb (status r) RUNNING then save_run (set_interrupted r INTERRUPTED_ERROR) else mret r
  end.

(** ** The clone ([workspace.rs]) *)

Definition deny {A} (tool reason : text) : M A :=
  log (Event "agentic_repo_workspace_denied" [("op", JStr tool); ("reason", JStr reason); ("target", JNull)]);;
  fail err_agentic.

Definition run_git (tool : text) (args : list text) : M text :=
  out ← call (Git tool args) (on_outside (git h args));
  let '(exit_code, stdout) := out in
  if bool_decide (exit_code = Some 0) then
    log (Event "agentic_repo_workspace_git_ok" [("op", JStr tool); ("exit_code", JInt 0)]);; mret stdout
  else
    log (Event "agentic_repo_workspace_git_failed"
           [("op", JStr tool); ("exit_code", match exit_code with Some n => JInt n | None => JNull end)]);;
    fail err_agentic.

Definition eq_ignore_ascii_case (a b : text) : bool := teqb (map to_ascii_lower a) (map to_ascii_lower b).

Definition clone_origin_url : M text :=
  out ← run_git (T "origin") [T "config"; T "--get"; T "remote.origin.url"];
  let remote := trim out in
  let https := T "https://github.com/" ++ repo (attached h) in
  let ssh := T "git@github.com:" ++ repo (attached h) in
  local ← asks (fun w => is_absolute_dir h remote (outside w));
  if negb local && negb (existsb (eq_ignore_ascii_case remote) [https; https ++ T ".git"; ssh; ssh ++ T ".git"])
  then deny (T "origin") (T "origin does not match the selected repository or an absolute local remote")
  else mret remote.

Definition commit_shaped (commit : text) : bool :=
  ((byte_len commit =? 40) || (byte_len commit =? 64)) && forallb is_hex_char commit.

Definition verify_approved_source (branch commit origin : text) : M unit :=
  allowed ← lift (build_identity (branch_prefix_env h));
  if negb (branch_is_valid allowed branch) || negb (commit_shaped commit)
  then deny (T "push") (T "run lacks a valid approved commit; create and review a new run") else
  url ← clone_origin_url;
  if negb (teqb url origin) then deny (T "push") (T "origin changed since candidate creation") else
  actual ← run_git (T "approved_source") [T "rev-parse"; T "--verify"; T "refs/heads/" ++ branch];
  if negb (teqb (trim actual) commit) then deny (T "push") (T "branch differs from the approved commit") else mret tt.

Definition require_write (op reason : text) (confirm : bool) : M AgenticConfig :=
  current_repository_policy (lower h) (fun w => load_policy h (outside w)) (fun w => kill_switch h (outside w))
    (attached h) op reason confirm.

Definition push_approved (branch commit origin reason : text) (confirm : bool) : M unit :=
  _ ← require_write (T "push_branch") reason confirm;
  _ ← verify_approved_source branch commit origin;
  found ← asks (fun w => credential_args h origin (outside w));
  credential ← lift found;
  _ ← require_write (T "push_branch") reason confirm;
  _ ← run_git (T "push_branch")
        (credential ++ [T "push"; T "--"; origin; commit ++ T ":refs/heads/" ++ branch]);
  mret tt.

Definition cloned_default_branch : M text :=
  out ← run_git (T "default_branch") [T "symbolic-ref"; T "--short"; T "--quiet"; T "refs/remotes/origin/HEAD"];
  let branch := from_option id [] (strip_prefix (T "origin/") (trim out)) in
  if teqb branch [] || starts_with [c_dash] branch || existsb (fun c => is_whitespace c || is_control c) branch
  then deny (T "publish") (T "clone records no usable default branch") else mret branch.

Definition verify_published_source (branch commit origin : text) : M unit :=
  _ ← verify_approved_source branch commit origin;
  found ← asks (fun w => credential_args h origin (outside w));
  credential ← lift found;
  let reference := T "refs/heads/" ++ branch in
  remote ← run_git (T "remote_approved_source") (credential ++ [T "ls-remote"; T "--refs"; T "--"; origin; reference]);
  if negb (teqb (trim remote) (commit ++ [9] ++ reference))
  then deny (T "publish") (T "remote branch differs from the approved commit") else mret tt.

Definition attach_clone (d : text) : M unit := found ← asks (fun w => attach h d (outside w)); lift found.

Definition close (d : text) : M unit := call (Closed d) (on_outside (fun x => (rmtree h d x, Ok tt))).

(** ** The commands *)

(** The options the commands read. *)
Record Opts := MkOpts {
  o_run_id : option text;
  o_decision : option text;
  o_reason : text;
  o_confirm : bool;
  o_push : bool;
  o_publish : bool;
  o_body : result harness_error text;
}.

Definition lease_settled_run (id' : text) : M RealRepoRunRecord :=
  r ← load_run id';
  if teqb (status r) RUNNING then fail err_agentic else
  _ ← acquire_run_lease id' true;
  load_run id'.

Definition status_of (outcome : json) : text := from_option id [] (get outcome (T "status") ≫= as_str).

Definition record_rejection (branch : text) : M text :=
  log (Event "agentic_real_repo_change_decided" [("decision", JStr (T "reject")); ("branch", JStr branch)]);;
  mret REJECTED.

Definition cmd_real_repo_run_decide (o : Opts) : M Z :=
  decision ← lift (ok_or (o_decision o) err_agentic);
  if o_push o || o_publish o then fail err_write_refused else
  if negb (enabled (attached h)) then mret EXIT_OK else
  if negb (teqb decision (T "approve")) && negb (teqb decision (T "reject")) then fail err_agentic else
  id' ← lift (ok_or (o_run_id o) err_agentic);
  r ← lease_settled_run id';
  _ ← lift (require_pending_decision r);
  branch ← lift (ok_or (branch_name r) err_agentic);
  _ ← lift (ok_or (commit_message r) err_agentic);
  gone ← asks (fun w => dest_at h (dest r) (outside w));
  match teqb decision (T "reject"), gone with
  | true, Gone =>
      s ← record_rejection branch;
      _ ← save_run (set_status r s); mret EXIT_OK
  | _, _ =>
      _ ← attach_clone (dest r);
      outcome ← catch (call (Decided (run_id r) decision)
                            (on_outside (finalize h r decision (o_reason o) (o_confirm o))));
      _ ← (if teqb decision (T "reject") then close (dest r) else mret tt);
      match outcome with
      | Err e => mret (exit_code_for e)
      | Ok v =>
          _ ← save_run (set_decided r (status_of v) (get v (T "approved_commit") ≫= as_str)); mret EXIT_OK
      end
  end.

Definition attach_approved (o : Opts) (gate : RealRepoRunRecord -> result harness_error unit)
    : M (option RealRepoRunRecord) :=
  if negb (enabled (attached h)) then mret None else
  id' ← lift (ok_or (o_run_id o) err_agentic);
  r ← lease_settled_run id';
  _ ← lift (gate r);
  _ ← lift (ok_or (branch_name r) err_agentic);
  mret (Some r).

Definition push_record (r : RealRepoRunRecord) (reason : text) (confirm : bool) : M (RealRepoRunRecord * Z) :=
  branch ← lift (ok_or (branch_name r) err_agentic);
  res ← catch (push_approved branch (from_option id [] (approved_commit r)) (from_option id [] (origin_url r))
                             reason confirm);
  match res with
  | Ok _ => mret (set_pushed r, EXIT_OK)
  | Err e => r ← save_run r; mret (r, exit_code_for e)
  end.

Definition cmd_real_repo_run_push (o : Opts) : M Z :=
  found ← attach_approved o require_approved_for_push;
  match found with
  | None => mret EXIT_OK
  | Some r =>
      _ ← attach_clone (dest r);
      pushed ← push_record r (o_reason o) (o_confirm o);
      let '(r, exit_code) := pushed in
      if negb (exit_code =? EXIT_OK) then mret exit_code else
      _ ← save_run r; mret EXIT_OK
  end.

Definition INDETERMINATE : text := T "INDETERMINATE: gh pr create outcome unknown; verify on GitHub before retrying".
Definition DEFAULT_WRITE_TIMEOUT_SEC : Z := 60.

Definition pr_params (r : RealRepoRunRecord) (base body : text) : json :=
  let str o := match o with Some t => JStr t | None => JNull end in
  JObj [(T "head", str (branch_name r)); (T "base", JStr base); (T "title", str (commit_message r)); (T "body", JStr body)].

Definition create_pull_request (r : RealRepoRunRecord) (current : AgenticConfig) (reason : text) (confirm : bool)
    (body base : text) : M text :=
  plan ← plan_write (branch_prefix_env h) current (T "pr_create") reason confirm (pr_params r base body);
  execute_write (lower h) (branch_prefix_env h) GateAct (fun w => load_policy h (outside w))
    (fun w => kill_switch h (outside w)) (on_outside (new_body_file h)) (fun v => on_outside (checked_gh_binary h v))
    (fun argv t => on_outside (process_run h argv t)) (attached h) (plan_json plan) confirm DEFAULT_WRITE_TIMEOUT_SEC.

Definition publish_record (r : RealRepoRunRecord) (reason : text) (confirm : bool) (body base : text)
    : M (RealRepoRunRecord * Z) :=
  current ← require_write (T "pr_create") reason confirm;
  outcome ← catch (create_pull_request r current reason confirm body base);
  match outcome with
  | Ok url => mret (set_pr_url r (if teqb url [] then None else Some url), EXIT_OK)
  | Err e =>
      let r := if bool_decide ("indeterminate"%string ∈ marks e) then set_pr_url r (Some INDETERMINATE) else r in
      r ← save_run r; mret (r, exit_code_for e)
  end.

Definition cmd_real_repo_run_publish (o : Opts) : M Z :=
  if negb (o_confirm o) then mret EXIT_REFUSED else
  found ← attach_approved o require_pushed_for_publish;
  match found with
  | None => mret EXIT_OK
  | Some r =>
      _ ← attach_clone (dest r);
      _ ← require_write (T "pr_create") (o_reason o) true;
      body ← lift (o_body o);
      if teqb (trim body) [] || (MAX_PR_BODY_BYTES <? byte_len body) then fail err_agentic else
      _ ← verify_published_source (from_option id [] (branch_name r)) (from_option id [] (approved_commit r))
            (from_option id [] (origin_url r));
      base ← cloned_default_branch;
      published ← publish_record r (o_reason o) true body base;
      let '(r, exit_code) := published in
      if negb (exit_code =? EXIT_OK) then mret exit_code else
      _ ← save_run r; mret EXIT_OK
  end.

Definition cmd_real_repo_run_discard (o : Opts) : M Z :=
  if negb (enabled (attached h)) then mret EXIT_OK else
  id' ← lift (ok_or (o_run_id o) err_agentic);
  r ← load_run id';
  r ← reconcile_run r;
  if teqb (status r) RUNNING then fail err_agentic else
  r ← lease_settled_run id';
  if teqb (status r) PENDING_DECISION then mret EXIT_FAIL else
  at_ ← asks (fun w => dest_at h (dest r) (outside w));
  _ ← (match at_ with IsDir => _ ← attach_clone (dest r); close (dest r) | _ => mret tt end);
  _ ← save_run (set_status r DISCARDED); mret EXIT_OK.
End Commands.

(** ** Lemmas *)

Section Lemmas.
Context {X : Type} (h : host X).
Abbreviation M := (eff (World X) run_act harness_error).

Lemma on_outside_disk {A} (f : X -> X * A) w : disk (fst (on_outside f w)) = disk w.
Proof. unfold on_outside. by destruct (f (outside w)). Qed.

Lemma quiet_policy_recheck op reason confirm : quiet (require_write h op reason confirm).
Proof. unfold require_write. apply quiet_policy. Qed.
#[local] Hint Resolve quiet_policy_recheck on_outside_disk : harness.

Lemma quiet_load_run id' : quiet (load_run id' : M _).
Proof. unfold load_run. quiet. Qed.
Lemma quiet_attach_clone d : quiet (attach_clone h d).
Proof. unfold attach_clone. quiet. Qed.
Lemma quiet_deny {A} tool reason : quiet (deny tool reason : M A).
Proof. unfold deny. quiet. Qed.
#[local] Hint Resolve quiet_load_run quiet_attach_clone quiet_deny : harness.

Lemma keeps_run_git tool args : keeps disk (run_git h tool args).
Proof. unfold run_git. keeps; intros; apply on_outside_disk. Qed.
#[local] Hint Resolve keeps_run_git : harness.

Lemma keeps_acquire id' create : keeps disk (acquire_run_lease id' create : M _).
Proof. unfold acquire_run_lease. keeps. intros w. by destruct create. Qed.
#[local] Hint Resolve keeps_acquire : harness.

Lemma keeps_lease_settled id' : keeps disk (lease_settled_run id' : M _).
Proof. unfold lease_settled_run. keeps. Qed.

Lemma keeps_verify_approved branch commit origin : keeps disk (verify_approved_source h branch commit origin).
Proof. unfold verify_approved_source, clone_origin_url. keeps. Qed.
#[local] Hint Resolve keeps_lease_settled keeps_verify_approved : harness.

Lemma keeps_push_approved branch commit origin reason confirm :
  keeps disk (push_approved h branch commit origin reason confirm).
Proof. unfold push_approved. keeps. Qed.

Lemma keeps_verify_published branch commit origin : keeps disk (verify_published_source h branch commit origin).
Proof. unfold verify_published_source. keeps. Qed.

Lemma keeps_default_branch : keeps disk (cloned_default_branch h).
Proof. unfold cloned_default_branch. keeps. Qed.

Lemma keeps_close d : keeps disk (close h d).
Proof. unfold close. keeps. intros. apply on_outside_disk. Qed.
#[local] Hint Resolve keeps_push_approved keeps_verify_published keeps_default_branch keeps_close : harness.

Lemma keeps_execute_write plan confirm timeout :
  keeps disk (execute_write (lower h) (branch_prefix_env h) GateAct (fun w => load_policy h (outside w))
    (fun w => kill_switch h (outside w)) (on_outside (new_body_file h)) (fun v => on_outside (checked_gh_binary h v))
    (fun argv t => on_outside (process_run h argv t)) (attached h) plan confirm timeout).
Proof.
  unfold execute_write. apply keeps_bind; [apply keeps_quiet, quiet_admit_write|].
  intros [[[[cfg op] reason] argv] body]. apply keeps_bind.
  { intros s. unfold write_body_file. pose proof (on_outside_disk (new_body_file h) (world s)) as Hd.
    destruct (on_outside _ _) as [w [path|e]]; exact Hd. }
  intros path. destruct (body_flag_index argv) as [i|]; [|apply keeps_quiet; auto with harness].
  apply keeps_bind.
  { intros s. pose proof (on_outside_disk (checked_gh_binary h (gh_min_version cfg)) (world s)) as Hd.
    destruct (on_outside _ _) as [w r]. exact Hd. }
  intros binary. unfold run_write. keeps. intros w. unfold act_ok. simpl. apply on_outside_disk.
Qed.

Lemma keeps_create_pull_request r current reason confirm body base :
  keeps disk (create_pull_request h r current reason confirm body base).
Proof.
  unfold create_pull_request. apply keeps_bind; [|intro; apply keeps_execute_write].
  unfold plan_write. apply keeps_quiet. apply quiet_bind; [apply quiet_require_gates|intro]. quiet.
Qed.
#[local] Hint Resolve keeps_create_pull_request : harness.

(** A part of a command that keeps the records ran before [s1]. *)
Lemma keeps_at {A} (m : M A) s s1 r : keeps disk m -> m s = (s1, r) -> disk (world s1) = disk (world s).
Proof. apply keeps_result. Qed.

Lemma save_run_spec r s s' res :
  save_run h r s = (s', res) ->
  (disk (world s') = disk (world s) /\ exists e, res = Err e)
  \/ exists now, res = Ok (set_times r now) /\ disk (world s') = <[run_id r := Some (set_times r now)]> (disk (world s)).
Proof.
  unfold save_run. unfold mbind at 1, eff_bind at 1, asks at 1. set (now := iso_now h _). intros H.
  unfold mbind, eff_bind, lift in H. destruct (run_path _) as [u|e]; [|injection H as <- <-; eauto].
  unfold call in H. destruct (write_ok h _); injection H as <- <-; simpl; eauto.
Qed.

Lemma load_run_Ok id' s s' r :
  (load_run id' : M _) s = (s', Ok r) -> s' = s /\ disk (world s) !! id' = Some (Some r).
Proof.
  unfold load_run, mbind, eff_bind, lift, asks. destruct (run_path id'); [|done]. intros H.
  destruct (disk (world s) !! id') as [[r0|]|] eqn:E; [|done..]. by injection H as <- <-.
Qed.

Lemma acquire_Ok id' create s s' u :
  (acquire_run_lease id' create : M _) s = (s', Ok u) ->
  id' ∉ held (world s) /\ disk (world s') = disk (world s) /\ trace s' = trace s /\ outside (world s') = outside (world s).
Proof.
  unfold acquire_run_lease, mbind, eff_bind, lift, asks, update. destruct (run_path id'); [|done].
  destruct (bool_decide (id' ∈ held (world s))) eqn:E; simpl; [done|]. apply bool_decide_eq_false in E.
  destruct (negb create && _); [done|]. intros [= <- <-]. split; [done|]. by destruct create.
Qed.

Lemma lease_settled_Ok id' s s' r :
  (lease_settled_run id' : M _) s = (s', Ok r) ->
  disk (world s) !! id' = Some (Some r) /\ status r <> RUNNING /\ id' ∉ held (world s)
  /\ disk (world s') = disk (world s) /\ trace s' = trace s /\ outside (world s') = outside (world s).
Proof.
  unfold lease_settled_run. intros H. eff_step H. apply load_run_Ok in H0 as [-> Hd].
  destruct (teqb (status a) RUNNING) eqn:Er; [discriminate H|]. apply teqb_neq in Er.
  eff_step H. apply acquire_Ok in H0 as (Hh & Hdisk & Ht & Ho). apply load_run_Ok in H as [-> Hd'].
  rewrite Hdisk, Hd in Hd'. injection Hd' as <-. done.
Qed.

(** ** The steps of a record *)

(** One save of a record that was [r]. *)
Inductive edge (r : RealRepoRunRecord) : RealRepoRunRecord -> Prop :=
| e_touched now : edge r (set_times r now)
| e_interrupted e now : status r = RUNNING -> edge r (set_times (set_interrupted r e) now)
| e_approved commit now :
    status r = PENDING_DECISION -> edge r (set_times (set_decided r APPROVED (Some commit)) now)
| e_rejected now :
    status r = PENDING_DECISION -> edge r (set_times (set_decided r REJECTED None) now)
| e_rejected_gone now : status r = PENDING_DECISION -> edge r (set_times (set_status r REJECTED) now)
| e_pushed now : status r = APPROVED -> pushed r = false -> edge r (set_times (set_pushed r) now)
| e_published url now :
    status r = APPROVED -> pushed r = true -> pr_url r = None -> edge r (set_times (set_pr_url r url) now)
| e_discarded now :
    status r <> RUNNING -> status r <> PENDING_DECISION -> edge r (set_times (set_status r DISCARDED) now).

(** Record files hold records of their own run. *)
Definition keyed (d : gmap text (option RealRepoRunRecord)) : Prop := forall k r, d !! k = Some (Some r) -> run_id r = k.

(** Every record is where it was, or went along edges. *)
Definition moved (d d' : gmap text (option RealRepoRunRecord)) : Prop :=
  keyed d' /\ forall k, d' !! k = d !! k
    \/ exists r r', d !! k = Some (Some r) /\ d' !! k = Some (Some r') /\ rtc edge r r'.

Lemma edge_run_id r r' : edge r r' -> run_id r' = run_id r.
Proof. by intros []. Qed.

Lemma moved_refl d : keyed d -> moved d d.
Proof. intros H. split; [done|]. by left. Qed.

Lemma moved_trans d1 d2 d3 : moved d1 d2 -> moved d2 d3 -> moved d1 d3.
Proof.
  intros [_ H1] [Hk H2]. split; [done|]. intros k. specialize (H1 k). specialize (H2 k).
  destruct H2 as [->|(r2 & r3 & Hr2 & Hr3 & He2)]; [done|].
  destruct H1 as [H1|(r1 & r2' & Hr1 & Hr2' & He1)].
  - right. exists r2, r3. rewrite <- H1. done.
  - rewrite Hr2 in Hr2'. injection Hr2' as <-. right. exists r1, r3. split; [done|]. split; [done|]. by etrans.
Qed.

Lemma moved_keyed d d' : moved d d' -> keyed d'.
Proof. by intros [? _]. Qed.

Lemma moved_save r r' s s' res :
  keyed (disk (world s)) -> disk (world s) !! run_id r = Some (Some r) -> run_id r' = run_id r ->
  (forall now, edge r (set_times r' now)) ->
  save_run h r' s = (s', res) -> moved (disk (world s)) (disk (world s')).
Proof.
  intros Hk Hr Hid He H. apply save_run_spec in H as [[-> _]|(now & _ & ->)]; [by apply moved_refl|].
  rewrite Hid. split.
  - intros k r0. destruct (decide (k = run_id r)) as [->|Hne].
    + rewrite lookup_insert_eq. intros [= <-]. exact Hid.
    + rewrite lookup_insert_ne by done. apply Hk.
  - intros k. destruct (decide (k = run_id r)) as [->|Hne].
    + right. exists r, (set_times r' now). rewrite lookup_insert_eq. split; [done|]. split; [done|]. apply rtc_once, He.
    + left. by rewrite lookup_insert_ne.
Qed.

(** ** The commands move records along edges *)

(** [m], started where [P] holds of the records, moves them along edges. *)
Definition moves_from {A : Type} (P : gmap text (option RealRepoRunRecord) -> Prop) (m : M A) : Prop :=
  forall s, keyed (disk (world s)) -> P (disk (world s)) -> moved (disk (world s)) (disk (world (fst (m s)))).

Definition has (r : RealRepoRunRecord) (d : gmap text (option RealRepoRunRecord)) : Prop := d !! run_id r = Some (Some r).

Lemma mf_keeps {A : Type} P (m : M A) : keeps disk m -> moves_from P m.
Proof. intros H s Hk _. rewrite H. by apply moved_refl. Qed.

Lemma mf_bind {A B : Type} P (m : M A) (f : A -> M B) : keeps disk m -> (forall a, moves_from P (f a)) -> moves_from P (m ≫= f).
Proof.
  intros Hm Hf s Hk HP. unfold mbind, eff_bind. specialize (Hm s). destruct (m s) as [s1 [a|e]]; simpl in Hm; simpl.
  - rewrite <- Hm. apply Hf; by rewrite Hm.
  - rewrite Hm. by apply moved_refl.
Qed.

Lemma mf_lift {A B : Type} P (r : result harness_error A) (f : A -> M B) :
  (forall a, r = Ok a -> moves_from P (f a)) -> moves_from P (lift r ≫= f).
Proof.
  intros Hf s Hk HP. unfold mbind, eff_bind, lift. destruct r as [a|e]; [by apply Hf | by apply moved_refl].
Qed.

Lemma mf_save {B : Type} r r' (f : RealRepoRunRecord -> M B) :
  run_id r' = run_id r -> (forall now, edge r (set_times r' now)) -> (forall a, keeps disk (f a)) ->
  moves_from (has r) (save_run h r' ≫= f).
Proof.
  intros Hid He Hf s Hk Hr. unfold mbind, eff_bind. destruct (save_run h r' s) as [s1 res] eqn:E.
  pose proof (moved_save r r' s s1 res Hk Hr Hid He E) as Hm. destruct res as [a|e]; [|exact Hm].
  by rewrite (Hf a s1).
Qed.

Lemma mf_settled {B : Type} P id' (f : RealRepoRunRecord -> M B) :
  (forall r, status r <> RUNNING -> moves_from (has r) (f r)) -> moves_from P (lease_settled_run id' ≫= f).
Proof.
  intros Hf s Hk _. unfold mbind, eff_bind. destruct (lease_settled_run id' s) as [s1 res] eqn:E.
  destruct res as [r|e].
  - apply lease_settled_Ok in E as (Hd & Hr & _ & Hs & _). rewrite <- Hs. apply Hf; [done | by rewrite Hs |].
    unfold has. rewrite Hs. by rewrite (Hk _ _ Hd).
  - simpl. pose proof (keeps_lease_settled id' s) as Hkp. rewrite E in Hkp. simpl in Hkp. rewrite Hkp. by apply moved_refl.
Qed.

Lemma mf_then_settled {A B : Type} (m : M A) (f : A -> M B) :
  moves_from (fun _ => True) m -> (forall a, moves_from (fun _ => True) (f a)) -> moves_from (fun _ => True) (m ≫= f).
Proof.
  intros Hm Hf s Hk _. unfold mbind, eff_bind. specialize (Hm s Hk I). destruct (m s) as [s1 [a|e]]; simpl in Hm; [|exact Hm].
  eapply moved_trans; [exact Hm|]. apply Hf; [by eapply moved_keyed | done].
Qed.

Lemma mf_ret {A B : Type} P (a : A) (f : A -> M B) : moves_from P (f a) -> moves_from P (mret a ≫= f).
Proof. intros H s. apply H. Qed.

Lemma mf_assoc {A B C : Type} P (m : M A) (f : A -> M B) (g : B -> M C) :
  moves_from P (m ≫= (fun a => f a ≫= g)) -> moves_from P ((m ≫= f) ≫= g).
Proof.
  intros H s Hk HP. specialize (H s Hk HP). unfold mbind, eff_bind in *. by destruct (m s) as [s1 [a|e]].
Qed.

Lemma mf_rejection {B : Type} P branch (f : text -> M B) :
  moves_from P (f REJECTED) -> moves_from P (record_rejection branch ≫= f).
Proof. intros H s Hk HP. exact (H (St (world s) _) Hk HP). Qed.

(** What finalising a decision answers. *)
Definition honest (decision : text) (outcome : json) : Prop :=
  (decision = T "approve" /\ status_of outcome = APPROVED
   /\ exists commit, get outcome (T "approved_commit") ≫= as_str = Some commit)
  \/ (decision = T "reject" /\ status_of outcome = REJECTED /\ get outcome (T "approved_commit") ≫= as_str = None).
End Lemmas.

(** The promise of [finalize_real_repo_change] to the decide command. *)
Class HonestFinalize {X} (h : host X) : Prop :=
  honest_finalize : forall r decision reason confirm x x' outcome,
    finalize h r decision reason confirm x = (x', Ok outcome) -> honest decision outcome.

Section Moves.
Context {X : Type} (h : host X) `{!HonestFinalize h}.
Abbreviation M := (eff (World X) run_act harness_error).

#[local] Hint Resolve quiet_policy_recheck on_outside_disk quiet_load_run quiet_attach_clone quiet_deny keeps_run_git
  keeps_acquire keeps_lease_settled keeps_verify_approved keeps_push_approved keeps_verify_published
  keeps_default_branch keeps_close keeps_create_pull_request : harness.

Lemma mf_finalize {B : Type} P r decision reason confirm (f : result harness_error json -> M B) :
  (forall e, moves_from P (f (Err e))) -> (forall v, honest decision v -> moves_from P (f (Ok v))) ->
  moves_from P (catch (call (Decided (run_id r) decision) (on_outside (finalize h r decision reason confirm))) ≫= f).
Proof.
  intros He Hv s Hk HP. unfold mbind, eff_bind, catch, call, on_outside.
  destruct (finalize h r decision reason confirm (outside (world s))) as [x [v|e]] eqn:E.
  - apply honest_finalize in E. exact (Hv v E (St (MkWorld (disk (world s)) (leases (world s)) (held (world s)) x) _) Hk HP).
  - exact (He e (St (MkWorld (disk (world s)) (leases (world s)) (held (world s)) x) _) Hk HP).
Qed.

Ltac kept := first [exact (fun _ => eq_refl) | solve [keeps; intros; try apply on_outside_disk] ].

Lemma require_pending_inv r u : require_pending_decision r = Ok u -> status r = PENDING_DECISION.
Proof.
  unfold require_pending_decision. intros H. apply bind_Ok_inv in H as (? & _ & H%refuse_if_Ok).
  apply negb_false_iff in H. by apply teqb_eq.
Qed.
Lemma require_approved_inv r u : require_approved_for_push r = Ok u -> status r = APPROVED /\ pushed r = false.
Proof.
  unfold require_approved_for_push. intros H. apply bind_Ok_inv in H as (? & H1%refuse_if_Ok & H2%refuse_if_Ok).
  apply negb_false_iff in H1. by apply teqb_eq in H1.
Qed.
Lemma require_pushed_inv r u :
  require_pushed_for_publish r = Ok u -> status r = APPROVED /\ pushed r = true /\ pr_url r = None.
Proof.
  unfold require_pushed_for_publish. intros H. apply bind_Ok_inv in H as (? & H1%refuse_if_Ok & H).
  apply bind_Ok_inv in H as (? & H2%refuse_if_Ok & H3%refuse_if_Ok).
  apply negb_false_iff, teqb_eq in H1. apply negb_false_iff in H2. apply bool_decide_eq_false in H3.
  split; [done|]. split; [done|]. by apply eq_None_not_Some.
Qed.

Lemma decide_moves o : moves_from (fun _ => True) (cmd_real_repo_run_decide h o).
Proof.
  unfold cmd_real_repo_run_decide. apply mf_lift. intros decision Hdec.
  destruct (o_push o || o_publish o); [apply mf_keeps; kept|].
  destruct (negb (enabled (attached h))); [apply mf_keeps; kept|].
  destruct (negb _ && negb _); [apply mf_keeps; kept|].
  apply mf_lift. intros id' _. apply mf_settled. intros r _. apply mf_lift. intros u Hp%require_pending_inv.
  apply mf_lift. intros branch _. apply mf_lift. intros message _. apply mf_bind; [kept|]. intros gone.
  assert (Hfinal : moves_from (has r)
    (_ ← attach_clone h (dest r);
     outcome ← catch (call (Decided (run_id r) decision)
                           (on_outside (finalize h r decision (o_reason o) (o_confirm o))));
     _ ← (if teqb decision (T "reject") then close h (dest r) else mret tt);
     match outcome with
     | Err e => mret (exit_code_for e)
     | Ok v => _ ← save_run h (set_decided r (status_of v) (get v (T "approved_commit") ≫= as_str)); mret EXIT_OK
     end)).
  { apply mf_bind; [kept|]. intros _. apply mf_finalize.
    - intros e. apply mf_bind; [destruct (teqb _ _); kept|]. intros _. apply mf_keeps. kept.
    - intros v Hv. apply mf_bind; [destruct (teqb _ _); kept|]. intros _. apply mf_save; [done | | intros; kept].
      intros now. destruct Hv as [(_ & -> & commit & ->)|(_ & -> & ->)]; [by apply e_approved | by apply e_rejected]. }
  destruct (teqb decision (T "reject")) eqn:Er; [|exact Hfinal]. destruct gone; [|exact Hfinal..].
  apply mf_rejection. apply mf_save; [done | | intros; kept]. intros now. by apply e_rejected_gone.
Qed.

Lemma exit_code_for_not_ok e : (exit_code_for e =? EXIT_OK) = false.
Proof. unfold exit_code_for. by repeat case_bool_decide. Qed.

Lemma push_moves o : moves_from (fun _ => True) (cmd_real_repo_run_push h o).
Proof.
  unfold cmd_real_repo_run_push, attach_approved.
  destruct (negb (enabled (attached h))); [apply mf_keeps; kept|].
  apply mf_assoc, mf_lift. intros id' _. apply mf_assoc, mf_settled. intros r _.
  apply mf_assoc, mf_lift. intros u [Hs Hp]%require_approved_inv. apply mf_assoc, mf_lift. intros branch _.
  apply mf_ret. cbv beta iota. apply mf_bind; [kept|]. intros _. unfold push_record.
  apply mf_assoc, mf_lift. intros b _. apply mf_assoc, mf_bind; [kept|]. intros [v|e].
  - apply mf_ret. cbv beta iota. change (negb (EXIT_OK =? EXIT_OK)) with false. cbv iota.
    apply mf_save; [done | | intros; kept]. intros now. by apply e_pushed.
  - apply mf_assoc, mf_save; [done | apply e_touched |]. intros r' s. unfold mbind, eff_bind, mret, eff_ret.
    by rewrite exit_code_for_not_ok.
Qed.

Lemma publish_moves o : moves_from (fun _ => True) (cmd_real_repo_run_publish h o).
Proof.
  unfold cmd_real_repo_run_publish, attach_approved.
  destruct (negb (o_confirm o)); [apply mf_keeps; kept|].
  destruct (negb (enabled (attached h))); [apply mf_keeps; kept|].
  apply mf_assoc, mf_lift. intros id' _. apply mf_assoc, mf_settled. intros r _.
  apply mf_assoc, mf_lift. intros u (Hs & Hp & Hu)%require_pushed_inv. apply mf_assoc, mf_lift. intros branch _.
  apply mf_ret. cbv beta iota. apply mf_bind; [kept|]. intros _. apply mf_bind; [kept|]. intros _.
  apply mf_lift. intros body _. destruct (_ || _); [apply mf_keeps; kept|].
  apply mf_bind; [kept|]. intros _. apply mf_bind; [kept|]. intros base. unfold publish_record.
  apply mf_assoc, mf_bind; [kept|]. intros current. apply mf_assoc, mf_bind; [kept|]. intros [url|e].
  - apply mf_ret. cbv beta iota. change (negb (EXIT_OK =? EXIT_OK)) with false. cbv iota.
    apply mf_save; [done | | intros; kept]. intros now. by apply e_published.
  - cbv zeta. apply mf_assoc. apply mf_save; [by destruct (bool_decide _) | |].
    + intros now. destruct (bool_decide _); [by apply e_published | apply e_touched].
    + intros r' s. unfold mbind, eff_bind, mret, eff_ret. by rewrite exit_code_for_not_ok.
Qed.

Lemma reconcile_moves r : moves_from (fun _ => True) (reconcile_run h r).
Proof.
  unfold reconcile_run. destruct (negb _); [apply mf_keeps; kept|]. apply mf_bind; [kept|].
  intros [u|e]; [|apply mf_keeps; kept]. intros s Hk _. unfold mbind, eff_bind.
  destruct (load_run (run_id r) s) as [s1 [r1|e]] eqn:E.
  - apply load_run_Ok in E as [-> Hd]. destruct (teqb (status r1) RUNNING) eqn:Er; [|by apply moved_refl].
    apply teqb_eq in Er. destruct (save_run h _ s) as [s2 res] eqn:Es. simpl.
    refine (moved_save h r1 (set_interrupted r1 INTERRUPTED_ERROR) s s2 res Hk _ eq_refl _ Es); [by rewrite (Hk _ _ Hd) | intros now; by apply e_interrupted].
  - pose proof (keeps_quiet disk _ (quiet_load_run (run_id r)) s) as Hkp. rewrite E in Hkp. simpl in *. rewrite Hkp.
    by apply moved_refl.
Qed.

Lemma discard_moves o : moves_from (fun _ => True) (cmd_real_repo_run_discard h o).
Proof.
  unfold cmd_real_repo_run_discard. destruct (negb (enabled (attached h))); [apply mf_keeps; kept|].
  apply mf_lift. intros id' _. apply mf_bind; [kept|]. intros r0.
  apply mf_then_settled; [by apply reconcile_moves|]. intros r1.
  destruct (teqb (status r1) RUNNING); [apply mf_keeps; kept|]. apply mf_settled. intros r Hr.
  destruct (teqb (status r) PENDING_DECISION) eqn:Ep; [apply mf_keeps; kept|]. apply teqb_neq in Ep.
  apply mf_bind; [kept|]. intros at_. apply mf_bind; [destruct at_; kept|]. intros _.
  apply mf_save; [done | | intros; kept]. intros now. by apply e_discarded.
Qed.

(** ** Sequences of commands *)

Inductive command := Decide (o : Opts) | Push (o : Opts) | Publish (o : Opts) | Discard (o : Opts) | Status (r : RealRepoRunRecord).

(** [Status] stands for the reconciliation that listing and showing runs do. *)
Definition run_command (s : st (World X) run_act) (c : command) : st (World X) run_act :=
  match c with
  | Decide o => fst (cmd_real_repo_run_decide h o s)
  | Push o => fst (cmd_real_repo_run_push h o s)
  | Publish o => fst (cmd_real_repo_run_publish h o s)
  | Discard o => fst (cmd_real_repo_run_discard h o s)
  | Status r => fst (reconcile_run h r s)
  end.

Lemma command_moves c s : keyed (disk (world s)) -> moved (disk (world s)) (disk (world (run_command s c))).
Proof.
  intros Hk. destruct c; simpl;
    [apply decide_moves | apply push_moves | apply publish_moves | apply discard_moves | apply reconcile_moves]; done.
Qed.

Lemma commands_move cs s : keyed (disk (world s)) -> moved (disk (world s)) (disk (world (foldl run_command s cs))).
Proof.
  revert s. induction cs as [|c cs IH]; intros s Hk; simpl; [by apply moved_refl|].
  pose proof (command_moves c s Hk) as Hm. eapply moved_trans; [exact Hm|]. apply IH. by eapply moved_keyed.
Qed.

(** What a record says about the outside. *)
Record run_sound (r : RealRepoRunRecord) : Prop := {
  sound_approved : status r = APPROVED -> is_Some (approved_commit r);
  sound_pushed : pushed r = true -> is_Some (approved_commit r) /\ (status r = APPROVED \/ status r = DISCARDED);
  sound_published : is_Some (pr_url r) -> pushed r = true;
}.

Lemma edge_sound r r' : edge r r' -> run_sound r -> run_sound r'.
Proof.
  intros He [H1 H2 H3]. destruct He as [now|e now Hs|commit now Hs|now Hs|now Hs|now Hs Hp|url now Hs Hp Hu|now Hs Hs'];
    split; simpl; try done; try (intros Hp'; destruct (H2 Hp') as [_ [H|H]]; rewrite Hs in H; discriminate H).
  - intros _. split; [by apply H1 | by left].
  - intros Hp. split; [by apply H2 | by right].
Qed.

Lemma edges_sound r r' : rtc edge r r' -> run_sound r -> run_sound r'.
Proof. induction 1 as [|r r1 r' He _ IH]; [done|]. intros H. apply IH. by eapply edge_sound. Qed.
End Moves.

(** C3. The life of a run.  Whatever decide, push, publish, discard and
    status commands are given, in whatever order and with whatever outcomes of
    git, of the writes and of the saves, every run record stays under its own
    identifier, no record appears or disappears, and each one changes only
    along the lifecycle: it is interrupted only when it was running, approved
    or rejected only when it was pending, marked as pushed only when it was
    approved and not yet pushed, given a pull request only when it was pushed
    and had none, and discarded only when it was neither running nor pending.
    Hence an approved record names its commit, a pushed one was approved, and
    one with a pull request was pushed. *)
Theorem run_lifecycle {X : Type} (h : host X) (Hf : HonestFinalize h) (s : st (World X) run_act) (cs : list command) :
  keyed (disk (world s)) -> (forall k r, disk (world s) !! k = Some (Some r) -> run_sound r) ->
  let d := disk (world (foldl (run_command h) s cs)) in
  keyed d
  /\ (forall k, d !! k = disk (world s) !! k
        \/ exists r r', disk (world s) !! k = Some (Some r) /\ d !! k = Some (Some r') /\ rtc edge r r')
  /\ (forall k r, d !! k = Some (Some r) -> run_sound r).
Proof.
  intros Hk Hs d. destruct (commands_move h cs s Hk) as [Hk' Hm]. split; [done|]. split; [done|].
  intros k r' Hr'. destruct (Hm k) as [He|(r & r1 & Hr & Hr1 & He)].
  - apply (Hs k). by rewrite <- He.
  - unfold d in Hr'. rewrite Hr1 in Hr'. injection Hr' as <-. eapply edges_sound; [exact He | by eapply Hs].
Qed.

(** ** Pushes *)

Section Pushes.
Context {X : Type} (h : host X).
Abbreviation M := (eff (World X) run_act harness_error).

Definition no_push (e : effect run_act) : Prop :=
  match e with Did (Git tool _) => tool <> T "push_branch" | _ => True end.

#[local] Hint Resolve quiet_policy_recheck quiet_load_run quiet_attach_clone quiet_deny : harness.

Lemma quiet_no_push {A : Type} (m : M A) : quiet m -> emits no_push m.
Proof. by apply emits_quiet. Qed.

Lemma emits_run_git tool args : tool <> T "push_branch" -> emits no_push (run_git h tool args).
Proof. intros H. unfold run_git. by emits. Qed.

Lemma emits_verify_approved branch commit origin : emits no_push (verify_approved_source h branch commit origin).
Proof. unfold verify_approved_source, clone_origin_url, run_git. by emits. Qed.

Lemma emits_lease_settled id' : emits no_push (lease_settled_run id' : M _).
Proof. unfold lease_settled_run, acquire_run_lease. by emits. Qed.

Lemma emits_save_run r : emits no_push (save_run h r).
Proof. unfold save_run. by emits. Qed.

Lemma run_git_Ok tool args s s' out :
  run_git h tool args s = (s', Ok out) -> git h args (outside (world s)) = (outside (world s'), Ok (Some 0, out)).
Proof.
  unfold run_git. intros H. eff_step H. unfold call, on_outside in H0.
  destruct (git h args (outside (world s))) as [x r]. injection H0 as <- ->. destruct a as [c o].
  case_bool_decide as Hc; [|discriminate H]. injection H as <- <-. simpl. by rewrite Hc.
Qed.

Lemma run_git_trace tool args s s' r :
  run_git h tool args s = (s', r) ->
  exists after, trace s' = trace s ++ Did (Git tool args) :: after /\ only_audits after.
Proof.
  unfold run_git. intros H. apply eff_bind_inv in H as [(e & H & _)|(a & s1 & H & Hrest)]; unfold call in H;
    destruct (on_outside (git h args) (world s)) as [w r0]; injection H as <- _.
  - exists []. split; [done | constructor].
  - destruct a as [c out]. apply quiet_result in Hrest as (_ & l & Hl & Ha); [|quiet].
    exists l. rewrite Hl. simpl. by rewrite <- app_assoc.
Qed.

Lemma emits_last_save r c :
  emits no_push (if negb (c =? EXIT_OK) then mret c else _ ← save_run h r; mret EXIT_OK).
Proof. unfold save_run. by emits. Qed.

Lemma emits_attach_approved o gate : emits no_push (attach_approved h o gate).
Proof. unfold attach_approved, lease_settled_run, acquire_run_lease. by emits. Qed.

Lemma attach_approved_Ok o gate s s' r :
  attach_approved h o gate s = (s', Ok (Some r)) ->
  exists id' branch, o_run_id o = Some id' /\ id' ∉ held (world s) /\ disk (world s) !! id' = Some (Some r)
    /\ (exists u, gate r = Ok u) /\ branch_name r = Some branch.
Proof.
  unfold attach_approved. destruct (negb _); [done|]. intros H. eff_step H. unfold lift in H0. injection H0 as <- Hid%ok_or_Ok.
  eff_step H. apply lease_settled_Ok in H0 as (Hd & _ & Hh & _). eff_step H. unfold lift in H0. injection H0 as <- Hg.
  eff_step H. unfold lift in H0. injection H0 as <- Hb%ok_or_Ok. injection H as _ <-. eauto 8.
Qed.

Lemma verify_approved_Ok branch commit origin s s' u :
  verify_approved_source h branch commit origin s = (s', Ok u) ->
  commit_shaped commit = true
  /\ (exists allowed, build_identity (branch_prefix_env h) = Ok allowed /\ branch_is_valid allowed branch = true)
  /\ exists x out, git h [T "rev-parse"; T "--verify"; T "refs/heads/" ++ branch] x = (outside (world s'), Ok (Some 0, out))
                   /\ trim out = commit.
Proof.
  unfold verify_approved_source. intros H. eff_step H. unfold lift in H0. injection H0 as <- Hb.
  destruct (_ || _) eqn:Ev; [discriminate H|]. apply orb_false_iff in Ev as [Ev1 Ev2].
  apply negb_false_iff in Ev1, Ev2. eff_step H. destruct (negb (teqb a0 origin)); [discriminate H|].
  eff_step H. apply run_git_Ok in H1. destruct (negb (teqb (trim a1) commit)) eqn:Et; [discriminate H|].
  apply negb_false_iff, teqb_eq in Et. injection H as <-. split; [done|]. split; [by exists a|]. by exists (outside (world s0)), a1.
Qed.

(** A push of the reviewed commit, and what was checked before it. *)
Definition reviewed_push (branch commit origin reason : text) (confirm : bool) (args : list text) : Prop :=
  commit_shaped commit = true /\ is_visibly_blank reason = false /\ confirm = true
  /\ (exists allowed, build_identity (branch_prefix_env h) = Ok allowed /\ branch_is_valid allowed branch = true)
  /\ (exists x x' out, git h [T "rev-parse"; T "--verify"; T "refs/heads/" ++ branch] x = (x', Ok (Some 0, out))
                       /\ trim out = commit)
  /\ (exists x cfg, load_policy h x = Ok cfg /\ allow_git_write_tools (deepagent cfg) = true
                    /\ repo cfg = repo (attached h))
  /\ exists credential, args = credential ++ [T "push"; T "--"; origin; commit ++ T ":refs/heads/" ++ branch].

Lemma push_approved_trace branch commit origin reason confirm s s' r :
  push_approved h branch commit origin reason confirm s = (s', r) ->
  exists l, trace s' = trace s ++ l
    /\ (Forall no_push l
        \/ exists before args after, l = before ++ Did (Git (T "push_branch") args) :: after
             /\ Forall no_push before /\ Forall no_push after
             /\ reviewed_push branch commit origin reason confirm args).
Proof.
  unfold push_approved. intros H. eff_step H.
  { destruct (emits_result no_push _ _ _ _ (quiet_no_push _ (quiet_policy_recheck h _ _ _)) H0) as (l & ? & ?).
    exists l. auto. }
  apply policy_Ok in H0 as (-> & _ & _). eff_step H.
  { destruct (emits_result no_push _ _ _ _ (emits_verify_approved _ _ _) H0) as (l & ? & ?). exists l. auto. }
  destruct (emits_result no_push _ _ _ _ (emits_verify_approved _ _ _) H0) as (l1 & Hl1 & Hn1).
  apply verify_approved_Ok in H0 as (Hc & Hb & x & out & Hg & Ho).
  eff_step H; [discriminate H0|]. unfold asks in H0. injection H0 as <- <-. eff_step H.
  { unfold lift in H0. simplify_eq. exists l1. auto. }
  unfold lift in H0. simplify_eq. eff_step H.
  { destruct (emits_result no_push _ _ _ _ (quiet_no_push _ (quiet_policy_recheck h _ _ _)) H0) as (l & Hl & ?).
    exists (l1 ++ l). rewrite Hl, Hl1, app_assoc. split; [done|]. left. by apply Forall_app. }
  apply policy_Ok in H0 as (-> & Hload & Hi & _ & _ & Hw & Ht & _).
  set (args := _ ++ [_; _; _; _]) in H.
  assert (Hrun : exists after, trace s' = trace s1 ++ Did (Git (T "push_branch") args) :: after /\ only_audits after).
  { apply eff_bind_inv in H as [(e & H & _)|(o & s2 & H & Hret)]; [|injection Hret as <- _]; by apply run_git_trace in H. }
  destruct Hrun as (after & Hl & Ha). exists (l1 ++ Did (Git (T "push_branch") args) :: after).
  rewrite Hl, Hl1, <- app_assoc. split; [done|]. right. exists l1, args, after. split; [done|]. split; [done|].
  split; [eapply Forall_impl; [exact Ha|]; by intros []|].
  destruct Hi as (_ & _ & _ & Hblank & Hconf). unfold reviewed_push. split; [done|]. split; [done|]. split; [done|].
  split; [done|]. split; [by exists x, (outside (world s1)), out|]. split; [by eexists _, _|]. by eexists.
Qed.
(** The push of one record, and the save after a failure. *)
Lemma push_record_trace r branch reason confirm s s' res :
  branch_name r = Some branch -> push_record h r reason confirm s = (s', res) ->
  exists l, trace s' = trace s ++ l
    /\ (Forall no_push l
        \/ exists before args after, l = before ++ Did (Git (T "push_branch") args) :: after
             /\ Forall no_push before /\ Forall no_push after
             /\ reviewed_push branch (from_option id [] (approved_commit r)) (from_option id [] (origin_url r))
                  reason confirm args).
Proof.
  intros Hb H. unfold push_record in H. rewrite Hb in H. unfold mbind at 1, eff_bind at 1, lift, ok_or in H.
  eff_step H; [unfold catch in H0; by destruct (push_approved _ _ _ _ _ _ _)|].
  unfold catch in H0. destruct (push_approved _ _ _ _ _ _ s) as [s1 r1] eqn:E. injection H0 as <- <-.
  destruct (push_approved_trace _ _ _ _ _ _ _ _ E) as (l & Hl & Hcase).
  assert (Hrest : exists l2, trace s' = trace s1 ++ l2 /\ Forall no_push l2).
  { destruct r1 as [v|e]; [injection H as <- _; exists []; by rewrite app_nil_r|].
    refine (emits_result no_push _ _ _ _ _ H). unfold save_run. by emits. }
  destruct Hrest as (l2 & Hl2 & Hn2). exists (l ++ l2). rewrite Hl2, Hl, app_assoc. split; [done|].
  destruct Hcase as [Hn|(before & args & after & -> & H1 & H2 & H3)]; [left; by apply Forall_app|].
  right. exists before, args, (after ++ l2). rewrite <- app_assoc. split; [done|]. split; [done|]. split; [by apply Forall_app | done].
Qed.
End Pushes.

(** C28. A push sends exactly what was approved.  A push command runs at most
    one git push, and only for a run whose record, read under its lease, is
    approved and not yet pushed.  It is confirmed with a reason, under a policy
    in force that allows git writes to the same repository; the branch has an
    allowed name, git just answered that it stands at the approved commit, and
    the refspec names that commit and the recorded remote, so that neither a
    later branch move nor a changed remote can redirect it. *)
Theorem push_only_approved {X : Type} (h : host X) (o : Opts) (s s' : st (World X) run_act) (res : result harness_error Z) :
  cmd_real_repo_run_push h o s = (s', res) ->
  exists l, trace s' = trace s ++ l
    /\ (Forall no_push l
        \/ exists id' r branch before args after,
             o_run_id o = Some id' /\ id' ∉ held (world s) /\ disk (world s) !! id' = Some (Some r)
             /\ status r = APPROVED /\ pushed r = false /\ branch_name r = Some branch
             /\ l = before ++ Did (Git (T "push_branch") args) :: after
             /\ Forall no_push before /\ Forall no_push after
             /\ reviewed_push h branch (from_option id [] (approved_commit r)) (from_option id [] (origin_url r))
                  (o_reason o) (o_confirm o) args).
Proof.
  unfold cmd_real_repo_run_push. intros H. eff_step H.
  { destruct (emits_result no_push _ _ _ _ (emits_attach_approved h o _) H0) as (l & ? & ?). exists l. auto. }
  destruct (emits_result no_push _ _ _ _ (emits_attach_approved h o _) H0) as (l0 & Hl0 & Hn0).
  destruct a as [r|]; [|injection H as <- _; exists l0; auto].
  apply attach_approved_Ok in H0 as (id' & branch & Hid & Hheld & Hd & Hgate & Hb).
  destruct Hgate as (u & Hgate). apply require_approved_inv in Hgate as [Hs Hp]. eff_step H.
  { apply quiet_result in H0 as (_ & l & Hl & Ha); [|apply quiet_attach_clone]. exists (l0 ++ l).
    rewrite Hl, Hl0, app_assoc. split; [done|]. left. apply Forall_app. split; [done|].
    eapply Forall_impl; [exact Ha|]. by intros []. }
  apply quiet_result in H0 as (_ & l1 & Hl1 & Ha1); [|apply quiet_attach_clone].
  assert (Hn1 : Forall no_push l1) by (eapply Forall_impl; [exact Ha1|]; by intros []).
  apply eff_bind_inv in H as Hpush.
  assert (Hrun : exists s2 res2 l3, push_record h r (o_reason o) (o_confirm o) s1 = (s2, res2)
                   /\ trace s' = trace s2 ++ l3 /\ Forall no_push l3).
  { destruct Hpush as [(e & Hpush & _)|([r' c] & s2 & Hpush & Hrest)].
    - exists s', (Err e), []. by rewrite app_nil_r.
    - destruct (emits_result no_push _ _ _ _ (emits_last_save h r' c) Hrest) as (l3 & ? & ?). exists s2, (Ok (r', c)), l3. done. }
  destruct Hrun as (s2 & res2 & l3 & Hpr & Hl3 & Hn3).
  destruct (push_record_trace h r branch _ _ _ _ _ Hb Hpr) as (l2 & Hl2 & Hcase).
  exists (l0 ++ l1 ++ l2 ++ l3). rewrite Hl3, Hl2, Hl1, Hl0, <- !app_assoc. split; [done|].
  destruct Hcase as [Hn|(before & args & after & -> & H1 & H2 & H3)]; [left; by rewrite !Forall_app|].
  right. exists id', r, branch, (l0 ++ l1 ++ before), args, (after ++ l3). rewrite <- !app_assoc, !Forall_app. done.
Qed.

(** ** Witnesses *)

Section Demo.
Definition demo_run_id : text := concat (repeat (T "a") 32).
Definition demo_commit : text := concat (repeat (T "c0") 20).
Definition demo_branch : text := T "agent/fix".
Definition demo_origin : text := T "https://github.com/o/r".
Definition demo_git (args : list text) (x : unit) : unit * result harness_error (option Z * text) :=
  (x, Ok (Some 0,
          if teqb (from_option id [] (head args)) (T "config") then demo_origin
          else if teqb (from_option id [] (head args)) (T "symbolic-ref") then T "origin/main"
          else if teqb (from_option id [] (head args)) (T "ls-remote") then demo_commit ++ [9] ++ T "refs/heads/" ++ demo_branch
          else demo_commit)).
Definition demo_finalize (r : RealRepoRunRecord) (decision reason : text) (confirm : bool) (x : unit)
    : unit * result harness_error json :=
  (x, if teqb decision (T "approve")
      then Ok (JObj [(T "status", JStr APPROVED); (T "approved_commit", JStr demo_commit)])
      else if teqb decision (T "reject") then Ok (JObj [(T "status", JStr REJECTED)]) else Err err_agentic).
Definition demo_policy : AgenticConfig :=
  MkAgentic true (T "o/r") (T "write") true (2, 0, 0)
    (MkDeepAgent true [] true [] [] 1000 1000 false false).
Definition demo_host : host unit :=
  MkHost unit (map to_ascii_lower) (T "agent") (fun _ => Ok demo_policy) (fun _ => []) demo_policy
    (fun x => (x, Ok (T "/tmp/b"))) (fun _ x => (x, Ok (T "/usr/bin/gh")))
    (fun _ _ x => (x, Ok (MkOutput (Some 0) (T "https://github.com/o/r/pull/1") [])))
    demo_git (fun _ _ => Ok []) (fun _ _ => false) (fun _ _ => Ok tt) (fun _ _ => IsDir) (fun _ x => x)
    demo_finalize (fun _ => T "now") (fun _ => true).
Definition demo_record : RealRepoRunRecord :=
  MkRun demo_run_id (T "/w/t/repo") PENDING_DECISION (Some demo_branch) (Some (T "fix")) [T "a.rs"] None false None None
    None None (Some demo_origin) [] [].
Definition demo_world : World unit := MkWorld {[ demo_run_id := Some demo_record ]} ∅ ∅ tt.
Definition demo_opts (decision : option text) : Opts :=
  MkOpts (Some demo_run_id) decision (T "reviewed") true false false (Ok (T "body")).
Definition demo_commands : list command :=
  [Push (demo_opts None); Decide (demo_opts (Some (T "approve"))); Decide (demo_opts (Some (T "reject")));
   Publish (demo_opts None); Push (demo_opts None); Push (demo_opts None); Publish (demo_opts None)].
Definition demo_approved : st (World unit) run_act :=
  run_command demo_host (St demo_world []) (Decide (demo_opts (Some (T "approve")))).
End Demo.

#[export] Instance demo_honest : HonestFinalize demo_host.
Proof.
  intros r decision reason confirm x x' outcome H. simpl in H. unfold demo_finalize in H. injection H as _ H.
  destruct (teqb decision (T "approve")) eqn:Ea; [|destruct (teqb decision (T "reject")) eqn:Er; [|discriminate H]];
    injection H as <-.
  - left. apply teqb_eq in Ea. split; [done|]. split; [reflexivity|]. exists demo_commit. reflexivity.
  - right. apply teqb_eq in Er. split; [done|]. split; reflexivity.
Qed.

Lemma demo_records_keyed : keyed (disk demo_world).
Proof.
  intros k r H. change (({[ demo_run_id := Some demo_record ]} : gmap text (option RealRepoRunRecord)) !! k = Some (Some r)) in H.
  apply lookup_singleton_Some in H as [<- [= <-]]. reflexivity.
Qed.

Lemma run_lifecycle_witness :
  exists r, disk (world (foldl (run_command demo_host) (St demo_world []) demo_commands)) !! demo_run_id = Some (Some r)
    /\ status r = APPROVED /\ pushed r = true /\ pr_url r = Some (T "https://github.com/o/r/pull/1")
    /\ is_Some (approved_commit r).
Proof.
  assert (H : exists r, disk (world (foldl (run_command demo_host) (St demo_world []) demo_commands)) !! demo_run_id = Some (Some r)
    /\ status r = APPROVED /\ pushed r = true /\ pr_url r = Some (T "https://github.com/o/r/pull/1")).
  { eexists. split; [vm_compute; reflexivity|]. split; [reflexivity|]. split; reflexivity. }
  destruct H as (r & Hr & Hs & Hp & Hu). exists r. split; [exact Hr|]. split; [exact Hs|]. split; [exact Hp|].
  split; [exact Hu|].
  destruct (run_lifecycle demo_host demo_honest (St demo_world []) demo_commands demo_records_keyed) as (_ & _ & Hsound).
  - intros k r0 H. change (({[ demo_run_id := Some demo_record ]} : gmap text (option RealRepoRunRecord)) !! k = Some (Some r0)) in H.
    apply lookup_singleton_Some in H as [_ [= <-]]. split; simpl; [discriminate | discriminate | by intros [? ?]].
  - exact (sound_approved _ (Hsound _ _ Hr) Hs).
Defined.

Lemma push_only_approved_witness :
  exists args, Did (Git (T "push_branch") args) ∈ trace (fst (cmd_real_repo_run_push demo_host (demo_opts None) demo_approved))
    /\ exists credential, args = credential ++ [T "push"; T "--"; demo_origin; demo_commit ++ T ":refs/heads/" ++ demo_branch].
Proof.
  destruct (cmd_real_repo_run_push demo_host (demo_opts None) demo_approved) as [s' res] eqn:E.
  destruct (push_only_approved demo_host (demo_opts None) demo_approved s' res E) as (l & Hl & Hcase).
  assert (Hin : exists args, Did (Git (T "push_branch") args) ∈ trace s' /\ Did (Git (T "push_branch") args) ∉ trace demo_approved).
  { exists [T "push"; T "--"; demo_origin; demo_commit ++ T ":refs/heads/" ++ demo_branch]. split.
    - replace s' with (fst (cmd_real_repo_run_push demo_host (demo_opts None) demo_approved)) by (by rewrite E).
      vm_compute. repeat (left || right).
    - vm_compute. intros Hin. repeat (apply elem_of_cons in Hin as [Hin|Hin]; [discriminate Hin|]). by apply elem_of_nil in Hin. }
  destruct Hin as (args & Hin & Hnot).
  destruct Hcase as [Hn|(id' & r & branch & before & args' & after & Hid & _ & Hd & _ & _ & Hb & -> & _ & _ & Hrev)].
  - exfalso. rewrite Hl, elem_of_app in Hin. destruct Hin as [Hin|Hin]; [exact (Hnot Hin)|].
    rewrite Forall_forall in Hn. exact (Hn _ Hin eq_refl).
  - exists args'. split; [simpl; rewrite Hl; apply elem_of_app; right; apply elem_of_app; right; left|].
    destruct Hrev as (_ & _ & _ & _ & _ & _ & credential & ->). exists credential.
    injection Hid as <-. vm_compute in Hd. injection Hd as <-. injection Hb as <-. reflexivity.
Defined.
