(* ===== verification/RunDecision.v ===== *)
(** The decide command with the finalisation it really calls: the host whose
    [finalize] is [finalize_real_repo_change] of the loop keeps the promise
    that the life of a run relies on ([HonestFinalize]). *)

From S2P Require Import Prelude Text Effects RepoPaths Glob ReadRequests Edits WriteGate Executor RepoLoop RunLifecycle.
Local Open Scope Z_scope.

Section Decision.
Context {W : Type} (env : surroundings W).
Context (sha256_bytes_hex : list Z -> text) (to_string : json -> text).
Context (worktree : W -> tree) (is_dir : tree -> bool) (copy_tree : W -> tree -> option tree).
Context (commit_accepted : FinalizeParams -> W -> W * result harness_error text).

(** The parameters that [cmd_real_repo_run_decide] builds. *)
Definition finalize_params (protected : list text) (r : RealRepoRunRecord) (decision reason : text) (confirm : bool)
    : FinalizeParams :=
  MkFinalize reason confirm (from_option id [] (RunLifecycle.branch_name r)) (RunLifecycle.changed_files r) decision
    protected (run_id r) (RunLifecycle.acceptance_digest r) (RunLifecycle.acceptance_base_head r).

Definition finalize_decision (protected : list text) (r : RealRepoRunRecord) (decision reason : text) (confirm : bool)
    : eff W loop_act harness_error json :=
  finalize_real_repo_change env sha256_bytes_hex to_string worktree is_dir copy_tree commit_accepted
    (finalize_params protected r decision reason confirm).

(** [h] with this finalisation; the loop's trace is part of what is outside. *)
Definition loop_host (protected : list text) (h : host (st W loop_act)) : host (st W loop_act) :=
  MkHost _ (RunLifecycle.lower h) (branch_prefix_env h) (RunLifecycle.load_policy h) (RunLifecycle.kill_switch h)
    (RunLifecycle.attached h) (new_body_file h) (checked_gh_binary h) (process_run h) (git h) (credential_args h)
    (is_absolute_dir h) (attach h) (dest_at h) (rmtree h) (finalize_decision protected) (iso_now h) (write_ok h).

#[export] Instance loop_host_honest protected h : HonestFinalize (loop_host protected h).
Proof.
  intros r decision reason confirm x x' outcome H. simpl in H. unfold finalize_decision, finalize_real_repo_change in H.
  simpl in H. destruct (teqb decision (T "reject")) eqn:Er.
  { apply teqb_eq in Er. rewrite andb_false_r in H. unfold RepoLoop.record_rejection in H. eff_step H.
    injection H as _ <-. right. split; [done|]. split; reflexivity. }
  destruct (teqb decision (T "approve")) eqn:Ea; simpl in H; [|discriminate H]. apply teqb_eq in Ea.
  do 6 (eff_step H; clear H0). simpl in H. destruct (negb _); [by eff_step H|].
  eff_step H. clear H0. eff_step H. injection H as _ <-. left. split; [done|]. split; [reflexivity|]. eexists. reflexivity.
Qed.
End Decision.
