(* ===== verification/OpenAiStream.v ===== *)
(** The decoder of streamed model answers, [llm/openai_stream.rs].

    Bytes are integers from 0 to 255.  [serde_json::from_str] is a parameter.
    The error of a decoder ends it, so a step answers a new decoder or an
    error, never both.  The assembled tool calls are JSON objects of strings
    in the source and records of strings here.

    The functions are those of the decoder.  The loop of the reader around it
    returns at the chunk that completes the stream; [feed] is the decoder driven
    over any chunks, those after its end included. *)

From S2P Require Import Prelude Text Utf8 Effects.
Local Open Scope Z_scope.

Definition MAX_TOOL_CALLS : Z := 30.
Definition MAX_RESPONSE_BYTES : Z := 4 * 1024 * 1024.
Definition stream_invalid : harness_error := err_code "HARNESS_LLM_ERROR".

(** ** JSON values, updated in place *)

Definition index_nth (j : json) (n : nat) : json := match j with JArr l => nth n l JNull | _ => JNull end.
Definition as_object (j : json) : option (list (text * json)) := match j with JObj fs => Some fs | _ => None end.

(** [value[key] = v], on an object or [Null]. *)
Definition set_key (key : text) (v : json) (j : json) : json :=
  match j with JObj fs => JObj (set_field key v fs) | _ => JObj [(key, v)] end.
(** [value["choices"][0][key] = v] *)
Definition set_choice (f : json -> json) (j : json) : json :=
  match index j (T "choices") with
  | JArr (c :: cs) => set_key (T "choices") (JArr (f c :: cs)) j
  | _ => j
  end.

(** ** The decoder *)

Record Call := MkCall { call_id : text; call_type : text; call_name : text; call_arguments : text }.
Definition new_call : Call := MkCall [] (T "function") [] [].
Definition call_json (c : Call) : json :=
  JObj [(T "id", JStr (call_id c)); (T "type", JStr (call_type c));
        (T "function", JObj [(T "name", JStr (call_name c)); (T "arguments", JStr (call_arguments c))])].

Record Decoder := MkDecoder {
  pending : list Z; scanned : nat; data : text; response : json; done_ : bool; content : text; tool_calls : gmap Z Call;
}.
Definition default_decoder : Decoder := MkDecoder [] 0 [] JNull false [] ∅.

Definition first_response : json :=
  JObj [(T "choices", JArr [JObj [(T "message", JObj [(T "role", JStr (T "assistant")); (T "content", JStr [])]); (T "finish_reason", JNull)]])].

Section Decoder.
Context (from_str : text -> option json).

(** One of the four fields of a tool call: [slot] is its value so far. *)
Definition add_to_slot (replace : bool) (slot : text) (value : json) : result harness_error text :=
  match value with
  | JNull => Ok slot
  | JStr v => if 4096 <? byte_len slot + byte_len v then Err stream_invalid else Ok (if replace then v else slot ++ v)
  | _ => Err stream_invalid
  end.

Definition add_to_call (c : Call) (call : json) : result harness_error Call :=
  i ← add_to_slot false (call_id c) (index call (T "id"));
  t ← add_to_slot true (call_type c) (index call (T "type"));
  n ← add_to_slot false (call_name c) (index (index call (T "function")) (T "name"));
  a ← add_to_slot false (call_arguments c) (index (index call (T "function")) (T "arguments"));
  mret (MkCall i t n a).

Fixpoint add_calls (m : gmap Z Call) (calls : list json) : result harness_error (gmap Z Call) :=
  match calls with
  | [] => Ok m
  | call :: calls =>
      i ← ok_or (as_u64 (index call (T "index"))) stream_invalid;
      _ ← refuse_if (negb (i <? MAX_TOOL_CALLS)) stream_invalid;
      c ← add_to_call (default new_call (m !! i)) call;
      add_calls (<[i := c]> m) calls
  end.

Definition text_delta (delta : json) : result harness_error (option text) :=
  match get delta (T "content") with
  | None | Some JNull => Ok None
  | Some value => Some <$> ok_or (as_str value) stream_invalid
  end.

(** The event's [model] and [usage]. *)
Definition note_event (event : json) (r : json) : json :=
  let r := if is_null r then first_response else r in
  let r := match get event (T "model") with Some (JStr m) => set_key (T "model") (JStr m) r | _ => r end in
  match get event (T "usage") with Some (JObj u) => set_key (T "usage") (JObj u) r | _ => r end.

(** [Decoder::event]: the decoder afterwards and the text delta. *)
Definition event (d : Decoder) : result harness_error (Decoder * option text) :=
  let d' := MkDecoder (pending d) (scanned d) [] (response d) (done_ d) (content d) (tool_calls d) in
  if bool_decide (data d = []) then Ok (d', None)
  else if teqb (trim (data d)) (T "[DONE]") then
    Ok (MkDecoder (pending d) (scanned d) [] (response d) true (content d) (tool_calls d), None)
  else if done_ d then Err stream_invalid
  else
    ev ← ok_or (from_str (data d)) stream_invalid;
    _ ← refuse_if (bool_decide (is_Some (get ev (T "error")))) stream_invalid;
    let r := note_event ev (response d) in
    choices ← ok_or (as_array (index ev (T "choices"))) stream_invalid;
    match choices with
    | [] => Ok (MkDecoder (pending d) (scanned d) [] r (done_ d) (content d) (tool_calls d), None)
    | [choice] =>
        _ ← refuse_if (negb (bool_decide (as_i64 (index choice (T "index")) = Some 0))) stream_invalid;
        let delta := index choice (T "delta") in
        text ← text_delta delta;
        calls ← match get delta (T "tool_calls") with
                | None => Ok (tool_calls d)
                | Some calls => cs ← ok_or (as_array calls) stream_invalid; add_calls (tool_calls d) cs
                end;
        let reason := index choice (T "finish_reason") in
        let r := if is_null reason then r else set_choice (set_key (T "finish_reason") reason) r in
        mret (MkDecoder (pending d) (scanned d) [] r (done_ d) (content d ++ default [] text) calls, text)
    | _ => Err stream_invalid
    end.

(** A line of the stream, without its newline. *)
Definition handle_line (d : Decoder) (texts : list text) (bytes : list Z) : result harness_error (Decoder * list text) :=
  raw ← ok_or (from_utf8 bytes) stream_invalid;
  let line := trim_end (fun c => c =? c_cr) raw in
  if bool_decide (line = []) then
    r ← event d;
    mret (fst r, texts ++ match snd r with Some t => [t] | None => [] end)
  else
    match strip_prefix (T "data:") line with
    | Some rest =>
        let more := default rest (strip_prefix [c_space] rest) in
        mret (MkDecoder (pending d) (scanned d) (data d ++ (if bool_decide (data d = []) then [] else [c_newline]) ++ more)
                (response d) (done_ d) (content d) (tool_calls d), texts)
    | None => Ok (d, texts)
    end.

Definition position_newline (l : list Z) : option nat := fst <$> list_find (eq c_newline) l.

(** The loop of [push]: [buffer] is [pending] with the new bytes. *)
Fixpoint push_loop (fuel : nat) (buffer : list Z) (consumed scan_from : nat) (d : Decoder) (texts : list text)
    : result harness_error (nat * Decoder * list text) :=
  match fuel with
  | O => Ok (consumed, d, texts)
  | S fuel =>
      match position_newline (drop scan_from buffer) with
      | None => Ok (consumed, d, texts)
      | Some n =>
          let end_ := (scan_from + n)%nat in
          r ← handle_line d texts (take (end_ - consumed) (drop consumed buffer));
          push_loop fuel buffer (S end_) (S end_) (fst r) (snd r)
      end
  end.

Definition push (d : Decoder) (bytes : list Z) : result harness_error (Decoder * list text) :=
  let buffer := pending d ++ bytes in
  r ← push_loop (S (length buffer)) buffer 0 (scanned d) d [];
  let '(consumed, d, texts) := r in
  let rest := drop consumed buffer in
  mret (MkDecoder rest (length rest) (data d) (response d) (done_ d) (content d) (tool_calls d), texts).

(** The keys of [tool_calls], in order. *)
Definition sorted_indices (m : gmap Z Call) : list Z := merge_sort Z.le (elements (dom m : gset Z)).

Definition finish (d : Decoder) : result harness_error json :=
  _ ← refuse_if (negb (done_ d) || is_null (index (index_nth (index (response d) (T "choices")) 0) (T "finish_reason"))) stream_invalid;
  let set_message key v := set_choice (fun c => set_key (T "message") (set_key key v (index c (T "message"))) c) in
  let r := set_message (T "content") (JStr (content d)) (response d) in
  if bool_decide (tool_calls d = ∅) then Ok r
  else
    _ ← refuse_if (negb (bool_decide (sorted_indices (tool_calls d) = seqZ 0 (Z.of_nat (size (tool_calls d)))))) stream_invalid;
    mret (set_message (T "tool_calls") (JArr (map call_json (omap (fun i => tool_calls d !! i) (sorted_indices (tool_calls d))))) r).

(** ** Reading a response *)

(** [accept n]: what validating and sending the [n]-th text answers. *)
Context (accept : nat -> option harness_error).

Fixpoint send_all (sent texts : list text) : list text * result harness_error unit :=
  match texts with
  | [] => (sent, Ok tt)
  | t :: texts => match accept (length sent) with Some e => (sent, Err e) | None => send_all (sent ++ [t]) texts end
  end.

(** The loop of [read]: a chunk is [None] when the transport fails. *)
Fixpoint read_chunks (chunks : list (option (list Z))) (bytes : Z) (d : Decoder) (sent : list text) : list text * result harness_error json :=
  match chunks with
  | [] => (sent, finish d)
  | None :: _ => (sent, Err stream_invalid)
  | Some chunk :: chunks =>
      let bytes := Z.min (bytes + Z.of_nat (length chunk)) (2 ^ 64 - 1) in
      if MAX_RESPONSE_BYTES <? bytes then (sent, Err stream_invalid)
      else match push d chunk with
           | Err e => (sent, Err e)
           | Ok (d, texts) =>
               match send_all sent texts with
               | (sent, Err e) => (sent, Err e)
               | (sent, Ok _) => if done_ d then (sent, finish d) else read_chunks chunks bytes d sent
               end
           end
  end.
Definition read (chunks : list (option (list Z))) : list text * result harness_error json := read_chunks chunks 0 default_decoder [].
End Decoder.

(** ** Lines *)

Section Lines.
Context (from_str : text -> option json).
Abbreviation line_step := (handle_line from_str).

(** The lines of a stream, one after the other. *)
Fixpoint handle_lines (d : Decoder) (texts : list text) (lines : list (list Z)) : result harness_error (Decoder * list text) :=
  match lines with
  | [] => Ok (d, texts)
  | l :: lines => r ← line_step d texts l; handle_lines (fst r) (snd r) lines
  end.

Definition with_pending (p : list Z) (d : Decoder) : Decoder :=
  MkDecoder p (length p) (data d) (response d) (done_ d) (content d) (tool_calls d).

(** The reference decoder: the whole stream at once, cut into lines. *)
Definition decode (bytes : list Z) : result harness_error (Decoder * list text) :=
  let lines := split_on c_newline bytes in
  r ← handle_lines default_decoder [] (removelast lines);
  mret (with_pending (List.last lines []) (fst r), snd r).

Fixpoint feed (d : Decoder) (chunks : list (list Z)) : result harness_error (Decoder * list text) :=
  match chunks with
  | [] => Ok (d, [])
  | c :: chunks =>
      r ← push from_str d c;
      r' ← feed (fst r) chunks;
      mret (fst r', snd r ++ snd r')
  end.

Lemma event_pending p d : event from_str (with_pending p d) = (fun r => (with_pending p (fst r), snd r)) <$> event from_str d.
Proof.
  unfold event. destruct d as [pd sc da re dn co ca]. cbn [pending scanned data response done_ content tool_calls with_pending].
  destruct (bool_decide (da = [])); [done|]. destruct (teqb _ _); [done|]. destruct dn; [done|].
  destruct (ok_or (from_str da) _) as [ev|]; [|done]. cbn [mbind result_bind]. destruct (refuse_if _ _) as [u|]; [|done].
  destruct (ok_or (as_array _) _) as [[|choice [|]]|]; try done. cbn [mbind result_bind]. destruct (refuse_if _ _) as [u1|]; [|done].
  cbn [mbind result_bind]. destruct (text_delta _) as [t|]; [|done]. cbn [mbind result_bind].
  destruct (get _ (T "tool_calls")) as [calls|]; [|done].
  destruct (ok_or (as_array calls) stream_invalid) as [cs|]; [|done]. cbn [mbind result_bind]. by destruct (add_calls _ _).
Qed.

Lemma handle_line_pending p d texts l :
  line_step (with_pending p d) texts l = (fun r => (with_pending p (fst r), snd r)) <$> line_step d texts l.
Proof.
  unfold handle_line. destruct (ok_or (from_utf8 l) _) as [raw|]; [|done]. cbn [mbind result_bind].
  destruct (bool_decide (trim_end _ raw = [])).
  - rewrite event_pending. by destruct (event from_str d).
  - by destruct (strip_prefix _ _).
Qed.
Lemma handle_lines_pending p d texts ls :
  handle_lines (with_pending p d) texts ls = (fun r => (with_pending p (fst r), snd r)) <$> handle_lines d texts ls.
Proof.
  revert d texts. induction ls as [|l ls IH]; intros d texts; [done|]. cbn [handle_lines]. rewrite handle_line_pending.
  destruct (line_step d texts l) as [[d' t']|]; [|done]. apply IH.
Qed.

Lemma handle_line_texts d texts l : line_step d texts l = (fun r => (fst r, texts ++ snd r)) <$> line_step d [] l.
Proof.
  unfold handle_line. destruct (ok_or (from_utf8 l) _) as [raw|]; [|done]. cbn [mbind result_bind].
  destruct (bool_decide (trim_end _ raw = [])).
  - by destruct (event from_str d).
  - destruct (strip_prefix _ _); cbn; by rewrite app_nil_r.
Qed.
Lemma handle_lines_texts d texts ls : handle_lines d texts ls = (fun r => (fst r, texts ++ snd r)) <$> handle_lines d [] ls.
Proof.
  revert d texts. induction ls as [|l ls IH]; intros d texts; cbn [handle_lines]; [cbn; by rewrite app_nil_r|].
  rewrite handle_line_texts. destruct (line_step d [] l) as [[d' t']|]; [|done]. cbn [fmap result_fmap mbind result_bind fst snd].
  rewrite (IH d' (texts ++ t')), (IH d' t'). destruct (handle_lines d' [] ls) as [[d2 t2]|]; [|done]. cbn. by rewrite app_assoc.
Qed.
Lemma handle_lines_app d texts ls ls' : handle_lines d texts (ls ++ ls') = (r ← handle_lines d texts ls; handle_lines (fst r) (snd r) ls').
Proof.
  revert d texts. induction ls as [|l ls IH]; intros d texts; [done|]. cbn [app handle_lines].
  destruct (line_step d texts l) as [[d' t']|]; [|done]. apply IH.
Qed.

(** ** Scanning for newlines *)

Lemma position_newline_None l : position_newline l = None -> c_newline ∉ l.
Proof.
  unfold position_newline. destruct (list_find _ l) as [[i x]|] eqn:E; [done|]. intros _ Hin.
  apply list_find_None in E. rewrite Forall_forall in E. by apply (E c_newline Hin).
Qed.
Lemma position_newline_Some l n : position_newline l = Some n -> exists u v, l = u ++ c_newline :: v /\ length u = n /\ c_newline ∉ u.
Proof.
  unfold position_newline. destruct (list_find _ l) as [[i x]|] eqn:E; [|done]. intros [= <-].
  apply list_find_Some in E as (Hi & <- & Hno). exists (take i l), (drop (S i) l). split; [|split].
  - by rewrite (take_drop_middle l i c_newline Hi).
  - apply length_take_le. apply lookup_lt_Some in Hi. lia.
  - intros Hin. apply list_elem_of_lookup in Hin as (j & Hj). apply lookup_take_Some in Hj as [Hj Hlt]. by apply (Hno j _ Hj Hlt).
Qed.

Lemma push_loop_spec fuel buffer consumed scan d texts :
  (consumed <= scan <= length buffer)%nat -> c_newline ∉ take (scan - consumed) (drop consumed buffer) -> (length buffer - scan < fuel)%nat ->
  push_loop from_str fuel buffer consumed scan d texts
  = (let lines := split_on c_newline (drop consumed buffer) in
     r ← handle_lines d texts (removelast lines);
     mret ((length buffer - length (List.last lines []))%nat, fst r, snd r)).
Proof.
  revert consumed scan d texts. induction fuel as [|fuel IH]; intros consumed scan d texts Hc Hno Hf; [lia|]. cbn [push_loop].
  set (s := drop consumed buffer) in *.
  assert (Hs : s = take (scan - consumed) s ++ drop scan buffer).
  { rewrite <- (take_drop (scan - consumed) s) at 1. unfold s at 2. rewrite drop_drop. do 2 f_equal. lia. }
  set (w := take (scan - consumed) s) in *.
  assert (Hw : length w = (scan - consumed)%nat) by (unfold w, s; rewrite length_take, length_drop; lia).
  destruct (position_newline (drop scan buffer)) as [n|] eqn:E.
  - apply position_newline_Some in E as (u & v & Hd & Hn & Hu).
    assert (Hlen : (scan + n < length buffer)%nat).
    { apply (f_equal length) in Hd. rewrite length_drop, length_app in Hd. simpl in Hd. lia. }
    assert (Hv : drop (S (scan + n)) buffer = v).
    { replace (S (scan + n)) with (scan + S n)%nat by lia. rewrite <- drop_drop, Hd.
      replace (S n) with (length (u ++ [c_newline])) by (rewrite length_app; simpl; lia).
      change (u ++ c_newline :: v) with (u ++ [c_newline] ++ v). rewrite app_assoc. apply drop_app_length. }
    assert (Hs' : s = (w ++ u) ++ c_newline :: v) by (rewrite Hs, Hd; apply app_assoc).
    assert (Hline : take (scan + n - consumed) s = w ++ u).
    { rewrite Hs'. replace (scan + n - consumed)%nat with (length (w ++ u)) by (rewrite length_app; lia). apply take_app_length. }
    rewrite Hline, Hs', split_on_app_sep by (rewrite elem_of_app; tauto).
    change (removelast ((w ++ u) :: split_on c_newline v)) with (match split_on c_newline v with [] => [] | _ => (w ++ u) :: removelast (split_on c_newline v) end).
    destruct (split_on c_newline v) as [|x xs] eqn:Ev; [by destruct (split_on_not_nil c_newline v)|]. rewrite <- Ev.
    cbn [handle_lines]. destruct (line_step d texts (w ++ u)) as [[d' t']|]; [|done]. cbn [mbind result_bind fst snd].
    rewrite IH by (try rewrite Nat.sub_diag; try apply not_elem_of_nil; lia). rewrite Hv. cbn zeta.
    by rewrite Ev.
  - apply position_newline_None in E. rewrite split_on_no_occ.
    + cbn. f_equal. do 2 f_equal. unfold s. rewrite length_drop. lia.
    + rewrite Hs, elem_of_app. tauto.
Qed.

Definition settled (d : Decoder) : Prop := c_newline ∉ pending d /\ scanned d = length (pending d).

Lemma split_on_last c s : exists ls, split_on c s = ls ++ [List.last (split_on c s) []] /\ removelast (split_on c s) = ls.
Proof. exists (removelast (split_on c s)). split; [by apply app_removelast_last, split_on_not_nil | done]. Qed.
Lemma last_no_sep c s : c ∉ List.last (split_on c s) [].
Proof.
  destruct (split_on_last c s) as (ls & E & _). pose proof (split_on_no_sep c s) as H. rewrite E in H. apply Forall_app in H as [_ H].
  exact (Forall_inv H).
Qed.
Lemma join_last c ls x : exists p, join [c] (ls ++ [x]) = p ++ x.
Proof.
  induction ls as [|l ls [p IH]]; [by exists []|]. exists (l ++ [c] ++ p).
  change ((l :: ls) ++ [x]) with (l :: (ls ++ [x])). rewrite join_cons by (intros H; by apply app_eq_nil in H as [_ [=]]). by rewrite IH, <- !app_assoc.
Qed.
Lemma last_suffix s : drop (length s - length (List.last (split_on c_newline s) [])) s = List.last (split_on c_newline s) [].
Proof.
  destruct (split_on_last c_newline s) as (ls & E & _). pose proof (join_split_on c_newline s) as Hj. rewrite E in Hj.
  destruct (join_last c_newline ls (List.last (split_on c_newline s) [])) as [p Hp]. rewrite Hp in Hj. rewrite <- Hj at 1 3.
  rewrite length_app, Nat.add_sub. apply drop_app_length.
Qed.

Lemma push_spec d bytes : settled d ->
  push from_str d bytes = (let lines := split_on c_newline (pending d ++ bytes) in
                  r ← handle_lines d [] (removelast lines);
                  mret (with_pending (List.last lines []) (fst r), snd r)).
Proof.
  intros [Hn Hs]. unfold push. rewrite Hs, push_loop_spec.
  - cbn zeta. rewrite drop_0. destruct (handle_lines d [] _) as [[d' t']|]; [|done]. cbn [mbind result_bind mret result_ret fst snd].
    by rewrite last_suffix.
  - rewrite length_app. lia.
  - rewrite drop_0, Nat.sub_0_r, take_app_length. exact Hn.
  - lia.
Qed.

Lemma with_pending_settled bytes d : settled (with_pending (List.last (split_on c_newline bytes) []) d).
Proof. split; [apply last_no_sep | done]. Qed.

Lemma split_on_prefix c w s : c ∉ w ->
  split_on c (w ++ s) = match split_on c s with x :: xs => (w ++ x) :: xs | [] => [] end.
Proof.
  induction w as [|y w IH]; intros Hw; [cbn [app]; by destruct (split_on c s)|].
  apply not_elem_of_cons in Hw as [Hy Hw]. cbn [app split_on]. rewrite (proj2 (Z.eqb_neq _ _)) by congruence. rewrite (IH Hw).
  destruct (split_on c s) eqn:E; [by destruct (split_on_not_nil c s) | done].
Qed.
Lemma split_on_app c s t : split_on c (s ++ t) = removelast (split_on c s) ++ split_on c (List.last (split_on c s) [] ++ t).
Proof.
  induction s as [|y s IH]; [done|]. cbn [app split_on]. destruct (split_on c s) as [|w ws] eqn:E; [by destruct (split_on_not_nil c s)|].
  destruct (y =? c) eqn:Ey; [by rewrite IH|]. destruct ws as [|w' ws].
  - cbn in *. by rewrite Ey, IH.
  - rewrite IH. done.
Qed.

Lemma decode_app s t :
  decode (s ++ t) = (r ← decode s; r' ← push from_str (fst r) t; mret (fst r', snd r ++ snd r')).
Proof.
  unfold decode. cbn zeta. rewrite split_on_app. set (p := List.last (split_on c_newline s) []).
  pose proof (split_on_not_nil c_newline (p ++ t)) as Hne.
  rewrite removelast_app by done. rewrite handle_lines_app.
  assert (Hl : List.last (removelast (split_on c_newline s) ++ split_on c_newline (p ++ t)) [] = List.last (split_on c_newline (p ++ t)) []).
  { destruct (exists_last Hne) as (l & x & ->). by rewrite app_assoc, !List.last_last. }
  rewrite Hl. destruct (handle_lines default_decoder [] (removelast (split_on c_newline s))) as [[d1 t1]|] eqn:E; [|done].
  cbn [mbind result_bind mret result_ret fst snd]. rewrite push_spec by apply with_pending_settled. cbn zeta.
  change (pending (with_pending p d1)) with p. rewrite handle_lines_pending.
  rewrite (handle_lines_texts d1 t1). by destruct (handle_lines d1 [] _) as [[d2 t2]|].
Qed.

Lemma feed_decode chunks s :
  decode (s ++ concat chunks) = (r ← decode s; r' ← feed (fst r) chunks; mret (fst r', snd r ++ snd r')).
Proof.
  revert s. induction chunks as [|c chunks IH]; intros s; cbn [concat feed].
  - rewrite app_nil_r. destruct (decode s) as [[d t]|]; [|done]. cbn. by rewrite app_nil_r.
  - rewrite app_assoc, IH, decode_app. destruct (decode s) as [[d t]|]; [|done]. cbn [mbind result_bind fst snd].
    destruct (push from_str d c) as [[d1 t1]|]; [|done]. cbn [mbind result_bind mret result_ret fst snd].
    destruct (feed d1 chunks) as [[d2 t2]|]; [|done]. cbn. by rewrite app_assoc.
Qed.

Lemma feed_is_decode chunks : feed default_decoder chunks = decode (concat chunks).
Proof.
  pose proof (feed_decode chunks []) as H. cbn [app] in H. rewrite H.
  assert (E : decode [] = Ok (default_decoder, [])) by done. rewrite E. cbn [mbind result_bind mret result_ret fst snd app].
  by destruct (feed default_decoder chunks) as [[d t]|].
Qed.

(** C38. The network's chunking of a streamed answer does not matter: feeding
    the decoder the bytes in any chunks, with lines, characters and events cut
    anywhere, has the same outcome, decoder and texts or error, as the
    reference decoder has on all the bytes at once; the incremental scan for
    newlines loses and repeats nothing. *)
Theorem chunking_is_irrelevant chunks : feed default_decoder chunks = decode (concat chunks).
Proof. exact (feed_is_decode chunks). Qed.
End Lines.

(** ** What an event changes *)

Definition call_ok (i : Z) (c : Call) : Prop :=
  0 <= i < MAX_TOOL_CALLS /\ byte_len (call_id c) <= 4096 /\ byte_len (call_type c) <= 4096
  /\ byte_len (call_name c) <= 4096 /\ byte_len (call_arguments c) <= 4096.
Definition calls_ok (m : gmap Z Call) : Prop := map_Forall call_ok m.

(** The response object, once there is one. *)
Definition choices_json (message : list (text * json)) (reason : json) : json :=
  JArr [JObj [(T "message", JObj message); (T "finish_reason", reason)]].
Definition no_message : list (text * json) := [(T "role", JStr (T "assistant")); (T "content", JStr [])].
Definition shaped (r : json) : Prop := r = JNull \/ exists fs reason, r = JObj fs /\ field (T "choices") fs = Some (choices_json no_message reason).

Lemma field_set key v fs : field key (set_field key v fs) = Some v.
Proof. by rewrite field_set_field, teqb_refl. Qed.
Lemma field_set_ne key key' v fs : teqb key key' = false -> field key' (set_field key v fs) = field key' fs.
Proof. intros Hne. by rewrite field_set_field, Hne. Qed.

Lemma shaped_note ev r : shaped r -> exists fs reason, note_event ev r = JObj fs /\ field (T "choices") fs = Some (choices_json no_message reason).
Proof.
  intros Hr. unfold note_event.
  assert (H : exists fs reason, (if is_null r then first_response else r) = JObj fs /\ field (T "choices") fs = Some (choices_json no_message reason)).
  { destruct Hr as [->|(fs & reason & -> & H)]; [by eexists _, _ | by exists fs, reason]. }
  destruct H as (fs & reason & -> & Hf).
  assert (Hset : forall key v fs, teqb key (T "choices") = false -> field (T "choices") fs = Some (choices_json no_message reason) ->
            field (T "choices") (set_field key v fs) = Some (choices_json no_message reason)) by (intros; by rewrite field_set_ne).
  set (r1 := match get ev (T "model") with Some (JStr m) => _ | _ => _ end).
  assert (H1 : exists fs, r1 = JObj fs /\ field (T "choices") fs = Some (choices_json no_message reason)).
  { unfold r1. destruct (get ev (T "model")) as [[]|]; try (by exists fs). eexists. split; [done | by apply Hset]. }
  destruct H1 as (fs1 & -> & Hf1). destruct (get ev (T "usage")) as [[]|]; try (by exists fs1, reason).
  eexists _, reason. split; [done | by apply Hset].
Qed.

Lemma set_choice_shape fs m reason f : field (T "choices") fs = Some (choices_json m reason) ->
  set_choice f (JObj fs) = JObj (set_field (T "choices") (JArr [f (JObj [(T "message", JObj m); (T "finish_reason", reason)])]) fs).
Proof. intros H. unfold set_choice, index. cbn [get]. by rewrite H. Qed.

Lemma add_to_slot_ok replace slot value t : byte_len slot <= 4096 -> add_to_slot replace slot value = Ok t -> byte_len t <= 4096.
Proof.
  unfold add_to_slot. intros Hs H. destruct value; try done; [by injection H as <-|]. pose proof (byte_len_ge slot). pose proof (byte_len_ge s).
  destruct (Z.ltb_spec 4096 (byte_len slot + byte_len s)); [done|]. injection H as <-. destruct replace; [lia|]. rewrite byte_len_app. lia.
Qed.

Lemma add_calls_ok m calls m' : calls_ok m -> add_calls m calls = Ok m' -> calls_ok m'.
Proof.
  revert m. induction calls as [|call calls IH]; intros m Hm H; cbn [add_calls] in H; [by injection H as <-|].
  apply bind_Ok_inv in H as (i & Hi%ok_or_Ok & H). apply bind_Ok_inv in H as ([] & Hlt%refuse_if_Ok & H). apply bind_Ok_inv in H as (c & Hc & H).
  refine (IH _ _ H). apply map_Forall_insert_2; [|done].
  assert (H0 : call_ok i (default new_call (m !! i))).
  { unfold as_u64 in Hi. destruct (index call (T "index")); try done. guards. case_match; [|done]. guards.
    destruct (m !! i) as [c0|] eqn:E; [by apply (Hm i)|]. unfold call_ok, new_call. cbn.
    split; [lia|]. repeat split; by apply Z.leb_le. }
  destruct H0 as (Hr & H1 & H2 & H3 & H4). unfold add_to_call in Hc.
  do 4 (apply bind_Ok_inv in Hc as (? & ?%add_to_slot_ok & Hc); [|done]). apply Ok_inj in Hc. subst c. by split.
Qed.

Section Answers.
Context (from_str : text -> option json).

Record after (d d' : Decoder) (t : list text) : Prop := {
  af_content : content d' = content d ++ concat t;
  af_response : shaped (response d) -> shaped (response d');
  af_calls : calls_ok (tool_calls d) -> calls_ok (tool_calls d');
  af_frame : pending d' = pending d /\ scanned d' = scanned d;
}.

Lemma event_after d d' t : event from_str d = Ok (d', t) -> data d' = [] /\ after d d' (match t with Some t => [t] | None => [] end).
Proof.
  unfold event. destruct d as [pd sc da re dn co ca]. cbn [pending scanned data response done_ content tool_calls]. intros H.
  destruct (bool_decide (da = [])); [injection H as <- <-; split; [done | by constructor; cbn; rewrite ?app_nil_r]|].
  destruct (teqb _ _); [injection H as <- <-; split; [done | by constructor; cbn; rewrite ?app_nil_r]|].
  destruct dn; [done|]. apply bind_Ok_inv in H as (ev & _ & H). apply bind_Ok_inv in H as ([] & _ & H). apply bind_Ok_inv in H as (choices & _ & H).
  destruct choices as [|choice [|]]; [| |done].
  - injection H as <- <-. split; [done|]. constructor; cbn; [by rewrite app_nil_r | | done..].
    intros Hs. destruct (shaped_note ev re Hs) as (fs & reason & -> & Hf). right. by exists fs, reason.
  - apply bind_Ok_inv in H as ([] & _ & H). apply bind_Ok_inv in H as (text & _ & H). apply bind_Ok_inv in H as (calls & Hcalls & H).
    injection H as <- <-. split; [done|]. constructor; cbn [content response tool_calls pending scanned]; [| | |done].
    + destruct text; cbn; by rewrite ?app_nil_r.
    + intros Hs. destruct (shaped_note ev re Hs) as (fs & reason & -> & Hf). right.
      destruct (is_null _); [by exists fs, reason|]. rewrite (set_choice_shape _ _ _ _ Hf). eexists _, _. split; [done|].
      rewrite field_set. reflexivity.
    + intros Hc. destruct (get _ _) as [calls0|]; [|by injection Hcalls as <-]. apply bind_Ok_inv in Hcalls as (cs & _ & Hcalls). by eapply add_calls_ok.
Qed.

Lemma handle_line_after d texts l d' t : handle_line from_str d texts l = Ok (d', t) -> exists t', t = texts ++ t' /\ after d d' t'.
Proof.
  unfold handle_line. intros H. apply bind_Ok_inv in H as (raw & _ & H). destruct (bool_decide _).
  - apply bind_Ok_inv in H as ([d1 t1] & He & H). injection H as <- <-. eexists. split; [done|]. by destruct (event_after _ _ _ He).
  - exists []. destruct (strip_prefix _ _); injection H as <- <-; (split; [by rewrite app_nil_r|]); constructor; cbn; by rewrite ?app_nil_r.
Qed.

Lemma handle_lines_after ls d texts d' t : handle_lines from_str d texts ls = Ok (d', t) -> exists t', t = texts ++ t' /\ after d d' t'.
Proof.
  revert d texts. induction ls as [|l ls IH]; intros d texts H; cbn [handle_lines] in H.
  - injection H as <- <-. exists []. split; [by rewrite app_nil_r|]. constructor; [by rewrite app_nil_r | done..].
  - apply bind_Ok_inv in H as ([d1 t1] & H1 & H). apply handle_line_after in H1 as (u1 & E1 & [A1 A2 A3 [A4 A5]]). cbn [fst snd] in H.
    destruct (IH _ _ H) as (u2 & E2 & [B1 B2 B3 [B4 B5]]). exists (u1 ++ u2). split; [by rewrite E2, E1, app_assoc|].
    constructor; [by rewrite B1, A1, concat_app, app_assoc | auto | auto | split; congruence].
Qed.

Lemma push_after d bytes d' t : settled d -> push from_str d bytes = Ok (d', t) ->
  settled d' /\ content d' = content d ++ concat t /\ (shaped (response d) -> shaped (response d')) /\ (calls_ok (tool_calls d) -> calls_ok (tool_calls d')).
Proof.
  intros Hs. rewrite push_spec by done. cbn zeta. intros H. apply bind_Ok_inv in H as ([d1 t1] & H1 & H). injection H as <- <-.
  apply handle_lines_after in H1 as (u & -> & [A1 A2 A3 _]). cbn [app]. split; [apply with_pending_settled | done].
Qed.

Lemma omap_length_le {A B} (f : A -> option B) l : (length (omap f l) <= length l)%nat.
Proof.
  induction l as [|x l IH]; [done|]. change (omap f (x :: l)) with (match f x with Some y => y :: omap f l | None => omap f l end).
  destruct (f x); cbn [length]; lia.
Qed.

Lemma sorted_indices_spec m : calls_ok m -> sorted_indices m = seqZ 0 (Z.of_nat (base.size m)) ->
  (base.size m <= 30)%nat /\ Forall (fun c => exists i, call_ok i c) (omap (fun i => m !! i) (sorted_indices m)).
Proof.
  intros Hm E. split.
  - destruct (decide (base.size m <= 30)%nat) as [|Hgt]; [done|].
    assert (Hin : 30 ∈ sorted_indices m) by (rewrite E; apply elem_of_seqZ; lia).
    unfold sorted_indices in Hin. rewrite merge_sort_Permutation, elem_of_elements, elem_of_dom in Hin. destruct Hin as [c Hc].
    destruct (Hm _ _ Hc) as [Hr _]. unfold MAX_TOOL_CALLS in Hr. lia.
  - apply Forall_forall. intros c Hc. apply list_elem_of_omap in Hc as (i & _ & Hi). exists i. by apply Hm.
Qed.

(** The answer that [finish] puts together. *)
Definition answered (sent : list text) (v : json) : Prop :=
  exists calls reason,
    is_null reason = false /\ (length calls <= 30)%nat /\ Forall (fun c => exists i, call_ok i c) calls
    /\ index v (T "choices")
       = choices_json ([(T "role", JStr (T "assistant")); (T "content", JStr (concat sent))]
                       ++ if bool_decide (calls = []) then [] else [(T "tool_calls", JArr (map call_json calls))]) reason.

Lemma finish_answers d v : shaped (response d) -> calls_ok (tool_calls d) -> finish d = Ok v ->
  exists sent, concat sent = content d /\ answered sent v.
Proof.
  intros Hs Hc H. unfold finish in H. apply bind_Ok_inv in H as ([] & Hf%refuse_if_Ok & H). apply orb_false_iff in Hf as [_ Hf].
  destruct Hs as [Hn|(fs & reason & Hr & Hfs)]; [by rewrite Hn in Hf|]. rewrite Hr in H, Hf.
  unfold index at 2 in Hf. cbn [get] in Hf. rewrite Hfs in Hf.
  assert (Hreason : is_null reason = false) by exact Hf. clear Hf.
  exists [content d]. split; [cbn; apply app_nil_r|].
  rewrite (set_choice_shape _ _ _ _ Hfs) in H.
  set (c1 := set_key _ _ (JObj _)) in H.
  assert (Hc1 : JArr [c1] = choices_json [(T "role", JStr (T "assistant")); (T "content", JStr (content d))] reason) by reflexivity.
  case_bool_decide as He.
  - injection H as <-. exists [], reason. split; [done|]. split; [cbn; lia|]. split; [constructor|]. unfold index. cbn [get]. rewrite field_set.
    rewrite Hc1, (bool_decide_true ([] = [])) by done. cbn [concat]. by rewrite !app_nil_r.
  - apply bind_Ok_inv in H as ([] & Hi%refuse_if_Ok & H). apply negb_false_iff, bool_decide_eq_true in Hi.
    destruct (sorted_indices_spec _ Hc Hi) as [Hsz Hok]. injection H as <-.
    set (calls := omap _ _) in *. exists calls, reason. split; [done|]. split; [|split; [done|]].
    + unfold calls. rewrite Hi. clear -Hsz. etrans; [apply omap_length_le|]. rewrite length_seqZ. lia.
    + rewrite (set_choice_shape _ [(T "role", JStr (T "assistant")); (T "content", JStr (content d))] reason) by (rewrite field_set; by rewrite Hc1).
      unfold index. cbn [get]. rewrite field_set. rewrite bool_decide_false; [cbn [concat]; by rewrite app_nil_r|].
      intros E0. apply He. apply map_size_empty_inv. destruct (base.size (tool_calls d)) as [|n] eqn:En; [done|].
      assert (H0 : 0 ∈ sorted_indices (tool_calls d)) by (rewrite Hi; apply elem_of_seqZ; lia).
      pose proof H0 as Hin. unfold sorted_indices in Hin. rewrite merge_sort_Permutation, elem_of_elements, elem_of_dom in Hin. destruct Hin as [x Hx].
      assert (Hx' : x ∈ calls) by (apply list_elem_of_omap; by exists 0). rewrite E0 in Hx'. by apply not_elem_of_nil in Hx'.
Qed.

Context (accept : nat -> option harness_error).

Lemma send_all_spec sent texts sent' r : send_all accept sent texts = (sent', r) ->
  (forall n, (n < length sent)%nat -> accept n = None) ->
  (forall n, (n < length sent')%nat -> accept n = None) /\ (forall u, r = Ok u -> sent' = sent ++ texts).
Proof.
  revert sent. induction texts as [|t texts IH]; intros sent H Ha; cbn [send_all] in H.
  - injection H as <- <-. split; [done|]. intros. by rewrite app_nil_r.
  - destruct (accept (length sent)) as [e|] eqn:E; [injection H as <- <-; by split|].
    destruct (IH _ H) as [H1 H2].
    + intros n Hn. rewrite length_app in Hn. cbn in Hn. destruct (decide (n = length sent)) as [->|]; [done | apply Ha; lia].
    + split; [done|]. intros u Hu. rewrite (H2 u Hu), <- app_assoc. done.
Qed.

Lemma read_chunks_spec chunks bytes d sent sent' r :
  settled d -> content d = concat sent -> shaped (response d) -> calls_ok (tool_calls d) -> (forall n, (n < length sent)%nat -> accept n = None) ->
  read_chunks from_str accept chunks bytes d sent = (sent', r) ->
  (forall n, (n < length sent')%nat -> accept n = None) /\ forall v, r = Ok v -> answered sent' v.
Proof.
  revert bytes d sent. induction chunks as [|[c|] chunks IH]; intros bytes d sent Hd Hco Hs Hca Ha H; cbn [read_chunks] in H.
  - injection H as <- <-. split; [done|]. intros v Hv. destruct (finish_answers d v Hs Hca Hv) as (s0 & E & Hans).
    unfold answered in *. by rewrite <- Hco, <- E.
  - destruct (_ <? _); [injection H as <- <-; by split|].
    destruct (push from_str d c) as [[d1 t1]|e] eqn:Ep; [|injection H as <- <-; by split].
    destruct (push_after _ _ _ _ Hd Ep) as (Hd1 & Hc1 & Hs1 & Hca1).
    destruct (send_all accept sent t1) as [s2 [u|e]] eqn:Es; destruct (send_all_spec _ _ _ _ Es Ha) as [Ha2 Hs2]; [|injection H as <- <-; by split].
    specialize (Hs2 u eq_refl). subst s2.
    assert (Hco1 : content d1 = concat (sent ++ t1)) by (by rewrite Hc1, Hco, concat_app).
    destruct (done_ d1).
    + injection H as <- <-. split; [done|]. intros v Hv. destruct (finish_answers d1 v (Hs1 Hs) (Hca1 Hca) Hv) as (s0 & E & Hans).
      unfold answered in *. by rewrite <- Hco1, <- E.
    + exact (IH _ _ _ Hd1 Hco1 (Hs1 Hs) (Hca1 Hca) Ha2 H).
  - injection H as <- <-. by split.
Qed.

(** A streamed answer is what the client was shown: every text reached the
    client only after it was validated, and when the read succeeds the answer
    is one choice whose content is exactly the texts sent, in order, with a
    finish reason, and with at most 30 tool calls, contiguous from index 0,
    none of whose fields is longer than 4096 bytes. *)
Theorem answer_is_what_was_sent chunks sent r : read from_str accept chunks = (sent, r) ->
  (forall n, (n < length sent)%nat -> accept n = None) /\ forall v, r = Ok v -> answered sent v.
Proof.
  apply read_chunks_spec; [by split; [apply not_elem_of_nil|] | done | by left | apply map_Forall_empty | cbn; lia].
Qed.

(** ** A well-formed stream *)

(** An event as the server writes it. *)
Definition wire (es : list text) : list Z := flat_map (fun e => as_bytes (T "data: " ++ e) ++ [c_newline; c_newline]) es.
Definition event_line (e : text) : Prop := e <> [] /\ Forall (fun c => is_scalar c = true) e /\ c_newline ∉ e /\ c_cr ∉ e.

Definition with_data (e : text) (d : Decoder) : Decoder :=
  MkDecoder (pending d) (scanned d) e (response d) (done_ d) (content d) (tool_calls d).
Fixpoint handle_events (d : Decoder) (es : list text) : result harness_error (Decoder * list text) :=
  match es with
  | [] => Ok (d, [])
  | e :: es =>
      r ← event from_str (with_data e d);
      r' ← handle_events (fst r) es;
      mret (fst r', match snd r with Some t => [t] | None => [] end ++ snd r')
  end.

Lemma data_scalar e : Forall (fun c => is_scalar c = true) e -> Forall (fun c => is_scalar c = true) (T "data: " ++ e).
Proof. intros H. apply Forall_app. split; [|done]. apply Forall_forall. intros c Hc. apply list_elem_of_In in Hc. by repeat (destruct Hc as [<-|Hc]; [done|]). Qed.

Lemma trim_end_id f (s : text) : s <> [] -> (forall c, c ∈ s -> f c = false) -> trim_end f s = s.
Proof.
  intros Hne Hf. unfold trim_end. destruct (exists_last Hne) as (s0 & c & ->). rewrite rev_app_distr. cbn [rev app trim_start].
  rewrite Hf by (rewrite elem_of_app; right; apply list_elem_of_here). cbn. by rewrite rev_involutive.
Qed.

Lemma handle_data_line d texts e : event_line e -> data d = [] ->
  handle_line from_str d texts (as_bytes (T "data: " ++ e)) = Ok (with_data e d, texts).
Proof.
  intros (Hne & Hsc & Hnl & Hcr) Hd. unfold handle_line. rewrite from_utf8_bytes by (by apply data_scalar). cbn [ok_or mbind result_bind].
  rewrite trim_end_id; [|done|].
  - rewrite bool_decide_false by done.
    assert (E1 : strip_prefix (T "data:") (T "data: " ++ e) = Some (c_space :: e)) by (by apply strip_prefix_spec).
    assert (E2 : strip_prefix [c_space] (c_space :: e) = Some e) by (by apply strip_prefix_spec).
    rewrite E1, E2, Hd. done.
  - intros c Hc. apply Z.eqb_neq. intros ->. apply elem_of_app in Hc as [Hc|Hc]; [|done].
    revert Hc. exact (bool_decide_unpack (c_cr ∉ T "data: ") I).
Qed.
Lemma handle_blank_line d texts :
  handle_line from_str d texts [] = (r ← event from_str d; mret (fst r, texts ++ match snd r with Some t => [t] | None => [] end)).
Proof. done. Qed.

Lemma handle_event_lines es d texts : Forall event_line es -> data d = [] ->
  handle_lines from_str d texts (flat_map (fun e => [as_bytes (T "data: " ++ e); []]) es) = (fun r => (fst r, texts ++ snd r)) <$> handle_events d es.
Proof.
  intros Hes. revert d texts. induction Hes as [|e es He _ IH]; intros d texts Hd; cbn [flat_map handle_events]; [cbn; by rewrite app_nil_r|].
  cbn [app handle_lines]. rewrite handle_data_line by done. cbn [mbind result_bind fst snd]. rewrite handle_blank_line.
  destruct (event from_str (with_data e d)) as [[d1 t1]|] eqn:E; [|done]. cbn [mbind result_bind mret result_ret fst snd].
  destruct (event_after _ _ _ E) as [Hd1 _]. rewrite IH by done. destruct (handle_events d1 es) as [[d2 t2]|]; [|done]. cbn. by rewrite app_assoc.
Qed.

Lemma split_wire es : Forall event_line es -> split_on c_newline (wire es) = flat_map (fun e => [as_bytes (T "data: " ++ e); []]) es ++ [[]].
Proof.
  induction 1 as [|e es (Hne & Hsc & Hnl & Hcr) _ IH]; [done|]. unfold wire in *. cbn [flat_map]. rewrite <- app_assoc. cbn [app].
  rewrite split_on_app_sep.
  - cbn [split_on]. by rewrite Z.eqb_refl, IH.
  - apply bytes_newline. rewrite elem_of_app. intros [H|H]; [|done]. revert H. exact (bool_decide_unpack (c_newline ∉ T "data: ") I).
Qed.

Lemma handle_events_frame es d d' t : handle_events d es = Ok (d', t) -> pending d' = pending d /\ scanned d' = scanned d.
Proof.
  revert d t. induction es as [|e es IH]; intros d t H; cbn [handle_events] in H; [by injection H as <- _|].
  apply bind_Ok_inv in H as ([d1 t1] & H1 & H). apply bind_Ok_inv in H as ([d2 t2] & H2 & H). injection H as <- _.
  destruct (event_after _ _ _ H1) as [_ [_ _ _ [E1 E2]]]. destruct (IH _ _ H2) as [E3 E4]. cbn [fst with_data pending scanned] in *. split; congruence.
Qed.

(** A server's stream of events is read back: when the bytes are the
    events, each written as a data line and a blank line in UTF-8, then in
    whatever chunks they arrive the decoder handles exactly these events, in
    order, and nothing is left pending. *)
Theorem sse_round_trip es chunks : Forall event_line es -> concat chunks = wire es ->
  feed from_str default_decoder chunks = handle_events default_decoder es.
Proof.
  intros Hes Hc. rewrite feed_is_decode, Hc. unfold decode. cbn zeta. rewrite split_wire, removelast_last, List.last_last by done.
  rewrite handle_event_lines by done. destruct (handle_events default_decoder es) as [[d t]|] eqn:E; [|done].
  destruct (handle_events_frame _ _ _ _ E) as [Hp Hs]. destruct d as [pd sc da re dn co ca]. cbn in Hp, Hs. by subst.
Qed.
End Answers.

(** ** One answer *)
Module SmallStream.
Definition hello_event : json :=
  JObj [(T "choices", JArr [JObj [(T "index", JInt 0); (T "delta", JObj [(T "content", JStr [104; 233])]); (T "finish_reason", JNull)]])].
Definition call_event : json :=
  JObj [(T "choices", JArr [JObj [(T "index", JInt 0);
    (T "delta", JObj [(T "tool_calls", JArr [JObj [(T "index", JInt 0); (T "id", JStr (T "call_a"));
                                                  (T "function", JObj [(T "name", JStr (T "web_fetch")); (T "arguments", JStr (T "{}"))])]])]);
    (T "finish_reason", JStr (T "tool_calls"))]])].
(** The events [h\u{e9}] and [call] stand for the two JSON objects. *)
Definition small_from_str (s : text) : option json :=
  if teqb s [104; 233] then Some hello_event else if teqb s (T "call") then Some call_event else None.
Definition small_events : list text := [[104; 233]; T "call"; T "[DONE]"].
(** The transport cuts the stream inside the two bytes of [\u{e9}]. *)
Definition small_chunks : list (list Z) := [take 8 (wire small_events); drop 8 (wire small_events)].
Definition accept_all (n : nat) : option harness_error := None.
Definition small_answer : list text * result harness_error json := read small_from_str accept_all (map Some small_chunks).

Lemma answer_is_what_was_sent_witness :
  exists v, small_answer = ([[104; 233]], Ok v) /\ answered [[104; 233]] v.
Proof.
  assert (H : exists v, small_answer = ([[104; 233]], Ok v)) by (eexists; vm_compute; reflexivity).
  destruct H as [v H]. exists v. split; [exact H|]. exact (proj2 (answer_is_what_was_sent small_from_str accept_all (map Some small_chunks) _ _ H) v eq_refl).
Defined.

Lemma small_event_lines : Forall event_line small_events.
Proof.
  unfold small_events. repeat apply Forall_cons_2; [..|apply Forall_nil_2];
    (split; [done|]; split; [apply (bool_decide_unpack (Forall (fun c => is_scalar c = true) _)); vm_compute; reflexivity|]);
    split; apply (bool_decide_unpack (_ ∉ _)); vm_compute; reflexivity.
Qed.
Lemma sse_round_trip_witness :
  last (as_bytes (T "data: h") ++ [195]) = last (nth 0 small_chunks [])
  /\ feed small_from_str default_decoder small_chunks = handle_events small_from_str default_decoder small_events
  /\ exists d, handle_events small_from_str default_decoder small_events = Ok (d, [[104; 233]]).
Proof.
  split; [vm_compute; reflexivity|]. split; [|eexists; vm_compute; reflexivity].
  apply (sse_round_trip small_from_str small_events small_chunks small_event_lines). vm_compute. reflexivity.
Defined.
End SmallStream.
