(* ===== verification/Authn.v ===== *)
(** Account names, passwords, setup codes and lockout arithmetic,
    [common/authn.rs].

    scrypt and base64 are parameters with the laws used; so is the lower-casing
    of Unicode.  Random bytes are arguments.  Lockout times are [f64] seconds
    in the source and exact integers here. *)

From S2P Require Import Prelude Text Effects Owners.
Local Open Scope Z_scope.

Definition SCRYPT_LOG_N : Z := 17.
Definition SCRYPT_N : Z := 131072.
Definition SCRYPT_R : Z := 8.
Definition SCRYPT_P : Z := 1.
Definition SCRYPT_DKLEN : nat := 32.
Definition ALGO : text := T "scrypt".
Definition PENDING_HASH_PREFIX : text := T "pending$".
Definition LOCKOUT_THRESHOLD : Z := 5.
Definition LOCKOUT_BASE_SEC : Z := 2.
Definition LOCKOUT_CEILING_SEC : Z := 900.
Definition PORTAL_AUDITOR_ROLE : text := T "portal_auditor".
Definition ROLES : list text := [T "admin"; T "operator"; T "audit"; PORTAL_AUDITOR_ROLE].
Definition MIN_PASSWORD_LEN : nat := 12.
Definition MAX_PASSWORD_LEN : nat := 1024.
Definition err_password_policy : harness_error := err_code "PASSWORD_POLICY".
Definition c_dollar : char := 36.

(** ** Lockout *)

Definition lockout_delay_sec (failed_count : Z) : Z :=
  if failed_count <? LOCKOUT_THRESHOLD then 0
  else Z.min (LOCKOUT_BASE_SEC * 2 ^ Z.min (failed_count - LOCKOUT_THRESHOLD) 32) LOCKOUT_CEILING_SEC.
Definition is_locked (locked_until_ts : option Z) (now : Z) : bool :=
  match locked_until_ts with Some t => (0 <? t) && (now <? t) | None => false end.

(** ** Setup codes *)

Definition SETUP_CODE_ALPHABET : text := T "23456789abcdefghjkmnpqrstuvwxyz".
Definition SETUP_CODE_LEN : nat := 16.

(** The loop of [group_setup_code], from symbol [i] on. *)
Fixpoint group_from (i : nat) (symbols : text) : text :=
  match symbols with
  | [] => []
  | c :: symbols => (if (0 <? i)%nat && (i mod 4 =? 0)%nat then [c_dash] else []) ++ c :: group_from (S i) symbols
  end.
Definition group_setup_code (symbols : text) : text := group_from 0 symbols.

(** [draws] are the random indices. *)
Definition new_setup_code (draws : list nat) : text :=
  group_setup_code (map (fun i => nth i SETUP_CODE_ALPHABET 0) draws).

Definition is_formatting (c : char) : bool := is_whitespace c || existsb (Z.eqb c) [c_dash; c_dot; 44].
Definition in_alphabet (c : char) : bool := existsb (Z.eqb c) SETUP_CODE_ALPHABET.
Definition normalize_setup_code (input : text) : option text :=
  let symbols := map to_ascii_lower (List.filter (fun c => negb (is_formatting c)) input) in
  if (length symbols =? SETUP_CODE_LEN)%nat && forallb in_alphabet symbols then Some (group_setup_code symbols) else None.

Section Authn.
Context (lower : text -> text).

(** ** Names and policy *)

Definition validate_role (role : text) : result harness_error text :=
  let canonical := lower (trim role) in
  if existsb (teqb canonical) ROLES then Ok canonical else Err err_password_policy.

(** [\A[a-z0-9][a-z0-9_.-]{0,31}\z] *)
Definition username_matches (s : text) : bool :=
  match s with
  | c :: rest =>
      (is_ascii_lower c || is_ascii_digit c) && (length rest <=? 31)%nat
      && forallb (fun c => is_ascii_lower c || is_ascii_digit c || existsb (Z.eqb c) [95; c_dot; c_dash]) rest
  | [] => false
  end.
Definition validate_username (username : text) : result harness_error text :=
  let canonical := lower (trim username) in
  if username_matches canonical then Ok canonical else Err err_password_policy.

Definition validate_password (password : text) : result harness_error unit :=
  _ ← refuse_if (length password <? MIN_PASSWORD_LEN)%nat err_password_policy;
  refuse_if (MAX_PASSWORD_LEN <? length password)%nat err_password_policy.

(** ** Password records *)

(** [derive password salt log_n r p]: scrypt with 32 bytes of output, [None]
    for parameters it refuses. *)
Context (b64 : list Z -> text) (unb64 : text -> option (list Z)) (derive : text -> list Z -> Z -> Z -> Z -> option (list Z)).

Definition hash_unchecked (password : text) (salt : list Z) : result harness_error text :=
  derived ← ok_or (derive password salt SCRYPT_LOG_N SCRYPT_R SCRYPT_P) (err_code "AUTH_ERROR");
  mret (join [c_dollar] [ALGO; show_nat SCRYPT_N; show_nat SCRYPT_R; show_nat SCRYPT_P; b64 salt; b64 derived]).
Definition hash_password_with_salt (password : text) (salt : list Z) : result harness_error text :=
  _ ← validate_password password;
  hash_unchecked password salt.

Definition is_pending_password_record (record : text) : bool := starts_with PENDING_HASH_PREFIX record.
Definition is_power_of_two (n : Z) : bool := (0 <? n) && (n =? 2 ^ Z.log2 n).

Definition valid_password_record (record : text) : bool :=
  match split_on c_dollar (default record (strip_prefix PENDING_HASH_PREFIX record)) with
  | [algo; n; r; p; salt; hash] =>
      teqb algo ALGO
      && match parse_uint usize_max n, parse_uint u32_max r, parse_uint u32_max p with
         | Some n, Some r, Some p =>
             (2 <=? n) && is_power_of_two n && (n <=? SCRYPT_N) && (0 <? r) && (r <=? SCRYPT_R) && (0 <? p) && (p <=? SCRYPT_P)
         | _, _, _ => false
         end
      && match unb64 salt with Some s => negb (bool_decide (s = [])) && (length s <=? 64)%nat | None => false end
      && match unb64 hash with Some h => (length h =? SCRYPT_DKLEN)%nat | None => false end
  | _ => false
  end.

(** [(ok, needs_rehash)].  The cost that the source pays for a pending record
    before it refuses has no other effect. *)
Definition verify_password (password record : text) : bool * bool :=
  match strip_prefix PENDING_HASH_PREFIX record with
  | Some _ => (false, false)
  | None =>
      match split_on c_dollar record with
      | [algo; n; r; p; salt; hash] =>
          if negb (teqb algo ALGO) then (false, false)
          else match parse_uint usize_max n, parse_uint u32_max r, parse_uint u32_max p with
               | Some n, Some r, Some p =>
                   match unb64 salt, unb64 hash with
                   | Some salt, Some expected =>
                       if (SCRYPT_N <? n) || (SCRYPT_R <? r) || (SCRYPT_P <? p) || negb (length expected =? SCRYPT_DKLEN)%nat then (false, false)
                       else if (n <? 2) || negb (is_power_of_two n) || (r =? 0) || (p =? 0) then (false, false)
                       else match derive password salt (Z.log2 n) r p with
                            | Some derived =>
                                let ok := bool_decide (derived = expected) in
                                (ok, ok && ((n <? SCRYPT_N) || (r <? SCRYPT_R) || (p <? SCRYPT_P)))
                            | None => (false, false)
                            end
                   | _, _ => (false, false)
                   end
               | _, _, _ => (false, false)
               end
      | _ => (false, false)
      end
  end.
End Authn.

(** ** Lemmas *)

Lemma lockout_delay_bounds n : 0 <= lockout_delay_sec n <= 900.
Proof.
  unfold lockout_delay_sec, LOCKOUT_BASE_SEC, LOCKOUT_CEILING_SEC. destruct (Z.ltb_spec n LOCKOUT_THRESHOLD); [lia|].
  assert (0 <= 2 ^ Z.min (n - LOCKOUT_THRESHOLD) 32) by (apply Z.pow_nonneg; lia). lia.
Qed.
Lemma lockout_delay_full n : 14 <= n -> lockout_delay_sec n = 900.
Proof.
  intros Hn. unfold lockout_delay_sec, LOCKOUT_THRESHOLD, LOCKOUT_BASE_SEC, LOCKOUT_CEILING_SEC. rewrite (proj2 (Z.ltb_ge _ _)) by lia.
  assert (H : 2 ^ 9 <= 2 ^ Z.min (n - 5) 32) by (apply Z.pow_le_mono_r; lia). change (2 ^ 9) with 512 in H. lia.
Qed.

Lemma alphabet_plain c : in_alphabet c = true -> is_formatting c = false /\ to_ascii_lower c = c.
Proof.
  unfold in_alphabet. intros H. apply existsb_exists in H as (x & Hx & ->%Z.eqb_eq).
  assert (Hall : forallb (fun c => negb (is_formatting c) && (to_ascii_lower c =? c)) SETUP_CODE_ALPHABET = true) by reflexivity.
  rewrite forallb_forall in Hall. specialize (Hall _ Hx). apply andb_true_iff in Hall as [H1 H2]. by apply negb_true_iff in H1; apply Z.eqb_eq in H2.
Qed.

Lemma ungroup i symbols : forallb in_alphabet symbols = true ->
  map to_ascii_lower (List.filter (fun c => negb (is_formatting c)) (group_from i symbols)) = symbols.
Proof.
  revert i. induction symbols as [|c symbols IH]; intros i H; [done|]. cbn [forallb] in H. apply andb_true_iff in H as [Hc H].
  destruct (alphabet_plain c Hc) as [H1 H2]. cbn [group_from]. rewrite List.filter_app, map_app.
  assert (E : map to_ascii_lower (List.filter (fun c => negb (is_formatting c)) (if (0 <? i)%nat && (i mod 4 =? 0)%nat then [c_dash] else [])) = [])
    by (by destruct (_ && _)).
  rewrite E. cbn [app List.filter]. rewrite H1. cbn [negb map]. by rewrite H2, IH.
Qed.

(** A code in any spelling has one canonical form, and no two codes share it. *)
Lemma setup_code_canonical symbols : length symbols = SETUP_CODE_LEN -> forallb in_alphabet symbols = true ->
  normalize_setup_code (group_setup_code symbols) = Some (group_setup_code symbols).
Proof.
  intros Hl Ha. unfold normalize_setup_code, group_setup_code. cbn zeta. by rewrite ungroup, Hl, Ha, Nat.eqb_refl.
Qed.
Lemma group_inj s1 s2 : forallb in_alphabet s1 = true -> forallb in_alphabet s2 = true -> group_setup_code s1 = group_setup_code s2 -> s1 = s2.
Proof. intros H1 H2 E. rewrite <- (ungroup 0 s1 H1), <- (ungroup 0 s2 H2). unfold group_setup_code in E. by rewrite E. Qed.
Lemma normalize_idempotent s c : normalize_setup_code s = Some c -> normalize_setup_code c = Some c.
Proof.
  intros H. unfold normalize_setup_code in H. cbn zeta in H. destruct (_ && _) eqn:E; [|done]. injection H as <-.
  apply andb_true_iff in E as [Hl%Nat.eqb_eq Ha]. by apply setup_code_canonical.
Qed.

Section Records.
Context (lower : text -> text) (b64 : list Z -> text) (unb64 : text -> option (list Z)) (derive : text -> list Z -> Z -> Z -> Z -> option (list Z)).
Context (b64_decodes : forall x, unb64 (b64 x) = Some x) (b64_alphabet : forall x, c_dollar ∉ b64 x).
Context (derive_length : forall pw s n r p h, derive pw s n r p = Some h -> length h = SCRYPT_DKLEN).

Lemma hashed_parts password salt record : hash_unchecked b64 derive password salt = Ok record ->
  exists h, derive password salt SCRYPT_LOG_N SCRYPT_R SCRYPT_P = Some h
    /\ strip_prefix PENDING_HASH_PREFIX record = None
    /\ split_on c_dollar record = [ALGO; show_nat SCRYPT_N; show_nat SCRYPT_R; show_nat SCRYPT_P; b64 salt; b64 h].
Proof.
  unfold hash_unchecked. intros H. apply bind_Ok_inv in H as (h & Hh%ok_or_Ok & H). apply Ok_inj in H. exists h. split; [done|].
  subst record. split; [|apply split_on_join; [done|]].
  - unfold strip_prefix. reflexivity.
  - repeat apply Forall_cons_2; [..|apply Forall_nil_2]; try apply b64_alphabet; apply (bool_decide_unpack (_ ∉ _)); vm_compute; reflexivity.
Qed.

Lemma verify_hashed password salt record : hash_unchecked b64 derive password salt = Ok record ->
  exists h, derive password salt SCRYPT_LOG_N SCRYPT_R SCRYPT_P = Some h
    /\ forall q, verify_password unb64 derive q record = (bool_decide (derive q salt SCRYPT_LOG_N SCRYPT_R SCRYPT_P = Some h), false).
Proof.
  intros H. destruct (hashed_parts _ _ _ H) as (h & Hh & Hp & Hs). exists h. split; [done|]. intros q. unfold verify_password.
  rewrite Hp, Hs. change (teqb ALGO ALGO) with true. change (parse_uint usize_max (show_nat SCRYPT_N)) with (Some SCRYPT_N).
  change (parse_uint u32_max (show_nat SCRYPT_R)) with (Some SCRYPT_R). change (parse_uint u32_max (show_nat SCRYPT_P)) with (Some SCRYPT_P).
  cbn [negb]. rewrite !b64_decodes, (derive_length _ _ _ _ _ _ Hh). cbn [Z.ltb Z.compare]. change (Z.log2 SCRYPT_N) with SCRYPT_LOG_N.
  change (negb (SCRYPT_DKLEN =? SCRYPT_DKLEN)%nat) with false.
  change ((SCRYPT_N <? SCRYPT_N) || (SCRYPT_R <? SCRYPT_R) || (SCRYPT_P <? SCRYPT_P)) with false.
  change ((SCRYPT_N <? 2) || negb (is_power_of_two SCRYPT_N) || (SCRYPT_R =? 0) || (SCRYPT_P =? 0)) with false. cbn [orb].
  destruct (derive q salt SCRYPT_LOG_N SCRYPT_R SCRYPT_P) as [d|]; [|by rewrite bool_decide_false].
  rewrite andb_false_r. f_equal. apply bool_decide_ext. split; [by intros ->| by intros [= ->]].
Qed.

Lemma hashed_valid password salt record : salt <> [] -> (length salt <= 64)%nat -> hash_unchecked b64 derive password salt = Ok record ->
  valid_password_record unb64 record = true.
Proof.
  intros Hne Hl H. destruct (hashed_parts _ _ _ H) as (h & Hh & Hp & Hs). unfold valid_password_record. rewrite Hp. cbn [default].
  unfold default. rewrite Hs. change (parse_uint usize_max (show_nat SCRYPT_N)) with (Some SCRYPT_N).
  change (parse_uint u32_max (show_nat SCRYPT_R)) with (Some SCRYPT_R). change (parse_uint u32_max (show_nat SCRYPT_P)) with (Some SCRYPT_P).
  rewrite !b64_decodes, (derive_length _ _ _ _ _ _ Hh), Nat.eqb_refl, bool_decide_false by done. rewrite (proj2 (Nat.leb_le _ _) Hl). reflexivity.
Qed.

(** A password record admits exactly what scrypt maps to its key: the
    record of an accepted password verifies that password, needs no rehash, and
    verifies another one only if scrypt derives the same 32 bytes from it; it
    is a record that the account store accepts; and a pending record, whatever
    follows its mark, verifies nothing. *)
Theorem password_record_round_trip password salt record :
  salt <> [] -> (length salt <= 64)%nat -> hash_password_with_salt b64 derive password salt = Ok record ->
  verify_password unb64 derive password record = (true, false)
  /\ valid_password_record unb64 record = true
  /\ (forall q, fst (verify_password unb64 derive q record) = true <->
        derive q salt SCRYPT_LOG_N SCRYPT_R SCRYPT_P = derive password salt SCRYPT_LOG_N SCRYPT_R SCRYPT_P)
  /\ (forall q, verify_password unb64 derive q (PENDING_HASH_PREFIX ++ record) = (false, false)).
Proof.
  intros Hne Hl H. apply bind_Ok_inv in H as ([] & _ & H). destruct (verify_hashed _ _ _ H) as (h & Hh & Hv).
  split; [by rewrite Hv, bool_decide_true|]. split; [by eapply hashed_valid|]. split.
  - intros q. rewrite Hv. cbn [fst]. by rewrite bool_decide_eq_true, Hh.
  - intros q. unfold verify_password. by rewrite (proj2 (strip_prefix_spec _ _ record)).
Qed.
End Records.

(** ** A small codec *)

Module SmallCodec.
Definition b64 (x : list Z) : text := map (fun n => 2 * n + 1) x.
Definition unb64 (s : text) : option (list Z) := Some (map (fun c => c / 2) s).
Definition derive (password : text) (salt : list Z) (n r p : Z) : option (list Z) := Some (take 32 (password ++ salt ++ repeat 0 32)).

Lemma b64_decodes x : unb64 (b64 x) = Some x.
Proof.
  unfold unb64, b64. rewrite map_map. f_equal. rewrite <- (map_id x) at 2. apply map_ext. intros n.
  rewrite Z.mul_comm, Z.div_add_l by lia. change (1 / 2) with 0. lia.
Qed.
Lemma b64_alphabet x : c_dollar ∉ b64 x.
Proof. unfold b64, c_dollar. rewrite list_elem_of_In, in_map_iff. intros (n & Hn & _). lia. Qed.
Lemma derive_length pw s n r p h : derive pw s n r p = Some h -> length h = SCRYPT_DKLEN.
Proof. intros [= <-]. unfold SCRYPT_DKLEN. rewrite length_take, !length_app. cbn [repeat length]. lia. Qed.

Lemma password_record_round_trip_witness :
  exists record, hash_password_with_salt b64 derive (T "correct horse battery") [1; 2; 3] = Ok record
    /\ verify_password unb64 derive (T "correct horse battery") record = (true, false).
Proof.
  assert (H : is_ok (hash_password_with_salt b64 derive (T "correct horse battery") [1; 2; 3]) = true) by (vm_compute; reflexivity).
  destruct (hash_password_with_salt b64 derive (T "correct horse battery") [1; 2; 3]) as [record|] eqn:E; [|discriminate H].
  exists record. split; [reflexivity|].
  apply (password_record_round_trip b64 unb64 derive b64_decodes b64_alphabet derive_length (T "correct horse battery") [1; 2; 3] record);
    [discriminate | cbn; lia | exact E].
Defined.
End SmallCodec.
