(* ===== verification/Accounts.v ===== *)
(** Accounts and sessions, [common/auth_store.rs] and the storage rules of
    [common/auth_sqlite.rs].

    The store is what the database holds and the copy in memory.  An operation
    holds the lock from its first read to its last write, so it is one step.
    SQLite is an oracle: a transaction commits completely or not at all.
    scrypt, base64, SHA-256 and the lower-casing of Unicode are parameters,
    random values and the clock are in the oracle of a step.  Times are [f64]
    seconds in the source and exact integers here, [second] of them in a
    second. *)

From S2P Require Import Prelude Text Effects Owners Authn.
Local Open Scope Z_scope.

Definition BOOTSTRAP_USERNAME : text := T "admin".
Definition MAX_USERS : nat := 128.
Definition MAX_SESSIONS : nat := 4096.
Definition err_auth_invalid : harness_error := err_code "AUTH_CONFIG_INVALID".
Definition err_login_failed : harness_error := err_code "AUTH_LOGIN_FAILED".
Definition err_not_found : harness_error := err_code "AUTH_USER_NOT_FOUND".
Definition err_last_admin : harness_error := err_code "AUTH_LAST_ADMIN".
Definition err_locked : harness_error := err_code "AUTH_ACCOUNT_LOCKED".
Definition err_limit : harness_error := err_code "AUTH_LIMIT".

Record UserRow := MkUserRow {
  user_id : text; must_change_password : bool; password_hash : text; created_ts : Z; disabled : bool;
  last_login_ts : option Z; failed_count : Z; locked_until_ts : option Z; role : text;
}.
Record SessionRow := MkSessionRow {
  s_username : text; csrf_hash : text; s_created_ts : Z; last_seen_ts : Z; expires_ts : Z; revoked : bool;
}.
Record AuthDb := MkDb { users : gmap text UserRow; sessions : gmap text SessionRow }.
Record LoginResult := MkLogin { l_username : text; session_id : text; l_expires_ts : Z }.
Record SessionInfo := MkInfo { i_session_id : text; i_username : text }.

(** Both limits of a session, and both for an account that must replace its
    password. *)
Record Limits := MkLimits {
  idle_timeout_sec : Z; absolute_timeout_sec : Z; restricted_idle_timeout_sec : Z; restricted_absolute_timeout_sec : Z;
}.

(** [AppConfig::f64_in]: [get] is the number under a key, [None] when absent. *)
Definition f64_in (second : Z) (get : text -> option (option Z)) (key : string) (default : Z) : result harness_error Z :=
  match from_option id (Some default) (get (T key)) with
  | Some n => if (60 * second <=? n) && (n <=? 2592000 * second) then Ok n else Err err_config
  | None => Err err_config
  end.
(** The limits of [AuthManager::open]. *)
Definition load_limits (second : Z) (get : text -> option (option Z)) : result harness_error Limits :=
  idle ← f64_in second get "auth.session.idle_timeout_sec" (43200 * second);
  absolute ← f64_in second get "auth.session.absolute_timeout_sec" (604800 * second);
  restricted_idle ← f64_in second get "auth.session.password_change_idle_timeout_sec" (600 * second);
  restricted_absolute ← f64_in second get "auth.session.password_change_absolute_timeout_sec" (1800 * second);
  mret (MkLimits idle absolute (Z.min restricted_idle idle) (Z.min restricted_absolute absolute)).

(** Field updates. *)
Definition with_role (u : UserRow) (r : text) : UserRow :=
  MkUserRow (user_id u) (must_change_password u) (password_hash u) (created_ts u) (disabled u) (last_login_ts u) (failed_count u) (locked_until_ts u) r.
Definition with_password (u : UserRow) (record : text) (must_change : bool) : UserRow :=
  MkUserRow (user_id u) must_change record (created_ts u) (disabled u) (last_login_ts u) (failed_count u) (locked_until_ts u) (role u).
Definition with_disabled (u : UserRow) (d : bool) : UserRow :=
  MkUserRow (user_id u) (must_change_password u) (password_hash u) (created_ts u) d (last_login_ts u) (failed_count u) (locked_until_ts u) (role u).
Definition with_failures (u : UserRow) (n : Z) (until : option Z) : UserRow :=
  MkUserRow (user_id u) (must_change_password u) (password_hash u) (created_ts u) (disabled u) (last_login_ts u) n until (role u).
Definition with_login (u : UserRow) (t : Z) : UserRow :=
  MkUserRow (user_id u) (must_change_password u) (password_hash u) (created_ts u) (disabled u) (Some t) (failed_count u) (locked_until_ts u) (role u).
Definition revoke (r : SessionRow) : SessionRow := MkSessionRow (s_username r) (csrf_hash r) (s_created_ts r) (last_seen_ts r) (expires_ts r) true.

Definition enabled_admin (u : UserRow) : bool := teqb (role u) (T "admin") && negb (disabled u).
Definition count_enabled_admins (db : AuthDb) : nat := base.size (filter (fun '(_, u) => enabled_admin u = true) (users db)).
Definition revoke_sessions_for (db : AuthDb) (username : text) : AuthDb :=
  MkDb (users db) ((fun r => if teqb (s_username r) username then revoke r else r) <$> sessions db).
Definition set_user (db : AuthDb) (name : text) (u : UserRow) : AuthDb := MkDb (<[name := u]> (users db)) (sessions db).

Section Accounts.
Context (lower : text -> text) (b64 : list Z -> text) (unb64 : text -> option (list Z))
  (derive : text -> list Z -> Z -> Z -> Z -> option (list Z)) (hash_token : text -> text) (second : Z) (limits : Limits).

(** ** Storage *)

Definition timestamp (t : Z) : bool := (0 <=? t) && (t <? 10 ^ 12 * second).
Definition opt_timestamp (t : option Z) : bool := match t with Some t => timestamp t | None => true end.
Definition is_hex_of (n : Z) (s : text) : bool := (byte_len s =? n) && forallb is_hex_char s.

Definition user_ok (name : text) (u : UserRow) : bool :=
  is_hex_of 32 (user_id u)
  && match validate_username lower name with Ok n => teqb n name | Err _ => false end
  && match validate_role lower (role u) with Ok r => teqb r (role u) | Err _ => false end
  && valid_password_record unb64 (password_hash u)
  && timestamp (created_ts u) && opt_timestamp (last_login_ts u) && opt_timestamp (locked_until_ts u).
Definition session_ok (names : gmap text UserRow) (id : text) (s : SessionRow) : bool :=
  is_hex_of 64 id && bool_decide (is_Some (names !! s_username s)) && is_hex_of 64 (csrf_hash s)
  && timestamp (s_created_ts s) && timestamp (last_seen_ts s) && timestamp (expires_ts s).

(** [sqlite::validate] *)
Definition db_ok (db : AuthDb) : bool :=
  (1 <=? base.size (users db))%nat && (base.size (users db) <=? MAX_USERS)%nat && (base.size (sessions db) <=? MAX_SESSIONS)%nat
  && (1 <=? count_enabled_admins db)%nat
  && bool_decide (NoDup (map (fun '(_, u) => user_id u) (map_to_list (users db))))
  && bool_decide (map_Forall (fun name u => user_ok name u = true) (users db))
  && bool_decide (map_Forall (fun id s => session_ok (users db) id s = true) (sessions db)).

(** The copy in memory and the database. *)
Record Store := MkStore { memory : AuthDb; disk : AuthDb; setup_file : option text }.

(** What a step learns from outside: the clock, whether the transaction
    commits and whether the setup code's file is replaced, and random values. *)
Record oracle := MkOracle {
  now : Z; stored : bool; file_written : bool; salt : list Z; new_user_id : text; new_session_id : text; new_csrf : text; draws : list nat;
}.

Definition persist (o : oracle) (s : Store) (db : AuthDb) : Store * result harness_error unit :=
  if negb (db_ok db) then (s, Err err_auth_invalid)
  else if negb (stored o) then (s, Err err_auth_invalid)
  else (MkStore db db (setup_file s), Ok tt).

(** A step that computes a new database, or refuses, and then persists it. *)
Definition commit_with {A} (o : oracle) (s : Store) (r : result harness_error (AuthDb * A)) : Store * result harness_error A :=
  match r with
  | Err e => (s, Err e)
  | Ok (db, a) => match persist o s db with (s, Ok _) => (s, Ok a) | (s, Err e) => (s, Err e) end
  end.

Definition hash_password (o : oracle) (password : text) : result harness_error text := hash_password_with_salt b64 derive password (salt o).

(** ** Accounts *)

Definition canonical (username : text) : text := lower (trim username).
Definition session_limits (must_change : bool) : Z * Z :=
  if must_change then (restricted_idle_timeout_sec limits, restricted_absolute_timeout_sec limits)
  else (idle_timeout_sec limits, absolute_timeout_sec limits).
Definition credential (username : text) (u : UserRow) (password : text) : text :=
  if teqb username BOOTSTRAP_USERNAME && must_change_password u then default password (normalize_setup_code password) else password.
Definition forget_setup_code (username : text) (s : Store) : Store :=
  if teqb username BOOTSTRAP_USERNAME then MkStore (memory s) (disk s) None else s.

Definition create_user (o : oracle) (s : Store) (username password role : text) : Store * result harness_error text :=
  commit_with o s
    (name ← validate_username lower username;
     role ← validate_role lower role;
     record ← hash_password o password;
     let db := memory s in
     _ ← refuse_if (MAX_USERS <=? base.size (users db))%nat err_limit;
     _ ← refuse_if (bool_decide (is_Some (users db !! name))) (err_code "AUTH_USER_EXISTS");
     mret (set_user db name (MkUserRow (new_user_id o) false record (now o) false None 0 None role), name)).

Definition is_last_enabled_admin (db : AuthDb) (name : text) : bool :=
  match users db !! name with Some u => enabled_admin u && (count_enabled_admins db <=? 1)%nat | None => false end.

Definition set_role (o : oracle) (s : Store) (username role : text) : Store * result harness_error unit :=
  let name := canonical username in
  commit_with o s
    (role ← validate_role lower role;
     let db := memory s in
     u ← ok_or (users db !! name) err_not_found;
     _ ← refuse_if (negb (teqb role (T "admin")) && is_last_enabled_admin db name) err_last_admin;
     mret (revoke_sessions_for (set_user db name (with_role u role)) name, tt)).

Definition delete_user (o : oracle) (s : Store) (username : text) : Store * result harness_error unit :=
  let name := canonical username in
  commit_with o s
    (let db := memory s in
     _ ← ok_or (users db !! name) err_not_found;
     _ ← refuse_if (is_last_enabled_admin db name) err_last_admin;
     mret (MkDb (delete name (users db)) (filter (fun '(_, r) => s_username r <> name) (sessions db)), tt)).

Definition set_disabled (o : oracle) (s : Store) (username : text) (d : bool) : Store * result harness_error unit :=
  let name := canonical username in
  commit_with o s
    (let db := memory s in
     u ← ok_or (users db !! name) err_not_found;
     _ ← refuse_if (d && is_last_enabled_admin db name) err_last_admin;
     let u := with_disabled u d in
     let u := if d then u else with_failures u 0 None in
     let db := set_user db name u in
     mret (if d then revoke_sessions_for db name else db, tt)).

Definition set_password (o : oracle) (s : Store) (username password : text) : Store * result harness_error unit :=
  let name := canonical username in
  let '(s', r) := commit_with o s
    (record ← hash_password o password;
     let db := memory s in
     u ← ok_or (users db !! name) err_not_found;
     mret (revoke_sessions_for (set_user db name (with_failures (with_password u record false) 0 None)) name, tt)) in
  (if is_ok r then forget_setup_code name s' else s', r).

(** ** Sessions *)

Definition create_session (o : oracle) (db : AuthDb) (name : text) : result harness_error (AuthDb * LoginResult) :=
  let must_change := match users db !! name with Some u => must_change_password u | None => false end in
  let '(_, absolute) := session_limits must_change in
  let live := filter (fun '(_, r) => negb (revoked r) && (now o <? expires_ts r) && (now o <? last_seen_ts r + idle_timeout_sec limits) = true) (sessions db) in
  _ ← refuse_if (MAX_SESSIONS <=? base.size live)%nat err_limit;
  let expires := now o + absolute in
  mret (MkDb (users db) (<[hash_token (new_session_id o) := MkSessionRow name (hash_token (new_csrf o)) (now o) (now o) expires false]> live),
        MkLogin name (new_session_id o) expires).

Definition change_password (o : oracle) (s : Store) (username current password : text) : Store * result harness_error LoginResult :=
  let name := canonical username in
  let '(s', r) := commit_with o s
    (record ← hash_password o password;
     let db := memory s in
     u ← ok_or (users db !! name) err_login_failed;
     let current := credential name u current in
     _ ← refuse_if (disabled u || negb (fst (verify_password unb64 derive current (password_hash u)))) err_login_failed;
     _ ← refuse_if (teqb (credential name u password) current) err_password_policy;
     create_session o (revoke_sessions_for (set_user db name (with_failures (with_password u record false) 0 None)) name) name) in
  (if is_ok r then forget_setup_code name s' else s', r).

Definition u32_succ (n : Z) : Z := Z.min (n + 1) (2 ^ 32 - 1).

Definition login (o : oracle) (s : Store) (username password : text) : Store * result harness_error LoginResult :=
  let name := canonical username in
  let db := memory s in
  match users db !! name with
  | None => (s, Err err_login_failed)
  | Some u =>
      if is_locked (locked_until_ts u) (now o) then (s, Err err_locked)
      else
        let '(ok, needs_rehash) := verify_password unb64 derive (credential name u password) (password_hash u) in
        if disabled u || negb ok then
          let n := u32_succ (failed_count u) in
          match persist o s (set_user db name (with_failures u n (Some (now o + lockout_delay_sec n * second)))) with
          | (s, Ok _) => (s, Err err_login_failed)
          | (s, Err e) => (s, Err e)
          end
        else
          let u := with_login (with_failures u 0 None) (now o) in
          let u := if needs_rehash then match hash_password o password with Ok record => with_password u record (must_change_password u) | Err _ => u end else u in
          commit_with o s (create_session o (set_user db name u) name)
  end.

(** [touch_interval_sec], multiplied out: a hundredth of the idle timeout, or a
    minute when that is shorter. *)
Definition touch_due (idle elapsed : Z) : bool := Z.min idle (100 * 60 * second) <=? 100 * elapsed.

Definition set_session (db : AuthDb) (key : text) (r : SessionRow) : AuthDb := MkDb (users db) (<[key := r]> (sessions db)).
Definition touched (r : SessionRow) (seen : Z) (rev : bool) : SessionRow :=
  MkSessionRow (s_username r) (csrf_hash r) (s_created_ts r) seen (expires_ts r) rev.

(** [sqlite::touch_session]: one row of the database, when there is one. *)
Definition touch_session (o : oracle) (disk : AuthDb) (key : text) (seen : Z) (rev : bool) : option AuthDb :=
  if stored o then (fun r => set_session disk key (touched r seen rev)) <$> sessions disk !! key else None.

Definition validate_session (o : oracle) (s : Store) (id : text) : Store * option SessionInfo :=
  if bool_decide (id = []) then (s, None)
  else
    let key := hash_token id in
    match sessions (memory s) !! key with
    | None => (s, None)
    | Some r =>
        if revoked r then (s, None)
        else
          let restricted := match users (memory s) !! s_username r with Some u => must_change_password u | None => false end in
          let '(idle, absolute) := session_limits restricted in
          let expired := (expires_ts r <=? now o) || (s_created_ts r + absolute <=? now o) || (last_seen_ts r + idle <=? now o) in
          let answer := if expired || match users (memory s) !! s_username r with Some u => disabled u | None => true end then None
                        else Some (MkInfo id (s_username r)) in
          if expired || touch_due idle (now o - last_seen_ts r) then
            let seen := if expired then last_seen_ts r else now o in
            match touch_session o (disk s) key seen expired with
            | None => (s, None)
            | Some disk => (MkStore (set_session (memory s) key (touched r seen expired)) disk (setup_file s), answer)
            end
          else (s, answer)
    end.

Definition logout (o : oracle) (s : Store) (id : text) : Store * result harness_error bool :=
  if bool_decide (id = []) then (s, Ok false)
  else
    let key := hash_token id in
    match sessions (memory s) !! key with
    | Some r =>
        if revoked r then (s, Ok false)
        else commit_with o s (Ok (set_session (memory s) key (revoke r), true))
    | None => (s, Ok false)
    end.

(** ** Opening *)

(** An account that anyone on the machine could take: the shipped [admin] or a
    record that only the retired bootstrap could set. *)
Definition shipped (db : AuthDb) : bool :=
  match users db !! BOOTSTRAP_USERNAME with
  | Some u => negb (disabled u) && (is_pending_password_record (password_hash u)
                || must_change_password u && fst (verify_password unb64 derive BOOTSTRAP_USERNAME (password_hash u)))
  | None => false
  end.

(** [AuthManager::open] on an existing database. *)
Definition reopen (o : oracle) (s : Store) : Store * result harness_error unit :=
  if negb (db_ok (disk s)) then (s, Err err_auth_invalid)
  else
    let s := MkStore (disk s) (disk s) (setup_file s) in
    if negb (shipped (disk s)) then (s, Ok tt)
    else
      let code := new_setup_code (draws o) in
      if negb (file_written o) then (s, Err (err_code "IO_ERROR"))
      else
        let s := MkStore (memory s) (disk s) (Some code) in
        commit_with o s
          (match users (memory s) !! BOOTSTRAP_USERNAME with
           | Some u =>
               record ← hash_unchecked b64 derive code (salt o);
               mret (revoke_sessions_for (set_user (memory s) BOOTSTRAP_USERNAME (with_failures (with_password u record true) 0 None)) BOOTSTRAP_USERNAME, tt)
           | None => mret (revoke_sessions_for (memory s) BOOTSTRAP_USERNAME, tt)
           end).

(** ** Runs *)

Inductive op :=
| CreateUser (username password role : text) | SetRole (username role : text) | DeleteUser (username : text)
| SetDisabled (username : text) (d : bool) | SetPassword (username password : text)
| ChangePassword (username current password : text) | Login (username password : text)
| ValidateSession (id : text) | Logout (id : text) | Reopen.
Inductive answer :=
| Created (r : result harness_error text) | Done (r : result harness_error unit) | LoggedIn (r : result harness_error LoginResult)
| Validated (r : option SessionInfo) | LoggedOut (r : result harness_error bool).

Definition step (a : op) (o : oracle) (s : Store) : Store * answer :=
  match a with
  | CreateUser u p r => let '(s, x) := create_user o s u p r in (s, Created x)
  | SetRole u r => let '(s, x) := set_role o s u r in (s, Done x)
  | DeleteUser u => let '(s, x) := delete_user o s u in (s, Done x)
  | SetDisabled u d => let '(s, x) := set_disabled o s u d in (s, Done x)
  | SetPassword u p => let '(s, x) := set_password o s u p in (s, Done x)
  | ChangePassword u c p => let '(s, x) := change_password o s u c p in (s, LoggedIn x)
  | Login u p => let '(s, x) := login o s u p in (s, LoggedIn x)
  | ValidateSession id => let '(s, x) := validate_session o s id in (s, Validated x)
  | Logout id => let '(s, x) := logout o s id in (s, LoggedOut x)
  | Reopen => let '(s, x) := reopen o s in (s, Done x)
  end.

(** What an observer notes of a step: sessions issued, seen and ended, wrong
    passwords counted and counts cleared. *)
Inductive event :=
| Issued (key user : text) (t : Z) | Seen (key : text) (t : Z) | Ended (key : text) | EndedAll (user : text)
| Guessed (user : text) (t : Z) | Cleared (user : text).
#[export] Instance event_eq_dec : EqDecision event.
Proof. solve_decision. Defined.

Definition noted (s : Store) (a : op) (o : oracle) (x : answer) : list event :=
  match a, x with
  | CreateUser _ _ _, Created (Ok name) => [Cleared name]
  | SetRole u _, Done (Ok _) => [EndedAll (canonical u)]
  | DeleteUser u, Done (Ok _) => [EndedAll (canonical u); Cleared (canonical u)]
  | SetDisabled u d, Done (Ok _) => [if d then EndedAll (canonical u) else Cleared (canonical u)]
  | SetPassword u _, Done (Ok _) => [EndedAll (canonical u); Cleared (canonical u)]
  | ChangePassword u _ _, LoggedIn (Ok r) => [EndedAll (canonical u); Cleared (canonical u); Issued (hash_token (session_id r)) (canonical u) (now o)]
  | Login u _, LoggedIn (Ok r) => [Cleared (canonical u); Issued (hash_token (session_id r)) (canonical u) (now o)]
  | Login u _, LoggedIn (Err e) =>
      if bool_decide (e = err_login_failed) && bool_decide (is_Some (users (memory s) !! canonical u)) then [Guessed (canonical u) (now o)] else []
  | ValidateSession id, Validated (Some _) => [Seen (hash_token id) (now o)]
  | Logout id, LoggedOut (Ok true) => [Ended (hash_token id)]
  | Reopen, Done (Ok _) => if shipped (disk s) then [EndedAll BOOTSTRAP_USERNAME; Cleared BOOTSTRAP_USERNAME] else []
  | _, _ => []
  end.

Fixpoint run (l : list (op * oracle)) (s : Store) : Store * list event :=
  match l with
  | [] => (s, [])
  | (a, o) :: l => let '(s1, x) := step a o s in let '(s2, es) := run l s1 in (s2, noted s a o x ++ es)
  end.

(** ** Validity *)

(** [db_ok] as propositions. *)
Record valid_db (db : AuthDb) : Prop := {
  vd_users : (1 <= base.size (users db) <= MAX_USERS)%nat;
  vd_sessions : (base.size (sessions db) <= MAX_SESSIONS)%nat;
  vd_admin : (1 <= count_enabled_admins db)%nat;
  vd_ids : forall n1 n2 u1 u2, users db !! n1 = Some u1 -> users db !! n2 = Some u2 -> user_id u1 = user_id u2 -> n1 = n2;
  vd_user : forall n u, users db !! n = Some u -> user_ok n u = true;
  vd_session : forall id r, sessions db !! id = Some r -> session_ok (users db) id r = true;
}.

Lemma ids_distinct (m : gmap text UserRow) :
  NoDup (map (fun '(_, u) => user_id u) (map_to_list m))
  <-> forall n1 n2 u1 u2, m !! n1 = Some u1 -> m !! n2 = Some u2 -> user_id u1 = user_id u2 -> n1 = n2.
Proof.
  induction m as [|n u m Hn IH] using map_ind.
  - rewrite map_to_list_empty. split; [intros _ n1 n2 u1 u2 H; by rewrite lookup_empty in H | intros _; constructor].
  - rewrite (map_to_list_insert _ _ _ Hn). cbn [map]. rewrite NoDup_cons, IH. split.
    + intros [Hni Hd] n1 n2 u1 u2 [[<- <-]|[Hne1 H1]]%lookup_insert_Some [[<- <-]|[Hne2 H2]]%lookup_insert_Some E; [done| | |by eapply Hd].
      * destruct Hni. apply list_elem_of_In, in_map_iff. exists (n2, u2). split; [done|]. by apply list_elem_of_In, elem_of_map_to_list.
      * destruct Hni. apply list_elem_of_In, in_map_iff. exists (n1, u1). split; [done|]. by apply list_elem_of_In, elem_of_map_to_list.
    + intros Hd. split.
      * intros Hin. apply list_elem_of_In, in_map_iff in Hin as ([n' u'] & E & Hin%list_elem_of_In%elem_of_map_to_list).
        assert (n' = n) as ->; [|congruence]. apply (Hd n' n u' u); [|apply lookup_insert_eq|done].
        rewrite lookup_insert_ne; [done|]. intros ->. congruence.
      * intros n1 n2 u1 u2 H1 H2 E. apply (Hd n1 n2 u1 u2); [| |done]; (rewrite lookup_insert_ne; [done|]; intros ->; congruence).
Qed.

Lemma db_ok_valid db : db_ok db = true <-> valid_db db.
Proof.
  unfold db_ok. rewrite !andb_true_iff, !Nat.leb_le, !bool_decide_eq_true, ids_distinct. split.
  - intros [[[[[[H1 H2] H3] H4] H5] H6] H7]. by constructor; [lia|..].
  - intros [[H1 H2] H3 H4 H5 H6 H7]. by repeat split.
Qed.

Lemma persist_cases o s db s' r : persist o s db = (s', r) ->
  (r = Ok tt /\ s' = MkStore db db (setup_file s) /\ valid_db db) \/ (s' = s /\ r = Err err_auth_invalid /\ (db_ok db = false \/ stored o = false)).
Proof.
  unfold persist. destruct (db_ok db) eqn:E; cbn [negb]; [destruct (stored o) eqn:Es; cbn [negb]|]; intros [= <- <-];
    [left; by rewrite <- db_ok_valid | right; auto..].
Qed.
Lemma commit_with_cases {A} o s (m : result harness_error (AuthDb * A)) s' r : commit_with o s m = (s', r) ->
  (exists db a, m = Ok (db, a) /\ r = Ok a /\ s' = MkStore db db (setup_file s) /\ valid_db db)
  \/ (s' = s /\ exists e, r = Err e /\ (m = Err e \/ exists db a, m = Ok (db, a) /\ e = err_auth_invalid /\ (db_ok db = false \/ stored o = false))).
Proof.
  unfold commit_with. destruct m as [[db a]|e].
  - destruct (persist o s db) as [s1 r1] eqn:E. apply persist_cases in E as [(-> & -> & Hv)|(-> & -> & Hc)]; intros [= <- <-].
    + left. by exists db, a.
    + right. split; [done|]. exists err_auth_invalid. split; [done|]. right. by exists db, a.
  - intros [= <- <-]. right. split; [done|]. exists e. auto.
Qed.

(** ** Counting administrators *)

Definition one_if (b : bool) : nat := if b then 1%nat else 0%nat.
Definition admins_of (m : gmap text UserRow) : gmap text UserRow := filter (fun '(_, x) => enabled_admin x = true) m.

Lemma admins_delete m n u : m !! n = Some u -> base.size (admins_of m) = (base.size (admins_of (delete n m)) + one_if (enabled_admin u))%nat.
Proof.
  intros Hm. unfold admins_of. rewrite map_filter_delete. destruct (enabled_admin u) eqn:E; cbn [one_if].
  - assert (Hs : is_Some (filter (fun '(_, x) => enabled_admin x = true) m !! n)) by (exists u; by apply map_lookup_filter_Some).
    rewrite (map_size_delete_Some _ _ Hs). assert (base.size (filter (fun '(_, x) => enabled_admin x = true) m) <> 0%nat); [|lia].
    intros H0%map_size_empty_inv. rewrite H0 in Hs. by apply lookup_empty_is_Some in Hs.
  - rewrite delete_id; [lia|]. apply map_lookup_filter_None. right. intros x Hx. rewrite Hm in Hx. injection Hx as <-. by rewrite E.
Qed.
Lemma admins_insert m n u : base.size (admins_of (<[n := u]> m)) = (base.size (admins_of (delete n m)) + one_if (enabled_admin u))%nat.
Proof. rewrite (admins_delete _ n u) by apply lookup_insert_eq. by rewrite delete_insert_eq. Qed.

Lemma count_set db n u u' : users db !! n = Some u ->
  (count_enabled_admins (set_user db n u') + one_if (enabled_admin u) = count_enabled_admins db + one_if (enabled_admin u'))%nat.
Proof.
  intros Hu. unfold count_enabled_admins. cbn [set_user users]. fold (admins_of (<[n := u']> (users db))) (admins_of (users db)).
  rewrite admins_insert, (admins_delete _ _ _ Hu). lia.
Qed.
Lemma count_new db n u : users db !! n = None -> (count_enabled_admins (set_user db n u) = count_enabled_admins db + one_if (enabled_admin u))%nat.
Proof.
  intros Hu. unfold count_enabled_admins. cbn [set_user users]. fold (admins_of (<[n := u]> (users db))) (admins_of (users db)).
  by rewrite admins_insert, delete_id.
Qed.
Lemma count_delete db n u ss : users db !! n = Some u ->
  (count_enabled_admins (MkDb (delete n (users db)) ss) + one_if (enabled_admin u) = count_enabled_admins db)%nat.
Proof.
  intros Hu. unfold count_enabled_admins. cbn [users]. fold (admins_of (delete n (users db))) (admins_of (users db)).
  by rewrite (admins_delete _ _ _ Hu).
Qed.

(** ** Well-formed rows *)

Definition plain_char (c : char) : bool := is_ascii_lower c || is_ascii_digit c || existsb (Z.eqb c) [95; c_dot; c_dash].

(** What the store relies on: lower-casing keeps ASCII letters in lower case,
    digits and [_.-]; base64 decodes what it encodes and has no [$]; scrypt
    gives the length it is asked for, SHA-256 in hexadecimal 64 characters; the
    limits are those of a configuration that loads. *)
Record laws : Prop := {
  lower_plain : forall s, forallb plain_char s = true -> lower s = s;
  b64_round : forall x, unb64 (b64 x) = Some x;
  b64_chars : forall x, c_dollar ∉ b64 x;
  derive_len : forall pw s n r p h, derive pw s n r p = Some h -> length h = SCRYPT_DKLEN;
  hash_hex : forall t, is_hex_of 64 (hash_token t) = true;
  second_pos : 0 < second;
  limits_loaded : exists get, load_limits second get = Ok limits;
}.
(** A clock before the year 5138 and random values of the shape that their
    generators give. *)
Record sane (o : oracle) : Prop := {
  now_sane : 0 <= now o < 10 ^ 11 * second;
  salt_sane : salt o <> [] /\ (length (salt o) <= 64)%nat;
  id_sane : is_hex_of 32 (new_user_id o) = true;
}.

Lemma f64_in_bounds get key d n : f64_in second get key d = Ok n -> 60 * second <= n <= 2592000 * second.
Proof. unfold f64_in. destruct (from_option _ _ _); [|done]. destruct (_ && _) eqn:E; [|done]. intros [= <-]. guards. lia. Qed.
Lemma loaded_limits (L : laws) b : 60 * second <= fst (session_limits b) <= 2592000 * second /\ 60 * second <= snd (session_limits b) <= 2592000 * second.
Proof.
  destruct (limits_loaded L) as [get H]. unfold load_limits in H. results. apply Ok_inj in H.
  repeat match goal with H : f64_in _ _ _ _ = Ok _ |- _ => apply f64_in_bounds in H end.
  unfold session_limits. rewrite <- H. destruct b; cbn; lia.
Qed.

Lemma plain_canonical (L : laws) s : forallb plain_char s = true -> lower (trim s) = s.
Proof.
  intros H. rewrite trim_plain; [by apply lower_plain|]. apply Forall_forall. intros c Hc%list_elem_of_In.
  rewrite forallb_forall in H. specialize (H _ Hc). unfold plain_char, is_ascii_lower, is_ascii_digit, in_range in H. unfold is_whitespace, in_range.
  cbn [existsb] in *. unfold c_dot, c_dash in H. destruct (is_whitespace c) eqn:E; [|done]. unfold is_whitespace, in_range in E. lia.
Qed.
Lemma username_canonical (L : laws) u n : validate_username lower u = Ok n -> validate_username lower n = Ok n.
Proof.
  unfold validate_username. cbn zeta. destruct (username_matches (lower (trim u))) eqn:E; [|done]. intros [= Hn]. rewrite plain_canonical; [by rewrite <- Hn, E|done|].
  rewrite <- Hn. unfold username_matches in E. destruct (lower (trim u)) as [|c rest]; [done|]. cbn [forallb]. guards.
  apply andb_true_iff. split; [|done]. unfold plain_char. by rewrite H.
Qed.
Lemma role_canonical (L : laws) r r' : validate_role lower r = Ok r' -> validate_role lower r' = Ok r'.
Proof.
  unfold validate_role. cbn zeta. destruct (existsb _ ROLES) eqn:E; [|done]. intros [= Hn]. rewrite plain_canonical; [by rewrite <- Hn, E|done|].
  apply existsb_exists in E as (x & Hx & E%teqb_eq). rewrite <- Hn, E. clear -Hx.
  unfold ROLES in Hx. cbn [In] in Hx. destruct Hx as [<-|[<-|[<-|[<-|[]]]]]; reflexivity.
Qed.

(** The parts of [user_ok]. *)
Record valid_user (name : text) (u : UserRow) : Prop := {
  vu_id : is_hex_of 32 (user_id u) = true;
  vu_name : validate_username lower name = Ok name;
  vu_role : validate_role lower (role u) = Ok (role u);
  vu_hash : valid_password_record unb64 (password_hash u) = true;
  vu_created : timestamp (created_ts u) = true;
  vu_login : opt_timestamp (last_login_ts u) = true;
  vu_locked : opt_timestamp (locked_until_ts u) = true;
}.
Lemma same_text_iff (r : result harness_error text) n : match r with Ok x => teqb x n | Err _ => false end = true <-> r = Ok n.
Proof. destruct r; [rewrite teqb_eq; split; [by intros ->|by intros [= ->]] | done]. Qed.
Lemma user_ok_iff name u : user_ok name u = true <-> valid_user name u.
Proof.
  unfold user_ok. rewrite !andb_true_iff, !same_text_iff. split; [intros [[[[[[? ?] ?] ?] ?] ?] ?]; by constructor | intros []; by repeat split].
Qed.

Lemma sane_timestamp (L : laws) o t : sane o -> 0 <= t <= 2592000 * second -> timestamp (now o + t) = true.
Proof. intros S Ht. pose proof (now_sane o S). pose proof (second_pos L). unfold timestamp. lia. Qed.
Lemma sane_now (L : laws) o : sane o -> timestamp (now o) = true.
Proof. intros S. rewrite <- (Z.add_0_r (now o)). pose proof (second_pos L). apply sane_timestamp; [done..|lia]. Qed.

(** ** Well-formed databases *)

Lemma valid_set_user db n u u' : valid_db db -> users db !! n = Some u -> valid_user n u' -> user_id u' = user_id u ->
  (enabled_admin u = true -> enabled_admin u' = false -> (2 <= count_enabled_admins db)%nat) -> valid_db (set_user db n u').
Proof.
  intros V Hu Hv Hid Hadm. pose proof (count_set db n u u' Hu) as Hc. destruct V as [V1 V2 V3 V4 V5 V6].
  constructor; cbn [set_user users sessions].
  - rewrite map_size_insert_Some by (by exists u). done.
  - done.
  - destruct (enabled_admin u), (enabled_admin u'); cbn [one_if] in Hc; try specialize (Hadm eq_refl eq_refl); lia.
  - intros n1 n2 u1 u2 H1 H2 E.
    assert (Hold : forall m x, <[n := u']> (users db) !! m = Some x -> exists y, users db !! m = Some y /\ user_id y = user_id x).
    { intros m x [[<- <-]|[_ Hm]]%lookup_insert_Some; eauto. }
    destruct (Hold _ _ H1) as (y1 & Hy1 & E1), (Hold _ _ H2) as (y2 & Hy2 & E2). apply (V4 _ _ _ _ Hy1 Hy2). congruence.
  - intros m x [[<- <-]|[_ Hm]]%lookup_insert_Some; [by apply user_ok_iff | by apply V5].
  - intros id r Hr. specialize (V6 id r Hr). unfold session_ok in *. guards. rewrite !andb_true_iff, bool_decide_eq_true. repeat split; try done.
    apply lookup_insert_is_Some'. by right.
Qed.

Lemma valid_new_user db n u : valid_db db -> users db !! n = None -> valid_user n u -> (base.size (users db) < MAX_USERS)%nat ->
  (forall m x, users db !! m = Some x -> user_id x <> user_id u) -> valid_db (set_user db n u).
Proof.
  intros V Hn Hv Hsz Hid. pose proof (count_new db n u Hn) as Hc. destruct V as [V1 V2 V3 V4 V5 V6].
  constructor; cbn [set_user users sessions].
  - rewrite map_size_insert_None by done. lia.
  - done.
  - lia.
  - intros n1 n2 u1 u2 [[<- <-]|[_ H1]]%lookup_insert_Some [[<- <-]|[_ H2]]%lookup_insert_Some E; [done| | |by eapply V4];
      [by destruct (Hid _ _ H2) | by destruct (Hid _ _ H1)].
  - intros m x [[<- <-]|[_ Hm]]%lookup_insert_Some; [by apply user_ok_iff | by apply V5].
  - intros id r Hr. specialize (V6 id r Hr). unfold session_ok in *. guards. rewrite !andb_true_iff, bool_decide_eq_true. repeat split; try done.
    apply lookup_insert_is_Some'. by right.
Qed.

Lemma valid_delete_user db n u : valid_db db -> users db !! n = Some u -> (enabled_admin u = true -> (2 <= count_enabled_admins db)%nat) ->
  valid_db (MkDb (delete n (users db)) (filter (fun '(_, r) => s_username r <> n) (sessions db))).
Proof.
  intros V Hu Hadm. pose proof (count_delete db n u (filter (fun '(_, r) => s_username r <> n) (sessions db)) Hu) as Hc. destruct V as [V1 V2 V3 V4 V5 V6].
  assert (Hc' : (1 <= count_enabled_admins (MkDb (delete n (users db)) (filter (fun '(_, r) => s_username r <> n) (sessions db))))%nat).
  { destruct (enabled_admin u); cbn [one_if] in Hc; [specialize (Hadm eq_refl)|]; lia. }
  constructor; cbn [users sessions]; [| | done |..].
  - split.
    + assert (base.size (admins_of (delete n (users db))) <= base.size (delete n (users db)))%nat by (apply map_subseteq_size, map_filter_subseteq).
      unfold count_enabled_admins in Hc'. cbn [users] in Hc'. unfold admins_of in *. lia.
    + assert (base.size (delete n (users db)) <= base.size (users db))%nat by apply map_subseteq_size, delete_subseteq. lia.
  - assert (base.size (filter (fun '(_, r) => s_username r <> n) (sessions db)) <= base.size (sessions db))%nat
      by apply map_subseteq_size, map_filter_subseteq. lia.
  - intros n1 n2 u1 u2 [_ H1]%lookup_delete_Some [_ H2]%lookup_delete_Some. by apply V4.
  - intros m x [_ Hm]%lookup_delete_Some. by apply V5.
  - intros id r [Hr Hne]%map_lookup_filter_Some. specialize (V6 id r Hr). unfold session_ok in *. guards. rewrite !andb_true_iff, bool_decide_eq_true. repeat split; try done.
    rewrite lookup_delete_ne by (symmetry; exact Hne). done.
Qed.

Lemma valid_sessions db ss : valid_db db -> (base.size ss <= MAX_SESSIONS)%nat -> (forall id r, ss !! id = Some r -> session_ok (users db) id r = true) ->
  valid_db (MkDb (users db) ss).
Proof. intros [V1 V2 V3 V4 V5 V6] Hsz Hs. by constructor. Qed.

Lemma valid_revoke db n : valid_db db -> valid_db (revoke_sessions_for db n).
Proof.
  intros V. apply valid_sessions; [done| |].
  - rewrite map_size_fmap. apply (vd_sessions db V).
  - intros id r. rewrite lookup_fmap. destruct (sessions db !! id) as [r0|] eqn:E; [|done]. intros [= <-].
    pose proof (vd_session db V _ _ E) as H. by destruct (teqb _ _).
Qed.
Lemma valid_set_session db key r r' : valid_db db -> sessions db !! key = Some r -> session_ok (users db) key r' = true -> valid_db (set_session db key r').
Proof.
  intros V Hr Hok. apply valid_sessions; [done| |].
  - rewrite map_size_insert_Some by (by exists r). apply (vd_sessions db V).
  - intros id x [[<- <-]|[_ Hx]]%lookup_insert_Some; [done | by apply (vd_session db V)].
Qed.

(** ** Operations keep the store well formed *)

Definition good (s : Store) : Prop := memory s = disk s /\ valid_db (memory s).
(** The random identifier of a new account belongs to another one. *)
Definition collides (o : oracle) (s : Store) : Prop := exists n u, users (memory s) !! n = Some u /\ user_id u = new_user_id o.

Definition clean {A} (m : result harness_error A) : Prop := m <> Err err_auth_invalid.
(** A computation that refuses for a reason of its own, and that proposes
    only well-formed databases as long as [P]. *)
Definition sound {A} (P : Prop) (m : result harness_error (AuthDb * A)) : Prop := clean m /\ forall db a, m = Ok (db, a) -> P -> valid_db db.

Lemma clean_refuse c e : e <> err_auth_invalid -> clean (refuse_if c e).
Proof. intros H. unfold clean, refuse_if. destruct c; congruence. Qed.
Lemma clean_ok_or {A} (x : option A) e : e <> err_auth_invalid -> clean (ok_or x e).
Proof. intros H. unfold clean, ok_or. destruct x; congruence. Qed.
Lemma clean_bind {A B} (m : result harness_error A) (f : A -> result harness_error B) : clean m -> (forall a, m = Ok a -> clean (f a)) -> clean (m ≫= f).
Proof. intros Hm Hf. destruct m as [a|e]; [by apply Hf|]. intros [= H]. by apply Hm; rewrite H. Qed.
Lemma clean_username u : clean (validate_username lower u).
Proof. unfold validate_username. cbn zeta. by destruct (username_matches _). Qed.
Lemma clean_role r : clean (validate_role lower r).
Proof. unfold validate_role. cbn zeta. by destruct (existsb _ _). Qed.
Lemma clean_hash o p : clean (hash_password o p).
Proof.
  unfold hash_password, hash_password_with_salt, validate_password, hash_unchecked.
  repeat (apply clean_bind; [|intros ? _]); try done; by (apply clean_refuse || apply clean_ok_or).
Qed.

Lemma sound_bind {A B} P (m : result harness_error A) (f : A -> result harness_error (AuthDb * B)) :
  clean m -> (forall a, m = Ok a -> sound P (f a)) -> sound P (m ≫= f).
Proof.
  intros Hm Hf. split; [apply clean_bind; [done|]; intros a Ha; by apply Hf|].
  intros db b H HP. apply bind_Ok_inv in H as (a & Ha & H). by eapply Hf.
Qed.
Lemma sound_refuse {B} P c e (f : unit -> result harness_error (AuthDb * B)) :
  e <> err_auth_invalid -> (c = false -> sound P (f tt)) -> sound P (refuse_if c e ≫= f).
Proof. intros He Hf. apply sound_bind; [by apply clean_refuse|]. intros [] Hc%refuse_if_Ok. by apply Hf. Qed.
Lemma sound_lookup {A B} P (x : option A) e (f : A -> result harness_error (AuthDb * B)) :
  e <> err_auth_invalid -> (forall a, x = Some a -> sound P (f a)) -> sound P (ok_or x e ≫= f).
Proof. intros He Hf. apply sound_bind; [by apply clean_ok_or|]. intros a Ha%ok_or_Ok. by apply Hf. Qed.
Lemma sound_ret {A} P db (a : A) : (P -> valid_db db) -> sound P (Ok (db, a)).
Proof. intros H. split; [done|]. by intros db' a' [= <- <-]. Qed.

Lemma commit_sound {A} P o s (m : result harness_error (AuthDb * A)) s' r : sound P m -> commit_with o s m = (s', r) -> good s ->
  good s' /\ (r = Err err_auth_invalid -> P -> stored o = false).
Proof.
  intros [Hc Hv] [(db & a & -> & -> & -> & V)|(-> & e & -> & [->|(db & a & -> & -> & Hd)])]%commit_with_cases G.
  - split; [by split | done].
  - split; [done|]. intros [= ->]. by destruct Hc.
  - split; [done|]. intros _ HP. destruct Hd as [Hd|Hd]; [|done]. specialize (Hv _ _ eq_refl HP). apply db_ok_valid in Hv. congruence.
Qed.

Lemma last_admin_spec db n u : users db !! n = Some u -> is_last_enabled_admin db n = false -> enabled_admin u = true -> (2 <= count_enabled_admins db)%nat.
Proof. intros Hu H Ha. unfold is_last_enabled_admin in H. rewrite Hu, Ha in H. cbn [andb] in H. guards. lia. Qed.

Section Valid.
Context (L : laws) (o : oracle) (S : sane o).

Lemma hashed_ok p record : hash_password o p = Ok record -> valid_password_record unb64 record = true.
Proof.
  unfold hash_password, hash_password_with_salt. intros H. apply bind_Ok_inv in H as ([] & _ & H).
  destruct (salt_sane o S). eapply hashed_valid; [apply L..|done|done|exact H].
Qed.

Lemma create_user_sound s username password r : valid_db (memory s) ->
  sound (~ collides o s)
    (name ← validate_username lower username;
     role ← validate_role lower r;
     record ← hash_password o password;
     let db := memory s in
     _ ← refuse_if (MAX_USERS <=? base.size (users db))%nat err_limit;
     _ ← refuse_if (bool_decide (is_Some (users db !! name))) (err_code "AUTH_USER_EXISTS");
     mret (set_user db name (MkUserRow (new_user_id o) false record (now o) false None 0 None role), name)).
Proof.
  intros V. apply sound_bind; [apply clean_username|]. intros name Hn. apply sound_bind; [apply clean_role|]. intros ro Hr.
  apply sound_bind; [apply clean_hash|]. intros record Hh. cbv zeta. apply sound_refuse; [done|]. intros Hsz. apply sound_refuse; [done|]. intros Hnew.
  apply sound_ret. intros Hcol. guards. apply valid_new_user; try done.
  - by apply eq_None_not_Some.
  - constructor; cbn; [apply S | by eapply username_canonical | by eapply role_canonical | by eapply hashed_ok | by apply sane_now | done | done].
  - intros m x Hx E. apply Hcol. by exists m, x.
Qed.

Lemma set_role_sound s name r : valid_db (memory s) ->
  sound True
    (role ← validate_role lower r;
     let db := memory s in
     u ← ok_or (users db !! name) err_not_found;
     _ ← refuse_if (negb (teqb role (T "admin")) && is_last_enabled_admin db name) err_last_admin;
     mret (revoke_sessions_for (set_user db name (with_role u role)) name, tt)).
Proof.
  intros V. apply sound_bind; [apply clean_role|]. intros ro Hr. cbv zeta. apply sound_lookup; [done|]. intros u Hu.
  apply sound_refuse; [done|]. intros Hl. apply sound_ret. intros _. apply valid_revoke. eapply valid_set_user; [done|done| |done|].
  - pose proof (proj1 (user_ok_iff _ _) (vd_user _ V _ _ Hu)) as []. constructor; try done. cbn. by eapply role_canonical.
  - intros Ha Hb. eapply last_admin_spec; [exact Hu| |done]. apply andb_false_iff in Hl as [Hl|Hl]; [|done]. apply negb_false_iff in Hl.
    unfold enabled_admin in *. cbn [with_role role disabled] in Hb. rewrite Hl in Hb. apply andb_true_iff in Ha as [_ Ha]. by rewrite Ha in Hb.
Qed.

Lemma delete_user_sound s name : valid_db (memory s) ->
  sound True
    (let db := memory s in
     _ ← ok_or (users db !! name) err_not_found;
     _ ← refuse_if (is_last_enabled_admin db name) err_last_admin;
     mret (MkDb (delete name (users db)) (filter (fun '(_, r) => s_username r <> name) (sessions db)), tt)).
Proof.
  intros V. cbv zeta. apply sound_lookup; [done|]. intros u Hu. apply sound_refuse; [done|]. intros Hl. apply sound_ret. intros _.
  eapply valid_delete_user; [done..|]. by eapply last_admin_spec.
Qed.

Lemma set_disabled_sound s name d : valid_db (memory s) ->
  sound True
    (let db := memory s in
     u ← ok_or (users db !! name) err_not_found;
     _ ← refuse_if (d && is_last_enabled_admin db name) err_last_admin;
     let u := with_disabled u d in
     let u := if d then u else with_failures u 0 None in
     let db := set_user db name u in
     mret (if d then revoke_sessions_for db name else db, tt)).
Proof.
  intros V. cbv zeta. apply sound_lookup; [done|]. intros u Hu. apply sound_refuse; [done|]. intros Hl. apply sound_ret. intros _.
  assert (H : valid_db (set_user (memory s) name (if d then with_disabled u d else with_failures (with_disabled u d) 0 None))).
  { eapply valid_set_user; [done|done| |by destruct d|].
    - pose proof (proj1 (user_ok_iff _ _) (vd_user _ V _ _ Hu)) as []. by destruct d; constructor.
    - intros Ha Hb. destruct d; [by eapply last_admin_spec|].
      unfold enabled_admin in *. cbn [with_disabled with_failures role disabled negb] in Hb. apply andb_true_iff in Ha as [Ha _]. rewrite Ha in Hb. discriminate Hb. }
  destruct d; [by apply valid_revoke | done].
Qed.

Lemma renewed_valid db name u record b : valid_db db -> users db !! name = Some u -> valid_password_record unb64 record = true ->
  valid_db (revoke_sessions_for (set_user db name (with_failures (with_password u record b) 0 None)) name).
Proof.
  intros V Hu Hr. apply valid_revoke. eapply valid_set_user; [done|done| |done|].
  - pose proof (proj1 (user_ok_iff _ _) (vd_user _ V _ _ Hu)) as []. by constructor.
  - unfold enabled_admin. cbn [with_failures with_password role disabled]. intros -> H. discriminate H.
Qed.

Lemma set_password_sound s name password : valid_db (memory s) ->
  sound True
    (record ← hash_password o password;
     let db := memory s in
     u ← ok_or (users db !! name) err_not_found;
     mret (revoke_sessions_for (set_user db name (with_failures (with_password u record false) 0 None)) name, tt)).
Proof.
  intros V. apply sound_bind; [apply clean_hash|]. intros record Hh. cbv zeta. apply sound_lookup; [done|]. intros u Hu. apply sound_ret. intros _.
  apply renewed_valid; [done|done|]. by eapply hashed_ok.
Qed.

Lemma create_session_sound db name : valid_db db -> is_Some (users db !! name) -> sound True (create_session o db name).
Proof.
  intros V Hn. unfold create_session. cbv zeta.
  set (live := filter _ (sessions db)). set (b := match users db !! name with Some u => must_change_password u | None => false end).
  destruct (session_limits b) as [i absolute] eqn:El. apply sound_refuse; [done|]. intros Hsz. apply sound_ret. intros _.
  assert (Hlive : forall id r, live !! id = Some r -> sessions db !! id = Some r) by (intros id r [H _]%map_lookup_filter_Some; done).
  guards. apply valid_sessions; [done| |].
  - rewrite map_size_insert. destruct (live !! _); cbn [id]; lia.
  - intros id r [[<- <-]|[_ Hr]]%lookup_insert_Some; [|by apply (vd_session _ V), Hlive].
    unfold session_ok. cbn. rewrite !(hash_hex L), (sane_now L o S). rewrite (sane_timestamp L o absolute S), bool_decide_true by
      (try done; pose proof (loaded_limits L b) as [_ Hb]; rewrite El in Hb; pose proof (second_pos L); cbn in Hb; lia). done.
Qed.
End Valid.

Definition answer_error (x : answer) : option harness_error :=
  match x with Created (Err e) | Done (Err e) | LoggedIn (Err e) | LoggedOut (Err e) => Some e | _ => None end.

Section Steps.
Context (L : laws) (o : oracle) (So : sane o).

Lemma forget_good name s : good s -> good (forget_setup_code name s).
Proof. unfold forget_setup_code. by destruct (teqb _ _). Qed.

Lemma change_password_sound s name current password : valid_db (memory s) ->
  sound True
    (record ← hash_password o password;
     let db := memory s in
     u ← ok_or (users db !! name) err_login_failed;
     let current := credential name u current in
     _ ← refuse_if (disabled u || negb (fst (verify_password unb64 derive current (password_hash u)))) err_login_failed;
     _ ← refuse_if (teqb (credential name u password) current) err_password_policy;
     create_session o (revoke_sessions_for (set_user db name (with_failures (with_password u record false) 0 None)) name) name).
Proof.
  intros V. apply sound_bind; [apply clean_hash|]. intros record Hh. cbv zeta. apply sound_lookup; [done|]. intros u Hu.
  apply sound_refuse; [done|]. intros _. apply sound_refuse; [done|]. intros _.
  apply create_session_sound; [done..| |].
  - apply renewed_valid; [done|done|]. by eapply hashed_ok.
  - cbn. apply lookup_insert_is_Some'. by left.
Qed.

Lemma failed_login_valid s name u n : valid_db (memory s) -> users (memory s) !! name = Some u ->
  valid_db (set_user (memory s) name (with_failures u n (Some (now o + lockout_delay_sec n * second)))).
Proof.
  intros V Hu. eapply valid_set_user; [done|done| |done|].
  - pose proof (proj1 (user_ok_iff _ _) (vd_user _ V _ _ Hu)) as []. constructor; try done. cbn. apply sane_timestamp; [done..|].
    pose proof (lockout_delay_bounds n). pose proof (second_pos L). nia.
  - unfold enabled_admin. cbn [with_failures role disabled]. intros -> H. discriminate H.
Qed.

Lemma login_valid s name u b p : valid_db (memory s) -> users (memory s) !! name = Some u ->
  let u := with_login (with_failures u 0 None) (now o) in
  let u := if b : bool then match hash_password o p with Ok record => with_password u record (must_change_password u) | Err _ => u end else u in
  valid_db (set_user (memory s) name u).
Proof.
  intros V Hu. cbv zeta. eapply valid_set_user; [done|done|..].
  - pose proof (proj1 (user_ok_iff _ _) (vd_user _ V _ _ Hu)) as []. destruct b; [destruct (hash_password o p) as [record|] eqn:Hh|]; constructor; try done;
      try (by cbn; apply sane_now). cbn. by eapply hashed_ok.
  - by destruct b; [destruct (hash_password o p)|].
  - unfold enabled_admin. intros Ha Hb.
    assert (E : forall x y : UserRow, role x = role y -> disabled x = disabled y -> teqb (role x) (T "admin") && negb (disabled x) = teqb (role y) (T "admin") && negb (disabled y))
      by (by intros ?? -> ->).
    rewrite (E _ u), Ha in Hb by (by destruct b; [destruct (hash_password o p)|]). discriminate Hb.
Qed.

Lemma login_good s username password s' r : login o s username password = (s', r) -> good s ->
  good s' /\ (r = Err err_auth_invalid -> stored o = false).
Proof.
  unfold login. cbv zeta. set (name := canonical username). intros H G. pose proof (proj2 G) as V.
  destruct (users (memory s) !! name) as [u|] eqn:Hu; [|by injection H as <- <-].
  destruct (is_locked _ _); [by injection H as <- <-|]. destruct (verify_password _ _ _ _) as [ok rehash].
  destruct (disabled u || negb ok).
  - pose proof (failed_login_valid s name u (u32_succ (failed_count u)) V Hu) as Hv. destruct (persist _ _ _) as [s1 r1] eqn:E.
    apply persist_cases in E as [(-> & -> & Hv')|(-> & -> & [Hd|Hd])]; injection H as <- <-; [done| |done].
    apply db_ok_valid in Hv. congruence.
  - apply (commit_sound True) in H; [destruct H as [H1 H2]; split; [done|]; intros E; by apply H2 | |done].
    apply create_session_sound; [done..| |].
    + by apply login_valid.
    + cbn. apply lookup_insert_is_Some'. by left.
Qed.

Lemma touched_ok db key r seen rev : valid_db db -> sessions db !! key = Some r -> timestamp seen = true -> session_ok (users db) key (touched r seen rev) = true.
Proof. intros V Hr Hs. pose proof (vd_session _ V _ _ Hr) as H. unfold session_ok in *. cbn. by guards; rewrite H, Hs, !andb_true_iff, bool_decide_eq_true. Qed.

Lemma validate_session_good s id s' r : validate_session o s id = (s', r) -> good s -> good s'.
Proof.
  unfold validate_session. intros H [Hm V]. destruct (bool_decide _); [by injection H as <- <-|]. cbv zeta in H.
  destruct (sessions (memory s) !! hash_token id) as [r0|] eqn:Hr; [|by injection H as <- <-].
  destruct (revoked r0); [by injection H as <- <-|]. destruct (session_limits _) as [idle absolute].
  destruct (_ || touch_due _ _); [|by injection H as <- <-].
  unfold touch_session in H. destruct (stored o); [|by injection H as <- <-]. rewrite <- Hm, Hr in H. cbn in H. injection H as <- <-. split; [done|].
  eapply valid_set_session; [done|exact Hr|]. apply touched_ok; [done..|]. destruct (_ || _); [|by apply sane_now].
  pose proof (vd_session _ V _ _ Hr) as H. unfold session_ok in H. by guards.
Qed.

Lemma logout_good s id s' r : logout o s id = (s', r) -> good s -> good s' /\ (r = Err err_auth_invalid -> stored o = false).
Proof.
  unfold logout. intros H G. pose proof (proj2 G) as V. destruct (bool_decide _); [by injection H as <- <-|]. cbv zeta in H.
  destruct (sessions (memory s) !! hash_token id) as [r0|] eqn:Hr; [|by injection H as <- <-].
  destruct (revoked r0); [by injection H as <- <-|].
  apply (commit_sound True) in H; [destruct H as [H1 H2]; split; [done|]; intros E; by apply H2 | |done].
  apply sound_ret. intros _. eapply valid_set_session; [done|done|]. pose proof (vd_session _ V _ _ Hr) as Hok. exact Hok.
Qed.

Lemma reopen_good s s' r : reopen o s = (s', r) -> good s -> good s' /\ (r = Err err_auth_invalid -> stored o = false).
Proof.
  unfold reopen. cbv zeta. intros H [Hm V]. cbn [memory disk setup_file] in H. rewrite <- Hm, (proj2 (db_ok_valid _) V) in H. cbn [negb] in H.
  destruct (shipped (memory s)); cbn [negb] in H; [|by injection H as <- <-].
  destruct (file_written o); cbn [negb] in H; [|by injection H as <- <-]. cbn [memory disk setup_file] in H.
  apply (commit_sound True) in H; [destruct H as [H1 H2]; split; [done|]; intros E; by apply H2 | |done].
  destruct (users (memory s) !! BOOTSTRAP_USERNAME) as [u|] eqn:Hu.
  - apply sound_bind; [unfold hash_unchecked; apply clean_bind; [by apply clean_ok_or|]; done|]. intros record Hh. apply sound_ret. intros _.
    apply renewed_valid; [done..|]. destruct (salt_sane o So). eapply hashed_valid; [apply L..|done|done|exact Hh].
  - apply sound_ret. intros _. by apply valid_revoke.
Qed.

(** An answer of AUTH_CONFIG_INVALID goes back to a failed transaction. *)
Ltac refusal y H2 := destruct y; [done|]; intros [= ->]; left; by apply H2.

Lemma step_good a s s' x : good s -> step a o s = (s', x) -> good s' /\ (answer_error x = Some err_auth_invalid -> stored o = false \/ collides o s).
Proof.
  intros G H. pose proof (proj2 G) as V. destruct a as [u p r|u r|u|u d|u p|u c p|u p|id|id|]; cbn [step] in H.
  - destruct (create_user _ _ _ _ _) as [s1 y] eqn:E. injection H as <- <-.
    apply (commit_sound _ _ _ _ _ _ (create_user_sound L o So s u p r V)) in E as [H1 H2]; [|done]. split; [done|]. destruct y; [done|]. intros [= ->].
    destruct (stored o) eqn:Es; [right | by left]. destruct (bool_decide_reflect (map_Exists (fun _ u => user_id u = new_user_id o) (users (memory s)))) as [Hc|Hc].
    + done.
    + exfalso. specialize (H2 eq_refl). discriminate H2. intros (n & v & Hv & Hid). apply Hc. exists n, v. by split.
  - destruct (set_role _ _ _ _) as [s1 y] eqn:E. injection H as <- <-.
    apply (commit_sound _ _ _ _ _ _ (set_role_sound L s (canonical u) r V)) in E as [H1 H2]; [|done]. split; [done|]. refusal y H2.
  - destruct (delete_user _ _ _) as [s1 y] eqn:E. injection H as <- <-.
    apply (commit_sound _ _ _ _ _ _ (delete_user_sound s (canonical u) V)) in E as [H1 H2]; [|done]. split; [done|]. refusal y H2.
  - destruct (set_disabled _ _ _ _) as [s1 y] eqn:E. injection H as <- <-.
    apply (commit_sound _ _ _ _ _ _ (set_disabled_sound s (canonical u) d V)) in E as [H1 H2]; [|done]. split; [done|]. refusal y H2.
  - destruct (set_password _ _ _ _) as [s1 y] eqn:E. injection H as <- <-. unfold set_password in E. cbv zeta in E. destruct (commit_with _ _ _) as [s2 r2] eqn:E2. injection E as <- <-.
    apply (commit_sound _ _ _ _ _ _ (set_password_sound L o So s (canonical u) p V)) in E2 as [H1 H2]; [|done].
    split; [by destruct (is_ok r2); [apply forget_good|]|]. refusal r2 H2.
  - destruct (change_password _ _ _ _ _) as [s1 y] eqn:E. injection H as <- <-. unfold change_password in E. cbv zeta in E. destruct (commit_with _ _ _) as [s2 r2] eqn:E2. injection E as <- <-.
    apply (commit_sound _ _ _ _ _ _ (change_password_sound s (canonical u) c p V)) in E2 as [H1 H2]; [|done].
    split; [by destruct (is_ok r2); [apply forget_good|]|]. refusal r2 H2.
  - destruct (login _ _ _ _) as [s1 y] eqn:E. injection H as <- <-. apply login_good in E as [H1 H2]; [|done]. split; [done|]. refusal y H2.
  - destruct (validate_session _ _ _) as [s1 y] eqn:E. injection H as <- <-. by apply validate_session_good in E.
  - destruct (logout _ _ _) as [s1 y] eqn:E. injection H as <- <-. apply logout_good in E as [H1 H2]; [|done]. split; [done|]. refusal y H2.
  - destruct (reopen _ _) as [s1 y] eqn:E. injection H as <- <-. apply reopen_good in E as [H1 H2]; [|done]. split; [done|]. refusal y H2.
Qed.
End Steps.

Lemma run_good (L : laws) l s s' es : Forall (fun x => sane (snd x)) l -> run l s = (s', es) -> good s -> good s'.
Proof.
  revert s es. induction l as [|[a o] l IH]; intros s es Hl H G; cbn [run] in H; [by injection H as <- <-|].
  destruct (step a o s) as [s1 x] eqn:E, (run l s1) as [s2 es2] eqn:Er. injection H as <- <-.
  eapply IH; [exact (Forall_inv_tail Hl)|exact Er|]. eapply step_good; [done|exact (Forall_inv Hl)|done|exact E].
Qed.

(** C13. The account store cannot lock itself out.  Whatever is asked of it and
    whichever transactions fail, its memory and its database stay equal and
    well formed: at least one enabled administrator, no more than 128
    accounts and 4096 sessions, every row of the shape that opening the
    database demands, every session of an account that exists.  In particular
    no operation, and no restart, answers AUTH_CONFIG_INVALID unless its
    transaction failed or a new account drew an identifier in use. *)
Theorem accounts_stay_valid l s s' es : laws -> Forall (fun x => sane (snd x)) l -> good s -> run l s = (s', es) ->
  good s' /\ db_ok (disk s') = true
  /\ forall a o s2 x, sane o -> step a o s' = (s2, x) -> answer_error x = Some err_auth_invalid -> stored o = false \/ collides o s'.
Proof.
  intros L Hl G H. pose proof (run_good L l s s' es Hl H G) as G'. split; [done|]. split.
  - destruct G' as [<- V]. by apply db_ok_valid.
  - intros a o s2 x Ho Hs. by apply (step_good L o Ho a s' s2 x).
Qed.

(** ** Wrong passwords *)

(** The lockout of an account. *)
Definition fails (db : AuthDb) (n : text) : option (Z * option Z) := (fun u => (failed_count u, locked_until_ts u)) <$> users db !! n.
Definition guesses (n : text) (es : list event) : nat := length (List.filter (fun e => match e with Guessed m _ => teqb m n | _ => false end) es).

Lemma fails_other db n0 u n : n <> n0 -> fails (set_user db n0 u) n = fails db n.
Proof. intros H. unfold fails. cbn [set_user users]. by rewrite lookup_insert_ne by congruence. Qed.
Lemma fails_same db n0 u u' n : users db !! n0 = Some u -> failed_count u' = failed_count u -> locked_until_ts u' = locked_until_ts u ->
  fails (set_user db n0 u') n = fails db n.
Proof.
  intros Hu H1 H2. destruct (decide (n = n0)) as [->|Hne]; [|by apply fails_other].
  unfold fails. cbn [set_user users]. rewrite lookup_insert_eq, Hu. cbn. by rewrite H1, H2.
Qed.
Lemma fails_self db n u : fails (set_user db n u) n = Some (failed_count u, locked_until_ts u).
Proof. unfold fails. cbn [set_user users]. by rewrite lookup_insert_eq. Qed.

(** What a committed step changed: either nothing, or the database is the one
    it computed. *)
Lemma commit_same {A} o s (m : result harness_error (AuthDb * A)) s' r : commit_with o s m = (s', r) -> memory s = disk s ->
  memory s' = disk s' /\ ((exists e, r = Err e /\ s' = s) \/ exists db a, m = Ok (db, a) /\ r = Ok a /\ memory s' = db).
Proof.
  intros [(db & a & -> & -> & -> & V)|(-> & e & -> & _)]%commit_with_cases H; split; try done; [right|left]; eauto.
Qed.

(** A step that commits a database keeps the lockout of every account whose
    count it does not clear. *)
Definition keeps_lockouts (cleared : list text) (db db' : AuthDb) : Prop := forall n, n ∉ cleared -> fails db' n = fails db n.

Lemma commit_lockouts {A} o s (m : result harness_error (AuthDb * A)) s' r cleared :
  (forall db a, m = Ok (db, a) -> keeps_lockouts cleared (memory s) db) -> commit_with o s m = (s', r) -> memory s = disk s ->
  memory s' = disk s' /\ forall n, is_ok r = false \/ n ∉ cleared -> fails (memory s') n = fails (memory s) n.
Proof.
  intros Hm H Hs. apply commit_same in H as [H1 [(e & -> & ->)|(db & a & Hr & -> & <-)]]; [done| |done]. split; [done|].
  intros n [Hn|Hn]; [done|]. by apply (Hm _ _ Hr).
Qed.

Lemma create_session_users o db n db' r : create_session o db n = Ok (db', r) -> users db' = users db /\ session_id r = new_session_id o.
Proof.
  unfold create_session. cbv zeta. destruct (session_limits _) as [i a]. intros H. apply bind_Ok_inv in H as ([] & _ & H). by injection H as <- <-.
Qed.

(** The database and the answer of a computation that succeeded. *)
Ltac computed H := repeat (progress (cbv zeta in H; results)); apply Ok_inj in H; injection H as <- <-.

Section Lockouts.
Context (o : oracle) (s : Store) (Hs : memory s = disk s).

Lemma create_user_lockouts u p r s' x : create_user o s u p r = (s', x) ->
  memory s' = disk s' /\ forall n, x <> Ok n -> fails (memory s') n = fails (memory s) n.
Proof.
  intros H. apply commit_same in H as [H1 [(e & -> & ->)|(db & a & Hr & -> & Hdb)]]; [done| |done]. split; [done|]. intros n Hn.
  computed Hr. rewrite Hdb. apply fails_other. congruence.
Qed.

Lemma set_role_lockouts u r s' x : set_role o s u r = (s', x) -> memory s' = disk s' /\ forall n, fails (memory s') n = fails (memory s) n.
Proof.
  intros H. apply (commit_lockouts _ _ _ _ _ []) in H as [H1 H2]; [split; [done|]; intros n; apply H2; right; apply not_elem_of_nil | |done].
  intros db a Hr. computed Hr. intros n _. by eapply fails_same.
Qed.

Lemma delete_user_lockouts u s' x : delete_user o s u = (s', x) ->
  memory s' = disk s' /\ forall n, is_ok x = false \/ n ∉ [canonical u] -> fails (memory s') n = fails (memory s) n.
Proof.
  intros H. apply (commit_lockouts _ _ _ _ _ [canonical u]) in H as [H1 H2]; [done | |done].
  intros db a Hr. computed Hr. intros n [Hn _]%not_elem_of_cons. unfold fails. cbn [users].
  by rewrite lookup_delete_ne.
Qed.

Lemma set_disabled_lockouts u d s' x : set_disabled o s u d = (s', x) ->
  memory s' = disk s' /\ forall n, is_ok x = false \/ n ∉ (if d then [] else [canonical u]) -> fails (memory s') n = fails (memory s) n.
Proof.
  intros H. eapply commit_lockouts in H as [H1 H2]; [by split | |done].
  intros db a Hr. computed Hr. intros n Hn. destruct d.
  - by eapply (fails_same _ _ _ (with_disabled _ true)).
  - apply not_elem_of_cons in Hn as [Hn _]. by apply fails_other.
Qed.

Lemma renewed_lockouts db u' n0 : keeps_lockouts [n0] db (revoke_sessions_for (set_user db n0 u') n0).
Proof. intros n Hn%not_elem_of_cons. apply fails_other, Hn. Qed.

Lemma forget_memory n st : memory (forget_setup_code n st) = memory st /\ disk (forget_setup_code n st) = disk st.
Proof. unfold forget_setup_code. by destruct (teqb _ _). Qed.

Lemma set_password_lockouts u p s' x : set_password o s u p = (s', x) ->
  memory s' = disk s' /\ forall n, is_ok x = false \/ n ∉ [canonical u] -> fails (memory s') n = fails (memory s) n.
Proof.
  unfold set_password. cbv zeta. destruct (commit_with _ _ _) as [s1 r1] eqn:E. intros H.
  apply (commit_lockouts _ _ _ _ _ [canonical u]) in E as [H1 H2]; [| |done].
  - injection H as <- <-. destruct (forget_memory (canonical u) s1) as [E1 E2]. by destruct (is_ok r1); rewrite ?E1, ?E2.
  - intros db a Hr. computed Hr. apply renewed_lockouts.
Qed.

Lemma change_password_lockouts u c p s' x : change_password o s u c p = (s', x) ->
  memory s' = disk s' /\ forall n, is_ok x = false \/ n ∉ [canonical u] -> fails (memory s') n = fails (memory s) n.
Proof.
  unfold change_password. cbv zeta. destruct (commit_with _ _ _) as [s1 r1] eqn:E. intros H.
  apply (commit_lockouts _ _ _ _ _ [canonical u]) in E as [H1 H2]; [| |done].
  - injection H as <- <-. destruct (forget_memory (canonical u) s1) as [E1 E2]. by destruct (is_ok r1); rewrite ?E1, ?E2.
  - intros db a Hr. results. cbv zeta in Hr. results. apply create_session_users in Hr as [Hu _]. intros n Hn. unfold fails. rewrite Hu. by apply renewed_lockouts.
Qed.

(** A login counts a wrong password of an account that is not locked. *)
Definition counted (n : text) (s' : Store) : Prop :=
  exists c until, fails (memory s) n = Some (c, until) /\ is_locked until (now o) = false
    /\ fails (memory s') n = Some (u32_succ c, Some (now o + lockout_delay_sec (u32_succ c) * second)).

Lemma login_lockouts u p s' x : login o s u p = (s', x) ->
  memory s' = disk s' /\ forall n,
    (canonical u <> n -> fails (memory s') n = fails (memory s) n)
    /\ (canonical u = n -> is_ok x = false ->
        (x = Err err_login_failed /\ is_Some (users (memory s) !! n) /\ counted n s')
        \/ (~ (x = Err err_login_failed /\ is_Some (users (memory s) !! n)) /\ fails (memory s') n = fails (memory s) n)).
Proof.
  unfold login. cbv zeta. set (name := canonical u). intros H.
  destruct (users (memory s) !! name) as [u0|] eqn:Hu; [|injection H as <- <-; split; [done|]; intros n; split; [done|]; intros <- _; right; split; [|done]; intros [_ Hn]; rewrite Hu in Hn; by destruct Hn].
  destruct (is_locked _ _) eqn:El; [injection H as <- <-; split; [done|]; intros n; split; [done|]; intros <- _; right; split; [|done]; by intros [[=] _]|].
  destruct (verify_password _ _ _ _) as [ok rehash]. destruct (disabled u0 || negb ok).
  - destruct (persist _ _ _) as [s1 r1] eqn:E. apply persist_cases in E as [(-> & -> & _)|(-> & -> & _)]; injection H as <- <-; (split; [done|]); intros n; split.
    + intros Hn. by apply fails_other.
    + intros <- _. left. split; [done|]. split; [by rewrite Hu|]. exists (failed_count u0), (locked_until_ts u0). split; [|split; [done|]].
      * unfold fails. by rewrite Hu.
      * cbn [memory]. by rewrite fails_self.
    + done.
    + intros <- _. right. split; [|done]. by intros [[=] _].
  - apply commit_with_cases in H as [(db & a & Hm & -> & -> & _)|(-> & e & -> & He)]; (split; [done|]); intros n; split.
    + intros Hn. apply create_session_users in Hm as [Hm _]. cbn [memory]. unfold fails. rewrite Hm. apply fails_other. congruence.
    + done.
    + done.
    + intros <- _. right. split; [|done]. intros [[= ->] _].
      destruct He as [He|(? & ? & _ & He & _)]; [|discriminate He]. unfold create_session in He. cbv zeta in He. destruct (session_limits _).
      unfold refuse_if in He. by destruct (_ <=? _)%nat.
Qed.

Lemma validate_session_lockouts id s' x : validate_session o s id = (s', x) -> memory s' = disk s' /\ users (memory s') = users (memory s).
Proof.
  unfold validate_session. intros H. destruct (bool_decide _); [by injection H as <- <-|]. cbv zeta in H.
  destruct (sessions (memory s) !! hash_token id) as [r0|] eqn:Hr; [|by injection H as <- <-].
  destruct (revoked r0); [by injection H as <- <-|]. destruct (session_limits _) as [idle absolute].
  destruct (_ || touch_due _ _); [|by injection H as <- <-].
  unfold touch_session in H. destruct (stored o); [|by injection H as <- <-]. rewrite <- Hs, Hr in H. cbn in H. by injection H as <- <-.
Qed.

Lemma logout_lockouts id s' x : logout o s id = (s', x) -> memory s' = disk s' /\ users (memory s') = users (memory s).
Proof.
  unfold logout. intros H. destruct (bool_decide _); [by injection H as <- <-|]. cbv zeta in H.
  destruct (sessions (memory s) !! hash_token id) as [r0|] eqn:Hr; [|by injection H as <- <-]. destruct (revoked r0); [by injection H as <- <-|].
  apply commit_same in H as [H1 [(e & -> & ->)|(db & a & [= <- _] & -> & E)]]; [done| |done]. by rewrite E in *.
Qed.

Lemma reopen_lockouts s' x : reopen o s = (s', x) -> memory s' = disk s' /\
  forall n, is_ok x = false \/ n ∉ (if shipped (disk s) then [BOOTSTRAP_USERNAME] else []) -> fails (memory s') n = fails (memory s) n.
Proof.
  unfold reopen. cbv zeta. intros H. cbn [memory disk setup_file] in H. destruct (negb (db_ok _)); [by injection H as <- <-|].
  destruct (shipped (disk s)); cbn [negb] in H; [|injection H as <- <-; cbn; by rewrite Hs].
  destruct (file_written o); cbn [negb] in H; [|injection H as <- <-; cbn; by rewrite Hs].
  rewrite <- Hs in H. apply (commit_lockouts _ _ _ _ _ [BOOTSTRAP_USERNAME]) in H as [H1 H2]; [done| |done].
  cbn [memory]. intros db a Hr. destruct (users (memory s) !! BOOTSTRAP_USERNAME); computed Hr; [apply renewed_lockouts|done].
Qed.
End Lockouts.

Lemma guesses_app n es es' : guesses n (es ++ es') = (guesses n es + guesses n es')%nat.
Proof. unfold guesses. by rewrite List.filter_app, length_app. Qed.

(** Nothing is noted of a refused step but a counted guess. *)
Definition unlocked (db db' : AuthDb) (es : list event) (n : text) : Prop := guesses n es = 0%nat /\ fails db' n = fails db n.

Lemma users_fails db db' n : users db' = users db -> fails db' n = fails db n.
Proof. unfold fails. by intros ->. Qed.

Lemma step_lockouts a o s s' x : memory s = disk s -> step a o s = (s', x) -> memory s' = disk s' /\
  forall n, Cleared n ∉ noted s a o x ->
    unlocked (memory s) (memory s') (noted s a o x) n \/ (guesses n (noted s a o x) = 1%nat /\ counted o s n s').
Proof.
  intros Hs H. destruct a as [u p r|u r|u|u d|u p|u c p|u p|id|id|]; cbn [step] in H.
  - destruct (create_user _ _ _ _ _) as [s1 y] eqn:E. injection H as <- <-. apply create_user_lockouts in E as [H1 H2]; [|done]. split; [done|]. intros n Hn.
    left. split; [by destruct y|]. apply H2. intros ->. apply Hn. cbn. set_solver.
  - destruct (set_role _ _ _ _) as [s1 y] eqn:E. injection H as <- <-. apply set_role_lockouts in E as [H1 H2]; [|done]. split; [done|]. intros n Hn.
    left. split; [by destruct y|]. apply H2.
  - destruct (delete_user _ _ _) as [s1 y] eqn:E. injection H as <- <-. apply delete_user_lockouts in E as [H1 H2]; [|done]. split; [done|]. intros n Hn.
    left. split; [by destruct y|]. apply H2. destruct y; [right | by left]. cbn in Hn. set_solver.
  - destruct (set_disabled _ _ _ _) as [s1 y] eqn:E. injection H as <- <-. apply set_disabled_lockouts in E as [H1 H2]; [|done]. split; [done|]. intros n Hn.
    left. split; [by destruct y; [destruct d|]|]. apply H2. destruct y; [right | by left]. cbn in Hn. destruct d; set_solver.
  - destruct (set_password _ _ _ _) as [s1 y] eqn:E. injection H as <- <-. apply set_password_lockouts in E as [H1 H2]; [|done]. split; [done|]. intros n Hn.
    left. split; [by destruct y|]. apply H2. destruct y; [right | by left]. cbn in Hn. set_solver.
  - destruct (change_password _ _ _ _ _) as [s1 y] eqn:E. injection H as <- <-. apply change_password_lockouts in E as [H1 H2]; [|done]. split; [done|]. intros n Hn.
    left. split; [by destruct y|]. apply H2. destruct y; [right | by left]. cbn in Hn. set_solver.
  - destruct (login _ _ _ _) as [s1 y] eqn:E. injection H as <- <-. apply login_lockouts in E as [H1 H2]; [|done]. split; [done|]. intros n Hn.
    destruct (H2 n) as [Hne Heq]. cbn [noted] in *. destruct y as [r|e].
    + left. split; [done|]. apply Hne. intros Ec. apply Hn. rewrite Ec. set_solver.
    + destruct (decide (canonical u = n)) as [E|E].
      * specialize (Heq E eq_refl) as [([= ->] & Hsome & Hc)|[Hno Hk]].
        -- right. split; [|done]. cbn [noted]. rewrite E, bool_decide_true, (bool_decide_true (is_Some _)) by done. cbn. by rewrite teqb_refl.
        -- left. split; [|done]. cbn [noted]. rewrite E. destruct (bool_decide_reflect (e = err_login_failed)) as [->|]; [|done].
           rewrite (bool_decide_false (is_Some _)); [done|]. intros Hsome. apply Hno. by split.
      * left. split; [|by apply Hne]. destruct (_ && _); [|done]. cbn. by rewrite (proj2 (teqb_neq _ _) E).
  - destruct (validate_session _ _ _) as [s1 y] eqn:E. injection H as <- <-. apply validate_session_lockouts in E as [H1 H2]; [|done]. split; [done|]. intros n Hn.
    left. split; [by destruct y|]. by apply users_fails.
  - destruct (logout _ _ _) as [s1 y] eqn:E. injection H as <- <-. apply logout_lockouts in E as [H1 H2]; [|done]. split; [done|]. intros n Hn.
    left. split; [by destruct y as [[]|]|]. by apply users_fails.
  - destruct (reopen _ _) as [s1 y] eqn:E. injection H as <- <-. apply reopen_lockouts in E as [H1 H2]; [|done]. split; [done|]. intros n Hn.
    left. split; [destruct y; [|done]; cbn; by destruct (shipped _)|]. apply H2. destruct y; [right | by left]. cbn in Hn. destruct (shipped (disk s)); set_solver.
Qed.

(** The clock does not go back, and stays in an interval. *)
Definition within (lo hi : Z) (l : list (op * oracle)) : Prop :=
  StronglySorted Z.le (map (fun x => now (snd x)) l) /\ Forall (fun x => lo <= now (snd x) <= hi) l.

Lemma u32_succ_cases n : 0 <= n -> (n < 13 /\ u32_succ n = n + 1) \/ (13 <= n /\ 14 <= u32_succ n).
Proof. unfold u32_succ. change (2 ^ 32 - 1) with 4294967295. lia. Qed.

Lemma no_account_no_guess l s s' es n : memory s = disk s -> run l s = (s', es) -> Cleared n ∉ es -> fails (memory s) n = None -> guesses n es = 0%nat.
Proof.
  revert s es. induction l as [|[a o] l IH]; intros s es Hs H Hc Hn; cbn [run] in H; [by injection H as <- <-|].
  destruct (step a o s) as [s1 x] eqn:E, (run l s1) as [s2 es2] eqn:Er. injection H as <- <-. apply not_elem_of_app in Hc as [Hc1 Hc2].
  apply step_lockouts in E as [Hs1 Hk]; [|done]. rewrite guesses_app. destruct (Hk n Hc1) as [[-> Hf]|[_ (c & v & Hf & _)]]; [|congruence].
  rewrite (IH s1 es2); [done|done|done|done|by rewrite Hf].
Qed.

(** [free]: the time of the next guess that the lockout lets through. *)
Lemma guesses_bounded (D : 0 < second) hi n l : forall s s' es c until free,
  memory s = disk s -> run l s = (s', es) -> Cleared n ∉ es -> fails (memory s) n = Some (c, until) -> 0 <= c -> within 0 hi l ->
  Forall (fun x => is_locked until (now (snd x)) = false -> free <= now (snd x)) l ->
  Z.of_nat (guesses n es) <= Z.max 0 (13 - c) + Z.max 0 ((hi - free) / (900 * second) + 1).
Proof.
  induction l as [|[a o] l IH]; intros s s' es c until free Hs H Hc Hn Hpos [Hsort Hin] Hfree; cbn [run] in H; [injection H as <- <-; cbn; lia|].
  destruct (step a o s) as [s1 x] eqn:E, (run l s1) as [s2 es2] eqn:Er. injection H as <- <-. apply not_elem_of_app in Hc as [Hc1 Hc2].
  apply step_lockouts in E as [Hs1 Hk]; [|done]. rewrite guesses_app. cbn [map] in Hsort. apply StronglySorted_inv in Hsort as [Hsort Hle]. cbn [snd] in Hle.
  pose proof (Forall_inv Hin) as Ho. cbn in Ho. apply Forall_inv_tail in Hin. pose proof (Forall_inv Hfree) as Hf. cbn in Hf. apply Forall_inv_tail in Hfree.
  rewrite Forall_map in Hle.
  destruct (Hk n Hc1) as [[-> Hf1]|[-> (c1 & v & Hf1 & Hl & Hf2)]].
  - eapply IH; [done|exact Er|done|by rewrite Hf1|done|by split|done].
  - rewrite Hn in Hf1. injection Hf1 as <- <-. specialize (Hf Hl). pose proof (u32_succ_cases c Hpos) as Hcase.
    destruct Hcase as [[Hc' Eu]|[Hc' Eu]].
    + specialize (IH s1 s2 es2 _ _ free Hs1 Er Hc2 Hf2 ltac:(lia) (conj Hsort Hin)).
      assert (Hfr : Forall (fun x => is_locked (Some (now o + lockout_delay_sec (u32_succ c) * second)) (now x.2) = false -> free <= now x.2) l)
        by (eapply Forall_impl; [exact Hle|]; cbn; intros; lia).
      specialize (IH Hfr). rewrite Eu in IH. lia.
    + specialize (IH s1 s2 es2 _ _ (now o + 900 * second) Hs1 Er Hc2 Hf2 ltac:(lia) (conj Hsort Hin)).
      rewrite (lockout_delay_full _ Eu) in IH.
      assert (Hfr : Forall (fun x => is_locked (Some (now o + 900 * second)) (now x.2) = false -> now o + 900 * second <= now x.2) l)
        by (apply Forall_true; intros y Hy; unfold is_locked in Hy; lia).
      specialize (IH Hfr).
      assert (H1 : (hi - (now o + 900 * second)) / (900 * second) = (hi - now o) / (900 * second) - 1)
        by (replace (hi - (now o + 900 * second)) with ((hi - now o) + (-1) * (900 * second)) by lia; rewrite Z.div_add by lia; lia).
      assert (H2 : 0 <= (hi - now o) / (900 * second)) by (apply Z.div_pos; lia).
      assert (H3 : (hi - now o) / (900 * second) <= (hi - free) / (900 * second)) by (apply Z.div_le_mono; lia).
      lia.
Qed.

(** C12. Guessing a password is slow.  In a stretch of time in which no login of
    an account succeeds and no administrator resets or re-enables it, and
    whatever else is done to the store in between, whatever fails and however
    often the program restarts, at most 14 wrong passwords of the account are
    tried and one more for each 15 minutes.  (A wrong current password in a
    change of password, which needs a live session, is not counted.) *)
Theorem brute_force_bounded l s s' es n t W : 0 < second -> memory s = disk s -> (forall u, users (memory s) !! n = Some u -> 0 <= failed_count u) ->
  0 <= t -> 0 <= W -> within t (t + W) l -> run l s = (s', es) -> Cleared n ∉ es ->
  Z.of_nat (guesses n es) <= 14 + W / (900 * second).
Proof.
  intros D Hs Hpos Ht HW [Hsort Hin] H Hc. assert (0 <= W / (900 * second)) by (apply Z.div_pos; lia).
  destruct (users (memory s) !! n) as [u|] eqn:Hu.
  - assert (Hb : Z.of_nat (guesses n es) <= Z.max 0 (13 - failed_count u) + Z.max 0 ((t + W - t) / (900 * second) + 1)).
    { eapply (guesses_bounded D (t + W) n l s s' es _ (locked_until_ts u) t); [done|exact H|done| |by apply Hpos| |].
      - unfold fails. by rewrite Hu.
      - split; [done|]. eapply Forall_impl; [exact Hin|]. cbn. lia.
      - eapply Forall_impl; [exact Hin|]. cbn. lia. }
    specialize (Hpos _ eq_refl). replace (t + W - t) with W in Hb by lia. lia.
  - rewrite (no_account_no_guess l s s' es n); [lia|done|exact H|done|]. unfold fails. by rewrite Hu.
Qed.

(** ** Sessions *)

(** The events [es] account for a session row: issued to its user when the row
    says, not ended since, last seen when the row says. *)
Definition authentic (es : list event) (key : text) (r : SessionRow) : Prop :=
  exists es1 es2, es = es1 ++ Issued key (s_username r) (s_created_ts r) :: es2
    /\ Ended key ∉ es2 /\ EndedAll (s_username r) ∉ es2
    /\ (last_seen_ts r = s_created_ts r \/ Seen key (last_seen_ts r) ∈ es2).
Definition enabled_user (db : AuthDb) (n : text) : Prop := exists u, users db !! n = Some u /\ disabled u = false.
Definition live (es : list event) (db : AuthDb) : Prop :=
  forall key r, sessions db !! key = Some r -> revoked r = false -> authentic es key r /\ enabled_user db (s_username r).

Lemma authentic_more es new key r : authentic es key r -> Ended key ∉ new -> EndedAll (s_username r) ∉ new -> authentic (es ++ new) key r.
Proof.
  intros (es1 & es2 & -> & H1 & H2 & H3) Hk Hu. exists es1, (es2 ++ new). rewrite <- app_assoc. split; [done|].
  rewrite !not_elem_of_app. repeat split; try done. destruct H3 as [H3|H3]; [by left|right]. apply elem_of_app. by left.
Qed.
Lemma live_more es new db : live es db ->
  (forall key r, sessions db !! key = Some r -> revoked r = false -> Ended key ∉ new /\ EndedAll (s_username r) ∉ new) -> live (es ++ new) db.
Proof. intros H Hn key r Hr Hv. destruct (H key r Hr Hv) as [H1 H2], (Hn key r Hr Hv). split; [by apply authentic_more|done]. Qed.
(** Events that end no session. *)
Definition harmless (e : event) : Prop := match e with Ended _ | EndedAll _ => False | _ => True end.
Lemma live_harmless es new db : live es db -> Forall harmless new -> live (es ++ new) db.
Proof. intros H Hn. apply live_more; [done|]. intros key r _ _. rewrite Forall_forall in Hn. by split; intros Hin%Hn. Qed.

Lemma live_set_user es db n u : live es db -> (enabled_user db n -> disabled u = false) -> live es (set_user db n u).
Proof.
  intros H Hu key r Hr Hv. destruct (H key r Hr Hv) as [Ha He]. split; [done|]. destruct (decide (s_username r = n)) as [E|E].
  - exists u. cbn [set_user users]. rewrite E, lookup_insert_eq. split; [done|]. apply Hu. by rewrite <- E.
  - destruct He as (u0 & Hu0 & Hd). exists u0. cbn [set_user users]. by rewrite lookup_insert_ne by congruence.
Qed.
Lemma live_same es db n u u' : live es db -> users db !! n = Some u -> disabled u' = disabled u -> live es (set_user db n u').
Proof. intros H Hu Hd. apply live_set_user; [done|]. intros (u0 & Hu0 & Hd0). congruence. Qed.

Lemma revoked_rows db n key r : sessions (revoke_sessions_for db n) !! key = Some r -> revoked r = false -> sessions db !! key = Some r /\ s_username r <> n.
Proof.
  cbn [revoke_sessions_for sessions]. rewrite lookup_fmap. destruct (sessions db !! key) as [r0|]; [|done]. intros [= <-].
  destruct (teqb (s_username r0) n) eqn:E; [done|]. intros _. split; [done|]. by apply teqb_neq.
Qed.
(** Ending the sessions of a user whose row changes: the database may have the
    user as a new row already. *)
Lemma live_renewed es db n u l : live es db -> Forall harmless l -> live (es ++ EndedAll n :: l) (revoke_sessions_for (set_user db n u) n).
Proof.
  intros H Hl key r Hr Hv. apply revoked_rows in Hr as [Hr Hne]; [|done]. destruct (H key r Hr Hv) as [Ha (u0 & Hu0 & Hd)]. split.
  - rewrite Forall_forall in Hl. apply authentic_more; [done| |]; intros [Hin|Hin%Hl]%elem_of_cons; try done. injection Hin as Hin. by apply Hne.
  - exists u0. cbn. by rewrite lookup_insert_ne by congruence.
Qed.

Lemma create_session_live es o db n db' r : live es db -> enabled_user db n -> create_session o db n = Ok (db', r) ->
  live (es ++ [Issued (hash_token (session_id r)) n (now o)]) db'.
Proof.
  intros H Hn Hc. pose proof (proj2 (create_session_users _ _ _ _ _ Hc)) as Hid. unfold create_session in Hc. cbv zeta in Hc. destruct (session_limits _) as [i a].
  computed Hc. intros key r Hr Hv. cbn [sessions] in Hr. apply lookup_insert_Some in Hr as [[<- <-]|[Hne Hr]].
  - split; [|done]. exists es, []. repeat split; try apply not_elem_of_nil. by left.
  - apply map_lookup_filter_Some in Hr as [Hr _]. destruct (H key r Hr Hv) as [Ha He]. split; [|done].
    apply authentic_more; [done|..]; intros [Hin|Hin%not_elem_of_nil]%elem_of_cons; done.
Qed.

(** A refused commit leaves the database; a committed one is live for the
    events of the step if the computed one is. *)
Lemma commit_live {A} es o s (m : result harness_error (AuthDb * A)) s' r (new : result harness_error A -> list event) :
  commit_with o s m = (s', r) -> memory s = disk s -> live es (memory s) ->
  (forall e, new (Err e) = []) -> (forall db a, m = Ok (db, a) -> live (es ++ new (Ok a)) db) -> memory s' = disk s' /\ live (es ++ new r) (memory s').
Proof.
  intros H Hs Hl He Hm. apply commit_same in H as [H1 [(e & -> & ->)|(db & a & Hr & -> & <-)]]; [| |done]; (split; [done|]).
  - by rewrite He, app_nil_r.
  - by apply Hm.
Qed.

Section Live.
Context (o : oracle) (s : Store) (es : list event) (Hs : memory s = disk s) (Hl : live es (memory s)).

Lemma create_user_live u p r s' x : create_user o s u p r = (s', x) -> memory s' = disk s' /\ live (es ++ noted s (CreateUser u p r) o (Created x)) (memory s').
Proof.
  intros H. apply (commit_live es _ _ _ _ _ (fun x => noted s (CreateUser u p r) o (Created x)) H); [done..|]. intros db a Hm. computed Hm.
  apply live_harmless; [|by repeat constructor]. by apply live_set_user.
Qed.
Lemma set_role_live u r s' x : set_role o s u r = (s', x) -> memory s' = disk s' /\ live (es ++ noted s (SetRole u r) o (Done x)) (memory s').
Proof.
  intros H. apply (commit_live es _ _ _ _ _ (fun x => noted s (SetRole u r) o (Done x)) H); [done..|]. intros db a Hm. computed Hm.
  by apply live_renewed.
Qed.
Lemma delete_user_live u s' x : delete_user o s u = (s', x) -> memory s' = disk s' /\ live (es ++ noted s (DeleteUser u) o (Done x)) (memory s').
Proof.
  intros H. apply (commit_live es _ _ _ _ _ (fun x => noted s (DeleteUser u) o (Done x)) H); [done..|]. intros db a Hm. computed Hm.
  intros key r Hr Hv. cbn [sessions] in Hr. apply map_lookup_filter_Some in Hr as [Hr Hne]. destruct (Hl key r Hr Hv) as [Ha (u0 & Hu0 & Hd)]. split.
  - apply authentic_more; [done|..]; [set_solver|]. intros [[= E]|Hin]%elem_of_cons; [done|set_solver].
  - exists u0. cbn [users]. by rewrite lookup_delete_ne.
Qed.
Lemma set_disabled_live u d s' x : set_disabled o s u d = (s', x) -> memory s' = disk s' /\ live (es ++ noted s (SetDisabled u d) o (Done x)) (memory s').
Proof.
  intros H. apply (commit_live es _ _ _ _ _ (fun x => noted s (SetDisabled u d) o (Done x)) H); [done..|]. intros db a Hm. computed Hm. destruct d.
  - by apply live_renewed.
  - apply live_harmless; [|by repeat constructor]. by apply live_set_user.
Qed.
Lemma set_password_live u p s' x : set_password o s u p = (s', x) -> memory s' = disk s' /\ live (es ++ noted s (SetPassword u p) o (Done x)) (memory s').
Proof.
  unfold set_password. cbv zeta. destruct (commit_with _ _ _) as [s1 r1] eqn:E. intros H.
  apply (commit_live es _ _ _ _ _ (fun x => noted s (SetPassword u p) o (Done x))) in E as [H1 H2]; [|done..|].
  - injection H as <- <-. destruct (forget_memory (canonical u) s1) as [E1 E2]. by destruct (is_ok r1); rewrite ?E1, ?E2.
  - intros db a Hm. computed Hm. apply live_renewed; [done|by repeat constructor].
Qed.
Lemma change_password_live u c p s' x : change_password o s u c p = (s', x) -> memory s' = disk s' /\ live (es ++ noted s (ChangePassword u c p) o (LoggedIn x)) (memory s').
Proof.
  unfold change_password. cbv zeta. destruct (commit_with _ _ _) as [s1 r1] eqn:E. intros H.
  apply (commit_live es _ _ _ _ _ (fun x => noted s (ChangePassword u c p) o (LoggedIn x))) in E as [H1 H2]; [|done..|].
  - injection H as <- <-. destruct (forget_memory (canonical u) s1) as [E1 E2]. by destruct (is_ok r1); rewrite ?E1, ?E2.
  - intros db r Hm. results. cbv zeta in Hm. results.
    change (noted s (ChangePassword u c p) o (LoggedIn (Ok r))) with ([EndedAll (canonical u); Cleared (canonical u)] ++ [Issued (hash_token (session_id r)) (canonical u) (now o)]).
    rewrite app_assoc. eapply create_session_live; [|..|exact Hm].
    + apply live_renewed; [done|by repeat constructor].
    + eexists. cbn [revoke_sessions_for set_user users]. rewrite lookup_insert_eq. by split.
Qed.

Lemma login_live u p s' x : login o s u p = (s', x) -> memory s' = disk s' /\ live (es ++ noted s (Login u p) o (LoggedIn x)) (memory s').
Proof.
  assert (Hg : forall e, Forall harmless (noted s (Login u p) o (LoggedIn (Err e)))) by (intros e; cbn; destruct (_ && _); by repeat constructor).
  unfold login. cbv zeta. set (name := canonical u). intros H.
  destruct (users (memory s) !! name) as [u0|] eqn:Hu; [|injection H as <- <-; split; [done|]; by apply live_harmless].
  destruct (is_locked _ _); [injection H as <- <-; split; [done|]; by apply live_harmless|].
  destruct (verify_password _ _ _ _) as [ok rehash]. destruct (disabled u0 || negb ok) eqn:Ed.
  - destruct (persist _ _ _) as [s1 r1] eqn:E. apply persist_cases in E as [(-> & -> & _)|(-> & -> & _)]; injection H as <- <-; (split; [done|]); apply live_harmless; try done.
    by eapply live_same.
  - apply commit_same in H as [H1 [(e & -> & ->)|(db & r & Hm & -> & E)]]; [by split; [|apply live_harmless]| |done]. split; [done|]. rewrite E.
    apply orb_false_iff in Ed as [Ed _].
    change (noted s (Login u p) o (LoggedIn (Ok r))) with ([Cleared name] ++ [Issued (hash_token (session_id r)) name (now o)]).
    rewrite app_assoc. eapply create_session_live; [|..|exact Hm].
    + apply live_harmless; [|by repeat constructor]. eapply live_same; [done|done|]. by destruct rehash; [destruct (hash_password _ _)|].
    + eexists. cbn [set_user users]. rewrite lookup_insert_eq. split; [done|]. rewrite <- Ed. by destruct rehash; [destruct (hash_password _ _)|].
Qed.

Lemma logout_live id s' x : logout o s id = (s', x) -> memory s' = disk s' /\ live (es ++ noted s (Logout id) o (LoggedOut x)) (memory s').
Proof.
  unfold logout. intros H. assert (H0 : live (es ++ []) (memory s)) by by rewrite app_nil_r.
  destruct (bool_decide _); [by injection H as <- <-|]. cbv zeta in H.
  destruct (sessions (memory s) !! hash_token id) as [r0|] eqn:Hr; [|by injection H as <- <-]. destruct (revoked r0); [by injection H as <- <-|].
  apply (commit_live es _ _ _ _ _ (fun x => noted s (Logout id) o (LoggedOut x)) H); [done..|]. intros db a [= <- <-].
  intros key r Hr2 Hv. cbn [set_session sessions] in Hr2. apply lookup_insert_Some in Hr2 as [[<- <-]|[Hne Hk]]; [done|]. destruct (Hl key r Hk Hv) as [Ha He]. split; [|done].
  apply authentic_more; [done|..]; [|set_solver]. intros [[= E]|Hin]%elem_of_cons; [by apply Hne|set_solver].
Qed.

Lemma reopen_live s' x : reopen o s = (s', x) -> memory s' = disk s' /\ live (es ++ noted s Reopen o (Done x)) (memory s').
Proof.
  assert (H0 : live (es ++ []) (disk s)) by by rewrite app_nil_r, <- Hs.
  unfold reopen. cbv zeta. intros H. cbn [memory disk setup_file] in H. destruct (negb (db_ok _)); [injection H as <- <-; by rewrite Hs|].
  destruct (shipped (disk s)) eqn:Esh; cbn [negb] in H; [|injection H as <- <-; cbn [noted]; by rewrite Esh].
  destruct (file_written o); cbn [negb] in H; [|by injection H as <- <-]. rewrite <- Hs in H.
  apply (commit_live es _ _ _ _ _ (fun x => noted s Reopen o (Done x))) in H; [done..|]. cbn [memory]. intros db a Hm. cbn [noted]. rewrite Esh.
  destruct (users (memory s) !! BOOTSTRAP_USERNAME) eqn:Hu; computed Hm; [apply live_renewed; [done|by repeat constructor]|].
  exfalso. unfold shipped in Esh. by rewrite <- Hs, Hu in Esh.
Qed.
End Live.

(** What a session that validates meets at the time. *)
Definition valid_now (o : oracle) (db : AuthDb) (id : text) (info : SessionInfo) : Prop :=
  exists r u, sessions db !! hash_token id = Some r /\ revoked r = false /\ info = MkInfo id (s_username r)
    /\ users db !! s_username r = Some u /\ disabled u = false
    /\ now o < s_created_ts r + snd (session_limits (must_change_password u))
    /\ now o < last_seen_ts r + fst (session_limits (must_change_password u)).

Lemma validate_session_live o s es id s' x : memory s = disk s -> live es (memory s) -> validate_session o s id = (s', x) ->
  memory s' = disk s' /\ live (es ++ noted s (ValidateSession id) o (Validated x)) (memory s')
  /\ forall info, x = Some info -> valid_now o (memory s) id info.
Proof.
  unfold validate_session. intros Hs Hl H. assert (H0 : live (es ++ []) (memory s)) by by rewrite app_nil_r.
  destruct (bool_decide _); [by injection H as <- <-|]. cbv zeta in H.
  destruct (sessions (memory s) !! hash_token id) as [r|] eqn:Hr; [|by injection H as <- <-].
  destruct (revoked r) eqn:Hv; [by injection H as <- <-|].
  destruct (Hl _ _ Hr Hv) as [Ha (u & Hu & Hd)]. rewrite Hu in H. cbv beta iota in H. rewrite Hd in H.
  destruct (session_limits (must_change_password u)) as [idle absolute] eqn:El.
  rewrite orb_false_r in H.
  assert (Hseen : live (es ++ [Seen (hash_token id) (now o)]) (memory s)) by (apply live_harmless; [done | by repeat constructor]).
  assert (Hnow : (expires_ts r <=? now o) || (s_created_ts r + absolute <=? now o) || (last_seen_ts r + idle <=? now o) = false ->
    valid_now o (memory s) id (MkInfo id (s_username r))).
  { intros E. guards. exists r, u. rewrite El. cbn. repeat split; (done || lia). }
  destruct ((expires_ts r <=? now o) || (s_created_ts r + absolute <=? now o) || (last_seen_ts r + idle <=? now o)) eqn:Eexp.
  - cbn [orb] in H. unfold touch_session in H. destruct (stored o); [|by injection H as <- <-]. rewrite <- Hs, Hr in H. cbn in H. injection H as <- <-.
    split; [done|]. split; [|done]. cbn [noted memory]. rewrite app_nil_r. intros key r' Hr' Hv'. cbn [set_session sessions] in Hr'.
    apply lookup_insert_Some in Hr' as [[_ <-]|[_ Hr']]; [done | by apply Hl].
  - cbn [orb] in H. destruct (touch_due _ _); [|injection H as <- <-; split; [done|]; split; [done|]; intros info [= <-]; by apply Hnow].
    unfold touch_session in H. destruct (stored o); [|by injection H as <- <-]. rewrite <- Hs, Hr in H. cbn in H. injection H as <- <-.
    split; [done|]. split; [|intros info [= <-]; by apply Hnow]. cbn [noted memory]. intros key r' Hr' Hv'. cbn [set_session sessions] in Hr'.
    apply lookup_insert_Some in Hr' as [[<- <-]|[_ Hr']]; [|by apply Hseen].
    split; [|by exists u]. destruct Ha as (es1 & es2 & E & H1 & H2 & H3). exists es1, (es2 ++ [Seen (hash_token id) (now o)]).
    rewrite E, <- app_assoc. split; [done|]. cbn. rewrite !not_elem_of_app. repeat split; try done; [set_solver..|]. right. set_solver.
Qed.

Lemma step_live a o s s' x es : memory s = disk s -> live es (memory s) -> step a o s = (s', x) ->
  memory s' = disk s' /\ live (es ++ noted s a o x) (memory s').
Proof.
  intros Hs Hl H. destruct a as [u p r|u r|u|u d|u p|u c p|u p|id|id|]; cbn [step] in H;
    match type of H with (let '(_, _) := ?t in _) = _ => destruct t as [s1 y] eqn:E end; injection H as <- <-.
  - by apply create_user_live.
  - by apply set_role_live.
  - by apply delete_user_live.
  - by apply set_disabled_live.
  - by apply set_password_live.
  - by apply change_password_live.
  - by apply login_live.
  - by apply (validate_session_live o s es) in E as (? & ? & _).
  - by apply logout_live.
  - by apply reopen_live.
Qed.
Lemma run_live l s s' es es0 : memory s = disk s -> live es0 (memory s) -> run l s = (s', es) -> memory s' = disk s' /\ live (es0 ++ es) (memory s').
Proof.
  revert s es es0. induction l as [|[a o] l IH]; intros s es es0 Hs Hl H; cbn [run] in H; [injection H as <- <-; by rewrite app_nil_r|].
  destruct (step a o s) as [s1 x] eqn:E, (run l s1) as [s2 es2] eqn:Er. injection H as <- <-. rewrite app_assoc.
  apply (step_live _ _ _ _ _ es0) in E as [H1 H2]; [|done..]. by eapply IH.
Qed.

(** The step gives the password of the account. *)
Definition gives_password (u : text) (a : op) (o : oracle) (s : Store) : Prop :=
  exists name password row, (a = Login name password \/ exists new, a = ChangePassword name password new) /\ canonical name = u
    /\ users (memory s) !! u = Some row /\ disabled row = false
    /\ fst (verify_password unb64 derive (credential u row password) (password_hash row)) = true
    /\ (a = Login name password -> is_locked (locked_until_ts row) (now o) = false).

Lemma issued_step key u t s a o s' x : step a o s = (s', x) -> Issued key u t ∈ noted s a o x -> now o = t /\ gives_password u a o s.
Proof.
  intros H Hin. destruct a as [u0 p r|u0 r|u0|u0 d|u0 p|u0 c p|u0 p|id|id|]; cbn [step] in H;
    match type of H with (let '(_, _) := ?t in _) = _ => destruct t as [s1 y] eqn:E end; injection H as <- <-; cbn [noted] in Hin.
  - destruct y; set_solver.
  - destruct y; set_solver.
  - destruct y; set_solver.
  - destruct y; destruct d; set_solver.
  - destruct y; set_solver.
  - destruct y as [r|]; [|set_solver]. assert (Ht : t = now o /\ u = canonical u0) by set_solver. destruct Ht as [-> ->]. split; [done|].
    unfold change_password in E. cbv zeta in E. destruct (commit_with _ _ _) as [s2 r2] eqn:E2. assert (r2 = Ok r) as -> by congruence.
    apply commit_with_cases in E2 as [(db & a & Hm & _)|(_ & e & [=] & _)]. results. cbv zeta in Hm. results.
    exists u0, c, a1. repeat split; eauto. by intros [=].
  - destruct y as [r|]; [|destruct (_ && _); set_solver]. assert (Ht : t = now o /\ u = canonical u0) by set_solver. destruct Ht as [-> ->]. split; [done|].
    unfold login in E. cbv zeta in E. destruct (users (memory s) !! canonical u0) as [row|] eqn:Hu; [|done]. destruct (is_locked _ _) eqn:El; [done|].
    destruct (verify_password _ _ _ _) as [ok rehash] eqn:Ev. destruct (disabled row || negb ok) eqn:Ed.
    + by destruct (persist _ _ _) as [? []].
    + guards. exists u0, p, row. repeat split; try done; [by left|]. by rewrite Ev.
  - destruct y; set_solver.
  - destruct y as [[]|]; set_solver.
  - destruct y; [destruct (shipped _)|]; set_solver.
Qed.
Lemma issued_run key u t l s s' es : run l s = (s', es) -> Issued key u t ∈ es ->
  exists l1 a o l2, l = l1 ++ (a, o) :: l2 /\ now o = t /\ gives_password u a o (fst (run l1 s)).
Proof.
  revert s es. induction l as [|[a o] l IH]; intros s es H Hin; cbn [run] in H; [injection H as <- <-; set_solver|].
  destruct (step a o s) as [s1 x] eqn:E, (run l s1) as [s2 es2] eqn:Er. injection H as <- <-. apply elem_of_app in Hin as [Hin|Hin].
  - apply (issued_step _ _ _ _ _ _ _ _ E) in Hin as [H1 H2]. by exists [], a, o, l.
  - destruct (IH _ _ Er Hin) as (l1 & a1 & o1 & l2 & -> & Ht & Hg). exists ((a, o) :: l1), a1, o1, l2. split; [done|]. split; [done|].
    cbn [run]. rewrite E. by destruct (run l1 s1).
Qed.

Lemma session_origin l s s' es id o s2 info :
  memory s = disk s -> sessions (memory s) = ∅ -> run l s = (s', es) -> validate_session o s' id = (s2, Some info) ->
  exists u row t es1 es2 l1 a o1 l2 seen, info = MkInfo id u /\ users (memory s') !! u = Some row /\ disabled row = false
    /\ es = es1 ++ Issued (hash_token id) u t :: es2 /\ Ended (hash_token id) ∉ es2 /\ EndedAll u ∉ es2
    /\ l = l1 ++ (a, o1) :: l2 /\ now o1 = t /\ gives_password u a o1 (fst (run l1 s))
    /\ now o < t + snd (session_limits (must_change_password row))
    /\ (seen = t \/ Seen (hash_token id) seen ∈ es2) /\ now o < seen + fst (session_limits (must_change_password row)).
Proof.
  intros Hs H0 H E. assert (Hl : live [] (memory s)) by (intros key r; rewrite H0; by rewrite lookup_empty).
  destruct (run_live _ _ _ _ _ Hs Hl H) as [Hs' Hl']. cbn [app] in Hl'.
  apply (validate_session_live o s' es) in E as (_ & _ & Hval); [|done..].
  destruct (Hval _ eq_refl) as (r & row & Hr & Hrev & -> & Hu & Hd & Habs & Hidle).
  destruct (Hl' _ _ Hr Hrev) as [(es1 & es2 & He & H1 & H2 & H3) _].
  assert (Hin : Issued (hash_token id) (s_username r) (s_created_ts r) ∈ es) by (rewrite He; set_solver).
  destruct (issued_run _ _ _ _ _ _ _ H Hin) as (l1 & a & o1 & l2 & Hl1 & Ht & Hg).
  by exists (s_username r), row, (s_created_ts r), es1, es2, l1, a, o1, l2, (last_seen_ts r).
Qed.

(** C11. Nobody is let in without a password, and nobody stays too long.  Take
    any history of a store that had no sessions, with failed transactions and
    restarts in it.  If a session identifier validates now, then a session with
    its hash was issued to the user it validates as; the step that issued it
    gave the password of that account, which was enabled, and not locked if it
    was a login; since then the session was not ended, and nothing ended the
    user's sessions (a change of role, password or a removal does); the account
    still exists and is enabled; and both limits of the session hold, from its
    issue and from the last time it was seen, the short ones while the account
    must replace its password. *)
Theorem live_session_authentic l s s' es id o s2 info :
  memory s = disk s -> sessions (memory s) = ∅ -> run l s = (s', es) -> step (ValidateSession id) o s' = (s2, Validated (Some info)) ->
  exists u row t es1 es2 l1 a o1 l2 seen, info = MkInfo id u /\ users (memory s') !! u = Some row /\ disabled row = false
    /\ es = es1 ++ Issued (hash_token id) u t :: es2 /\ Ended (hash_token id) ∉ es2 /\ EndedAll u ∉ es2
    /\ l = l1 ++ (a, o1) :: l2 /\ now o1 = t /\ gives_password u a o1 (fst (run l1 s))
    /\ now o < t + snd (session_limits (must_change_password row))
    /\ (seen = t \/ Seen (hash_token id) seen ∈ es2) /\ now o < seen + fst (session_limits (must_change_password row)).
Proof.
  intros Hs H0 H Hv. cbn [step] in Hv. destruct (validate_session o s' id) as [s3 y] eqn:E. injection Hv as <- ->. by eapply session_origin.
Qed.
End Accounts.

(** ** A small store *)

Module SmallAccounts.
Import SmallCodec.
Definition lower : text -> text := map to_ascii_lower.
Definition hash_token (t : text) : text := take 64 (map (fun c => if is_hex_char c then c else 48) t ++ repeat 48 64).
Definition second : Z := 1000.
Definition limits : Limits := MkLimits 43200000 604800000 600000 1800000.

Definition password : text := T "correct horse battery".
Definition salt : list Z := [1; 2; 3].
Definition record : text := match hash_unchecked b64 derive password salt with Ok r => r | Err _ => [] end.
Definition admin : UserRow := MkUserRow (T "0123456789abcdef0123456789abcdef") false record 0 false None 0 None (T "admin").
Definition db : AuthDb := MkDb {[T "admin" := admin]} ∅.
Definition start : Store := MkStore db db None.
Definition at_ (t : Z) (fine : bool) : oracle :=
  MkOracle t fine true salt (T "00000000000000000000000000000001") (T "5e551") (T "c5af") [].
Definition guessing : list (op * oracle) :=
  [(Login (T "admin") (T "password"), at_ 1000 true); (Login (T "ADMIN ") (T "letmein"), at_ 2000 true); (Reopen, at_ 2500 true);
   (SetRole (T "admin") (T "operator"), at_ 2600 true); (Login (T "admin") (T "hunter2"), at_ 3000 false)].
Definition script : list (op * oracle) :=
  guessing ++ [(Login (T "admin") password, at_ 4000 true); (CreateUser (T "Bob") (T "a password of bob") (T "operator"), at_ 5000 true);
               (ValidateSession (T "5e551"), at_ 600000 true); (DeleteUser (T "bob"), at_ 700000 false)].

Notation small f := (f lower b64 unb64 derive hash_token second limits) (only parsing).
Definition small_run := small run.

Lemma hex_width c : is_hex_char c = true -> utf8_width c = 1.
Proof. unfold is_hex_char, is_lower_hex_char, is_ascii_digit, in_range, utf8_width. intros H. destruct (Z.ltb_spec c 128); [done|]. lia. Qed.
Lemma hex_text s : forallb is_hex_char s = true -> byte_len s = Z.of_nat (length s).
Proof.
  induction s as [|c s IH]; [done|]. cbn [forallb]. intros [Hc Hs]%andb_true_iff. cbn [byte_len length]. rewrite (hex_width c Hc), (IH Hs). lia.
Qed.
Lemma laws_hold : laws lower b64 unb64 derive hash_token second limits.
Proof.
  constructor.
  - unfold lower. intros s H. rewrite <- (map_id s) at 2. apply map_ext_in. intros c Hc. rewrite forallb_forall in H. specialize (H _ Hc).
    unfold plain_char, is_ascii_lower, is_ascii_digit, in_range, c_dot, c_dash in H. cbn [existsb] in H.
    unfold to_ascii_lower, is_ascii_upper, in_range. destruct ((65 <=? c) && (c <=? 90)) eqn:E; [lia|done].
  - exact b64_decodes.
  - exact b64_alphabet.
  - exact derive_length.
  - intros t. unfold is_hex_of, hash_token.
    set (u := map _ t ++ repeat 48 64).
    assert (Hu : forallb is_hex_char (take 64 u) = true).
    { apply forallb_forall. intros c Hc. apply list_elem_of_In in Hc. apply elem_of_take in Hc as (i & Hc & _). apply list_elem_of_lookup_2 in Hc.
      unfold u in Hc. apply elem_of_app in Hc as [Hc|Hc].
      - apply list_elem_of_In, in_map_iff in Hc as (x & <- & _). by destruct (is_hex_char x) eqn:E.
      - apply list_elem_of_In, repeat_spec in Hc as ->. done. }
    rewrite (hex_text _ Hu), Hu, andb_true_r. apply Z.eqb_eq. rewrite length_take. unfold u. rewrite length_app, length_map, repeat_length. lia.
  - done.
  - exists (fun _ => None). reflexivity.
Qed.

Lemma start_good : good lower unb64 second start.
Proof. split; [done|]. apply db_ok_valid. vm_compute. reflexivity. Qed.
Lemma at_sane t fine : 0 <= t < 10 ^ 12 -> sane second (at_ t fine).
Proof. intros Ht. constructor; [cbn; unfold second; lia | by split; [|cbn; lia] | reflexivity]. Qed.

Lemma accounts_stay_valid_witness : good lower unb64 second (fst (small_run script start)) /\ db_ok lower unb64 second (disk (fst (small_run script start))) = true.
Proof.
  destruct (accounts_stay_valid lower b64 unb64 derive hash_token second limits script start (fst (small_run script start)) (snd (small_run script start)) laws_hold) as (H1 & H2 & _);
    [repeat (constructor; [apply at_sane; lia|]); constructor | apply start_good | apply surjective_pairing | by split].
Defined.

Lemma brute_force_bounded_witness : guesses (T "admin") (snd (small_run guessing start)) = 2%nat
  /\ Z.of_nat (guesses (T "admin") (snd (small_run guessing start))) <= 14 + 2000 / (900 * second).
Proof.
  split; [vm_compute; reflexivity|].
  apply (brute_force_bounded lower b64 unb64 derive hash_token second limits guessing start (fst (small_run guessing start)) (snd (small_run guessing start)) (T "admin") 1000 2000);
    [done | done | | lia | lia | | apply surjective_pairing | ].
  - intros u Hu. assert (E : users (memory start) !! T "admin" = Some admin) by (vm_compute; reflexivity). rewrite E in Hu. injection Hu as <-. cbn. lia.
  - split; [cbn; repeat constructor; lia | repeat constructor; cbn; lia].
  - apply (bool_decide_unpack (Cleared (T "admin") ∉ snd (small_run guessing start))). vm_compute. exact I.
Defined.

Lemma live_session_authentic_witness : exists l1 a o1 l2, script = l1 ++ (a, o1) :: l2 /\ now o1 = 4000
    /\ gives_password lower unb64 derive (T "admin") a o1 (fst (small_run l1 start)).
Proof.
  destruct (live_session_authentic lower b64 unb64 derive hash_token second limits script start (fst (small_run script start)) (snd (small_run script start)) (T "5e551") (at_ 800000 true)
    (fst (small step (ValidateSession (T "5e551")) (at_ 800000 true) (fst (small_run script start)))) (MkInfo (T "5e551") (T "admin")))
    as (u & row & t & es1 & es2 & l1 & a & o1 & l2 & seen & Hi & _ & _ & He & _ & _ & Hl & Ht & Hg & _); [done | done | apply surjective_pairing | vm_compute; reflexivity|].
  exists l1, a, o1, l2. split; [exact Hl|]. injection Hi as <-. split; [|exact Hg]. rewrite Ht.
  assert (Hin : Issued (hash_token (T "5e551")) (T "admin") t ∈ snd (small_run script start)) by (rewrite He; apply elem_of_app; right; left).
  assert (Hall : Forall (fun e => match e with Issued _ _ t => t = 4000 | _ => True end) (snd (small_run script start)))
    by (vm_compute; repeat constructor).
  rewrite Forall_forall in Hall. exact (Hall _ Hin).
Defined.
End SmallAccounts.
