(* ===== verification/Routes.v ===== *)
(** The router of the HTTP console, [server/routes/mod.rs]: the table of its
    routes with the layer that each sits behind, and the matching of request
    paths against templates that axum documents. *)

From S2P Require Import Prelude Text.
Local Open Scope Z_scope.

(** [csrf]: behind the layer of [guards::guarded]. *)
Record Route := MkRoute { verb : text; template : text; handler : text; csrf : bool }.

(** The four routers of [build_router]. *)
Definition open : list (string * string * string) :=
  [("GET", "/", "console::console");
   ("GET", "/preview/html", "console::preview_html");
   ("GET", "/static/{name}", "console::static_asset");
   ("GET", "/api/status", "core::status");
   ("GET", "/api/audit", "auth::audit_events");
   ("GET", "/api/registry", "panels::registry");
   ("GET", "/api/tools", "panels::tools");
   ("GET", "/api/skills", "panels::skills");
   ("GET", "/api/web", "panels::web_status");
   ("GET", "/api/sessions", "core::list_sessions");
   ("GET", "/api/soul", "core::soul_state");
   ("GET", "/api/style", "style::catalog");
   ("GET", "/api/agent/checks", "agent::agent_checks");
   ("GET", "/api/harness/runs", "panels::harness_runs")].
Definition guarded_routes : list (string * string * string) :=
  [("GET", "/api/netconnect", "panels::netconnect_panel");
   ("GET", "/api/netconnect/diag", "panels::netconnect_diag");
   ("GET", "/api/diag", "diag::status");
   ("GET", "/api/diag/read", "diag::read");
   ("POST", "/api/diag/inject", "diag::inject");
   ("POST", "/api/diag/forget", "diag::forget");
   ("POST", "/api/config/reload", "core::reload_config");
   ("GET", "/api/sessions/{session_id}/goal-stage", "goals::status");
   ("POST", "/api/sessions/{session_id}/goal-stage", "goals::stage");
   ("POST", "/api/skills/check", "skills::check");
   ("GET", "/api/sessions/{session_id}/skills", "skills::selection");
   ("POST", "/api/sessions/{session_id}/skills", "skills::select");
   ("GET", "/api/sessions/{session_id}/structured-facts", "structured_memory::selection");
   ("POST", "/api/sessions/{session_id}/structured-facts", "structured_memory::select");
   ("POST", "/api/prompt/preview", "persona::preview");
   ("POST", "/api/slash/parse", "core::slash_parse");
   ("GET", "/api/soul/document", "persona::document");
   ("POST", "/api/soul/document", "persona::edit");
   ("POST", "/api/soul/proposals", "persona::propose");
   ("GET", "/api/soul/proposals/{id}", "persona::review");
   ("POST", "/api/soul/proposals/{id}", "persona::decide");
   ("POST", "/api/web", "panels::web_toggle");
   ("POST", "/api/web/allow", "panels::web_allow");
   ("POST", "/api/web/deny", "panels::web_deny");
   ("POST", "/api/web/mode", "panels::web_mode");
   ("POST", "/api/web/block", "panels::web_block");
   ("POST", "/api/web/unblock", "panels::web_unblock");
   ("POST", "/api/web/fetch", "panels::web_fetch");
   ("POST", "/api/web/check", "panels::web_check");
   ("POST", "/api/web/search", "panels::web_search");
   ("POST", "/api/web/research", "panels::web_research");
   ("POST", "/api/web/research/cancel", "panels::web_cancel");
   ("POST", "/api/web/research/jobs", "panels::web_research_job_start");
   ("GET", "/api/web/research/jobs", "panels::web_research_jobs");
   ("GET", "/api/web/research/jobs/{job_id}", "panels::web_research_job");
   ("POST", "/api/web/inject", "panels::web_inject");
   ("POST", "/api/web/forget", "panels::web_forget");
   ("GET", "/api/mcp", "panels::mcp_status");
   ("POST", "/api/mcp/call", "panels::mcp_call");
   ("GET", "/api/memory", "panels::memory_status");
   ("POST", "/api/memory", "panels::memory_toggle");
   ("POST", "/api/memory/add", "panels::memory_add");
   ("POST", "/api/memory/forget", "panels::memory_forget");
   ("POST", "/api/memory/clear", "panels::memory_clear");
   ("GET", "/api/structured-memory", "structured_memory::status");
   ("POST", "/api/structured-memory/gates", "structured_memory::set_gates");
   ("GET", "/api/structured-memory/search", "structured_memory::search_facts");
   ("GET", "/api/structured-memory/facts", "structured_memory::list_facts");
   ("POST", "/api/structured-memory/facts", "structured_memory::add_fact");
   ("GET", "/api/structured-memory/facts/{id}", "structured_memory::get_fact");
   ("POST", "/api/structured-memory/facts/{id}/deactivate", "structured_memory::deactivate_fact");
   ("GET", "/api/structured-memory/proposals", "structured_memory::list_proposals");
   ("POST", "/api/structured-memory/proposals", "structured_memory::propose");
   ("GET", "/api/structured-memory/proposals/{id}", "structured_memory::review");
   ("POST", "/api/structured-memory/proposals/{id}", "structured_memory::decide");
   ("GET", "/api/structured-memory/episodes", "structured_memory::list_episodes");
   ("POST", "/api/structured-memory/episodes/purge", "structured_memory::purge_expired");
   ("GET", "/api/structured-memory/episodes/{id}", "structured_memory::get_episode");
   ("POST", "/api/structured-memory/episodes/{id}/summary", "structured_memory::summarize_episode");
   ("POST", "/api/structured-memory/episodes/{id}/delete", "structured_memory::delete_episode");
   ("GET", "/api/structured-memory/export", "structured_memory::export_owner");
   ("POST", "/api/structured-memory/purge", "structured_memory::purge_owner");
   ("GET", "/api/structured-memory/consolidation", "structured_memory::list_consolidation");
   ("POST", "/api/structured-memory/consolidation", "structured_memory::start_consolidation");
   ("GET", "/api/structured-memory/consolidation/{id}", "structured_memory::get_consolidation");
   ("POST", "/api/structured-memory/consolidation/{id}/cancel", "structured_memory::cancel_consolidation");
   ("GET", "/api/spend/summary", "core::spend_summary");
   ("GET", "/api/analytics/summary", "core::analytics_summary");
   ("POST", "/api/spend/predict", "core::spend_predict");
   ("POST", "/api/sessions", "core::create_session");
   ("POST", "/api/sessions/search", "session_io::search_session_transcripts");
   ("GET", "/api/sessions/legacy", "session_io::legacy_sessions");
   ("POST", "/api/sessions/{session_id}/adopt", "session_io::adopt_session");
   ("POST", "/api/sessions/clear", "core::clear_sessions");
   ("GET", "/api/sessions/{session_id}", "core::get_session");
   ("DELETE", "/api/sessions/{session_id}/attachment-pins", "core::clear_attachment_pins");
   ("GET", "/api/sessions/{session_id}/export", "session_io::export_session");
   ("POST", "/api/sessions/{session_id}/rename", "core::rename_session");
   ("POST", "/api/sessions/{session_id}/prompt-history", "core::record_prompt");
   ("POST", "/api/sessions/{session_id}/goal", "core::session_goal");
   ("POST", "/api/soul", "core::soul_toggle");
   ("POST", "/api/style", "style::select");
   ("POST", "/api/model", "core::model_select");
   ("GET", "/api/ollama/inventory", "ollama::inventory");
   ("GET", "/api/ollama/profile", "ollama::profile");
   ("POST", "/api/ollama/pull", "ollama::pull");
   ("POST", "/api/ollama/pull/cancel", "ollama::cancel_pull");
   ("GET", "/api/keys", "panels::api_keys_status");
   ("POST", "/api/keys", "panels::api_keys_set");
   ("POST", "/api/chat", "core::chat");
   ("POST", "/api/chat/attachments", "core::upload_attachments");
   ("GET", "/api/notes-corpus", "notes_corpus::list_notes");
   ("POST", "/api/notes-corpus", "notes_corpus::ingest_notes");
   ("DELETE", "/api/notes-corpus/{id}", "notes_corpus::delete_note");
   ("POST", "/api/chat/cancel", "core::cancel_chat");
   ("POST", "/api/loop/start", "loop_runner::start");
   ("POST", "/api/loop/stop", "loop_runner::stop");
   ("GET", "/api/loop/status", "loop_runner::status");
   ("GET", "/api/loop/events/{run_id}", "loop_runner::events");
   ("GET", "/api/github/status", "agent::github_status");
   ("POST", "/api/agent/run", "agent::agent_run");
   ("GET", "/api/agent/runs", "agent::agent_runs");
   ("GET", "/api/agent/runs/{run_id}", "agent::agent_run_status");
   ("POST", "/api/agent/runs/{run_id}/decision", "agent::agent_run_decision");
   ("POST", "/api/agent/runs/{run_id}/push", "agent::agent_run_push");
   ("POST", "/api/agent/runs/{run_id}/publish", "agent::agent_run_publish");
   ("POST", "/api/agent/runs/{run_id}/discard", "agent::agent_run_discard");
   ("GET", "/api/agent/jobs", "agent::agent_jobs_list");
   ("POST", "/api/agent/jobs", "agent::agent_job_create");
   ("GET", "/api/agent/jobs/{job_id}", "agent::agent_job_get");
   ("POST", "/api/agent/jobs/{job_id}/cancel", "agent::agent_job_cancel");
   ("GET", "/api/agent/schedules", "agent::schedules_list");
   ("POST", "/api/agent/schedules", "agent::schedule_create");
   ("GET", "/api/notifications", "notifications::status");
   ("POST", "/api/notifications/{delivery_id}/replay", "notifications::replay");
   ("POST", "/api/agent/schedules/preview", "agent::schedule_preview");
   ("GET", "/api/agent/schedules/{schedule_id}", "agent::schedule_get");
   ("POST", "/api/agent/schedules/{schedule_id}/cancel", "agent::schedule_cancel")].
Definition auth_open : list (string * string * string) :=
  [("GET", "/api/auth/setup-status", "auth::setup_status");
   ("POST", "/api/auth/login", "auth::login");
   ("GET", "/api/auth/whoami", "auth::whoami");
   ("GET", "/api/auth/users", "auth::list_users")].
Definition auth_guarded : list (string * string * string) :=
  [("POST", "/api/auth/logout", "auth::logout");
   ("POST", "/api/auth/password", "auth::change_password");
   ("POST", "/api/auth/users/{username}/disabled", "auth::set_disabled");
   ("POST", "/api/auth/users", "auth::create_user");
   ("POST", "/api/auth/users/{username}/password", "auth::set_password");
   ("POST", "/api/auth/users/{username}/role", "auth::set_role");
   ("DELETE", "/api/auth/users/{username}", "auth::delete_user")].

Definition with_layer (layer : bool) (l : list (string * string * string)) : list Route :=
  map (fun '(m, p, h) => MkRoute (T m) (T p) (T h) layer) l.
(** [build_router], without its outer layers. *)
Definition build_router : list Route :=
  with_layer false open ++ with_layer true guarded_routes ++ with_layer false auth_open ++ with_layer true auth_guarded.

Definition REGISTERED_PATHS : list string :=
  ["/api/analytics/summary";
   "/api/config/reload";
   "/";
   "/preview/html";
   "/static/{name}";
   "/api/status";
   "/api/registry";
   "/api/tools";
   "/api/netconnect";
   "/api/netconnect/diag";
   "/api/diag";
   "/api/diag/read";
   "/api/diag/inject";
   "/api/diag/forget";
   "/api/skills";
   "/api/skills/check";
   "/api/sessions/{session_id}/skills";
   "/api/sessions/{session_id}/structured-facts";
   "/api/web";
   "/api/web/allow";
   "/api/web/deny";
   "/api/web/mode";
   "/api/web/block";
   "/api/web/unblock";
   "/api/web/fetch";
   "/api/web/check";
   "/api/web/search";
   "/api/web/research";
   "/api/web/research/cancel";
   "/api/web/research/jobs";
   "/api/web/research/jobs/{job_id}";
   "/api/web/inject";
   "/api/web/forget";
   "/api/mcp";
   "/api/mcp/call";
   "/api/memory";
   "/api/memory/add";
   "/api/memory/forget";
   "/api/memory/clear";
   "/api/structured-memory";
   "/api/structured-memory/gates";
   "/api/structured-memory/search";
   "/api/structured-memory/facts";
   "/api/structured-memory/facts/{id}";
   "/api/structured-memory/facts/{id}/deactivate";
   "/api/structured-memory/proposals";
   "/api/structured-memory/proposals/{id}";
   "/api/structured-memory/episodes";
   "/api/structured-memory/episodes/purge";
   "/api/structured-memory/episodes/{id}";
   "/api/structured-memory/episodes/{id}/summary";
   "/api/structured-memory/episodes/{id}/delete";
   "/api/structured-memory/export";
   "/api/structured-memory/purge";
   "/api/structured-memory/consolidation";
   "/api/structured-memory/consolidation/{id}";
   "/api/structured-memory/consolidation/{id}/cancel";
   "/api/spend/summary";
   "/api/spend/predict";
   "/api/sessions";
   "/api/sessions/search";
   "/api/sessions/legacy";
   "/api/sessions/{session_id}/adopt";
   "/api/sessions/clear";
   "/api/sessions/{session_id}";
   "/api/sessions/{session_id}/export";
   "/api/sessions/{session_id}/attachment-pins";
   "/api/sessions/{session_id}/rename";
   "/api/sessions/{session_id}/prompt-history";
   "/api/sessions/{session_id}/goal";
   "/api/sessions/{session_id}/goal-stage";
   "/api/prompt/preview";
   "/api/slash/parse";
   "/api/soul/document";
   "/api/soul/proposals";
   "/api/soul/proposals/{id}";
   "/api/soul";
   "/api/style";
   "/api/model";
   "/api/ollama/inventory";
   "/api/ollama/profile";
   "/api/ollama/pull";
   "/api/ollama/pull/cancel";
   "/api/keys";
   "/api/chat";
   "/api/chat/attachments";
   "/api/notes-corpus";
   "/api/notes-corpus/{id}";
   "/api/chat/cancel";
   "/api/loop/start";
   "/api/loop/stop";
   "/api/loop/status";
   "/api/loop/events/{run_id}";
   "/api/github/status";
   "/api/agent/checks";
   "/api/agent/run";
   "/api/agent/runs";
   "/api/agent/runs/{run_id}";
   "/api/agent/runs/{run_id}/decision";
   "/api/agent/runs/{run_id}/push";
   "/api/agent/runs/{run_id}/publish";
   "/api/agent/runs/{run_id}/discard";
   "/api/agent/jobs";
   "/api/agent/jobs/{job_id}";
   "/api/agent/jobs/{job_id}/cancel";
   "/api/notifications";
   "/api/notifications/{delivery_id}/replay";
   "/api/agent/schedules";
   "/api/agent/schedules/preview";
   "/api/agent/schedules/{schedule_id}";
   "/api/agent/schedules/{schedule_id}/cancel";
   "/api/harness/runs";
   "/api/auth/setup-status";
   "/api/auth/login";
   "/api/auth/logout";
   "/api/auth/password";
   "/api/audit";
   "/api/auth/users/{username}/disabled"].
Definition registered_paths : list text :=
  map T (REGISTERED_PATHS ++
  ["/api/auth/whoami";
   "/api/auth/users";
   "/api/auth/users/{username}/password";
   "/api/auth/users/{username}/role";
   "/api/auth/users/{username}"]).

(** ** Matching *)

Definition is_param (seg : text) : bool := starts_with (T "{") seg.
Definition segment_matches (seg part : text) : bool := if is_param seg then negb (bool_decide (part = [])) else teqb seg part.
Fixpoint segments_match (segs parts : list text) : bool :=
  match segs, parts with
  | [], [] => true
  | s :: segs, p :: parts => segment_matches s p && segments_match segs parts
  | _, _ => false
  end.
(** A parameter of a template matches one segment that is not empty. *)
Definition path_matches (template path : text) : bool := segments_match (split_on c_slash template) (split_on c_slash path).
(** A route for GET answers HEAD too. *)
Definition verb_matches (verb method : text) : bool := teqb verb method || (teqb verb (T "GET") && teqb method (T "HEAD")).
Definition route_matches (r : Route) (method path : text) : bool := verb_matches (verb r) method && path_matches (template r) path.

(** ** Lemmas *)

Lemma segments_match_spec segs parts : segments_match segs parts = true <-> Forall2 (fun s p => segment_matches s p = true) segs parts.
Proof.
  revert parts. induction segs as [|s segs IH]; intros [|p parts]; cbn [segments_match].
  - split; [constructor | done].
  - split; [done | by inversion 1].
  - split; [done | by inversion 1].
  - rewrite andb_true_iff, IH. split; [intros []; by constructor | by inversion 1].
Qed.

(** The literal segments in front of the first parameter. *)
Fixpoint leading (segs : list text) : list text :=
  match segs with
  | s :: segs => if is_param s then [] else s :: leading segs
  | [] => []
  end.

Lemma matches_leading t p : path_matches t p = true -> exists rest, split_on c_slash p = leading (split_on c_slash t) ++ rest.
Proof.
  unfold path_matches. rewrite segments_match_spec. induction 1 as [|s x segs parts Hs _ (rest & IH)]; [by exists []|].
  cbn [leading]. unfold segment_matches in Hs. destruct (is_param s); [by exists (x :: parts)|]. apply teqb_eq in Hs as ->. exists rest. by rewrite IH.
Qed.
Lemma join_leading pre rest p : pre <> [] -> split_on c_slash p = pre ++ rest -> starts_with (join [c_slash] pre) p = true.
Proof.
  intros Hne E. rewrite <- (join_split_on c_slash p), E. clear E p. induction pre as [|w pre IH]; [done|]. destruct pre as [|w' pre].
  - cbn [join app]. destruct rest; cbn [join]; [apply starts_with_spec; exists []; by rewrite app_nil_r | apply starts_with_app].
  - rewrite join_cons by done. cbn [app]. rewrite (join_cons _ w (w' :: pre ++ rest)) by done. specialize (IH ltac:(done)). cbn [app] in IH.
    apply starts_with_spec in IH as (r & ->). apply starts_with_spec. exists r. by rewrite <- !app_assoc.
Qed.
Lemma matches_prefix t p : path_matches t p = true -> leading (split_on c_slash t) <> [] -> starts_with (join [c_slash] (leading (split_on c_slash t))) p = true.
Proof. intros (rest & E)%matches_leading Hne. by eapply join_leading. Qed.

(** A template without parameters matches one path. *)
Lemma matches_literal t p : forallb (fun s => negb (is_param s)) (split_on c_slash t) = true -> path_matches t p = true -> p = t.
Proof.
  unfold path_matches. rewrite segments_match_spec. intros Hl Hm. rewrite <- (join_split_on c_slash p), <- (join_split_on c_slash t). f_equal.
  revert Hl. induction Hm as [|s x segs parts Hs _ IH]; [done|]. cbn [forallb]. intros [Hp Hl]%andb_true_iff. unfold segment_matches in Hs.
  rewrite (proj1 (negb_true_iff _) Hp) in Hs. apply teqb_eq in Hs as ->. by rewrite IH.
Qed.

(** A test of the whole table. *)
Lemma table_check (f : Route -> bool) r : forallb f build_router = true -> r ∈ build_router -> f r = true.
Proof. intros H Hr. rewrite forallb_forall in H. by apply H, list_elem_of_In. Qed.

Lemma registered_paths_exact p : p ∈ registered_paths <-> exists r, r ∈ build_router /\ template r = p.
Proof.
  split.
  - intros H. assert (Hc : forallb (fun p => existsb (fun r => teqb (template r) p) build_router) registered_paths = true) by (vm_compute; reflexivity).
    rewrite forallb_forall in Hc. apply list_elem_of_In in H. apply Hc, existsb_exists in H as (r & Hr & E%teqb_eq). exists r. by rewrite list_elem_of_In.
  - intros (r & Hr & <-). assert (H : existsb (teqb (template r)) registered_paths = true) by (apply (table_check (fun r => existsb (teqb (template r)) registered_paths)); [vm_compute; reflexivity|done]).
    apply existsb_exists in H as (x & Hx & ->%teqb_eq). by apply list_elem_of_In.
Qed.
