(* ===== verification/Gate.v ===== *)
(** The boundaries of the HTTP console, [server/guards.rs] and
    [server/headers.rs]: the Host check, the account gate, the CSRF layer, and
    the reading of a session from a request ([server/routes/auth.rs]).

    A request is what the source reads of one.  The [url] crate is the class
    of WebPolicy, the authority of the [http] crate a class here; axum's choice
    of a route is a parameter.  Reading a session is a step of Accounts. *)

From S2P Require Import Prelude Text Effects Owners NetScope PublicAddr WebPolicy RateLimit Authn Accounts Routes.
Local Open Scope Z_scope.

(** [http::uri::Authority] *)
Class AuthorityCrate := {
  Authority : Type;
  authority_parse : text -> option Authority;
  authority_host : Authority -> text;
  authority_port : Authority -> option Z;
}.

(** [headers]: lower-case names in order, [None] for a value that is not
    visible ASCII.  [target_authority]: of the request target (HTTP/2). *)
Record HttpRequest := MkHttp {
  method : text; req_path : text; target_authority : option text; headers : list (text * option text);
  peer : option IpAddr; listener_scheme : option text;
}.

Fixpoint get_all (name : text) (hs : list (text * option text)) : list (option text) :=
  match hs with
  | [] => []
  | (n, v) :: hs => if teqb n name then v :: get_all name hs else get_all name hs
  end.
(** [headers().get(name)] *)
Definition get_header (req : HttpRequest) (name : string) : option (option text) := head (get_all (T name) (headers req)).
(** ... and [to_str]. *)
Definition header_str (req : HttpRequest) (name : string) : option text := mjoin (get_header req name).

Record ApiError := MkApiError { status : Z; api_code : string; retry_after : option Z }.
Definition api_error (status : Z) (code : string) : ApiError := MkApiError status code None.

(** [AuthManager::summary], less the times that no guard reads. *)
Record UserSummary := MkSummary { us_user_id : text; us_username : text; us_disabled : bool; us_role : text; us_must_change : bool }.
Definition summary (username : text) (u : UserRow) : UserSummary := MkSummary (user_id u) username (disabled u) (role u) (must_change_password u).

Definition CSRF_HEADER : string := "x-cyclaw-csrf".
Definition FORWARDING_HEADERS : list string := ["x-forwarded-for"; "x-forwarded-host"; "x-forwarded-proto"; "x-real-ip"; "forwarded"].
Definition LOOPBACK_HOSTS : list text := [T "127.0.0.1"; T "localhost"; T "::1"].
Definition SESSION_COOKIE : text := T "cgagentharness_session".
Definition u16_max : Z := 65535.

(** ** Host *)

Definition no_u16 (port : text) : bool := bool_decide (port = []) || negb (forallb is_ascii_digit port) || negb (bool_decide (is_Some (parse_uint u16_max port))).
Definition authority_port_is_u16 (raw : text) : bool :=
  match strip_prefix (T "[") raw with
  | Some rest =>
      match split_once (T "]") rest with
      | None => false
      | Some (_, []) => true
      | Some (_, after) => match strip_prefix [c_colon] after with Some port => negb (no_u16 port) | None => false end
      end
  | None => match split_once [c_colon] raw with Some (_, port) => negb (no_u16 port) | None => true end
  end.

(** [trim_matches(['[', ']'])] *)
Definition bracket_char (c : char) : bool := (c =? 91) || (c =? 93).
Definition trim_brackets (s : text) : text := trim_end bracket_char (trim_start bracket_char s).
Definition eq_ignore_ascii_case (a b : text) : bool := teqb (map to_ascii_lower a) (map to_ascii_lower b).

Section Gate.
Context `{AC : AuthorityCrate} `{UC : UrlCrate} (lower : text -> text).

Definition request_authority (req : HttpRequest) : option Authority :=
  if (1 <? length (get_all (T "host") (headers req)))%nat then None
  else match get_header req "host" with
  | Some None => None
  | h =>
      let host := mjoin h in
      let authority := target_authority req in
      if match host, authority with Some h, Some a => negb (eq_ignore_ascii_case h a) | _, _ => false end then None
      else
        raw ← match authority with Some a => Some a | None => host end;
        if existsb (Z.eqb 64) raw || existsb is_whitespace raw then None
        else
          parsed ← authority_parse raw;
          if authority_port_is_u16 raw then Some parsed else None
  end.

Definition request_host_port (req : HttpRequest) : text * option Z :=
  match request_authority req with Some a => (lower (trim_brackets (authority_host a)), authority_port a) | None => ([], None) end.
Definition trusted_host (req : HttpRequest) : bool := existsb (teqb (fst (request_host_port req))) LOOPBACK_HOSTS.

(** ** Origin and peer *)

Definition canonical_port (port : option Z) (scheme : text) : option Z :=
  match port with
  | Some p => Some p
  | None => if teqb scheme (T "http") then Some 80 else if teqb scheme (T "https") then Some 443 else None
  end.
Definition request_scheme (req : HttpRequest) : text := default (T "http") (listener_scheme req).

Definition same_origin (req : HttpRequest) (parsed : Url) : bool :=
  let '(req_host, req_port) := request_host_port req in
  let origin_scheme := lower (scheme parsed) in
  match host_str parsed with
  | None => false
  | Some h =>
      let h := lower (trim_brackets h) in
      existsb (teqb h) LOOPBACK_HOSTS && teqb h req_host && teqb origin_scheme (request_scheme req)
      && bool_decide (canonical_port (port parsed) origin_scheme = canonical_port req_port (request_scheme req))
  end.
Definition enforce_same_origin (req : HttpRequest) : result ApiError unit :=
  _ ← match header_str req "sec-fetch-site" with
      | Some site => refuse_if (negb (teqb site (T "same-origin")) && negb (teqb site (T "none"))) (api_error 403 "CROSS_SITE_BLOCKED")
      | None => Ok tt
      end;
  match get_header req "origin" with
  | None => Ok tt
  | Some origin =>
      match url_parse (default [] origin) with
      | None => Err (api_error 403 "CROSS_ORIGIN_BLOCKED")
      | Some parsed => refuse_if (negb (same_origin req parsed)) (api_error 403 "CROSS_ORIGIN_BLOCKED")
      end
  end.

Definition looks_proxied (req : HttpRequest) : bool := existsb (fun h => bool_decide (is_Some (get_header req h))) FORWARDING_HEADERS.
(** [IpAddr::is_loopback] *)
Definition is_loopback (ip : IpAddr) : bool :=
  match ip with V4 a => a / 16777216 =? 127 | V6 s => bool_decide (s = [0; 0; 0; 0; 0; 0; 0; 1]) end.
Definition is_loopback_peer (req : HttpRequest) : bool := match peer req with Some ip => is_loopback ip | None => false end.
Definition enforce_direct_loopback (req : HttpRequest) : result ApiError unit :=
  if is_loopback_peer req && negb (looks_proxied req) then Ok tt else Err (api_error 403 "LOOPBACK_REQUIRED").

(** ** Rate limit *)

(** [show_v6] prints the addresses of version 6; only [::1] gets here. *)
Context (show_v6 : list Z -> text).
Definition client_ip (req : HttpRequest) : text :=
  match peer req with Some (V4 a) => show_ipv4 a | Some (V6 s) => show_v6 s | None => T "unknown" end.

Record RateBudget := MkBudget { max_requests : nat; window_seconds : Z }.

Context (hash_token : text -> text) (second : Z) (limits : Limits) (budget : RateBudget) (csrf_token : text).

(** [None] is an infinite wait: [as u64] saturates. *)
Definition retry_after_error (l : RateLimit.State) (clock : Z) (client : text) : ApiError :=
  let wait := match retry_after_with_limits l clock client (max_requests budget) (window_seconds budget) with
              | Some w => Z.max ((w + second - 1) / second) 1
              | None => 2 ^ 64 - 1
              end in
  MkApiError 429 "RATE_LIMIT" (Some wait).

(** ** The state behind the console *)

(** [auth]: the account store, when authentication is enabled. *)
Record World := MkWorld { auth : option Store; limiter : RateLimit.State }.
(** The oracle of an account step, and the clock of the limiter. *)
Record moment := MkMoment { account_oracle : oracle; clock : Z }.

Definition enforce_rate_limit (w : World) (m : moment) (req : HttpRequest) : World * result ApiError unit :=
  let client := client_ip req in
  let '(l, ok) := allow_with_limits (limiter w) (clock m) client (max_requests budget) (window_seconds budget) in
  (MkWorld (auth w) l, if ok then Ok tt else Err (retry_after_error l (clock m) client)).

(** ** Accounts *)

(** The loop of [cookie_value]. *)
Fixpoint find_cookie (parts : list text) : option text :=
  match parts with
  | [] => None
  | part :: parts =>
      match split_once (T "=") (trim part) with
      | Some (k, v) => if teqb (trim k) SESSION_COOKIE then Some (trim v) else find_cookie parts
      | None => find_cookie parts
      end
  end.
Definition cookie_value (req : HttpRequest) : option text := raw ← header_str req "cookie"; find_cookie (split_on 59 raw).

Definition get_user (s : Store) (username : text) : option UserSummary :=
  summary (canonical lower username) <$> users (memory s) !! canonical lower username.

Definition unauthorized : ApiError := api_error 401 "AUTH_REQUIRED".
(** [actor], on a request that no gate has marked yet. *)
Definition actor (s : Store) (o : oracle) (req : HttpRequest) : Store * result ApiError UserSummary :=
  let '(s, info) := validate_session hash_token second limits o s (default [] (cookie_value req)) in
  (s, match info with Some i => ok_or (get_user s (i_username i)) unauthorized | None => Err unauthorized end).

Definition is_public (path : text) : bool := existsb (teqb path) [T "/api/status"; T "/api/auth/setup-status"; T "/api/auth/login"].
Definition is_own (path : text) : bool := existsb (teqb path) [T "/api/auth/whoami"; T "/api/auth/password"; T "/api/auth/logout"].
Definition is_admin (method path : text) : bool :=
  starts_with (T "/api/auth/users") path
  || existsb (teqb path) [T "/api/config/reload"; T "/api/keys"; T "/api/structured-memory/gates"]
  || existsb (teqb path) [T "/api/web/allow"; T "/api/web/deny"; T "/api/web/mode"; T "/api/web/block"; T "/api/web/unblock"]
  || (teqb path (T "/api/web") && negb (teqb method (T "GET"))).

Definition portal_auditor_may (method path : text) : bool :=
  let get := teqb method (T "GET") in
  let post := teqb method (T "POST") in
  if existsb (teqb path) [T "/api/audit"; T "/api/diag"; T "/api/diag/read"] then get
  else if existsb (teqb path) [T "/api/diag/inject"; T "/api/diag/forget"; T "/api/chat"; T "/api/chat/cancel"] then post
  else if existsb (teqb path) [T "/api/prompt/preview"; T "/api/slash/parse"] then post
  else if teqb path (T "/api/sessions") then get || post
  else get && match strip_prefix (T "/api/sessions/") path with
              | Some id => negb (bool_decide (id = [])) && negb (existsb (Z.eqb c_slash) id)
                           && negb (existsb (teqb id) [T "search"; T "legacy"; T "clear"])
              | None => false
              end.

(** The account's rights to a path that is not public. *)
Definition permitted (account : UserSummary) (method path : text) : result ApiError unit :=
  let own := is_own path in
  _ ← refuse_if (us_must_change account && negb own) (api_error 403 "AUTH_PASSWORD_CHANGE_REQUIRED");
  refuse_if ((negb own && teqb (us_role account) (T "audit") && negb (teqb path (T "/api/audit") && teqb method (T "GET")))
             || (negb own && teqb (us_role account) PORTAL_AUDITOR_ROLE && negb (portal_auditor_may method path))
             || (is_admin method path && negb (teqb (us_role account) (T "admin"))))
    (api_error 403 "AUTH_PERMISSION_DENIED").

(** [account_gate] up to [next.run]: the account that the request now carries
    and the name for the log. *)
Definition account_gate (w : World) (m : moment) (req : HttpRequest) : World * result ApiError (option UserSummary * text) :=
  if negb (starts_with (T "/api/") (req_path req)) then (w, Ok (None, []))
  else match (_ ← enforce_same_origin req; enforce_direct_loopback req) with
  | Err e => (w, Err e)
  | Ok _ =>
      match enforce_rate_limit w m req with
      | (w, Err e) => (w, Err e)
      | (w, Ok _) =>
          match auth w with
          | None => (w, Ok (None, T "local"))
          | Some s =>
              let '(s, account) := actor s (account_oracle m) req in
              let w := MkWorld (Some s) (limiter w) in
              (w, if negb (is_public (req_path req)) then
                    account ← account;
                    _ ← permitted account (method req) (req_path req);
                    mret (Some account, us_username account)
                  else match account with
                       | Ok account => Ok (Some account, us_username account)
                       | Err _ => Ok (None, T "anonymous")
                       end)
          end
      end
  end.

Definition enforce_csrf (req : HttpRequest) : result ApiError unit :=
  refuse_if (negb (teqb (default [] (header_str req CSRF_HEADER)) csrf_token)) (api_error 403 "CSRF_TOKEN_INVALID").

(** ** The layers of the router, outermost first *)

Context (dispatch : text -> text -> option Route).

Inductive verdict := BadHost | Refused (e : ApiError) | NoRoute | ToHandler (r : Route) (account : option UserSummary) (actor : text).

Definition gate (w : World) (m : moment) (req : HttpRequest) : World * verdict :=
  if negb (trusted_host req) then (w, BadHost)
  else match account_gate w m req with
  | (w, Err e) => (w, Refused e)
  | (w, Ok (account, name)) =>
      match dispatch (method req) (req_path req) with
      | None => (w, NoRoute)
      | Some r =>
          match (if csrf r then enforce_csrf req else Ok tt) with
          | Err e => (w, Refused e)
          | Ok _ => (w, ToHandler r account name)
          end
      end
  end.

(** ** Who may reach which handler *)

Definition public_handlers : list text := [T "core::status"; T "auth::setup_status"; T "auth::login"].
Definition own_handlers : list text := [T "auth::whoami"; T "auth::change_password"; T "auth::logout"].
Definition audit_handlers : list text := [T "auth::audit_events"].
Definition portal_handlers : list text :=
  [T "auth::audit_events"; T "diag::status"; T "diag::read"; T "diag::inject"; T "diag::forget"; T "core::chat"; T "core::cancel_chat";
   T "persona::preview"; T "core::slash_parse"; T "core::list_sessions"; T "core::create_session"; T "core::get_session"].
Definition admin_handlers : list text :=
  [T "auth::list_users"; T "auth::create_user"; T "auth::set_disabled"; T "auth::set_password"; T "auth::set_role"; T "auth::delete_user";
   T "core::reload_config"; T "panels::api_keys_status"; T "panels::api_keys_set"; T "structured_memory::set_gates";
   T "panels::web_allow"; T "panels::web_deny"; T "panels::web_mode"; T "panels::web_block"; T "panels::web_unblock"; T "panels::web_toggle"].

(** The rights of an account, by handler. *)
Record may (a : UserSummary) (r : Route) : Prop := {
  may_restricted : us_must_change a = true -> handler r ∈ own_handlers;
  may_audit : us_role a = T "audit" -> handler r ∈ own_handlers ++ audit_handlers;
  may_portal : us_role a = PORTAL_AUDITOR_ROLE -> handler r ∈ own_handlers ++ portal_handlers;
  may_admin : us_role a <> T "admin" -> handler r ∉ admin_handlers;
}.

Definition on_list (l : list text) (x : text) : bool := existsb (teqb x) l.
Lemma on_list_spec l x : on_list l x = true <-> x ∈ l.
Proof.
  unfold on_list. rewrite existsb_exists. split.
  - intros (y & Hy & ->%teqb_eq). by apply list_elem_of_In.
  - intros H. exists x. split; [by apply list_elem_of_In|apply teqb_refl].
Qed.

(** A route chosen for a request on a path that is in a list of paths. *)
Lemma listed_path (paths hs : list text) (meth : text) r p :
  forallb (fun r => forallb (fun p => negb (route_matches r meth p) || on_list hs (handler r)) paths) build_router = true ->
  r ∈ build_router -> route_matches r meth p = true -> existsb (teqb p) paths = true -> handler r ∈ hs.
Proof.
  intros Hc Hr Hm Hp. pose proof (table_check _ r Hc Hr) as H. cbn beta in H. apply existsb_exists in Hp as (x & Hx & ->%teqb_eq).
  rewrite forallb_forall in H. specialize (H x Hx). rewrite Hm in H. cbn [negb orb] in H. by apply on_list_spec.
Qed.
(** ... whatever its method. *)
Lemma listed_path_any (paths hs : list text) r p :
  forallb (fun r => forallb (fun p => negb (path_matches (template r) p) || on_list hs (handler r)) paths) build_router = true ->
  r ∈ build_router -> path_matches (template r) p = true -> existsb (teqb p) paths = true -> handler r ∈ hs.
Proof.
  intros Hc Hr Hm Hp. pose proof (table_check _ r Hc Hr) as H. cbn beta in H. apply existsb_exists in Hp as (x & Hx & ->%teqb_eq).
  rewrite forallb_forall in H. specialize (H x Hx). rewrite Hm in H. cbn [negb orb] in H. by apply on_list_spec.
Qed.

Lemma public_path r p : r ∈ build_router -> path_matches (template r) p = true -> is_public p = true -> handler r ∈ public_handlers.
Proof. apply listed_path_any. vm_compute. reflexivity. Qed.
Lemma own_path r p : r ∈ build_router -> path_matches (template r) p = true -> is_own p = true -> handler r ∈ own_handlers.
Proof. apply listed_path_any. vm_compute. reflexivity. Qed.

(** The path of an administrator's handler is one of an administrator. *)
Definition admin_template (r : Route) : bool :=
  let segs := split_on c_slash (template r) in
  negb (on_list admin_handlers (handler r))
  || starts_with (T "/api/auth/users") (join [c_slash] (leading segs))
  || forallb (fun s => negb (is_param s)) segs
     && (existsb (teqb (template r)) [T "/api/config/reload"; T "/api/keys"; T "/api/structured-memory/gates"]
         || existsb (teqb (template r)) [T "/api/web/allow"; T "/api/web/deny"; T "/api/web/mode"; T "/api/web/block"; T "/api/web/unblock"]
         || teqb (template r) (T "/api/web") && teqb (verb r) (T "POST")).
Lemma starts_with_trans a b c : starts_with a b = true -> starts_with b c = true -> starts_with a c = true.
Proof. rewrite !starts_with_spec. intros (x & ->) (y & ->). exists (x ++ y). by rewrite app_assoc. Qed.

Lemma admin_path r meth p : r ∈ build_router -> route_matches r meth p = true -> handler r ∈ admin_handlers -> is_admin meth p = true.
Proof.
  intros Hr Hm Hh. assert (Hc : admin_template r = true) by (apply (table_check admin_template); [vm_compute; reflexivity|done]).
  unfold route_matches in Hm. apply andb_true_iff in Hm as [Hv Hm]. unfold admin_template in Hc. cbv zeta in Hc.
  rewrite (proj2 (on_list_spec _ _) Hh) in Hc. cbn [negb] in Hc. rewrite orb_false_l in Hc. apply orb_true_iff in Hc as [Hc|Hc].
  - unfold is_admin. rewrite (starts_with_trans _ _ _ Hc); [done|]. apply matches_prefix; [done|]. intros E. rewrite E in Hc. discriminate Hc.
  - apply andb_true_iff in Hc as [Hl Hc]. apply (matches_literal _ _ Hl) in Hm as ->. unfold is_admin.
    apply orb_true_iff in Hc as [Hc|Hc]; [apply orb_true_iff in Hc as [Hc|Hc]; by rewrite Hc, ?orb_true_r|].
    apply andb_true_iff in Hc as [E Hp]. apply orb_true_iff. right. rewrite E. apply teqb_eq in Hp. unfold verb_matches in Hv. rewrite Hp in Hv.
    apply orb_true_iff in Hv as [Hv|Hv]; [|discriminate Hv]. apply teqb_eq in Hv as <-. reflexivity.
Qed.

Lemma sessions_segments id : c_slash ∉ id -> split_on c_slash (T "/api/sessions/" ++ id) = [[]; T "api"; T "sessions"; id].
Proof. intros H. change (split_on c_slash (T "/api/sessions/" ++ id)) with ([[]; T "api"; T "sessions"] ++ split_on c_slash id). by rewrite split_on_no_occ. Qed.

(** What a route on [/api/sessions/] and one more segment can be. *)
Definition session_route (r : Route) : bool :=
  match split_on c_slash (template r) with
  | [a; b; c; d] =>
      negb (segment_matches a [] && segment_matches b (T "api") && segment_matches c (T "sessions") && verb_matches (verb r) (T "GET"))
      || (if is_param d then on_list portal_handlers (handler r) else existsb (teqb d) [T "search"; T "legacy"; T "clear"])
  | _ => true
  end.
Lemma session_path r id : r ∈ build_router -> route_matches r (T "GET") (T "/api/sessions/" ++ id) = true ->
  existsb (Z.eqb c_slash) id = false -> existsb (teqb id) [T "search"; T "legacy"; T "clear"] = false -> handler r ∈ portal_handlers.
Proof.
  intros Hr Hm Hid Hex. assert (Hc : session_route r = true) by (apply (table_check session_route); [vm_compute; reflexivity|done]).
  apply andb_true_iff in Hm as [Hv Hm]. unfold path_matches in Hm. rewrite sessions_segments in Hm.
  - unfold session_route in Hc. destruct (split_on c_slash (template r)) as [|a [|b [|c [|d [|]]]]]; try done; cbn [segments_match] in Hm; guards.
    rewrite H, H0, H1, Hv in Hc. cbn [negb andb orb] in Hc. unfold segment_matches in H2. destruct (is_param d); [by apply on_list_spec|].
    apply teqb_eq in H2 as ->. congruence.
  - intros Hin. assert (existsb (Z.eqb c_slash) id = true); [|congruence]. apply existsb_exists. exists c_slash. split; [by apply list_elem_of_In|apply Z.eqb_refl].
Qed.

Lemma portal_path r meth p : r ∈ build_router -> route_matches r meth p = true -> portal_auditor_may meth p = true -> handler r ∈ portal_handlers.
Proof.
  intros Hr Hm H. unfold portal_auditor_may in H. cbv zeta in H.
  destruct (existsb (teqb p) [T "/api/audit"; T "/api/diag"; T "/api/diag/read"]) eqn:E1.
  { apply teqb_eq in H as ->. eapply (listed_path _ _ (T "GET")); [|done|exact Hm|exact E1]. vm_compute. reflexivity. }
  destruct (existsb (teqb p) [T "/api/diag/inject"; T "/api/diag/forget"; T "/api/chat"; T "/api/chat/cancel"]) eqn:E2.
  { apply teqb_eq in H as ->. eapply (listed_path _ _ (T "POST")); [|done|exact Hm|exact E2]. vm_compute. reflexivity. }
  destruct (existsb (teqb p) [T "/api/prompt/preview"; T "/api/slash/parse"]) eqn:E3.
  { apply teqb_eq in H as ->. eapply (listed_path _ _ (T "POST")); [|done|exact Hm|exact E3]. vm_compute. reflexivity. }
  destruct (teqb p (T "/api/sessions")) eqn:E4.
  { assert (E4' : existsb (teqb p) [T "/api/sessions"] = true) by (cbn [existsb]; by rewrite E4).
    apply orb_true_iff in H as [H|H]; apply teqb_eq in H as ->; (eapply (listed_path _ _); [|done|exact Hm|exact E4']; vm_compute; reflexivity). }
  apply andb_true_iff in H as [Hget H]. apply teqb_eq in Hget as ->. destruct (strip_prefix _ p) as [id|] eqn:Es; [|discriminate H].
  apply strip_prefix_spec in Es as ->. guards. by apply (session_path r id).
Qed.
Lemma audit_path r p : r ∈ build_router -> path_matches (template r) p = true -> p = T "/api/audit" -> handler r ∈ audit_handlers.
Proof. intros Hr Hm ->. eapply (listed_path_any [T "/api/audit"]); [vm_compute; reflexivity|done|exact Hm|vm_compute; reflexivity]. Qed.

Lemma permitted_may a r meth p : r ∈ build_router -> route_matches r meth p = true -> permitted a meth p = Ok tt -> may a r.
Proof.
  intros Hr Hm H. unfold permitted in H. cbv zeta in H. apply bind_Ok_inv in H as ([] & H1%refuse_if_Ok & H2%refuse_if_Ok).
  pose proof (proj2 (proj1 (andb_true_iff _ _) Hm)) as Hp. apply orb_false_iff in H2 as [H2 H4]. apply orb_false_iff in H2 as [H2 H3].
  constructor.
  - intros Hc. rewrite Hc in H1. apply negb_false_iff in H1. by eapply own_path.
  - intros Hc. rewrite Hc in H2. rewrite teqb_refl, andb_true_r in H2. apply elem_of_app. destruct (is_own p) eqn:Eo; [left; by eapply own_path|right].
    apply negb_false_iff, andb_true_iff in H2 as [H2 _]. apply teqb_eq in H2. by eapply audit_path.
  - intros Hc. rewrite Hc in H3. rewrite teqb_refl, andb_true_r in H3. apply elem_of_app. destruct (is_own p) eqn:Eo; [left; by eapply own_path|right].
    apply negb_false_iff in H3. by eapply portal_path.
  - intros Hc Hh. rewrite (admin_path _ _ _ Hr Hm Hh) in H4. cbn [andb] in H4. apply negb_false_iff, teqb_eq in H4. congruence.
Qed.

(** ** Admission *)

Lemma api_path r p : r ∈ build_router -> path_matches (template r) p = true -> starts_with (T "/api/") (template r) = true -> starts_with (T "/api/") p = true.
Proof.
  intros Hr Hm Ha.
  pose proof (table_check (fun r => negb (starts_with (T "/api/") (template r)) || starts_with (T "/api/") (join [c_slash] (leading (split_on c_slash (template r))))) r
    ltac:(vm_compute; reflexivity) Hr) as Hc. cbn beta in Hc. rewrite Ha in Hc. cbn [negb orb] in Hc. eapply starts_with_trans; [exact Hc|]. apply matches_prefix; [done|].
  intros E. rewrite E in Hc. discriminate Hc.
Qed.

(** The request comes from this machine, and from no foreign page. *)
Record local_request (req : HttpRequest) : Prop := {
  lr_peer : exists ip, peer req = Some ip /\ is_loopback ip = true;
  lr_direct : forall h, h ∈ FORWARDING_HEADERS -> get_header req h = None;
  lr_site : forall site, header_str req "sec-fetch-site" = Some site -> site = T "same-origin" \/ site = T "none";
  lr_origin : forall o, get_header req "origin" = Some o -> exists u h, url_parse (default [] o) = Some u /\ host_str u = Some h
    /\ lower (trim_brackets h) = fst (request_host_port req) /\ lower (trim_brackets h) ∈ LOOPBACK_HOSTS
    /\ lower (scheme u) = request_scheme req
    /\ canonical_port (port u) (request_scheme req) = canonical_port (snd (request_host_port req)) (request_scheme req);
}.

Lemma enforce_local req : (_ ← enforce_same_origin req; enforce_direct_loopback req) = Ok tt -> local_request req.
Proof.
  intros H. apply bind_Ok_inv in H as ([] & Ho & Hl). unfold enforce_same_origin in Ho. apply bind_Ok_inv in Ho as ([] & Hs & Ho).
  unfold enforce_direct_loopback in Hl. destruct (_ && _) eqn:E; [|done]. apply andb_true_iff in E as [Hp Hx]. constructor.
  - unfold is_loopback_peer in Hp. destruct (peer req) as [ip|]; [by exists ip | discriminate Hp].
  - intros h Hh. apply negb_true_iff in Hx. destruct (get_header req h) eqn:E; [|done]. unfold looks_proxied in Hx.
    assert (existsb (fun h => bool_decide (is_Some (get_header req h))) FORWARDING_HEADERS = true); [|congruence].
    apply existsb_exists. exists h. split; [by apply list_elem_of_In|]. rewrite E. by apply bool_decide_eq_true.
  - intros site Hsite. rewrite Hsite in Hs. apply refuse_if_Ok in Hs. apply andb_false_iff in Hs as [Hs|Hs]; apply negb_false_iff, teqb_eq in Hs; auto.
  - intros o Hor. rewrite Hor in Ho. destruct (url_parse (default [] o)) as [u|]; [|done]. apply refuse_if_Ok, negb_false_iff in Ho.
    unfold same_origin in Ho. destruct (request_host_port req) as [rh rp] eqn:Er. cbv zeta in Ho. destruct (host_str u) as [h|] eqn:Eh; [|done].
    apply andb_true_iff in Ho as [Ho H4]. apply andb_true_iff in Ho as [Ho H3]. apply andb_true_iff in Ho as [H1 H2].
    apply teqb_eq in H2, H3. apply bool_decide_eq_true in H4. rewrite H3 in H4. exists u, h. repeat split; try done. by apply on_list_spec.
Qed.

(** The session cookie of the request validates as this account. *)
Definition signed_in (s : Store) (o : oracle) (req : HttpRequest) (a : UserSummary) : Prop :=
  exists info, snd (validate_session hash_token second limits o s (default [] (cookie_value req))) = Some info
    /\ get_user (fst (validate_session hash_token second limits o s (default [] (cookie_value req)))) (i_username info) = Some a.
Lemma actor_signed_in s o req s' a : actor s o req = (s', Ok a) -> signed_in s o req a.
Proof.
  unfold actor, signed_in. destruct (validate_session _ _ _ _ _ _) as [s1 info]. intros [= <- H]. destruct info as [i|]; [|done].
  apply ok_or_Ok in H. by exists i.
Qed.

Definition dispatch_law : Prop := forall m p r, dispatch m p = Some r -> r ∈ build_router /\ route_matches r m p = true.

(** What a request that reaches a handler has passed. *)
Definition passed (w : World) (m : moment) (req : HttpRequest) (r : Route) (account : option UserSummary) : Prop :=
  (exists a, request_authority req = Some a /\ lower (trim_brackets (authority_host a)) ∈ LOOPBACK_HOSTS)
  /\ (csrf r = true -> default [] (header_str req CSRF_HEADER) = csrf_token)
  /\ (verb r = T "GET" \/ csrf r = true \/ handler r = T "auth::login")
  /\ (starts_with (T "/api/") (template r) = true ->
       local_request req
       /\ snd (allow_with_limits (limiter w) (clock m) (client_ip req) (max_requests budget) (window_seconds budget)) = true
       /\ match auth w with
          | None => account = None
          | Some s => handler r ∈ public_handlers \/ exists a, account = Some a /\ signed_in s (account_oracle m) req a /\ may a r
          end).

Lemma trusted_host_loopback req : trusted_host req = true -> exists a, request_authority req = Some a /\ lower (trim_brackets (authority_host a)) ∈ LOOPBACK_HOSTS.
Proof.
  unfold trusted_host, request_host_port. destruct (request_authority req) as [a|]; cbn [fst]; intros Hh; [|discriminate Hh]. exists a. split; [done|]. by apply on_list_spec.
Qed.

Lemma account_gate_passed w m req w' account name r : r ∈ build_router -> route_matches r (method req) (req_path req) = true ->
  account_gate w m req = (w', Ok (account, name)) -> starts_with (T "/api/") (req_path req) = true ->
  local_request req
  /\ snd (allow_with_limits (limiter w) (clock m) (client_ip req) (max_requests budget) (window_seconds budget)) = true
  /\ match auth w with
     | None => account = None
     | Some s => handler r ∈ public_handlers \/ exists a, account = Some a /\ signed_in s (account_oracle m) req a /\ may a r
     end.
Proof.
  intros Hr Hm H Hp. unfold account_gate in H. rewrite Hp in H. cbn [negb] in H.
  destruct (_ ← enforce_same_origin req; enforce_direct_loopback req) as [[]|] eqn:El; [|done]. split; [by apply enforce_local|].
  unfold enforce_rate_limit in H. cbv zeta in H. destruct (allow_with_limits _ _ _ _ _) as [l ok]. cbn [snd]. destruct ok; [|done]. split; [done|].
  cbn [auth limiter] in H. destruct (auth w) as [s|]; [|by injection H as <- <- <-]. destruct (actor s (account_oracle m) req) as [s' res] eqn:Ea.
  injection H as <- H. destruct (is_public (req_path req)) eqn:Ep; cbn [negb] in H.
  - left. apply andb_true_iff in Hm as [_ Hm]. by eapply public_path.
  - right. apply bind_Ok_inv in H as (a & -> & H). apply bind_Ok_inv in H as ([] & Hperm & H). injection H as <- <-. exists a. split; [done|].
    split; [by eapply actor_signed_in|]. by eapply permitted_may.
Qed.

Lemma gate_passed (D : dispatch_law) w m req w' r account name : gate w m req = (w', ToHandler r account name) ->
  r ∈ build_router /\ route_matches r (method req) (req_path req) = true /\ passed w m req r account.
Proof.
  unfold gate. intros H. destruct (trusted_host req) eqn:Eh; cbn [negb] in H; [|done].
  destruct (account_gate w m req) as [w1 [[acc nm]|e]] eqn:Eg; [|done]. destruct (dispatch (method req) (req_path req)) as [r0|] eqn:Ed; [|done].
  destruct (D _ _ _ Ed) as [Hr Hm]. destruct (if csrf r0 then _ else _) as [[]|] eqn:Ec; [|done]. injection H as <- <- <- <-.
  split; [done|]. split; [done|]. split; [by apply trusted_host_loopback|]. split; [|split].
  - intros E. rewrite E in Ec. apply refuse_if_Ok, negb_false_iff, teqb_eq in Ec. done.
  - pose proof (table_check (fun r => teqb (verb r) (T "GET") || csrf r || teqb (handler r) (T "auth::login")) r0 ltac:(vm_compute; reflexivity) Hr) as Hc.
    cbn beta in Hc. apply orb_true_iff in Hc as [Hc|Hc]; [apply orb_true_iff in Hc as [Hc|Hc]; [left; by apply teqb_eq | by right; left]|].
    right; right. by apply teqb_eq.
  - intros Ha. eapply account_gate_passed; [done|done|exact Eg|]. apply andb_true_iff in Hm as [_ Hm]. by eapply api_path.
Qed.

(** C10. No handler of the console runs for the wrong request.  Whatever the
    request, a handler runs only if the request named a loopback host; every
    handler that is not a read, but for the login, needs the process's CSRF
    token; a handler under /api runs only for a direct connection from this
    machine, without a foreign origin, within the rate limit; and when
    accounts are enabled, only three public handlers run without a session.
    The others run for an account whose session cookie validates, and for it
    the table of roles holds, by handler: an account that must replace its
    password reaches its own three handlers, an auditor also the audit log, a
    portal auditor also chat, its sessions and the diagnostics, and only an
    administrator reaches accounts, keys, configuration and the web policy. *)
Theorem handlers_run_for_the_admitted w m req w' r account name : dispatch_law -> gate w m req = (w', ToHandler r account name) ->
  r ∈ build_router /\ passed w m req r account.
Proof. intros D H. by apply (gate_passed D) in H as (? & _ & ?). Qed.
End Gate.

(** ** A small console *)

Module SmallGate.
Import SmallUrl SmallCodec SmallAccounts.

#[export] Instance small_authority : AuthorityCrate := {
  Authority := text;
  authority_parse raw := Some raw;
  authority_host raw := match split_once [c_colon] raw with Some (h, _) => h | None => raw end;
  authority_port raw := match split_once [c_colon] raw with Some (_, p) => parse_uint u16_max p | None => None end;
}.
Definition budget : RateBudget := MkBudget 3 60000.
Definition csrf_token : text := T "pr0cess-t0ken".
Definition dispatch (m p : text) : option Route := List.find (fun r => route_matches r m p) build_router.
Lemma dispatch_holds : dispatch_law dispatch.
Proof. intros m p r H. apply find_some in H as [H1 H2]. split; [by apply list_elem_of_In|done]. Qed.

(** The server after the script of the small account store. *)
Definition world : World := MkWorld (Some (fst (small_run script start))) RateLimit.initial.
Definition moment_at (t : Z) : moment := MkMoment (at_ t true) t.
Definition get_users (cookie : text) : HttpRequest :=
  MkHttp (T "GET") (T "/api/auth/users") None [(T "host", Some (T "127.0.0.1:8790")); (T "cookie", Some cookie)] (Some (V4 (ipv4 127 0 0 1))) None.
Definition small_gate := gate lower (fun _ => []) hash_token second limits budget csrf_token dispatch.

Lemma handlers_run_for_the_admitted_witness : exists w' r account name,
  small_gate world (moment_at 800000) (get_users (T "a=b; cgagentharness_session=5e551")) = (w', ToHandler r account name)
  /\ handler r = T "auth::list_users"
  /\ passed lower (fun _ => []) hash_token second limits budget csrf_token world (moment_at 800000) (get_users (T "a=b; cgagentharness_session=5e551")) r account.
Proof.
  assert (H : match snd (small_gate world (moment_at 800000) (get_users (T "a=b; cgagentharness_session=5e551"))) with
              | ToHandler r _ _ => teqb (handler r) (T "auth::list_users") | _ => false end = true) by (vm_compute; reflexivity).
  destruct (small_gate world (moment_at 800000) (get_users (T "a=b; cgagentharness_session=5e551"))) as [w' v] eqn:E. cbn [snd] in H.
  destruct v as [|e| |r account name]; try discriminate H. exists w', r, account, name. split; [reflexivity|]. split; [by apply teqb_eq|].
  apply (handlers_run_for_the_admitted lower (fun _ => []) hash_token second limits budget csrf_token dispatch world (moment_at 800000)
    (get_users (T "a=b; cgagentharness_session=5e551")) w' r account name); [apply dispatch_holds | exact E].
Defined.
End SmallGate.
