(* ===== verification/AccountRoutes.v ===== *)
(** The account routes of the console, [server/routes/auth.rs], and the life of
    a request: it arrives at the gate, and its handler runs later, when other
    requests may have changed the accounts.

    A handler is a computation on the account store and on the stores of the
    other components that belong to accounts, which are the class
    [OwnerStores].  The body of a request and the parameters of its path are
    decoded by axum and serde. *)

From S2P Require Import Prelude Text Effects Owners NetScope PublicAddr Authn Accounts WebPolicy Routes RateLimit Gate.
Local Open Scope Z_scope.

(** What the handlers call on the stores of an account. *)
Class OwnerStores := {
  Stores : Type;
  forget_owner : text -> Stores -> Stores;
  cancel_owner : text -> Stores -> Stores * result ApiError unit;
  disable_owner : text -> Stores -> Stores * result ApiError unit;
  disable_machine_keys : text -> Stores -> Stores * result ApiError unit;
  unlink_attachments : text -> Stores -> Stores * result harness_error Z;
  drop_pins : text -> Stores -> Stores;
  unlink_notes : text -> Stores -> Stores;
  sweep_dead_owners : (text -> bool) -> Stores -> Stores * Z;
}.

(** ** Bodies *)

Record AuthLoginRequest := MkLoginRequest { lr_username : text; lr_password : text }.
Record AuthChangePasswordRequest := MkChangeRequest { current_password : text; new_password : text }.
Record AuthCreateUserRequest := MkCreateRequest { cr_username : text; cr_password : text; cr_role : option text }.

Definition len_ok (s : text) (min max : nat) : bool := (min <=? length s)%nat && (length s <=? max)%nat.
(** The bodies' [validate]: whether no field is named. *)
Definition login_ok (b : AuthLoginRequest) : bool := len_ok (lr_username b) 1 64 && len_ok (lr_password b) 1 1024.
Definition change_ok (b : AuthChangePasswordRequest) : bool := len_ok (current_password b) 1 1024 && len_ok (new_password b) 1 1024.
Definition create_ok (b : AuthCreateUserRequest) : bool := len_ok (cr_username b) 1 64 && len_ok (cr_password b) 1 1024.
Definition password_ok (p : text) : bool := len_ok p 1 1024.
Definition role_ok (r : text) : bool := len_ok r 1 32.

(** [ValidJson]: [None] is a body that is no such JSON. *)
Definition valid_json {A} (ok : A -> bool) (body : option A) : result ApiError A :=
  b ← ok_or body (api_error 422 "VALIDATION_ERROR");
  _ ← refuse_if (negb (ok b)) (api_error 422 "VALIDATION_ERROR");
  mret b.

(** A request for an account route, with what is decoded of it. *)
Inductive request_call :=
| CallSetupStatus | CallLogin (body : option AuthLoginRequest) | CallLogout | CallWhoami
| CallChangePassword (body : option AuthChangePasswordRequest)
| CallSetDisabled (username : text) (body : option bool) | CallListUsers | CallCreateUser (body : option AuthCreateUserRequest)
| CallSetPassword (username : text) (body : option text) | CallSetRole (username : text) (body : option text) | CallDeleteUser (username : text).
Definition handler_of (c : request_call) : text :=
  match c with
  | CallSetupStatus => T "auth::setup_status" | CallLogin _ => T "auth::login" | CallLogout => T "auth::logout" | CallWhoami => T "auth::whoami"
  | CallChangePassword _ => T "auth::change_password" | CallSetDisabled _ _ => T "auth::set_disabled" | CallListUsers => T "auth::list_users"
  | CallCreateUser _ => T "auth::create_user" | CallSetPassword _ _ => T "auth::set_password" | CallSetRole _ _ => T "auth::set_role"
  | CallDeleteUser _ => T "auth::delete_user"
  end.

(** The parts of a response that matter: the account data and the cookie. *)
Inductive response :=
| Status (setup_code : bool) | SignedIn (session_id : text) (user : option UserSummary) | SignedOut
| Identity (u : UserSummary) | Directory (us : list UserSummary) | Fine | Deleted (removed : option Z) (swept : Z).

Definition map_auth_error (e : harness_error) : ApiError :=
  let c := code e in
  if String.eqb c "PASSWORD_POLICY" then api_error 422 "AUTH_POLICY"
  else if String.eqb c "AUTH_USER_NOT_FOUND" then api_error 404 c
  else if String.eqb c "AUTH_LAST_ADMIN" then api_error 403 c
  else if String.eqb c "AUTH_USER_EXISTS" then api_error 409 c
  else if String.eqb c "AUTH_ACCOUNT_LOCKED" then api_error 423 c
  else if String.eqb c "AUTH_LOGIN_FAILED" then api_error 401 c
  else api_error 503 "AUTH_ERROR".

(** What a handler does outside of itself. *)
Inductive deed :=
| Performed (a : op) (o : oracle) | Forgot (owner : text) | Cancelled (owner : text) | Silenced (owner : text) | KeysDisabled (owner : text)
| Unlinked (owner : text) | Swept.

Section Handlers.
Context `{AC : AuthorityCrate} `{UC : UrlCrate} `{OS : OwnerStores}.
Context (lower : text -> text) (b64 : list Z -> text) (unb64 : text -> option (list Z))
  (derive : text -> list Z -> Z -> Z -> Z -> option (list Z)) (hash_token : text -> text) (second : Z) (limits : Limits).

Record Server := MkServer { console : World; stores : Stores }.
Notation handler_of_response A := (eff Server deed ApiError A).

Definition accounts (w : Server) : option Store := auth (console w).
Definition with_accounts (w : Server) (s : Store) : Server := MkServer (MkWorld (Some s) (limiter (console w))) (stores w).
Definition with_stores (w : Server) (x : Stores) : Server := MkServer (console w) x.

Definition auth_disabled : ApiError := api_error 503 "AUTH_DISABLED".
Definition denied : ApiError := api_error 403 "AUTH_PERMISSION_DENIED".

Definition manager : handler_of_response Store := s ← asks accounts; lift (ok_or s auth_disabled).
(** One step of the account store. *)
Definition perform (a : op) (o : oracle) : handler_of_response answer :=
  call (Performed a o) (fun w =>
    match accounts w with
    | Some s => let '(s, x) := step lower b64 unb64 derive hash_token second limits a o s in (with_accounts w s, Ok x)
    | None => (w, Err auth_disabled)
    end).
Definition done (x : answer) : result ApiError unit := match x with Done r => map_err map_auth_error r | _ => Err auth_disabled end.
Definition logged_in (x : answer) : result ApiError LoginResult := match x with LoggedIn r => map_err map_auth_error r | _ => Err auth_disabled end.

Definition on_stores {A} (d : deed) (f : Stores -> Stores * A) : handler_of_response A :=
  call d (fun w => let '(x, a) := f (stores w) in (with_stores w x, Ok a)).
Definition forget (owner : text) : handler_of_response unit := on_stores (Forgot owner) (fun x => (forget_owner owner x, tt)).

(** The user behind a name in the directory. *)
Definition lookup_user (username : text) : handler_of_response (option UserSummary) :=
  s ← manager; mret (get_user lower s username).

(** [actor] in a handler: the gate has marked the request. *)
Definition acting (account : option UserSummary) (o : oracle) (req : HttpRequest) : handler_of_response UserSummary :=
  match account with
  | Some a => mret a
  | None =>
      _ ← manager;
      x ← perform (ValidateSession (default [] (cookie_value req))) o;
      match x with
      | Validated (Some info) => u ← lookup_user (i_username info); lift (ok_or u unauthorized)
      | _ => fail unauthorized
      end
  end.
Definition require_user_admin (a : UserSummary) : result ApiError unit :=
  refuse_if (negb (teqb (us_role a) (T "admin")) || us_must_change a) denied.

(** ** Retirement of an owner *)

Definition revoke_owner_automation (owner : text) : handler_of_response unit :=
  r ← on_stores (Cancelled owner) (cancel_owner owner);
  _ ← lift r;
  r ← on_stores (Silenced owner) (disable_owner owner);
  lift r.
Definition retire_disabled_owner (owner : text) : handler_of_response unit :=
  automation ← catch (revoke_owner_automation owner);
  keys ← on_stores (KeysDisabled owner) (disable_machine_keys owner);
  _ ← lift automation;
  lift keys.

(** ** The handlers *)

(** [AuthManager::setup_code_active] *)
Definition setup_code_active (s : Store) : bool :=
  match users (memory s) !! BOOTSTRAP_USERNAME with Some u => negb (disabled u) && must_change_password u | None => false end
  && bool_decide (is_Some (setup_file s)).
Definition setup_status : handler_of_response response := s ← manager; mret (Status (setup_code_active s)).

Definition login_route (o : oracle) (body : option AuthLoginRequest) : handler_of_response response :=
  b ← lift (valid_json login_ok body);
  _ ← manager;
  x ← perform (Login (lr_username b) (lr_password b)) o;
  r ← lift (logged_in x);
  user ← lookup_user (l_username r);
  mret (SignedIn (session_id r) user).

Definition logout_route (o : oracle) (req : HttpRequest) (account : option UserSummary) : handler_of_response response :=
  _ ← manager;
  a ← catch (acting account o req);
  _ ← match a with Ok a => forget (us_user_id a) | Err _ => mret tt end;
  match cookie_value req with
  | Some token =>
      x ← perform (Logout token) o;
      _ ← lift (match x with LoggedOut r => map_err map_auth_error r | _ => Err auth_disabled end);
      mret SignedOut
  | None => mret SignedOut
  end.

Definition whoami (o : oracle) (req : HttpRequest) (account : option UserSummary) : handler_of_response response :=
  a ← acting account o req; mret (Identity a).

Definition change_password_route (o : oracle) (req : HttpRequest) (account : option UserSummary) (body : option AuthChangePasswordRequest) : handler_of_response response :=
  a ← acting account o req;
  b ← lift (valid_json change_ok body);
  _ ← manager;
  x ← perform (ChangePassword (us_username a) (current_password b) (new_password b)) o;
  r ← lift (logged_in x);
  mret (SignedIn (session_id r) None).

Definition set_disabled_route (o : oracle) (req : HttpRequest) (account : option UserSummary) (username : text) (body : option bool) : handler_of_response response :=
  a ← acting account o req;
  _ ← lift (require_user_admin a);
  d ← lift (valid_json (fun _ => true) body);
  owner ← lookup_user username;
  _ ← match owner with Some u => forget (us_user_id u) | None => mret tt end;
  x ← perform (SetDisabled username d) o;
  _ ← lift (done x);
  match d, owner with
  | true, Some u => _ ← retire_disabled_owner (us_user_id u); mret Fine
  | _, _ => mret Fine
  end.

Definition list_users_route (o : oracle) (req : HttpRequest) (account : option UserSummary) : handler_of_response response :=
  a ← acting account o req;
  _ ← lift (require_user_admin a);
  s ← manager;
  mret (Directory (omap (fun n => summary n <$> users (memory s) !! n) (sorted_keys (users (memory s))))).

Definition create_user_route (o : oracle) (req : HttpRequest) (account : option UserSummary) (body : option AuthCreateUserRequest) : handler_of_response response :=
  a ← acting account o req;
  _ ← lift (require_user_admin a);
  b ← lift (valid_json create_ok body);
  role ← lift (map_err map_auth_error (validate_role lower (default (T "operator") (cr_role b))));
  _ ← lift (refuse_if (teqb (us_role a) (T "operator") && teqb role (T "admin")) denied);
  _ ← manager;
  x ← perform (CreateUser (cr_username b) (cr_password b) role) o;
  created ← lift (match x with Created r => map_err map_auth_error r | _ => Err auth_disabled end);
  u ← lookup_user created;
  u ← lift (ok_or u (api_error 503 "AUTH_ERROR"));
  mret (Identity u).

Definition set_password_route (o : oracle) (req : HttpRequest) (account : option UserSummary) (username : text) (body : option text) : handler_of_response response :=
  a ← acting account o req;
  target ← lookup_user username;
  target ← lift (ok_or target (api_error 404 "AUTH_USER_NOT_FOUND"));
  _ ← lift (refuse_if (teqb (us_role a) (T "operator") && teqb (us_role target) (T "admin")) denied);
  _ ← lift (require_user_admin a);
  p ← lift (valid_json password_ok body);
  x ← perform (SetPassword username p) o;
  _ ← lift (done x);
  mret Fine.

Definition set_role_route (o : oracle) (req : HttpRequest) (account : option UserSummary) (username : text) (body : option text) : handler_of_response response :=
  a ← acting account o req;
  _ ← lift (require_user_admin a);
  r ← lift (valid_json role_ok body);
  user ← lookup_user username;
  _ ← match user with Some u => forget (us_user_id u) | None => mret tt end;
  x ← perform (SetRole username r) o;
  _ ← lift (done x);
  mret Fine.

Definition delete_user_route (o : oracle) (req : HttpRequest) (account : option UserSummary) (username : text) : handler_of_response response :=
  a ← acting account o req;
  _ ← lift (require_user_admin a);
  owner ← lookup_user username;
  _ ← match owner with Some u => forget (us_user_id u) | None => mret tt end;
  x ← perform (DeleteUser username) o;
  _ ← lift (done x);
  removed ← match owner with
            | Some u =>
                r ← on_stores (Unlinked (us_user_id u)) (unlink_attachments (us_user_id u));
                mret (match r with Ok n => Some n | Err _ => None end)
            | None => mret (Some 0)
            end;
  _ ← match owner with
      | Some u => update (fun w => with_stores w (unlink_notes (us_user_id u) (drop_pins (us_user_id u) (stores w))))
      | None => mret tt
      end;
  s ← manager;
  let live id := teqb id (T "local") || existsb (fun '(_, u) => teqb (user_id u) id) (map_to_list (users (memory s))) in
  swept ← on_stores Swept (sweep_dead_owners live);
  match owner with
  | Some u => _ ← retire_disabled_owner (us_user_id u); mret (Deleted removed swept)
  | None => mret (Deleted removed swept)
  end.

Definition handle (o : oracle) (req : HttpRequest) (account : option UserSummary) (c : request_call) : handler_of_response response :=
  match c with
  | CallSetupStatus => setup_status
  | CallLogin body => login_route o body
  | CallLogout => logout_route o req account
  | CallWhoami => whoami o req account
  | CallChangePassword body => change_password_route o req account body
  | CallSetDisabled username body => set_disabled_route o req account username body
  | CallListUsers => list_users_route o req account
  | CallCreateUser body => create_user_route o req account body
  | CallSetPassword username body => set_password_route o req account username body
  | CallSetRole username body => set_role_route o req account username body
  | CallDeleteUser username => delete_user_route o req account username
  end.
End Handlers.

(** ** The life of requests *)

(** The account steps of a trace. *)
Definition performed (l : list (effect deed)) : list (op * oracle) := omap (fun e => match e with Did (Performed a o) => Some (a, o) | _ => None end) l.

Section System.
Context `{AC : AuthorityCrate} `{UC : UrlCrate} `{OS : OwnerStores}.
Context (lower : text -> text) (b64 : list Z -> text) (unb64 : text -> option (list Z))
  (derive : text -> list Z -> Z -> Z -> Z -> option (list Z)) (hash_token : text -> text) (second : Z) (limits : Limits).
Context (show_v6 : list Z -> text) (budget : RateBudget) (csrf_token : text) (dispatch : text -> text -> option Route).
(** The account route of a request, with its decoded parts; [None] for the
    handlers elsewhere, which work on the other stores. *)
Context (decode : HttpRequest -> Route -> option request_call)
  (elsewhere : Route -> HttpRequest -> option UserSummary -> Stores -> Stores).

Record Pending := MkPending { p_route : Route; p_account : option UserSummary; p_request : HttpRequest }.
(** [history]: the steps of the account store, with the request that a handler
    made them for; the gate's own lookups have none. *)
Record System := MkSystem { server : Server; pending : list Pending; history : list (op * oracle * option Pending) }.

Inductive happening := Arrive (m : moment) (req : HttpRequest) | Proceed (i : nat) (o : oracle).

(** The gate looks a session up when the request gets that far. *)
Definition gate_steps (w : World) (m : moment) (req : HttpRequest) : list (op * oracle) :=
  if trusted_host lower req && starts_with (T "/api/") (req_path req)
     && is_ok (_ ← enforce_same_origin lower req; enforce_direct_loopback req)
     && snd (allow_with_limits (limiter w) (clock m) (client_ip show_v6 req) (max_requests budget) (window_seconds budget))
     && bool_decide (is_Some (auth w))
  then [(ValidateSession (default [] (cookie_value req)), account_oracle m)] else [].

Definition happen (st : System) (h : happening) : System :=
  match h with
  | Arrive m req =>
      let w := console (server st) in
      let '(w', v) := gate lower show_v6 hash_token second limits budget csrf_token dispatch w m req in
      MkSystem (MkServer w' (stores (server st)))
        (pending st ++ match v with ToHandler r account _ => [MkPending r account req] | _ => [] end)
        (history st ++ map (fun x => (x, None)) (gate_steps w m req))
  | Proceed i o =>
      match pending st !! i with
      | None => st
      | Some p =>
          let rest := take i (pending st) ++ drop (S i) (pending st) in
          match decode (p_request p) (p_route p) with
          | Some c =>
              let '(s, _) := handle lower b64 unb64 derive hash_token second limits o (p_request p) (p_account p) c (St (server st) []) in
              MkSystem (world s) rest (history st ++ map (fun x => (x, Some p)) (performed (trace s)))
          | None => MkSystem (with_stores (server st) (elsewhere (p_route p) (p_request p) (p_account p) (stores (server st)))) rest (history st)
          end
      end
  end.
Definition happens (l : list happening) (st : System) : System := foldl happen st l.

(** ** Handlers and the account store *)

Let run := Accounts.run lower b64 unb64 derive hash_token second limits.
Let handle := handle lower b64 unb64 derive hash_token second limits.
Let perform := perform (OS := OS) lower b64 unb64 derive hash_token second limits.

(** The worlds of a computation follow its account steps. *)
Definition follows (l : list (effect deed)) (w w' : Server) : Prop :=
  match accounts w with Some s => accounts w' = Some (fst (run (performed l) s)) | None => True end.

Lemma account_run_app l1 l2 s : run (l1 ++ l2) s = (fst (run l2 (fst (run l1 s))), snd (run l1 s) ++ snd (run l2 (fst (run l1 s)))).
Proof.
  unfold run. revert s. induction l1 as [|[a o] l1 IH]; intros s; [cbn; by destruct (Accounts.run _ _ _ _ _ _ _ l2 s)|].
  cbn [app Accounts.run]. destruct (step _ _ _ _ _ _ _ a o s) as [s1 x]. rewrite IH. destruct (Accounts.run _ _ _ _ _ _ _ l1 s1) as [s2 es2] eqn:E. cbn [fst snd].
  by rewrite app_assoc.
Qed.
Lemma performed_app l1 l2 : performed (l1 ++ l2) = performed l1 ++ performed l2.
Proof. apply omap_app. Qed.

#[local] Instance follows_composes : Composes follows.
Proof.
  split.
  - intros l w Hq. unfold follows. destruct (accounts w) as [s|]; [|done]. assert (performed l = []) as ->; [|done].
    induction Hq as [|e l He _ IH]; [done|]. by destruct e.
  - intros l1 l2 w1 w2 w3 H1 H2. unfold follows in *. destruct (accounts w1) as [s|]; [|done]. rewrite H1 in H2. by rewrite performed_app, account_run_app.
Qed.
Notation tracked := (Effects.tracks follows).

Lemma perform_tracks a o : tracked (perform a o).
Proof.
  apply tracks_call. intros w. unfold follows. destruct (accounts w) as [s|] eqn:E; [|done]. unfold performed, run. cbn [omap list_omap Accounts.run].
  by destruct (step _ _ _ _ _ _ _ a o s) as [s1 x].
Qed.
Lemma on_stores_tracks {A} d (f : Stores -> Stores * A) : (forall a o, d <> Performed a o) -> tracked (on_stores d f).
Proof.
  intros Hd. apply tracks_call. intros w. destruct (f (stores w)) as [x a]. unfold follows, accounts. cbn. destruct (auth (console w)) as [s|]; [|done].
  unfold performed. destruct d; try done. by destruct (Hd a0 o).
Qed.
Lemma quiet_manager : quiet (manager (OS := OS)).
Proof. unfold manager. quiet. Qed.
Lemma quiet_lookup u : quiet (lookup_user (OS := OS) lower u).
Proof. unfold lookup_user. apply quiet_bind; [apply quiet_manager|]. intros s. quiet. Qed.
Lemma tracked_update_stores (f : Stores -> Stores) : tracked (update (fun w => with_stores w (f (stores w))) : eff Server deed ApiError unit).
Proof. apply (tracks_silent _ _ (fun w => with_stores w (f (stores w)))); [done|]. intros w. unfold follows, accounts. cbn. by destruct (auth (console w)). Qed.

Ltac track_step :=
  match goal with
  | |- tracked (_ ≫= _) => apply tracks_bind; [apply follows_composes| |intro]
  | |- tracked (catch _) => apply tracks_catch
  | |- tracked (AccountRoutes.perform _ _ _ _ _ _ _ _ _) => apply perform_tracks
  | |- tracked (on_stores _ _) => apply on_stores_tracks; done
  | |- tracked (update (fun w => with_stores w (@?f w))) => apply (tracked_update_stores (fun x => unlink_notes _ (drop_pins _ x)))
  | |- tracked (lookup_user _ _) => apply (tracks_quiet _), quiet_lookup
  | |- tracked manager => apply (tracks_quiet _), quiet_manager
  | |- tracked (match ?x with _ => _ end) => destruct x
  | |- tracked _ => apply (tracks_quiet _); solve [auto with harness]
  end.

Lemma acting_tracks a o req : tracked (acting (OS := OS) lower b64 unb64 derive hash_token second limits a o req).
Proof. unfold acting. repeat track_step. Qed.
Lemma retire_tracks owner : tracked (retire_disabled_owner (OS := OS) owner).
Proof. unfold retire_disabled_owner, revoke_owner_automation. repeat track_step. Qed.
Lemma handle_tracks o req a c : tracked (handle o req a c).
Proof.
  unfold handle. destruct c; cbn [AccountRoutes.handle];
    unfold setup_status, login_route, logout_route, whoami, change_password_route, set_disabled_route, list_users_route, create_user_route, set_password_route, set_role_route, delete_user_route, forget;
    cbv zeta; repeat first [apply acting_tracks | apply retire_tracks | track_step].
Qed.

(** ** What a handler may ask of the account store *)

(** [history] records it with the request. *)
Definition allowed (account : option UserSummary) (hd : text) (a : op) : Prop :=
  match a with
  | CreateUser _ _ _ | SetRole _ _ | DeleteUser _ | SetDisabled _ _ | SetPassword _ _ => hd ∈ admin_handlers
  | ChangePassword n _ _ => hd = T "auth::change_password" /\ exists u, account = Some u /\ us_username u = n
  | Reopen => False
  | _ => True
  end.
Definition allowed_deed (account : option UserSummary) (hd : text) (e : effect deed) : Prop :=
  match e with Did (Performed a _) => allowed account hd a | _ => True end.
Notation obeys account hd := (emits (allowed_deed account hd)).

Lemma perform_obeys account hd a o : allowed account hd a -> obeys account hd (perform a o).
Proof. intros H. by apply emits_call. Qed.
Lemma on_stores_obeys {A} account hd d (f : Stores -> Stores * A) : (forall a o, d <> Performed a o) -> obeys account hd (on_stores d f).
Proof. intros H. apply emits_call. destruct d; try done. by destruct (H a o). Qed.

Lemma emits_ret_bind {W F E A B} P (a : A) (f : A -> eff W F E B) : emits P (f a) -> emits P ((mret a : eff W F E A) ≫= f).
Proof. intros H s. exact (H s). Qed.

Ltac obey_step :=
  match goal with
  | |- emits _ (mret _ ≫= _) => apply emits_ret_bind
  | |- emits _ (_ ≫= _) => apply emits_bind; [|intro]
  | |- emits _ (catch _) => apply emits_catch
  | |- emits _ (AccountRoutes.perform _ _ _ _ _ _ _ _ _) => apply perform_obeys
  | |- emits _ (on_stores _ _) => apply on_stores_obeys; done
  | |- emits _ (update _) => apply emits_update
  | |- emits _ (lookup_user _ _) => apply emits_quiet, quiet_lookup; done
  | |- emits _ manager => apply emits_quiet, quiet_manager; done
  | |- emits _ (match ?x with _ => _ end) => destruct x
  | |- emits _ _ => apply emits_quiet; [done | solve [auto with harness]]
  end.

Lemma retire_obeys account hd owner : obeys account hd (retire_disabled_owner (OS := OS) owner).
Proof. unfold retire_disabled_owner, revoke_owner_automation. repeat obey_step. Qed.
Lemma admin_handler hd : on_list admin_handlers hd = true -> hd ∈ admin_handlers.
Proof. apply on_list_spec. Qed.

Lemma handle_obeys o req account c : is_Some account \/ handler_of c ∈ public_handlers -> obeys account (handler_of c) (handle o req account c).
Proof.
  intros Ha. destruct account as [u|].
  - unfold handle. destruct c; cbn [AccountRoutes.handle];
      unfold setup_status, login_route, logout_route, whoami, change_password_route, set_disabled_route, list_users_route, create_user_route, set_password_route, set_role_route, delete_user_route, forget, acting;
      cbv zeta; repeat first [apply retire_obeys | obey_step]; try done; try (apply admin_handler; vm_compute; reflexivity).
    split; [done|]. by exists u.
  - destruct Ha as [[? [=]]|Ha]. apply on_list_spec in Ha. destruct c; try discriminate Ha; unfold handle; cbn [AccountRoutes.handle]; unfold setup_status, login_route;
      repeat obey_step; done.
Qed.

(** ** Authority *)

Context (s0 : Store).

(** The history [h] shows that the account signed in with its password. *)
Definition traced (h : list (op * oracle)) (account : UserSummary) : Prop :=
  exists u l1 b ob l2, h = l1 ++ (b, ob) :: l2 /\ us_username account = canonical lower u
    /\ gives_password lower unb64 derive u b ob (fst (run l1 s0)).

Definition vouched (h : list (op * oracle)) (p : Pending) : Prop :=
  p_route p ∈ build_router
  /\ (starts_with (T "/api/") (template (p_route p)) = true ->
       handler (p_route p) ∈ public_handlers \/ exists a, p_account p = Some a /\ may a (p_route p) /\ traced h a).

Definition changes_accounts (a : op) : bool :=
  match a with CreateUser _ _ _ | SetRole _ _ | DeleteUser _ | SetDisabled _ _ | SetPassword _ _ => true | _ => false end.

(** A step of the store is the gate's lookup, or a handler's for a request: an
    administrator's, when it changes accounts; the account's own, when it
    changes a password. *)
Definition authorized (h : list (op * oracle)) (e : op * oracle * option Pending) : Prop :=
  let '(a, _, cause) := e in
  match cause with
  | None => exists id, a = ValidateSession id
  | Some p =>
      a <> Reopen
      /\ (changes_accounts a = true -> exists account, p_account p = Some account /\ us_role account = T "admin" /\ us_must_change account = false /\ traced h account)
      /\ (forall n c new, a = ChangePassword n c new -> exists account, p_account p = Some account /\ us_username account = n /\ traced h account)
  end.

Record sound (st : System) : Prop := {
  so_store : accounts (server st) = Some (fst (run (map fst (history st)) s0));
  so_pending : Forall (vouched (map fst (history st))) (pending st);
  so_history : forall i e, history st !! i = Some e -> authorized (map fst (take i (history st))) e;
}.

Lemma traced_more h h' a : traced h a -> traced (h ++ h') a.
Proof. intros (u & l1 & b & ob & l2 & -> & H). exists u, l1, b, ob, (l2 ++ h'). by rewrite <- app_assoc. Qed.
Lemma vouched_more h h' p : vouched h p -> vouched (h ++ h') p.
Proof.
  intros [H1 H2]. split; [done|]. intros Ha. destruct (H2 Ha) as [H|(a & Hp & Hm & Ht)]; [by left|right]. exists a. split; [done|]. split; [done|]. by apply traced_more.
Qed.
Lemma authorized_more h h' e : authorized h e -> authorized (h ++ h') e.
Proof.
  destruct e as [[a o] [p|]]; [|done]. intros (H1 & H2 & H3). split; [done|]. split.
  - intros Hc. destruct (H2 Hc) as (x & ? & ? & ? & ?). exists x. repeat split; try done. by apply traced_more.
  - intros n c new E. destruct (H3 n c new E) as (x & ? & ? & ?). exists x. repeat split; try done. by apply traced_more.
Qed.

(** New entries of the history, authorised by what was there before. *)
Lemma history_grows (hist new : list (op * oracle * option Pending)) :
  (forall i e, hist !! i = Some e -> authorized (map fst (take i hist)) e) -> Forall (authorized (map fst hist)) new ->
  forall i e, (hist ++ new) !! i = Some e -> authorized (map fst (take i (hist ++ new))) e.
Proof.
  intros H Hnew i e Hi. apply lookup_app_Some in Hi as [Hi|[Hle Hi]].
  - rewrite take_app_le by (apply lookup_lt_Some in Hi; lia). by apply H.
  - rewrite take_app_ge by done. rewrite map_app. apply authorized_more. rewrite Forall_forall in Hnew. by eapply Hnew, list_elem_of_lookup_2.
Qed.

(** ** The gate *)

Lemma gate_store w m req s : auth w = Some s ->
  auth (fst (gate lower show_v6 hash_token second limits budget csrf_token dispatch w m req)) = Some (fst (run (gate_steps w m req) s)).
Proof.
  intros Hs. transitivity (auth (if trusted_host lower req then fst (account_gate lower show_v6 hash_token second limits budget w m req) else w)).
  - unfold gate. destruct (trusted_host lower req); cbn [negb]; [|done]. destruct (account_gate _ _ _ _ _ _ _ _ _) as [w1 [[acc nm]|e]]; cbn [fst]; [|done].
    destruct (dispatch _ _) as [r|]; [|done]. by destruct (if csrf r then _ else _).
  - unfold gate_steps. destruct (trusted_host lower req); cbn [andb]; [|by rewrite Hs]. unfold account_gate.
    destruct (starts_with (T "/api/") (req_path req)); cbn [negb andb fst]; [|by rewrite Hs].
    destruct (_ ← enforce_same_origin lower req; enforce_direct_loopback req) as [[]|e]; cbn [is_ok andb fst]; [|by rewrite Hs].
    unfold enforce_rate_limit. cbv zeta. destruct (allow_with_limits _ _ _ _ _) as [l ok]. cbn [snd auth]. destruct ok; cbn [andb auth fst]; [|by rewrite Hs].
    rewrite Hs, bool_decide_true by done. unfold run, actor. cbn [Accounts.run step]. destruct (validate_session _ _ _ _ _ _) as [s1 info]. done.
Qed.

Lemma gate_vouches (D : dispatch_law dispatch) h s w m req w' r account name :
  memory s0 = disk s0 -> sessions (memory s0) = ∅ -> auth w = Some s -> s = fst (run h s0) ->
  gate lower show_v6 hash_token second limits budget csrf_token dispatch w m req = (w', ToHandler r account name) -> vouched h (MkPending r account req).
Proof.
  intros Hm H0 Hs Hh H. apply (gate_passed _ _ _ _ _ _ _ _ D) in H as (Hr & _ & _ & _ & _ & H). split; [done|]. cbn [p_route p_account]. intros Ha.
  destruct (H Ha) as (_ & _ & Hacc). rewrite Hs in Hacc. destruct Hacc as [Hp|(a & -> & (info & Hv & Hu) & Hmay)]; [by left|right].
  exists a. split; [done|]. split; [done|].
  destruct (validate_session hash_token second limits (account_oracle m) s (default [] (cookie_value req))) as [s2 i] eqn:Ev. cbn [fst snd] in Hv, Hu. subst i s.
  destruct (session_origin lower b64 unb64 derive hash_token second limits h s0 (fst (run h s0)) (snd (run h s0)) _ _ _ _ Hm H0 (surjective_pairing _) Ev)
    as (u & row & t & es1 & es2 & l1 & b & ob & l2 & seen & -> & _ & _ & _ & _ & _ & Hl & _ & Hg & _).
  exists u, l1, b, ob, l2. split; [done|]. split; [|done]. unfold get_user in Hu. cbn [i_username] in Hu. destruct (users _ !! _); [|done]. by injection Hu as <-.
Qed.

(** ** The handlers *)

Lemma account_route_api r : r ∈ build_router -> handler r ∈ map T ["auth::setup_status"; "auth::login"; "auth::logout"; "auth::whoami"; "auth::change_password";
    "auth::set_disabled"; "auth::list_users"; "auth::create_user"; "auth::set_password"; "auth::set_role"; "auth::delete_user"]%string ->
  starts_with (T "/api/") (template r) = true.
Proof.
  intros Hr Hh. set (names := map T _) in Hh.
  pose proof (table_check (fun r => negb (on_list names (handler r)) || starts_with (T "/api/") (template r)) r ltac:(vm_compute; reflexivity) Hr) as Hc.
  cbn beta in Hc. by rewrite (proj2 (on_list_spec _ _) Hh) in Hc.
Qed.
Lemma handler_of_listed c : handler_of c ∈ map T ["auth::setup_status"; "auth::login"; "auth::logout"; "auth::whoami"; "auth::change_password";
    "auth::set_disabled"; "auth::list_users"; "auth::create_user"; "auth::set_password"; "auth::set_role"; "auth::delete_user"]%string.
Proof. apply on_list_spec. by destruct c; vm_compute. Qed.

Definition decode_law : Prop := forall req r c, decode req r = Some c -> handler_of c = handler r.

Lemma public_not_admin hd : hd ∈ public_handlers -> hd ∈ admin_handlers -> False.
Proof.
  intros Hp Ha. assert (H : forallb (fun x => negb (on_list admin_handlers x)) public_handlers = true) by (vm_compute; reflexivity).
  rewrite forallb_forall in H. apply list_elem_of_In, H in Hp. rewrite (proj2 (on_list_spec _ _) Ha) in Hp. discriminate Hp.
Qed.
Lemma own_not_admin hd : hd ∈ own_handlers -> hd ∈ admin_handlers -> False.
Proof.
  intros Hp Ha. assert (H : forallb (fun x => negb (on_list admin_handlers x)) own_handlers = true) by (vm_compute; reflexivity).
  rewrite forallb_forall in H. apply list_elem_of_In, H in Hp. rewrite (proj2 (on_list_spec _ _) Ha) in Hp. discriminate Hp.
Qed.

(** What a handler asks for a vouched request is authorised. *)
Lemma allowed_authorized h p c a o : vouched h p -> handler_of c = handler (p_route p) -> allowed (p_account p) (handler_of c) a -> authorized h (a, o, Some p).
Proof.
  intros [Hr Hv] Hc Ha. assert (Hapi : starts_with (T "/api/") (template (p_route p)) = true) by (apply account_route_api; [done|rewrite <- Hc; apply handler_of_listed]).
  specialize (Hv Hapi). split; [|split].
  - intros ->. done.
  - intros Hch. assert (Hadm : handler (p_route p) ∈ admin_handlers) by (rewrite <- Hc; by destruct a).
    destruct Hv as [Hp|(acc & Hp & Hm & Ht)]; [by destruct (public_not_admin _ Hp Hadm)|]. exists acc. split; [done|].
    split; [|split; [|done]].
    + destruct (decide (us_role acc = T "admin")) as [E|E]; [done|]. by destruct (may_admin _ _ Hm E).
    + destruct (us_must_change acc) eqn:E; [|done]. by destruct (own_not_admin _ (may_restricted _ _ Hm E) Hadm).
  - intros n old new ->. destruct Ha as [E (u & Hu & Hn)]. exists u. split; [done|]. split; [done|].
    destruct Hv as [Hp|(acc & Hp & Hm & Ht)]; [|congruence]. rewrite <- Hc, E in Hp. apply on_list_spec in Hp. discriminate Hp.
Qed.

Lemma performed_allowed account hd l : Forall (allowed_deed account hd) l -> Forall (fun x => allowed account hd (fst x)) (performed l).
Proof. induction 1 as [|e l He _ IH]; [constructor|]. unfold performed in *. cbn [omap list_omap]. destruct e as [e|[a o|own|own|own|own|own|]]; try done. by constructor. Qed.

Lemma map_fst_cause {B} (l : list (op * oracle)) (c : B) : map fst (map (fun x => (x, c)) l) = l.
Proof. rewrite map_map. cbn. apply map_id. Qed.

Section Sound.
Context (D : dispatch_law dispatch) (Dec : decode_law) (Hm0 : memory s0 = disk s0) (Hno : sessions (memory s0) = ∅).

Lemma arrive_sound m req st : sound st -> sound (happen st (Arrive m req)).
Proof.
  intros [Hs Hp Hh]. cbn [happen]. destruct (gate _ _ _ _ _ _ _ _ _ m req) as [w' v] eqn:E. unfold accounts in Hs.
  pose proof (gate_store _ m req _ Hs) as Hg. rewrite E in Hg. cbn [fst] in Hg. constructor; cbn [server pending history].
  - unfold accounts. cbn [console]. by rewrite map_app, map_fst_cause, account_run_app, Hg.
  - rewrite map_app. apply Forall_app. split; [eapply Forall_impl; [exact Hp|]; intros p; apply vouched_more|].
    destruct v as [|e| |r a nm]; try constructor; [|constructor]. apply vouched_more. eapply gate_vouches; [exact D|done|done|exact Hs|done|exact E].
  - apply history_grows; [done|]. unfold gate_steps. destruct (_ && _); [|constructor]. repeat constructor. by eexists.
Qed.
Lemma proceed_sound i o st : sound st -> sound (happen st (Proceed i o)).
Proof.
  intros [Hs Hp Hh]. cbn [happen]. destruct (pending st !! i) as [p|] eqn:Ei; [|done].
  assert (Hvp : vouched (map fst (history st)) p) by (rewrite Forall_forall in Hp; by eapply Hp, list_elem_of_lookup_2).
  assert (Hrest : Forall (vouched (map fst (history st))) (take i (pending st) ++ drop (S i) (pending st)))
    by (apply Forall_app; split; [by apply Forall_take | by apply Forall_drop]).
  destruct (decode (p_request p) (p_route p)) as [c|] eqn:Ec; [|by constructor].
  pose proof (Dec _ _ _ Ec) as Hc.
  assert (Hacc : is_Some (p_account p) \/ handler_of c ∈ public_handlers).
  { destruct Hvp as [Hr Hv]. assert (Hapi : starts_with (T "/api/") (template (p_route p)) = true) by (apply account_route_api; [done|rewrite <- Hc; apply handler_of_listed]).
    destruct (Hv Hapi) as [H|(a & -> & _)]; [right; by rewrite Hc | by left]. }
  destruct (AccountRoutes.handle _ _ _ _ _ _ _ o (p_request p) (p_account p) c (St (server st) [])) as [s' res] eqn:E.
  destruct (tracks_result _ _ _ _ _ (handle_tracks o (p_request p) (p_account p) c) E) as (l & Hl & Hf).
  destruct (emits_result _ _ _ _ _ (handle_obeys o (p_request p) (p_account p) c Hacc) E) as (l' & Hl' & Hob).
  cbn [trace world app] in *. assert (l' = trace s') as -> by done. rewrite <- Hl in Hf. constructor; cbn [server pending history].
  - unfold follows in Hf. rewrite Hs in Hf. by rewrite map_app, map_fst_cause, account_run_app, Hf.
  - rewrite map_app. eapply Forall_impl; [exact Hrest|]. intros q. apply vouched_more.
  - apply history_grows; [done|]. apply Forall_map. eapply Forall_impl; [exact (performed_allowed _ _ _ Hob)|]. intros [a ao] Ha. cbn [fst] in Ha.
    by eapply allowed_authorized.
Qed.
Lemma happens_sound l st : sound st -> sound (happens l st).
Proof.
  unfold happens. revert st. induction l as [|h l IH]; intros st H; [done|]. cbn [foldl]. apply IH. destruct h; [by apply arrive_sound | by apply proceed_sound].
Qed.
End Sound.

(** C9. Every change to the accounts has an administrator's password behind
    it.  Take any sequence of requests that arrive at the console, in any order
    with their handlers, from a store without sessions.  Whenever the store
    creates, deletes or disables an account or sets its role or password, a
    handler does so for a request of an account that was an administrator who
    need not replace the password; and earlier in the history a login, or a
    change of password, gave the password of that account, which was enabled.
    A change of one's own password is the account's itself, and no handler
    opens the store again. *)
Theorem account_changes_authorized w others l st i a o cause :
  dispatch_law dispatch -> decode_law -> memory s0 = disk s0 -> sessions (memory s0) = ∅ -> auth w = Some s0 ->
  happens l (MkSystem (MkServer w others) [] []) = st -> history st !! i = Some (a, o, cause) ->
  accounts (server st) = Some (fst (run (map fst (history st)) s0)) /\ authorized (map fst (take i (history st))) (a, o, cause).
Proof.
  intros D Dec Hm Hno Hw <- Hi.
  assert (Hs : sound (happens l (MkSystem (MkServer w others) [] []))) by (apply (happens_sound D Dec Hm Hno); constructor; [exact Hw | constructor | intros ? ? H; discriminate H]).
  destruct Hs as [H1 _ H3]. split; [done|]. by apply H3.
Qed.
End System.

(** ** A small history *)

Module SmallRoutes.
Import SmallUrl SmallCodec SmallAccounts SmallGate.

#[export] Instance small_stores : OwnerStores := {
  Stores := list text;
  forget_owner o x := o :: x;
  cancel_owner o x := (o :: x, Ok tt);
  disable_owner o x := (o :: x, Ok tt);
  disable_machine_keys o x := (o :: x, Ok tt);
  unlink_attachments o x := (o :: x, Ok 1);
  drop_pins o x := x;
  unlink_notes o x := x;
  sweep_dead_owners f x := (x, 0);
}.
Definition decode (req : HttpRequest) (r : Route) : option request_call :=
  if teqb (handler r) (T "auth::login") then Some (CallLogin (Some (MkLoginRequest (T "admin") password)))
  else if teqb (handler r) (T "auth::create_user") then Some (CallCreateUser (Some (MkCreateRequest (T "bob") (T "a password of bob") None)))
  else None.
Lemma decode_holds : decode_law decode.
Proof.
  intros req r c. unfold decode. destruct (teqb (handler r) (T "auth::login")) eqn:E1; [intros [= <-]; symmetry; by apply teqb_eq|].
  destruct (teqb (handler r) (T "auth::create_user")) eqn:E2; [intros [= <-]; symmetry; by apply teqb_eq|done].
Qed.
Definition post (path : text) (more : list (text * option text)) : HttpRequest :=
  MkHttp (T "POST") path None ((T "host", Some (T "127.0.0.1:8790")) :: more) (Some (V4 (ipv4 127 0 0 1))) None.
Definition small_happens : list happening :=
  [Arrive (moment_at 1000) (post (T "/api/auth/login") []); Proceed 0 (at_ 1001 true);
   Arrive (moment_at 2000) (post (T "/api/auth/users") [(T "cookie", Some (T "cgagentharness_session=5e551")); (T "x-cyclaw-csrf", Some csrf_token)]);
   Proceed 0 (at_ 2001 true)].
Definition empty_world : World := MkWorld (Some start) RateLimit.initial.
Definition finally : System :=
  happens lower b64 unb64 derive hash_token second limits (fun _ => []) budget csrf_token dispatch decode (fun _ _ _ x => x) small_happens
    (MkSystem (MkServer empty_world ([] : list text)) [] []).

Lemma account_changes_authorized_witness : exists a o cause, history finally !! 3%nat = Some (a, o, cause) /\ changes_accounts a = true
  /\ authorized lower b64 unb64 derive hash_token second limits start (map fst (take 3 (history finally))) (a, o, cause).
Proof.
  assert (H : match history finally !! 3%nat with Some (a, _, _) => changes_accounts a | None => false end = true) by (vm_compute; reflexivity).
  destruct (history finally !! 3%nat) as [[[a o] cause]|] eqn:E; [|discriminate H]. exists a, o, cause. split; [reflexivity|]. split; [exact H|].
  apply (account_changes_authorized (AC := small_authority) (UC := small_crate) (OS := small_stores) lower b64 unb64 derive hash_token second limits (fun _ => []) budget csrf_token dispatch decode (fun _ _ _ x => x) start
    empty_world ([] : list text) small_happens finally 3%nat a o cause); [apply dispatch_holds | apply decode_holds | done | done | done | done | exact E].
Defined.
End SmallRoutes.
